(* ===== verification/_CoqProject ===== *)
-Q . S2P
Prelude.v
OrderedDict.v
SessionModel.v
ExecutionRegistry.v
WorkScheduler.v
Coordinator.v
CoordinatorInv.v
CoordinatorProps.v
CoordinatorAnswers.v
CoordinatorRun.v
AsyncLRU.v
CircuitBreaker.v
Readiness.v
RequestRegistry.v
Admission.v
PyJson.v
Utf8.v
EventStore.v
ToolInvocationKey.v
PermissionQueue.v
PermissionTools.v
ToolCapabilities.v
AutoConfig.v
PermissionCompose.v
WarmPool.v
IpcFrames.v
IpcPipe.v
IpcPipeProps.v
IpcRun.v
Tables.v
MateModels.v
RequestStore.v
DeliveryStore.v
Recovery.v
StoreInv.v
StoreProps.v
RecoveryProps.v
DeliveryProps.v
ResultProps.v
StoreRun.v
ApprovalStore.v
ApprovalInv.v
ApprovalProps.v
ApprovalReplies.v
ApprovalChat.v
ApprovalRun.v
BudgetStore.v
BudgetProps.v
BudgetRun.v
GroupShare.v
GroupShareProps.v
GroupShareWindows.v
GroupShareRun.v
DeliveryJobs.v
GroupMentions.v
DeliveryService.v
DeliveryServiceProps.v
DeliveryGuard.v
DeliveryRun.v
MateScheduler.v
MateSchedulerInv.v
MateSchedulerSessions.v
MateSchedulerProps.v
StoreQueue.v
MateEndAgent.v
MateRun.v
WireTruncate.v
WireWorkflow.v
