(* ===== verification/Prelude.v ===== *)
(** * JiuwenSwarm: a verification development of the AgentServer core

    JiuwenSwarm runs agents in sessions behind an AgentServer.  A request comes in
    at the front ([src/jiuwenswarm/server/front]), which admits it against a bound
    on waiting requests and hands it to a backend; a resident worker
    ([server/worker]) journals what it emits so that a reconnecting client can
    replay it; the Session runtime ([runtime/session]) owns the executions of a
    session, routes answers to the execution that asked, serves queued work per
    session and closes sessions; the rails of an agent ([agents/harness/common/rails])
    decide which tool calls need the user's permission and stop an agent that
    loops; JiuwenMate ([server/jiuwenmate]) queues the Requests of its colleagues in SQLite
    tables, runs them one at a time per session, continues what a restart interrupted,
    has tool calls approved by the person who asked, in the web or by a chat message, charges
    model calls to budgets, delivers their results and shares content of one group with another
    as its owner decides; the sandbox keeps started processes in a pool; the enterprise
    plane keeps one agent per tenant in a cache; front and worker exchange frames over a
    socket or a pipe.  The
    development models these parts from their Python sources and proves what makes
    each of them correct.

    ** Conventions

    A synchronous method is one function of its state.  A coroutine is split at
    the awaits that can suspend, since only there can other tasks run: each segment
    is one call, and a step relation ([Inductive ..._step]) interleaves the calls of
    a component with the rest of the process.  Mutable objects that are shared
    (execution handles, session records, lanes, tracked requests) live in a heap
    ([gmap nat]) and are passed by reference.  A call that may raise is [py S E A]
    ([Prelude]): it returns its outcome with the state it leaves, since Python does
    not undo assignments when it raises.  A dictionary whose order can be seen is an
    [odict] ([OrderedDict]); a [set] or an index whose order cannot is a [gset] or a
    [gmap].  Python integers are unbounded, so [Z] is exact; clock readings are
    integers and arguments of the call that reads them.  Strings are lists of code
    points below 256; where the program counts the bytes of texts or cuts them
    ([WireTruncate], [WireWorkflow]) they are any text of Unicode, as its UTF-8 bytes.

    ** Parts

    - [Prelude]: outcomes and calls, Hoare triples and preservation with the hint
      database [preserves], [sorted], [strip]; [OrderedDict]: dictionaries;
      [PyJson]: JSON values, [str], [repr], [json.dumps], truth, [sorted] of strings;
      [Utf8]: texts of Unicode.
    - [SessionModel], [ExecutionRegistry], [WorkScheduler], [Coordinator]: the four
      files of [runtime/session].  [ExecutionRegistry.World] holds the handles and
      the registry, [WorkScheduler] adds the lanes, [Coordinator.Coord] adds the
      records, generations and deliveries: each component's state contains the one
      it calls, as its objects do.  [CoordinatorInv] has the invariant and the
      automation that carries it through a method (databases [coord]),
      [CoordinatorProps] and [CoordinatorAnswers] the theorems, [CoordinatorRun] a
      run that instantiates them.
    - [Readiness], [RequestRegistry], [Admission]: [server/lifecycle.py] and
      [server/front]; [Admission.Front] contains the states of the other two.
    - [EventStore]: [server/worker/event_store.py].
    - [ToolInvocationKey], [PermissionQueue]: the identity of a tool call and the
      queue of permission questions of a root session.
    - [PermissionTools], [ToolCapabilities], [AutoConfig], [PermissionCompose]: tool
      names and levels, the capability table, the normalisation for the automatic
      mode and the composition of the permission layers, each calling the ones
      before it.
    - [WireTruncate], [WireWorkflow]: [server/wire_truncate.py], which fits history
      and workflow snapshots into byte budgets, with the page that
      [team.history.get] answers and the terminal client's reassembly of parts.
    - [CircuitBreaker]: the rail that stops looping agents; [AsyncLRU]: the cache of
      tenants' agents; [WarmPool]: the threads of the sandbox's pool of started processes
      ([jiuwenbox], [server/runtime/warm_pool.py]).
    - [IpcFrames]: the frames between front and worker ([server/ipc/protocol.py]); [IpcPipe]: the
      thread and the event loop that share the receiving half of a pipe ([server/ipc/stream.py]),
      one step at a time, with what each step shows; [IpcPipeProps] has the theorems, [IpcRun] runs.
    - JiuwenMate.  [Tables]: SQLite tables as lists of rows with the statements that are used on
      them, and transactions; [MateModels]: [execution_models.py].  [RequestStore] and
      [DeliveryStore] are [execution_repository.py], over one record of tables, the latter with
      [output_files.py] and how [delivery_service.py] reads an acknowledgement; [Recovery] is
      [execution_control_service.py] and [recovery_service.py] on the same tables.  [StoreInv]
      makes one step relation of all their calls and has its invariant; [StoreProps],
      [RecoveryProps], [DeliveryProps] and [ResultProps] have the theorems, [StoreRun] a run.
      [DeliveryService] is [dispatch_pending] of [delivery_service.py] with the guard, its
      workers split at their awaits and interleaved with all these calls, [GroupMentions] the
      part of [group_collaboration.py] that it calls; [DeliveryJobs] says that jobs name their
      deliveries, [DeliveryServiceProps] and [DeliveryGuard] have the theorems, [DeliveryRun] a run.
      [ApprovalStore] is [permission_approval_repository.py], in the same file as these tables;
      [ApprovalInv] interleaves its calls with theirs, [ApprovalProps] has the theorems;
      [ApprovalReplies] is [permission_replies.py], a handler per message split at its awaits,
      [ApprovalChat] its theorem, [ApprovalRun] a run of both.  [BudgetStore] is
      [budget_repository.py] with [ports/budget.py], [BudgetProps] has the theorems, [BudgetRun] a run.
      [GroupShare] is [group_share_repository.py], [GroupShareProps] makes its calls of elementary
      steps and has the theorems, [GroupShareWindows] the one on windows, [GroupShareRun] a run.
      [MateScheduler] is [session_scheduler.py] against the interface [RequestQueue] with its laws
      [RequestQueueLaws], which [StoreQueue] proves of the tables; [MateSchedulerInv],
      [MateSchedulerSessions], [MateSchedulerProps] and [MateEndAgent] have its theorems, [MateRun] a run on the tables.

    ** Theorems

    - Coordinator and registry: one invariant over all interleavings (indexes agree,
      generations are current, ids unique, finished executions queued for eviction);
      an answer reaches the execution that waits for it, one delivery at a time, and
      every way a delivery can end gives the claim back; closing cancels what did
      not time out and nothing else; descendants are found, once each, by a walk
      that ends.
    - Scheduler: at most one operation runs per lane, entries are served in the
      order of their priority, a waiting submission is always being worked on,
      cancelled work never runs.
    - Front: the waiting counter is exact, nothing is left behind without aborts;
      replay after a reconnect is lossless or says that it is not.
    - Permissions: the queue's indexes agree and one answer is in flight per
      session; identities survive the wire; a deny is final, only the global layer
      enables, the automatic mode asks for every tool the table does not name as
      quiet, and merging entries never relaxes a level or a rule.
    - Wire: a history page fits its byte budget, following the pages gives every
      record once and ends, and what is split into parts is put together unchanged.
    - Circuit breaker: an agent is stopped exactly when its calls loop; the bounded
      history is a window of its own calls.  Cache: it implements a finite map.  Pool: a
      sandbox handed out was started with what the request asks for, as far as it is compared.
    - Frames and pipe: what was sent as frames is received as it was sent, also from a stream that
      is cut; however the two threads interleave, messages arrive once and in order, a waiting [recv]
      is always woken, what waits is bounded, and the handle is not closed under a read.
    - JiuwenMate's stores: one invariant over all interleavings of their calls; a call that
      raises changes nothing; a source event is queued once, a Request's status moves one way
      but for a pause, an interrupted Execution is continued once, a restart closes a Request
      by what is known of it; the results an Execution ends with have deliveries, whose
      ends are final and which are not sent again when it is unknown whether they arrived.
    - JiuwenMate's approvals: a tool call is approved only by an answer of who was asked, in time
      and while its pause is current, and nobody else is heard; an approval is answered once, and
      a chat message, however often it is delivered, decides one approval at most.
    - JiuwenMate's budgets: the totals of an account are those of its calls, admission never oversells
      a limit, a call is charged once, and an Execution that has ended leaves none open.
    - JiuwenMate's sharing: what one group is shown of another the owner has decided, for this content
      and this destination; a revoked grant does not come back by itself, and it retires the
      windows of private context that rest on it.
    - JiuwenMate's service of deliveries: sends never exceed the attempts counted, and what is
      sent is what the sharing guard has just allowed, or the notice that is stored instead.
    - JiuwenMate's scheduler: the limits hold in every interleaving, a session's run is not replaced
      before it has been saved, and nothing is started beside a dispatched Request of its session;
      each task that waits for the
      lock gets it in its turn, and a colleague that is being deleted has nothing queued or
      started once its section has run.

    ** Fuel and bounds

    Recursions that are not structural take fuel.  In [Coordinator] the walks up
    and down the lineage of an execution ([ancestor_loop], [lineage_loop], [descend])
    have one more than the number of registered executions: each round meets an
    execution it has not met, and [with_descendants_correct] proves that the walk
    down returns all there is.  [EventStore.trim] has the number of records, of
    which each round drops one ([trim_drop]).  [WireTruncate.follow] and
    [WireWorkflow.collect] are clients that page through a history; they have one
    more than the number of entries, and the theorems prove that they arrive.
    The constants of the sources (2048 records, 512 idle ones, 64 permission cards,
    64 KB per history record, and the like) are kept as they are.

    ** Not modelled

    The gateway's channels, the web front end, the desktop applications, SDKs and
    connectors, the sandbox ([jiuwenbox]) but for its pool, JiuwenMate's channels,
    searches, the service over the shared receipts and the loops around the stores, the adapters to the agent core
    ([server/runtime/agent_adapter], [server/agent_ws_server.py]), prompts, tools,
    memory, recommendation and evolution of agents, skills and extensions, stores
    on databases and files, observability: glue around other packages, I/O and
    text, with no state of their own that could be separated from it, or parts
    that have not been reached.  Within the parts modelled: the bounded queue
    between a stream's producer and consumer and the waits themselves (the
    coordinator's [await]s are points where anything may happen), texts of
    messages and logs, and what the packages outside the repository do: it is an
    argument of the definition that calls them. *)

From Stdlib Require Export ZArith Lia.
From stdpp Require Export base option gmap sets strings numbers sorting relations.
From stdpp Require Export list.

#[export] Set Warnings "-clear-no-such-hyp".

(** ** Python results

    A call of the source either returns a value or raises.  Python does not
    undo the assignments made before an exception, so a stateful call returns
    its outcome together with the state it leaves. *)

Inductive outcome (E A : Type) : Type :=
| Ret (a : A)
| Exc (e : E).
Arguments Ret {E A} a.
Arguments Exc {E A} e.

Definition py (S E A : Type) : Type := S → outcome E A * S.

Definition py_ret {S E A} (a : A) : py S E A := λ s, (Ret a, s).
Definition py_raise {S E A} (e : E) : py S E A := λ s, (Exc e, s).
Definition py_get {S E} : py S E S := λ s, (Ret s, s).
Definition py_modify {S E} (f : S → S) : py S E unit := λ s, (Ret tt, f s).
Definition py_bind {S E A B} (m : py S E A) (k : A → py S E B) : py S E B :=
  λ s, match m s with
       | (Ret a, s') => k a s'
       | (Exc e, s') => (Exc e, s')
       end.

Declare Scope py_scope.
Delimit Scope py_scope with py.
Notation "x <- m ;; k" := (py_bind m (λ x, k))
  (at level 20, m at level 99, k at level 200) : py_scope.
Notation "m ;; k" := (py_bind m (λ _, k))
  (at level 100, k at level 200, right associativity) : py_scope.
Open Scope py_scope.

(** [if not c: raise e] followed by the rest of the call. *)
Definition py_guard {S E} (c : bool) (e : E) : py S E unit :=
  if c then py_ret tt else py_raise e.

(** A value that must be there, or the exception raised when it is not. *)
Definition py_some {S E A} (o : option A) (e : E) : py S E A :=
  match o with Some a => py_ret a | None => py_raise e end.

(** ** Hoare triples for stateful calls

    [triple P m Q R]: run from a state where [P] holds, [m] returns with [Q] or
    raises with [R].  [preserves I m]: [m] keeps [I], whether it returns or
    raises. *)

Definition triple {S E A} (P : S → Prop) (m : py S E A)
    (Q : A → S → Prop) (R : E → S → Prop) : Prop :=
  ∀ s, P s → match m s with
             | (Ret a, s') => Q a s'
             | (Exc e, s') => R e s'
             end.

Definition preserves {S E A} (I : S → Prop) (m : py S E A) : Prop :=
  ∀ s, I s → I (m s).2.

Section triples.
Context {S E : Type}.
Implicit Types P I : S → Prop.

Lemma triple_bind {A B} P (m : py S E A) (k : A → py S E B) Q1 Q R :
  triple P m Q1 R → (∀ a, triple (Q1 a) (k a) Q R) → triple P (py_bind m k) Q R.
Proof.
  intros Hm Hk s Hs. specialize (Hm s Hs). unfold py_bind.
  destruct (m s) as [[a|e] s'].
  - exact (Hk a s' Hm).
  - exact Hm.
Qed.

Lemma triple_conseq {A} P P' (m : py S E A) (Q Q' : A → S → Prop) (R R' : E → S → Prop) :
  triple P' m Q' R' → (∀ s, P s → P' s) →
  (∀ a s, Q' a s → Q a s) → (∀ e s, R' e s → R e s) → triple P m Q R.
Proof.
  intros Hm HP HQ HR s Hs. specialize (Hm s (HP s Hs)).
  destruct (m s) as [[a|e] s']; auto.
Qed.

Lemma preserves_triple {A} I (m : py S E A) :
  preserves I m ↔ triple I m (λ _, I) (λ _, I).
Proof.
  unfold preserves, triple. split; intros H s Hs; specialize (H s Hs);
    by destruct (m s) as [[?|?] ?].
Qed.

Lemma preserves_ret {A} I (a : A) : preserves I (py_ret (S := S) (E := E) a).
Proof. by intros s. Qed.

Lemma preserves_raise {A} I (e : E) : preserves I (py_raise (S := S) (A := A) e).
Proof. by intros s. Qed.

Lemma preserves_get I : preserves I (py_get (S := S) (E := E)).
Proof. by intros s. Qed.

Lemma preserves_modify I f :
  (∀ s, I s → I (f s)) → preserves I (py_modify (S := S) (E := E) f).
Proof. intros H s Hs. by apply H. Qed.

Lemma preserves_bind {A B} I (m : py S E A) (k : A → py S E B) :
  preserves I m → (∀ a, preserves I (k a)) → preserves I (py_bind m k).
Proof.
  rewrite !preserves_triple. intros Hm Hk.
  eapply triple_bind; [exact Hm|]. intros a. by apply preserves_triple.
Qed.

(** After [s <- py_get] the rest runs from that same state. *)
Lemma preserves_bind_get {B} I (k : S → py S E B) :
  (∀ s, I s → I (k s s).2) → preserves I (py_bind py_get k).
Proof. intros H s Hs. by apply H. Qed.

Lemma preserves_guard I c (e : E) : preserves I (py_guard (S := S) c e).
Proof. intros s Hs. by destruct c. Qed.

Lemma preserves_some {A} I (o : option A) (e : E) : preserves I (py_some (S := S) o e).
Proof. intros s Hs. by destruct o. Qed.

(** Inversion of a call that returned. *)
Lemma py_bind_ret_inv {A B} (m : py S E A) (k : A → py S E B) s b s' :
  py_bind m k s = (Ret b, s') → ∃ a s1, m s = (Ret a, s1) ∧ k a s1 = (Ret b, s').
Proof. unfold py_bind. destruct (m s) as [[a|e] s1] eqn:Em; [by eauto|done]. Qed.

End triples.

Create HintDb preserves.
#[export] Hint Resolve preserves_ret preserves_raise preserves_get preserves_guard
  preserves_some : preserves.
#[export] Hint Extern 3 (preserves _ (py_bind _ _)) =>
  (apply preserves_bind; [|intros]) : preserves.
#[export] Hint Extern 4 (preserves _ (match ?x with _ => _ end)) =>
  (destruct x) : preserves.

(** ** Lists *)

Section lists.
Context {A : Type}.
Implicit Types l : list A.

Lemma Forall_filter (Q P : A → Prop) `{∀ x, Decision (P x)} l :
  Forall Q l → Forall Q (filter P l).
Proof. rewrite !Forall_forall. intros HQ x [_ Hx]%list_elem_of_filter. by apply HQ. Qed.

Lemma filter_true (P : A → Prop) `{∀ x, Decision (P x)} l : Forall P l → filter P l = l.
Proof. induction 1 as [|x l Hx _ IH]; [done|]. by rewrite filter_cons_True, IH. Qed.

Lemma StronglySorted_filter (R : relation A) (P : A → Prop) `{∀ x, Decision (P x)} l :
  StronglySorted R l → StronglySorted R (filter P l).
Proof.
  induction 1 as [|x l Hl IH Hx]; [constructor|]. rewrite filter_cons.
  case_decide; [|done]. constructor; [done|by apply Forall_filter].
Qed.

Lemma StronglySorted_snoc (R : relation A) l x :
  StronglySorted R l → Forall (λ y, R y x) l → StronglySorted R (l ++ [x]).
Proof.
  induction 1 as [|y l Hl IH Hy]; simpl; intros Hx; [by repeat constructor|].
  apply Forall_cons in Hx as [Hyx Hx]. constructor; [by auto|].
  apply Forall_app. split; [done|by repeat constructor].
Qed.

End lists.

(** ** [sorted(l, key=f)]

    A stable insertion sort: equal keys keep their order. *)

Section py_sorted.
Context {A : Type} (key : A → Z).
Implicit Types l : list A.

Fixpoint py_insert (x : A) l : list A :=
  match l with
  | [] => [x]
  | y :: l' => if Z.leb (key x) (key y) then x :: l else y :: py_insert x l'
  end.

Definition py_sorted l : list A := foldr py_insert [] l.

Lemma py_insert_perm x l : py_insert x l ≡ₚ x :: l.
Proof.
  induction l as [|y l IH]; simpl; [done|]. case_match; [done|].
  by rewrite IH, Permutation_swap.
Qed.

Lemma py_sorted_perm l : py_sorted l ≡ₚ l.
Proof. induction l as [|x l IH]; simpl; [done|]. by rewrite py_insert_perm, IH. Qed.

Lemma py_insert_sorted x l :
  StronglySorted (λ a b, (key a ≤ key b)%Z) l →
  StronglySorted (λ a b, (key a ≤ key b)%Z) (py_insert x l).
Proof.
  induction 1 as [|y l Hl IH Hy]; simpl; [by repeat constructor|].
  destruct (Z.leb_spec (key x) (key y)) as [Hle|Hgt].
  - constructor; [by constructor|]. constructor; [done|].
    eapply Forall_impl; [exact Hy|]. simpl. lia.
  - constructor; [done|]. rewrite py_insert_perm. constructor; [lia|done].
Qed.

Lemma py_sorted_sorted l : StronglySorted (λ a b, (key a ≤ key b)%Z) (py_sorted l).
Proof. induction l; simpl; [constructor|by apply py_insert_sorted]. Qed.

(** A sorted list is left as it is. *)
Lemma py_sorted_id l : StronglySorted (λ a b, (key a ≤ key b)%Z) l → py_sorted l = l.
Proof.
  induction 1 as [|x l Hl IH Hx]; [done|]. cbn [py_sorted foldr]. fold (py_sorted l). rewrite IH.
  destruct Hx as [|y l Hy _]; [done|]. simpl. by rewrite (proj2 (Z.leb_le _ _) Hy).
Qed.

(** Elements with one key keep their relative order. *)
Lemma py_insert_stable z x l :
  filter (λ a, key a = z) (py_insert x l) =
  filter (λ a, key a = z) (x :: l).
Proof.
  induction l as [|y l IH]; simpl; [done|]. case_match eqn:Hle; [done|].
  apply Z.leb_gt in Hle. rewrite filter_cons, IH, !filter_cons.
  repeat case_decide; try done; lia.
Qed.

Lemma py_sorted_stable z l :
  filter (λ a, key a = z) (py_sorted l) = filter (λ a, key a = z) l.
Proof.
  induction l as [|x l IH]; [done|]. cbn [py_sorted foldr].
  fold (py_sorted l). rewrite py_insert_stable, !filter_cons, IH. done.
Qed.

Lemma elem_of_py_sorted x l : x ∈ py_sorted l ↔ x ∈ l.
Proof. by rewrite py_sorted_perm. Qed.

End py_sorted.

(** ** Python strings

    A [str] is a [string] whose characters are the code points below 256. *)

(** [str.isspace] on the code points below 256. *)
Definition py_isspace (c : Ascii.ascii) : bool :=
  let n := Ascii.nat_of_ascii c in
  ((9 <=? n) && (n <=? 13)) || ((28 <=? n) && (n <=? 32)) || (n =? 133) || (n =? 160).

Fixpoint py_lstrip (s : string) : string :=
  match s with
  | String c s' => if py_isspace c then py_lstrip s' else s
  | EmptyString => EmptyString
  end.

Fixpoint py_rstrip (s : string) : string :=
  match s with
  | String c s' =>
      match py_rstrip s' with
      | EmptyString => if py_isspace c then EmptyString else String c EmptyString
      | r => String c r
      end
  | EmptyString => EmptyString
  end.

(** [str.strip()] *)
Definition py_strip (s : string) : string := py_rstrip (py_lstrip s).

(** [x or d] for strings: the empty string is false. *)
Definition str_or (x d : string) : string :=
  match x with EmptyString => d | _ => x end.

(** Truth of a string. *)
Definition str_true (s : string) : bool :=
  match s with EmptyString => false | _ => true end.

Lemma py_rstrip_idemp s : py_rstrip (py_rstrip s) = py_rstrip s.
Proof.
  induction s as [|c s IH]; [done|]. simpl.
  destruct (py_rstrip s) as [|c' s'] eqn:E.
  - destruct (py_isspace c) eqn:Ec; [done|]. simpl. by rewrite Ec.
  - change (py_rstrip (String c (String c' s'))) with
      (match py_rstrip (String c' s') with
       | EmptyString => if py_isspace c then EmptyString else String c EmptyString
       | r => String c r
       end). by rewrite IH.
Qed.

Lemma py_lstrip_head s :
  match py_lstrip s with EmptyString => True | String c _ => py_isspace c = false end.
Proof.
  induction s as [|c s IH]; [done|]. simpl.
  by destruct (py_isspace c) eqn:E.
Qed.

Lemma py_lstrip_fix c s :
  py_isspace c = false → py_lstrip (py_rstrip (String c s)) = py_rstrip (String c s).
Proof.
  intros Hc. simpl. rewrite Hc. by destruct (py_rstrip s); simpl; rewrite Hc.
Qed.

(** Stripping twice is stripping once. *)
Lemma py_strip_idemp s : py_strip (py_strip s) = py_strip s.
Proof.
  unfold py_strip. pose proof (py_lstrip_head s) as H.
  destruct (py_lstrip s) as [|c r]; [done|].
  by rewrite py_lstrip_fix, py_rstrip_idemp.
Qed.

Lemma str_true_spec s : str_true s = true ↔ s ≠ EmptyString.
Proof. by destruct s. Qed.
