(* ===== verification/OrderedDict.v ===== *)
(** * Python dictionaries in insertion order

    A [dict] (and an [OrderedDict]) is the list of its items in insertion order.
    Assigning to a key that is present keeps its place; a new key goes to the
    end.  Every dictionary of the source whose iteration order can be observed
    is modelled with this type; [od_wf] is the invariant that makes it a
    dictionary, and each operation keeps it. *)

From S2P Require Import Prelude.

Abbreviation odict K V := (list (K * V)) (only parsing).

Section odict.
Context {K V : Type} {EqK : EqDecision K}.
Implicit Types (d : odict K V) (k : K) (v : V).

(** [d.get(k)] *)
Fixpoint od_get d k : option V :=
  match d with
  | [] => None
  | (k', v) :: d' => if decide (k = k') then Some v else od_get d' k
  end.

(** [k in d] *)
Definition od_mem d k : bool :=
  match od_get d k with Some _ => true | None => false end.

(** [d[k] = v] *)
Fixpoint od_set d k v : odict K V :=
  match d with
  | [] => [(k, v)]
  | (k', v') :: d' =>
      if decide (k = k') then (k', v) :: d' else (k', v') :: od_set d' k v
  end.

(** [d.pop(k, None)], [del d[k]] once [k] is known to be there *)
Definition od_pop d k : odict K V := filter (λ kv, kv.1 ≠ k) d.

(** [d.keys()], [d.values()] *)
Definition od_keys d : list K := d.*1.
Definition od_values d : list V := d.*2.

(** [d.move_to_end(k)] *)
Definition od_move_to_end d k : odict K V :=
  match od_get d k with
  | Some v => od_pop d k ++ [(k, v)]
  | None => d
  end.

(** [d.popitem(last=False)]: [None] is the [KeyError] of an empty dictionary. *)
Definition od_popfirst d : option (K * V * odict K V) :=
  match d with [] => None | kv :: d' => Some (kv, d') end.

(** Keys occur once. *)
Definition od_wf d : Prop := NoDup (od_keys d).

Lemma od_get_set_eq d k v : od_get (od_set d k v) k = Some v.
Proof.
  induction d as [|[k' v'] d IH]; simpl.
  - by rewrite decide_True.
  - destruct (decide (k = k')) as [->|]; simpl.
    + by rewrite decide_True.
    + by rewrite decide_False.
Qed.

Lemma od_get_set_ne d k k' v : k ≠ k' → od_get (od_set d k v) k' = od_get d k'.
Proof.
  intros Hne. induction d as [|[k1 v1] d IH]; simpl.
  - by rewrite decide_False.
  - destruct (decide (k = k1)) as [->|]; simpl.
    + by rewrite !decide_False.
    + by rewrite IH.
Qed.

Lemma od_get_set d k k' v :
  od_get (od_set d k v) k' = if decide (k = k') then Some v else od_get d k'.
Proof.
  destruct (decide (k = k')) as [->|]; [apply od_get_set_eq|by apply od_get_set_ne].
Qed.

Lemma od_get_pop_eq d k : od_get (od_pop d k) k = None.
Proof.
  unfold od_pop. induction d as [|[k' v'] d IH]; [done|].
  rewrite filter_cons; simpl. case_decide; simpl; [|done].
  by rewrite decide_False.
Qed.

Lemma od_get_pop_ne d k k' : k ≠ k' → od_get (od_pop d k) k' = od_get d k'.
Proof.
  intros Hne. unfold od_pop. induction d as [|[k1 v1] d IH]; [done|].
  rewrite filter_cons; simpl. case_decide; simpl; rewrite IH; [done|].
  destruct (decide (k' = k1)) as [->|]; [|done].
  exfalso. naive_solver.
Qed.

Lemma od_get_pop d k k' :
  od_get (od_pop d k) k' = if decide (k = k') then None else od_get d k'.
Proof.
  destruct (decide (k = k')) as [->|]; [apply od_get_pop_eq|by apply od_get_pop_ne].
Qed.

Lemma od_get_None d k : od_get d k = None ↔ k ∉ od_keys d.
Proof.
  induction d as [|[k' v'] d IH]; simpl.
  - split; [intros _; apply not_elem_of_nil|done].
  - rewrite not_elem_of_cons. case_decide; [split; [done|tauto]|]. rewrite IH. tauto.
Qed.

Lemma od_get_is_Some d k : is_Some (od_get d k) ↔ k ∈ od_keys d.
Proof.
  destruct (od_get d k) eqn:E.
  - split; [intros _|by eauto]. destruct (decide (k ∈ od_keys d)) as [|H]; [done|].
    apply od_get_None in H. congruence.
  - apply od_get_None in E. split; [intros [v ?]; congruence|done].
Qed.

Lemma od_mem_spec d k : od_mem d k = true ↔ k ∈ od_keys d.
Proof.
  unfold od_mem. rewrite <-od_get_is_Some.
  destruct (od_get d k); split; naive_solver.
Qed.

Lemma od_get_elem d k v : od_get d k = Some v → (k, v) ∈ d.
Proof.
  induction d as [|[k' v'] d IH]; simpl; [done|].
  case_decide; intros ?; simplify_eq; [by left|right; auto].
Qed.

Lemma od_elem_get d k v : od_wf d → (k, v) ∈ d → od_get d k = Some v.
Proof.
  unfold od_wf, od_keys. induction d as [|[k' v'] d IH]; simpl; [set_solver|].
  intros [Hk Hd]%NoDup_cons [?|Hin]%elem_of_cons; simplify_eq.
  - by rewrite decide_True.
  - rewrite decide_False; [by apply IH|]. intros ->.
    apply Hk. apply (list_elem_of_fmap_2 fst) in Hin. done.
Qed.

Lemma od_get_elem_iff d k v : od_wf d → od_get d k = Some v ↔ (k, v) ∈ d.
Proof. intros Hwf. split; [apply od_get_elem|by apply od_elem_get]. Qed.

Lemma od_elem_set d k v kv : kv ∈ od_set d k v → kv = (k, v) ∨ kv ∈ d.
Proof.
  induction d as [|[k' v'] d IH]; cbn [od_set]; [intros ?%list_elem_of_singleton; by left|].
  case_decide as Hk; intros [->|H]%elem_of_cons.
  - left. by rewrite Hk.
  - right. by right.
  - right. by left.
  - destruct (IH H); [by left|right; by right].
Qed.

Lemma od_values_get d v : od_wf d → v ∈ od_values d ↔ ∃ k, od_get d k = Some v.
Proof.
  intros Hwf. unfold od_values. rewrite list_elem_of_fmap. split.
  - intros ([k v'] & -> & Hin). exists k. by apply od_elem_get.
  - intros [k Hk]. exists (k, v). split; [done|by apply od_get_elem].
Qed.

Lemma od_keys_set d k v :
  od_keys (od_set d k v) = if od_mem d k then od_keys d else od_keys d ++ [k].
Proof.
  unfold od_mem, od_keys. induction d as [|[k' v'] d IH]; csimpl; [done|].
  case_decide; csimpl; [done|]. rewrite IH. by case_match.
Qed.

Lemma od_set_new d k v : od_get d k = None → od_set d k v = d ++ [(k, v)].
Proof.
  induction d as [|[k' v'] d IH]; simpl; [done|].
  case_decide; [done|]. intros Hd. by rewrite IH.
Qed.

Lemma od_set_id d k v : od_get d k = Some v → od_set d k v = d.
Proof.
  induction d as [|[k' v'] d IH]; simpl; [done|]. case_decide.
  - by intros [= ->].
  - intros H'. by rewrite IH.
Qed.

Lemma od_pop_fresh d k : od_get d k = None → od_pop d k = d.
Proof.
  unfold od_pop. induction d as [|[k' v'] d IH]; simpl; [done|].
  case_decide; [done|]. intros Hd. rewrite filter_cons_True; [|simpl; congruence].
  by rewrite IH.
Qed.

Lemma od_wf_nil : od_wf [].
Proof. apply NoDup_nil_2. Qed.

Lemma od_wf_set d k v : od_wf d → od_wf (od_set d k v).
Proof.
  intros Hwf. unfold od_wf. rewrite od_keys_set. destruct (od_mem d k) eqn:E; [done|].
  apply NoDup_app. split_and!; [done| |apply NoDup_singleton].
  intros k' Hk' ->%list_elem_of_singleton. apply od_mem_spec in Hk'. congruence.
Qed.

Lemma od_keys_pop d k : od_keys (od_pop d k) = filter (λ k', k' ≠ k) (od_keys d).
Proof.
  unfold od_keys, od_pop. induction d as [|[k' v'] d IH]; [done|].
  rewrite filter_cons; csimpl. rewrite filter_cons. case_decide; csimpl; by rewrite IH.
Qed.

Lemma od_wf_pop d k : od_wf d → od_wf (od_pop d k).
Proof. unfold od_wf. rewrite od_keys_pop. apply NoDup_filter. Qed.

Lemma od_wf_move d k : od_wf d → od_wf (od_move_to_end d k).
Proof.
  unfold od_move_to_end. destruct (od_get d k) as [v|] eqn:E; [|done].
  intros Hwf. rewrite <-od_set_new by apply od_get_pop_eq.
  by apply od_wf_set, od_wf_pop.
Qed.

Lemma od_get_move d k k' : od_get (od_move_to_end d k) k' = od_get d k'.
Proof.
  unfold od_move_to_end. destruct (od_get d k) as [v|] eqn:E; [|done].
  rewrite <-od_set_new by apply od_get_pop_eq.
  rewrite od_get_set, od_get_pop. by destruct (decide (k = k')) as [<-|].
Qed.

Lemma od_length_set d k v :
  length (od_set d k v) = if od_mem d k then length d else S (length d).
Proof.
  rewrite <-(length_fmap fst (od_set d k v)). change ((od_set d k v).*1) with (od_keys (od_set d k v)).
  rewrite od_keys_set. unfold od_keys.
  destruct (od_mem d k); rewrite ?length_app, length_fmap; simpl; lia.
Qed.

Lemma od_length_pop_le d k : length (od_pop d k) ≤ length d.
Proof. apply length_filter. Qed.

Lemma od_pop_set_new d k v : od_get d k = None → od_pop (od_set d k v) k = d.
Proof.
  intros H. rewrite od_set_new by done. unfold od_pop.
  rewrite filter_app. rewrite (filter_cons_False _ (k, v)) by (simpl; tauto).
  rewrite filter_nil, app_nil_r. by apply od_pop_fresh.
Qed.

Lemma od_pop_set d k v : od_pop (od_set d k v) k = od_pop d k.
Proof.
  unfold od_pop. induction d as [|[k' v'] d IH]; simpl.
  - by rewrite filter_cons_False by (simpl; tauto).
  - case_decide as Hk.
    + subst k'. by rewrite !filter_cons_False by (simpl; tauto).
    + by rewrite !filter_cons_True, IH by (simpl; congruence).
Qed.

(** [d[k] = v; d.move_to_end(k)] *)
Lemma od_move_set d k v : od_move_to_end (od_set d k v) k = od_pop d k ++ [(k, v)].
Proof. unfold od_move_to_end. by rewrite od_get_set_eq, od_pop_set. Qed.

(** [d.pop(k); d[k] = v] *)
Lemma od_set_pop d k v : od_set (od_pop d k) k v = od_pop d k ++ [(k, v)].
Proof. apply od_set_new, od_get_pop_eq. Qed.

Lemma od_wf_tail kv d : od_wf (kv :: d) → od_wf d.
Proof. unfold od_wf, od_keys. csimpl. rewrite NoDup_cons. tauto. Qed.

Lemma od_foldl_pop_wf ks d : od_wf d → od_wf (foldl od_pop d ks).
Proof. revert d. induction ks as [|k ks IH]; intros d Hd; [done|]. apply IH, od_wf_pop, Hd. Qed.

Lemma od_get_foldl_pop ks d k :
  od_get (foldl od_pop d ks) k = if decide (k ∈ ks) then None else od_get d k.
Proof.
  revert d. induction ks as [|k1 ks IH]; intros d; cbn [foldl].
  - by rewrite decide_False by apply not_elem_of_nil.
  - rewrite IH, od_get_pop.
    destruct (decide (k ∈ ks)) as [Hks|Hks], (decide (k1 = k)) as [->|Hk].
    + by rewrite decide_True by (by left).
    + by rewrite decide_True by (by right).
    + by rewrite decide_True by (by left).
    + rewrite decide_False; [done|]. intros [?|?]%elem_of_cons; congruence.
Qed.

Lemma od_foldl_pop_filter ks d :
  foldl od_pop d ks = filter (λ kv, kv.1 ∉ ks) d.
Proof.
  revert d. induction ks as [|k1 ks IH]; intros d; cbn [foldl].
  - induction d as [|kv d IH]; [done|].
    rewrite filter_cons_True; [by f_equal|apply not_elem_of_nil].
  - rewrite IH. unfold od_pop. rewrite list_filter_filter.
    apply list_filter_iff. intros kv. rewrite not_elem_of_cons. tauto.
Qed.

Lemma od_length_pop d k :
  od_wf d → is_Some (od_get d k) → S (length (od_pop d k)) = length d.
Proof.
  unfold od_wf, od_pop. induction d as [|[k' v'] d IH]; simpl; [by intros _ [? ?]|].
  intros [Hk' Hd]%NoDup_cons. case_decide as Hd0; intros Hs.
  - subst k'. rewrite filter_cons_False by (simpl; tauto).
    fold (od_pop d k). rewrite od_pop_fresh; [done|]. by apply od_get_None.
  - rewrite filter_cons_True by (simpl; congruence). simpl. by rewrite IH.
Qed.

End odict.

(** The finite map a dictionary denotes when its order is forgotten. *)
Definition od_to_map {K V} `{Countable K} (d : odict K V) : gmap K V := list_to_map d.

Lemma od_to_map_lookup {K V} `{Countable K} (d : odict K V) k :
  od_to_map d !! k = od_get d k.
Proof.
  unfold od_to_map. induction d as [|[k' v'] d IH]; simpl; [apply lookup_empty|].
  rewrite lookup_insert, IH. destruct (decide (k' = k)) as [<-|].
  - by rewrite decide_True.
  - by rewrite decide_False.
Qed.

(** Two dictionaries are equal in Python ([==]) when they have the same entries,
    in whatever order. *)
Definition od_eq {K V} `{EqDecision K} (d e : odict K V) : Prop := ∀ k, od_get d k = od_get e k.

#[export] Instance od_eq_equivalence {K V} `{EqDecision K} : Equivalence (@od_eq K V _).
Proof.
  split; [by intros d k|by intros d e H k|].
  intros d e f H1 H2 k. by rewrite H1, H2.
Qed.

#[export] Instance od_get_proper {K V} `{EqDecision K} : Proper (od_eq ==> eq ==> eq) (@od_get K V _).
Proof. intros d e H k ? <-. apply H. Qed.

#[export] Instance od_set_proper {K V} `{EqDecision K} : Proper (od_eq ==> eq ==> eq ==> od_eq) (@od_set K V _).
Proof. intros d e H k ? <- v ? <- k'. by rewrite !od_get_set, H. Qed.

#[export] Instance od_pop_proper {K V} `{EqDecision K} : Proper (od_eq ==> eq ==> od_eq) (@od_pop K V _).
Proof. intros d e H k ? <- k'. by rewrite !od_get_pop, H. Qed.

#[export] Instance od_wf_dec {K V} `{EqDecision K} (d : odict K V) : Decision (od_wf d).
Proof. unfold od_wf. apply _. Defined.

Create HintDb odict.
#[export] Hint Resolve od_wf_nil od_wf_set od_wf_pop od_wf_move od_wf_tail
  od_foldl_pop_wf : odict.
