(* ===== verification/SessionModel.v ===== *)
(** * Models shared by the Session runtime

    Source: [jiuwenswarm/runtime/session/model.py].

    The enumerations with the two classifications the runtime reads
    ([scheduled], [latest_first], [terminal]), the execution handle and its
    snapshot.  A handle is a mutable Python object: other files keep handles in a
    heap and pass references.  The fields that are assigned only by the
    constructor are grouped in [ident]. *)

From S2P Require Import Prelude.

(** ** Enumerations *)

Inductive RuntimeSessionState := READY | ACTIVE | QUIESCING | CLOSED.

Inductive SessionPersistencePolicy := PERSISTENT_POLICY.

Inductive SessionWorkKind :=
| CHAT_UNARY | CHAT_STREAM | SESSION_MESSAGE | GOAL_STREAM | GOAL_CONTROL
| GOAL_ATTACH | CONTROL_INPUT | SESSION_INPUT | HEARTBEAT | TEAM_REQUEST
| TEAM_CONTROL | TEAM_BACKGROUND.

Inductive SessionExecutionState :=
| QUEUED | RUNNING | WAITING_FOR_CONTROL | WAITING_FOR_INPUT
| SUCCEEDED | FAILED | CANCELLED.

Inductive ExecutionCancelCause :=
| CONSUMER_CLOSED | CLIENT_DISCONNECTED | USER_PAUSE | USER_CANCEL
| SESSION_DELETED | RUNTIME_CLOSED.

Inductive TeamWaiterKind := WAITER_NONE | WAITER_PERSISTENT | WAITER_REQUEST | WAITER_EXCLUSIVE.

#[export] Instance RuntimeSessionState_eq_dec : EqDecision RuntimeSessionState.
Proof. solve_decision. Defined.
#[export] Instance SessionPersistencePolicy_eq_dec : EqDecision SessionPersistencePolicy.
Proof. solve_decision. Defined.
#[export] Instance SessionWorkKind_eq_dec : EqDecision SessionWorkKind.
Proof. solve_decision. Defined.
#[export] Instance SessionExecutionState_eq_dec : EqDecision SessionExecutionState.
Proof. solve_decision. Defined.
#[export] Instance TeamWaiterKind_eq_dec : EqDecision TeamWaiterKind.
Proof. solve_decision. Defined.

(** [SessionWorkKind.scheduled] *)
Definition scheduled (k : SessionWorkKind) : bool :=
  match k with CHAT_UNARY | CHAT_STREAM | SESSION_MESSAGE => true | _ => false end.

(** [SessionWorkKind.latest_first] *)
Definition latest_first (k : SessionWorkKind) : bool :=
  match k with CHAT_UNARY | CHAT_STREAM => true | _ => false end.

(** [SessionExecutionState.terminal] *)
Definition terminal (s : SessionExecutionState) : bool :=
  match s with SUCCEEDED | FAILED | CANCELLED => true | _ => false end.

(** The wire values ([Enum.value]). *)
Definition execution_state_value (s : SessionExecutionState) : string :=
  match s with
  | QUEUED => "queued"
  | RUNNING => "running"
  | WAITING_FOR_CONTROL => "waiting_for_control"
  | WAITING_FOR_INPUT => "waiting_for_input"
  | SUCCEEDED => "succeeded"
  | FAILED => "failed"
  | CANCELLED => "cancelled"
  end.

Definition work_kind_value (k : SessionWorkKind) : string :=
  match k with
  | CHAT_UNARY => "chat_unary"
  | CHAT_STREAM => "chat_stream"
  | SESSION_MESSAGE => "session_message"
  | GOAL_STREAM => "goal_stream"
  | GOAL_CONTROL => "goal_control"
  | GOAL_ATTACH => "goal_attach"
  | CONTROL_INPUT => "control_input"
  | SESSION_INPUT => "session_input"
  | HEARTBEAT => "heartbeat"
  | TEAM_REQUEST => "team_request"
  | TEAM_CONTROL => "team_control"
  | TEAM_BACKGROUND => "team_background"
  end.

(** ** Execution contexts *)

Record SessionLifecycleContext := mk_lifecycle_context {
  lc_session_id : string;
  lc_generation : Z;
}.

Record TeamExecutionDetails := mk_team_details {
  control_id : option string;
  background_trigger : option string;
  session_message_id : option string;
  waiter_kind : TeamWaiterKind;
  observation_only : bool;
}.

Record ExecutionLifecycleContext := mk_execution_context {
  ec_session : SessionLifecycleContext;
  ec_execution_id : string;
  ec_request_id : string;
  ec_work_kind : SessionWorkKind;
  ec_channel_id : string;
}.

Record TeamExecutionContext := mk_team_context {
  tc_execution : ExecutionLifecycleContext;
  tc_details : TeamExecutionDetails;
}.

#[export] Instance TeamExecutionDetails_eq_dec : EqDecision TeamExecutionDetails.
Proof. solve_decision. Defined.

(** ** Execution handles *)

(** A reference to an [asyncio.Task] and to an agent object. *)
Abbreviation task_ref := nat (only parsing).
Abbreviation agent_ref := nat (only parsing).

(** The fields of a handle that are assigned once. *)
Record HandleIdent := mk_ident {
  execution_id : string;
  session_id : string;
  request_id : string;
  generation : Z;
  work_kind : SessionWorkKind;
  channel_id : string;
  team : option TeamExecutionDetails;
  parent_execution_id : option string;
  root_work_kind : option SessionWorkKind;
  root_request_id : option string;
  created_at : Z;
}.

Record SessionExecutionHandle := mk_handle {
  ident : HandleIdent;
  waiting_control_ids : gset string;
  state : SessionExecutionState;
  started_at : option Z;
  finished_at : option Z;
  error : option string;
  cancellation_requested : bool;
  task : option task_ref;
  agent : option agent_ref;
  terminal_event : bool;
  retain_owner_task : bool;
}.

Definition h_execution_id (h : SessionExecutionHandle) : string := execution_id (ident h).
Definition h_session_id (h : SessionExecutionHandle) : string := session_id (ident h).
Definition h_request_id (h : SessionExecutionHandle) : string := request_id (ident h).
Definition h_generation (h : SessionExecutionHandle) : Z := generation (ident h).
Definition h_work_kind (h : SessionExecutionHandle) : SessionWorkKind := work_kind (ident h).
Definition h_parent (h : SessionExecutionHandle) : option string := parent_execution_id (ident h).
Definition h_created_at (h : SessionExecutionHandle) : Z := created_at (ident h).

(** A handle as the constructor leaves it, with the agent it is given. *)
Definition new_handle (i : HandleIdent) (ag : option agent_ref) : SessionExecutionHandle :=
  mk_handle i ∅ QUEUED None None None false None ag false false.

(** Assignments to one field. *)
Definition set_waiting (w : gset string) (h : SessionExecutionHandle) : SessionExecutionHandle :=
  mk_handle (ident h) w (state h) (started_at h) (finished_at h) (error h)
    (cancellation_requested h) (task h) (agent h) (terminal_event h) (retain_owner_task h).
Definition set_state (st : SessionExecutionState) (h : SessionExecutionHandle)
    : SessionExecutionHandle :=
  mk_handle (ident h) (waiting_control_ids h) st (started_at h) (finished_at h) (error h)
    (cancellation_requested h) (task h) (agent h) (terminal_event h) (retain_owner_task h).
Definition set_started_at (t : Z) (h : SessionExecutionHandle) : SessionExecutionHandle :=
  mk_handle (ident h) (waiting_control_ids h) (state h) (Some t) (finished_at h) (error h)
    (cancellation_requested h) (task h) (agent h) (terminal_event h) (retain_owner_task h).
Definition set_finished_at (t : Z) (h : SessionExecutionHandle) : SessionExecutionHandle :=
  mk_handle (ident h) (waiting_control_ids h) (state h) (started_at h) (Some t) (error h)
    (cancellation_requested h) (task h) (agent h) (terminal_event h) (retain_owner_task h).
Definition set_error (e : string) (h : SessionExecutionHandle) : SessionExecutionHandle :=
  mk_handle (ident h) (waiting_control_ids h) (state h) (started_at h) (finished_at h) (Some e)
    (cancellation_requested h) (task h) (agent h) (terminal_event h) (retain_owner_task h).
Definition set_cancellation_requested (b : bool) (h : SessionExecutionHandle)
    : SessionExecutionHandle :=
  mk_handle (ident h) (waiting_control_ids h) (state h) (started_at h) (finished_at h) (error h)
    b (task h) (agent h) (terminal_event h) (retain_owner_task h).
Definition set_task (t : option task_ref) (h : SessionExecutionHandle) : SessionExecutionHandle :=
  mk_handle (ident h) (waiting_control_ids h) (state h) (started_at h) (finished_at h) (error h)
    (cancellation_requested h) t (agent h) (terminal_event h) (retain_owner_task h).
Definition set_agent (a : option agent_ref) (h : SessionExecutionHandle)
    : SessionExecutionHandle :=
  mk_handle (ident h) (waiting_control_ids h) (state h) (started_at h) (finished_at h) (error h)
    (cancellation_requested h) (task h) a (terminal_event h) (retain_owner_task h).
Definition set_terminal_event (h : SessionExecutionHandle) : SessionExecutionHandle :=
  mk_handle (ident h) (waiting_control_ids h) (state h) (started_at h) (finished_at h) (error h)
    (cancellation_requested h) (task h) (agent h) true (retain_owner_task h).
Definition set_retain_owner_task (b : bool) (h : SessionExecutionHandle)
    : SessionExecutionHandle :=
  mk_handle (ident h) (waiting_control_ids h) (state h) (started_at h) (finished_at h) (error h)
    (cancellation_requested h) (task h) (agent h) (terminal_event h) b.

(** ** Snapshots *)

Record SessionExecutionSnapshot := mk_execution_snapshot {
  snap_ident : HandleIdent;
  snap_waiting_control_ids : gset string;
  snap_state : SessionExecutionState;
  snap_started_at : option Z;
  snap_finished_at : option Z;
  snap_error : option string;
  snap_cancellation_requested : bool;
}.

(** [SessionExecutionHandle.snapshot] *)
Definition snapshot (h : SessionExecutionHandle) : SessionExecutionSnapshot :=
  mk_execution_snapshot (ident h) (waiting_control_ids h) (state h) (started_at h)
    (finished_at h) (error h) (cancellation_requested h).

Record RuntimeSessionSnapshot := mk_session_snapshot {
  ss_session_id : string;
  ss_channel_id : string;
  ss_persistence_policy : SessionPersistencePolicy;
  ss_generation : Z;
  ss_state : RuntimeSessionState;
  ss_executions : list SessionExecutionSnapshot;
}.

Record CancelExecutionResult := mk_cancel_result {
  cr_matched : nat;
  cr_cancelled : nat;
  cr_timed_out : list string;
}.

Record CloseSessionResult := mk_close_result {
  cl_session_id : string;
  cl_generation : option Z;
  cl_existed : bool;
  cl_timed_out : list string;
}.

(** Only work of a scheduled kind can be served newest first. *)
Lemma latest_first_scheduled k : latest_first k = true → scheduled k = true.
Proof. by destruct k. Qed.

#[export] Instance execution_state_value_inj : Inj (=) (=) execution_state_value.
Proof. intros [] []; simpl; congruence. Qed.

#[export] Instance work_kind_value_inj : Inj (=) (=) work_kind_value.
Proof. intros [] []; simpl; congruence. Qed.
