(* ===== verification/ExecutionRegistry.v ===== *)
(** * The bounded registry of executions

    Source: [jiuwenswarm/runtime/session/execution_registry.py].

    [World] is the registry together with what its methods read of the process:
    the heap of execution handles (mutable objects, referred to by number), the
    tasks that are done, and the reading of [time.monotonic()] (in clock ticks;
    the calls made in one atomic segment read the same value).  Methods that
    cannot raise are functions [World → World].

    Sets are iterated in the order of [elements]; Python leaves that order open,
    and [select] sorts by creation time afterwards. *)

From S2P Require Import Prelude OrderedDict SessionModel.

Abbreviation href := nat (only parsing).

Record World := mk_world {
  heap : gmap href SessionExecutionHandle;
  done_tasks : gset task_ref;
  clock : Z;
  terminal_capacity : Z;
  terminal_ttl : Z;
  executions : odict string href;
  by_session : gmap string (gset string);
  by_request : gmap (string * string) (gset string);
  terminal_q : list string;
}.

(** ** Access to the world *)

Definition hget (w : World) (r : href) : option SessionExecutionHandle := heap w !! r.

Definition with_heap (h : gmap href SessionExecutionHandle) (w : World) : World :=
  mk_world h (done_tasks w) (clock w) (terminal_capacity w) (terminal_ttl w)
    (executions w) (by_session w) (by_request w) (terminal_q w).

(** An assignment to fields of one handle. *)
Definition hupd (r : href) (f : SessionExecutionHandle → SessionExecutionHandle) (w : World)
    : World :=
  with_heap (alter f r (heap w)) w.

Definition with_index (e : odict string href) (s : gmap string (gset string))
    (q : gmap (string * string) (gset string)) (w : World) : World :=
  mk_world (heap w) (done_tasks w) (clock w) (terminal_capacity w) (terminal_ttl w)
    e s q (terminal_q w).

Definition with_terminal_q (q : list string) (w : World) : World :=
  mk_world (heap w) (done_tasks w) (clock w) (terminal_capacity w) (terminal_ttl w)
    (executions w) (by_session w) (by_request w) q.

Definition with_env (d : gset task_ref) (now : Z) (w : World) : World :=
  mk_world (heap w) d now (terminal_capacity w) (terminal_ttl w)
    (executions w) (by_session w) (by_request w) (terminal_q w).

(** [handle.task is None or handle.task.done()] *)
Definition task_free (w : World) (h : SessionExecutionHandle) : bool :=
  match task h with
  | None => true
  | Some t => bool_decide (t ∈ done_tasks w)
  end.

Inductive registry_error := ValueError (msg : string).

(** [SessionExecutionRegistry(terminal_capacity=..., terminal_ttl=...)] *)
Definition registry_init (capacity ttl : Z) : py World registry_error unit :=
  py_guard (negb (Z.ltb capacity 0)) (ValueError "terminal_capacity must be non-negative") ;;
  py_modify (λ w, mk_world (heap w) (done_tasks w) (clock w) capacity (Z.max 0 ttl) [] ∅ ∅ []).

(** ** Index maintenance *)

(** [d.setdefault(k, set()).add(x)] *)
Definition index_add `{Countable A} (k : A) (x : string) (m : gmap A (gset string))
    : gmap A (gset string) :=
  <[k := {[x]} ∪ default ∅ (m !! k)]> m.

(** [s = d.get(k); s.discard(x); if not s: d.pop(k)] *)
Definition index_discard `{Countable A} (k : A) (x : string) (m : gmap A (gset string))
    : gmap A (gset string) :=
  match m !! k with
  | None => m
  | Some s =>
      let s' := s ∖ {[x]} in
      if decide (s' = ∅) then delete k m else <[k := s']> m
  end.

(** [_remove] *)
Definition remove (i : HandleIdent) (w : World) : World :=
  with_index (od_pop (executions w) (execution_id i))
    (index_discard (session_id i) (execution_id i) (by_session w))
    (index_discard (session_id i, request_id i) (execution_id i) (by_request w)) w.

(** [self._executions.get(execution_id)] *)
Definition lookup_execution (w : World) (eid : string) : option href :=
  od_get (executions w) eid.

Definition lookup_handle (w : World) (eid : string) : option SessionExecutionHandle :=
  r ← lookup_execution w eid; hget w r.

(** The loop of [_evict_terminal]; [q] is the deque [_terminal]. *)
Fixpoint evict_loop (q : list string) (w : World) : World :=
  match q with
  | [] => with_terminal_q [] w
  | eid :: q' =>
      let handle := lookup_handle w eid in
      let expired :=
        match handle with
        | None => true
        | Some h =>
            match finished_at h with
            | None => true
            | Some t => Z.ltb (terminal_ttl w) (clock w - t)
            end
        end in
      let over_capacity := Z.ltb (terminal_capacity w) (Z.of_nat (length q)) in
      if negb expired && negb over_capacity then with_terminal_q q w
      else match handle with
           | Some h =>
               if terminal (state h) && task_free w h
               then evict_loop q' (remove (ident h) w)
               else evict_loop q' w
           | None => evict_loop q' w
           end
  end.

Definition evict_terminal (w : World) : World := evict_loop (terminal_q w) w.

(** ** Operations *)

(** [register] of the handle object [r] *)
Definition register (r : href) : py World registry_error unit :=
  py_modify evict_terminal ;;
  w <- py_get ;;
  match hget w r with
  | None => py_ret tt
  | Some h =>
      py_guard (negb (od_mem (executions w) (h_execution_id h)))
        (ValueError ("duplicate execution_id: " +:+ h_execution_id h)) ;;
      py_modify (with_index
        (od_set (executions w) (h_execution_id h) r)
        (index_add (h_session_id h) (h_execution_id h) (by_session w))
        (index_add (h_session_id h, h_request_id h) (h_execution_id h) (by_request w)))
  end.

Definition mark_running (r : href) (w : World) : World :=
  match hget w r with
  | Some h =>
      if decide (state h = QUEUED)
      then hupd r (λ h, set_started_at (clock w) (set_state RUNNING h)) w
      else w
  | None => w
  end.

Definition mark_awaiting_control (r : href) (control_ids : gset string) (w : World) : World :=
  hupd r (λ h, if terminal (state h) then h
               else set_waiting (waiting_control_ids h ∪ control_ids) h) w.

Definition mark_waiting (r : href) (w : World) : World :=
  hupd r (λ h, if terminal (state h) then h
               else let h' := set_state WAITING_FOR_CONTROL h in
                    if retain_owner_task h' then h' else set_task None h') w.

Definition resume_waiting (r : href) (w : World) : World :=
  hupd r (λ h, if decide (state h = WAITING_FOR_CONTROL) then set_state RUNNING h else h) w.

(** The assignments [mark_terminal] makes to a handle that is not terminal. *)
Definition terminate (now : Z) (st : SessionExecutionState) (err : option string)
    (h : SessionExecutionHandle) : SessionExecutionHandle :=
  let h := set_finished_at now (set_agent None (set_waiting ∅ (set_state st h))) in
  let h := match err with Some e => set_error e h | None => h end in
  let h := if retain_owner_task h then h else set_task None h in
  set_terminal_event h.

(** [mark_terminal] once its argument is known to be a terminal state *)
Definition mark_terminal_body (r : href) (st : SessionExecutionState) (err : option string)
    (w : World) : World :=
  match hget w r with
  | None => w
  | Some h =>
      if terminal (state h) then hupd r set_terminal_event w
      else
        let h' := terminate (clock w) st err h in
        let w' := with_heap (<[r := h']> (heap w)) w in
        let w'' := if task_free w' h'
                   then with_terminal_q (terminal_q w' ++ [h_execution_id h']) w' else w' in
        evict_terminal w''
  end.

Definition mark_terminal (r : href) (st : SessionExecutionState) (err : option string)
    : py World registry_error unit :=
  py_guard (terminal st) (ValueError "terminal state required") ;;
  py_modify (mark_terminal_body r st err).

Definition release_owner_task (r : href) (t : task_ref) (w : World) : World :=
  match hget w r with
  | None => w
  | Some h =>
      if decide (task h = Some t) then
        let w' := hupd r (set_task None) w in
        if terminal (state h)
        then evict_terminal (with_terminal_q (terminal_q w' ++ [h_execution_id h]) w')
        else w'
      else w
  end.

Definition get_execution (eid : string) (w : World) : option href * World :=
  let w' := evict_terminal w in (lookup_execution w' eid, w').

(** The tests of the loop of [select] *)
Definition selects (w : World) (sid : string) (gen : option Z) (active_only : bool) (r : href)
    : bool :=
  match hget w r with
  | None => false
  | Some h =>
      bool_decide (h_session_id h = sid)
      && match gen with None => true | Some g => bool_decide (h_generation h = g) end
      && negb (active_only && terminal (state h))
  end.

Definition candidate_ids (w : World) (sid : string) (rid eid : option string) : list string :=
  match eid, rid with
  | Some e, _ => [e]
  | None, Some q => elements (default ∅ (by_request w !! (sid, q)))
  | None, None => elements (default ∅ (by_session w !! sid))
  end.

Definition created_key (w : World) (r : href) : Z :=
  match hget w r with Some h => h_created_at h | None => 0 end.

(** [select] on the registry left by its call of [_evict_terminal] *)
Definition select_from (w : World) (sid : string) (rid eid : option string) (gen : option Z)
    (active_only : bool) : list href :=
  py_sorted (created_key w)
    (filter (λ r, selects w sid gen active_only r = true)
       (omap (lookup_execution w) (candidate_ids w sid rid eid))).

Definition select (sid : string) (rid eid : option string) (gen : option Z)
    (active_only : bool) (w : World) : list href * World :=
  let w' := evict_terminal w in (select_from w' sid rid eid gen active_only, w').

Definition snapshots_for_session (sid : string) (gen : option Z) (w : World)
    : list SessionExecutionSnapshot * World :=
  let '(rs, w') := select sid None None gen false w in
  (omap (λ r, snapshot <$> hget w' r) rs, w').

Definition is_active (w : World) (r : href) : bool :=
  match hget w r with Some h => negb (terminal (state h)) | None => false end.

Definition active (w : World) : list href * World :=
  let w' := evict_terminal w in
  (filter (λ r, is_active w' r = true) (od_values (executions w')), w').

(** ** The registry as a transition system

    The methods above, interleaved with what the rest of the process does to the
    objects it shares with the registry: it creates handles, assigns fields that
    do not decide retention, finishes tasks, and time passes. *)

Inductive reg_step : World → World → Prop :=
| step_env w d now :
    done_tasks w ⊆ d → (clock w ≤ now)%Z → reg_step w (with_env d now w)
| step_new_handle w r i ag :
    heap w !! r = None → reg_step w (with_heap (<[r := new_handle i ag]> (heap w)) w)
| step_assign w r f :
    (∀ h, ident (f h) = ident h ∧ state (f h) = state h ∧ task (f h) = task h ∧
       finished_at (f h) = finished_at h) →
    reg_step w (hupd r f w)
| step_own w r t :
    (∀ h, hget w r = Some h → terminal (state h) = false) → reg_step w (hupd r (set_task t) w)
| step_register w r :
    (∀ h, hget w r = Some h → terminal (state h) = false) → reg_step w (register r w).2
| step_mark_running w r : reg_step w (mark_running r w)
| step_mark_awaiting w r ids : reg_step w (mark_awaiting_control r ids w)
| step_mark_waiting w r : reg_step w (mark_waiting r w)
| step_resume_waiting w r : reg_step w (resume_waiting r w)
| step_mark_terminal w r st err : reg_step w (mark_terminal r st err w).2
| step_release w r t : reg_step w (release_owner_task r t w)
| step_get w eid : reg_step w (get_execution eid w).2
| step_select w sid rid eid gen b : reg_step w (select sid rid eid gen b w).2
| step_active w : reg_step w (active w).2.

Definition reg_steps : World → World → Prop := rtc reg_step.

(** ** Invariants *)

Definition hident (w : World) (r : href) : option HandleIdent := ident <$> heap w !! r.

(** [eid] is registered with the identity [i]. *)
Definition registered (w : World) (eid : string) (i : HandleIdent) : Prop :=
  ∃ r, od_get (executions w) eid = Some r ∧ hident w r = Some i.

(** The three indexes describe the same executions, and no index entry is empty. *)
Record index_ok (w : World) : Prop := mk_index_ok {
  ix_wf : od_wf (executions w);
  ix_ident : ∀ eid r, od_get (executions w) eid = Some r →
    ∃ i, hident w r = Some i ∧ execution_id i = eid;
  ix_session : ∀ sid eid, eid ∈ default ∅ (by_session w !! sid) ↔
    ∃ i, registered w eid i ∧ session_id i = sid;
  ix_request : ∀ k eid, eid ∈ default ∅ (by_request w !! k) ↔
    ∃ i, registered w eid i ∧ (session_id i, request_id i) = k;
  ix_session_ne : ∀ sid, by_session w !! sid ≠ Some ∅;
  ix_request_ne : ∀ k, by_request w !! k ≠ Some ∅;
}.

(** A terminal execution nobody owns is queued for eviction. *)
Definition history_ok (w : World) : Prop :=
  ∀ eid r h, od_get (executions w) eid = Some r → heap w !! r = Some h →
    terminal (state h) = true → task h = None → eid ∈ terminal_q w.

Definition reg_inv (w : World) : Prop := index_ok w ∧ history_ok w.

(** The finished executions the registry still holds. *)
Definition finished (w : World) : list string :=
  od_keys (filter (λ kv, match heap w !! kv.2 with
                         | Some h => terminal (state h) && bool_decide (task h = None)
                         | None => false
                         end = true) (executions w)).

(** ** Lemmas on the indexes *)

Lemma elem_of_index_add `{Countable A} (k k' : A) x y (m : gmap A (gset string)) :
  y ∈ default ∅ (index_add k x m !! k') ↔ (k = k' ∧ y = x) ∨ y ∈ default ∅ (m !! k').
Proof.
  unfold index_add. rewrite lookup_insert. destruct (decide (k = k')) as [<-|Hk]; simpl.
  - set_solver.
  - naive_solver.
Qed.

Lemma index_add_ne `{Countable A} (k k' : A) x (m : gmap A (gset string)) :
  m !! k' ≠ Some ∅ → index_add k x m !! k' ≠ Some ∅.
Proof.
  intros Hm. unfold index_add. rewrite lookup_insert. case_decide; [|done].
  intros [= Hs]. set_solver.
Qed.

Lemma elem_of_index_discard `{Countable A} (k k' : A) x y (m : gmap A (gset string)) :
  y ∈ default ∅ (index_discard k x m !! k') ↔
    y ∈ default ∅ (m !! k') ∧ ¬ (k = k' ∧ y = x).
Proof.
  unfold index_discard. destruct (m !! k) as [s|] eqn:Hk.
  - case_decide as Hs.
    + rewrite lookup_delete. destruct (decide (k = k')) as [<-|Hne]; simpl; [|naive_solver].
      rewrite Hk. simpl. set_solver.
    + rewrite lookup_insert. destruct (decide (k = k')) as [<-|Hne]; simpl; [|naive_solver].
      rewrite Hk. simpl. set_solver.
  - split; [|tauto]. intros Hy. split; [done|]. intros [<- ->].
    rewrite Hk in Hy. simpl in Hy. set_solver.
Qed.

Lemma index_discard_ne `{Countable A} (k k' : A) x (m : gmap A (gset string)) :
  m !! k' ≠ Some ∅ → index_discard k x m !! k' ≠ Some ∅.
Proof.
  intros Hm. unfold index_discard. destruct (m !! k) as [s|] eqn:Hk; [|done].
  case_decide as Hs.
  - rewrite lookup_delete. by case_decide.
  - rewrite lookup_insert. case_decide; [|done]. congruence.
Qed.

(** Only the identities of the handles matter to the indexes. *)
Lemma index_ok_ext w w' :
  executions w' = executions w → by_session w' = by_session w →
  by_request w' = by_request w →
  (∀ eid r, od_get (executions w) eid = Some r → hident w' r = hident w r) →
  index_ok w → index_ok w'.
Proof.
  intros He Hs Hq Hh [H1 H2 H3 H4 H5 H6].
  assert (∀ eid i, registered w' eid i ↔ registered w eid i) as Hr.
  { intros eid i. unfold registered. rewrite He. split.
    - intros (r & Hr & Hi). exists r. rewrite <-(Hh eid) by done. done.
    - intros (r & Hr & Hi). exists r. rewrite (Hh eid) by done. done. }
  split; rewrite ?He, ?Hs, ?Hq; try done.
  - intros eid r Hr'. rewrite (Hh eid) by done. by apply H2.
  - intros sid eid. rewrite H3. by setoid_rewrite Hr.
  - intros k eid. rewrite H4. by setoid_rewrite Hr.
Qed.

Lemma hident_hupd r f w r' :
  (∀ h, ident (f h) = ident h) → hident (hupd r f w) r' = hident w r'.
Proof.
  intros Hf. unfold hident, hupd. simpl. rewrite lookup_alter.
  case_decide; [subst|done]. destruct (heap w !! r'); simpl; [by rewrite Hf|done].
Qed.

Lemma index_ok_hupd r f w :
  (∀ h, ident (f h) = ident h) → index_ok w → index_ok (hupd r f w).
Proof. intros Hf. apply index_ok_ext; try done. intros. by apply hident_hupd. Qed.

Lemma registered_fun w eid i j : registered w eid i → registered w eid j → i = j.
Proof. intros (r & H1 & H2) (r' & H3 & H4). by simplify_eq. Qed.

Lemma registered_eid w eid i : index_ok w → registered w eid i → execution_id i = eid.
Proof.
  intros Hw (r & H1 & H2). destruct (ix_ident _ Hw _ _ H1) as (j & Hj & He). by simplify_eq.
Qed.

Lemma registered_remove w i eid j :
  registered (remove i w) eid j ↔ registered w eid j ∧ eid ≠ execution_id i.
Proof.
  unfold registered, remove, hident. simpl. setoid_rewrite od_get_pop. split.
  - intros (r & Hr & Hi). case_decide as Hd; [done|]. split; [by eauto|congruence].
  - intros [(r & Hr & Hi) Hne]. exists r. rewrite decide_False by congruence. done.
Qed.

Lemma index_ok_remove w i :
  index_ok w → registered w (execution_id i) i → index_ok (remove i w).
Proof.
  intros Hw Hi. destruct Hw as [H1 H2 H3 H4 H5 H6] eqn:E. clear E.
  split.
  - simpl. by apply od_wf_pop.
  - simpl. intros eid r. rewrite od_get_pop. case_decide; [done|]. apply H2.
  - intros sid eid. simpl. rewrite elem_of_index_discard, H3.
    setoid_rewrite registered_remove. split.
    + intros [(j & Hj & Hs) Hne]. exists j. split; [|done]. split; [done|]. intros ->.
      apply Hne. split; [|done]. by rewrite <-Hs, (registered_fun _ _ _ _ Hj Hi).
    + intros (j & [Hj Hne] & Hs). split; [by eauto|]. by intros [_ ?].
  - intros k eid. simpl. rewrite elem_of_index_discard, H4.
    setoid_rewrite registered_remove. split.
    + intros [(j & Hj & Hs) Hne]. exists j. split; [|done]. split; [done|]. intros ->.
      apply Hne. split; [|done]. by rewrite <-Hs, (registered_fun _ _ _ _ Hj Hi).
    + intros (j & [Hj Hne] & Hs). split; [by eauto|]. by intros [_ ?].
  - intros sid. simpl. by apply index_discard_ne.
  - intros k. simpl. by apply index_discard_ne.
Qed.

Lemma lookup_handle_Some w eid h :
  lookup_handle w eid = Some h ↔
    ∃ r, od_get (executions w) eid = Some r ∧ heap w !! r = Some h.
Proof.
  unfold lookup_handle, lookup_execution, hget. destruct (od_get (executions w) eid); simpl;
    naive_solver.
Qed.

Lemma lookup_handle_registered w eid h :
  lookup_handle w eid = Some h → registered w eid (ident h).
Proof.
  intros (r & Hr & Hh)%lookup_handle_Some. exists r. split; [done|].
  unfold hident. by rewrite Hh.
Qed.

(** ** The eviction loop *)

Lemma with_terminal_q_index q w : index_ok w → index_ok (with_terminal_q q w).
Proof. by apply index_ok_ext. Qed.

(** Induction on the loop: what holds of a world with any queue, and is kept by the
    removal of a terminal unowned execution, holds after the loop. *)
Lemma evict_loop_ind (P : list string → World → Prop) :
  (∀ q w, P q w → P q (with_terminal_q q w)) →
  (∀ eid q w h, P (eid :: q) w → lookup_handle w eid = Some h →
     terminal (state h) = true → task_free w h = true → P q (remove (ident h) w)) →
  (∀ eid q w, P (eid :: q) w →
     (∀ h, lookup_handle w eid = Some h → terminal (state h) && task_free w h = false) →
     P q w) →
  ∀ q w, P q w → ∃ q' w', evict_loop q w = with_terminal_q q' w' ∧ P q' w'.
Proof.
  intros H1 H2 H3 q. induction q as [|eid q IH]; intros w Hw; simpl; [exists [], w; by split|].
  match goal with |- context [negb ?e && negb ?o] => destruct (negb e && negb o) end;
    [exists (eid :: q), w; by split|].
  destruct (lookup_handle w eid) as [h|] eqn:Hh.
  - destruct (terminal (state h) && task_free w h) eqn:Ht.
    + apply andb_prop in Ht as [Ht Hf]. apply IH. by eapply H2.
    + apply IH. eapply H3; [done|]. intros h' ?. by simplify_eq.
  - apply IH. eapply H3; [done|]. intros h' ?. congruence.
Qed.

Lemma index_ok_remove_handle w eid h :
  index_ok w → lookup_handle w eid = Some h → index_ok (remove (ident h) w).
Proof.
  intros Hw Hh. pose proof (lookup_handle_registered _ _ _ Hh) as Hr.
  apply index_ok_remove; [done|]. by rewrite (registered_eid _ _ _ Hw Hr).
Qed.

(** The same as a rule for [evict_terminal]: the conclusion may forget the queue. *)
Lemma evict_terminal_rule (P : list string → World → Prop) (Q : World → Prop) w :
  (∀ q w, P q w → P q (with_terminal_q q w)) →
  (∀ eid q w h, P (eid :: q) w → lookup_handle w eid = Some h →
     terminal (state h) = true → task_free w h = true → P q (remove (ident h) w)) →
  (∀ eid q w, P (eid :: q) w →
     (∀ h, lookup_handle w eid = Some h → terminal (state h) && task_free w h = false) →
     P q w) →
  (∀ q w, P q w → Q (with_terminal_q q w)) →
  P (terminal_q w) w → Q (evict_terminal w).
Proof.
  intros H1 H2 H3 HQ Hw.
  destruct (evict_loop_ind P H1 H2 H3 _ _ Hw) as (q' & w' & Heq & Hw').
  unfold evict_terminal. rewrite Heq. by apply HQ.
Qed.

Lemma evict_index w : index_ok w → index_ok (evict_terminal w).
Proof.
  intros Hw. apply (evict_terminal_rule (λ _, index_ok)); [..|done].
  - intros q w1. apply with_terminal_q_index.
  - intros eid q w1 h Hw1 Hh _ _. by eapply index_ok_remove_handle.
  - done.
  - intros q w1. apply with_terminal_q_index.
Qed.

(** Eviction leaves the handles, the tasks and the clock alone. *)
Lemma evict_frame w :
  heap (evict_terminal w) = heap w ∧ done_tasks (evict_terminal w) = done_tasks w ∧
  clock (evict_terminal w) = clock w ∧
  terminal_capacity (evict_terminal w) = terminal_capacity w ∧
  terminal_ttl (evict_terminal w) = terminal_ttl w.
Proof.
  by apply (evict_terminal_rule (λ _ w', heap w' = heap w ∧ done_tasks w' = done_tasks w ∧
    clock w' = clock w ∧ terminal_capacity w' = terminal_capacity w ∧
    terminal_ttl w' = terminal_ttl w)).
Qed.

Lemma evict_heap w : heap (evict_terminal w) = heap w.
Proof. apply evict_frame. Qed.

Definition queued_history (q : list string) (w : World) : Prop :=
  ∀ eid r h, od_get (executions w) eid = Some r → heap w !! r = Some h →
    terminal (state h) = true → task h = None → eid ∈ q.

Lemma evict_history w :
  index_ok w → queued_history (terminal_q w) w → history_ok (evict_terminal w).
Proof.
  intros Hix Hq. apply (evict_terminal_rule (λ q w, index_ok w ∧ queued_history q w)); [..|done].
  - intros q w1 [? ?]. by split; [apply with_terminal_q_index|].
  - intros eid q w1 h [Hw1 Hq1] Hh _ _. pose proof (lookup_handle_registered _ _ _ Hh) as Hr.
    pose proof (registered_eid _ _ _ Hw1 Hr) as Hid.
    split; [by eapply index_ok_remove_handle|].
    intros eid' r' h'. simpl. rewrite Hid, od_get_pop.
    intros Hr' Hh' Ht' Hn. case_decide as Hne; [done|].
    pose proof (Hq1 eid' r' h' Hr' Hh' Ht' Hn) as Hin; apply elem_of_cons in Hin as [->|?]; done.
  - intros eid q w1 [Hw1 Hq1] Hl. split; [done|].
    intros eid' r' h' Hr' Hh' Ht' Hn.
    pose proof (Hq1 eid' r' h' Hr' Hh' Ht' Hn) as Hin; apply elem_of_cons in Hin as [->|?]; [|done].
    exfalso. specialize (Hl h'). unfold task_free in Hl. rewrite Hn, Ht' in Hl.
    rewrite lookup_handle_Some in Hl. naive_solver.
  - intros q w1 [_ Hq1]. exact Hq1.
Qed.

(** The loop stops only when the queue is within the capacity. *)
Lemma evict_loop_bound q w :
  (0 ≤ terminal_capacity w)%Z →
  (Z.of_nat (length (terminal_q (evict_loop q w))) ≤ terminal_capacity w)%Z.
Proof.
  revert w. induction q as [|eid q IH]; intros w Hc; cbn [evict_loop]; [done|].
  match goal with |- context [negb ?e && negb ?o] => destruct e, o eqn:Ho end; simpl negb;
    cbn [andb]; try (apply Z.ltb_ge in Ho; exact Ho);
    repeat case_match; by (apply (IH (remove _ w)) || apply IH).
Qed.

(** An execution that is not terminal, or whose owner task still runs, stays registered. *)
Lemma evict_keeps w eid r h :
  index_ok w → od_get (executions w) eid = Some r → heap w !! r = Some h →
  terminal (state h) && task_free w h = false →
  od_get (executions (evict_terminal w)) eid = Some r.
Proof.
  intros Hw Hr Hh Hf.
  apply (evict_terminal_rule (λ _ w', index_ok w' ∧ heap w' = heap w ∧
    done_tasks w' = done_tasks w ∧ od_get (executions w') eid = Some r)); [..|done].
  - intros q w1 (?&?&?&?). by split_and!; [apply with_terminal_q_index|..].
  - intros eid' q w1 h' (Hw1 & Hh1 & Hd1 & Hr1) Hl Ht Htf.
    pose proof (lookup_handle_registered _ _ _ Hl) as Hreg.
    pose proof (registered_eid _ _ _ Hw1 Hreg) as Hid.
    split_and!; [by eapply index_ok_remove_handle|done|done|].
    simpl. rewrite Hid, od_get_pop. case_decide as Heq; [|done]. subst eid'. exfalso.
    apply lookup_handle_Some in Hl as (r' & Hr' & Hl). simplify_eq.
    rewrite Hh1 in Hl. simplify_eq. unfold task_free in *. rewrite Hd1 in Htf.
    by rewrite Ht, Htf in Hf.
  - done.
  - intros q w1 (_ & _ & _ & ?). done.
Qed.

(** ** Each method keeps the invariant *)

Lemma evict_inv w : reg_inv w → reg_inv (evict_terminal w).
Proof. intros [H1 H2]. split; [by apply evict_index|by apply evict_history]. Qed.

(** An update of one handle that keeps its identity, and that leaves it terminal and
    unowned only if it was so before or is queued. *)
Lemma hupd_inv r f w :
  (∀ h, ident (f h) = ident h) →
  (∀ h, heap w !! r = Some h → terminal (state (f h)) = true → task (f h) = None →
     terminal (state h) = true ∧ task h = None) →
  reg_inv w → reg_inv (hupd r f w).
Proof.
  intros Hid Hf [Hix Hh]. split; [by apply index_ok_hupd|].
  intros eid r' h'. simpl. rewrite lookup_alter.
  intros Hr Hh' Ht Hn. case_decide as Hd; [|by eapply Hh]. subst r'.
  destruct (heap w !! r) as [h|] eqn:Hhr; [|done]. simpl in Hh'. simplify_eq.
  destruct (Hf h eq_refl Ht Hn). by eapply Hh.
Qed.

Lemma reg_inv_env d now w : reg_inv w → reg_inv (with_env d now w).
Proof. intros [H1 H2]. split; [by apply (index_ok_ext w)|done]. Qed.

Lemma reg_inv_new_handle r i ag w :
  heap w !! r = None → reg_inv w → reg_inv (with_heap (<[r := new_handle i ag]> (heap w)) w).
Proof.
  intros Hr [H1 H2]. split.
  - apply (index_ok_ext w); try done. intros eid r' Hr'.
    unfold hident. simpl. rewrite lookup_insert_ne; [done|]. intros <-.
    destruct (ix_ident _ H1 _ _ Hr') as (j & Hj & _). unfold hident in Hj. by rewrite Hr in Hj.
  - intros eid r' h. simpl. rewrite lookup_insert. case_decide as Hd; [|by apply H2].
    by intros _ [= <-].
Qed.

Lemma index_ok_register w r h :
  index_ok w → heap w !! r = Some h → od_get (executions w) (h_execution_id h) = None →
  index_ok (with_index (od_set (executions w) (h_execution_id h) r)
    (index_add (h_session_id h) (h_execution_id h) (by_session w))
    (index_add (h_session_id h, h_request_id h) (h_execution_id h) (by_request w)) w).
Proof.
  intros Hw Hh Hfresh. set (w' := with_index _ _ _ _).
  assert (∀ eid i, registered w' eid i ↔
    (eid = h_execution_id h ∧ i = ident h) ∨ registered w eid i) as Hreg.
  { intros eid i. unfold registered, w', hident. simpl. setoid_rewrite od_get_set. split.
    - intros (r' & Hr' & Hi). case_decide as Hd; [|by eauto].
      simplify_eq. rewrite Hh in Hi. left. by simplify_eq/=.
    - intros [[-> ->]|(r' & Hr' & Hi)].
      + exists r. by rewrite decide_True, Hh by done.
      + exists r'. rewrite decide_False; [done|]. congruence. }
  destruct Hw as [H1 H2 H3 H4 H5 H6]. split.
  - unfold w'. simpl. by apply od_wf_set.
  - intros eid r'. unfold w', hident. simpl. rewrite od_get_set.
    case_decide as Hd; [|by apply H2]. intros [= <-]. rewrite Hh. simpl. by eauto.
  - intros sid eid. unfold w' at 1. simpl. rewrite elem_of_index_add, H3.
    setoid_rewrite Hreg. unfold h_session_id. naive_solver.
  - intros k eid. unfold w' at 1. simpl. rewrite elem_of_index_add, H4.
    setoid_rewrite Hreg. unfold h_session_id, h_request_id. naive_solver.
  - intros sid. simpl. by apply index_add_ne.
  - intros k. simpl. by apply index_add_ne.
Qed.

Lemma register_inv r w :
  (∀ h, hget w r = Some h → terminal (state h) = false) →
  reg_inv w → reg_inv (register r w).2.
Proof.
  intros Hnew Hw%evict_inv. unfold register, py_bind, py_modify, py_get.
  unfold hget in *. rewrite evict_heap.
  destruct (heap w !! r) as [h|] eqn:Hh; [|done].
  unfold py_guard, od_mem. destruct (od_get _ _) eqn:Hd; [done|]. simpl.
  destruct Hw as [H1 H2]. split; [apply index_ok_register; by rewrite ?evict_heap|].
  intros eid r' h'. simpl. rewrite od_get_set. case_decide; [|by apply H2].
  intros [= <-] Hh' Ht Hn. rewrite evict_heap in Hh'. simplify_eq.
  by rewrite Hnew in Ht.
Qed.

Lemma mark_running_inv r w : reg_inv w → reg_inv (mark_running r w).
Proof.
  intros Hw. unfold mark_running. destruct (hget w r) as [h|] eqn:Hh; [|done].
  case_decide; [|done]. apply hupd_inv; [done| |done]. intros h' _. done.
Qed.

Lemma mark_awaiting_inv r ids w : reg_inv w → reg_inv (mark_awaiting_control r ids w).
Proof.
  intros Hw. apply hupd_inv; [| |done].
  - intros h. by case_match.
  - intros h _. case_match; simpl; [auto|congruence].
Qed.

Lemma mark_waiting_inv r w : reg_inv w → reg_inv (mark_waiting r w).
Proof.
  intros Hw. apply hupd_inv; [| |done].
  - intros h. simpl. by repeat case_match.
  - intros h _. destruct (terminal (state h)) eqn:Ht; [done|]. simpl. by case_match.
Qed.

Lemma resume_waiting_inv r w : reg_inv w → reg_inv (resume_waiting r w).
Proof.
  intros Hw. apply hupd_inv; [| |done].
  - intros h. by case_decide.
  - intros h _. case_decide; simpl; [done|auto].
Qed.

Lemma terminate_ident now st err h : ident (terminate now st err h) = ident h.
Proof. unfold terminate. destruct err; simpl; by case_match. Qed.

Lemma terminate_state now st err h : state (terminate now st err h) = st.
Proof. unfold terminate. destruct err; simpl; by case_match. Qed.

Lemma terminate_finished now st err h : finished_at (terminate now st err h) = Some now.
Proof. unfold terminate. destruct err; simpl; by case_match. Qed.

Lemma terminate_task now st err h :
  task (terminate now st err h) = if retain_owner_task h then task h else None.
Proof. unfold terminate. destruct err; simpl; by destruct (retain_owner_task h) eqn:E; rewrite ?E. Qed.

Lemma terminate_waiting now st err h : waiting_control_ids (terminate now st err h) = ∅.
Proof. unfold terminate. destruct err; simpl; by case_match. Qed.

Lemma hupd_insert w r h f :
  heap w !! r = Some h → hupd r f w = with_heap (<[r := f h]> (heap w)) w.
Proof.
  intros Hh. unfold hupd. f_equal. apply map_eq. intros j.
  rewrite lookup_alter, lookup_insert. case_decide; [subst; by rewrite Hh|done].
Qed.

(** Queueing the execution of [r] restores what terminating it may break. *)
Lemma history_after_insert w r h h' q :
  reg_inv w → heap w !! r = Some h → ident h' = ident h →
  (∀ eid, eid ∈ terminal_q w → eid ∈ q) →
  (terminal (state h') = true → task h' = None → h_execution_id h ∈ q) →
  let w' := with_heap (<[r := h']> (heap w)) w in
  index_ok w' ∧ queued_history q w'.
Proof.
  intros [Hix Hq] Hh Hid Hsub Hr w'. split.
  - apply (index_ok_ext w); try done. intros eid r' _. unfold hident, w'. simpl.
    rewrite lookup_insert. case_decide; [|done]. subst. rewrite Hh. simpl. by rewrite Hid.
  - intros eid r' h1. unfold w'. simpl. rewrite lookup_insert. intros He Hh1 Ht Hn.
    case_decide; [subst r'|by eapply Hsub, Hq]. simplify_eq.
    destruct (ix_ident _ Hix _ _ He) as (i & Hi & <-).
    unfold hident in Hi. rewrite Hh in Hi. simpl in Hi. simplify_eq. by apply Hr.
Qed.

Lemma mark_terminal_body_inv r st err w : reg_inv w → reg_inv (mark_terminal_body r st err w).
Proof.
  intros Hw. unfold mark_terminal_body. unfold hget.
  destruct (heap w !! r) as [h|] eqn:Hh; [|done].
  destruct (terminal (state h)) eqn:Ht; [by apply hupd_inv|].
  set (h' := terminate (clock w) st err h).
  pose proof (terminate_ident (clock w) st err h) as Hid. fold h' in Hid.
  destruct (task_free _ h') eqn:Hf.
  - edestruct (history_after_insert w r h h' (terminal_q w ++ [h_execution_id h']))
      as [H1 H2]; [done|done|done|set_solver| |].
    + intros _ _. apply elem_of_app. right. apply list_elem_of_singleton.
      unfold h_execution_id. congruence.
    + split; [by apply evict_index, with_terminal_q_index|].
      apply evict_history; [by apply with_terminal_q_index|done].
  - edestruct (history_after_insert w r h h' (terminal_q w)) as [H1 H2];
      [done|done|done|done| |].
    + intros _ Hn. unfold task_free in Hf. by rewrite Hn in Hf.
    + split; [by apply evict_index|]. by apply evict_history.
Qed.

Lemma release_owner_task_inv r t w : reg_inv w → reg_inv (release_owner_task r t w).
Proof.
  intros Hw. unfold release_owner_task, hget. destruct (heap w !! r) as [h|] eqn:Hh; [|done].
  case_decide; [|done].
  rewrite (hupd_insert w r h) by done.
  destruct (terminal (state h)) eqn:Ht.
  - edestruct (history_after_insert w r h (set_task None h) (terminal_q w ++ [h_execution_id h]))
      as [H1 H2]; [done|done|done|set_solver|set_solver|].
    split; [by apply evict_index, with_terminal_q_index|].
    apply evict_history; [by apply with_terminal_q_index|done].
  - edestruct (history_after_insert w r h (set_task None h) (terminal_q w))
      as [H1 H2]; [done|done|done|done| |done].
    simpl. by rewrite Ht.
Qed.

Lemma reg_step_inv w w' : reg_step w w' → reg_inv w → reg_inv w'.
Proof.
  intros Hs Hw. destruct Hs.
  - by apply reg_inv_env.
  - by apply reg_inv_new_handle.
  - apply hupd_inv; [naive_solver| |done].
    intros h _. destruct (H h) as (_ & -> & -> & _). auto.
  - apply hupd_inv; [done| |done]. intros h Hh. simpl. by rewrite (H h Hh).
  - by apply register_inv.
  - by apply mark_running_inv.
  - by apply mark_awaiting_inv.
  - by apply mark_waiting_inv.
  - by apply resume_waiting_inv.
  - unfold mark_terminal, py_bind, py_guard. destruct (terminal st); [|done]. by apply mark_terminal_body_inv.
  - by apply release_owner_task_inv.
  - by apply evict_inv.
  - by apply evict_inv.
  - by apply evict_inv.
Qed.

(** ** Terminal states are final *)

(** What a handle keeps once it is terminal. *)
Definition keeps_outcome (w w' : World) (r : href) : Prop :=
  ∀ h, heap w !! r = Some h → terminal (state h) = true →
    ∃ h', heap w' !! r = Some h' ∧ ident h' = ident h ∧ state h' = state h ∧
      finished_at h' = finished_at h.

Lemma keeps_outcome_same w w' r : heap w' = heap w → keeps_outcome w w' r.
Proof. intros Hh h Hr _. exists h. by rewrite Hh. Qed.

Lemma keeps_outcome_hupd w r r' f :
  (∀ h, terminal (state h) = true → ident (f h) = ident h ∧ state (f h) = state h ∧
    finished_at (f h) = finished_at h) →
  keeps_outcome w (hupd r' f w) r.
Proof.
  intros Hf h Hr Ht. simpl. rewrite lookup_alter. case_decide; [subst|by eauto].
  rewrite Hr. exists (f h). by destruct (Hf h Ht) as (? & ? & ?).
Qed.

Lemma register_heap r w : heap (register r w).2 = heap w.
Proof.
  unfold register, py_bind, py_modify, py_get, py_guard.
  destruct (hget (evict_terminal w) r); [|apply evict_heap].
  by destruct (od_mem _ _); simpl; rewrite evict_heap.
Qed.

Lemma keeps_outcome_insert w w' r r' h0 h1 :
  heap w !! r' = Some h0 → terminal (state h0) = false → heap w' = <[r' := h1]> (heap w) →
  keeps_outcome w w' r.
Proof.
  intros Hr' Ht0 Hw' h Hr Ht. exists h. rewrite Hw', lookup_insert_ne; [done|].
  intros ->. congruence.
Qed.

Lemma keeps_outcome_terminal_body w r r' st err :
  keeps_outcome w (mark_terminal_body r' st err w) r.
Proof.
  unfold mark_terminal_body, hget. destruct (heap w !! r') as [h0|] eqn:Hr';
    [|by apply keeps_outcome_same].
  destruct (terminal (state h0)) eqn:Ht0; [by apply keeps_outcome_hupd|].
  eapply keeps_outcome_insert; [done|done|]. rewrite evict_heap. by case_match.
Qed.

Lemma reg_step_outcome w w' r : reg_step w w' → keeps_outcome w w' r.
Proof.
  intros Hs. destruct Hs; try (apply keeps_outcome_same; apply evict_heap).
  - by apply keeps_outcome_same.
  - intros h Hr Ht. exists h. simpl. rewrite lookup_insert_ne; [done|congruence].
  - apply keeps_outcome_hupd. intros h _. destruct (H h) as (? & ? & ? & ?). auto.
  - by apply keeps_outcome_hupd.
  - apply keeps_outcome_same, register_heap.
  - unfold mark_running, hget.
    destruct (heap w !! r0) as [h0|] eqn:Hh; [|by apply keeps_outcome_same].
    case_decide as Hq; [|by apply keeps_outcome_same].
    rewrite (hupd_insert _ _ h0) by done.
    eapply keeps_outcome_insert; [done|by rewrite Hq|done].
  - apply keeps_outcome_hupd. intros h Ht. by rewrite Ht.
  - apply keeps_outcome_hupd. intros h Ht. by rewrite Ht.
  - apply keeps_outcome_hupd. intros h Ht. rewrite decide_False; [done|].
    intros Hs. by rewrite Hs in Ht.
  - unfold mark_terminal, py_bind, py_guard. destruct (terminal st).
    + apply keeps_outcome_terminal_body.
    + by apply keeps_outcome_same.
  - unfold release_owner_task, hget.
    destruct (heap w !! r0) as [h0|]; [|by apply keeps_outcome_same].
    case_decide; [|by apply keeps_outcome_same].
    assert (keeps_outcome w (hupd r0 (set_task None) w) r) as Hk by by apply keeps_outcome_hupd.
    case_match; [|done]. intros h Hr Ht. rewrite evict_heap. by apply Hk.
Qed.

Lemma reg_steps_outcome w w' r : reg_steps w w' → keeps_outcome w w' r.
Proof.
  induction 1 as [w|w1 w2 w3 Hs _ IH]; [by apply keeps_outcome_same|].
  intros h Hr Ht. destruct (reg_step_outcome _ _ r Hs h Hr Ht) as (h2 & Hr2 & Hi & Hst & Hf).
  destruct (IH h2 Hr2) as (h3 & Hr3 & Hi3 & Hst3 & Hf3); [congruence|].
  exists h3. split_and!; congruence.
Qed.

(** ** Active executions stay registered *)

Lemma reg_step_capacity w w' : reg_step w w' → terminal_capacity w' = terminal_capacity w.
Proof.
  assert (∀ w, terminal_capacity (evict_terminal w) = terminal_capacity w) as He.
  { intros w1. apply evict_frame. }
  intros Hs. destruct Hs; try done; try apply He.
  - unfold register, py_bind, py_modify, py_get, py_guard.
    destruct (hget (evict_terminal w) r); [|apply He].
    by destruct (od_mem _ _); simpl; rewrite ?He.
  - unfold mark_running. by repeat case_match.
  - unfold mark_terminal, py_bind, py_guard. destruct (terminal st); [|done].
    unfold py_modify, mark_terminal_body. simpl. repeat case_match; rewrite ?He; done.
  - unfold release_owner_task. repeat case_match; rewrite ?He; done.
Qed.

Lemma evict_keeps_active w w0 eid r h :
  index_ok w → executions w = executions w0 → heap w = heap w0 →
  od_get (executions w0) eid = Some r → heap w0 !! r = Some h → terminal (state h) = false →
  od_get (executions (evict_terminal w)) eid = Some r.
Proof.
  intros Hw He Hh Hr Hr' Ht. eapply evict_keeps; [done|by rewrite He|by rewrite Hh|by rewrite Ht].
Qed.

Lemma reg_step_registered w w' eid r h :
  reg_inv w → reg_step w w' → od_get (executions w) eid = Some r →
  heap w' !! r = Some h → terminal (state h) = false →
  od_get (executions w') eid = Some r.
Proof.
  intros Hw Hs Hr Hh Ht. pose proof (reg_step_inv _ _ Hs Hw) as Hw'. destruct Hw as [Hix _].
  destruct Hs; try done; try (simpl in Hh; rewrite evict_heap in Hh; by eapply evict_keeps_active).
  - rewrite register_heap in Hh.
    assert (od_get (executions (evict_terminal w)) eid = Some r) as Hr1
      by by eapply evict_keeps_active.
    unfold register, py_bind, py_modify, py_get, py_guard.
    destruct (hget (evict_terminal w) r0) as [h0|]; [|done].
    unfold od_mem. destruct (od_get _ (h_execution_id h0)) eqn:Hd; [done|].
    simpl. rewrite od_get_set. case_decide; [congruence|done].
  - unfold mark_running in *. by repeat case_match.
  - unfold mark_terminal, py_bind, py_guard, py_modify in *.
    destruct (terminal st) eqn:Hst; [|done]. simpl in *.
    unfold mark_terminal_body, hget in *.
    destruct (heap w !! r0) as [h0|] eqn:Hr0; [|done].
    destruct (terminal (state h0)) eqn:Ht0; [done|].
    rewrite evict_heap in Hh.
    eapply evict_keeps_active with (w0 := with_heap (<[r0 := terminate (clock w) st err h0]> (heap w)) w);
      [|by case_match|by case_match|done|by case_match|done].
    assert (index_ok (with_heap (<[r0 := terminate (clock w) st err h0]> (heap w)) w)) as Hix'.
    { apply (index_ok_ext w); try done. intros eid' r' _. unfold hident. simpl.
      rewrite lookup_insert. case_decide; [|done]. subst. rewrite Hr0.
      cbn [fmap option_fmap option_map]. f_equal. apply terminate_ident. }
    case_match; [by apply with_terminal_q_index|done].
  - unfold release_owner_task, hget in *.
    destruct (heap w !! r0) as [h0|] eqn:Hr0; [|done]. case_decide; [|done].
    destruct (terminal (state h0)) eqn:Ht0; [|done]. rewrite evict_heap in Hh.
    eapply evict_keeps_active with (w0 := hupd r0 (set_task None) w); try done.
    by apply with_terminal_q_index, index_ok_hupd.
Qed.

(** ** Properties *)

(** A registry as its constructor leaves it, in any process. *)
Definition initial (capacity ttl : Z) (w : World) : Prop :=
  ∃ w0, registry_init capacity ttl w0 = (Ret tt, w).

Lemma initial_inv capacity ttl w : initial capacity ttl w → reg_inv w.
Proof.
  intros [w0 Hw]. unfold registry_init, py_bind, py_guard, py_modify in Hw.
  destruct (negb _); simplify_eq/=. split.
  - assert (∀ eid i, ¬ registered (mk_world (heap w0) (done_tasks w0) (clock w0) capacity
      (Z.max 0 ttl) [] ∅ ∅ []) eid i) as Hno by (intros eid i (r & ? & _); done).
    split; simpl; [apply od_wf_nil|done| | | |].
    + intros sid eid. rewrite lookup_empty. split; [set_solver|]. intros (i & ? & _).
      by destruct (Hno eid i).
    + intros k eid. rewrite lookup_empty. split; [set_solver|]. intros (i & ? & _).
      by destruct (Hno eid i).
    + intros sid. by rewrite lookup_empty.
    + intros k. by rewrite lookup_empty.
  - by intros eid r h ?.
Qed.

Lemma reg_steps_inv w w' : reg_steps w w' → reg_inv w → reg_inv w'.
Proof. induction 1; [done|]. eauto using reg_step_inv. Qed.

Lemma reg_steps_capacity w w' : reg_steps w w' → terminal_capacity w' = terminal_capacity w.
Proof. induction 1 as [|w1 w2 w3 Hs _ IH]; [done|]. by rewrite IH, (reg_step_capacity _ _ Hs). Qed.

Lemma initial_capacity capacity ttl w :
  initial capacity ttl w → terminal_capacity w = capacity ∧ (0 ≤ capacity)%Z.
Proof.
  intros [w0 Hw]. unfold registry_init, py_bind, py_guard, py_modify in Hw.
  destruct (Z.ltb_spec capacity 0); simplify_eq/=. done.
Qed.

Lemma finished_queued w : reg_inv w → length (finished w) ≤ length (terminal_q w).
Proof.
  intros [Hix Hh]. apply submseteq_length, NoDup_submseteq.
  - unfold finished, od_keys. eapply sublist_NoDup; [exact (ix_wf _ Hix)|].
    apply fmap_sublist, sublist_filter.
  - intros eid. unfold finished, od_keys. rewrite list_elem_of_fmap.
    intros ([eid' r] & -> & [Hf Hin]%list_elem_of_filter). simpl in *.
    destruct (heap w !! r) as [h|] eqn:Hr; [|done].
    apply andb_prop in Hf as [Ht Hn%bool_decide_eq_true].
    eapply Hh; [|done|done|done]. apply od_elem_get; [apply Hix|done].
Qed.

(** Handles are never forgotten by the process. *)
Lemma reg_step_heap w w' r : reg_step w w' → is_Some (heap w !! r) → is_Some (heap w' !! r).
Proof.
  assert (∀ w r' f, is_Some (heap w !! r) → is_Some (heap (hupd r' f w) !! r)) as Hupd.
  { intros w1 r' f [h Hr]. simpl. rewrite lookup_alter. case_decide; subst; rewrite Hr; by eauto. }
  assert (∀ w h r', is_Some (heap w !! r) → is_Some (<[r' := h]> (heap w) !! r)) as Hins.
  { intros w1 h r' Hr. rewrite lookup_insert. case_decide; by eauto. }
  intros Hs Hr. destruct Hs; try (by apply Hupd); try (simpl; by rewrite evict_heap); try done.
  - by apply Hins.
  - by rewrite register_heap.
  - unfold mark_running. repeat case_match; by auto.
  - unfold mark_terminal, py_bind, py_guard. destruct (terminal st); [|done]. simpl.
    unfold mark_terminal_body. destruct (hget w r0) as [h0|]; [|done].
    destruct (terminal (state h0)); [by apply Hupd|].
    rewrite evict_heap. case_match; by apply Hins.
  - unfold release_owner_task. repeat case_match; rewrite ?evict_heap; simpl; try done;
      by apply (Hupd w).
Qed.

(** in every registry that runs from its constructor, the indexes by session and by
    request list exactly the registered executions, no index entry is empty, and every
    terminal execution without an owner is queued for eviction. *)
Theorem registry_consistent capacity ttl w0 w :
  initial capacity ttl w0 → reg_steps w0 w → reg_inv w.
Proof. intros Hi Hs. eapply reg_steps_inv; [done|]. by eapply initial_inv. Qed.

(** a terminal state is final: no method changes the state, the finishing time or the
    identity of an execution that succeeded, failed or was cancelled. *)
Theorem terminal_state_final w w' r h :
  reg_steps w w' → heap w !! r = Some h → terminal (state h) = true →
  ∃ h', heap w' !! r = Some h' ∧ ident h' = ident h ∧ state h' = state h ∧
    finished_at h' = finished_at h.
Proof. intros Hs Hr Ht. by apply (reg_steps_outcome w w' r Hs). Qed.

(** an execution that has not reached a terminal state is never evicted: it stays under
    its id, whatever capacity and time to live the registry has. *)
Theorem active_execution_kept w w' eid r h :
  reg_inv w → od_get (executions w) eid = Some r → reg_steps w w' →
  heap w' !! r = Some h → terminal (state h) = false →
  od_get (executions w') eid = Some r.
Proof.
  intros Hw Hr Hs. revert h. induction Hs as [w|w1 w2 w3 Hs Hss IH]; intros h Hh Ht; [done|].
  assert (∀ h2, heap w2 !! r = Some h2 → terminal (state h2) = false) as Ht2.
  { intros h2 Hh2. destruct (terminal (state h2)) eqn:Ht2; [|done].
    destruct (reg_steps_outcome _ _ r Hss h2 Hh2 Ht2) as (h3 & Hh3 & _ & Hst & _).
    simplify_eq. congruence. }
  destruct (heap w2 !! r) as [h2|] eqn:Hh2.
  - eapply IH; [by eapply reg_step_inv| |done|done].
    eapply reg_step_registered; [done|done|done|done|by apply Ht2].
  - destruct Hw as [Hix _]. destruct (ix_ident _ Hix _ _ Hr) as (i & Hi & _).
    exfalso. unfold hident in Hi. destruct (heap w1 !! r) as [h1|] eqn:Hh1; [|done].
    destruct (reg_step_heap _ _ r Hs) as [h2 ?]; [by eauto|congruence].
Qed.

(** after any lookup the registry holds at most [terminal_capacity] finished executions,
    and finishing an execution keeps it so. *)
Theorem finished_bounded capacity ttl w0 w r st err h :
  initial capacity ttl w0 → reg_steps w0 w →
  hget w r = Some h → terminal (state h) = false → terminal st = true →
  (Z.of_nat (length (finished (get_execution (h_execution_id h) w).2)) ≤ capacity)%Z ∧
  (Z.of_nat (length (finished (mark_terminal r st err w).2)) ≤ capacity)%Z.
Proof.
  intros Hi Hs Hr Ht Hst. pose proof (initial_capacity _ _ _ Hi) as [Hc Hc0].
  pose proof (reg_steps_capacity _ _ Hs) as Hcw. rewrite Hc in Hcw.
  assert (reg_inv w) as Hw by (eapply reg_steps_inv; [done|by eapply initial_inv]).
  assert (∀ w1, reg_inv (evict_terminal w1) → terminal_capacity w1 = capacity →
    (Z.of_nat (length (finished (evict_terminal w1))) ≤ capacity)%Z) as Hb.
  { intros w1 Hw1 Hc1. pose proof (finished_queued _ Hw1) as Hf.
    pose proof (evict_loop_bound (terminal_q w1) w1) as Hl. rewrite Hc1 in Hl.
    specialize (Hl Hc0). unfold evict_terminal in *. lia. }
  split; [apply Hb; [by apply evict_inv|done]|].
  pose proof (mark_terminal_body_inv r st err w Hw) as Hw'.
  unfold mark_terminal, py_bind, py_guard. rewrite Hst. simpl.
  unfold mark_terminal_body in *. rewrite Hr, Ht in *. apply Hb; [done|].
  by case_match.
Qed.

(** The condition [select] tests, on the registered executions. *)
Definition select_spec (w : World) (sid : string) (rid eid : option string) (gen : option Z)
    (active_only : bool) (r : href) : Prop :=
  ∃ e h, od_get (executions w) e = Some r ∧ heap w !! r = Some h ∧
    h_session_id h = sid ∧
    match eid, rid with
    | Some e', _ => e = e'
    | None, Some q => h_request_id h = q
    | None, None => True
    end ∧
    (∀ g, gen = Some g → h_generation h = g) ∧
    (active_only = true → terminal (state h) = false).

Lemma selects_spec w sid gen active_only r :
  selects w sid gen active_only r = true ↔
    ∃ h, heap w !! r = Some h ∧ h_session_id h = sid ∧
      (∀ g, gen = Some g → h_generation h = g) ∧
      (active_only = true → terminal (state h) = false).
Proof.
  unfold selects, hget. destruct (heap w !! r) as [h|]; [|naive_solver].
  rewrite !andb_true_iff, bool_decide_eq_true, negb_true_iff, andb_false_iff.
  assert (match gen with None => true | Some g => bool_decide (h_generation h = g) end = true ↔
    ∀ g, gen = Some g → h_generation h = g) as ->.
  { destruct gen; [rewrite bool_decide_eq_true|]; naive_solver. }
  split.
  - intros [[? ?] ?]. exists h. split_and!; try done. intros ->. naive_solver.
  - intros (? & [= <-] & ? & ? & Hat). split; [done|]. destruct active_only; naive_solver.
Qed.

Lemma candidate_spec w sid rid eid gen active_only r :
  index_ok w →
  (r ∈ omap (lookup_execution w) (candidate_ids w sid rid eid) ∧
     selects w sid gen active_only r = true) ↔
  select_spec w sid rid eid gen active_only r.
Proof.
  intros Hix. rewrite selects_spec, list_elem_of_omap. unfold select_spec, lookup_execution.
  assert (∀ e h, od_get (executions w) e = Some r → heap w !! r = Some h →
    registered w e (ident h)) as Hreg.
  { intros e h He Hh. exists r. split; [done|]. unfold hident. by rewrite Hh. }
  split.
  - intros [(e & Hin & He) (h & Hh & Hs & Hg & Ha)]. exists e, h. split_and!; try done.
    unfold candidate_ids in Hin. destruct eid as [e'|]; [set_solver|].
    destruct rid as [q|]; [|done]. apply elem_of_elements in Hin.
    apply (ix_request _ Hix) in Hin as (i & Hi & Hk).
    rewrite (registered_fun _ _ _ _ Hi (Hreg e h He Hh)) in Hk. by simplify_eq.
  - intros (e & h & He & Hh & Hs & Hc & Hg & Ha). split; [|by eauto].
    exists e. split; [|done]. unfold candidate_ids. destruct eid as [e'|]; [set_solver|].
    destruct rid as [q|]; apply elem_of_elements.
    + apply (ix_request _ Hix). exists (ident h). split; [by apply Hreg|].
      unfold h_session_id, h_request_id in *. by rewrite Hs, Hc.
    + apply (ix_session _ Hix). exists (ident h). split; [by apply Hreg|done].
Qed.

Lemma candidates_NoDup w sid rid eid :
  index_ok w → NoDup (omap (lookup_execution w) (candidate_ids w sid rid eid)).
Proof.
  intros Hix. assert (NoDup (candidate_ids w sid rid eid)) as Hnd.
  { unfold candidate_ids. destruct eid; [apply NoDup_singleton|].
    destruct rid; apply NoDup_elements. }
  induction Hnd as [|e l Hl _ IH]; simpl; [constructor|].
  destruct (lookup_execution w e) as [r|] eqn:He; [|done]. constructor; [|done].
  rewrite list_elem_of_omap. intros (e' & Hin & He'). apply Hl.
  destruct (ix_ident _ Hix _ _ He) as (i & Hi & <-).
  destruct (ix_ident _ Hix _ _ He') as (j & Hj & <-). by simplify_eq.
Qed.

Lemma elem_of_select w sid rid eid gen active_only r :
  index_ok w →
  r ∈ (select sid rid eid gen active_only w).1 ↔
    select_spec (evict_terminal w) sid rid eid gen active_only r.
Proof.
  intros Hix%evict_index. unfold select, select_from. cbn [fst].
  rewrite elem_of_py_sorted, list_elem_of_filter, <-candidate_spec by done. tauto.
Qed.

Lemma select_NoDup w sid rid eid gen active_only :
  index_ok w → NoDup (select sid rid eid gen active_only w).1.
Proof.
  intros Hix%evict_index. unfold select, select_from. cbn [fst].
  rewrite py_sorted_perm. by apply NoDup_filter, candidates_NoDup.
Qed.

(** Eviction does not change which active executions are registered. *)
Lemma evict_active w eid r h :
  index_ok w → heap w !! r = Some h → terminal (state h) = false →
  od_get (executions (evict_terminal w)) eid = Some r ↔ od_get (executions w) eid = Some r.
Proof.
  intros Hw Hh Ht. split; [|intros Hr; eapply evict_keeps; try done; by rewrite Ht].
  apply (evict_terminal_rule (λ _ w', od_get (executions w') eid = Some r →
    od_get (executions w) eid = Some r)); try done.
  intros eid' q w1 h' Hw1 _ _ _. simpl. rewrite od_get_pop. case_decide; [done|]. apply Hw1.
Qed.

Lemma elem_of_select_active w sid rid eid gen r :
  index_ok w →
  r ∈ (select sid rid eid gen true w).1 ↔ select_spec w sid rid eid gen true r.
Proof.
  intros Hw. rewrite elem_of_select by done. unfold select_spec. rewrite evict_heap.
  split; intros (e & h & He & Hh & Hrest); exists e, h; (split; [|done]);
    destruct Hrest as (_ & _ & _ & Ht); by eapply evict_active; eauto.
Qed.

(** Evicting again changes nothing. *)
Lemma evict_loop_idemp q w :
  evict_loop (terminal_q (evict_loop q w)) (evict_loop q w) = evict_loop q w.
Proof.
  revert w. induction q as [|eid q IH]; intros w; [done|].
  destruct (negb (match lookup_handle w eid with
                  | None => true
                  | Some h => match finished_at h with
                              | None => true
                              | Some t => Z.ltb (terminal_ttl w) (clock w - t)
                              end
                  end) && negb (Z.ltb (terminal_capacity w) (Z.of_nat (length (eid :: q))))) eqn:Hb.
  - assert (evict_loop (eid :: q) w = with_terminal_q (eid :: q) w) as ->.
    { cbn [evict_loop]. by rewrite Hb. }
    change (terminal_q (with_terminal_q (eid :: q) w)) with (eid :: q).
    cbn [evict_loop].
    change (lookup_handle (with_terminal_q (eid :: q) w) eid) with (lookup_handle w eid).
    cbn [terminal_ttl terminal_capacity clock with_terminal_q]. by rewrite Hb.
  - assert (∃ w', evict_loop (eid :: q) w = evict_loop q w') as [w' ->]; [|apply IH].
    cbn [evict_loop]. rewrite Hb. repeat case_match; by eexists.
Qed.

Lemma evict_idemp w : evict_terminal (evict_terminal w) = evict_terminal w.
Proof. apply evict_loop_idemp. Qed.

Lemma evict_length w : length (executions (evict_terminal w)) ≤ length (executions w).
Proof.
  apply (evict_terminal_rule (λ _ w', length (executions w') ≤ length (executions w))); try done.
  intros eid q w1 h Hw1 _ _ _. simpl. pose proof (od_length_pop_le (executions w1) (execution_id (ident h))).
  lia.
Qed.

Lemma evict_None w eid :
  od_get (executions w) eid = None → od_get (executions (evict_terminal w)) eid = None.
Proof.
  intros Hw. apply (evict_terminal_rule (λ _ w', od_get (executions w') eid = None)); try done.
  intros eid' q w1 h Hw1 _ _ _. simpl. rewrite od_get_pop. by case_decide.
Qed.

(** Registering under an id that is not taken *)
Lemma register_fresh w r h :
  heap w !! r = Some h → od_get (executions w) (h_execution_id h) = None →
  register r w =
    (Ret tt, with_index (od_set (executions (evict_terminal w)) (h_execution_id h) r)
       (index_add (h_session_id h) (h_execution_id h) (by_session (evict_terminal w)))
       (index_add (h_session_id h, h_request_id h) (h_execution_id h)
          (by_request (evict_terminal w))) (evict_terminal w)).
Proof.
  intros Hh Hn%evict_None. unfold register, py_bind, py_modify, py_get. unfold hget.
  rewrite evict_heap, Hh. unfold py_guard, od_mem. by rewrite Hn.
Qed.

(** [select] returns each execution that matches its session, id, request, generation and
    activity filters once, and no other, oldest first. *)
Theorem select_correct w sid rid eid gen active_only :
  reg_inv w →
  let '(rs, w') := select sid rid eid gen active_only w in
  (∀ r, r ∈ rs ↔ select_spec w' sid rid eid gen active_only r) ∧
  NoDup rs ∧ StronglySorted (λ r r', (created_key w' r ≤ created_key w' r')%Z) rs.
Proof.
  intros [Hix _]%evict_inv. unfold select, select_from. split_and!.
  - intros r. rewrite elem_of_py_sorted, list_elem_of_filter.
    rewrite <-candidate_spec by done. tauto.
  - rewrite py_sorted_perm. by apply NoDup_filter, candidates_NoDup.
  - apply py_sorted_sorted.
Qed.

(** A task that is done stays done. *)
Lemma reg_step_done w w' : reg_step w w' → done_tasks w ⊆ done_tasks w'.
Proof.
  assert (∀ w, done_tasks (evict_terminal w) = done_tasks w) as He by (intros; apply evict_frame).
  intros []; simpl; rewrite ?He; try done.
  - unfold register, py_bind, py_modify, py_get, py_guard, py_ret, py_raise. simpl.
    repeat case_match; simplify_eq/=; by rewrite ?He.
  - unfold mark_running. by repeat case_match.
  - unfold mark_terminal, mark_terminal_body, py_bind, py_modify, py_guard, py_ret, py_raise.
    simpl. repeat case_match; simplify_eq/=; by rewrite ?He.
  - unfold release_owner_task. repeat case_match; simpl; rewrite ?He; done.
Qed.

(** ** Witnesses

    A registry of capacity 1 with one chat execution, which runs and succeeds. *)

Definition demo_ident : HandleIdent :=
  mk_ident "e1" "s1" "q1" 1 CHAT_UNARY "default" None None None None 0.
Definition demo_world0 : World :=
  mk_world {[ 0 := new_handle demo_ident None ]} ∅ 0 1 900 [] ∅ ∅ [].
Definition demo_world1 : World := (register 0 demo_world0).2.
Definition demo_world2 : World := mark_running 0 demo_world1.
Definition demo_world3 : World := (mark_terminal 0 SUCCEEDED None demo_world2).2.

Lemma demo_initial : initial 1 900 demo_world0.
Proof. exists demo_world0. reflexivity. Defined.

Lemma demo_steps1 : reg_steps demo_world0 demo_world1.
Proof. eapply rtc_l; [|apply rtc_refl]. apply step_register. intros h [= <-]. reflexivity. Defined.

Lemma demo_steps2 : reg_steps demo_world1 demo_world2.
Proof. eapply rtc_l; [|apply rtc_refl]. apply step_mark_running. Defined.

Lemma demo_steps3 : reg_steps demo_world2 demo_world3.
Proof. eapply rtc_l; [|apply rtc_refl]. apply step_mark_terminal. Defined.

Lemma demo_inv : reg_inv demo_world1.
Proof. eapply reg_steps_inv; [exact demo_steps1|]. eapply initial_inv, demo_initial. Defined.

Lemma registry_consistent_witness : reg_inv demo_world3.
Proof.
  apply (registry_consistent 1 900 demo_world0); [exact demo_initial|].
  etrans; [exact demo_steps1|].
  etrans; [exact demo_steps2|exact demo_steps3].
Defined.

Lemma terminal_state_final_witness :
  ∃ h, heap (mark_waiting 0 demo_world3) !! 0 = Some h ∧ state h = SUCCEEDED.
Proof.
  destruct (heap demo_world3 !! 0) as [h|] eqn:Hh; [|discriminate].
  destruct (terminal_state_final demo_world3 (mark_waiting 0 demo_world3) 0 h)
    as (h' & Hh' & _ & Hs & _).
  - eapply rtc_l; [apply step_mark_waiting|apply rtc_refl].
  - exact Hh.
  - vm_compute in Hh. injection Hh as <-. reflexivity.
  - exists h'. split; [exact Hh'|]. rewrite Hs. vm_compute in Hh. by injection Hh as <-.
Defined.

Lemma active_execution_kept_witness : od_get (executions demo_world2) "e1" = Some 0.
Proof.
  destruct (heap demo_world2 !! 0) as [h|] eqn:Hh; [|discriminate].
  apply (active_execution_kept demo_world1 demo_world2 "e1" 0 h).
  - exact demo_inv.
  - reflexivity.
  - exact demo_steps2.
  - exact Hh.
  - vm_compute in Hh. injection Hh as <-. reflexivity.
Defined.

Lemma finished_bounded_witness :
  (Z.of_nat (length (finished (mark_terminal 0%nat SUCCEEDED None demo_world2).2)) ≤ 1)%Z.
Proof.
  destruct (hget demo_world2 0) as [h|] eqn:Hh; [|discriminate].
  apply (finished_bounded 1 900 demo_world0 demo_world2 0 SUCCEEDED None h).
  - exact demo_initial.
  - etrans; [exact demo_steps1|exact demo_steps2].
  - exact Hh.
  - vm_compute in Hh. injection Hh as <-. reflexivity.
  - reflexivity.
Defined.

Lemma select_correct_witness :
  let '(rs, w') := select "s1" None None (Some 1%Z) true demo_world1 in
  rs = [0] ∧ (∀ r, r ∈ rs ↔ select_spec w' "s1" None None (Some 1%Z) true r).
Proof.
  pose proof (select_correct demo_world1 "s1" None None (Some 1%Z) true demo_inv) as H.
  destruct (select "s1" None None (Some 1%Z) true demo_world1) as [rs w'] eqn:Hs.
  split; [|exact (proj1 H)]. vm_compute in Hs. by injection Hs as <- _.
Defined.
