(* ===== verification/WorkScheduler.v ===== *)
(** * The per-Session work scheduler

    Source: [jiuwenswarm/runtime/session/work_scheduler.py].

    A lane is a mutable object: it lives in [lane_heap] and [self._lanes.get(sid)
    is lane] compares references.  Its processor is a coroutine: [proc_at] holds
    the point where it is suspended, and each function named [proc_*] runs it
    from one suspension to the next.  Operations are tasks the scheduler creates
    and does not look into: [op_tasks] records for whom each was created, and
    when one finishes is left open.

    [asyncio.PriorityQueue] is the list of its entries in serving order. *)

From S2P Require Import Prelude OrderedDict SessionModel ExecutionRegistry.

(** ** Data *)

(** References to Python objects the scheduler passes on. *)
Abbreviation obj := nat (only parsing).
Abbreviation future_ref := nat (only parsing).
Abbreviation lane_ref := nat (only parsing).

(** How a task or a future ended. *)
Inductive completion := Value (v : obj) | Cancelled | Raised (e : obj).

(** [_QueuedWork]; the handle is its reference and the fields fixed at its
    construction. *)
Record QueuedWork := mk_work {
  qw_handle : href;
  qw_ident : HandleIdent;
  qw_operation : obj;
  qw_context : obj;
  qw_result : future_ref;
}.

(** The tuple [(group, priority, sequence, queued)]. *)
Record entry := mk_entry {
  e_group : Z;
  e_priority : Z;
  e_sequence : Z;
  e_work : QueuedWork;
}.

(** [_Lane]; [unfinished] is the counter behind [task_done]. *)
Record Lane := mk_lane {
  lane_session_id : string;
  lane_generation : Z;
  queue : list entry;
  priority : Z;
  sequence : Z;
  processor : option task_ref;
  queued : odict string QueuedWork;
  current : option QueuedWork;
  current_task : option task_ref;
  unfinished : Z;
}.

(** Where the coroutine [_process] of a lane is suspended. *)
Inductive proc_point :=
| NotStarted
| InLoop                                        (* in [await lane.queue.get()] *)
| AtTask (q : QueuedWork) (t : task_ref)        (* in [value = await task] *)
| AwaitCurrent (t : task_ref)                   (* in [await current] *)
| Returned.

Record Sched := mk_sched {
  world : World;
  lane_heap : gmap lane_ref Lane;
  proc_at : gmap lane_ref proc_point;
  lanes : odict string lane_ref;
  closing_tasks : odict (string * Z) (gset task_ref);
  closed : bool;
  futures : gmap future_ref (option completion);
  op_tasks : gmap task_ref (lane_ref * QueuedWork);
  completions : gmap task_ref completion;
  cancelling : gset task_ref;
  next_ref : nat;
}.

Inductive scheduler_error := RuntimeError (msg : string).

(** ** Access *)

Definition with_world (w : World) (s : Sched) : Sched :=
  mk_sched w (lane_heap s) (proc_at s) (lanes s) (closing_tasks s) (closed s) (futures s)
    (op_tasks s) (completions s) (cancelling s) (next_ref s).
Definition with_lane_heap (m : gmap lane_ref Lane) (s : Sched) : Sched :=
  mk_sched (world s) m (proc_at s) (lanes s) (closing_tasks s) (closed s) (futures s)
    (op_tasks s) (completions s) (cancelling s) (next_ref s).
Definition set_point (l : lane_ref) (p : proc_point) (s : Sched) : Sched :=
  mk_sched (world s) (lane_heap s) (<[l := p]> (proc_at s)) (lanes s) (closing_tasks s)
    (closed s) (futures s) (op_tasks s) (completions s) (cancelling s) (next_ref s).
Definition with_lanes (ls : odict string lane_ref) (s : Sched) : Sched :=
  mk_sched (world s) (lane_heap s) (proc_at s) ls (closing_tasks s) (closed s) (futures s)
    (op_tasks s) (completions s) (cancelling s) (next_ref s).
Definition with_closing (c : odict (string * Z) (gset task_ref)) (s : Sched) : Sched :=
  mk_sched (world s) (lane_heap s) (proc_at s) (lanes s) c (closed s) (futures s)
    (op_tasks s) (completions s) (cancelling s) (next_ref s).
Definition with_closed (b : bool) (s : Sched) : Sched :=
  mk_sched (world s) (lane_heap s) (proc_at s) (lanes s) (closing_tasks s) b (futures s)
    (op_tasks s) (completions s) (cancelling s) (next_ref s).
Definition with_futures (f : gmap future_ref (option completion)) (s : Sched) : Sched :=
  mk_sched (world s) (lane_heap s) (proc_at s) (lanes s) (closing_tasks s) (closed s) f
    (op_tasks s) (completions s) (cancelling s) (next_ref s).
Definition with_op_tasks (o : gmap task_ref (lane_ref * QueuedWork)) (s : Sched) : Sched :=
  mk_sched (world s) (lane_heap s) (proc_at s) (lanes s) (closing_tasks s) (closed s)
    (futures s) o (completions s) (cancelling s) (next_ref s).
Definition with_completions (c : gmap task_ref completion) (s : Sched) : Sched :=
  mk_sched (world s) (lane_heap s) (proc_at s) (lanes s) (closing_tasks s) (closed s)
    (futures s) (op_tasks s) c (cancelling s) (next_ref s).
Definition with_cancelling (c : gset task_ref) (s : Sched) : Sched :=
  mk_sched (world s) (lane_heap s) (proc_at s) (lanes s) (closing_tasks s) (closed s)
    (futures s) (op_tasks s) (completions s) c (next_ref s).
Definition with_next_ref (n : nat) (s : Sched) : Sched :=
  mk_sched (world s) (lane_heap s) (proc_at s) (lanes s) (closing_tasks s) (closed s)
    (futures s) (op_tasks s) (completions s) (cancelling s) n.

(** A new object reference. *)
Definition fresh_ref : py Sched scheduler_error nat :=
  s <- py_get ;; py_modify (with_next_ref (S (next_ref s))) ;; py_ret (next_ref s).

Definition upd_lane (l : lane_ref) (f : Lane → Lane) (s : Sched) : Sched :=
  with_lane_heap (alter f l (lane_heap s)) s.

(** [self._lanes.get(sid) is lane] *)
Definition is_registered (s : Sched) (sid : string) (l : lane_ref) : bool :=
  bool_decide (od_get (lanes s) sid = Some l).

(** [task.done()] *)
Definition task_done (s : Sched) (t : task_ref) : bool :=
  bool_decide (t ∈ done_tasks (world s)).
Definition finish_task (t : task_ref) (s : Sched) : Sched :=
  with_world (with_env ({[t]} ∪ done_tasks (world s)) (clock (world s)) (world s)) s.

(** [future.done()], [future.cancelled()], and setting a future that is not done *)
Definition future_done (s : Sched) (f : future_ref) : bool :=
  match futures s !! f with Some None => false | _ => true end.
Definition future_cancelled (s : Sched) (f : future_ref) : bool :=
  match futures s !! f with Some (Some Cancelled) => true | _ => false end.
Definition settle (f : future_ref) (c : completion) (s : Sched) : Sched :=
  if future_done s f then s else with_futures (<[f := Some c]> (futures s)) s.

(** [task.cancel()] of a task created from an operation *)
Definition cancel_task (t : task_ref) (s : Sched) : Sched :=
  if task_done s t then s else with_cancelling ({[t]} ∪ cancelling s) s.

(** [lane.processor.cancel()]: while the processor awaits an operation that is
    not done, the request goes to that operation; otherwise [CancelledError] is
    thrown where the processor is suspended, when it next runs. *)
Definition cancel_processor (l : lane_ref) (p : task_ref) (s : Sched) : Sched :=
  match proc_at s !! l with
  | Some (AtTask _ t) => if task_done s t then cancel_task p s else cancel_task t s
  | Some (AwaitCurrent t) => if task_done s t then cancel_task p s else cancel_task t s
  | _ => cancel_task p s
  end.

(** ** The priority queue *)

(** Tuples compare lexicographically. *)
Definition entry_lt (a b : entry) : bool :=
  Z.ltb (e_group a) (e_group b)
  || Z.eqb (e_group a) (e_group b)
     && (Z.ltb (e_priority a) (e_priority b)
         || Z.eqb (e_priority a) (e_priority b) && Z.ltb (e_sequence a) (e_sequence b)).

Fixpoint enqueue (e : entry) (q : list entry) : list entry :=
  match q with
  | [] => [e]
  | x :: q' => if entry_lt e x then e :: q else x :: enqueue e q'
  end.

Definition set_queue (q : list entry) (ln : Lane) : Lane :=
  mk_lane (lane_session_id ln) (lane_generation ln) q (priority ln) (sequence ln)
    (processor ln) (queued ln) (current ln) (current_task ln) (unfinished ln).
Definition set_queued (d : odict string QueuedWork) (ln : Lane) : Lane :=
  mk_lane (lane_session_id ln) (lane_generation ln) (queue ln) (priority ln) (sequence ln)
    (processor ln) d (current ln) (current_task ln) (unfinished ln).
Definition set_current (q : option QueuedWork) (ln : Lane) : Lane :=
  mk_lane (lane_session_id ln) (lane_generation ln) (queue ln) (priority ln) (sequence ln)
    (processor ln) (queued ln) q (current_task ln) (unfinished ln).
Definition set_current_task (t : option task_ref) (ln : Lane) : Lane :=
  mk_lane (lane_session_id ln) (lane_generation ln) (queue ln) (priority ln) (sequence ln)
    (processor ln) (queued ln) (current ln) t (unfinished ln).
Definition set_unfinished (n : Z) (ln : Lane) : Lane :=
  mk_lane (lane_session_id ln) (lane_generation ln) (queue ln) (priority ln) (sequence ln)
    (processor ln) (queued ln) (current ln) (current_task ln) n.

(** [lane.queue.task_done()] *)
Definition queue_task_done (ln : Lane) : Lane := set_unfinished (unfinished ln - 1) ln.

Definition work_id (q : QueuedWork) : string := execution_id (qw_ident q).

(** Taking the first entry off the queue, and the [lane.queued.pop] after it. *)
Definition take_entry (e : entry) (q' : list entry) (ln : Lane) : Lane :=
  set_queued (od_pop (queued ln) (work_id (e_work e))) (set_queue q' ln).

(** ** [submit_and_wait]

    [_Lane(session_id=..., generation=...)] with the processor it is given. *)
Definition new_lane (sid : string) (gen : Z) (p : task_ref) : Lane :=
  mk_lane sid gen [] 0 0 (Some p) [] None None 0.

Definition ensure_lane (sid : string) (gen : Z) : py Sched scheduler_error lane_ref :=
  s <- py_get ;;
  let create : py Sched scheduler_error lane_ref :=
    l <- fresh_ref ;;
    p <- fresh_ref ;;
    py_modify (λ s, set_point l NotStarted
      (with_lanes (od_set (lanes s) sid l)
        (with_lane_heap (<[l := new_lane sid gen p]> (lane_heap s)) s))) ;;
    py_ret l in
  match od_get (lanes s) sid with
  | Some l =>
      match lane_heap s !! l with
      | Some ln =>
          py_guard (bool_decide (lane_generation ln = gen))
            (RuntimeError ("session generation mismatch: " +:+ sid)) ;;
          py_ret l
      | None => create
      end
  | None => create
  end.

(** The tuple built for a work, with the lane counters it leaves. *)
Definition push_work (q : QueuedWork) (ln : Lane) : Lane :=
  let seq := (sequence ln + 1)%Z in
  let latest := latest_first (work_kind (qw_ident q)) in
  let prio := if latest then (priority ln - 1)%Z else priority ln in
  let e := if latest then mk_entry 0 prio seq q else mk_entry 1 0 seq q in
  mk_lane (lane_session_id ln) (lane_generation ln) (enqueue e (queue ln)) prio seq
    (processor ln) (od_set (queued ln) (work_id q) q) (current ln) (current_task ln)
    (unfinished ln + 1).

(** [submit_and_wait] up to [await result]: it returns the future it awaits. *)
Definition submit (h : href) (i : HandleIdent) (op ctx : obj) : py Sched scheduler_error future_ref :=
  s <- py_get ;;
  py_guard (negb (closed s)) (RuntimeError "session scheduler is closed") ;;
  l <- ensure_lane (session_id i) (generation i) ;;
  f <- fresh_ref ;;
  py_modify (λ s, with_futures (<[f := None]> (futures s)) s) ;;
  py_modify (upd_lane l (push_work (mk_work h i op ctx f))) ;;
  py_ret f.

(** ** [_process] *)

(** [_drain_queued] on the queue [q] of the lane *)
Fixpoint drain_entries (q : list entry) (l : lane_ref) (s : Sched) : Sched :=
  match q with
  | [] => s
  | e :: q' =>
      let s := upd_lane l (take_entry e q') s in
      let s := settle (qw_result (e_work e)) Cancelled s in
      drain_entries q' l (upd_lane l queue_task_done s)
  end.

Definition drain_queued (l : lane_ref) (s : Sched) : Sched :=
  match lane_heap s !! l with
  | Some ln => drain_entries (queue ln) l s
  | None => s
  end.

(** [_finish_closing] *)
Definition finish_closing (key : string * Z) (t : task_ref) (s : Sched) : Sched :=
  match od_get (closing_tasks s) key with
  | None => s
  | Some ts =>
      let ts' := ts ∖ {[t]} in
      with_closing (if decide (ts' = ∅) then od_pop (closing_tasks s) key
                    else od_set (closing_tasks s) key ts') s
  end.

(** The outer [finally], after which the processor task is done. *)
Definition proc_finally (l : lane_ref) (s : Sched) : Sched :=
  match lane_heap s !! l with
  | None => s
  | Some ln =>
      let sid := lane_session_id ln in
      let s := if is_registered s sid l then with_lanes (od_pop (lanes s) sid) s else s in
      let s := drain_queued l s in
      let s := set_point l Returned s in
      match processor ln with
      | Some p => finish_task p (finish_closing (sid, lane_generation ln) p s)
      | None => s
      end
  end.

(** From [asyncio.create_task(queued.operation())] to [await task] *)
Definition start_operation (l : lane_ref) (q : QueuedWork) (s : Sched) : Sched :=
  let t := next_ref s in
  let s := with_op_tasks (<[t := (l, q)]> (op_tasks s)) (with_next_ref (S t) s) in
  let s := upd_lane l (set_current_task (Some t)) s in
  let s := with_world (hupd (qw_handle q) (set_task (Some t)) (world s)) s in
  set_point l (AtTask q t) s.

(** The loop with [q] in the queue; [checked] when the test at its head is
    already behind. *)
Fixpoint proc_loop (q : list entry) (checked : bool) (l : lane_ref) (s : Sched) : Sched :=
  match lane_heap s !! l with
  | None => s
  | Some ln =>
      if negb checked && negb (is_registered s (lane_session_id ln) l) then proc_finally l s
      else match q with
           | [] => set_point l InLoop s
           | e :: q' =>
               let s := upd_lane l (λ ln, set_current (Some (e_work e)) (take_entry e q' ln)) s in
               if future_cancelled s (qw_result (e_work e))
               then proc_loop q' false l
                      (upd_lane l (λ ln, queue_task_done (set_current None ln)) s)
               else start_operation l (e_work e) s
           end
  end.

Definition lane_queue (s : Sched) (l : lane_ref) : list entry :=
  match lane_heap s !! l with Some ln => queue ln | None => [] end.

(** The processor continues after [await task]: [c] is what the await raised or
    returned. *)
Definition proc_after_task (l : lane_ref) (q : QueuedWork) (c : completion) (s : Sched) : Sched :=
  let s := settle (qw_result q) c s in
  let s := with_world (hupd (qw_handle q) (set_task None) (world s)) s in
  let s := upd_lane l (λ ln, queue_task_done (set_current_task None (set_current None ln))) s in
  proc_loop (lane_queue s l) false l (set_point l InLoop s).

(** The handler of [CancelledError] outside the loop. *)
Definition proc_cancelled (l : lane_ref) (s : Sched) : Sched :=
  match lane_heap s !! l with
  | None => s
  | Some ln =>
      match current_task ln with
      | Some t => if task_done s t then proc_finally l s
                  else set_point l (AwaitCurrent t) (cancel_task t s)
      | None => proc_finally l s
      end
  end.

(** A processor cancelled before its first step never runs its body. *)
Definition proc_never_ran (l : lane_ref) (s : Sched) : Sched :=
  match lane_heap s !! l with
  | None => s
  | Some ln =>
      let s := set_point l Returned s in
      match processor ln with Some p => finish_task p s | None => s end
  end.

Definition proc_cancel_pending (s : Sched) (l : lane_ref) : bool :=
  match lane_heap s !! l with
  | Some ln => match processor ln with
               | Some p => bool_decide (p ∈ cancelling s)
               | None => false
               end
  | None => false
  end.

(** Throwing [CancelledError] uses the request up. *)
Definition consume_cancel (l : lane_ref) (s : Sched) : Sched :=
  match lane_heap s !! l with
  | Some ln => match processor ln with
               | Some p => with_cancelling (cancelling s ∖ {[p]}) s
               | None => s
               end
  | None => s
  end.

(** One run of the processor of [l] by the event loop; [None] when it is not
    runnable. *)
Definition proc_run (l : lane_ref) (s : Sched) : option Sched :=
  let cancelled := proc_cancel_pending s l in
  let s := if cancelled then consume_cancel l s else s in
  match proc_at s !! l with
  | Some NotStarted =>
      Some (if cancelled then proc_never_ran l s else proc_loop (lane_queue s l) false l s)
  | Some InLoop =>
      if cancelled then Some (proc_cancelled l s)
      else match lane_queue s l with
           | [] => None
           | q => Some (proc_loop q true l s)
           end
  | Some (AtTask q t) =>
      if task_done s t then
        Some (proc_after_task l q
                (if cancelled then Cancelled else default Cancelled (completions s !! t)) s)
      else None
  | Some (AwaitCurrent t) => if task_done s t then Some (proc_finally l s) else None
  | Some Returned | None => None
  end.

(** ** [cancel_handles] *)

(** The loop over the lanes: the targets it collects and the tasks it cancels. *)
Fixpoint cancel_current (ids : gset string) (ls : list lane_ref)
    (targets : odict string task_ref) (s : Sched) : odict string task_ref * Sched :=
  match ls with
  | [] => (targets, s)
  | l :: ls' =>
      match lane_heap s !! l with
      | Some ln =>
          match current ln, current_task ln with
          | Some q, Some t =>
              if bool_decide (work_id q ∈ ids) && negb (task_done s t)
              then cancel_current ids ls' (od_set targets (work_id q) t) (cancel_task t s)
              else cancel_current ids ls' targets s
          | _, _ => cancel_current ids ls' targets s
          end
      | None => cancel_current ids ls' targets s
      end
  end.

(** [_cancel_queued] *)
Definition cancel_queued (l : lane_ref) (eid : string) (s : Sched) : Sched :=
  match lane_heap s !! l with
  | Some ln => match od_get (queued ln) eid with
               | Some q => settle (qw_result q) Cancelled s
               | None => s
               end
  | None => s
  end.

Definition cancel_queued_handle (targets : odict string task_ref) (r : href) (s : Sched) : Sched :=
  match hget (world s) r with
  | None => s
  | Some h =>
      if negb (od_mem targets (h_execution_id h)) && bool_decide (state h = QUEUED) then
        match od_get (lanes s) (h_session_id h) with
        | Some l => match lane_heap s !! l with
                    | Some ln => if bool_decide (lane_generation ln = h_generation h)
                                 then cancel_queued l (h_execution_id h) s else s
                    | None => s
                    end
        | None => s
        end
      else s
  end.

(** [cancel_handles] up to its wait: the tasks it waits for, by execution id *)
Definition cancel_begin (rs : list href) (s : Sched) : odict string task_ref * Sched :=
  let ids := list_to_set (omap (λ r, h_execution_id <$> hget (world s) r) rs) in
  let '(targets, s) := cancel_current ids (od_values (lanes s)) [] s in
  (targets, foldl (λ s r, cancel_queued_handle targets r s) s rs).

(** What it returns after the wait: the executions whose task is still pending. *)
Definition cancel_end (targets : odict string task_ref) (s : Sched) : list string :=
  od_keys (filter (λ kv, task_done s kv.2 = false) targets).

(** ** [close_session] and [close] *)

Definition close_key (sid : string) (ln : Lane) : string * Z := (sid, lane_generation ln).

(** The tasks among the processor and the running operation that are awaited. *)
Definition close_targets (caller : option task_ref) (ln : Lane) (s : Sched) : gset task_ref :=
  filter (λ t, task_done s t = false ∧ Some t ≠ caller)
    (list_to_set (option_list (processor ln) ++ option_list (current_task ln))).

(** [close_session] up to its wait: [None] when there is no such lane; otherwise
    the id of the current execution and the tasks it waits for. *)
Definition close_session_begin (caller : option task_ref) (sid : string) (gen : option Z)
    (s : Sched) : option (option string * (string * Z) * gset task_ref) * Sched :=
  match od_get (lanes s) sid with
  | None => (None, s)
  | Some l =>
      match lane_heap s !! l with
      | None => (None, s)
      | Some ln0 =>
          if match gen with Some g => negb (bool_decide (lane_generation ln0 = g)) | None => false end
          then (None, s)
          else
            let s := with_lanes (od_pop (lanes s) sid) s in
            let s := drain_queued l s in
            match lane_heap s !! l with
            | None => (None, s)
            | Some ln =>
                let current_id := work_id <$> current ln in
                let s := match processor ln with
                         | Some p => if task_done s p then s else cancel_processor l p s
                         | None => s
                         end in
                let targets := close_targets caller ln s in
                let key := close_key sid ln in
                (Some (current_id, key, targets),
                 if decide (targets = ∅) then s
                 else with_closing (od_set (closing_tasks s) key
                        (default ∅ (od_get (closing_tasks s) key) ∪ targets)) s)
            end
      end
  end.

(** [close_session] after its wait *)
Definition close_session_end (current_id : option string) (key : string * Z)
    (targets : gset task_ref) (s : Sched) : list string * Sched :=
  let pending := filter (λ t, task_done s t = false) targets in
  let s' := set_fold (λ t s, finish_closing key t s) s
              (filter (λ t, task_done s t = true) targets) in
  (if decide (pending = ∅) then [] else option_list current_id, s').

(** [close] up to its loop: the lanes it closes one after the other *)
Definition close_begin (s : Sched) : list (string * Z) * Sched :=
  (omap (λ kv, (λ ln, (kv.1, lane_generation ln)) <$> lane_heap s !! kv.2) (lanes s),
   with_closed true s).

(** The tasks [close] waits for after closing the lanes. *)
Definition close_collect (s : Sched) : gset task_ref :=
  filter (λ t, task_done s t = false) (⋃ od_values (closing_tasks s)).

(** What [close] does with the tasks of that wait which are done. *)
Definition close_end (waited : gset task_ref) (s : Sched) : Sched :=
  foldl (λ s kv, set_fold (λ t s, finish_closing kv.1 t s) s
                   (filter (λ t, task_done s t = true) (kv.2 ∩ waited)))
    s (closing_tasks s).

(** ** The scheduler as a transition system *)

(** A task the scheduler did not create. *)
Definition foreign (s : Sched) (t : task_ref) : Prop :=
  t < next_ref s ∧ op_tasks s !! t = None ∧
  ∀ l ln, lane_heap s !! l = Some ln → processor ln ≠ Some t.

(** Execution ids are not used twice while they wait. *)
Definition new_work (s : Sched) (i : HandleIdent) : Prop :=
  ∀ l ln, od_get (lanes s) (session_id i) = Some l → lane_heap s !! l = Some ln →
    od_get (queued ln) (execution_id i) = None.

Inductive sched_step : Sched → Sched → Prop :=
| step_submit s h i op ctx : new_work s i → sched_step s (submit h i op ctx s).2
| step_process s l s' : proc_run l s = Some s' → sched_step s s'
| step_complete s t c lq :
    op_tasks s !! t = Some lq → task_done s t = false →
    sched_step s (finish_task t (with_completions (<[t := c]> (completions s)) s))
| step_submitter_cancelled s f : sched_step s (settle f Cancelled s)
| step_cancel s rs : sched_step s (cancel_begin rs s).2
| step_close_session s caller sid gen : sched_step s (close_session_begin caller sid gen s).2
| step_close_session_end s cid key ts : sched_step s (close_session_end cid key ts s).2
| step_close s : sched_step s (close_begin s).2
| step_close_end s ts : sched_step s (close_end ts s)
| step_world s w :
    reg_step (world s) w →
    (∀ t, t ∈ done_tasks w → t ∈ done_tasks (world s) ∨ foreign s t) →
    sched_step s (with_world w s)
| step_alloc s : sched_step s (with_next_ref (S (next_ref s)) s).

Definition sched_steps : Sched → Sched → Prop := rtc sched_step.

(** [SessionWorkScheduler()] in the world [w] *)
Definition sched_init (w : World) (n : nat) : Sched :=
  mk_sched w ∅ ∅ [] [] false ∅ ∅ ∅ ∅ n.

(** ** Invariant *)

Definition latest (e : entry) : bool := latest_first (work_kind (qw_ident (e_work e))).

(** The order the scheduler promises: chat turns before messages, the newest
    chat turn first, messages in the order of submission. *)
Definition served_before (a b : entry) : Prop :=
  match latest a, latest b with
  | true, false => True
  | false, true => False
  | true, true => (e_sequence b < e_sequence a)%Z
  | false, false => (e_sequence a < e_sequence b)%Z
  end.

(** What [push_work] puts in a tuple. *)
Definition entry_ok (ln : Lane) (e : entry) : Prop :=
  (e_sequence e ≤ sequence ln)%Z ∧
  if latest e then e_group e = 0%Z ∧ (priority ln ≤ e_priority e)%Z
  else e_group e = 1%Z ∧ e_priority e = 0%Z.

(** Where the work of a future is: in a queue, or in a task created for it. *)
Definition place (s : Sched) (f : future_ref) (p : lane_ref * entry + task_ref) : Prop :=
  match p with
  | inl (l, e) => ∃ ln, lane_heap s !! l = Some ln ∧ e ∈ queue ln ∧ qw_result (e_work e) = f
  | inr t => ∃ l q, op_tasks s !! t = Some (l, q) ∧ qw_result q = f
  end.

Definition served (s : Sched) (f : future_ref) : Prop :=
  ∃ p, place s f p ∧
    match p with
    | inl _ => True
    | inr t => ∃ l q, proc_at s !! l = Some (AtTask q t) ∧ qw_result q = f
    end.

Definition point_ok (s : Sched) (l : lane_ref) (ln : Lane) : Prop :=
  match proc_at s !! l with
  | Some NotStarted | Some InLoop | Some Returned => current ln = None ∧ current_task ln = None
  | Some (AtTask q t) =>
      current ln = Some q ∧ current_task ln = Some t ∧ op_tasks s !! t = Some (l, q)
  | Some (AwaitCurrent _) | None => False
  end.

(** A lane; [x] is a lane that was just unregistered and not yet drained. *)
Record lane_inv (x : option lane_ref) (s : Sched) (l : lane_ref) (ln : Lane) : Prop := mk_lane_inv {
  li_sorted : StronglySorted served_before (queue ln);
  li_entry : Forall (entry_ok ln) (queue ln);
  li_ids : NoDup (map (λ e, work_id (e_work e)) (queue ln));
  li_queued : ∀ e, e ∈ queue ln → od_get (queued ln) (work_id (e_work e)) = Some (e_work e);
  li_point : point_ok s l ln;
  li_open : x ≠ Some l → od_get (lanes s) (lane_session_id ln) ≠ Some l → queue ln = [];
  li_unfinished : unfinished ln =
    (Z.of_nat (length (queue ln)) + match current ln with Some _ => 1 | None => 0 end)%Z;
}.

Record sched_inv (x : option lane_ref) (s : Sched) : Prop := mk_sched_inv {
  inv_fresh_lane : ∀ l ln, lane_heap s !! l = Some ln → l < next_ref s;
  inv_fresh_op : ∀ t lq, op_tasks s !! t = Some lq → t < next_ref s;
  inv_fresh_fut : ∀ f c, futures s !! f = Some c → f < next_ref s;
  inv_fresh_done : ∀ t, t ∈ done_tasks (world s) → t < next_ref s;
  inv_fresh_cancelling : ∀ t, t ∈ cancelling s → t < next_ref s;
  inv_proc : ∀ l ln, lane_heap s !! l = Some ln →
    ∃ p, processor ln = Some p ∧ p < next_ref s ∧ op_tasks s !! p = None;
  inv_proc_inj : ∀ l l' ln ln', lane_heap s !! l = Some ln → lane_heap s !! l' = Some ln' →
    processor ln = processor ln' → l = l';
  inv_lanes_wf : od_wf (lanes s);
  inv_lanes : ∀ sid l, od_get (lanes s) sid = Some l →
    ∃ ln, lane_heap s !! l = Some ln ∧ lane_session_id ln = sid ∧
      proc_cancel_pending s l = false ∧ proc_at s !! l ≠ Some Returned;
  inv_lane : ∀ l ln, lane_heap s !! l = Some ln → lane_inv x s l ln;
  inv_running : ∀ t l q, op_tasks s !! t = Some (l, q) → t ∉ done_tasks (world s) →
    proc_at s !! l = Some (AtTask q t);
  inv_completed : ∀ t lq, op_tasks s !! t = Some lq → t ∈ done_tasks (world s) →
    is_Some (completions s !! t);
  inv_pending : ∀ f, futures s !! f = Some None → served s f;
  inv_fut : ∀ f p, place s f p → is_Some (futures s !! f);
  inv_once : ∀ f p p', place s f p → place s f p' → p = p';
  inv_point : ∀ l p, proc_at s !! l = Some p → is_Some (lane_heap s !! l);
}.

(** ** The priority queue serves in the promised order *)

Lemma entry_lt_front ln e q :
  Forall (entry_ok ln) q → e_group e = 0%Z → (e_priority e < priority ln)%Z →
  enqueue e q = e :: q.
Proof.
  intros Hq Hg Hp. destruct q as [|x q]; [done|]. simpl.
  apply Forall_cons in Hq as [[_ Hx] _].
  assert (entry_lt e x = true) as ->; [|done]. unfold entry_lt.
  destruct (latest x); destruct Hx as [-> Hx]; rewrite Hg; [|done].
  rewrite Z.eqb_refl, Z.ltb_irrefl. simpl. apply orb_true_iff. left. lia.
Qed.

Lemma entry_lt_back ln e q :
  Forall (entry_ok ln) q → e_group e = 1%Z → e_priority e = 0%Z →
  (sequence ln < e_sequence e)%Z → enqueue e q = q ++ [e].
Proof.
  intros Hq Hg Hp Hs. induction q as [|x q IH]; [done|]. simpl.
  apply Forall_cons in Hq as [[Hx1 Hx2] Hq].
  assert (entry_lt e x = false) as ->; [|by rewrite IH]. unfold entry_lt.
  rewrite Hg, Hp. destruct (latest x); destruct Hx2 as [-> Hx2]; [done|].
  rewrite Hx2, !Z.eqb_refl, !Z.ltb_irrefl. simpl. lia.
Qed.

(** What [push_work] does to the queue of a lane. *)
Lemma push_work_queue ln q :
  Forall (entry_ok ln) (queue ln) → StronglySorted served_before (queue ln) →
  Forall (entry_ok (push_work q ln)) (queue (push_work q ln)) ∧
  StronglySorted served_before (queue (push_work q ln)) ∧
  ∃ e, e_work e = q ∧ queue (push_work q ln) ≡ₚ e :: queue ln.
Proof.
  intros He Hs. unfold push_work. simpl. destruct (latest_first _) eqn:Hk.
  - rewrite (entry_lt_front ln) by (simpl; auto with lia). split_and!.
    + constructor.
      * unfold entry_ok, latest. simpl. rewrite Hk. lia.
      * eapply Forall_impl; [exact He|]. intros x [? Hx]. split; [simpl; lia|]. simpl.
        destruct (latest x); lia.
    + constructor; [done|]. eapply Forall_impl; [exact He|]. intros x [Hx _].
      unfold served_before. change (latest (mk_entry _ _ _ q)) with (latest_first (work_kind (qw_ident q))).
      rewrite Hk. destruct (latest x); [simpl; lia|done].
    + by eexists (mk_entry 0 _ _ q).
  - rewrite (entry_lt_back ln) by (simpl; auto with lia). split_and!.
    + apply Forall_app. split.
      * eapply Forall_impl; [exact He|]. intros x [? Hx]. split; [simpl; lia|done].
      * constructor; [|done]. unfold entry_ok, latest. simpl. rewrite Hk. lia.
    + apply StronglySorted_snoc; [done|]. eapply Forall_impl; [exact He|]. intros x [Hx _].
      unfold served_before. change (latest (mk_entry _ _ _ q)) with (latest_first (work_kind (qw_ident q))).
      rewrite Hk. destruct (latest x); [done|simpl; lia].
    + eexists (mk_entry 1 _ _ q). split; [done|]. symmetry. apply Permutation_cons_append.
Qed.

(** ** The invariant is preserved

    First the small state changes the segments are made of. *)

Lemma settle_futures f c s g :
  futures (settle f c s) !! g =
    if decide (f = g) then match futures s !! g with Some None => Some (Some c) | r => r end
    else futures s !! g.
Proof.
  unfold settle, future_done. destruct (futures s !! f) as [[?|]|] eqn:Hf; simpl;
    case_decide; subst; rewrite ?Hf; simplify_map_eq; done.
Qed.

Lemma settle_frame f c s :
  world (settle f c s) = world s ∧ lane_heap (settle f c s) = lane_heap s ∧
  proc_at (settle f c s) = proc_at s ∧ lanes (settle f c s) = lanes s ∧
  closing_tasks (settle f c s) = closing_tasks s ∧ closed (settle f c s) = closed s ∧
  op_tasks (settle f c s) = op_tasks s ∧ completions (settle f c s) = completions s ∧
  cancelling (settle f c s) = cancelling s ∧ next_ref (settle f c s) = next_ref s.
Proof. unfold settle. by case_match. Qed.

Lemma settle_op_tasks f c s : op_tasks (settle f c s) = op_tasks s.
Proof. unfold settle. by case_match. Qed.

Lemma settle_done f c s : future_done (settle f c s) f = true.
Proof.
  unfold future_done. rewrite settle_futures, decide_True by done.
  by destruct (futures s !! f) as [[]|].
Qed.

Lemma inv_settle x f c s : sched_inv x s → sched_inv x (settle f c s).
Proof.
  intros Hs. unfold settle. case_match eqn:Hf; [done|]. unfold future_done in Hf.
  destruct (futures s !! f) as [[?|]|] eqn:Hff; try done.
  destruct Hs. split; simpl; try done.
  - intros g c'. rewrite lookup_insert. case_decide; [subst|]; eauto.
  - intros l ln Hl. by destruct (inv_lane0 l ln Hl).
  - intros g. rewrite lookup_insert. case_decide; [done|]. apply inv_pending0.
  - intros g p Hp. rewrite lookup_insert. case_decide; [done|]. by apply (inv_fut0 g p).
Qed.

Lemma inv_finish_task x (t : task_ref) s :
  t < next_ref s → (∀ lq, op_tasks s !! t = Some lq → is_Some (completions s !! t)) →
  sched_inv x s → sched_inv x (finish_task t s).
Proof.
  intros Ht Hc []. split; simpl; try done.
  - set_solver.
  - intros l ln Hl. by destruct (inv_lane0 l ln Hl).
  - set_solver.
  - intros t' lq Ho. rewrite elem_of_union, elem_of_singleton. intros [->|?]; eauto.
Qed.

Lemma inv_with_next x s n : next_ref s ≤ n → sched_inv x s → sched_inv x (with_next_ref n s).
Proof.
  intros Hn []. split; simpl; try done.
  - intros l ln Hl. apply inv_fresh_lane0 in Hl. lia.
  - intros t lq Hl. apply inv_fresh_op0 in Hl. lia.
  - intros t lq Hl. apply inv_fresh_fut0 in Hl. lia.
  - intros t Hl. apply inv_fresh_done0 in Hl. lia.
  - intros t Hl. apply inv_fresh_cancelling0 in Hl. lia.
  - intros l ln Hl. destruct (inv_proc0 l ln Hl) as (p & ? & ? & ?).
    exists p. split_and!; [done|lia|done].
  - intros l ln Hl. by destruct (inv_lane0 l ln Hl).
Qed.

(** Requests to cancel a task that is no processor of a registered lane. *)
Lemma inv_with_cancelling x s c :
  (∀ t, t ∈ c → t ∈ cancelling s ∨ t < next_ref s ∧
     ∀ sid l ln, od_get (lanes s) sid = Some l → lane_heap s !! l = Some ln →
       processor ln ≠ Some t) →
  sched_inv x s → sched_inv x (with_cancelling c s).
Proof.
  intros Hc []. split; simpl; try done.
  - intros t [?|[? _]]%Hc; eauto.
  - intros sid l Hl. destruct (inv_lanes0 sid l Hl) as (ln & H1 & H2 & H3 & H4).
    exists ln. split_and!; try done. unfold proc_cancel_pending in *. simpl. rewrite H1 in *.
    destruct (processor ln) as [p|] eqn:Hp; [|done].
    apply bool_decide_eq_false. apply bool_decide_eq_false in H3.
    intros [?|[_ Hne]]%Hc; [done|]. by apply (Hne sid l ln Hl H1).
  - intros l ln Hl. by destruct (inv_lane0 l ln Hl).
Qed.

Lemma inv_cancel_op x s t lq :
  op_tasks s !! t = Some lq → sched_inv x s → sched_inv x (cancel_task t s).
Proof.
  intros Ho Hs. unfold cancel_task. case_match; [done|].
  apply inv_with_cancelling; [|done]. intros t'.
  rewrite elem_of_union, elem_of_singleton. intros [->|?]; [right|by left].
  split; [by eapply inv_fresh_op|]. intros sid l ln _ Hl Hp.
  destruct (inv_proc _ _ Hs l ln Hl) as (p & ? & ? & ?). congruence.
Qed.

Lemma inv_closing x s c : sched_inv x s → sched_inv x (with_closing c s).
Proof. intros []. split; simpl; try done. intros l ln Hl. by destruct (inv_lane0 l ln Hl). Qed.

Lemma inv_closed x s b : sched_inv x s → sched_inv x (with_closed b s).
Proof. intros []. split; simpl; try done. intros l ln Hl. by destruct (inv_lane0 l ln Hl). Qed.

Lemma inv_world x s w :
  (∀ t : task_ref, t ∈ done_tasks w → t ∈ done_tasks (world s) ∨ t < next_ref s ∧ op_tasks s !! t = None) →
  done_tasks (world s) ⊆ done_tasks w →
  sched_inv x s → sched_inv x (with_world w s).
Proof.
  intros Hd Hsub []. split; simpl; try done.
  - intros t [?|[? _]]%Hd; eauto.
  - intros l ln Hl. by destruct (inv_lane0 l ln Hl).
  - intros t l q Ho Ht. apply inv_running0; [done|]. set_solver.
  - intros t lq Ho [?|[_ ?]]%Hd; [by eauto|congruence].
Qed.

Lemma inv_finish_closing x key t s : sched_inv x s → sched_inv x (finish_closing key t s).
Proof. intros Hs. unfold finish_closing. case_match; [by apply inv_closing|done]. Qed.

Lemma upd_lane_insert l g s ln :
  lane_heap s !! l = Some ln →
  upd_lane l g s = with_lane_heap (<[l := g ln]> (lane_heap s)) s.
Proof.
  intros Hl. unfold upd_lane. f_equal. apply map_eq. intros l'.
  rewrite lookup_alter, lookup_insert. case_decide; [subst|done]. by rewrite Hl.
Qed.

Lemma upd_lane_compose l f g s : upd_lane l f (upd_lane l g s) = upd_lane l (f ∘ g) s.
Proof. unfold upd_lane, with_lane_heap. simpl. f_equal. apply map_eq. intros l'.
  destruct (decide (l = l')) as [<-|Hne].
  - rewrite !lookup_alter_eq. by destruct (lane_heap s !! l).
  - by rewrite !lookup_alter_ne by done.
Qed.

Lemma upd_lane_settle l f g c s : upd_lane l g (settle f c s) = settle f c (upd_lane l g s).
Proof. unfold settle, future_done. simpl. by case_match. Qed.

(** The processor of one lane changes its lane and its point. *)
Definition set_lane_point (l : lane_ref) (ln : Lane) (p : proc_point) (s : Sched) : Sched :=
  set_point l p (with_lane_heap (<[l := ln]> (lane_heap s)) s).

Lemma inv_set_lane_point x s l ln ln' p0 p :
  sched_inv x s → lane_heap s !! l = Some ln → proc_at s !! l = Some p0 →
  lane_session_id ln' = lane_session_id ln → processor ln' = processor ln →
  lane_inv x (set_lane_point l ln' p s) l ln' →
  (∀ e, e ∈ queue ln' → e ∈ queue ln) →
  (∀ e, e ∈ queue ln → e ∈ queue ln' ∨ future_done s (qw_result (e_work e)) = true) →
  (p = Returned → ∀ sid, od_get (lanes s) sid ≠ Some l) →
  (∀ t q, op_tasks s !! t = Some (l, q) → t ∉ done_tasks (world s) → p = AtTask q t) →
  (∀ t q, p0 = AtTask q t → p = p0 ∨ future_done s (qw_result q) = true) →
  sched_inv x (set_lane_point l ln' p s).
Proof.
  intros [] Hl Hp0 Hsid Hproc Hln' Hsub Hkept Hret Hrun Hpend.
  assert (∀ f pl, place (set_lane_point l ln' p s) f pl → place s f pl) as Hplace.
  { intros f [[l' e]|t]; [|done]. intros (ln1 & Hl1 & He & Hf). simpl in Hl1.
    rewrite lookup_insert in Hl1. case_decide as Hd; [|by exists ln1].
    injection Hl1 as <-. subst l'. exists ln. split_and!; [done|by apply Hsub|done]. }
  split; simpl; try done.
  - intros l' ln1. rewrite lookup_insert. case_decide; [subst|]; eauto.
  - intros l' ln1. rewrite lookup_insert. case_decide; [|by apply inv_proc0].
    intros [= <-]. rewrite Hproc. by apply inv_proc0 with l.
  - intros l1 l2 ln1 ln2. rewrite !lookup_insert. repeat case_decide; subst;
      intros ? ? ?; simplify_eq; try done.
    + apply (inv_proc_inj0 l1 l2 ln ln2); [done..|congruence].
    + apply (inv_proc_inj0 l1 l2 ln1 ln); [done..|congruence].
    + by apply (inv_proc_inj0 l1 l2 ln1 ln2).
  - intros sid l' Hs. destruct (inv_lanes0 sid l' Hs) as (ln1 & H1 & H2 & H3 & H4).
    unfold proc_cancel_pending in *. simpl. rewrite !lookup_insert. case_decide as Hd.
    + subst l'. assert (ln1 = ln) as -> by congruence. rewrite Hl in H3. exists ln'.
      rewrite Hproc, Hsid. split_and!; try done.
      intros [= ->]. by apply (Hret eq_refl sid).
    + exists ln1. by rewrite H1 in *.
  - intros l' ln1. rewrite lookup_insert. case_decide as Hd; [intros [= <-]; by subst|].
    intros Hl1. destruct (inv_lane0 l' ln1 Hl1). split; try done.
    unfold point_ok in *. simpl. by rewrite lookup_insert_ne.
  - intros t l' q Ho Ht. rewrite lookup_insert. case_decide; [subst; f_equal|]; eauto.
  - intros f Hf. destruct (inv_pending0 f Hf) as ([[l' e]|t] & Hp & Hs).
    + destruct Hp as (ln1 & Hl1 & He & Hr). destruct (decide (l' = l)) as [->|Hne].
      * simplify_eq. destruct (Hkept e He) as [He'|Hd].
        -- exists (inl (l, e)). split; [|done]. exists ln'. simpl. by simplify_map_eq.
        -- unfold future_done in Hd. by rewrite Hf in Hd.
      * exists (inl (l', e)). split; [|done]. exists ln1. simpl. by rewrite lookup_insert_ne.
    + exists (inr t). split; [done|]. destruct Hs as (l' & q & Hs & Hq). exists l', q. simpl.
      rewrite lookup_insert. case_decide as Hd; [|done]. subst l'. rewrite Hs in Hp0.
      injection Hp0 as <-. destruct (Hpend t q eq_refl) as [->|Hd]; [done|].
      unfold future_done in Hd. by rewrite Hq, Hf in Hd.
  - intros f pl Hpl. by apply (inv_fut0 f pl), Hplace.
  - intros f p1 p2 H1 H2. apply (inv_once0 f); by apply Hplace.
  - intros l' p'. rewrite !lookup_insert. case_decide; [done|]. apply inv_point0.
Qed.

Lemma set_lane_point_id s l ln p :
  proc_at s !! l = Some p → set_lane_point l ln p s = with_lane_heap (<[l := ln]> (lane_heap s)) s.
Proof.
  intros Hp. unfold set_lane_point, set_point. simpl. by rewrite (insert_id (proc_at s) l p).
Qed.

(** An entry whose future is settled leaves the queue. *)
Definition drop_first (e : entry) (q' : list entry) (ln : Lane) : Lane :=
  queue_task_done (take_entry e q' ln).

Lemma lane_inv_drop x s s' l ln e q' :
  queue ln = e :: q' → lane_inv x s l ln →
  point_ok s' l (drop_first e q' ln) → lanes s' = lanes s →
  lane_inv x s' l (drop_first e q' ln).
Proof.
  intros Hq [] Hp Hls. rewrite Hq in *. simpl in *. split; simpl; try done.
  - by inversion li_sorted0.
  - by apply Forall_cons in li_entry0 as [_ ?].
  - by inversion li_ids0.
  - intros e' He'. rewrite od_get_pop_ne; [apply li_queued0; by right|].
    apply NoDup_cons in li_ids0 as [Hni _]. intros Heq. apply Hni.
    rewrite Heq. apply list_elem_of_fmap. by exists e'.
  - rewrite Hls. intros H1 H2. by specialize (li_open0 H1 H2).
  - rewrite li_unfinished0. destruct (current ln); lia.
Qed.

Lemma inv_drop x s l ln e q' :
  sched_inv x s → lane_heap s !! l = Some ln → queue ln = e :: q' →
  future_done s (qw_result (e_work e)) = true →
  sched_inv x (upd_lane l (drop_first e q') s).
Proof.
  intros Hs Hl Hq Hd. rewrite (upd_lane_insert l _ s ln) by done.
  pose proof (inv_lane _ _ Hs l ln Hl) as Hln. pose proof (li_point _ _ _ _ Hln) as Hpt.
  unfold point_ok in Hpt. destruct (proc_at s !! l) as [p|] eqn:Hp; [|done].
  rewrite <-(set_lane_point_id s l _ p Hp).
  eapply inv_set_lane_point; [done|exact Hl|exact Hp|done..| | | | | |by left].
  - apply (lane_inv_drop x s); try done. unfold point_ok. simpl. by rewrite lookup_insert_eq.
  - intros e'. simpl. rewrite Hq. by right.
  - intros e'. simpl. rewrite Hq, elem_of_cons. intros [->|?]; [by right|by left].
  - intros -> sid Hr. by destruct (inv_lanes _ _ Hs sid l Hr) as (? & _ & _ & _ & ?).
  - intros t q Ho Ht. pose proof (inv_running _ _ Hs t l q Ho Ht). congruence.
Qed.

(** Draining settles every queued work and touches nothing but the queue. *)
Record drained (l : lane_ref) (s s' : Sched) : Prop := mk_drained {
  dr_world : world s' = world s;
  dr_point : proc_at s' = proc_at s;
  dr_lanes : lanes s' = lanes s;
  dr_op : op_tasks s' = op_tasks s;
  dr_completions : completions s' = completions s;
  dr_cancelling : cancelling s' = cancelling s;
  dr_closing : closing_tasks s' = closing_tasks s;
  dr_closed : closed s' = closed s;
  dr_next : next_ref s' = next_ref s;
  dr_other : ∀ l', l' ≠ l → lane_heap s' !! l' = lane_heap s !! l';
  dr_lane : ∀ ln, lane_heap s !! l = Some ln → ∃ ln',
    lane_heap s' !! l = Some ln' ∧ queue ln' = [] ∧ lane_session_id ln' = lane_session_id ln ∧
    lane_generation ln' = lane_generation ln ∧ processor ln' = processor ln ∧
    current ln' = current ln ∧ current_task ln' = current_task ln ∧
    ∀ e, e ∈ queue ln → future_done s' (qw_result (e_work e)) = true;
  dr_settled : ∀ f, future_done s f = true → future_done s' f = true;
}.

Lemma drain_step e q' l s :
  upd_lane l queue_task_done (settle (qw_result (e_work e)) Cancelled
    (upd_lane l (take_entry e q') s)) =
  upd_lane l (drop_first e q') (settle (qw_result (e_work e)) Cancelled s).
Proof. by rewrite <-upd_lane_settle, upd_lane_compose. Qed.

Lemma settle_mono f c s g : future_done s g = true → future_done (settle f c s) g = true.
Proof.
  unfold future_done. rewrite settle_futures. case_decide; [|done].
  by destruct (futures s !! g) as [[]|].
Qed.

Lemma drain_entries_drained q l s ln :
  lane_heap s !! l = Some ln → queue ln = q → drained l s (drain_entries q l s).
Proof.
  revert s ln. induction q as [|e q IH]; intros s ln Hl Hq; cbn [drain_entries].
  - split; try done. intros ln' Hl'. assert (ln' = ln) as -> by congruence.
    exists ln. split_and!; try done. rewrite Hq. set_solver.
  - rewrite drain_step. set (f := qw_result (e_work e)).
    pose proof (settle_frame f Cancelled s) as (F1 & F2 & F3 & F4 & F5 & F6 & F7 & F8 & F9 & F10).
    assert (lane_heap (upd_lane l (drop_first e q) (settle f Cancelled s)) !! l =
      Some (drop_first e q ln)) as Hl'.
    { simpl. by rewrite F2, lookup_alter_eq, Hl. }
    destruct (IH _ _ Hl' eq_refl). simpl in *. rewrite F2 in *.
    split; try congruence.
    + intros l' Hne. by rewrite dr_other0, lookup_alter_ne.
    + intros ln1 Hl1. assert (ln1 = ln) as -> by congruence.
      destruct (dr_lane0 _ Hl') as (ln2 & ? & ? & ? & ? & ? & ? & ? & Hd). exists ln2.
      split_and!; try done. rewrite Hq. intros e'. rewrite elem_of_cons. intros [->|He'].
      * apply dr_settled0. apply settle_done.
      * by apply Hd.
    + intros g Hg. by apply dr_settled0, settle_mono.
Qed.

Lemma drain_queued_drained l s : is_Some (lane_heap s !! l) → drained l s (drain_queued l s).
Proof.
  intros [ln Hl]. unfold drain_queued. rewrite Hl. by eapply drain_entries_drained.
Qed.

Lemma inv_drain_entries x q l s ln :
  sched_inv x s → lane_heap s !! l = Some ln → queue ln = q →
  sched_inv x (drain_entries q l s).
Proof.
  revert s ln. induction q as [|e q IH]; intros s ln Hs Hl Hq; cbn [drain_entries]; [done|].
  rewrite drain_step. set (f := qw_result (e_work e)).
  pose proof (settle_frame f Cancelled s) as (F1 & F2 & _).
  apply (IH _ (drop_first e q ln)); [|simpl; by rewrite F2, lookup_alter_eq, Hl|done].
  apply (inv_drop x _ l ln); [by apply inv_settle|by rewrite F2|done|apply settle_done].
Qed.

Lemma inv_drain_queued x l s : sched_inv x s → sched_inv x (drain_queued l s).
Proof.
  intros Hs. unfold drain_queued. destruct (lane_heap s !! l) as [ln|] eqn:Hl; [|done].
  by eapply inv_drain_entries.
Qed.

(** Once it is empty, the lane that was taken out needs no exception. *)
Lemma inv_empty l s :
  sched_inv (Some l) s → (∀ ln, lane_heap s !! l = Some ln → queue ln = []) → sched_inv None s.
Proof.
  intros [] Hq. split; try done. intros l' ln Hl. pose proof (inv_lane0 l' ln Hl) as [].
  split; try done. intros _ Hr. destruct (decide (l' = l)) as [->|Hne]; [by apply Hq|].
  apply li_open0; congruence.
Qed.

Lemma inv_unregister s sid l :
  sched_inv None s → od_get (lanes s) sid = Some l →
  sched_inv (Some l) (with_lanes (od_pop (lanes s) sid) s).
Proof.
  intros [] Hl. split; simpl; try done.
  - by apply od_wf_pop.
  - intros sid' l'. rewrite od_get_pop. case_decide; [done|]. apply inv_lanes0.
  - intros l' ln Hl'. pose proof (inv_lane0 l' ln Hl') as []. split; try done. simpl.
    intros Hne Hr. apply li_open0; [done|]. intros Hg. apply Hr. rewrite od_get_pop_ne; [done|].
    intros ->. congruence.
Qed.

Lemma inv_unregister_drain s sid l :
  sched_inv None s → od_get (lanes s) sid = Some l →
  sched_inv None (drain_queued l (with_lanes (od_pop (lanes s) sid) s)).
Proof.
  intros Hs Hl. apply (inv_empty l).
  - by apply inv_drain_queued, inv_unregister.
  - intros ln Hln. destruct (inv_lanes _ _ Hs sid l Hl) as (ln0 & Hl0 & _).
    assert (is_Some (lane_heap (with_lanes (od_pop (lanes s) sid) s) !! l)) as Hi by by exists ln0.
    destruct (dr_lane _ _ _ (drain_queued_drained l _ Hi) ln0 Hl0) as (ln1 & H1 & H2 & _).
    congruence.
Qed.

(** The processor between two operations. *)
Definition idle (s : Sched) (l : lane_ref) : Prop :=
  proc_at s !! l = Some NotStarted ∨ proc_at s !! l = Some InLoop.

Lemma idle_lane s l ln :
  sched_inv None s → idle s l → lane_heap s !! l = Some ln →
  current ln = None ∧ current_task ln = None.
Proof.
  intros Hs Hi Hl. pose proof (li_point _ _ _ _ (inv_lane _ _ Hs l ln Hl)) as Hp.
  unfold point_ok in Hp. by destruct Hi as [Hi|Hi]; rewrite Hi in Hp.
Qed.

Lemma idle_no_task s l t q :
  sched_inv None s → idle s l → op_tasks s !! t = Some (l, q) → t ∈ done_tasks (world s).
Proof.
  intros Hs Hi Ho. destruct (decide (t ∈ done_tasks (world s))) as [|Hn]; [done|].
  pose proof (inv_running _ _ Hs t l q Ho Hn). destruct Hi; congruence.
Qed.

Lemma set_point_lane l ln p s :
  lane_heap s !! l = Some ln → set_point l p s = set_lane_point l ln p s.
Proof.
  intros Hl. unfold set_lane_point, set_point, with_lane_heap. simpl.
  by rewrite (insert_id (lane_heap s) l ln).
Qed.

Lemma point_ok_idle s l ln p :
  p = NotStarted ∨ p = InLoop ∨ p = Returned → proc_at s !! l = Some p →
  current ln = None → current_task ln = None → point_ok s l ln.
Proof. intros Hp Hpt Hc Ht. unfold point_ok. rewrite Hpt. by destruct Hp as [->|[->| ->]]. Qed.

Lemma inv_set_idle s l p :
  sched_inv None s → idle s l → is_Some (lane_heap s !! l) →
  p = InLoop ∨ p = Returned ∧ (∀ sid, od_get (lanes s) sid ≠ Some l) →
  sched_inv None (set_point l p s).
Proof.
  intros Hs Hi [ln Hl] Hp. rewrite (set_point_lane l ln) by done.
  destruct (idle_lane s l ln) as [Hc Hct]; [done..|].
  assert (∃ p0, proc_at s !! l = Some p0 ∧ ∀ q t, p0 ≠ AtTask q t) as (p0 & Hp0 & Hnt).
  { destruct Hi; eexists; by split. }
  eapply inv_set_lane_point; [done|exact Hl|exact Hp0|done..| |done|by left| | |].
  - pose proof (inv_lane _ _ Hs l ln Hl) as []. split; try done.
    eapply point_ok_idle; [|by apply lookup_insert_eq|done..]. naive_solver.
  - intros ->. by destruct Hp as [|[_ ?]].
  - intros t q Ho Ht. by destruct Ht; eapply idle_no_task.
  - intros t q ->. by destruct (Hnt q t).
Qed.

Lemma drain_queued_nil l s ln : lane_heap s !! l = Some ln → queue ln = [] → drain_queued l s = s.
Proof. intros Hl Hq. unfold drain_queued. by rewrite Hl, Hq. Qed.

(** The lane [proc_finally] takes out, drained. *)
Lemma inv_leave s l ln :
  sched_inv None s → idle s l → lane_heap s !! l = Some ln →
  let s1 := drain_queued l (if is_registered s (lane_session_id ln) l
                            then with_lanes (od_pop (lanes s) (lane_session_id ln)) s else s) in
  sched_inv None s1 ∧ idle s1 l ∧ (∀ sid, od_get (lanes s1) sid ≠ Some l) ∧
  ∃ ln1, lane_heap s1 !! l = Some ln1 ∧ processor ln1 = processor ln.
Proof.
  intros Hs Hi Hl. unfold is_registered. case_bool_decide as Hr; simpl.
  - set (s0 := with_lanes _ s).
    assert (is_Some (lane_heap s0 !! l)) as Hl0 by by exists ln.
    pose proof (drain_queued_drained l s0 Hl0) as Hd. split_and!.
    + by apply inv_unregister_drain.
    + unfold idle in *. by rewrite (dr_point _ _ _ Hd).
    + intros sid. rewrite (dr_lanes _ _ _ Hd). subst s0. simpl. rewrite od_get_pop.
      case_decide; [done|]. intros Hg.
      destruct (inv_lanes _ _ Hs sid l Hg) as (ln' & ? & ? & _). congruence.
    + destruct (dr_lane _ _ _ Hd ln Hl) as (ln1 & ? & _ & _ & _ & ? & _). by exists ln1.
  - assert (queue ln = []) as Hq by (by eapply li_open; [by eapply inv_lane|..]).
    rewrite (drain_queued_nil l s ln) by done. split_and!; [done..| |by exists ln].
    intros sid Hg. destruct (inv_lanes _ _ Hs sid l Hg) as (ln' & ? & ? & _). congruence.
Qed.

Lemma inv_proc_finally s l :
  sched_inv None s → idle s l → sched_inv None (proc_finally l s).
Proof.
  intros Hs Hi. unfold proc_finally. destruct (lane_heap s !! l) as [ln|] eqn:Hl; [|done].
  destruct (inv_leave s l ln Hs Hi Hl) as (Hs1 & Hi1 & Hr1 & ln1 & Hl1 & Hp1).
  set (s1 := drain_queued l _) in *.
  assert (sched_inv None (set_point l Returned s1)) as Hs2.
  { apply inv_set_idle; [done|done|by exists ln1|by right]. }
  destruct (processor ln) as [p|] eqn:Hp; [|done].
  destruct (inv_proc _ _ Hs1 l ln1 Hl1) as (p' & Hp' & Hlt & Hop).
  assert (p' = p) as -> by congruence.
  assert (∀ key t s, op_tasks (finish_closing key t s) = op_tasks s ∧
    next_ref (finish_closing key t s) = next_ref s) as Hfc.
  { intros key t s'. unfold finish_closing. by case_match. }
  apply inv_finish_task.
  - destruct (Hfc (lane_session_id ln, lane_generation ln) p (set_point l Returned s1)) as [_ ->].
    done.
  - destruct (Hfc (lane_session_id ln, lane_generation ln) p (set_point l Returned s1)) as [-> _].
    simpl. intros lq. by rewrite Hop.
  - by apply inv_finish_closing.
Qed.

Lemma inv_proc_never_ran s l :
  sched_inv None s → idle s l → (∀ sid, od_get (lanes s) sid ≠ Some l) →
  sched_inv None (proc_never_ran l s).
Proof.
  intros Hs Hi Hr. unfold proc_never_ran. destruct (lane_heap s !! l) as [ln|] eqn:Hl; [|done].
  assert (sched_inv None (set_point l Returned s)) as Hs2.
  { apply inv_set_idle; [done|done|by exists ln|by right]. }
  destruct (processor ln) as [p|] eqn:Hp; [|done].
  destruct (inv_proc _ _ Hs l ln Hl) as (p' & Hp' & Hlt & Hop).
  assert (p' = p) as -> by congruence.
  apply inv_finish_task; [done| |done]. simpl. intros lq. by rewrite Hop.
Qed.

(** The state in which the first entry's operation has been started. *)
Definition started (l : lane_ref) (ln : Lane) (e : entry) (q' : list entry) (s : Sched) : Sched :=
  let t := next_ref s in
  mk_sched (hupd (qw_handle (e_work e)) (set_task (Some t)) (world s))
    (<[l := set_current_task (Some t) (set_current (Some (e_work e)) (take_entry e q' ln))]>
       (lane_heap s))
    (<[l := AtTask (e_work e) t]> (proc_at s)) (lanes s) (closing_tasks s) (closed s) (futures s)
    (<[t := (l, e_work e)]> (op_tasks s)) (completions s) (cancelling s) (S t).

Lemma started_eq l ln e q' s :
  lane_heap s !! l = Some ln →
  start_operation l (e_work e)
    (upd_lane l (λ ln, set_current (Some (e_work e)) (take_entry e q' ln)) s) =
  started l ln e q' s.
Proof.
  intros Hl. unfold start_operation, started. rewrite (upd_lane_insert l _ s ln) by done.
  unfold upd_lane, set_point, with_world, with_lane_heap, with_op_tasks, with_next_ref. simpl.
  f_equal. apply map_eq. intros l'. destruct (decide (l = l')) as [<-|Hne].
  - by rewrite lookup_alter_eq, !lookup_insert_eq.
  - by rewrite lookup_alter_ne, !lookup_insert_ne.
Qed.

Lemma lane_inv_started s l ln e q' :
  sched_inv None s → idle s l → lane_heap s !! l = Some ln → queue ln = e :: q' →
  lane_inv None (started l ln e q' s) l
    (set_current_task (Some (next_ref s)) (set_current (Some (e_work e)) (take_entry e q' ln))).
Proof.
  intros Hs Hi Hl Hq. destruct (idle_lane s l ln) as [Hc _]; [done..|].
  destruct (inv_lane _ _ Hs l ln Hl). rewrite Hq in *. simpl in *. split; simpl; try done.
  - by inversion li_sorted0.
  - by apply Forall_cons in li_entry0 as [_ ?].
  - by inversion li_ids0.
  - intros e' He'. rewrite od_get_pop_ne; [apply li_queued0; by right|].
    apply NoDup_cons in li_ids0 as [Hni _]. intros Heq. apply Hni.
    rewrite Heq. apply list_elem_of_fmap. by exists e'.
  - unfold point_ok. simpl. by rewrite !lookup_insert_eq.
  - intros H1 H2. by specialize (li_open0 H1 H2).
  - rewrite li_unfinished0, Hc. lia.
Qed.

Lemma place_started s l ln e q' f pl :
  sched_inv None s → lane_heap s !! l = Some ln → queue ln = e :: q' →
  place (started l ln e q' s) f pl →
  place s f pl ∧ pl ≠ inl (l, e) ∧ pl ≠ inr (next_ref s) ∨
  pl = inr (next_ref s) ∧ f = qw_result (e_work e).
Proof.
  intros Hs Hl Hq. pose proof (li_ids _ _ _ _ (inv_lane _ _ Hs l ln Hl)) as Hnd.
  rewrite Hq in Hnd. apply NoDup_cons in Hnd as [Hni _]. destruct pl as [[l' e']|t].
  - intros (ln1 & Hl1 & He & Hf). left. simpl in Hl1. rewrite lookup_insert in Hl1.
    case_decide as Hd; [injection Hl1 as <-; subst l'; simpl in He|].
    + split_and!; [|intros [= ->]|done].
      * exists ln. rewrite Hq. split_and!; [done|by right|done].
      * apply Hni. apply list_elem_of_fmap. by exists e.
    + split_and!; [by exists ln1|congruence|done].
  - intros (l' & q & Ho & Hf). simpl in Ho. rewrite lookup_insert in Ho.
    case_decide as Hd; [subst t; injection Ho as <- <-; by right|left].
    split_and!; [by exists l', q|done|congruence].
Qed.

Lemma inv_started s l ln e q' :
  sched_inv None s → idle s l → lane_heap s !! l = Some ln → queue ln = e :: q' →
  sched_inv None (started l ln e q' s).
Proof.
  intros Hs Hi Hl Hq. pose proof (lane_inv_started s l ln e q' Hs Hi Hl Hq) as Hln.
  pose proof (λ f pl, place_started s l ln e q' f pl Hs Hl Hq) as Hpl.
  pose proof (idle_no_task s l) as Hnt.
  assert (is_Some (futures s !! qw_result (e_work e))) as Hfe.
  { apply (inv_fut _ _ Hs _ (inl (l, e))). exists ln. rewrite Hq. split_and!; [done|by left|done]. }
  assert (op_tasks s !! next_ref s = None) as Hfresh.
  { destruct (op_tasks s !! next_ref s) as [lq|] eqn:Ho; [|done].
    apply (inv_fresh_op _ _ Hs) in Ho. lia. }
  pose proof Hs as []. split; simpl; try done.
  - intros l' ln1. rewrite lookup_insert. case_decide; intros ?; simplify_eq.
    + apply inv_fresh_lane0 in Hl. lia.
    + eapply Nat.lt_lt_succ_r. by eapply inv_fresh_lane0.
  - intros t lq. rewrite lookup_insert. case_decide; intros ?; [lia|].
    eapply Nat.lt_lt_succ_r. by eapply inv_fresh_op0.
  - intros f c Hf. eapply Nat.lt_lt_succ_r. by eapply inv_fresh_fut0.
  - intros t Ht. apply inv_fresh_done0 in Ht. lia.
  - intros t Ht. apply inv_fresh_cancelling0 in Ht. lia.
  - assert (∀ l' ln1, lane_heap s !! l' = Some ln1 → ∃ p, processor ln1 = Some p ∧
      p < S (next_ref s) ∧ <[next_ref s:=(l, e_work e)]> (op_tasks s) !! p = None) as Hp.
    { intros l' ln1 Hl1. destruct (inv_proc0 l' ln1 Hl1) as (p & ? & ? & ?).
      exists p. rewrite lookup_insert_ne by lia. split_and!; [done|lia|done]. }
    intros l' ln1. rewrite lookup_insert. case_decide; [|by apply Hp].
    intros [= <-]. by apply (Hp l ln).
  - intros l1 l2 ln1 ln2. rewrite !lookup_insert. repeat case_decide; subst;
      intros ? ? ?; simplify_eq; try done.
    + by apply (inv_proc_inj0 l1 l2 ln ln2).
    + by apply (inv_proc_inj0 l1 l2 ln1 ln).
    + by apply (inv_proc_inj0 l1 l2 ln1 ln2).
  - intros sid l' Hr. destruct (inv_lanes0 sid l' Hr) as (ln1 & H1 & H2 & H3 & H4).
    unfold proc_cancel_pending in *. simpl. rewrite !lookup_insert. case_decide as Hd.
    + subst l'. assert (ln1 = ln) as -> by congruence. rewrite Hl in H3. by eexists.
    + exists ln1. by rewrite H1 in *.
  - intros l' ln1. rewrite lookup_insert. case_decide as Hd; [intros [= <-]; by subst|].
    intros Hl1. destruct (inv_lane0 l' ln1 Hl1). split; try done.
    unfold point_ok in *. simpl. rewrite lookup_insert_ne by done.
    destruct (proc_at s !! l') as [[]|]; try done. destruct li_point0 as (? & ? & Ho).
    rewrite lookup_insert_ne; [done|]. intros Heq. subst t. congruence.
  - intros t l' q. rewrite lookup_insert. case_decide as Hd.
    + intros [= <- <-]. subst t. by rewrite lookup_insert_eq.
    + intros Ho Ht. rewrite lookup_insert_ne; [by apply inv_running0|].
      intros <-. apply Ht. by eapply Hnt.
  - intros t lq. rewrite lookup_insert. case_decide as Hd; [|by apply inv_completed0].
    intros _ Ht. apply inv_fresh_done0 in Ht. lia.
  - intros f Hf. destruct (inv_pending0 f Hf) as ([[l' e']|t] & Hp & Hs').
    + destruct Hp as (ln1 & Hl1 & He & Hr). destruct (decide (l' = l)) as [->|Hne].
      * assert (ln1 = ln) as -> by congruence. rewrite Hq in He. apply elem_of_cons in He as [->|He].
        -- exists (inr (next_ref s)). split; exists l, (e_work e); simpl; by simplify_map_eq.
        -- exists (inl (l, e')). split; [|done]. eexists. simpl. by simplify_map_eq.
      * exists (inl (l', e')). split; [|done]. exists ln1. simpl. by rewrite lookup_insert_ne.
    + destruct Hp as (l1 & q1 & Ho & Hr), Hs' as (l2 & q2 & Ha & Hq2).
      exists (inr t). split.
      * exists l1, q1. simpl. rewrite lookup_insert_ne; [done|]. congruence.
      * exists l2, q2. simpl. rewrite lookup_insert_ne; [done|]. intros <-.
        destruct Hi; congruence.
  - intros f pl Hp. destruct (Hpl f pl Hp) as [[Hp' _]|[_ ->]]; [by eapply inv_fut0|done].
  - intros f p1 p2 [(H1 & N1 & N1')|[-> ->]]%Hpl [(H2 & N2 & N2')|[-> Hf]]%Hpl; try done.
    + by eapply inv_once0.
    + exfalso. apply N1. subst f. eapply inv_once0; [done|]. exists ln. rewrite Hq.
      split_and!; [done|by left|done].
    + exfalso. apply N2. eapply inv_once0; [done|]. exists ln. rewrite Hq.
      split_and!; [done|by left|done].
  - intros l' p'. rewrite !lookup_insert. case_decide; [done|]. apply inv_point0.
Qed.

(** An entry whose submitter gave up is taken off without being run. *)
Lemma skip_step l e q' s :
  upd_lane l (λ ln, queue_task_done (set_current None ln))
    (upd_lane l (λ ln, set_current (Some (e_work e)) (take_entry e q' ln)) s) =
  upd_lane l (λ ln, set_current None (drop_first e q' ln)) s.
Proof. by rewrite upd_lane_compose. Qed.

Lemma inv_skip s l ln e q' :
  sched_inv None s → idle s l → lane_heap s !! l = Some ln → queue ln = e :: q' →
  future_cancelled s (qw_result (e_work e)) = true →
  sched_inv None (upd_lane l (λ ln, set_current None (drop_first e q' ln)) s).
Proof.
  intros Hs Hi Hl Hq Hf. destruct (idle_lane s l ln) as [Hc _]; [done..|].
  assert (upd_lane l (λ ln, set_current None (drop_first e q' ln)) s =
    upd_lane l (drop_first e q') s) as ->.
  { rewrite !(upd_lane_insert l _ s ln) by done. do 2 f_equal.
    unfold set_current, drop_first, queue_task_done, set_unfinished, take_entry, set_queued,
      set_queue. simpl. by rewrite Hc. }
  apply (inv_drop None s l ln); [done..|].
  unfold future_cancelled, future_done in *. by destruct (futures s !! _) as [[]|].
Qed.

Lemma inv_proc_loop q checked l s :
  sched_inv None s → idle s l → lane_queue s l = q →
  sched_inv None (proc_loop q checked l s).
Proof.
  revert checked s. induction q as [|e q IH]; intros checked s Hs Hi Hq.
  - simpl. destruct (lane_heap s !! l) as [ln|] eqn:Hl; [|done].
    case_match; [by apply inv_proc_finally|].
    apply inv_set_idle; [done|done|by exists ln|by left].
  - cbn [proc_loop]. unfold lane_queue in Hq.
    destruct (lane_heap s !! l) as [ln|] eqn:Hl; [|done].
    case_match; [by apply inv_proc_finally|].
    case_match eqn:Hc.
    + rewrite skip_step. apply IH; [by eapply inv_skip|done|].
      unfold lane_queue. simpl. by rewrite lookup_alter_eq, Hl.
    + rewrite (started_eq l ln) by done. by apply inv_started.
Qed.

(** The state in which the loop goes on after an operation. *)
Lemma proc_after_task_loop s l q t c :
  sched_inv None s → proc_at s !! l = Some (AtTask q t) → t ∈ done_tasks (world s) →
  ∃ s1, sched_inv None s1 ∧ idle s1 l ∧ lane_queue s1 l = lane_queue s l ∧
    op_tasks s1 = op_tasks s ∧ futures s1 = futures (settle (qw_result q) c s) ∧
    proc_after_task l q c s = proc_loop (lane_queue s1 l) false l s1.
Proof.
  intros Hs Hp Ht. unfold proc_after_task.
  pose proof (settle_frame (qw_result q) c s) as (F1 & F2 & F3 & F4 & _ & _ & F7 & _).
  set (s1 := settle (qw_result q) c s) in *.
  assert (sched_inv None s1) as Hs1 by by apply inv_settle.
  set (s2 := with_world _ s1).
  assert (sched_inv None s2) as Hs2 by (apply inv_world; [by left|done|done]).
  destruct (inv_point _ _ Hs l _ Hp) as [ln Hl].
  set (ln' := queue_task_done (set_current_task None (set_current None ln))).
  assert (lane_heap s2 !! l = Some ln) as Hl2 by (simpl; by rewrite F2).
  rewrite (upd_lane_insert l _ s2 ln) by done. fold ln'.
  assert (sched_inv None (set_lane_point l ln' InLoop s2)) as Hs3.
  { eapply (inv_set_lane_point None s2 l ln ln' (AtTask q t) InLoop);
      [done|done|simpl; by rewrite F3|done|done| |done|by left|done| |].
    - pose proof (inv_lane _ _ Hs2 l ln Hl2) as []. unfold point_ok in li_point0.
      simpl in li_point0. rewrite F3, Hp in li_point0.
      destruct li_point0 as (Hc & _ & _).
      split; try done; simpl; [|rewrite li_unfinished0, Hc; lia].
      eapply point_ok_idle; [|by apply lookup_insert_eq|done..]. naive_solver.
    - intros t' q' Ho Hn. exfalso. simpl in Hn. rewrite F1 in Hn. apply Hn. clear Hn.
      destruct (decide (t' ∈ done_tasks (world s))) as [|Hn]; [done|].
      assert (proc_at s !! l = Some (AtTask q' t')) as Hp'.
      { apply (inv_running _ _ Hs); [|done]. simpl in Ho.
        by rewrite F7 in Ho. }
      congruence.
    - intros t' q' [= <- <-]. right. apply settle_done. }
  exists (set_lane_point l ln' InLoop s2). split_and!; try done.
  - right. simpl. by rewrite lookup_insert_eq.
  - unfold lane_queue. simpl. by rewrite lookup_insert_eq, Hl.
Qed.

Lemma inv_proc_after_task s l q t c :
  sched_inv None s → proc_at s !! l = Some (AtTask q t) → t ∈ done_tasks (world s) →
  sched_inv None (proc_after_task l q c s).
Proof.
  intros Hs Hp Ht. destruct (proc_after_task_loop s l q t c Hs Hp Ht)
    as (s1 & Hs1 & Hi & _ & _ & _ & ->). by apply inv_proc_loop.
Qed.

Lemma cancelled_unregistered s l :
  sched_inv None s → proc_cancel_pending s l = true → ∀ sid, od_get (lanes s) sid ≠ Some l.
Proof. intros Hs Hc sid Hr. destruct (inv_lanes _ _ Hs sid l Hr) as (ln & _ & _ & ? & _). congruence. Qed.

Lemma inv_consume s l : sched_inv None s → sched_inv None (consume_cancel l s).
Proof.
  intros Hs. unfold consume_cancel. repeat case_match; try done.
  apply inv_with_cancelling; [|done]. set_solver.
Qed.

Lemma consume_frame l s :
  proc_at (consume_cancel l s) = proc_at s ∧ lane_heap (consume_cancel l s) = lane_heap s ∧
  lanes (consume_cancel l s) = lanes s ∧ world (consume_cancel l s) = world s ∧
  futures (consume_cancel l s) = futures s ∧ op_tasks (consume_cancel l s) = op_tasks s.
Proof. unfold consume_cancel. by repeat case_match. Qed.

Lemma inv_proc_cancelled s l :
  sched_inv None s → idle s l → sched_inv None (proc_cancelled l s).
Proof.
  intros Hs Hi. unfold proc_cancelled. destruct (lane_heap s !! l) as [ln|] eqn:Hl; [|done].
  destruct (idle_lane s l ln) as [_ ->]; [done..|]. by apply inv_proc_finally.
Qed.

Lemma inv_proc_run s l s' : sched_inv None s → proc_run l s = Some s' → sched_inv None s'.
Proof.
  intros Hs. unfold proc_run. destruct (proc_cancel_pending s l) eqn:Hc.
  - pose proof (cancelled_unregistered s l Hs Hc) as Hr.
    pose proof (inv_consume s l Hs) as Hs1.
    pose proof (consume_frame l s) as (F1 & F2 & F3 & F4 & _ & _).
    set (s1 := consume_cancel l s) in *.
    destruct (proc_at s1 !! l) as [[| |q t|t|]|] eqn:Hp; try done.
    + intros [= <-]. apply inv_proc_never_ran; [done|by left|by rewrite F3].
    + intros [= <-]. apply inv_proc_cancelled; [done|by right].
    + unfold task_done. case_bool_decide; [|done]. intros [= <-].
      by eapply inv_proc_after_task.
    + exfalso. destruct (inv_point _ _ Hs1 l _ Hp) as [ln Hl].
      pose proof (li_point _ _ _ _ (inv_lane _ _ Hs1 l ln Hl)) as Hx.
      unfold point_ok in Hx. by rewrite Hp in Hx.
  - destruct (proc_at s !! l) as [[| |q t|t|]|] eqn:Hp; try done.
    + intros [= <-]. apply inv_proc_loop; [done|by left|done].
    + intros Hr. assert (∃ q, lane_queue s l = q ∧ s' = proc_loop q true l s) as (q & Hq & ->).
      { destruct (lane_queue s l); [done|]. injection Hr as <-. by eexists. }
      apply inv_proc_loop; [done|by right|done].
    + unfold task_done. case_bool_decide; [|done]. intros [= <-].
      by eapply inv_proc_after_task.
    + exfalso. destruct (inv_point _ _ Hs l _ Hp) as [ln Hl].
      pose proof (li_point _ _ _ _ (inv_lane _ _ Hs l ln Hl)) as Hx.
      unfold point_ok in Hx. by rewrite Hp in Hx.
Qed.

(** ** Submission *)

(** The state with a new lane registered for a session that has none. *)
Definition with_new_lane (sid : string) (gen : Z) (s : Sched) : Sched :=
  let l := next_ref s in
  set_point l NotStarted
    (with_lanes (od_set (lanes s) sid l)
       (with_lane_heap (<[l := new_lane sid gen (S l)]> (lane_heap s)) (with_next_ref (S (S l)) s))).

Lemma inv_new_lane s sid gen :
  sched_inv None s → od_get (lanes s) sid = None → sched_inv None (with_new_lane sid gen s).
Proof.
  intros Hs Hsid. apply (inv_with_next None s (S (S (next_ref s)))) in Hs as Hs2; [|lia].
  assert (lane_heap s !! next_ref s = None) as Hfresh.
  { destruct (lane_heap s !! next_ref s) as [ln|] eqn:Hl; [|done].
    apply (inv_fresh_lane _ _ Hs) in Hl. lia. }
  assert (op_tasks s !! S (next_ref s) = None) as Hop.
  { destruct (op_tasks s !! S (next_ref s)) as [ln|] eqn:Hl; [|done].
    apply (inv_fresh_op _ _ Hs) in Hl. lia. }
  assert (∀ f p, place (with_new_lane sid gen s) f p → place s f p) as Hplace.
  { intros f [[l e]|t]; [|done]. intros (ln & Hl & He & Hf). simpl in Hl.
    rewrite lookup_insert in Hl. case_decide; [|by exists ln]. injection Hl as <-. set_solver. }
  pose proof (inv_fresh_cancelling _ _ Hs) as Hfc. pose proof (inv_proc _ _ Hs) as Hpr.
  destruct Hs2. simpl in *. split; simpl; try done.
  - intros l ln. rewrite lookup_insert. case_decide; [lia|]. apply inv_fresh_lane0.
  - intros l ln. rewrite lookup_insert. case_decide; [|apply inv_proc0].
    intros [= <-]. eexists. split_and!; [done|lia|done].
  - assert (∀ l ln, lane_heap s !! l = Some ln → processor ln ≠ Some (S (next_ref s))) as Hpn.
    { intros l ln Hl Hp. destruct (Hpr l ln Hl) as (p & ? & ? & _). simplify_eq. lia. }
    intros l1 l2 ln1 ln2. rewrite !lookup_insert. repeat case_decide; intros ? ? ?; simplify_eq;
      try done.
    + by destruct (Hpn l2 ln2).
    + by destruct (Hpn l1 ln1).
    + by apply (inv_proc_inj0 l1 l2 ln1 ln2).
  - by apply od_wf_set.
  - intros sid' l. rewrite od_get_set. unfold proc_cancel_pending. simpl. case_decide as Hd.
    + intros [= <-]. subst sid'. rewrite !lookup_insert_eq. eexists. split_and!; try done.
      simpl. apply bool_decide_eq_false. intros Hin. apply Hfc in Hin. lia.
    + intros Hr. destruct (inv_lanes0 sid' l Hr) as (ln & ? & ? & ? & ?).
      rewrite !lookup_insert_ne by congruence. by exists ln.
  - intros l ln. rewrite lookup_insert. case_decide as Hd.
    + intros [= <-]. subst l. split; simpl; try done; try by constructor.
      * intros e He. by apply not_elem_of_nil in He.
      * unfold point_ok. simpl. by rewrite lookup_insert_eq.
    + intros Hl. destruct (inv_lane0 l ln Hl). split; try done.
      * unfold point_ok in *. simpl. by rewrite lookup_insert_ne.
      * simpl in *. intros Hx Hr. apply li_open0; [done|]. rewrite od_get_set in Hr.
        case_decide as Hd2; [|done]. subst. by rewrite Hsid.
  - intros t l q Ho Ht. rewrite lookup_insert_ne; [by apply inv_running0|]. intros <-.
    specialize (inv_running0 t _ q Ho Ht). destruct (inv_point0 _ _ inv_running0) as [ln Hl].
    congruence.
  - intros f Hf. destruct (inv_pending0 f Hf) as (pl & Hp & Hs'). exists pl. split.
    + destruct pl as [[l e]|t]; [|done]. destruct Hp as (ln & Hl & ?). exists ln.
      simpl in *. rewrite lookup_insert_ne; [done|]. congruence.
    + destruct pl as [|t]; [done|]. destruct Hs' as (l & q & Ha & Hq). exists l, q.
      split; [|done]. simpl in *. rewrite lookup_insert_ne; [done|]. intros <-.
      destruct (inv_point0 _ _ Ha). congruence.
  - intros f p Hp. by apply (inv_fut0 f p), Hplace.
  - intros f p p' H1 H2. apply (inv_once0 f); by apply Hplace.
  - intros l p. rewrite !lookup_insert. case_decide; [done|]. apply inv_point0.
Qed.

(** The state with a new future and its work pushed on a lane. *)
Definition pushed (l : lane_ref) (h : href) (i : HandleIdent) (op ctx : obj) (s : Sched) : Sched :=
  upd_lane l (push_work (mk_work h i op ctx (next_ref s)))
    (with_futures (<[next_ref s := None]> (futures s)) (with_next_ref (S (next_ref s)) s)).

Lemma submit_eq h i op ctx s :
  sched_inv None s →
  submit h i op ctx s =
    if closed s then (Exc (RuntimeError "session scheduler is closed"), s)
    else match od_get (lanes s) (session_id i) with
         | Some l =>
             match lane_heap s !! l with
             | Some ln =>
                 if bool_decide (lane_generation ln = generation i)
                 then (Ret (next_ref s), pushed l h i op ctx s)
                 else (Exc (RuntimeError ("session generation mismatch: " +:+ session_id i)), s)
             | None => (Exc (RuntimeError ""), s)
             end
         | None =>
             (Ret (next_ref (with_new_lane (session_id i) (generation i) s)),
              pushed (next_ref s) h i op ctx (with_new_lane (session_id i) (generation i) s))
         end.
Proof.
  intros Hs. unfold submit, py_bind, py_get, py_guard. destruct (closed s) eqn:Hc; [done|].
  simpl. unfold ensure_lane, py_bind, py_get.
  destruct (od_get (lanes s) (session_id i)) as [l|] eqn:Hl; [|done].
  destruct (inv_lanes _ _ Hs _ _ Hl) as (ln & Hln & _). rewrite Hln.
  unfold py_guard. by case_bool_decide.
Qed.

Lemma new_entry_queue ln q e :
  queue (push_work q ln) ≡ₚ e :: queue ln →
  ∀ e', e' ∈ queue (push_work q ln) ↔ e' = e ∨ e' ∈ queue ln.
Proof. intros Hp e'. by rewrite Hp, elem_of_cons. Qed.

Lemma lane_inv_pushed s l ln h i op ctx :
  sched_inv None s → lane_heap s !! l = Some ln → od_get (lanes s) (lane_session_id ln) = Some l →
  od_get (queued ln) (execution_id i) = None →
  lane_inv None (pushed l h i op ctx s) l (push_work (mk_work h i op ctx (next_ref s)) ln).
Proof.
  intros Hs Hl Hr Hnew. pose proof (inv_lane _ _ Hs l ln Hl) as Hln. destruct Hln.
  set (q := mk_work h i op ctx (next_ref s)).
  destruct (push_work_queue ln q) as (P1 & P2 & e & He & Hp); [done..|].
  pose proof (new_entry_queue ln q e Hp) as Hel.
  assert (∀ e', e' ∈ queue ln → work_id (e_work e') ≠ execution_id i) as Hne.
  { intros e' He' Heq. apply li_queued0 in He'. rewrite Heq in He'. congruence. }
  split; try done.
  - rewrite (Permutation_map (λ e, work_id (e_work e)) Hp). simpl. constructor; [|done].
    rewrite He. intros Hin. apply list_elem_of_fmap in Hin as (e' & ? & ?). by destruct (Hne e').
  - intros e' He'. cbn [queued push_work]. apply Hel in He' as [->|He'].
    + rewrite He. apply od_get_set_eq.
    + rewrite od_get_set_ne; [by apply li_queued0|]. simpl. intros Heq. by destruct (Hne e').
  - rewrite Hp. simpl. rewrite li_unfinished0. destruct (current ln); lia.
Qed.

Lemma inv_pushed s l ln h i op ctx :
  sched_inv None s → lane_heap s !! l = Some ln → od_get (lanes s) (lane_session_id ln) = Some l →
  od_get (queued ln) (execution_id i) = None →
  sched_inv None (pushed l h i op ctx s).
Proof.
  intros Hs Hl Hr Hnew. pose proof (lane_inv_pushed s l ln h i op ctx Hs Hl Hr Hnew) as Hln.
  unfold pushed in *. rewrite (upd_lane_insert l _ _ ln) in * by done.
  set (q := mk_work h i op ctx (next_ref s)) in *.
  pose proof (inv_lane _ _ Hs l ln Hl) as Hln0.
  destruct (push_work_queue ln q) as (_ & _ & e & He & Hp); [by destruct Hln0..|].
  pose proof (new_entry_queue ln q e Hp) as Hel. clear Hp.
  assert (futures s !! next_ref s = None) as Hf0.
  { destruct (futures s !! next_ref s) as [c|] eqn:Hf; [|done].
    apply (inv_fresh_fut _ _ Hs) in Hf. lia. }
  set (s1 := with_next_ref (S (next_ref s)) s).
  set (s' := with_lane_heap _ _) in *.
  assert (∀ f pl, place s' f pl ↔ place s f pl ∨ pl = inl (l, e) ∧ f = next_ref s) as Hpl.
  { intros f [[l' e']|t].
    - unfold place, s'. simpl. setoid_rewrite lookup_insert. case_decide as Hd.
      + subst l'. split.
        * intros (ln' & [= <-] & [->|Hin]%Hel & <-); [right; by rewrite He|].
          left. by exists ln.
        * intros [(ln' & ? & ? & ?)|[[= ->] ->]].
          -- eexists. split; [done|]. split; [|done]. apply Hel. right. by simplify_eq.
          -- eexists. split; [done|]. split; [apply Hel; by left|]. by rewrite He.
      + split; [by left|]. intros [?|[[= -> ->] _]]; done.
    - split; [by left|]. by intros [?|[? _]]. }
  assert (sched_inv None s1) as Hs1 by (apply inv_with_next; [lia|done]).
  pose proof Hs1 as []. clear Hs1. split; try done.
  - intros l' ln1. simpl. rewrite lookup_insert. case_decide; [subst|]; eauto.
  - intros f c. simpl. rewrite lookup_insert. case_decide; [lia|]. apply inv_fresh_fut0.
  - intros l' ln1. simpl. rewrite lookup_insert. case_decide; [|apply inv_proc0].
    intros [= <-]. by apply (inv_proc0 l ln).
  - intros l1 l2 ln1 ln2. simpl. rewrite !lookup_insert. repeat case_decide; subst;
      intros ? ? ?; simplify_eq; try done.
    + by apply (inv_proc_inj0 l1 l2 ln ln2).
    + by apply (inv_proc_inj0 l1 l2 ln1 ln).
    + by apply (inv_proc_inj0 l1 l2 ln1 ln2).
  - intros sid l' Hr'. destruct (inv_lanes0 sid l' Hr') as (ln1 & H1 & H2 & H3 & H4).
    unfold proc_cancel_pending in *. simpl in *. rewrite !lookup_insert. case_decide as Hd.
    + subst l'. assert (ln1 = ln) as -> by congruence. rewrite Hl in H3. by eexists.
    + exists ln1. by rewrite H1 in *.
  - intros l' ln1. simpl. rewrite lookup_insert. case_decide as Hd; [intros [= <-]; by subst|].
    intros Hl1. by destruct (inv_lane0 l' ln1 Hl1).
  - intros f. simpl. rewrite lookup_insert. case_decide as Hd.
    + intros _. exists (inl (l, e)). split; [|done]. apply Hpl. by right.
    + intros Hf. destruct (inv_pending0 f Hf) as (pl & Hp & Hx). exists pl. split; [|done].
      apply Hpl. by left.
  - intros f pl Hp. simpl. rewrite lookup_insert. case_decide as Hd; [done|].
    apply Hpl in Hp as [Hp|[_ ->]]; [|done]. by apply (inv_fut0 f pl).
  - intros f p1 p2 H1 H2. apply Hpl in H1. apply Hpl in H2.
    assert (∀ pl, ¬ place s (next_ref s) pl) as Hno.
    { intros pl Hpl'. destruct (inv_fut _ _ Hs _ _ Hpl') as [c Hc]. congruence. }
    destruct H1 as [H1|[-> ->]], H2 as [H2|[-> Hf]]; subst; try done.
    + by apply (inv_once0 f).
    + by destruct (Hno p1).
    + by destruct (Hno p2).
  - intros l' p'. simpl. rewrite lookup_insert. case_decide; [done|]. apply inv_point0.
Qed.

Lemma inv_submit s h i op ctx :
  sched_inv None s → new_work s i → sched_inv None (submit h i op ctx s).2.
Proof.
  intros Hs Hn. rewrite submit_eq by done. destruct (closed s); [done|].
  destruct (od_get (lanes s) (session_id i)) as [l|] eqn:Hl.
  - destruct (inv_lanes _ _ Hs _ _ Hl) as (ln & Hln & Hsid & _). rewrite Hln.
    case_bool_decide; [|done]. apply (inv_pushed s l ln); [done|done|congruence|by eapply Hn].
  - apply (inv_pushed _ _ (new_lane (session_id i) (generation i) (S (next_ref s))));
      [by apply inv_new_lane| | |done]; simpl; [by rewrite lookup_insert_eq|].
    by rewrite od_get_set_eq.
Qed.

(** ** Cancelling and closing *)

Lemma current_task_op x s l ln t :
  sched_inv x s → lane_heap s !! l = Some ln → current_task ln = Some t →
  ∃ q, current ln = Some q ∧ op_tasks s !! t = Some (l, q) ∧ proc_at s !! l = Some (AtTask q t).
Proof.
  intros Hs Hl Ht. pose proof (li_point _ _ _ _ (inv_lane _ _ Hs l ln Hl)) as Hp.
  unfold point_ok in Hp. destruct (proc_at s !! l) as [[| |q t'|t'|]|]; try done;
    destruct Hp as (H1 & H2); try congruence.
  destruct H2 as [H2 H3]. exists q. split_and!; congruence.
Qed.

Lemma inv_cancel_current ids ls targets s :
  sched_inv None s → sched_inv None (cancel_current ids ls targets s).2.
Proof.
  revert targets s. induction ls as [|l ls IH]; intros targets s Hs; simpl; [done|].
  destruct (lane_heap s !! l) as [ln|] eqn:Hl; [|by apply IH].
  destruct (current ln) as [q|] eqn:Hc; [|by apply IH].
  destruct (current_task ln) as [t|] eqn:Ht; [|by apply IH].
  case_match; apply IH; [|done].
  destruct (current_task_op _ _ _ _ _ Hs Hl Ht) as (q' & _ & Ho & _). by eapply inv_cancel_op.
Qed.

Lemma inv_cancel_queued_handle targets r s :
  sched_inv None s → sched_inv None (cancel_queued_handle targets r s).
Proof.
  intros Hs. unfold cancel_queued_handle, cancel_queued. repeat case_match; try done.
  all: by apply inv_settle.
Qed.

Lemma inv_cancel_begin rs s : sched_inv None s → sched_inv None (cancel_begin rs s).2.
Proof.
  intros Hs. unfold cancel_begin.
  set (ids := list_to_set _).
  pose proof (inv_cancel_current ids (od_values (lanes s)) [] s Hs) as Hs1.
  destruct (cancel_current ids (od_values (lanes s)) [] s) as [targets s1]. simpl in *.
  generalize rs. clear ids rs. intros rs. revert s1 Hs1.
  induction rs as [|r rs IH]; intros s1 Hs1; simpl; [done|].
  by apply IH, inv_cancel_queued_handle.
Qed.

Lemma inv_cancel_processor s l ln p :
  sched_inv None s → lane_heap s !! l = Some ln → processor ln = Some p →
  (∀ sid, od_get (lanes s) sid ≠ Some l) → sched_inv None (cancel_processor l p s).
Proof.
  intros Hs Hl Hp Hr.
  assert (sched_inv None (cancel_task p s)) as Hcp.
  { unfold cancel_task. case_match; [done|]. apply inv_with_cancelling; [|done].
    intros t. rewrite elem_of_union, elem_of_singleton. intros [->|?]; [right|by left].
    destruct (inv_proc _ _ Hs l ln Hl) as (p' & ? & ? & _). simplify_eq. split; [done|].
    intros sid l' ln' Hl' Hln' Hp'. apply (Hr sid). rewrite Hl'. f_equal.
    eapply inv_proc_inj; [done..|congruence]. }
  unfold cancel_processor. destruct (proc_at s !! l) as [[| |q t|t|]|] eqn:Hpt; try done.
  all: case_match; [done|].
  all: pose proof (li_point _ _ _ _ (inv_lane _ _ Hs l ln Hl)) as Hx; unfold point_ok in Hx;
    rewrite Hpt in Hx; try done.
  destruct Hx as (_ & _ & Ho). by eapply inv_cancel_op.
Qed.

Lemma inv_close_session_begin caller sid gen s :
  sched_inv None s → sched_inv None (close_session_begin caller sid gen s).2.
Proof.
  intros Hs. unfold close_session_begin.
  destruct (od_get (lanes s) sid) as [l|] eqn:Hr; [|done].
  destruct (lane_heap s !! l) as [ln0|] eqn:Hl0; [|done].
  set (s0 := with_lanes (od_pop (lanes s) sid) s).
  assert (sched_inv None (drain_queued l s0)) as Hs1 by by apply inv_unregister_drain.
  assert (is_Some (lane_heap s0 !! l)) as Hi by by exists ln0.
  pose proof (drain_queued_drained l s0 Hi) as Hd.
  assert (∀ sid', od_get (lanes (drain_queued l s0)) sid' ≠ Some l) as Hnr.
  { intros sid'. rewrite (dr_lanes _ _ _ Hd). simpl. rewrite od_get_pop. case_decide; [done|].
    intros Hg. destruct (inv_lanes _ _ Hs sid' l Hg) as (? & ? & ? & _).
    destruct (inv_lanes _ _ Hs sid l Hr) as (? & ? & ? & _). congruence. }
  set (s1 := drain_queued l s0) in *.
  destruct (match gen with Some _ => _ | None => _ end); [done|].
  destruct (lane_heap s1 !! l) as [ln|] eqn:Hl; [|done].
  assert (sched_inv None (match processor ln with
         | Some p => if task_done s1 p then s1 else cancel_processor l p s1
         | None => s1 end)) as Hs2
      by (destruct (processor ln) eqn:?; [case_match; [done|]; by eapply inv_cancel_processor|done]).
  simpl. case_decide; [done|by apply inv_closing].
Qed.

Lemma inv_set_fold_closing key (ts : gset task_ref) s :
  sched_inv None s → sched_inv None (set_fold (λ t s, finish_closing key t s) s ts).
Proof.
  intros Hs. unfold set_fold. simpl. induction (elements ts); simpl; [done|].
  by apply inv_finish_closing.
Qed.

Lemma inv_close_end ts s : sched_inv None s → sched_inv None (close_end ts s).
Proof.
  intros Hs. unfold close_end. generalize (closing_tasks s). intros c. revert s Hs.
  induction c as [|kv c IH]; intros s Hs; simpl; [done|]. apply IH.
  by apply inv_set_fold_closing.
Qed.

Lemma sched_step_inv s s' : sched_step s s' → sched_inv None s → sched_inv None s'.
Proof.
  intros [] Hs.
  - by apply inv_submit.
  - by eapply inv_proc_run.
  - apply inv_finish_task.
    + by eapply (inv_fresh_op _ _ Hs).
    + simpl. intros lq' _. by rewrite lookup_insert_eq.
    + destruct Hs. split; simpl; try done.
      * intros l ln Hl. by destruct (inv_lane0 l ln Hl).
      * intros t' lq' Ho Ht'. rewrite lookup_insert. case_decide; [done|]. by eapply inv_completed0.
  - by apply inv_settle.
  - by apply inv_cancel_begin.
  - by apply inv_close_session_begin.
  - by apply inv_set_fold_closing.
  - by apply inv_closed.
  - by apply inv_close_end.
  - apply inv_world; [|by eapply reg_step_done|done].
    intros t Ht. destruct (H0 t Ht) as [?|(? & ? & _)]; [by left|by right].
  - apply inv_with_next; [lia|done].
Qed.

Lemma sched_init_inv w n :
  (∀ t, t ∈ done_tasks w → t < n) → sched_inv None (sched_init w n).
Proof.
  intros Hw. split; simpl; try done.
  - apply od_wf_nil.
  - intros f [[l e]|t]; [intros (? & ? & _)|intros (? & ? & ? & _)]; done.
  - intros f [[l e]|t] p' Hp; [destruct Hp as (? & ? & _)|destruct Hp as (? & ? & ? & _)]; done.
Qed.

Lemma sched_steps_inv s s' : sched_steps s s' → sched_inv None s → sched_inv None s'.
Proof. induction 1; eauto using sched_step_inv. Qed.

(** ** What a run may add

    A settled future keeps its outcome, and a task is created only for a work
    whose future is not cancelled. *)

Definition grows (s s' : Sched) : Prop :=
  (∀ f c, futures s !! f = Some (Some c) → futures s' !! f = Some (Some c)) ∧
  (∀ t l q, op_tasks s' !! t = Some (l, q) →
     op_tasks s !! t = Some (l, q) ∨ future_cancelled s (qw_result q) = false).

#[export] Instance grows_preorder : PreOrder grows.
Proof.
  split; [by split; [|left]|]. intros s1 s2 s3 [F1 O1] [F2 O2]. split; [by auto|].
  intros t l q [?|Hc]%O2; [by apply O1|]. right. unfold future_cancelled in *.
  destruct (futures s1 !! qw_result q) as [[[]|]|] eqn:Hf; try done.
  by rewrite (F1 _ _ Hf) in Hc.
Qed.

Lemma grows_same s s' : futures s' = futures s → op_tasks s' = op_tasks s → grows s s'.
Proof. intros Hf Ho. split; [by rewrite Hf|]. rewrite Ho. by left. Qed.

Lemma grows_settle f c s : grows s (settle f c s).
Proof.
  pose proof (settle_frame f c s) as (_ & _ & _ & _ & _ & _ & F7 & _). split.
  - intros g c' Hg. rewrite settle_futures, Hg. by case_decide.
  - rewrite F7. by left.
Qed.

Lemma grows_finish_closing key t s : grows s (finish_closing key t s).
Proof. unfold finish_closing. case_match; [by apply grows_same|done]. Qed.

Lemma grows_drain_entries q l s : grows s (drain_entries q l s).
Proof.
  revert s. induction q as [|e q IH]; intros s; cbn [drain_entries]; [done|].
  rewrite drain_step. etrans; [apply grows_settle|]. etrans; [|apply IH]. by apply grows_same.
Qed.

Lemma grows_drain_queued l s : grows s (drain_queued l s).
Proof. unfold drain_queued. case_match; [apply grows_drain_entries|done]. Qed.

Lemma grows_proc_finally l s : grows s (proc_finally l s).
Proof.
  unfold proc_finally. destruct (lane_heap s !! l) as [ln|]; [|done].
  etrans; [|case_match; [etrans; [apply grows_finish_closing|by apply grows_same]|done]].
  etrans; [|by apply grows_same]. etrans; [|apply grows_drain_queued].
  case_match; [by apply grows_same|done].
Qed.

Lemma grows_start l e q' s :
  future_cancelled s (qw_result (e_work e)) = false → op_tasks s !! next_ref s = None →
  grows s (start_operation l (e_work e)
    (upd_lane l (λ ln, set_current (Some (e_work e)) (take_entry e q' ln)) s)).
Proof.
  intros Hc Hn. split; [done|]. intros t l' q. simpl. rewrite lookup_insert.
  case_decide; [|by left]. intros [= <- <-]. by right.
Qed.

Lemma grows_proc_loop q checked l s :
  op_tasks s !! next_ref s = None → grows s (proc_loop q checked l s).
Proof.
  revert checked s. induction q as [|e q IH]; intros checked s Hn; cbn [proc_loop].
  - destruct (lane_heap s !! l); [|done]. case_match; [apply grows_proc_finally|by apply grows_same].
  - destruct (lane_heap s !! l); [|done]. case_match; [apply grows_proc_finally|].
    case_match eqn:Hc.
    + etrans; [|by apply IH]. by apply grows_same.
    + by apply grows_start.
Qed.

Lemma fresh_op x s : sched_inv x s → op_tasks s !! next_ref s = None.
Proof.
  intros Hs. destruct (op_tasks s !! next_ref s) as [lq|] eqn:Ho; [|done].
  apply (inv_fresh_op _ _ Hs) in Ho. lia.
Qed.

Lemma grows_after_task l q c s :
  op_tasks s !! next_ref s = None → grows s (proc_after_task l q c s).
Proof.
  intros Hn. unfold proc_after_task.
  etrans; [apply (grows_settle (qw_result q) c)|]. etrans; [|apply grows_proc_loop].
  - by apply grows_same.
  - pose proof (settle_frame (qw_result q) c s) as (_ & _ & _ & _ & _ & _ & F7 & _ & _ & F10).
    simpl. by rewrite F7, F10.
Qed.

Lemma grows_proc_run l s s' : sched_inv None s → proc_run l s = Some s' → grows s s'.
Proof.
  intros Hs. unfold proc_run.
  assert (grows s (if proc_cancel_pending s l then consume_cancel l s else s)) as Hg.
  { case_match; [|done]. unfold consume_cancel. repeat case_match; try done. by apply grows_same. }
  assert (sched_inv None (if proc_cancel_pending s l then consume_cancel l s else s)) as Hs1
    by (case_match; [by apply inv_consume|done]).
  set (s1 := if proc_cancel_pending s l then _ else _) in *.
  pose proof (fresh_op _ _ Hs1) as Hn.
  intros Hr. etrans; [exact Hg|]. revert Hr.
  assert (grows s1 (proc_cancelled l s1)) as Hpc.
  { unfold proc_cancelled. repeat case_match; try done; try apply grows_proc_finally.
    apply grows_same; simpl; unfold cancel_task; by case_match. }
  assert (grows s1 (proc_never_ran l s1)) as Hnr.
  { unfold proc_never_ran. repeat case_match; try done; by apply grows_same. }
  destruct (proc_at s1 !! l) as [[| |q t|t|]|]; try done.
  - intros [= <-]. case_match; [done|by apply grows_proc_loop].
  - case_match; [by intros [= <-]|]. intros Hr.
    assert (∃ q, s' = proc_loop q true l s1) as [q ->]; [|by apply grows_proc_loop].
    destruct (lane_queue s1 l) as [|e q]; [done|]. exists (e :: q). by injection Hr as <-.
  - case_match; [|done]. intros [= <-]. by apply grows_after_task.
  - case_match; [|done]. intros [= <-]. apply grows_proc_finally.
Qed.

Lemma grows_cancel_current ids ls targets s : grows s (cancel_current ids ls targets s).2.
Proof.
  revert targets s. induction ls as [|l ls IH]; intros targets s; simpl; [done|].
  repeat case_match; try apply IH. etrans; [|apply IH].
  unfold cancel_task. case_match; [done|by apply grows_same].
Qed.

Lemma grows_cancel_begin rs s : grows s (cancel_begin rs s).2.
Proof.
  unfold cancel_begin. set (ids := list_to_set _).
  pose proof (grows_cancel_current ids (od_values (lanes s)) [] s) as Hg.
  destruct (cancel_current ids (od_values (lanes s)) [] s) as [targets s1]. simpl in *.
  etrans; [exact Hg|]. clear. generalize rs. clear rs. intros rs. revert s1.
  induction rs as [|r rs IH]; intros s1; simpl; [done|]. etrans; [|apply IH].
  unfold cancel_queued_handle, cancel_queued. repeat case_match; try done; apply grows_settle.
Qed.

Lemma grows_cancel_processor l p s : grows s (cancel_processor l p s).
Proof. unfold cancel_processor, cancel_task. repeat case_match; try done; by apply grows_same. Qed.

Lemma grows_close_session_begin caller sid gen s : grows s (close_session_begin caller sid gen s).2.
Proof.
  unfold close_session_begin. destruct (od_get (lanes s) sid) as [l|]; [|done].
  destruct (lane_heap s !! l) as [ln0|]; [|done].
  destruct (match gen with Some _ => _ | None => _ end); [done|].
  set (s0 := with_lanes _ s). pose proof (grows_drain_queued l s0) as Hd.
  destruct (lane_heap (drain_queued l s0) !! l) as [ln|]; [|done].
  transitivity (drain_queued l s0); [transitivity s0; [by apply grows_same|done]|].
  simpl. etrans; [|case_decide; [reflexivity|by apply grows_same]].
  destruct (processor ln); [|done]. case_match; [done|apply grows_cancel_processor].
Qed.

Lemma grows_set_fold_closing key (ts : gset task_ref) s :
  grows s (set_fold (λ t s, finish_closing key t s) s ts).
Proof.
  unfold set_fold. simpl. induction (elements ts); simpl; [done|].
  etrans; [exact IHl|apply grows_finish_closing].
Qed.

Lemma grows_close_end ts s : grows s (close_end ts s).
Proof.
  unfold close_end. generalize (closing_tasks s). intros c. revert s.
  induction c as [|kv c IH]; intros s; cbn [foldl]; [done|].
  etrans; [apply grows_set_fold_closing|apply IH].
Qed.

Lemma grows_submit h i op ctx s : sched_inv None s → grows s (submit h i op ctx s).2.
Proof.
  intros Hs. rewrite submit_eq by done.
  assert (∀ s0 l n, (∀ f c, futures s0 !! f = Some c → f < next_ref s0) → n = next_ref s0 →
    grows s0 (pushed l h i op ctx s0)) as Hp.
  { intros s0 l n Hf _. split; [|by left]. intros f c Hfc. simpl.
    rewrite lookup_insert_ne; [done|]. apply Hf in Hfc. lia. }
  destruct (closed s); [done|].
  destruct (od_get (lanes s) (session_id i)) as [l|] eqn:Hl.
  - destruct (lane_heap s !! l); [|done]. case_bool_decide; [|done].
    eapply Hp; [apply (inv_fresh_fut _ _ Hs)|done].
  - simpl. transitivity (with_new_lane (session_id i) (generation i) s); [by apply grows_same|].
    eapply Hp; [|done]. by apply (inv_fresh_fut _ _ (inv_new_lane _ _ (generation i) Hs Hl)).
Qed.

Lemma sched_step_grows s s' : sched_inv None s → sched_step s s' → grows s s'.
Proof.
  intros Hs Hst. revert Hs. destruct Hst; intros Hs; try by apply grows_same.
  - by apply grows_submit.
  - by eapply grows_proc_run.
  - apply grows_settle.
  - apply grows_cancel_begin.
  - apply grows_close_session_begin.
  - apply grows_set_fold_closing.
  - apply grows_close_end.
Qed.

Lemma sched_steps_grows s s' : sched_inv None s → sched_steps s s' → grows s s'.
Proof.
  intros Hs H. induction H as [|s1 s2 s3 H1 _ IH]; [done|].
  etrans; [by eapply sched_step_grows|]. by apply IH, (sched_step_inv s1).
Qed.

(** ** What the scheduler promises *)

Definition reachable (s : Sched) : Prop :=
  ∃ w n, (∀ t, t ∈ done_tasks w → t < n) ∧ sched_steps (sched_init w n) s.

Lemma reachable_inv s : reachable s → sched_inv None s.
Proof. intros (w & n & Hw & Hs). eapply sched_steps_inv; [done|by apply sched_init_inv]. Qed.

(** a Session runs one operation at a time: of the tasks the scheduler created for one
    lane at most one is not done, and no submitted work is ever given to two tasks. *)
Theorem one_operation_per_lane s t1 t2 l1 l2 q1 q2 :
  reachable s → op_tasks s !! t1 = Some (l1, q1) → op_tasks s !! t2 = Some (l2, q2) →
  (l1 = l2 → task_done s t1 = false → task_done s t2 = false → t1 = t2) ∧
  (qw_result q1 = qw_result q2 → t1 = t2).
Proof.
  intros Hs%reachable_inv H1 H2. unfold task_done. split.
  - intros <- N1%bool_decide_eq_false N2%bool_decide_eq_false.
    pose proof (inv_running _ _ Hs _ _ _ H1 N1). pose proof (inv_running _ _ Hs _ _ _ H2 N2).
    congruence.
  - intros Hq. assert (inr t1 = inr t2 :> lane_ref * entry + task_ref) as [=]; [|done].
    apply (inv_once _ _ Hs (qw_result q1)); [by exists l1, q1|by exists l2, q2].
Qed.

Lemma drain_entries_ops q l s : op_tasks (drain_entries q l s) = op_tasks s.
Proof.
  revert s. induction q as [|e q IH]; intros s; cbn [drain_entries]; [done|].
  rewrite IH. unfold upd_lane at 1. simpl. by rewrite settle_op_tasks.
Qed.

Lemma finish_closing_ops key t s : op_tasks (finish_closing key t s) = op_tasks s.
Proof. unfold finish_closing. by case_match. Qed.

Lemma proc_finally_ops l s : op_tasks (proc_finally l s) = op_tasks s.
Proof.
  unfold proc_finally. destruct (lane_heap s !! l) as [ln|]; [|done].
  assert (∀ s0, op_tasks (drain_queued l s0) = op_tasks s0) as Hd.
  { intros s0. unfold drain_queued. case_match; [apply drain_entries_ops|done]. }
  destruct (processor ln); simpl; rewrite ?finish_closing_ops; simpl; rewrite Hd;
    by case_match.
Qed.

Lemma future_cancelled_mono s s' f :
  grows s s' → future_cancelled s f = true → future_cancelled s' f = true.
Proof.
  intros [Hf _]. unfold future_cancelled.
  destruct (futures s !! f) as [[[]|]|] eqn:E; try done. by rewrite (Hf _ _ E).
Qed.

(** [e] is the entry of [q] to be served when those of the given-up works are passed over. *)
Definition first_served (s : Sched) (q : list entry) (e : entry) : Prop :=
  e ∈ q ∧ ∀ e', e' ∈ q →
    e' = e ∨ future_cancelled s (qw_result (e_work e')) = true ∨ served_before e e'.

Lemma proc_loop_serves q checked l s t w :
  sched_inv None s → idle s l → lane_queue s l = q →
  op_tasks s !! t = None → op_tasks (proc_loop q checked l s) !! t = Some (l, w) →
  ∃ e, first_served (proc_loop q checked l s) q e ∧ e_work e = w.
Proof.
  revert checked s. induction q as [|e q IH]; intros checked s Hs Hi Hq Hn; cbn [proc_loop].
  - destruct (lane_heap s !! l); [|congruence]. case_match; simpl; [|congruence].
    rewrite proc_finally_ops. congruence.
  - unfold lane_queue in Hq. destruct (lane_heap s !! l) as [ln|] eqn:Hl; [|congruence].
    case_match; [rewrite proc_finally_ops; congruence|]. case_match eqn:Hc.
    + rewrite skip_step. set (s1 := upd_lane l _ s).
      assert (sched_inv None s1) as Hs1 by by eapply inv_skip.
      intros Ht. destruct (IH false s1) as (e1 & [Hin Hb] & Hw); try done.
      { unfold lane_queue, s1. simpl. by rewrite lookup_alter_eq, Hl. }
      exists e1. split; [|done]. split; [by right|].
      intros e' [->|He']%elem_of_cons; [|by apply Hb]. right. left.
      eapply future_cancelled_mono; [|exact Hc]. etrans; [|apply grows_proc_loop].
      * by apply grows_same.
      * by apply (fresh_op _ _ Hs1).
    + simpl. rewrite lookup_insert. case_decide; [|congruence]. intros [= <-].
      exists e. split; [|done]. split; [by left|].
      intros e' [->|He']%elem_of_cons; [by left|]. right. right.
      pose proof (li_sorted _ _ _ _ (inv_lane _ _ Hs l ln Hl)) as Hso. rewrite Hq in Hso.
      apply StronglySorted_inv in Hso as [_ Hall]. rewrite Forall_forall in Hall. by apply Hall.
Qed.

(** the processor serves in the promised order: the operation it starts is that of the
    entry which comes before every other queued entry whose submitter has not given up -
    chat turns before messages, the newest chat turn first, messages as submitted. *)
Theorem served_in_order s s' l t w :
  reachable s → proc_run l s = Some s' → op_tasks s !! t = None →
  op_tasks s' !! t = Some (l, w) →
  ∃ e, first_served s' (lane_queue s l) e ∧ e_work e = w.
Proof.
  intros Hs%reachable_inv. unfold proc_run. set (cc := proc_cancel_pending s l).
  assert (sched_inv None (if cc then consume_cancel l s else s)) as Hs1
    by (destruct cc; [by apply inv_consume|done]).
  pose proof (consume_frame l s) as (F1 & F2 & F3 & F4 & F5 & F6).
  assert (lane_queue (if cc then consume_cancel l s else s) l = lane_queue s l) as Hq
    by (unfold lane_queue; destruct cc; by rewrite ?F2).
  assert (op_tasks (if cc then consume_cancel l s else s) = op_tasks s) as Ho by (by destruct cc).
  set (s1 := if cc then _ else _) in *. rewrite <-Hq, <-Ho. clearbody s1 cc.
  destruct (proc_at s1 !! l) as [[| |q t'|t'|]|] eqn:Hp; try done.
  - intros [= <-] Hn. destruct cc.
    + unfold proc_never_ran. repeat case_match; simpl; congruence.
    + by apply proc_loop_serves; [|left|..].
  - destruct cc.
    + intros [= <-] Hn. unfold proc_cancelled. repeat case_match;
        rewrite ?proc_finally_ops; simpl; try congruence.
      unfold cancel_task. case_match; simpl; congruence.
    + intros Hr Hn. assert (s' = proc_loop (lane_queue s1 l) true l s1) as ->.
      { by destruct (lane_queue s1 l); [|injection Hr as <-]. }
      by apply proc_loop_serves; [|right|..].
  - unfold task_done. case_bool_decide as Hd; [|done]. intros [= <-] Hn.
    set (c := if cc then _ else _).
    destruct (proc_after_task_loop s1 l q t' c Hs1 Hp Hd) as (s2 & Hs2 & Hi & Hlq & Ho2 & _ & ->).
    rewrite <-Ho2 in Hn. rewrite <-Hlq. by apply proc_loop_serves.
  - case_match; [|done]. intros [= <-] Hn. rewrite proc_finally_ops. congruence.
Qed.

(** work cancelled while it waits is never run: if its future is cancelled and no task
    was created for it yet, no later state has a task for it. *)
Theorem cancelled_never_runs s s' f t l q :
  reachable s → future_cancelled s f = true →
  (∀ t l q, op_tasks s !! t = Some (l, q) → qw_result q ≠ f) →
  sched_steps s s' → op_tasks s' !! t = Some (l, q) → qw_result q ≠ f.
Proof.
  intros Hs%reachable_inv Hc Hn Hss Ht Hq.
  destruct (sched_steps_grows s s' Hs Hss) as [_ Ho].
  destruct (Ho t l q Ht) as [Ht'|Hf]; [by eapply Hn|congruence].
Qed.

(** C34: no submission is forgotten: while a submitter waits, either its work is queued in a
    registered lane or handed to an operation, and the processor of that lane can run or
    awaits an operation that is not done. *)
Theorem submission_served s f :
  reachable s → futures s !! f = Some None →
  ∃ l, (is_Some (proc_run l s) ∨
        ∃ q t, proc_at s !! l = Some (AtTask q t) ∧ task_done s t = false) ∧
    ((∃ e, e ∈ lane_queue s l ∧ qw_result (e_work e) = f) ∨
     ∃ q t, proc_at s !! l = Some (AtTask q t) ∧ qw_result q = f).
Proof.
  intros Hs%reachable_inv Hf. destruct (inv_pending _ _ Hs f Hf) as ([[l e]|t] & Hp & Hx).
  - destruct Hp as (ln & Hl & He & Hr). exists l. split.
    + pose proof (inv_lane _ _ Hs l ln Hl) as [_ _ _ _ Hpt Hop _].
      destruct (decide (od_get (lanes s) (lane_session_id ln) = Some l)) as [Hreg|Hreg].
      2:{ rewrite (Hop) in He by done. by apply not_elem_of_nil in He. }
      destruct (inv_lanes _ _ Hs _ _ Hreg) as (_ & _ & _ & Hnc & Hnr).
      unfold point_ok in Hpt. unfold proc_run. rewrite Hnc.
      destruct (proc_at s !! l) as [[| |q t|t|]|] eqn:Hpa; try done.
      * left. by eexists.
      * left. unfold lane_queue. rewrite Hl. destruct (queue ln); [set_solver|by eexists].
      * destruct (task_done s t) eqn:Hd; [left; by eexists|right; by exists q, t].
    + left. exists e. unfold lane_queue. by rewrite Hl.
  - destruct Hx as (l & q & Ha & Hq). exists l. split; [|right; by exists q, t].
    destruct (task_done s t) eqn:Hd; [left|right; by exists q, t].
    unfold proc_run. destruct (proc_cancel_pending s l).
    + destruct (consume_frame l s) as (-> & _ & _ & F4 & _). rewrite Ha.
      unfold task_done in *. rewrite F4, Hd. by eexists.
    + rewrite Ha, Hd. by eexists.
Qed.

(** the submitter receives the outcome of its operation, value, exception or
    cancellation, when the processor next runs. *)
Theorem outcome_delivered s l q t c :
  reachable s → proc_at s !! l = Some (AtTask q t) → task_done s t = true →
  completions s !! t = Some c → proc_cancel_pending s l = false →
  futures s !! qw_result q = Some None →
  ∃ s', proc_run l s = Some s' ∧ futures s' !! qw_result q = Some (Some c).
Proof.
  intros Hs%reachable_inv Hp Hd Hc Hn Hf. unfold proc_run. rewrite Hn, Hp, Hd, Hc. simpl.
  eexists. split; [done|]. apply bool_decide_eq_true in Hd.
  destruct (proc_after_task_loop s l q t c Hs Hp Hd) as (s1 & Hs1 & _ & _ & _ & Hf1 & ->).
  apply grows_proc_loop; [by eapply fresh_op|].
  by rewrite Hf1, settle_futures, decide_True, Hf.
Qed.

(** submitting raises exactly when the scheduler is closed or the Session's lane has
    another generation, and then changes nothing; otherwise the work waits in the lane
    of its Session under a new future. *)
Theorem submit_behaviour s h i op ctx :
  reachable s →
  let mismatch := ∃ l ln, od_get (lanes s) (session_id i) = Some l ∧
    lane_heap s !! l = Some ln ∧ lane_generation ln ≠ generation i in
  match submit h i op ctx s with
  | (Exc _, s') => (closed s = true ∨ mismatch) ∧ s' = s
  | (Ret f, s') => closed s = false ∧ ¬ mismatch ∧ futures s !! f = None ∧
      futures s' !! f = Some None ∧
      ∃ l ln e, od_get (lanes s') (session_id i) = Some l ∧ lane_heap s' !! l = Some ln ∧
        lane_generation ln = generation i ∧ e ∈ queue ln ∧ e_work e = mk_work h i op ctx f
  end.
Proof.
  intros Hs%reachable_inv mismatch. rewrite submit_eq by done.
  assert (∀ s0 l ln, sched_inv None s0 → lane_heap s0 !! l = Some ln → ∃ ln' e,
    lane_heap (pushed l h i op ctx s0) !! l = Some ln' ∧
    lane_generation ln' = lane_generation ln ∧ e ∈ queue ln' ∧
    e_work e = mk_work h i op ctx (next_ref s0)) as Hpush.
  { intros s0 l ln Hs0 Hl. pose proof (inv_lane _ _ Hs0 l ln Hl) as [].
    destruct (push_work_queue ln (mk_work h i op ctx (next_ref s0))) as (_ & _ & e & He & Hp); [done..|].
    eexists _, e. simpl. rewrite lookup_alter_eq, Hl. simpl. split_and!; [done..| |done].
    cbn in Hp. rewrite Hp. by left. }
  assert (∀ s0, sched_inv None s0 → futures s0 !! next_ref s0 = None) as Hfr.
  { intros s0 Hs0. destruct (futures s0 !! next_ref s0) eqn:Hf; [|done].
    apply (inv_fresh_fut _ _ Hs0) in Hf. lia. }
  destruct (closed s) eqn:Hc; [split; [by left|done]|].
  destruct (od_get (lanes s) (session_id i)) as [l|] eqn:Hl.
  - destruct (inv_lanes _ _ Hs _ _ Hl) as (ln & Hln & _). rewrite Hln. case_bool_decide as Hg.
    + destruct (Hpush s l ln) as (ln' & e & H1 & H2 & H3 & H4); [done..|].
      split_and!; [done| |by apply Hfr|simpl; by rewrite lookup_insert_eq|].
      * intros (l' & ln1 & ? & ? & ?). congruence.
      * exists l, ln', e. split_and!; try done. congruence.
    + split; [right|done]. by exists l, ln.
  - pose proof (inv_new_lane s (session_id i) (generation i) Hs Hl) as Hs1.
    destruct (Hpush _ (next_ref s) (new_lane (session_id i) (generation i) (S (next_ref s))) Hs1)
      as (ln' & e & H1 & H2 & H3 & H4); [simpl; by rewrite lookup_insert_eq|].
    split_and!; [done| | |simpl; by rewrite lookup_insert_eq|].
    + intros (l' & ln1 & ? & ? & ?). congruence.
    + by apply (Hfr _ Hs1).
    + exists (next_ref s), ln', e. split_and!; try done. simpl. by rewrite od_get_set_eq.
Qed.

(** closing a Session settles every work that was queued in its lane and takes the lane
    out, so that nothing submitted before can start afterwards; a lane of another
    generation is left alone. *)
Theorem close_session_settles s caller sid gen l ln :
  reachable s → od_get (lanes s) sid = Some l → lane_heap s !! l = Some ln →
  let '(r, s') := close_session_begin caller sid gen s in
  match gen with Some g => lane_generation ln ≠ g | None => False end ∧ r = None ∧ s' = s ∨
  is_Some r ∧ od_get (lanes s') sid = None ∧ lane_queue s' l = [] ∧
  ∀ e, e ∈ queue ln → future_done s' (qw_result (e_work e)) = true.
Proof.
  intros Hs%reachable_inv Hr Hl. unfold close_session_begin. rewrite Hr, Hl.
  set (s0 := with_lanes (od_pop (lanes s) sid) s).
  pose proof (drain_queued_drained l s0 (ex_intro _ ln Hl)) as Hd.
  destruct (dr_lane _ _ _ Hd ln Hl) as (ln1 & H1 & H2 & H3 & H4 & H5 & H6 & H7 & H8).
  destruct (match gen with Some _ => _ | None => _ end) eqn:Hg.
  { left. split_and!; [|done..]. destruct gen; [|done].
    by apply negb_true_iff, bool_decide_eq_false in Hg. }
  cbv zeta. set (s1 := drain_queued l s0) in *. rewrite H1. right.
  set (s2 := match processor ln1 with Some _ => _ | None => _ end).
  assert (lanes s2 = lanes s1 ∧ lane_heap s2 = lane_heap s1 ∧ futures s2 = futures s1)
    as (E1 & E2 & E3).
  { subst s2. unfold cancel_processor, cancel_task. by repeat case_match. }
  split; [by eexists|]. rewrite (dr_lanes _ _ _ Hd) in E1. simpl in E1.
  set (ts := close_targets _ _ _). unfold lane_queue, future_done.
  destruct (decide (ts = ∅)); simpl; rewrite E1, E2, E3, H1, od_get_pop_eq; done.
Qed.

(** ** Witnesses

    A message and then two chat turns are submitted to the Session "s1"; the
    processor starts the newest chat turn. *)

Definition demo_work (eid : string) (k : SessionWorkKind) : HandleIdent :=
  mk_ident eid "s1" eid 1 k "default" None None None None 0.
Definition demo_c1 : QueuedWork := mk_work 0 (demo_work "c1" CHAT_UNARY) 2 1 13.
Definition demo_c2 : QueuedWork := mk_work 0 (demo_work "c2" CHAT_STREAM) 3 1 14.
Definition sched0 : Sched := sched_init demo_world0 10.
Definition sched1 : Sched := (submit 0 (demo_work "m1" SESSION_MESSAGE) 1 1 sched0).2.
Definition sched2 : Sched := (submit 0 (demo_work "c1" CHAT_UNARY) 2 1 sched1).2.
Definition sched3 : Sched := (submit 0 (demo_work "c2" CHAT_STREAM) 3 1 sched2).2.
Definition sched4 : Sched := default sched3 (proc_run 10 sched3).
Definition sched5 : Sched :=
  finish_task 15 (with_completions (<[15 := Value 7]> (completions sched4)) sched4).
Definition sched6 : Sched := default sched5 (proc_run 10 sched5).

Lemma sched0_reachable : reachable sched0.
Proof. exists demo_world0, 10. split; [intros t Ht; set_solver|apply rtc_refl]. Defined.

Lemma reachable_step s s' : reachable s → sched_step s s' → reachable s'.
Proof.
  intros (w & n & Hw & Hs) Hst. exists w, n. split; [done|]. by eapply rtc_r.
Qed.

Ltac submit_step :=
  apply step_submit; let Hl := fresh "Hl" in let Hn := fresh "Hn" in
  intros ? ? Hl Hn; vm_compute in Hl; injection Hl as <-; vm_compute in Hn;
  injection Hn as <-; reflexivity.

Lemma sched1_reachable : reachable sched1.
Proof.
  apply (reachable_step sched0); [exact sched0_reachable|]. apply step_submit.
  intros l ln Hl. discriminate Hl.
Defined.

Lemma sched2_reachable : reachable sched2.
Proof. apply (reachable_step sched1); [exact sched1_reachable|submit_step]. Defined.

Lemma sched3_reachable : reachable sched3.
Proof. apply (reachable_step sched2); [exact sched2_reachable|submit_step]. Defined.

Lemma sched4_step : sched_step sched3 sched4.
Proof. apply (step_process _ 10). vm_compute; reflexivity. Defined.

Lemma sched4_reachable : reachable sched4.
Proof. eapply reachable_step; [exact sched3_reachable|exact sched4_step]. Defined.

Lemma sched5_reachable : reachable sched5.
Proof.
  eapply reachable_step; [exact sched4_reachable|].
  apply (step_complete sched4 15 (Value 7) (10, demo_c2)); vm_compute; reflexivity.
Defined.

Lemma sched6_reachable : reachable sched6.
Proof.
  eapply reachable_step; [exact sched5_reachable|]. apply (step_process _ 10). vm_compute; reflexivity.
Defined.

Lemma one_operation_per_lane_witness : ∃ q1 q2,
  op_tasks sched6 !! 15 = Some (10, q1) ∧ op_tasks sched6 !! 16 = Some (10, q2) ∧
  (qw_result q1 = qw_result q2 → 15 = 16).
Proof.
  exists demo_c2, demo_c1. split; [vm_compute; reflexivity|split; [vm_compute; reflexivity|]].
  apply (one_operation_per_lane sched6 15 16 10 10); [exact sched6_reachable|vm_compute; reflexivity..].
Defined.

Lemma served_in_order_witness : ∃ e,
  first_served sched4 (lane_queue sched3 10) e ∧ work_id (e_work e) = "c2".
Proof.
  destruct (served_in_order sched3 sched4 10 15 demo_c2)
    as (e & He & Hw); [exact sched3_reachable|vm_compute; reflexivity|vm_compute; reflexivity|vm_compute; reflexivity|].
  exists e. split; [exact He|]. rewrite Hw. vm_compute; reflexivity.
Defined.

(** The newest chat turn gives up before the processor runs; the other one starts. *)
Definition sched3c : Sched := settle 14 Cancelled sched3.
Definition sched4c : Sched := default sched3c (proc_run 10 sched3c).

Lemma cancelled_never_runs_witness : ∃ q,
  op_tasks sched4c !! 15 = Some (10, q) ∧ qw_result q ≠ 14.
Proof.
  exists demo_c1. split; [vm_compute; reflexivity|].
  apply (cancelled_never_runs sched3c sched4c 14 15 10).
  - eapply reachable_step; [exact sched3_reachable|apply step_submitter_cancelled].
  - vm_compute; reflexivity.
  - intros t l q Ho. discriminate Ho.
  - eapply rtc_l; [apply (step_process _ 10); vm_compute; reflexivity|apply rtc_refl].
  - vm_compute; reflexivity.
Defined.

Lemma submission_served_witness : ∃ l,
  (is_Some (proc_run l sched4) ∨
     ∃ q t, proc_at sched4 !! l = Some (AtTask q t) ∧ task_done sched4 t = false).
Proof.
  destruct (submission_served sched4 12) as (l & Hl & _).
  - exact sched4_reachable.
  - vm_compute; reflexivity.
  - exists l. exact Hl.
Defined.

Lemma outcome_delivered_witness :
  ∃ s', proc_run 10 sched5 = Some s' ∧ futures s' !! 14 = Some (Some (Value 7)).
Proof.
  apply (outcome_delivered sched5 10 demo_c2 15 (Value 7));
    [exact sched5_reachable|vm_compute; reflexivity..].
Defined.

Lemma submit_behaviour_witness :
  ∃ f s', submit 0 (demo_work "m1" SESSION_MESSAGE) 1 1 sched0 = (Ret f, s') ∧
    futures s' !! f = Some None.
Proof.
  pose proof (submit_behaviour sched0 0 (demo_work "m1" SESSION_MESSAGE) 1 1 sched0_reachable) as H.
  destruct (submit 0 (demo_work "m1" SESSION_MESSAGE) 1 1 sched0) as [[f|e] s'] eqn:Hs.
  - exists f, s'. split; [vm_compute; reflexivity|]. exact (proj1 (proj2 (proj2 (proj2 H)))).
  - vm_compute in Hs. discriminate Hs.
Defined.

Lemma close_session_settles_witness :
  lane_queue (close_session_begin None "s1" None sched4).2 10 = [].
Proof.
  destruct (lane_heap sched4 !! 10) as [ln|] eqn:Hl; [|discriminate Hl].
  pose proof (close_session_settles sched4 None "s1" None 10 ln sched4_reachable eq_refl Hl) as H.
  destruct (close_session_begin None "s1" None sched4) as [r s'].
  destruct H as [(H & _)|(_ & _ & H & _)]; [destruct H|exact H].
Defined.
