(* ===== verification/Coordinator.v ===== *)
(** * The Session coordinator

    Source: [jiuwenswarm/runtime/session/coordinator.py].

    [Coord] is the state of [RuntimeSessionCoordinator]: the scheduler (whose
    [world] holds the execution registry and the handles), the session records
    (mutable objects, by reference), the generations, and the answers being
    delivered.  A synchronous method is one call; an [async] method is split at
    its awaits into the calls [..._begin], [..._end] and the like, each of which
    runs without interruption.  What an awaited operation does is its outcome,
    an argument of the call that follows it.

    The fences of deleted and archived Sessions live on disk: [fence] is what
    [lifecycle.guard] raises for a Session, if it raises. *)

From S2P Require Import Prelude OrderedDict SessionModel ExecutionRegistry WorkScheduler.

(** ** State *)

Inductive coordinator_error :=
| CoordValueError (msg : string)
| CoordRuntimeError (msg : string)
| CoordKeyError (key : string)
| LifecycleFenced (msg : string)
| AnswerInFlightError (msg : string)
| NoControlTargetError (msg : string)
| SessionExecutionEndedError (msg : string)
| SessionInputRejectedError (msg : string)
| SessionInputTargetError (msg : string)
| CoordTimeoutError (msg : string)
| CoordCancelledError (msg : string)
| OperationError (msg : string).

(** [_Delivery]; its event is a number, set once it is in [settled]. *)
Record Delivery := mk_delivery {
  answered : gset string;
  settled_event : nat;
}.

(** [_SessionRecord] *)
Record SessionRecord := mk_record {
  rec_session_id : string;
  rec_channel_id : string;
  rec_persistence_policy : SessionPersistencePolicy;
  rec_generation : Z;
  rec_state : RuntimeSessionState;
  control_ready : bool;
  deliveries : odict string Delivery;
}.

Abbreviation rec_ref := nat (only parsing).

Record Coord := mk_coord {
  co_sched : Sched;
  co_records : gmap rec_ref SessionRecord;
  sessions : odict string rec_ref;
  generations : gmap string Z;
  accepting : bool;
  settled : gset nat;
  fence : string → option string;
}.

Abbreviation coord := (py Coord coordinator_error).

Definition with_sched (s : Sched) (c : Coord) : Coord :=
  mk_coord s (co_records c) (sessions c) (generations c) (accepting c) (settled c) (fence c).
Definition with_records (m : gmap rec_ref SessionRecord) (c : Coord) : Coord :=
  mk_coord (co_sched c) m (sessions c) (generations c) (accepting c) (settled c) (fence c).
Definition with_sessions (s : odict string rec_ref) (c : Coord) : Coord :=
  mk_coord (co_sched c) (co_records c) s (generations c) (accepting c) (settled c) (fence c).
Definition with_generations (g : gmap string Z) (c : Coord) : Coord :=
  mk_coord (co_sched c) (co_records c) (sessions c) g (accepting c) (settled c) (fence c).
Definition with_accepting (b : bool) (c : Coord) : Coord :=
  mk_coord (co_sched c) (co_records c) (sessions c) (generations c) b (settled c) (fence c).
Definition with_settled (e : gset nat) (c : Coord) : Coord :=
  mk_coord (co_sched c) (co_records c) (sessions c) (generations c) (accepting c) e (fence c).

Definition cworld (c : Coord) : World := world (co_sched c).
Definition with_cworld (w : World) (c : Coord) : Coord := with_sched (with_world w (co_sched c)) c.

(** A registry method that cannot raise, and one that can. *)
Definition reg_do (f : World → World) : coord unit := py_modify (λ c, with_cworld (f (cworld c)) c).
Definition reg_get {A} (f : World → A * World) : coord A :=
  λ c, let '(a, w) := f (cworld c) in (Ret a, with_cworld w c).
Definition reg_call {A} (m : py World registry_error A) : coord A :=
  λ c, match m (cworld c) with
       | (Ret a, w) => (Ret a, with_cworld w c)
       | (Exc (ValueError msg), w) => (Exc (CoordValueError msg), with_cworld w c)
       end.

(** A new object. *)
Definition new_ref : coord nat :=
  λ c, let n := next_ref (co_sched c) in (Ret n, with_sched (with_next_ref (S n) (co_sched c)) c).

(** The fields of the handle [r]; a reference always has an object. *)
Definition blank_handle : SessionExecutionHandle :=
  new_handle (mk_ident "" "" "" 0 CHAT_UNARY "" None None None None 0) None.
Definition handle_in (w : World) (r : href) : SessionExecutionHandle :=
  default blank_handle (hget w r).
Definition handle (c : Coord) (r : href) : SessionExecutionHandle := handle_in (cworld c) r.

Definition blank_record : SessionRecord :=
  mk_record "" "" PERSISTENT_POLICY 0 CLOSED true [].
Definition record (c : Coord) (r : rec_ref) : SessionRecord := default blank_record (co_records c !! r).
Definition upd_record (r : rec_ref) (f : SessionRecord → SessionRecord) : coord unit :=
  py_modify (λ c, with_records (alter f r (co_records c)) c).

Definition set_rec_state (st : RuntimeSessionState) (r : SessionRecord) : SessionRecord :=
  mk_record (rec_session_id r) (rec_channel_id r) (rec_persistence_policy r) (rec_generation r)
    st (control_ready r) (deliveries r).
Definition set_control_ready (b : bool) (r : SessionRecord) : SessionRecord :=
  mk_record (rec_session_id r) (rec_channel_id r) (rec_persistence_policy r) (rec_generation r)
    (rec_state r) b (deliveries r).
Definition set_deliveries (d : odict string Delivery) (r : SessionRecord) : SessionRecord :=
  mk_record (rec_session_id r) (rec_channel_id r) (rec_persistence_policy r) (rec_generation r)
    (rec_state r) (control_ready r) d.
Definition set_rec_channel (ch : string) (p : SessionPersistencePolicy) (r : SessionRecord)
    : SessionRecord :=
  mk_record (rec_session_id r) ch p (rec_generation r) (rec_state r) (control_ready r)
    (deliveries r).

(** [record.state in {QUIESCING, CLOSED}] *)
Definition fenced (st : RuntimeSessionState) : bool :=
  match st with QUIESCING | CLOSED => true | READY | ACTIVE => false end.

(** [for x in l: body] *)
Fixpoint py_for {S E A} (l : list A) (body : A → py S E unit) : py S E unit :=
  match l with
  | [] => py_ret tt
  | x :: l' => body x ;; py_for l' body
  end.

(** [try: m finally: f], where [f] does not raise *)
Definition py_finally {S E A} (m : py S E A) (f : py S E unit) : py S E A :=
  λ s, let '(o, s1) := m s in (o, (f s1).2).

(** ** Selections

    [registry.select] for the record's Session and generation *)
Definition select_record (rec : rec_ref) (rid : option string) (active_only : bool)
    : coord (list href) :=
  λ c, reg_get (select (rec_session_id (record c rec)) rid None
                  (Some (rec_generation (record c rec))) active_only) c.

(** [max(parents, key=...)]: the first of the largest *)
Fixpoint py_max {A} (key : A → Z) (best : A) (l : list A) : A :=
  match l with
  | [] => best
  | x :: l' => py_max key (if Z.ltb (key best) (key x) then x else best) l'
  end.

(** [handle.started_at or handle.created_at] *)
Definition start_key (h : SessionExecutionHandle) : Z :=
  match started_at h with
  | Some t => if Z.eqb t 0 then h_created_at h else t
  | None => h_created_at h
  end.

Definition deliverable (h : SessionExecutionHandle) : bool :=
  match state h with RUNNING | WAITING_FOR_CONTROL => true | _ => false end.

(** The test of the loop of [_control_parent] *)
Definition answers (rid : string) (h : SessionExecutionHandle) : bool :=
  negb (cancellation_requested h) && bool_decide (rid ∈ waiting_control_ids h) && deliverable h.

(** [_control_parent] *)
Definition control_parent (rec : rec_ref) (rid : string) : coord (option href) :=
  active <- select_record rec None true ;;
  c <- py_get ;;
  let parents := filter (λ r, answers rid (handle c r) = true) active in
  py_ret (match parents with
          | [] => None
          | p :: ps => Some (py_max (λ r, start_key (handle c r)) p ps)
          end).

(** [_control_target] *)
Fixpoint control_target (rec : rec_ref) (names : list string) : coord (option (href * string)) :=
  match names with
  | [] => py_ret None
  | rid :: names' =>
      parent <- control_parent rec rid ;;
      match parent with
      | Some p => py_ret (Some (p, rid))
      | None => control_target rec names'
      end
  end.

(** [_claimed_execution_id] and [_is_control_claimed] *)
Definition claimed_execution_id (r : SessionRecord) (rid : string) : option string :=
  head (od_keys (filter (λ kv, rid ∈ answered kv.2) (deliveries r))).
Definition is_control_claimed (r : SessionRecord) (rid : string) : bool :=
  match claimed_execution_id r rid with Some _ => true | None => false end.

(** [_claimed_control_parent] *)
Definition claimed_control_parent (rec : rec_ref) (rid : string) : coord (option href) :=
  c <- py_get ;;
  match claimed_execution_id (record c rec) rid with
  | None => py_ret None
  | Some eid => reg_get (get_execution eid)
  end.

(** The loop of [_ancestor_of_kind]; [origin] is the handle it started from *)
Fixpoint ancestor_loop (fuel : nat) (origin : SessionExecutionHandle) (kind : SessionWorkKind)
    (seen : gset string) (current : href) : coord (option href) :=
  c <- py_get ;;
  let h := handle c current in
  if bool_decide (h_execution_id h ∈ seen) then py_ret None
  else if bool_decide (h_work_kind h = kind) then py_ret (Some current)
  else match h_parent h with
       | None => py_ret None
       | Some p =>
           parent <- reg_get (get_execution p) ;;
           match parent with
           | None => py_ret None
           | Some r =>
               c <- py_get ;;
               let ph := handle c r in
               if bool_decide (h_session_id ph = h_session_id origin)
                  && bool_decide (h_generation ph = h_generation origin)
               then match fuel with
                    | O => py_ret None
                    | S n => ancestor_loop n origin kind ({[h_execution_id h]} ∪ seen) r
                    end
               else py_ret None
           end
       end.

(** [_ancestor_of_kind]; the loop visits each registered execution once *)
Definition ancestor_of_kind (r : href) (kind : SessionWorkKind) : coord (option href) :=
  c <- py_get ;;
  ancestor_loop (S (length (executions (cworld c)))) (handle c r) kind ∅ r.

(** The loop of [_in_execution_lineage] *)
Fixpoint lineage_loop (fuel : nat) (owner : SessionExecutionHandle) (eid : string)
    (ancestor : href) : coord bool :=
  c <- py_get ;;
  let h := handle c ancestor in
  if bool_decide (h_session_id h = h_session_id owner)
     && bool_decide (h_generation h = h_generation owner)
  then
    if bool_decide (h_execution_id h = eid) then py_ret true
    else match h_parent h with
         | None => py_ret false
         | Some p =>
             if str_true p then
               parent <- reg_get (get_execution p) ;;
               match parent, fuel with
               | Some r, S n => lineage_loop n owner eid r
               | _, _ => py_ret false
               end
             else py_ret false
         end
  else py_ret false.

(** [_in_execution_lineage]; an execution is created after its parent *)
Definition in_execution_lineage (owner : href) (eid : string) : coord bool :=
  c <- py_get ;;
  lineage_loop (S (length (executions (cworld c)))) (handle c owner) eid owner.

(** ** Session records *)

(** [_refresh_control_gate] with the active executions given *)
Definition refresh_control_gate_with (rec : rec_ref) (active : list href) : coord unit :=
  c <- py_get ;;
  upd_record rec (set_control_ready
    (negb (existsb (λ r, negb (bool_decide (waiting_control_ids (handle c r) = ∅))) active))).

(** [_refresh_control_gate(record)] *)
Definition refresh_control_gate (rec : rec_ref) : coord unit :=
  active <- select_record rec None true ;;
  refresh_control_gate_with rec active.

(** [_refresh_session_state] *)
Definition refresh_session_state (rec : rec_ref) : coord unit :=
  c <- py_get ;;
  if negb (bool_decide (od_get (sessions c) (rec_session_id (record c rec)) = Some rec))
     || fenced (rec_state (record c rec))
  then py_ret tt
  else
    active <- select_record rec None true ;;
    refresh_control_gate_with rec active ;;
    upd_record rec (set_rec_state (match active with [] => READY | _ => ACTIVE end)).

(** [_snapshot] *)
Definition session_snapshot (rec : rec_ref) : coord RuntimeSessionSnapshot :=
  c <- py_get ;;
  let r := record c rec in
  execs <- reg_get (snapshots_for_session (rec_session_id r) (Some (rec_generation r))) ;;
  py_ret (mk_session_snapshot (rec_session_id r) (rec_channel_id r) (rec_persistence_policy r)
            (rec_generation r) (rec_state r) execs).

(** [register_session], under its lock *)
Definition register_session (sid channel : string) (policy : SessionPersistencePolicy)
    : coord RuntimeSessionSnapshot :=
  let normalized := py_strip sid in
  py_guard (str_true normalized) (CoordValueError "session_id is required") ;;
  c <- py_get ;;
  py_guard (accepting c) (CoordRuntimeError "session coordinator is closed") ;;
  let renew : coord rec_ref :=
    let gen := (default 0 (generations c !! normalized) + 1)%Z in
    rec <- new_ref ;;
    py_modify (λ c,
      with_sessions (od_set (sessions c) normalized rec)
        (with_records (<[rec := mk_record normalized (str_or channel "default") policy gen READY
                                  true []]> (co_records c))
           (with_generations (<[normalized := gen]> (generations c)) c))) ;;
    py_ret rec in
  rec <- match od_get (sessions c) normalized with
         | Some rec =>
             if bool_decide (rec_state (record c rec) = CLOSED) then renew
             else upd_record rec (λ r, set_rec_channel (str_or channel (rec_channel_id r)) policy r) ;;
                  py_ret rec
         | None => renew
         end ;;
  session_snapshot rec.

(** [_require_open_session] *)
Definition require_open_session (sid : string) : coord rec_ref :=
  c <- py_get ;;
  match fence c sid with
  | Some msg => py_raise (LifecycleFenced msg)
  | None =>
      py_guard (accepting c) (CoordRuntimeError "session coordinator is closed") ;;
      rec <- py_some (od_get (sessions c) sid)
               (CoordRuntimeError ("session is not registered: " +:+ sid)) ;;
      py_guard (negb (fenced (rec_state (record c rec))))
        (CoordRuntimeError ("session is not accepting work: " +:+ sid)) ;;
      py_ret rec
  end.

(** ** New executions *)

(** [work_kind in _TEAM_WORK_KINDS] *)
Definition is_team_kind (k : SessionWorkKind) : bool :=
  match k with TEAM_REQUEST | TEAM_CONTROL | TEAM_BACKGROUND => true | _ => false end.

(** [superseded_kinds] for a new execution of kind [k] *)
Definition supersedes (k previous : SessionWorkKind) : bool :=
  match k, previous with
  | (CHAT_UNARY | CHAT_STREAM), (CHAT_UNARY | CHAT_STREAM | HEARTBEAT) => true
  | GOAL_STREAM, (GOAL_STREAM | GOAL_ATTACH) => true
  | _, _ => false
  end.

Definition has_superseded (k : SessionWorkKind) : bool :=
  match k with CHAT_UNARY | CHAT_STREAM | GOAL_STREAM => true | _ => false end.

(** The loop that cancels what the new execution supersedes *)
Definition supersede (k : SessionWorkKind) (r : href) : coord unit :=
  c <- py_get ;;
  let h := handle c r in
  if supersedes k (h_work_kind h) && bool_decide (state h = WAITING_FOR_CONTROL)
  then reg_do (hupd r (set_cancellation_requested true)) ;;
       reg_call (mark_terminal r CANCELLED None)
  else py_ret tt.

(** The identity [_new_execution] gives a handle; [parent] is its parent if it is
    still registered. *)
Definition execution_ident (c : Coord) (rec : rec_ref) (uuid rid : string) (k : SessionWorkKind)
    (parent_id : option string) (channel : string) (team : option TeamExecutionDetails)
    (parent : option href) : HandleIdent :=
  let ph := handle c <$> parent in
  mk_ident uuid (rec_session_id (record c rec)) rid (rec_generation (record c rec)) k channel team
    parent_id
    ((λ h, default (h_work_kind h) (root_work_kind (ident h))) <$> ph)
    ((λ h, str_or (default EmptyString (root_request_id (ident h))) (h_request_id h)) <$> ph)
    (clock (cworld c)).

(** The end of [_new_execution]: the handle is built and registered *)
Definition create_execution (rec : rec_ref) (uuid rid : string) (k : SessionWorkKind)
    (parent_id : option string) (channel : string) (team : option TeamExecutionDetails)
    (parent : option href) : coord href :=
  c <- py_get ;;
  r <- new_ref ;;
  reg_do (λ w, with_heap
    (<[r := new_handle (execution_ident c rec uuid rid k parent_id channel team parent)
              (p ← parent; agent (handle c p))]> (heap w)) w) ;;
  reg_call (register r) ;;
  upd_record rec (set_rec_state ACTIVE) ;;
  py_ret r.

(** [_new_execution]; [uuid] is [uuid.uuid4().hex] *)
Definition new_execution (rec : rec_ref) (uuid rid : string) (k : SessionWorkKind)
    (parent_id : option string) (channel : string) (team : option TeamExecutionDetails)
    : coord href :=
  py_guard (Bool.eqb (is_team_kind k) (match team with Some _ => true | None => false end))
    (CoordValueError "Team execution details must match the work kind") ;;
  (if has_superseded k then
     previous <- select_record rec None true ;;
     py_for previous (supersede k)
   else py_ret tt) ;;
  parent <- match parent_id with
            | Some p => if str_true p then reg_get (get_execution p) else py_ret None
            | None => py_ret None
            end ;;
  create_execution rec uuid rid k parent_id channel team parent.

(** [team_target] of [run_unary] and [_run_stream] *)
Definition team_target (rec : rec_ref) (k : SessionWorkKind) (team : option TeamExecutionDetails)
    : coord (option (href * string)) :=
  match k, team ≫= control_id with
  | TEAM_CONTROL, Some cid => if str_true cid then control_target rec [cid] else py_ret None
  | _, _ => py_ret None
  end.

(** [_answered] *)
Definition answered_by (parent : href) (claimed : gset string) (was_waiting : bool) : coord unit :=
  reg_do (hupd parent (λ h, set_waiting (waiting_control_ids h ∖ claimed) h)) ;;
  c <- py_get ;;
  let h := handle c parent in
  if was_waiting || bool_decide (state h = WAITING_FOR_CONTROL) then
    if bool_decide (waiting_control_ids h = ∅)
    then reg_call (mark_terminal parent SUCCEEDED None)
    else reg_do (mark_waiting parent)
  else py_ret tt.

(** ** Unary work *)

(** [run_unary] up to [_run_unary] *)
Definition run_unary_begin (sid rid : string) (k : SessionWorkKind) (uuid : string)
    (team : option TeamExecutionDetails) (wait_for_terminal : bool)
    : coord (rec_ref * href * option (href * string)) :=
  rec <- require_open_session sid ;;
  target <- team_target rec k team ;;
  r <- new_execution rec uuid rid k None "default" team ;;
  reg_do (hupd r (set_retain_owner_task wait_for_terminal)) ;;
  py_ret (rec, r, target).

(** [run_unary] after [_run_unary] *)
Definition run_unary_end (rec : rec_ref) (target : option (href * string)) : coord unit :=
  match target with
  | None => py_ret tt
  | Some (parent, cid) =>
      c <- py_get ;;
      match team (ident (handle c parent)) with
      | None => py_ret tt
      | Some _ => answered_by parent {[cid]} false ;; refresh_session_state rec
      end
  end.

(** [submit_unary]: the snapshot it returns, and the handle when it created one *)
Definition submit_unary (sid rid : string) (k : SessionWorkKind) (uuid : string)
    (task : task_ref) : coord (SessionExecutionSnapshot * option href) :=
  rec <- require_open_session sid ;;
  c <- py_get ;;
  existing <- reg_get (select sid (Some rid) None (Some (rec_generation (record c rec))) false) ;;
  c <- py_get ;;
  match last existing with
  | Some r =>
      py_guard (bool_decide (h_work_kind (handle c r) = k))
        (CoordValueError ("request_id already belongs to "
           +:+ work_kind_value (h_work_kind (handle c r)))) ;;
      py_ret (snapshot (handle c r), None)
  | None =>
      r <- new_execution rec uuid rid k None "default" None ;;
      reg_do (hupd r (set_task (Some task))) ;;
      c <- py_get ;;
      py_ret (snapshot (handle c r), Some r)
  end.

(** [tracked] up to [await operation()] *)
Definition tracked_begin (rec : rec_ref) (r : href) : coord unit :=
  reg_do (mark_running r) ;;
  upd_record rec (set_rec_state ACTIVE).

(** How an awaited operation ended, with the interactions its value names. *)
Inductive op_outcome :=
| Returned_ids (ids : option (gset string))
| Cancelled_with (msg : string)
| Raised_with (msg : string).

(** [tracked] after [await operation()]; [expired] is the deadline's state *)
Definition tracked_end (rec : rec_ref) (r : href) (o : op_outcome) (expired : bool)
    (timeout_error : string) : coord unit :=
  py_finally
    (match o with
     | Cancelled_with msg =>
         reg_call (mark_terminal r (if expired then FAILED else CANCELLED)
                     (Some (if expired then timeout_error else msg))) ;;
         py_raise (CoordCancelledError msg)
     | Raised_with msg =>
         reg_call (mark_terminal r FAILED (Some msg)) ;;
         py_raise (OperationError msg)
     | Returned_ids ids =>
         if expired then
           reg_call (mark_terminal r FAILED (Some timeout_error)) ;;
           py_raise (CoordTimeoutError timeout_error)
         else
           match ids with
           | Some ids => reg_do (mark_awaiting_control r ids)
           | None => py_ret tt
           end ;;
           c <- py_get ;;
           if bool_decide (waiting_control_ids (handle c r) = ∅)
           then reg_call (mark_terminal r SUCCEEDED None)
           else reg_do (mark_waiting r)
     end)
    (refresh_session_state rec).

(** [_run_unary] up to where its work runs: scheduled work is submitted (the
    future it awaits), other work gets the caller's task and starts. *)
Definition run_unary_start (rec : rec_ref) (r : href) (op ctx : obj) (me : task_ref)
    : coord (option future_ref) :=
  c <- py_get ;;
  if scheduled (h_work_kind (handle c r)) then
    λ c, match submit r (ident (handle c r)) op ctx (co_sched c) with
         | (Ret f, s) => (Ret (Some f), with_sched s c)
         | (Exc (RuntimeError msg), s) => (Exc (CoordRuntimeError msg), with_sched s c)
         end
  else
    reg_do (hupd r (set_task (Some me))) ;;
    tracked_begin rec r ;;
    py_ret None.

(** The wait for the terminal event, for work that has not ended, and what
    follows it. *)
Definition await_terminal_begin (r : href) (me : task_ref) : coord bool :=
  c <- py_get ;;
  if terminal (state (handle c r)) then py_ret false
  else reg_do (hupd r (set_task (Some me))) ;; py_ret true.

Definition await_terminal_end (r : href) : coord unit :=
  c <- py_get ;;
  match state (handle c r) with
  | CANCELLED =>
      py_raise (CoordCancelledError (str_or (default EmptyString (error (handle c r)))
                                       "execution cancelled"))
  | FAILED =>
      py_raise (CoordRuntimeError (str_or (default EmptyString (error (handle c r)))
                                     "execution failed"))
  | _ => py_ret tt
  end.

(** The handler of [CancelledError] in [_run_unary]: up to the wait of
    [cancel_handles], and up to [_cancel_descendants] *)
Definition run_unary_cancel_begin (r : href) : coord (odict string task_ref) :=
  reg_do (hupd r (set_cancellation_requested true)) ;;
  c <- py_get ;;
  if scheduled (h_work_kind (handle c r)) then
    λ c, let '(targets, s) := cancel_begin [r] (co_sched c) in (Ret targets, with_sched s c)
  else py_ret [].

Definition run_unary_cancel_settle (r : href) (expired : bool) (timeout_error : string)
    : coord unit :=
  c <- py_get ;;
  if terminal (state (handle c r)) then py_ret tt
  else reg_call (mark_terminal r (if expired then FAILED else CANCELLED)
                   (if expired then Some timeout_error else None)).

(** The [finally] of [_run_unary] *)
Definition run_unary_finally (r : href) (me : task_ref) : coord unit :=
  c <- py_get ;;
  let h := handle c r in
  if negb (scheduled (h_work_kind h)) && negb (retain_owner_task h)
     && bool_decide (task h = Some me)
  then reg_do (hupd r (set_task None)) else py_ret tt.

(** [task.add_done_callback(lambda task: release_owner_task(handle, task))] *)
Definition owner_task_done (r : href) (t : task_ref) : coord unit := reg_do (release_owner_task r t).

(** ** Queries and small commands *)

(** The first handle of a list that passes a test *)
Definition find_handle (c : Coord) (p : SessionExecutionHandle → bool) (l : list href) : option href :=
  head (filter (λ r, p (handle c r) = true) l).

(** [record_interaction]: whether an execution took the interaction *)
Definition record_interaction (sid rid : string) (ids : gset string) : coord bool :=
  c <- py_get ;;
  match od_get (sessions c) sid with
  | None => py_ret false
  | Some rec =>
      if bool_decide (rec_state (record c rec) = ACTIVE) then
        active <- reg_get (select sid (Some rid) None (Some (rec_generation (record c rec))) true) ;;
        c <- py_get ;;
        match find_handle c (λ h, bool_decide (state h = RUNNING)) active with
        | None => py_ret false
        | Some r =>
            reg_do (mark_awaiting_control r ids) ;;
            refresh_control_gate rec ;;
            py_ret true
        end
      else py_ret false
  end.

(** [bind_agent] *)
Definition bind_agent (sid rid : string) (a : agent_ref) : coord unit :=
  c <- py_get ;;
  match od_get (sessions c) sid with
  | None => py_ret tt
  | Some rec =>
      active <- reg_get (select sid (Some rid) None (Some (rec_generation (record c rec))) true) ;;
      py_for active (λ r, reg_do (hupd r (set_agent (Some a))))
  end.

(** The record of a Session that is not closed *)
Definition live_record (c : Coord) (sid : string) : option rec_ref :=
  match od_get (sessions c) sid with
  | Some rec => if bool_decide (rec_state (record c rec) = CLOSED) then None else Some rec
  | None => None
  end.

(** [control_target_agent] *)
Definition control_target_agent (sid : string) (names : list string) : coord (option agent_ref) :=
  c <- py_get ;;
  match live_record c sid with
  | None => py_ret None
  | Some rec =>
      target <- control_target rec names ;;
      c <- py_get ;;
      py_ret (match target with Some (p, _) => agent (handle c p) | None => None end)
  end.

(** [has_control_target] *)
Definition has_control_target (sid rid : string) : coord bool :=
  c <- py_get ;;
  match live_record c sid with
  | None => py_ret false
  | Some rec =>
      if is_control_claimed (record c rec) rid then py_ret true
      else parent <- control_parent rec rid ;;
           py_ret (match parent with Some _ => true | None => false end)
  end.

(** [recoverable_control] *)
Definition recoverable_control (sid rid eid : string) : coord (option SessionExecutionSnapshot) :=
  c <- py_get ;;
  match live_record c sid with
  | None => py_ret None
  | Some rec =>
      if fenced (rec_state (record c rec)) || is_control_claimed (record c rec) rid
      then py_ret None
      else
        owner <- control_parent rec rid ;;
        c <- py_get ;;
        match owner with
        | None => py_ret None
        | Some r =>
            if od_mem (deliveries (record c rec)) (h_execution_id (handle c r)) then py_ret None
            else
              related <- in_execution_lineage r eid ;;
              c <- py_get ;;
              py_ret (if related : bool then Some (snapshot (handle c r)) else None)
        end
  end.

(** [waiting_interactions] *)
Definition waiting_interactions (sid rid : string) : coord (gset string) :=
  c <- py_get ;;
  match live_record c sid with
  | None => py_ret ∅
  | Some rec =>
      parent <- control_parent rec rid ;;
      c <- py_get ;;
      py_ret (match parent with Some r => waiting_control_ids (handle c r) | None => ∅ end)
  end.

(** [unanswered_interactions] *)
Definition unanswered_interactions (sid : string) : coord (gset string) :=
  c <- py_get ;;
  match live_record c sid with
  | None => py_ret ∅
  | Some rec =>
      active <- reg_get (select sid None None (Some (rec_generation (record c rec))) true) ;;
      c <- py_get ;;
      let waiting := ⋃ map (λ r, waiting_control_ids (handle c r)) active in
      py_ret (waiting ∖ ⋃ map answered (od_values (deliveries (record c rec))))
  end.

(** [control_target_work_kind] *)
Definition control_target_work_kind (sid rid : string) : coord (option SessionWorkKind) :=
  c <- py_get ;;
  match live_record c sid with
  | None => py_ret None
  | Some rec =>
      parent <- control_parent rec rid ;;
      parent <- match parent with
                | Some p => py_ret (Some p)
                | None => claimed_control_parent rec rid
                end ;;
      root <- match parent with
              | None => py_ret None
              | Some p => ancestor_of_kind p HEARTBEAT
              end ;;
      c <- py_get ;;
      py_ret ((λ r, h_work_kind (handle c r)) <$> root)
  end.

(** [quiesce_session] *)
Definition quiesce_session (sid : string) (gen : option Z) : coord (option SessionLifecycleContext) :=
  c <- py_get ;;
  match live_record c sid with
  | None => py_ret None
  | Some rec =>
      let r := record c rec in
      if match gen with Some g => negb (bool_decide (rec_generation r = g)) | None => false end
      then py_ret None
      else upd_record rec (set_rec_state QUIESCING) ;;
           py_ret (Some (mk_lifecycle_context (rec_session_id r) (rec_generation r)))
  end.

Definition is_persistent (h : SessionExecutionHandle) : bool :=
  match team (ident h) with
  | Some d => bool_decide (waiter_kind d = WAITER_PERSISTENT)
  | None => false
  end.

(** The refresh the waiting commands end with *)
Definition refresh_generation (sid : string) (gen : Z) : coord unit :=
  c <- py_get ;;
  match od_get (sessions c) sid with
  | Some rec => if bool_decide (rec_generation (record c rec) = gen)
                then refresh_session_state rec else py_ret tt
  | None => py_ret tt
  end.

(** [mark_waiting_for_input] *)
Definition mark_waiting_for_input (eid : string) : coord bool :=
  found <- reg_get (get_execution eid) ;;
  c <- py_get ;;
  match found with
  | None => py_ret false
  | Some r =>
      let h := handle c r in
      if terminal (state h) || negb (is_persistent h) then py_ret false
      else
        reg_do (hupd r (set_state WAITING_FOR_INPUT)) ;;
        refresh_generation (h_session_id h) (h_generation h) ;;
        py_ret true
  end.

(** [mark_session_waiting_for_input] *)
Definition mark_session_waiting_for_input (sid : string) (gen : Z) : coord unit :=
  active <- reg_get (select sid None None (Some gen) true) ;;
  py_for active (λ r,
    c <- py_get ;;
    if is_persistent (handle c r) && bool_decide (state (handle c r) = RUNNING)
    then reg_do (hupd r (set_state WAITING_FOR_INPUT)) else py_ret tt) ;;
  refresh_generation sid gen.

(** [resume_waiting_for_input] *)
Definition resume_waiting_for_input (sid : string) (gen : Z) : coord unit :=
  active <- reg_get (select sid None None (Some gen) true) ;;
  py_for active (λ r,
    c <- py_get ;;
    if bool_decide (state (handle c r) = WAITING_FOR_INPUT)
    then reg_do (hupd r (set_state RUNNING)) else py_ret tt) ;;
  refresh_generation sid gen.

(** [get_execution], [snapshot_session], [snapshot_sessions] *)
Definition get_execution_snapshot (eid : string) : coord (option SessionExecutionSnapshot) :=
  found <- reg_get (get_execution eid) ;;
  c <- py_get ;;
  py_ret ((λ r, snapshot (handle c r)) <$> found).

Definition snapshot_session (sid : string) : coord (option RuntimeSessionSnapshot) :=
  c <- py_get ;;
  match od_get (sessions c) sid with
  | None => py_ret None
  | Some rec => s <- session_snapshot rec ;; py_ret (Some s)
  end.

Fixpoint snapshot_records (recs : list rec_ref) : coord (list RuntimeSessionSnapshot) :=
  match recs with
  | [] => py_ret []
  | rec :: recs' => s <- session_snapshot rec ;; ss <- snapshot_records recs' ;; py_ret (s :: ss)
  end.

Definition snapshot_sessions : coord (list RuntimeSessionSnapshot) :=
  c <- py_get ;; snapshot_records (od_values (sessions c)).

(** ** Delivering answers

    One round of the loop of [_claim_control_parent]: it claims the execution the
    answer names, or gives the execution that must be in its lineage after the
    wait for the delivery in flight, with the event it waits for. *)
Inductive claim :=
| Claimed (rec : rec_ref) (parent : href) (rid : string)
| WaitFor (eid : string) (event : nat).

Definition claim_control_parent (sid : string) (names : list string) (duplicate : string)
    (waiting_for : option string) : coord claim :=
  let named : gset string := list_to_set names in
  rec <- require_open_session sid ;;
  c <- py_get ;;
  py_guard (negb (existsb (λ d, bool_decide (named ⊆ answered d))
                    (od_values (deliveries (record c rec)))))
    (AnswerInFlightError duplicate) ;;
  target <- control_target rec names ;;
  match target with
  | None => py_raise (NoControlTargetError ("session has no active execution: " +:+ sid))
  | Some (parent, rid) =>
      related <- match waiting_for with
                 | Some eid => in_execution_lineage parent eid
                 | None => py_ret true
                 end ;;
      py_guard related (NoControlTargetError "the task awaiting this answer has ended") ;;
      c <- py_get ;;
      let eid := h_execution_id (handle c parent) in
      match od_get (deliveries (record c rec)) eid with
      | None =>
          event <- new_ref ;;
          upd_record rec (λ r, set_deliveries
            (od_set (deliveries r) eid (mk_delivery named event)) r) ;;
          py_ret (Claimed rec parent rid)
      | Some d =>
          root <- ancestor_of_kind parent HEARTBEAT ;;
          c <- py_get ;;
          py_ret (WaitFor (h_execution_id (handle c (default parent root))) (settled_event d))
      end
  end.

(** [_release_control_parent] *)
Definition release_control_parent (rec : rec_ref) (parent : href) : coord unit :=
  c <- py_get ;;
  let eid := h_execution_id (handle c parent) in
  d <- py_some (od_get (deliveries (record c rec)) eid) (CoordKeyError eid) ;;
  upd_record rec (λ r, set_deliveries (od_pop (deliveries r) eid) r) ;;
  py_modify (λ c, with_settled ({[settled_event d]} ∪ settled c) c).

(** The [finally] of a delivery *)
Definition delivery_finally {A} (rec : rec_ref) (parent : href) (m : coord A) : coord A :=
  λ c, match m c with
       | (o, c1) => match (release_control_parent rec parent ;; refresh_session_state rec) c1 with
                    | (Ret _, c2) => (o, c2)
                    | (Exc e, c2) => (Exc e, c2)
                    end
       end.

(** [deliver_control] and [deliver_control_stream] up to their operation: the
    claimed interactions, the new handle, and whether the parent was waiting
    (which creating the handle does not change). *)
Definition deliver_begin (rec : rec_ref) (parent : href) (rid uuid : string) (me : task_ref)
    : coord (gset string * href * bool) :=
  c <- py_get ;;
  let claimed := waiting_control_ids (handle c parent) in
  λ c0,
    match (r <- new_execution rec uuid rid CONTROL_INPUT
                 (Some (h_execution_id (handle c parent))) "default" None ;;
           c <- py_get ;;
           let was_waiting := bool_decide (state (handle c parent) = WAITING_FOR_CONTROL) in
           (if was_waiting then reg_do (resume_waiting parent) else py_ret tt) ;;
           reg_do (hupd r (set_task (Some me))) ;;
           reg_do (mark_running r) ;;
           py_ret (claimed, r, was_waiting)) c0 with
    | (Ret a, c1) => (Ret a, c1)
    | (Exc e, c1) => delivery_finally rec parent (py_raise e) c1
    end.

(** What a failed or cancelled delivery does to the handle and the parent *)
Definition deliver_failed (parent r : href) (was_waiting : bool) (st : SessionExecutionState)
    (msg : string) : coord unit :=
  reg_call (mark_terminal r st (Some msg)) ;;
  if was_waiting then reg_do (mark_waiting parent) else py_ret tt.

(** [deliver_control] after its operation *)
Definition deliver_control_end (sid : string) (rec : rec_ref) (parent r : href)
    (names : list string) (claimed : gset string) (was_waiting : bool) (o : op_outcome)
    : coord unit :=
  delivery_finally rec parent
    (match o with
     | Cancelled_with msg =>
         deliver_failed parent r was_waiting CANCELLED msg ;; py_raise (CoordCancelledError msg)
     | Raised_with msg =>
         deliver_failed parent r was_waiting FAILED msg ;; py_raise (OperationError msg)
     | Returned_ids ids =>
         c <- py_get ;;
         if terminal (state (handle c parent))
            || negb (bool_decide (od_get (sessions c) sid = Some rec))
            || fenced (rec_state (record c rec))
         then
           reg_call (mark_terminal r CANCELLED None) ;;
           py_raise (SessionExecutionEndedError "control input arrived after its execution ended")
         else
           let control_ids := default ∅ ids in
           claimed <- (if bool_decide (control_ids = ∅) then py_ret claimed
                       else message <- ancestor_of_kind parent SESSION_MESSAGE ;;
                            py_ret (match message with
                                    | None => list_to_set names ∪ control_ids
                                    | Some _ => claimed
                                    end)) ;;
           heartbeat <- ancestor_of_kind parent HEARTBEAT ;;
           match heartbeat with
           | Some root =>
               if bool_decide (control_ids = ∅) then
                 answered_by parent claimed was_waiting ;;
                 reg_call (mark_terminal r SUCCEEDED None)
               else
                 reg_do (hupd parent (λ h, set_waiting (waiting_control_ids h ∖ claimed) h)) ;;
                 reg_do (mark_awaiting_control root control_ids) ;;
                 reg_do (mark_waiting root) ;;
                 reg_call (mark_terminal r SUCCEEDED None)
           | None =>
               answered_by parent claimed was_waiting ;;
               if bool_decide (control_ids = ∅)
               then reg_call (mark_terminal r SUCCEEDED None)
               else reg_do (mark_awaiting_control r control_ids) ;; reg_do (mark_waiting r)
           end
     end).

(** One item of [deliver_control_stream]: the interactions reissued so far grow *)
Definition stream_item (rec : rec_ref) (r : href) (ids reissued : gset string)
    : coord (gset string) :=
  if bool_decide (ids = ∅) then py_ret reissued
  else reg_do (mark_awaiting_control r ids) ;;
       refresh_control_gate rec ;;
       py_ret (reissued ∪ ids).

(** [handle.task = None] if it is the caller's *)
Definition drop_own_task (r : href) (me : task_ref) : coord unit :=
  reg_do (hupd r (λ h, if bool_decide (task h = Some me) then set_task None h else h)).

(** [deliver_control_stream] once its stream ended *)
Definition deliver_stream_end (rec : rec_ref) (parent r : href) (names : list string)
    (claimed reissued : gset string) (was_waiting : bool) (me : task_ref) (o : op_outcome)
    : coord unit :=
  delivery_finally rec parent
    (py_finally
       (match o with
        | Cancelled_with msg =>
            deliver_failed parent r was_waiting CANCELLED msg ;; py_raise (CoordCancelledError msg)
        | Raised_with msg =>
            deliver_failed parent r was_waiting FAILED msg ;; py_raise (OperationError msg)
        | Returned_ids _ =>
            claimed <- (if bool_decide (reissued = ∅) then py_ret claimed
                        else message <- ancestor_of_kind parent SESSION_MESSAGE ;;
                             py_ret (match message with
                                     | None => list_to_set names ∪ reissued
                                     | Some _ => claimed
                                     end)) ;;
            answered_by parent claimed was_waiting ;;
            c <- py_get ;;
            if bool_decide (waiting_control_ids (handle c r) = ∅)
            then reg_call (mark_terminal r SUCCEEDED None)
            else reg_do (mark_waiting r)
        end)
       (drop_own_task r me)).

(** ** Streams *)

(** The kinds [stream_session_input] does not take for a task to supplement *)
Definition not_supplemented (k : SessionWorkKind) : bool :=
  match k with SESSION_INPUT | GOAL_CONTROL | GOAL_ATTACH => true | _ => false end.

(** [stream_session_input] up to its stream: the kind and the parent it runs with *)
Definition stream_session_input (sid : string) (expected : option string)
    : coord (SessionWorkKind * option string) :=
  rec <- require_open_session sid ;;
  c <- py_get ;;
  active <- reg_get (select sid None None (Some (rec_generation (record c rec))) true) ;;
  c <- py_get ;;
  py_guard (negb (existsb (λ r, negb (bool_decide (waiting_control_ids (handle c r) = ∅))) active))
    (SessionInputRejectedError "session is waiting for an interaction answer") ;;
  let parents := filter (λ r, bool_decide (state (handle c r) = RUNNING)
                              && negb (not_supplemented (h_work_kind (handle c r))) = true) active in
  py_guard (negb (existsb (λ r, cancellation_requested (handle c r)) parents))
    (SessionInputRejectedError "session execution is being cancelled") ;;
  let parent := (λ r, h_execution_id (handle c r)) <$> last parents in
  py_guard (match expected with
            | Some e => bool_decide (parent = Some e)
            | None => true
            end) (SessionInputTargetError "the targeted execution has ended or changed") ;;
  py_ret (match parent with Some _ => SESSION_INPUT | None => CHAT_STREAM end, parent).

(** The guards of [run_stream] and [run_team_stream] *)
Definition stream_kind_ok (team_entry : bool) (k : SessionWorkKind) : coord unit :=
  if team_entry
  then py_guard (is_team_kind k) (CoordValueError "non-Team work must use run_stream")
  else py_guard (negb (is_team_kind k)) (CoordValueError "Team work must use run_team_stream").

(** [use_lane] *)
Definition use_lane (k : SessionWorkKind) : bool :=
  scheduled k && negb (bool_decide (k = SESSION_MESSAGE)).

(** [_run_stream] up to the task it creates for [produce]; a stream that does not
    use the lane owns that task. *)
Definition run_stream_begin (team_entry : bool) (sid rid : string) (k : SessionWorkKind)
    (uuid : string) (parent_id : option string) (channel : string)
    (team : option TeamExecutionDetails) (task : task_ref)
    : coord (rec_ref * href * option (href * string)) :=
  stream_kind_ok team_entry k ;;
  rec <- require_open_session sid ;;
  target <- team_target rec k team ;;
  r <- new_execution rec uuid rid k parent_id channel team ;;
  (if use_lane k then py_ret tt else reg_do (hupd r (set_task (Some task)))) ;;
  py_ret (rec, r, target).

(** The context [run_team_stream] hands to the operation *)
Definition team_context (c : Coord) (r : href) (details : TeamExecutionDetails)
    : TeamExecutionContext :=
  let h := handle c r in
  mk_team_context
    (mk_execution_context (mk_lifecycle_context (h_session_id h) (h_generation h))
       (h_execution_id h) (h_request_id h) (h_work_kind h) (channel_id (ident h)))
    details.

(** [produce] after its stream ended: the terminal marker carries an error unless
    the stream was exhausted. *)
Definition produce_end (rec : rec_ref) (r : href) (target : option (href * string))
    (me : task_ref) (o : op_outcome) : coord (option string) :=
  marker <- match o with
            | Cancelled_with msg =>
                reg_call (mark_terminal r CANCELLED (Some msg)) ;; py_ret (Some msg)
            | Raised_with msg =>
                reg_call (mark_terminal r FAILED (Some msg)) ;; py_ret (Some msg)
            | Returned_ids _ =>
                match target with
                | None => py_ret tt
                | Some (parent, cid) =>
                    c <- py_get ;;
                    match team (ident (handle c parent)) with
                    | None => py_ret tt
                    | Some _ => answered_by parent {[cid]} false
                    end
                end ;;
                c <- py_get ;;
                (if bool_decide (waiting_control_ids (handle c r) = ∅)
                 then reg_call (mark_terminal r SUCCEEDED None)
                 else reg_do (mark_waiting r)) ;;
                py_ret None
            end ;;
  drop_own_task r me ;;
  refresh_session_state rec ;;
  py_ret marker.

(** ** Cancelling executions *)

(** The scopes of the selected handles: a set *)
Definition scopes_of (w : World) (selected : odict string href) : list (string * Z) :=
  remove_dups (map (λ r, let h := handle_in w r in (h_session_id h, h_generation h))
                 (od_values selected)).

(** One scope of a round of [_with_descendants]: the children found are added *)
Fixpoint add_children (w : World) (frontier : gset string) (rs : list href)
    (selected : odict string href) (found : gset string) : odict string href * gset string :=
  match rs with
  | [] => (selected, found)
  | r :: rs' =>
      let h := handle_in w r in
      if match h_parent h with Some p => bool_decide (p ∈ frontier) | None => false end
         && negb (od_mem selected (h_execution_id h))
      then add_children w frontier rs' (od_set selected (h_execution_id h) r)
             ({[h_execution_id h]} ∪ found)
      else add_children w frontier rs' selected found
  end.

Fixpoint descend_scopes (frontier : gset string) (scopes : list (string * Z))
    (selected : odict string href) (found : gset string) (w : World)
    : odict string href * gset string * World :=
  match scopes with
  | [] => (selected, found, w)
  | (sid, gen) :: scopes' =>
      let '(rs, w') := select sid None None (Some gen) true w in
      let '(selected', found') := add_children w' frontier rs selected found in
      descend_scopes frontier scopes' selected' found' w'
  end.

(** The rounds of [_with_descendants] *)
Fixpoint descend (fuel : nat) (frontier : gset string) (selected : odict string href) (w : World)
    : odict string href * World :=
  if bool_decide (frontier = ∅) then (selected, w)
  else match fuel with
       | O => (selected, w)
       | S n =>
           let '(selected', found, w') :=
             descend_scopes frontier (scopes_of w selected) selected ∅ w in
           descend n found selected' w'
       end.

(** [{handle.execution_id: handle for handle in handles}] *)
Definition by_execution_id (w : World) (rs : list href) : odict string href :=
  foldl (λ d r, od_set d (h_execution_id (handle_in w r)) r) [] rs.

(** [_with_descendants]; every round but the last finds an execution that was not
    selected *)
Definition with_descendants (rs : list href) : coord (list href) :=
  reg_get (λ w,
    let selected := by_execution_id w rs in
    let '(d, w') := descend (S (length (executions w))) (list_to_set (od_keys selected)) selected w in
    (od_values d, w')).

(** [_requires_direct_cancel] *)
Definition requires_direct_cancel (h : SessionExecutionHandle) : bool :=
  if bool_decide (h_work_kind h = SESSION_MESSAGE) then true else negb (scheduled (h_work_kind h)).

(** The tasks of some handles that are not done, by execution id *)
Definition open_tasks (c : Coord) (rs : list href) : odict string task_ref :=
  foldl (λ d r, match task (handle c r) with
                | Some t => if task_done (co_sched c) t then d
                            else od_set d (h_execution_id (handle c r)) t
                | None => d
                end) [] rs.

(** [_cancel_direct_handles] up to its wait: the tasks it cancelled *)
Definition cancel_direct_begin (rs : list href) (me : task_ref) : coord (odict string task_ref) :=
  c <- py_get ;;
  let tasks := filter (λ kv, kv.2 ≠ me) (open_tasks c rs) in
  py_modify (λ c, with_sched (foldl (λ s t, cancel_task t s) (co_sched c) (od_values tasks)) c) ;;
  py_ret tasks.

(** [_request_direct_cancel] up to its first wait: the tasks it cancelled and the
    handles whose cancellation had been requested before *)
Definition request_direct_cancel (rs : list href) (me : task_ref)
    : coord (odict string task_ref * list href) :=
  c <- py_get ;;
  let pending := filter (λ r, cancellation_requested (handle c r) = true) rs in
  let fresh := filter (λ r, cancellation_requested (handle c r) = false) rs in
  py_for fresh (λ r, reg_do (hupd r (set_cancellation_requested true))) ;;
  tasks <- cancel_direct_begin fresh me ;;
  py_ret (tasks, pending).

(** What a wait returns: the executions whose task is still pending. *)
Definition still_pending (c : Coord) (tasks : odict string task_ref) : list string :=
  od_keys (filter (λ kv, task_done (co_sched c) kv.2 = false) tasks).

(** [cancel_execution] up to its first wait: the handles it cancels, those among
    them cancelled directly, and the lane tasks it waits for *)
Definition cancel_execution_begin (sid : string) (rid eid : option string) (gen : option Z)
    (excluded : gset string) : coord (list href * list href * odict string task_ref) :=
  matched <- reg_get (select sid rid eid gen true) ;;
  all <- with_descendants matched ;;
  c <- py_get ;;
  let hs := filter (λ r, h_execution_id (handle c r) ∉ excluded) all in
  let direct := filter (λ r, requires_direct_cancel (handle c r) = true) hs in
  let work := filter (λ r, scheduled (h_work_kind (handle c r)) = true) hs in
  py_for (filter (λ r, requires_direct_cancel (handle c r) = false) hs)
    (λ r, reg_do (hupd r (set_cancellation_requested true))) ;;
  targets <- (λ c, let '(targets, s) := cancel_begin work (co_sched c) in
                   (Ret targets, with_sched s c)) ;;
  py_ret (hs, direct, targets).

(** The loop after the waits: executions that did not time out end cancelled; the
    number of cancelled ones is counted. *)
Fixpoint cancel_settle (hs : list href) (timed_out : list string) : coord nat :=
  match hs with
  | [] => py_ret 0
  | r :: hs' =>
      c <- py_get ;;
      let h := handle c r in
      (if negb (bool_decide (h_execution_id h ∈ timed_out)) && negb (terminal (state h))
       then reg_call (mark_terminal r CANCELLED None) else py_ret tt) ;;
      c <- py_get ;;
      let one := if bool_decide (state (handle c r) = CANCELLED) then 1 else 0 in
      n <- cancel_settle hs' timed_out ;;
      py_ret (one + n)
  end.

Definition refresh_by_id (sid : string) : coord unit :=
  c <- py_get ;;
  match od_get (sessions c) sid with
  | Some rec => refresh_session_state rec
  | None => py_ret tt
  end.

(** [cancel_execution] after its waits *)
Definition cancel_execution_end (sid : string) (hs : list href) (timed_out : list string)
    : coord CancelExecutionResult :=
  n <- cancel_settle hs timed_out ;;
  refresh_by_id sid ;;
  py_ret (mk_cancel_result (length hs) n timed_out).

(** [_cancel_descendants]: up to its wait, and after it *)
Definition cancel_descendants_begin (parent : href) (me : task_ref)
    : coord (list href * odict string task_ref * list href) :=
  all <- with_descendants [parent] ;;
  c <- py_get ;;
  let ds := filter (λ r, h_execution_id (handle c r) ≠ h_execution_id (handle c parent)) all in
  waits <- request_direct_cancel ds me ;;
  py_ret (ds, waits.1, waits.2).

Definition cancel_descendants_end (ds : list href) (timed_out : list string) : coord unit :=
  cancel_settle ds timed_out ;; py_ret tt.

(** ** Closing *)

(** [close_session] up to its first wait: [None] if there is nothing to close *)
Definition close_begin_session (sid : string) (gen : option Z) (me : task_ref)
    : coord (option (rec_ref * list href * list href * odict string task_ref * list href)) :=
  c <- py_get ;;
  match od_get (sessions c) sid with
  | None => py_ret None
  | Some rec =>
      let g := rec_generation (record c rec) in
      if match gen with Some g' => negb (bool_decide (g = g')) | None => false end then py_ret None
      else
        upd_record rec (set_rec_state QUIESCING) ;;
        execs <- reg_get (select sid None None (Some g) false) ;;
        c <- py_get ;;
        let active := filter (λ r, terminal (state (handle c r)) = false) execs in
        let settling := filter (λ r, terminal (state (handle c r))
                                     && retain_owner_task (handle c r)
                                     && negb (task_free (cworld c) (handle c r)) = true) execs in
        let direct := filter (λ r, requires_direct_cancel (handle c r) = true) active in
        waits <- request_direct_cancel direct me ;;
        py_ret (Some (rec, active, settling, waits.1, waits.2))
  end.

(** The scheduler's part of [close_session], up to its wait *)
Definition close_lane (sid : string) (rec : rec_ref) (me : task_ref)
    : coord (option (option string * (string * Z) * gset task_ref)) :=
  c <- py_get ;;
  λ c0, let '(r, s) := close_session_begin (Some me) sid (Some (rec_generation (record c rec)))
                         (co_sched c0) in
        (Ret r, with_sched s c0).

(** The executions [close_session] waits for after the scheduler *)
Definition close_settling (settling active : list href) (lane_existed : bool) (c : Coord)
    : list href :=
  if lane_existed then settling
  else settling ++ filter (λ r, scheduled (h_work_kind (handle c r))
                                && negb (task_free (cworld c) (handle c r)) = true) active.

(** The loop of [close_session] after its waits *)
Definition close_mark (timed_out : list string) (r : href) : coord unit :=
  reg_do (hupd r (set_cancellation_requested true)) ;;
  c <- py_get ;;
  if negb (bool_decide (h_execution_id (handle c r) ∈ timed_out))
     && negb (terminal (state (handle c r)))
  then reg_call (mark_terminal r CANCELLED None) else py_ret tt.

(** [tuple(dict.fromkeys(l))]: the first of equal elements *)
Definition dict_fromkeys (l : list string) : list string :=
  od_keys (foldl (λ d x, od_set d x tt) [] l).

(** [close_session] after its waits; [gen] is the generation it closes *)
Definition close_end_session (sid : string) (rec : rec_ref) (gen : Z) (timed_out : list string)
    : coord CloseSessionResult :=
  active <- reg_get (select sid None None (Some gen) true) ;;
  py_for active (close_mark timed_out) ;;
  match timed_out with
  | [] =>
      c <- py_get ;;
      (if bool_decide (od_get (sessions c) sid = Some rec)
       then upd_record rec (set_rec_state CLOSED) else py_ret tt) ;;
      py_ret (mk_close_result sid (Some gen) true [])
  | _ => py_ret (mk_close_result sid (Some gen) true (dict_fromkeys timed_out))
  end.

(** [close] up to its loop: the records it closes in turn *)
Definition close_coordinator : coord (list rec_ref) :=
  py_modify (with_accepting false) ;;
  c <- py_get ;;
  py_ret (filter (λ rec, rec_state (record c rec) ≠ CLOSED) (od_values (sessions c))).
