(* ===== verification/CoordinatorInv.v ===== *)
(** * The coordinator's invariant

    Every call of the coordinator keeps [coord_inv] and only lets the state
    evolve: handles keep their identity, terminal outcomes are final,
    generations do not decrease.  [coord_quiet] and [coord_ok] state this of a
    call, and the hint database [coord] composes it along the calls a method
    makes. *)

From S2P Require Import Prelude OrderedDict SessionModel ExecutionRegistry WorkScheduler Coordinator.

(** ** What registry methods keep *)

Record world_ok (w w' : World) : Prop := mk_world_ok {
  wo_index : index_ok w → index_ok w';
  wo_ident : ∀ r, hident w' r = hident w r;
  wo_outcome : ∀ r, keeps_outcome w w' r;
}.

#[export] Instance world_ok_preorder : PreOrder world_ok.
Proof.
  split.
  - intros w. split; [done|done|]. intros r. by apply keeps_outcome_same.
  - intros w1 w2 w3 [I1 D1 O1] [I2 D2 O2]. split; [auto|congruence|].
    intros r h Hr Ht. destruct (O1 r h Hr Ht) as (h2 & Hr2 & Hi & Hst & Hf).
    destruct (O2 r h2 Hr2) as (h3 & Hr3 & Hi3 & Hst3 & Hf3); [congruence|].
    exists h3. split_and!; congruence.
Qed.

Lemma world_ok_step w w' :
  reg_step w w' → (index_ok w → index_ok w') → (∀ r, hident w' r = hident w r) → world_ok w w'.
Proof. intros Hs Hi Hd. split; [done|done|]. intros r. by apply reg_step_outcome. Qed.

Lemma world_ok_hupd r f w :
  (∀ h, ident (f h) = ident h) →
  (∀ h, terminal (state h) = true → state (f h) = state h ∧ finished_at (f h) = finished_at h) →
  world_ok w (hupd r f w).
Proof.
  intros Hi Hf. split; [by apply index_ok_hupd|intros; by apply hident_hupd|].
  intros r'. apply keeps_outcome_hupd. naive_solver.
Qed.

Lemma world_ok_evict w : world_ok w (evict_terminal w).
Proof.
  split; [apply evict_index| |].
  - intros r. unfold hident. by rewrite evict_heap.
  - intros r. by apply keeps_outcome_same, evict_heap.
Qed.

Lemma world_ok_select sid rid eid gen a w : world_ok w (select sid rid eid gen a w).2.
Proof. apply world_ok_evict. Qed.

Lemma world_ok_get eid w : world_ok w (get_execution eid w).2.
Proof. apply world_ok_evict. Qed.

Lemma world_ok_snapshots sid gen w : world_ok w (snapshots_for_session sid gen w).2.
Proof. apply world_ok_evict. Qed.

Lemma world_ok_mark_running r w : world_ok w (mark_running r w).
Proof.
  unfold mark_running. destruct (hget w r) as [h|] eqn:Hh; [|done].
  case_decide as Hq; [|done]. split; [by apply index_ok_hupd|intros; by apply hident_hupd|].
  intros r'. rewrite (hupd_insert _ _ h) by done.
  eapply keeps_outcome_insert; [done|by rewrite Hq|done].
Qed.

Lemma world_ok_mark_awaiting r ids w : world_ok w (mark_awaiting_control r ids w).
Proof. apply world_ok_hupd; intros h; [by case_match|]. intros Ht. by rewrite Ht. Qed.

Lemma world_ok_mark_waiting r w : world_ok w (mark_waiting r w).
Proof.
  apply world_ok_hupd; intros h; [|intros Ht; by rewrite Ht].
  destruct (terminal (state h)); [done|]. simpl. by destruct (retain_owner_task h).
Qed.

Lemma world_ok_resume_waiting r w : world_ok w (resume_waiting r w).
Proof.
  apply world_ok_hupd; intros h; [by case_decide|]. intros Ht. rewrite decide_False; [done|].
  intros Hs. by rewrite Hs in Ht.
Qed.

Lemma hident_insert w r h h' r' :
  heap w !! r = Some h → ident h' = ident h →
  hident (with_heap (<[r := h']> (heap w)) w) r' = hident w r'.
Proof.
  intros Hh Hi. unfold hident. simpl. rewrite lookup_insert. case_decide; [subst|done].
  rewrite Hh. simpl. by rewrite Hi.
Qed.

Lemma world_ok_mark_terminal r st err w : world_ok w (mark_terminal r st err w).2.
Proof.
  unfold mark_terminal, py_bind, py_guard, py_modify. destruct (terminal st) eqn:Hst; simpl;
    [|done].
  unfold mark_terminal_body. destruct (hget w r) as [h|] eqn:Hh; [|done].
  destruct (terminal (state h)) eqn:Ht; [by apply world_ok_hupd|].
  set (w1 := with_heap _ w).
  assert (world_ok w w1) as H1.
  { split.
    - apply index_ok_ext; try done. intros eid r' _.
      apply (hident_insert _ _ h); [done|apply terminate_ident].
    - intros r'. apply (hident_insert _ _ h); [done|apply terminate_ident].
    - intros r'. by apply (keeps_outcome_insert w w1 r' r h _ Hh Ht eq_refl). }
  etrans; [exact H1|]. case_match; [|apply world_ok_evict].
  etrans; [|apply world_ok_evict]. split; [by apply index_ok_ext|done|].
  intros r'. by apply keeps_outcome_same.
Qed.

Lemma world_ok_release r t w : world_ok w (release_owner_task r t w).
Proof.
  unfold release_owner_task. destruct (hget w r) as [h|]; [|done]. case_decide; [|done].
  case_match; [|by apply world_ok_hupd].
  etrans; [by apply (world_ok_hupd r (set_task None))|]. etrans; [|apply world_ok_evict].
  split; [by apply index_ok_ext|done|]. intros r'. by apply keeps_outcome_same.
Qed.

(** ** The invariant *)

Definition chandle (c : Coord) (r : href) : option SessionExecutionHandle := heap (cworld c) !! r.

(** [p] is the id of an execution that was created. *)
Definition known (c : Coord) (p : string) : Prop := ∃ r i, hident (cworld c) r = Some i ∧ execution_id i = p.

Record coord_inv (c : Coord) : Prop := mk_coord_inv {
  ci_index : index_ok (cworld c);
  ci_fresh : ∀ r i, hident (cworld c) r = Some i → r < next_ref (co_sched c);
  ci_fresh_rec : ∀ r x, co_records c !! r = Some x → r < next_ref (co_sched c);
  ci_wf : od_wf (sessions c);
  ci_sessions : ∀ sid rec, od_get (sessions c) sid = Some rec →
    ∃ x, co_records c !! rec = Some x ∧ rec_session_id x = sid ∧
      generations c !! sid = Some (rec_generation x);
  ci_ids : ∀ r r' i j, hident (cworld c) r = Some i → hident (cworld c) r' = Some j →
    execution_id i = execution_id j → r = r';
  ci_parent : ∀ r i p, hident (cworld c) r = Some i → parent_execution_id i = Some p →
    ∃ r' j, r' < r ∧ hident (cworld c) r' = Some j ∧ execution_id j = p;
}.

(** What no call takes back. *)
Record evolves (c c' : Coord) : Prop := mk_evolves {
  ev_ident : ∀ r i, hident (cworld c) r = Some i → hident (cworld c') r = Some i;
  ev_outcome : ∀ r, keeps_outcome (cworld c) (cworld c') r;
  ev_generations : ∀ sid g, generations c !! sid = Some g →
    ∃ g', generations c' !! sid = Some g' ∧ (g ≤ g')%Z;
  ev_records : ∀ rec x, co_records c !! rec = Some x →
    ∃ x', co_records c' !! rec = Some x' ∧ rec_session_id x' = rec_session_id x ∧
      rec_generation x' = rec_generation x;
  ev_next : next_ref (co_sched c) ≤ next_ref (co_sched c');
  ev_accepting : accepting c = false → accepting c' = false;
  ev_settled : settled c ⊆ settled c';
}.

#[export] Instance evolves_preorder : PreOrder evolves.
Proof.
  split.
  - intros c. split; try done; [intros; by apply keeps_outcome_same|eauto with lia|by eauto].
  - intros c1 c2 c3 [] []. split; try done; eauto.
    + intros r h Hr Ht. destruct (ev_outcome0 r h Hr Ht) as (h2 & Hr2 & Hi & Hst & Hf).
      destruct (ev_outcome1 r h2 Hr2) as (h3 & Hr3 & Hi3 & Hst3 & Hf3); [congruence|].
      exists h3. split_and!; congruence.
    + intros sid g (g2 & Hg2 & ?)%ev_generations0.
      destruct (ev_generations1 sid g2 Hg2) as (g3 & ? & ?). exists g3. split; [done|lia].
    + intros rec x (x2 & Hx2 & ? & ?)%ev_records0.
      destruct (ev_records1 rec x2 Hx2) as (x3 & ? & ? & ?). exists x3. split_and!; congruence.
    + lia.
    + set_solver.
Qed.

(** A call that creates no execution. *)
Definition coord_quiet {A} (m : coord A) : Prop :=
  ∀ c, coord_inv c →
    coord_inv (m c).2 ∧ evolves c (m c).2 ∧ ∀ r, hident (cworld (m c).2) r = hident (cworld c) r.

Lemma quiet_ret {A} (a : A) : coord_quiet (py_ret a).
Proof. intros c Hc. by split_and!. Qed.
Lemma quiet_raise {A} e : coord_quiet (py_raise (A := A) e).
Proof. intros c Hc. by split_and!. Qed.
Lemma quiet_get : coord_quiet py_get.
Proof. intros c Hc. by split_and!. Qed.
Lemma quiet_guard b e : coord_quiet (py_guard b e).
Proof. intros c Hc. destruct b; by split_and!. Qed.
Lemma quiet_some {A} (o : option A) e : coord_quiet (py_some o e).
Proof. intros c Hc. destruct o; by split_and!. Qed.

Lemma quiet_bind {A B} (m : coord A) (k : A → coord B) :
  coord_quiet m → (∀ a, coord_quiet (k a)) → coord_quiet (py_bind m k).
Proof.
  intros Hm Hk c Hc. destruct (Hm c Hc) as (Hc1 & He1 & Hi1). unfold py_bind.
  destruct (m c) as [[a|e] c1]; [|done]. destruct (Hk a c1 Hc1) as (Hc2 & He2 & Hi2).
  split_and!; [done|by etrans|intros r; by rewrite Hi2].
Qed.

Lemma quiet_bind_get {B} (k : Coord → coord B) :
  (∀ c, coord_inv c → coord_inv (k c c).2 ∧ evolves c (k c c).2 ∧
     ∀ r, hident (cworld (k c c).2) r = hident (cworld c) r) →
  coord_quiet (py_bind py_get k).
Proof. intros Hk c Hc. by apply Hk. Qed.

Lemma quiet_for {A} (l : list A) (body : A → coord unit) :
  (∀ x, coord_quiet (body x)) → coord_quiet (py_for l body).
Proof.
  intros Hb. induction l as [|x l IH]; simpl; [apply quiet_ret|]. by apply quiet_bind.
Qed.

Lemma quiet_finally {A} (m : coord A) f :
  coord_quiet m → coord_quiet f → coord_quiet (py_finally m f).
Proof.
  intros Hm Hf c Hc. unfold py_finally. destruct (Hm c Hc) as (Hc1 & He1 & Hi1).
  destruct (m c) as [o c1]. simpl in *. destruct (Hf c1 Hc1) as (Hc2 & He2 & Hi2).
  split_and!; [done|by etrans|intros r; by rewrite Hi2].
Qed.

Lemma with_cworld_ok c w :
  world_ok (cworld c) w → coord_inv c →
  coord_inv (with_cworld w c) ∧ evolves c (with_cworld w c) ∧
  ∀ r, hident (cworld (with_cworld w c)) r = hident (cworld c) r.
Proof.
  intros [Hi Hd Ho] []. split_and!; [| |exact Hd].
  - split; simpl; try done.
    + by apply Hi.
    + intros r i. rewrite Hd. apply ci_fresh0.
    + intros r r' i j. rewrite !Hd. apply ci_ids0.
    + intros r i p. rewrite Hd. intros H1 H2. destruct (ci_parent0 r i p H1 H2) as (r' & j & ?).
      exists r', j. by rewrite Hd.
  - split; simpl; try done; [intros r i; by rewrite Hd|eauto with lia|by eauto].
Qed.

Lemma quiet_reg_do f : (∀ w, world_ok w (f w)) → coord_quiet (reg_do f).
Proof. intros Hf c Hc. by apply with_cworld_ok. Qed.

Lemma quiet_reg_get {A} (f : World → A * World) : (∀ w, world_ok w (f w).2) → coord_quiet (reg_get f).
Proof.
  intros Hf c Hc. unfold reg_get. specialize (Hf (cworld c)).
  destruct (f (cworld c)) as [a w]. by apply with_cworld_ok.
Qed.

Lemma quiet_reg_call {A} (m : py World registry_error A) :
  (∀ w, world_ok w (m w).2) → coord_quiet (reg_call m).
Proof.
  intros Hf c Hc. unfold reg_call. specialize (Hf (cworld c)).
  destruct (m (cworld c)) as [[a|[msg]] w]; by apply with_cworld_ok.
Qed.

Lemma quiet_upd_record rec f :
  (∀ x, rec_session_id (f x) = rec_session_id x ∧ rec_generation (f x) = rec_generation x) →
  coord_quiet (upd_record rec f).
Proof.
  intros Hf c []. unfold upd_record, py_modify. simpl. split_and!; [split|split|done]; simpl; try done.
  - intros r x. rewrite lookup_alter. case_decide; [subst|by eauto].
    destruct (co_records c !! r) eqn:E; [by eauto|done].
  - intros sid r Hr. destruct (ci_sessions0 sid r Hr) as (x & Hx & Hs & Hg).
    rewrite lookup_alter. case_decide; [subst|by eauto]. rewrite Hx. exists (f x).
    destruct (Hf x) as [-> ->]. by split_and!.
  - intros r. by apply keeps_outcome_same.
  - eauto with lia.
  - intros r x Hx. rewrite lookup_alter. case_decide; [subst|by eauto]. rewrite Hx.
    destruct (Hf x). by exists (f x).
Qed.

Lemma quiet_modify_settled e : coord_quiet (py_modify (λ c, with_settled (e ∪ settled c) c)).
Proof.
  intros c []. simpl. split_and!; [by split|split|done]; simpl; try done;
    [intros; by apply keeps_outcome_same|eauto with lia|by eauto|set_solver].
Qed.

(** A call into the scheduler that leaves the world alone *)
Lemma with_sched_ok c s :
  world s = cworld c → next_ref (co_sched c) ≤ next_ref s → coord_inv c →
  coord_inv (with_sched s c) ∧ evolves c (with_sched s c) ∧
  ∀ r, hident (cworld (with_sched s c)) r = hident (cworld c) r.
Proof.
  intros Hw Hn []. unfold cworld in *. split_and!.
  - split; simpl; try done; unfold cworld; simpl; rewrite ?Hw; try done.
    + intros r i Hi. apply ci_fresh0 in Hi. lia.
    + intros r x Hx. apply ci_fresh_rec0 in Hx. lia.
  - split; simpl; try done; unfold cworld; simpl; rewrite ?Hw; try done;
      [intros; by apply keeps_outcome_same|eauto with lia|by eauto].
  - unfold cworld. simpl. by rewrite Hw.
Qed.

Lemma quiet_new_ref : coord_quiet new_ref.
Proof. intros c Hc. apply with_sched_ok; [done|simpl; lia|done]. Qed.

Create HintDb coord.
#[export] Hint Resolve quiet_ret quiet_raise quiet_get quiet_guard quiet_some quiet_for
  quiet_finally quiet_new_ref quiet_modify_settled
  world_ok_select world_ok_get world_ok_snapshots world_ok_mark_running world_ok_mark_awaiting
  world_ok_mark_waiting world_ok_resume_waiting world_ok_mark_terminal world_ok_release : coord.
#[export] Hint Resolve quiet_bind quiet_reg_do quiet_reg_get quiet_reg_call | 2 : coord.
#[export] Hint Extern 2 (coord_quiet (upd_record _ _)) => (apply quiet_upd_record; done) : coord.
#[export] Hint Extern 2 (world_ok _ (hupd _ _ _)) => (apply world_ok_hupd; done) : coord.
#[export] Hint Extern 4 (coord_quiet (match ?x with _ => _ end)) => (destruct x) : coord.
#[export] Hint Extern 4 (coord_quiet (match ?x with _ => _ end ?c)) => (destruct x) : coord.

(** Calls built from the ones above *)
Ltac quiet := unfold select_record; auto 30 with coord.

(** ** Calls that create no execution *)

Lemma quiet_py_some_bind {A B} (o : option A) e (k : A → coord B) :
  (∀ a, coord_quiet (k a)) → coord_quiet (py_bind (py_some o e) k).
Proof. intros Hk. apply quiet_bind; [apply quiet_some|done]. Qed.

Lemma quiet_select_record rec rid a : coord_quiet (select_record rec rid a).
Proof.
  intros c. apply (quiet_reg_get (select (rec_session_id (record c rec)) rid None
    (Some (rec_generation (record c rec))) a)). apply world_ok_select.
Qed.
#[export] Hint Resolve quiet_select_record : coord.

Lemma quiet_control_parent rec rid : coord_quiet (control_parent rec rid).
Proof. unfold control_parent. auto 10 with coord. Qed.
#[export] Hint Resolve quiet_control_parent : coord.

Lemma quiet_control_target rec names : coord_quiet (control_target rec names).
Proof.
  induction names as [|rid names IH]; cbn [control_target]; [apply quiet_ret|].
  apply quiet_bind; [auto with coord|]. intros []; auto with coord.
Qed.
#[export] Hint Resolve quiet_control_target : coord.

Lemma quiet_claimed_control_parent rec rid : coord_quiet (claimed_control_parent rec rid).
Proof. unfold claimed_control_parent. auto 10 with coord. Qed.
#[export] Hint Resolve quiet_claimed_control_parent : coord.

Lemma quiet_ancestor_loop n origin k seen r : coord_quiet (ancestor_loop n origin k seen r).
Proof.
  revert seen r. induction n as [|n IH]; intros seen r; cbn [ancestor_loop]; auto 12 with coord.
Qed.
Lemma quiet_ancestor_of_kind r k : coord_quiet (ancestor_of_kind r k).
Proof. unfold ancestor_of_kind. auto using quiet_ancestor_loop with coord. Qed.
Lemma quiet_lineage_loop n owner eid r : coord_quiet (lineage_loop n owner eid r).
Proof. revert r. induction n as [|n IH]; intros r; cbn [lineage_loop]; auto 12 with coord. Qed.
Lemma quiet_in_lineage r eid : coord_quiet (in_execution_lineage r eid).
Proof. unfold in_execution_lineage. auto using quiet_lineage_loop with coord. Qed.
#[export] Hint Resolve quiet_ancestor_of_kind quiet_in_lineage : coord.

Lemma quiet_refresh_gate_with rec active : coord_quiet (refresh_control_gate_with rec active).
Proof. unfold refresh_control_gate_with. auto 10 with coord. Qed.
#[export] Hint Resolve quiet_refresh_gate_with : coord.
Lemma quiet_refresh_gate rec : coord_quiet (refresh_control_gate rec).
Proof. unfold refresh_control_gate. auto 10 with coord. Qed.
Lemma quiet_refresh_state rec : coord_quiet (refresh_session_state rec).
Proof. unfold refresh_session_state. auto 10 with coord. Qed.
#[export] Hint Resolve quiet_refresh_gate quiet_refresh_state : coord.

Lemma quiet_session_snapshot rec : coord_quiet (session_snapshot rec).
Proof. unfold session_snapshot. auto 10 with coord. Qed.
Lemma quiet_require_open sid : coord_quiet (require_open_session sid).
Proof. unfold require_open_session. auto 10 with coord. Qed.
#[export] Hint Resolve quiet_session_snapshot quiet_require_open : coord.

Lemma quiet_supersede k r : coord_quiet (supersede k r).
Proof. unfold supersede. auto 10 with coord. Qed.
Lemma quiet_team_target rec k team : coord_quiet (team_target rec k team).
Proof. unfold team_target. auto 10 with coord. Qed.
Lemma quiet_answered_by p claimed w : coord_quiet (answered_by p claimed w).
Proof. unfold answered_by. auto 10 with coord. Qed.
#[export] Hint Resolve quiet_supersede quiet_team_target quiet_answered_by : coord.

Lemma quiet_run_unary_end rec target : coord_quiet (run_unary_end rec target).
Proof. unfold run_unary_end. auto 12 with coord. Qed.
Lemma quiet_tracked_begin rec r : coord_quiet (tracked_begin rec r).
Proof. unfold tracked_begin. auto 12 with coord. Qed.
Lemma quiet_tracked_end rec r o e t : coord_quiet (tracked_end rec r o e t).
Proof. unfold tracked_end. auto 15 with coord. Qed.
#[export] Hint Resolve quiet_run_unary_end quiet_tracked_begin quiet_tracked_end : coord.

Lemma ensure_lane_frame sid gen s :
  world (ensure_lane sid gen s).2 = world s ∧ next_ref s ≤ next_ref (ensure_lane sid gen s).2.
Proof.
  unfold ensure_lane, py_bind, py_get, py_guard, fresh_ref, py_modify, py_ret, py_raise.
  simpl. repeat case_match; simplify_eq/=; split; try done; lia.
Qed.

Lemma submit_frame h i op ctx s :
  world (submit h i op ctx s).2 = world s ∧ next_ref s ≤ next_ref (submit h i op ctx s).2.
Proof.
  unfold submit, py_bind, py_get, py_guard. destruct (closed s); simpl; [by split|].
  pose proof (ensure_lane_frame (session_id i) (generation i) s) as [Hw Hn].
  destruct (ensure_lane _ _ s) as [[l|e] s1]; simpl in *; [|done]. split; [done|lia].
Qed.

Lemma cancel_current_frame ids ls targets s :
  world (cancel_current ids ls targets s).2 = world s ∧
  next_ref (cancel_current ids ls targets s).2 = next_ref s.
Proof.
  revert targets s. induction ls as [|l ls IH]; intros targets s; simpl; [done|].
  repeat case_match; try apply IH.
  match goal with |- context [cancel_current _ _ ?d ?s'] => destruct (IH d s') as [-> ->] end.
  unfold cancel_task. by case_match.
Qed.

Lemma cancel_begin_frame rs s :
  world (cancel_begin rs s).2 = world s ∧ next_ref (cancel_begin rs s).2 = next_ref s.
Proof.
  unfold cancel_begin. set (ids := list_to_set _).
  pose proof (cancel_current_frame ids (od_values (lanes s)) [] s) as Hf.
  destruct (cancel_current ids (od_values (lanes s)) [] s) as [targets s1]. simpl in *.
  destruct Hf as [<- <-]. clear. revert s1.
  induction rs as [|r rs IH]; intros s1; simpl; [done|].
  destruct (IH (cancel_queued_handle targets r s1)) as [-> ->].
  unfold cancel_queued_handle, cancel_queued, settle. by repeat case_match.
Qed.

Lemma quiet_run_unary_start rec r op ctx me : coord_quiet (run_unary_start rec r op ctx me).
Proof.
  unfold run_unary_start. apply quiet_bind; [auto with coord|]. intros c0.
  destruct (scheduled _); [|auto 10 with coord]. intros c Hc.
  pose proof (submit_frame r (ident (handle c r)) op ctx (co_sched c)) as [Hw Hn].
  destruct (submit _ _ _ _ _) as [[f|[msg]] s]; by apply with_sched_ok.
Qed.

Lemma quiet_run_unary_cancel_begin r : coord_quiet (run_unary_cancel_begin r).
Proof.
  unfold run_unary_cancel_begin. apply quiet_bind; [auto with coord|]. intros _.
  apply quiet_bind; [auto with coord|]. intros c0. destruct (scheduled _); [|auto with coord].
  intros c Hc. pose proof (cancel_begin_frame [r] (co_sched c)) as [Hw Hn].
  destruct (cancel_begin _ _) as [targets s]. apply with_sched_ok; simpl in *; [done|lia|done].
Qed.

Lemma quiet_await_terminal_begin r me : coord_quiet (await_terminal_begin r me).
Proof. unfold await_terminal_begin. auto 12 with coord. Qed.
Lemma quiet_await_terminal_end r : coord_quiet (await_terminal_end r).
Proof. unfold await_terminal_end. auto 12 with coord. Qed.
Lemma quiet_run_unary_cancel_settle r e t : coord_quiet (run_unary_cancel_settle r e t).
Proof. unfold run_unary_cancel_settle. auto 12 with coord. Qed.
Lemma quiet_run_unary_finally r me : coord_quiet (run_unary_finally r me).
Proof. unfold run_unary_finally. auto 12 with coord. Qed.
Lemma quiet_owner_task_done r t : coord_quiet (owner_task_done r t).
Proof. unfold owner_task_done. auto with coord. Qed.
Lemma quiet_record_interaction sid rid ids : coord_quiet (record_interaction sid rid ids).
Proof. unfold record_interaction. auto 15 with coord. Qed.
Lemma quiet_bind_agent sid rid a : coord_quiet (bind_agent sid rid a).
Proof. unfold bind_agent. auto 15 with coord. Qed.
Lemma quiet_control_target_agent sid names : coord_quiet (control_target_agent sid names).
Proof. unfold control_target_agent. auto 15 with coord. Qed.
Lemma quiet_has_control_target sid rid : coord_quiet (has_control_target sid rid).
Proof. unfold has_control_target. auto 15 with coord. Qed.
Lemma quiet_recoverable sid rid eid : coord_quiet (recoverable_control sid rid eid).
Proof. unfold recoverable_control. auto 20 with coord. Qed.
Lemma quiet_waiting_interactions sid rid : coord_quiet (waiting_interactions sid rid).
Proof. unfold waiting_interactions. auto 15 with coord. Qed.
Lemma quiet_unanswered sid : coord_quiet (unanswered_interactions sid).
Proof. unfold unanswered_interactions. auto 15 with coord. Qed.
Lemma quiet_control_target_work_kind sid rid : coord_quiet (control_target_work_kind sid rid).
Proof. unfold control_target_work_kind. auto 15 with coord. Qed.
Lemma quiet_quiesce sid gen : coord_quiet (quiesce_session sid gen).
Proof. unfold quiesce_session. auto 15 with coord. Qed.
Lemma quiet_refresh_generation sid gen : coord_quiet (refresh_generation sid gen).
Proof. unfold refresh_generation. auto 15 with coord. Qed.
#[export] Hint Resolve quiet_refresh_generation : coord.

(** Parking or resuming an execution that is not terminal *)
Lemma world_ok_set_state r st w :
  (∀ h, heap w !! r = Some h → terminal (state h) = false) → world_ok w (hupd r (set_state st) w).
Proof.
  intros Hr. split; [by apply index_ok_hupd|intros; by apply hident_hupd|].
  intros r'. destruct (heap w !! r) as [h|] eqn:Hh.
  - rewrite (hupd_insert _ _ h) by done. by eapply keeps_outcome_insert; [done|apply Hr|done].
  - apply keeps_outcome_same. simpl. apply map_eq. intros j. rewrite lookup_alter.
    case_decide; [subst; by rewrite Hh|done].
Qed.

Lemma handle_nonterminal c r h :
  terminal (state (handle c r)) = false → heap (cworld c) !! r = Some h →
  terminal (state h) = false.
Proof. unfold handle, handle_in, hget. intros Ht Hh. by rewrite Hh in Ht. Qed.

Lemma quiet_mark_waiting_for_input eid : coord_quiet (mark_waiting_for_input eid).
Proof.
  unfold mark_waiting_for_input. apply quiet_bind; [auto with coord|]. intros [r|]; [|auto with coord].
  apply quiet_bind_get. intros c Hc.
  destruct (terminal (state (handle c r)) || _) eqn:Ht; [by apply quiet_ret|].
  apply orb_false_iff in Ht as [Ht _].
  set (k := λ _ : unit, refresh_generation _ _ ;; py_ret true).
  destruct (with_cworld_ok c (hupd r (set_state WAITING_FOR_INPUT) (cworld c))) as (Hc1 & He1 & Hi1).
  { apply world_ok_set_state. intros h. by apply handle_nonterminal. }
  { done. }
  assert (coord_quiet (k tt)) as Hk by (unfold k; auto with coord).
  destruct (Hk _ Hc1) as (Hc2 & He2 & Hi2). unfold py_bind, reg_do, py_modify. fold (k tt).
  split_and!; [exact Hc2|by etrans|intros r'; rewrite <-Hi1; exact (Hi2 r')].
Qed.

Lemma quiet_set_state_if (p : SessionExecutionHandle → bool) r st :
  (∀ h, p h = true → terminal (state h) = false) →
  coord_quiet (c <- py_get ;;
    if p (handle c r) then reg_do (hupd r (set_state st)) else py_ret tt).
Proof.
  intros Hp. apply quiet_bind_get. intros c Hc.
  destruct (p (handle c r)) eqn:E; [|by apply quiet_ret]. apply with_cworld_ok; [|done].
  apply world_ok_set_state. intros h Hh. eapply handle_nonterminal; [|done]. by apply Hp.
Qed.

Lemma quiet_mark_session_waiting sid gen : coord_quiet (mark_session_waiting_for_input sid gen).
Proof.
  unfold mark_session_waiting_for_input. apply quiet_bind; [auto with coord|]. intros active.
  apply quiet_bind; [|auto with coord]. apply quiet_for. intros r.
  set (p := λ h, is_persistent h && bool_decide (state h = RUNNING)).
  apply (quiet_set_state_if p). intros h [_ Hs]%andb_prop. apply bool_decide_eq_true in Hs. by rewrite Hs.
Qed.

Lemma quiet_resume_waiting_for_input sid gen : coord_quiet (resume_waiting_for_input sid gen).
Proof.
  unfold resume_waiting_for_input. apply quiet_bind; [auto with coord|]. intros active.
  apply quiet_bind; [|auto with coord]. apply quiet_for. intros r.
  set (p := λ h, bool_decide (state h = WAITING_FOR_INPUT)).
  apply (quiet_set_state_if p). intros h Hs. apply bool_decide_eq_true in Hs. by rewrite Hs.
Qed.

Lemma quiet_get_execution_snapshot eid : coord_quiet (get_execution_snapshot eid).
Proof. unfold get_execution_snapshot. auto 10 with coord. Qed.
Lemma quiet_snapshot_session sid : coord_quiet (snapshot_session sid).
Proof. unfold snapshot_session. auto 12 with coord. Qed.
Lemma quiet_snapshot_records recs : coord_quiet (snapshot_records recs).
Proof. induction recs; cbn [snapshot_records]; auto 12 with coord. Qed.
Lemma quiet_snapshot_sessions : coord_quiet snapshot_sessions.
Proof. unfold snapshot_sessions. auto using quiet_snapshot_records with coord. Qed.

(** *** Deliveries *)

Lemma quiet_claim sid names dup w : coord_quiet (claim_control_parent sid names dup w).
Proof. unfold claim_control_parent. auto 25 with coord. Qed.

Lemma quiet_release rec parent : coord_quiet (release_control_parent rec parent).
Proof. unfold release_control_parent. auto 25 with coord. Qed.
#[export] Hint Resolve quiet_release : coord.

Lemma quiet_delivery_finally {A} rec parent (m : coord A) :
  coord_quiet m → coord_quiet (delivery_finally rec parent m).
Proof.
  intros Hm c Hc. unfold delivery_finally. destruct (Hm c Hc) as (Hc1 & He1 & Hi1).
  destruct (m c) as [o c1]. simpl in *.
  assert (coord_quiet (release_control_parent rec parent ;; refresh_session_state rec)) as Hr
    by auto with coord.
  destruct (Hr c1 Hc1) as (Hc2 & He2 & Hi2). destruct (py_bind _ _ c1) as [[u|e] c2];
    simpl in *; (split_and!; [done|by etrans|intros r; by rewrite Hi2]).
Qed.
#[export] Hint Resolve quiet_delivery_finally : coord.

Lemma quiet_deliver_failed p r w st msg : coord_quiet (deliver_failed p r w st msg).
Proof. unfold deliver_failed. auto 10 with coord. Qed.
#[export] Hint Resolve quiet_deliver_failed : coord.

Lemma quiet_deliver_control_end sid rec p r names claimed w o :
  coord_quiet (deliver_control_end sid rec p r names claimed w o).
Proof. unfold deliver_control_end. apply quiet_delivery_finally. auto 25 with coord. Qed.

Lemma quiet_stream_item rec r ids reissued : coord_quiet (stream_item rec r ids reissued).
Proof. unfold stream_item. auto 10 with coord. Qed.

Lemma quiet_drop_own_task r me : coord_quiet (drop_own_task r me).
Proof.
  unfold drop_own_task. apply quiet_reg_do. intros w.
  apply world_ok_hupd; intros h; by case_bool_decide.
Qed.
#[export] Hint Resolve quiet_drop_own_task : coord.

Lemma quiet_deliver_stream_end rec p r names claimed reissued w me o :
  coord_quiet (deliver_stream_end rec p r names claimed reissued w me o).
Proof. unfold deliver_stream_end. apply quiet_delivery_finally. auto 25 with coord. Qed.

Lemma quiet_stream_session_input sid e : coord_quiet (stream_session_input sid e).
Proof. unfold stream_session_input. auto 20 with coord. Qed.

Lemma quiet_stream_kind_ok b k : coord_quiet (stream_kind_ok b k).
Proof. unfold stream_kind_ok. auto with coord. Qed.
#[export] Hint Resolve quiet_stream_kind_ok : coord.

Lemma quiet_produce_end rec r target me o : coord_quiet (produce_end rec r target me o).
Proof. unfold produce_end. auto 25 with coord. Qed.

(** *** Cancelling and closing *)

Lemma world_ok_descend_scopes frontier scopes selected found w :
  world_ok w (descend_scopes frontier scopes selected found w).2.
Proof.
  revert selected found w. induction scopes as [|[sid gen] scopes IH]; intros selected found w;
    cbn [descend_scopes]; [done|].
  pose proof (world_ok_select sid None None (Some gen) true w) as Hs.
  destruct (select sid None None (Some gen) true w) as [rs w1]. simpl in Hs.
  destruct (add_children _ _ _ _ _) as [sel f]. by etrans.
Qed.

Lemma world_ok_descend n frontier selected w : world_ok w (descend n frontier selected w).2.
Proof.
  revert frontier selected w. induction n as [|n IH]; intros frontier selected w; cbn [descend];
    (case_bool_decide; [done|]); [done|].
  pose proof (world_ok_descend_scopes frontier (scopes_of w selected) selected ∅ w) as Hs.
  destruct (descend_scopes _ _ _ _ _) as [[sel f] w1]. by etrans.
Qed.

Lemma quiet_with_descendants rs : coord_quiet (with_descendants rs).
Proof.
  unfold with_descendants. apply quiet_reg_get. intros w.
  pose proof (world_ok_descend (S (length (executions w)))
    (list_to_set (od_keys (by_execution_id w rs))) (by_execution_id w rs) w) as Hd.
  by destruct (descend _ _ _ _) as [d w1].
Qed.
#[export] Hint Resolve quiet_with_descendants : coord.

Lemma cancel_tasks_frame ts s :
  world (foldl (λ s t, cancel_task t s) s ts) = world s ∧
  next_ref (foldl (λ s t, cancel_task t s) s ts) = next_ref s.
Proof.
  revert s. induction ts as [|t ts IH]; intros s; simpl; [done|].
  destruct (IH (cancel_task t s)) as [-> ->]. unfold cancel_task. by case_match.
Qed.

Lemma quiet_cancel_direct_begin rs me : coord_quiet (cancel_direct_begin rs me).
Proof.
  unfold cancel_direct_begin. apply quiet_bind; [auto with coord|]. intros c0.
  apply quiet_bind; [|auto with coord]. intros c Hc.
  match goal with |- context [foldl _ _ ?ts] =>
    destruct (cancel_tasks_frame ts (co_sched c)) as [Hw Hn] end.
  apply with_sched_ok; [done|by rewrite Hn|done].
Qed.
#[export] Hint Resolve quiet_cancel_direct_begin : coord.

Lemma quiet_request_direct_cancel rs me : coord_quiet (request_direct_cancel rs me).
Proof. unfold request_direct_cancel. auto 15 with coord. Qed.
#[export] Hint Resolve quiet_request_direct_cancel : coord.

Lemma quiet_sched_cancel_begin rs :
  coord_quiet (λ c, let '(targets, s) := cancel_begin rs (co_sched c) in (Ret targets, with_sched s c)).
Proof.
  intros c Hc. pose proof (cancel_begin_frame rs (co_sched c)) as [Hw Hn].
  destruct (cancel_begin _ _) as [targets s]. apply with_sched_ok; simpl in *; [done|lia|done].
Qed.

Lemma quiet_cancel_execution_begin sid rid eid gen excluded :
  coord_quiet (cancel_execution_begin sid rid eid gen excluded).
Proof. unfold cancel_execution_begin. auto 25 using quiet_sched_cancel_begin with coord. Qed.

Lemma quiet_cancel_settle hs timed_out : coord_quiet (cancel_settle hs timed_out).
Proof. induction hs as [|r hs IH]; cbn [cancel_settle]; auto 15 with coord. Qed.
#[export] Hint Resolve quiet_cancel_settle : coord.

Lemma quiet_cancel_execution_end sid hs timed_out :
  coord_quiet (cancel_execution_end sid hs timed_out).
Proof. unfold cancel_execution_end, refresh_by_id. auto 15 with coord. Qed.
Lemma quiet_cancel_descendants_begin p me : coord_quiet (cancel_descendants_begin p me).
Proof. unfold cancel_descendants_begin. auto 15 with coord. Qed.
Lemma quiet_cancel_descendants_end ds timed_out : coord_quiet (cancel_descendants_end ds timed_out).
Proof. unfold cancel_descendants_end. auto 15 with coord. Qed.
Lemma quiet_close_begin_session sid gen me : coord_quiet (close_begin_session sid gen me).
Proof. unfold close_begin_session. auto 25 with coord. Qed.
Lemma quiet_close_mark timed_out r : coord_quiet (close_mark timed_out r).
Proof. unfold close_mark. auto 15 with coord. Qed.
#[export] Hint Resolve quiet_close_mark : coord.
Lemma quiet_close_end_session sid rec gen timed_out :
  coord_quiet (close_end_session sid rec gen timed_out).
Proof. unfold close_end_session. auto 15 with coord. Qed.

Lemma drain_entries_frame q l s :
  world (drain_entries q l s) = world s ∧ next_ref (drain_entries q l s) = next_ref s.
Proof.
  revert s. induction q as [|e q IH]; intros s; cbn [drain_entries]; [done|].
  rewrite drain_step. destruct (IH (upd_lane l (drop_first e q)
    (settle (qw_result (e_work e)) Cancelled s))) as [-> ->]. simpl.
  by destruct (settle_frame (qw_result (e_work e)) Cancelled s)
    as (? & _ & _ & _ & _ & _ & _ & _ & _ & ?).
Qed.

Lemma close_session_begin_frame caller sid gen s :
  world (close_session_begin caller sid gen s).2 = world s ∧
  next_ref (close_session_begin caller sid gen s).2 = next_ref s.
Proof.
  unfold close_session_begin. destruct (od_get (lanes s) sid) as [l|]; [|done].
  destruct (lane_heap s !! l) as [ln0|]; [|done].
  destruct (match gen with Some _ => _ | None => _ end); [done|].
  set (s0 := with_lanes _ s).
  assert (world (drain_queued l s0) = world s ∧ next_ref (drain_queued l s0) = next_ref s) as [Hw Hn].
  { unfold drain_queued. case_match; [|done]. by destruct (drain_entries_frame (queue l0) l s0). }
  destruct (lane_heap (drain_queued l s0) !! l) as [ln|]; [|done]. simpl.
  set (s2 := match processor ln with Some _ => _ | None => _ end).
  assert (world s2 = world s ∧ next_ref s2 = next_ref s) as [Hw2 Hn2].
  { subst s2. unfold cancel_processor, cancel_task. by repeat case_match. }
  by destruct (decide _).
Qed.

Lemma quiet_close_lane sid rec me : coord_quiet (close_lane sid rec me).
Proof.
  unfold close_lane. apply quiet_bind; [auto with coord|]. intros c0 c Hc.
  pose proof (close_session_begin_frame (Some me) sid (Some (rec_generation (record c0 rec)))
    (co_sched c)) as [Hw Hn].
  destruct (close_session_begin _ _ _ _) as [r s]. apply with_sched_ok; simpl in *; [done|lia|done].
Qed.

(** ** Registering a Session *)

Definition renew_record (sid channel : string) (policy : SessionPersistencePolicy) (c : Coord) : Coord :=
  let gen := (default 0 (generations c !! sid) + 1)%Z in
  let rec := next_ref (co_sched c) in
  with_sessions (od_set (sessions c) sid rec)
    (with_records (<[rec := mk_record sid (str_or channel "default") policy gen READY true []]>
                     (co_records c))
       (with_generations (<[sid := gen]> (generations c))
          (with_sched (with_next_ref (S rec) (co_sched c)) c))).

Lemma renew_ok sid channel policy c :
  coord_inv c →
  coord_inv (renew_record sid channel policy c) ∧ evolves c (renew_record sid channel policy c) ∧
  ∀ r, hident (cworld (renew_record sid channel policy c)) r = hident (cworld c) r.
Proof.
  intros Hc.
  assert (co_records c !! next_ref (co_sched c) = None) as Hn.
  { destruct (co_records c !! next_ref (co_sched c)) as [x|] eqn:E; [|done].
    apply (ci_fresh_rec _ Hc) in E. lia. }
  destruct Hc. split_and!; [split|split|done]; unfold cworld in *; simpl; try done.
  - intros r i Hi. apply ci_fresh0 in Hi. lia.
  - intros r x. rewrite lookup_insert. case_decide; [lia|]. intros Hx. apply ci_fresh_rec0 in Hx. lia.
  - by apply od_wf_set.
  - intros sid' rec. rewrite od_get_set. case_decide as Hd.
    + intros [= <-]. subst sid'. rewrite !lookup_insert_eq. eexists. by split_and!.
    + intros Hr. destruct (ci_sessions0 sid' rec Hr) as (x & Hx & ? & ?). exists x.
      rewrite !lookup_insert_ne; [done|congruence|congruence].
  - intros r. by apply keeps_outcome_same.
  - intros sid' g Hg. rewrite lookup_insert. case_decide; [subst|by eauto with lia].
    rewrite Hg. simpl. eexists. split; [done|lia].
  - intros rec x Hx. rewrite lookup_insert_ne; [by eauto|congruence].
  - lia.
Qed.

(** What follows a quiet change of state *)
Lemma quiet_after {A} (m : coord A) c c1 :
  coord_inv c1 ∧ evolves c c1 ∧ (∀ r, hident (cworld c1) r = hident (cworld c) r) →
  coord_quiet m →
  coord_inv (m c1).2 ∧ evolves c (m c1).2 ∧ ∀ r, hident (cworld (m c1).2) r = hident (cworld c) r.
Proof.
  intros (Hc1 & He1 & Hi1) Hm. destruct (Hm c1 Hc1) as (Hc2 & He2 & Hi2).
  split_and!; [done|by etrans|intros r; by rewrite Hi2].
Qed.

Lemma quiet_register_session sid channel policy : coord_quiet (register_session sid channel policy).
Proof.
  unfold register_session. apply quiet_bind; [auto with coord|]. intros _.
  apply quiet_bind_get. intros c Hc. unfold py_guard.
  destruct (accepting c); [|by apply quiet_raise]. unfold py_bind at 1, py_ret at 1.
  assert (coord_inv (session_snapshot (next_ref (co_sched c))
      (renew_record (py_strip sid) channel policy c)).2 ∧ _) as Hrenew
    by (apply quiet_after; [by apply renew_ok|auto with coord]).
  destruct (od_get (sessions c) (py_strip sid)) as [rec|]; [|exact Hrenew].
  case_bool_decide; [exact Hrenew|].
  assert (coord_quiet (r <- (upd_record rec (λ r, set_rec_channel
    (str_or channel (rec_channel_id r)) policy r) ;; py_ret rec) ;; session_snapshot r)) as Hq
    by auto 10 with coord.
  by apply Hq.
Qed.

(** ** Calls that create an execution *)

(** [uuid] was not used before. *)
Definition uuid_new (uuid : string) (c : Coord) : Prop :=
  ∀ r i, hident (cworld c) r = Some i → execution_id i ≠ uuid.

Definition parent_known (parent_id : option string) (c : Coord) : Prop :=
  ∀ p, parent_id = Some p → known c p.

Definition coord_creates {A} (uuid : string) (parent_id : option string) (m : coord A) : Prop :=
  ∀ c, coord_inv c → uuid_new uuid c → parent_known parent_id c →
    coord_inv (m c).2 ∧ evolves c (m c).2.

Lemma uuid_new_same uuid c c' :
  (∀ r, hident (cworld c') r = hident (cworld c) r) → uuid_new uuid c → uuid_new uuid c'.
Proof. intros Hi Hu r i. rewrite Hi. apply Hu. Qed.

Lemma known_same p c c' :
  (∀ r, hident (cworld c') r = hident (cworld c) r) → known c p → known c' p.
Proof. intros Hi (r & i & Hr & He). exists r, i. by rewrite Hi. Qed.

Section creates.
Context (uuid : string) (parent_id : option string).

Lemma creates_quiet {A} (m : coord A) : coord_quiet m → coord_creates uuid parent_id m.
Proof. intros Hm c Hc _ _. by destruct (Hm c Hc) as (? & ? & _). Qed.

Lemma creates_after_quiet {A B} (m : coord A) (k : A → coord B) :
  coord_quiet m → (∀ a, coord_creates uuid parent_id (k a)) → coord_creates uuid parent_id (py_bind m k).
Proof.
  intros Hm Hk c Hc Hu Hp. destruct (Hm c Hc) as (Hc1 & He1 & Hi1). unfold py_bind.
  destruct (m c) as [[a|e] c1]; [|done]. simpl in *.
  destruct (Hk a c1 Hc1) as (Hc2 & He2).
  - by eapply uuid_new_same.
  - intros p Heq. eapply known_same; [exact Hi1|by apply Hp].
  - split; [done|by etrans].
Qed.

Lemma creates_then_quiet {A B} (m : coord A) (k : A → coord B) :
  coord_creates uuid parent_id m → (∀ a, coord_quiet (k a)) → coord_creates uuid parent_id (py_bind m k).
Proof.
  intros Hm Hk c Hc Hu Hp. destruct (Hm c Hc Hu Hp) as (Hc1 & He1). unfold py_bind.
  destruct (m c) as [[a|e] c1]; [|done]. destruct (Hk a c1 Hc1) as (Hc2 & He2 & _).
  split; [done|by etrans].
Qed.

(** The state with the new handle, before it is registered *)
Definition with_new_handle (i : HandleIdent) (ag : option agent_ref) (c : Coord) : Coord :=
  let r := next_ref (co_sched c) in
  with_cworld (with_heap (<[r := new_handle i ag]> (heap (cworld c))) (cworld c))
    (with_sched (with_next_ref (S r) (co_sched c)) c).

Lemma hident_new_handle i ag c r :
  hident (cworld (with_new_handle i ag c)) r =
    if decide (next_ref (co_sched c) = r) then Some i else hident (cworld c) r.
Proof.
  unfold hident, cworld. simpl. rewrite lookup_insert. by case_decide.
Qed.

Lemma fresh_handle c : coord_inv c → heap (cworld c) !! next_ref (co_sched c) = None.
Proof.
  intros Hc. destruct (heap (cworld c) !! next_ref (co_sched c)) as [h|] eqn:Hh; [|done].
  assert (hident (cworld c) (next_ref (co_sched c)) = Some (ident h)) as Hi
    by (unfold hident; by rewrite Hh).
  apply (ci_fresh _ Hc) in Hi. lia.
Qed.

Lemma with_new_handle_ok i ag c :
  coord_inv c → execution_id i = uuid → parent_execution_id i = parent_id →
  uuid_new uuid c → parent_known parent_id c →
  coord_inv (with_new_handle i ag c) ∧ evolves c (with_new_handle i ag c).
Proof.
  intros Hc He Hpi Hu Hp. pose proof (fresh_handle c Hc) as Hf.
  pose proof (hident_new_handle i ag c) as Hid.
  destruct Hc. split; split; try done.
  - eapply index_ok_ext; [..|exact ci_index0]; try done. intros eid r Hr.
    rewrite Hid, decide_False; [done|]. intros <-.
    destruct (ix_ident _ ci_index0 _ _ Hr) as (j & Hj & _). unfold hident in Hj. by rewrite Hf in Hj.
  - intros r j. rewrite Hid. simpl. case_decide; [lia|]. intros Hj. apply ci_fresh0 in Hj. lia.
  - intros r x Hx. apply ci_fresh_rec0 in Hx. simpl. lia.
  - intros r r' j j'. rewrite !Hid. repeat case_decide; intros Hj Hj' Heq; simplify_eq; try done.
    + exfalso. by eapply Hu.
    + exfalso. eapply Hu; [exact Hj|done].
    + by eapply ci_ids0.
  - intros r j p. rewrite Hid. intros Hj Hjp. case_decide as Hd.
    + injection Hj as <-. subst r. rewrite Hpi in Hjp.
      destruct (Hp p Hjp) as (r' & j' & Hr' & Hid'). exists r', j'.
      pose proof (ci_fresh0 _ _ Hr'). rewrite Hid, decide_False by lia. by split_and!.
    + destruct (ci_parent0 r j p Hj Hjp) as (r' & j' & ? & Hr' & ?). exists r', j'.
      pose proof (ci_fresh0 _ _ Hr'). rewrite Hid, decide_False by lia. by split_and!.
  - intros r j Hj. rewrite Hid, decide_False; [done|]. intros <-. apply ci_fresh0 in Hj. lia.
  - intros r h Hr Ht. exists h. split_and!; try done. unfold cworld in *. simpl.
    rewrite lookup_insert_ne; [done|]. intros <-. congruence.
  - eauto with lia.
  - by eauto.
  - simpl. lia.
Qed.

(** The state in which the new handle is registered *)
Definition with_registered (i : HandleIdent) (ag : option agent_ref) (c : Coord) : Coord :=
  let c1 := with_new_handle i ag c in
  with_cworld (register (next_ref (co_sched c)) (cworld c1)).2 c1.

Lemma uuid_unregistered c : coord_inv c → uuid_new uuid c → od_get (executions (cworld c)) uuid = None.
Proof.
  intros Hc Hu. destruct (od_get (executions (cworld c)) uuid) as [r|] eqn:Hg; [|done]. exfalso.
  destruct (ix_ident _ (ci_index _ Hc) _ _ Hg) as (j & Hj & He). by eapply Hu.
Qed.

Lemma new_handle_heap i ag c :
  heap (cworld (with_new_handle i ag c)) !! next_ref (co_sched c) = Some (new_handle i ag).
Proof. unfold cworld. simpl. by rewrite lookup_insert_eq. Qed.

(** Its id is not taken, so [register] does not raise. *)
Lemma register_new i ag c :
  coord_inv c → execution_id i = uuid → uuid_new uuid c →
  reg_call (register (next_ref (co_sched c))) (with_new_handle i ag c) =
    (Ret tt, with_registered i ag c).
Proof.
  intros Hc He Hu. unfold with_registered, reg_call.
  rewrite (register_fresh _ _ (new_handle i ag)); [done|apply new_handle_heap|].
  unfold h_execution_id. simpl. rewrite He. by apply uuid_unregistered.
Qed.

Lemma with_registered_ok i ag c :
  coord_inv c → execution_id i = uuid → parent_execution_id i = parent_id →
  uuid_new uuid c → parent_known parent_id c →
  coord_inv (with_registered i ag c) ∧ evolves c (with_registered i ag c).
Proof.
  intros Hc He Hpi Hu Hp.
  destruct (with_new_handle_ok i ag c Hc He Hpi Hu Hp) as [Hc1 He1].
  unfold with_registered. set (r := next_ref (co_sched c)).
  set (c1 := with_new_handle i ag c) in *.
  assert (world_ok (cworld c1) (register r (cworld c1)).2) as Hw.
  { rewrite (register_fresh _ r (new_handle i ag));
      [|apply new_handle_heap|unfold h_execution_id; simpl; rewrite He; by apply uuid_unregistered].
    split; simpl.
    - intros Hix. apply index_ok_register; [by apply evict_index| |].
      + rewrite evict_heap. apply new_handle_heap.
      + apply evict_None. unfold h_execution_id. simpl. rewrite He. by apply uuid_unregistered.
    - intros r'. unfold hident. simpl. by rewrite evict_heap.
    - intros r'. apply keeps_outcome_same. apply evict_heap. }
  destruct (with_cworld_ok c1 _ Hw Hc1) as (Hc2 & He2 & _). split; [done|by etrans].
Qed.

Lemma create_execution_eq rec rid k channel team parent c :
  coord_inv c → uuid_new uuid c →
  let i := execution_ident c rec uuid rid k parent_id channel team parent in
  create_execution rec uuid rid k parent_id channel team parent c =
    (upd_record rec (set_rec_state ACTIVE) ;; py_ret (next_ref (co_sched c)))
      (with_registered i (p ← parent; agent (handle c p)) c).
Proof.
  intros Hc Hu i. unfold create_execution. unfold py_bind at 1, py_get.
  pose proof (register_new i (p ← parent; agent (handle c p)) c Hc eq_refl Hu) as Hr.
  unfold py_bind at 1, new_ref. unfold py_bind at 1, reg_do, py_modify.
  unfold py_bind at 1. unfold with_new_handle, i in Hr. cbv zeta in Hr.
  change (cworld (with_sched (with_next_ref (S (next_ref (co_sched c))) (co_sched c)) c))
    with (cworld c).
  by rewrite Hr.
Qed.

Lemma creates_new_execution rec rid k channel team :
  coord_creates uuid parent_id (new_execution rec uuid rid k parent_id channel team).
Proof.
  unfold new_execution. apply creates_after_quiet; [auto with coord|]. intros _.
  apply creates_after_quiet; [auto 10 with coord|]. intros _.
  apply creates_after_quiet; [auto 10 with coord|]. intros parent c Hc Hu Hp.
  rewrite create_execution_eq by done.
  set (c1 := with_registered _ _ c).
  assert (coord_inv c1 ∧ evolves c c1) as [Hc1 He1].
  { by apply with_registered_ok. }
  assert (coord_quiet (upd_record rec (set_rec_state ACTIVE) ;;
    py_ret (next_ref (co_sched c)))) as Hq by auto 10 with coord.
  destruct (Hq c1 Hc1) as (Hc2 & He2 & _). split; [done|by etrans].
Qed.

End creates.

Lemma creates_run_unary_begin uuid sid rid k team w :
  coord_creates uuid None (run_unary_begin sid rid k uuid team w).
Proof.
  unfold run_unary_begin.
  apply creates_after_quiet; [auto with coord|]. intros rec.
  apply creates_after_quiet; [auto with coord|]. intros target.
  apply creates_then_quiet; [apply creates_new_execution|]. auto 10 with coord.
Qed.

Lemma creates_submit_unary uuid sid rid k task :
  coord_creates uuid None (submit_unary sid rid k uuid task).
Proof.
  unfold submit_unary.
  apply creates_after_quiet; [auto with coord|]. intros rec.
  apply creates_after_quiet; [auto with coord|]. intros c0.
  apply creates_after_quiet; [auto with coord|]. intros existing.
  apply creates_after_quiet; [auto with coord|]. intros c1.
  destruct (last existing); [apply creates_quiet; auto 10 with coord|].
  apply creates_then_quiet; [apply creates_new_execution|]. auto 10 with coord.
Qed.

Lemma creates_run_stream_begin uuid parent_id b sid rid k channel team task :
  coord_creates uuid parent_id (run_stream_begin b sid rid k uuid parent_id channel team task).
Proof.
  unfold run_stream_begin. apply creates_after_quiet; [auto with coord|]. intros _.
  apply creates_after_quiet; [auto with coord|]. intros rec.
  apply creates_after_quiet; [auto with coord|]. intros target.
  apply creates_then_quiet; [apply creates_new_execution|]. auto 10 with coord.
Qed.

Lemma hident_handle c r i : hident (cworld c) r = Some i → ident (handle c r) = i.
Proof.
  unfold hident, handle, handle_in, hget. destruct (heap (cworld c) !! r) as [h|]; simpl; [|done].
  by intros [= ->].
Qed.

Lemma creates_deliver_begin rec parent rid uuid me c :
  coord_inv c → uuid_new uuid c → (∃ i, hident (cworld c) parent = Some i) →
  coord_inv (deliver_begin rec parent rid uuid me c).2 ∧
  evolves c (deliver_begin rec parent rid uuid me c).2.
Proof.
  intros Hc Hu [i Hi].
  set (m := r <- new_execution rec uuid rid CONTROL_INPUT
                   (Some (h_execution_id (handle c parent))) "default" None ;;
            c' <- py_get ;;
            let was_waiting := bool_decide (state (handle c' parent) = WAITING_FOR_CONTROL) in
            (if was_waiting then reg_do (resume_waiting parent) else py_ret tt) ;;
            reg_do (hupd r (set_task (Some me))) ;;
            reg_do (mark_running r) ;;
            py_ret (waiting_control_ids (handle c parent), r, was_waiting)).
  assert (deliver_begin rec parent rid uuid me c =
    match m c with
    | (Ret a, c1) => (Ret a, c1)
    | (Exc e, c1) => delivery_finally rec parent (py_raise e) c1
    end) as -> by done.
  assert (coord_creates uuid (Some (h_execution_id (handle c parent))) m) as Hm.
  { subst m. apply creates_then_quiet; [apply creates_new_execution|]. auto 15 with coord. }
  destruct (Hm c Hc Hu) as [Hc1 He1].
  { intros p [= <-]. exists parent, i. split; [done|]. unfold h_execution_id.
    by rewrite (hident_handle _ _ _ Hi). }
  destruct (m c) as [[a|e] c1]; [by split|]. simpl in *.
  assert (coord_quiet (delivery_finally rec parent (py_raise (A := gset string * href * bool) e))) as Hq
    by auto with coord.
  destruct (Hq c1 Hc1) as (Hc2 & He2 & _). split; [done|by etrans].
Qed.

(** ** The scheduler's own steps *)

Definition sched_ok (s s' : Sched) : Prop :=
  world_ok (world s) (world s') ∧ next_ref s ≤ next_ref s'.

#[export] Instance sched_ok_preorder : PreOrder sched_ok.
Proof.
  split; [by split|]. intros s1 s2 s3 [W1 N1] [W2 N2]. split; [by etrans|lia].
Qed.

Lemma sched_ok_same s s' : world s' = world s → next_ref s' = next_ref s → sched_ok s s'.
Proof. intros Hw Hn. split; [by rewrite Hw|lia]. Qed.

Lemma world_ok_env w d now : world_ok w (with_env d now w).
Proof. split; [by apply index_ok_ext|done|]. intros r. by apply keeps_outcome_same. Qed.

Lemma sched_ok_settle f c s : sched_ok s (settle f c s).
Proof.
  destruct (settle_frame f c s) as (? & _ & _ & _ & _ & _ & _ & _ & _ & ?). by apply sched_ok_same.
Qed.

Lemma sched_ok_finish_closing key t s : sched_ok s (finish_closing key t s).
Proof. unfold finish_closing. case_match; [by apply sched_ok_same|done]. Qed.

Lemma sched_ok_finish_task t s : sched_ok s (finish_task t s).
Proof. split; [apply world_ok_env|done]. Qed.

Lemma sched_ok_drain l s : sched_ok s (drain_queued l s).
Proof.
  unfold drain_queued. case_match; [|done].
  match goal with |- context [drain_entries ?q _ _] =>
    destruct (drain_entries_frame q l s) end. by apply sched_ok_same.
Qed.

Lemma sched_ok_finally l s : sched_ok s (proc_finally l s).
Proof.
  unfold proc_finally. destruct (lane_heap s !! l) as [ln|]; [|done]. cbv zeta.
  set (s1 := if is_registered _ _ _ then _ else _).
  transitivity s1; [unfold s1; case_match; [by apply sched_ok_same|done]|].
  transitivity (drain_queued l s1); [apply sched_ok_drain|].
  transitivity (set_point l Returned (drain_queued l s1)); [by apply sched_ok_same|].
  destruct (processor ln); [|done]. etrans; [apply sched_ok_finish_closing|].
  apply sched_ok_finish_task.
Qed.

Lemma sched_ok_set_task r t s : sched_ok s (with_world (hupd r (set_task t) (world s)) s).
Proof. split; [by apply world_ok_hupd|done]. Qed.

Lemma sched_ok_loop q checked l s : sched_ok s (proc_loop q checked l s).
Proof.
  revert checked s. induction q as [|e q IH]; intros checked s; cbn [proc_loop].
  - destruct (lane_heap s !! l); [|done]. case_match; [apply sched_ok_finally|by apply sched_ok_same].
  - destruct (lane_heap s !! l) as [ln|] eqn:Hl; [|done]. case_match; [apply sched_ok_finally|].
    case_match.
    + etrans; [|apply IH]. by apply sched_ok_same.
    + rewrite (started_eq l ln) by done. split; simpl; [by apply world_ok_hupd|lia].
Qed.

Lemma sched_ok_after_task l q c s : sched_ok s (proc_after_task l q c s).
Proof.
  unfold proc_after_task. etrans; [apply (sched_ok_settle (qw_result q) c)|].
  etrans; [|apply sched_ok_loop]. etrans; [apply (sched_ok_set_task (qw_handle q) None)|].
  by apply sched_ok_same.
Qed.

Lemma sched_ok_consume l s : sched_ok s (consume_cancel l s).
Proof. unfold consume_cancel. repeat case_match; try done; by apply sched_ok_same. Qed.

Lemma sched_ok_run l s s' : proc_run l s = Some s' → sched_ok s s'.
Proof.
  unfold proc_run. set (s1 := if proc_cancel_pending s l then _ else _).
  assert (sched_ok s s1) as H1 by (unfold s1; case_match; [apply sched_ok_consume|done]).
  intros Hr. transitivity s1; [exact H1|]. clearbody s1. revert Hr.
  assert (sched_ok s1 (proc_never_ran l s1)) as Hn.
  { unfold proc_never_ran. destruct (lane_heap s1 !! l) as [ln|]; [|done]. cbv zeta.
    transitivity (set_point l Returned s1); [by apply sched_ok_same|].
    destruct (processor ln); [apply sched_ok_finish_task|done]. }
  assert (sched_ok s1 (proc_cancelled l s1)) as Hc.
  { unfold proc_cancelled. repeat case_match; try done; try apply sched_ok_finally.
    apply sched_ok_same; unfold cancel_task; by case_match. }
  destruct (proc_at s1 !! l) as [[| |q t|t|]|]; try done.
  - intros [= <-]. case_match; [done|apply sched_ok_loop].
  - case_match; [by intros [= <-]|]. intros Hr.
    assert (∃ q, s' = proc_loop q true l s1) as [q ->]; [|apply sched_ok_loop].
    destruct (lane_queue s1 l) as [|e q]; [done|]. exists (e :: q). by injection Hr as <-.
  - case_match; [|done]. intros [= <-]. apply sched_ok_after_task.
  - case_match; [|done]. intros [= <-]. apply sched_ok_finally.
Qed.

Lemma sched_ok_coord c s :
  sched_ok (co_sched c) s → coord_inv c →
  coord_inv (with_sched s c) ∧ evolves c (with_sched s c).
Proof.
  intros [Hw Hn] Hc. destruct (with_cworld_ok c (world s) Hw Hc) as (Hc1 & He1 & _).
  destruct (with_sched_ok (with_cworld (world s) c) s) as (Hc2 & He2 & _); [done|done|done|].
  split; [done|by etrans].
Qed.

(** ** The coordinator as a transition system

    Each call of a method, or of a part of it between two awaits, together with
    the steps of the scheduler's processors and of the tasks. *)

Inductive coord_step (c : Coord) : Coord → Prop :=
| cs_register_session sid ch p : coord_step c (register_session sid ch p c).2
| cs_run_unary sid rid k uuid team w :
    uuid_new uuid c → coord_step c (run_unary_begin sid rid k uuid team w c).2
| cs_run_unary_start rec r op ctx me : coord_step c (run_unary_start rec r op ctx me c).2
| cs_run_unary_end rec target : coord_step c (run_unary_end rec target c).2
| cs_submit_unary sid rid k uuid task :
    uuid_new uuid c → coord_step c (submit_unary sid rid k uuid task c).2
| cs_tracked_begin rec r : coord_step c (tracked_begin rec r c).2
| cs_tracked_end rec r o e t : coord_step c (tracked_end rec r o e t c).2
| cs_await_terminal_begin r me : coord_step c (await_terminal_begin r me c).2
| cs_await_terminal_end r : coord_step c (await_terminal_end r c).2
| cs_run_unary_cancel_begin r : coord_step c (run_unary_cancel_begin r c).2
| cs_run_unary_cancel_settle r e t : coord_step c (run_unary_cancel_settle r e t c).2
| cs_run_unary_finally r me : coord_step c (run_unary_finally r me c).2
| cs_owner_task_done r t : coord_step c (owner_task_done r t c).2
| cs_record_interaction sid rid ids : coord_step c (record_interaction sid rid ids c).2
| cs_bind_agent sid rid a : coord_step c (bind_agent sid rid a c).2
| cs_control_target_agent sid names : coord_step c (control_target_agent sid names c).2
| cs_has_control_target sid rid : coord_step c (has_control_target sid rid c).2
| cs_recoverable sid rid eid : coord_step c (recoverable_control sid rid eid c).2
| cs_waiting_interactions sid rid : coord_step c (waiting_interactions sid rid c).2
| cs_unanswered sid : coord_step c (unanswered_interactions sid c).2
| cs_control_target_work_kind sid rid : coord_step c (control_target_work_kind sid rid c).2
| cs_quiesce sid gen : coord_step c (quiesce_session sid gen c).2
| cs_mark_waiting_for_input eid : coord_step c (mark_waiting_for_input eid c).2
| cs_mark_session_waiting sid gen : coord_step c (mark_session_waiting_for_input sid gen c).2
| cs_resume_waiting sid gen : coord_step c (resume_waiting_for_input sid gen c).2
| cs_get_execution eid : coord_step c (get_execution_snapshot eid c).2
| cs_snapshot_session sid : coord_step c (snapshot_session sid c).2
| cs_snapshot_sessions : coord_step c (snapshot_sessions c).2
| cs_claim sid names dup w : coord_step c (claim_control_parent sid names dup w c).2
| cs_deliver_begin rec p rid uuid me :
    uuid_new uuid c → (∃ i, hident (cworld c) p = Some i) →
    coord_step c (deliver_begin rec p rid uuid me c).2
| cs_deliver_control_end sid rec p r names cl w o :
    coord_step c (deliver_control_end sid rec p r names cl w o c).2
| cs_stream_item rec r ids reissued : coord_step c (stream_item rec r ids reissued c).2
| cs_deliver_stream_end rec p r names cl re w me o :
    coord_step c (deliver_stream_end rec p r names cl re w me o c).2
| cs_stream_session_input sid e : coord_step c (stream_session_input sid e c).2
| cs_run_stream b sid rid k uuid parent ch team task :
    uuid_new uuid c → parent_known parent c →
    coord_step c (run_stream_begin b sid rid k uuid parent ch team task c).2
| cs_produce_end rec r target me o : coord_step c (produce_end rec r target me o c).2
| cs_cancel_execution sid rid eid gen ex : coord_step c (cancel_execution_begin sid rid eid gen ex c).2
| cs_request_direct_cancel rs me : coord_step c (request_direct_cancel rs me c).2
| cs_cancel_execution_end sid hs ts : coord_step c (cancel_execution_end sid hs ts c).2
| cs_cancel_descendants p me : coord_step c (cancel_descendants_begin p me c).2
| cs_cancel_descendants_end ds ts : coord_step c (cancel_descendants_end ds ts c).2
| cs_close_session sid gen me : coord_step c (close_begin_session sid gen me c).2
| cs_close_lane sid rec me : coord_step c (close_lane sid rec me c).2
| cs_close_session_end sid rec gen ts : coord_step c (close_end_session sid rec gen ts c).2
| cs_close : coord_step c (close_coordinator c).2
| cs_processor l s : proc_run l (co_sched c) = Some s → coord_step c (with_sched s c)
| cs_operation_done t o :
    coord_step c (with_sched (finish_task t
      (with_completions (<[t := o]> (completions (co_sched c))) (co_sched c))) c)
| cs_submitter_gone f : coord_step c (with_sched (settle f Cancelled (co_sched c)) c)
| cs_lane_waited cid key ts :
    coord_step c (with_sched (WorkScheduler.close_session_end cid key ts (co_sched c)).2 c)
| cs_fence f : coord_step c (mk_coord (co_sched c) (co_records c) (sessions c) (generations c)
    (accepting c) (settled c) f)
| cs_time now :
    coord_step c (with_cworld (with_env (done_tasks (cworld c)) now (cworld c)) c).

Definition coord_steps : Coord → Coord → Prop := rtc coord_step.

Lemma quiet_ok {A} (m : coord A) c :
  coord_quiet m → coord_inv c → coord_inv (m c).2 ∧ evolves c (m c).2.
Proof. intros Hm Hc. by destruct (Hm c Hc) as (? & ? & _). Qed.

#[export] Hint Resolve quiet_register_session quiet_run_unary_start quiet_await_terminal_begin
  quiet_await_terminal_end quiet_run_unary_cancel_begin quiet_run_unary_cancel_settle
  quiet_run_unary_finally quiet_owner_task_done quiet_record_interaction quiet_bind_agent
  quiet_control_target_agent quiet_has_control_target quiet_recoverable
  quiet_waiting_interactions quiet_unanswered quiet_control_target_work_kind quiet_quiesce
  quiet_mark_waiting_for_input quiet_mark_session_waiting quiet_resume_waiting_for_input
  quiet_get_execution_snapshot quiet_snapshot_session quiet_snapshot_sessions quiet_claim
  quiet_deliver_control_end quiet_stream_item quiet_deliver_stream_end
  quiet_stream_session_input quiet_produce_end quiet_cancel_execution_begin
  quiet_cancel_execution_end quiet_cancel_descendants_begin quiet_cancel_descendants_end
  quiet_close_begin_session quiet_close_lane quiet_close_end_session : coord.

Lemma parent_known_None c : parent_known None c.
Proof. done. Qed.

Lemma close_coordinator_ok c :
  coord_inv c → coord_inv (close_coordinator c).2 ∧ evolves c (close_coordinator c).2.
Proof.
  intros []. unfold close_coordinator, py_bind, py_modify, py_get, py_ret. simpl.
  split; split; simpl; try done; [intros; by apply keeps_outcome_same|eauto with lia|by eauto].
Qed.

Lemma coord_step_ok c c' : coord_step c c' → coord_inv c → coord_inv c' ∧ evolves c c'.
Proof.
  intros [] Hc; try (apply quiet_ok; [solve [auto with coord]|done]).
  - by apply (creates_run_unary_begin uuid).
  - by apply (creates_submit_unary uuid).
  - by apply creates_deliver_begin.
  - by apply (creates_run_stream_begin uuid parent).
  - by apply close_coordinator_ok.
  - apply sched_ok_coord; [by eapply sched_ok_run|done].
  - apply sched_ok_coord; [|done]. etrans; [|apply sched_ok_finish_task]. by apply sched_ok_same.
  - apply sched_ok_coord; [apply sched_ok_settle|done].
  - apply sched_ok_coord; [|done]. unfold WorkScheduler.close_session_end. simpl. unfold set_fold.
    simpl. induction (elements _); simpl; [done|]. etrans; [done|apply sched_ok_finish_closing].
  - destruct Hc. split; split; simpl; try done;
      [intros; by apply keeps_outcome_same|eauto with lia|by eauto].
  - destruct (with_cworld_ok c (with_env (done_tasks (cworld c)) now (cworld c)))
      as (? & ? & _); [apply world_ok_env|done|by split].
Qed.

Lemma coord_steps_ok c c' : coord_steps c c' → coord_inv c → coord_inv c' ∧ evolves c c'.
Proof.
  induction 1 as [c|c1 c2 c3 Hs _ IH]; intros Hc; [done|].
  destruct (coord_step_ok _ _ Hs Hc) as [Hc2 He2]. destruct (IH Hc2) as [Hc3 He3].
  split; [done|by etrans].
Qed.

(** [RuntimeSessionCoordinator()]: a new registry, a new scheduler. *)
Definition coord_init (capacity ttl now : Z) (f : string → option string) : Coord :=
  mk_coord (sched_init (mk_world ∅ ∅ now capacity ttl [] ∅ ∅ []) 0) ∅ [] ∅ true ∅ f.

Lemma coord_init_inv capacity ttl now f : coord_inv (coord_init capacity ttl now f).
Proof.
  split; try done; [|apply od_wf_nil]. split; try done; [apply od_wf_nil| |].
  - intros sid eid. split; [intros H; unfold cworld in H; simpl in H; set_solver|].
    by intros (i & (r & Hr & _) & _).
  - intros k eid. split; [intros H; unfold cworld in H; simpl in H; set_solver|].
    by intros (i & (r & Hr & _) & _).
Qed.
