(* ===== verification/CoordinatorProps.v ===== *)
(** * What the coordinator guarantees

    Theorems on [Coordinator]: lifecycle of Sessions, supersession, routing of
    answers, lineages and descendants, cancelling and closing.  Those that hold
    along runs use the invariant of [CoordinatorInv]. *)

From S2P Require Import Prelude OrderedDict SessionModel ExecutionRegistry WorkScheduler Coordinator CoordinatorInv.

(** C1: in every state the coordinator reaches, the registry's indexes agree, a Session's
    record carries its current generation, execution ids are unique and every execution is
    younger than its parent; and no call changes the outcome of a finished execution or
    takes a Session's generation back. *)
Theorem coordinator_invariant capacity ttl now f c c' :
  coord_steps (coord_init capacity ttl now f) c → coord_steps c c' →
  coord_inv c' ∧ evolves c c'.
Proof.
  intros H1 H2. destruct (coord_steps_ok _ _ H1 (coord_init_inv capacity ttl now f)) as [Hc _].
  by destruct (coord_steps_ok _ _ H2 Hc).
Qed.

(** ** Sessions *)

Lemma session_snapshot_eq rec c :
  ∃ execs w, session_snapshot rec c =
    (Ret (mk_session_snapshot (rec_session_id (record c rec)) (rec_channel_id (record c rec))
            (rec_persistence_policy (record c rec)) (rec_generation (record c rec))
            (rec_state (record c rec)) execs), with_cworld w c).
Proof.
  unfold session_snapshot, py_bind, py_get, reg_get.
  destruct (snapshots_for_session _ _ _) as [execs w]. by exists execs, w.
Qed.

(** The record of an open Session, updated by a registration *)
Definition update_channel (rec : rec_ref) (channel : string) (p : SessionPersistencePolicy)
    (c : Coord) : Coord :=
  with_records (alter (λ r, set_rec_channel (str_or channel (rec_channel_id r)) p r) rec
    (co_records c)) c.

Lemma register_session_eq sid channel policy c :
  register_session sid channel policy c =
    if str_true (py_strip sid) then
      if accepting c then
        match od_get (sessions c) (py_strip sid) with
        | Some rec =>
            if bool_decide (rec_state (record c rec) = CLOSED)
            then session_snapshot (next_ref (co_sched c)) (renew_record (py_strip sid) channel policy c)
            else session_snapshot rec (update_channel rec channel policy c)
        | None =>
            session_snapshot (next_ref (co_sched c)) (renew_record (py_strip sid) channel policy c)
        end
      else (Exc (CoordRuntimeError "session coordinator is closed"), c)
    else (Exc (CoordValueError "session_id is required"), c).
Proof.
  unfold register_session, py_guard. destruct (str_true (py_strip sid)); [|done].
  unfold py_bind at 1, py_ret at 1. unfold py_bind at 1, py_get. unfold py_bind at 1.
  destruct (accepting c); [|done]. unfold py_ret at 1.
  destruct (od_get (sessions c) (py_strip sid)) as [rec|]; [|done]. by case_bool_decide.
Qed.

Lemma renew_record_get sid channel policy c :
  od_get (sessions (renew_record sid channel policy c)) sid = Some (next_ref (co_sched c)) ∧
  record (renew_record sid channel policy c) (next_ref (co_sched c)) =
    mk_record sid (str_or channel "default") policy (default 0%Z (generations c !! sid) + 1) READY
      true [].
Proof.
  split; [apply od_get_set_eq|]. unfold record. simpl. by rewrite lookup_insert_eq.
Qed.

(** registering a Session raises for a blank id or a closed coordinator and then changes
    nothing; a Session that is open keeps its record and generation; one that is unknown or
    closed gets a new record, ready, one generation later. *)
Theorem register_session_behaviour sid channel policy c :
  coord_inv c →
  let n := py_strip sid in
  match register_session sid channel policy c with
  | (Exc _, c') => (n = EmptyString ∨ accepting c = false) ∧ c' = c
  | (Ret s, c') =>
      n ≠ EmptyString ∧ accepting c = true ∧ ss_session_id s = n ∧
      ∃ rec, od_get (sessions c') n = Some rec ∧ rec_generation (record c' rec) = ss_generation s ∧
        rec_state (record c' rec) = ss_state s ∧
        match od_get (sessions c) n with
        | Some rec0 =>
            if decide (rec_state (record c rec0) = CLOSED)
            then ss_generation s = (rec_generation (record c rec0) + 1)%Z ∧ ss_state s = READY
            else rec = rec0 ∧ ss_generation s = rec_generation (record c rec0)
        | None => ss_generation s = (default 0 (generations c !! n) + 1)%Z ∧ ss_state s = READY
        end
  end.
Proof.
  intros Hc n. rewrite register_session_eq. fold n.
  destruct (str_true n) eqn:Hn.
  2:{ split; [left|done]. by destruct n. }
  apply str_true_spec in Hn. destruct (accepting c) eqn:Ha; [|split; [by right|done]].
  destruct (renew_record_get n channel policy c) as [Hg Hrec].
  destruct (session_snapshot_eq (next_ref (co_sched c)) (renew_record n channel policy c))
    as (execs & w & Hs). rewrite Hrec in Hs. simpl in Hs.
  destruct (od_get (sessions c) n) as [rec|] eqn:Hr.
  - destruct (ci_sessions _ Hc _ _ Hr) as (x & Hx & Hxs & Hxg).
    assert (record c rec = x) as Hrx by (unfold record; by rewrite Hx).
    case_bool_decide as Hcl.
    + rewrite Hs. split_and!; try done. exists (next_ref (co_sched c)).
      change (record (with_cworld w (renew_record n channel policy c)) ?r) with
        (record (renew_record n channel policy c) r). rewrite Hrec. split_and!; try done.
      rewrite decide_True by done. by rewrite Hrx, Hxg.
    + destruct (session_snapshot_eq rec (update_channel rec channel policy c)) as (execs' & w' & ->).
      assert (record (update_channel rec channel policy c) rec =
        set_rec_channel (str_or channel (rec_channel_id x)) policy x) as Hu.
      { unfold record. simpl. by rewrite lookup_alter_eq, Hx. }
      rewrite Hu. split_and!; try done. exists rec.
      change (record (with_cworld w' (update_channel rec channel policy c)) rec) with
        (record (update_channel rec channel policy c) rec). rewrite Hu. split_and!; try done.
      rewrite decide_False by done. by rewrite Hrx.
  - rewrite Hs. split_and!; try done. exists (next_ref (co_sched c)).
    change (record (with_cworld w (renew_record n channel policy c)) ?r) with
      (record (renew_record n channel policy c) r). by rewrite Hrec.
Qed.

(** ** Entry points of a Session that takes no work *)

(** [m] raises and changes nothing. *)
Definition refuses {A} (m : coord A) (c : Coord) : Prop := ∃ e, m c = (Exc e, c).

Lemma refuses_bind {A B} (m : coord A) (k : A → coord B) c : refuses m c → refuses (py_bind m k) c.
Proof. intros [e He]. exists e. unfold py_bind. by rewrite He. Qed.

Definition takes_no_work (sid : string) (c : Coord) : Prop :=
  is_Some (fence c sid) ∨ accepting c = false ∨
  match od_get (sessions c) sid with
  | None => True
  | Some rec => fenced (rec_state (record c rec)) = true
  end.

Lemma require_open_refuses sid c : takes_no_work sid c ↔ refuses (require_open_session sid) c.
Proof.
  unfold takes_no_work, refuses, require_open_session. unfold py_bind at 1, py_get.
  destruct (fence c sid) as [msg|].
  { split; [|by left]. intros _. by eexists. }
  unfold py_guard at 1. unfold py_bind at 1. destruct (accepting c); simpl.
  - unfold py_bind at 1, py_some. destruct (od_get (sessions c) sid) as [rec|]; simpl.
    + unfold py_bind at 1, py_guard. destruct (fenced _); simpl.
      * split; [|by right; right]. by eexists.
      * split; [by intros [[? ?]|[?|?]]|by intros [e [=]]].
    + split; [|by right; right]. by eexists.
  - split; [|by right; left]. by eexists.
Qed.

(** C7: a Session that is fenced on disk, quiescing, closed or unknown, or whose coordinator
    is closed, refuses every entry point - unary work, queued work, streams, supplemental
    input and answers - with an exception, and nothing changes. *)
Theorem fenced_session_refuses sid c :
  takes_no_work sid c →
  (∀ rid k uuid team w, refuses (run_unary_begin sid rid k uuid team w) c) ∧
  (∀ rid k uuid t, refuses (submit_unary sid rid k uuid t) c) ∧
  (∀ b rid k uuid p ch team t, refuses (run_stream_begin b sid rid k uuid p ch team t) c) ∧
  (∀ e, refuses (stream_session_input sid e) c) ∧
  (∀ names dup w, refuses (claim_control_parent sid names dup w) c).
Proof.
  intros H%require_open_refuses. split_and!; intros; try by apply refuses_bind.
  destruct H as [e He]. unfold run_stream_begin, stream_kind_ok, py_guard.
  destruct b, (is_team_kind k); try (by eexists);
    (exists e; unfold py_bind, py_ret; simpl; by rewrite He).
Qed.

(** Quiescing a Session puts that fence up: it answers with the Session's generation, and
    the Session takes no work until its record changes. *)
Theorem quiesce_fences sid gen c ctx c' :
  coord_inv c → quiesce_session sid gen c = (Ret (Some ctx), c') →
  takes_no_work sid c' ∧ lc_session_id ctx = sid ∧
  generations c' !! sid = Some (lc_generation ctx).
Proof.
  intros Hc. unfold quiesce_session. unfold py_bind at 1, py_get. unfold live_record.
  destruct (od_get (sessions c) sid) as [rec|] eqn:Hr; [|done].
  case_bool_decide as Hcl; [done|].
  destruct (match gen with Some _ => _ | None => _ end); [done|].
  destruct (ci_sessions _ Hc _ _ Hr) as (x & Hx & Hxs & Hxg).
  assert (record c rec = x) as Hrx by (unfold record; by rewrite Hx).
  intros [= <- <-]. simpl. rewrite Hrx. split_and!; [|done|done].
  right. right. simpl. rewrite Hr. unfold record. simpl. by rewrite lookup_alter_eq, Hx.
Qed.

(** the fence does not hold against work that was queued before: when such work of a
    quiescing Session starts, the Session takes new work again. *)
Theorem queued_work_lifts_fence sid rec r c :
  coord_inv c → od_get (sessions c) sid = Some rec → accepting c = true → fence c sid = None →
  rec_state (record c rec) = QUIESCING →
  takes_no_work sid c ∧ ¬ takes_no_work sid (tracked_begin rec r c).2.
Proof.
  intros Hc Hr Ha Hf Hs. split.
  - right. right. by rewrite Hr, Hs.
  - destruct (ci_sessions _ Hc _ _ Hr) as (x & Hx & _).
    unfold tracked_begin, py_bind, reg_do, upd_record, py_modify. simpl.
    intros [Hn|[Hn|Hn]]; simpl in Hn; [rewrite Hf in Hn; by destruct Hn|congruence|].
    rewrite Hr in Hn. unfold record in Hn. simpl in Hn. by rewrite lookup_alter_eq, Hx in Hn.
Qed.

(** ** Where the answers to interactions go *)

(** An active execution of the record's Session and generation *)
Definition active_of (c : Coord) (rec : rec_ref) (r : href) : Prop :=
  select_spec (cworld c) (rec_session_id (record c rec)) None None
    (Some (rec_generation (record c rec))) true r.

(** What a selection leaves of the state: registered executions may be evicted. *)
Definition evicted (c : Coord) : Coord := with_cworld (evict_terminal (cworld c)) c.

Lemma handle_evicted c r : handle (evicted c) r = handle c r.
Proof. unfold handle, handle_in, hget, evicted, cworld. simpl. by rewrite evict_heap. Qed.

Lemma select_record_eq rec c :
  select_record rec None true c =
    (Ret (select (rec_session_id (record c rec)) None None (Some (rec_generation (record c rec)))
            true (cworld c)).1, evicted c).
Proof. done. Qed.

Lemma elem_of_actives rec c r :
  coord_inv c →
  r ∈ (select (rec_session_id (record c rec)) None None (Some (rec_generation (record c rec)))
         true (cworld c)).1 ↔ active_of c rec r.
Proof. intros Hc. apply elem_of_select_active, ci_index, Hc. Qed.

Lemma py_max_spec {A} (key : A → Z) b l :
  py_max key b l ∈ b :: l ∧ ∀ x, x ∈ b :: l → (key x ≤ key (py_max key b l))%Z.
Proof.
  revert b. induction l as [|y l IH]; intros b; simpl.
  - split; [by left|]. intros x Hx. apply list_elem_of_singleton in Hx as ->. lia.
  - destruct (IH (if Z.ltb (key b) (key y) then y else b)) as [Hin Hmax].
    destruct (Z.ltb_spec (key b) (key y)) as [Hlt|Hge].
    + split; [by right|]. intros x [->|Hx]%elem_of_cons; [|by apply Hmax].
      specialize (Hmax y). pose proof (Hmax (list_elem_of_here _ _)). lia.
    + split.
      * apply elem_of_cons in Hin as [->|Hin]; [by left|by right; right].
      * intros x [->|[->|Hx]%elem_of_cons]%elem_of_cons.
        -- apply Hmax. by left.
        -- specialize (Hmax b (list_elem_of_here _ _)). lia.
        -- apply Hmax. by right.
Qed.

(** An answer to an interaction goes to an execution of the Session that is running or
    waiting, is not being cancelled and waits on that interaction; of several it is one that
    started last; and if the lookup finds none, there is none. *)
Theorem control_parent_correct rec rid c :
  coord_inv c →
  let candidate r := active_of c rec r ∧ answers rid (handle c r) = true in
  ∃ o, control_parent rec rid c = (Ret o, evicted c) ∧
    match o with
    | Some r => candidate r ∧
        ∀ r', candidate r' → (start_key (handle c r') ≤ start_key (handle c r))%Z
    | None => ∀ r, ¬ candidate r
    end.
Proof.
  intros Hc candidate. unfold control_parent. unfold py_bind at 1.
  rewrite select_record_eq. set (active := (select _ _ _ _ _ _).1).
  unfold py_bind, py_get, py_ret. eexists. split; [done|].
  set (ps := filter _ active).
  assert (∀ r, r ∈ ps ↔ candidate r) as Hps.
  { intros r. unfold ps. rewrite list_elem_of_filter, handle_evicted. unfold active.
    pose proof (elem_of_actives rec c r Hc). unfold candidate. tauto. }
  destruct ps as [|p ps]; [intros r Hr%Hps; by apply not_elem_of_nil in Hr|].
  destruct (py_max_spec (λ r, start_key (handle (evicted c) r)) p ps) as [Hin Hmax].
  split; [by apply Hps|]. intros r' Hr'%Hps. specialize (Hmax r' Hr').
  by rewrite !handle_evicted in Hmax.
Qed.

(** ** New executions *)

(** [c'] differs from [c] in the world only, and its handles are those of [c] with [f]
    applied. *)
Record world_map (f : href → SessionExecutionHandle → SessionExecutionHandle) (c c' : Coord)
    : Prop := mk_world_map {
  wm_only : c' = with_cworld (cworld c') c;
  wm_heap : ∀ r, heap (cworld c') !! r = f r <$> heap (cworld c) !! r;
  wm_clock : clock (cworld c') = clock (cworld c);
}.

Lemma world_map_trans f g c1 c2 c3 :
  world_map f c1 c2 → world_map g c2 c3 → world_map (λ r, g r ∘ f r) c1 c3.
Proof.
  intros [O1 H1 C1] [O2 H2 C2]. split; [|intros r; rewrite H2, H1; by destruct (heap _ !! r)|congruence].
  transitivity (with_cworld (cworld c3) c2); [exact O2|]. rewrite O1 at 1. done.
Qed.

Lemma world_map_ext f g c c' :
  (∀ r h, heap (cworld c) !! r = Some h → f r h = g r h) → world_map f c c' → world_map g c c'.
Proof.
  intros Hfg [O H C]. split; [done| |done]. intros r. rewrite H.
  destruct (heap (cworld c) !! r) eqn:E; simpl; [by rewrite (Hfg _ _ E)|done].
Qed.

Lemma world_map_handle f c c' r :
  world_map f c c' → is_Some (heap (cworld c) !! r) → handle c' r = f r (handle c r).
Proof.
  intros [_ Hh _] [h Hr]. unfold handle, handle_in, hget. by rewrite Hh, Hr.
Qed.

Lemma with_cworld_id c : with_cworld (cworld c) c = c.
Proof. by destruct c as [[] ? ? ? ? ? ?]. Qed.

Lemma world_map_id c : world_map (λ _ h, h) c c.
Proof. split; [by rewrite with_cworld_id| |done]. intros r. by destruct (heap _ !! r). Qed.

Lemma world_map_evicted c : world_map (λ _ h, h) c (evicted c).
Proof.
  split; [done| |by apply evict_frame]. intros r. unfold evicted, cworld. simpl.
  rewrite evict_heap. by destruct (heap _ !! r).
Qed.

(** [f] applied to one handle *)
Definition at_ref (r0 : href) (f : SessionExecutionHandle → SessionExecutionHandle)
    (r : href) (h : SessionExecutionHandle) : SessionExecutionHandle :=
  if decide (r0 = r) then f h else h.

Lemma at_ref_same r f h : at_ref r f r h = f h.
Proof. unfold at_ref. by rewrite decide_True. Qed.
Lemma at_ref_other r r' f h : r ≠ r' → at_ref r f r' h = h.
Proof. intros Hne. unfold at_ref. by rewrite decide_False. Qed.

Lemma world_map_hupd r0 f c :
  world_map (at_ref r0 f) c (with_cworld (hupd r0 f (cworld c)) c).
Proof.
  split; [done| |done]. intros r. unfold cworld. simpl.
  destruct (decide (r0 = r)) as [->|Hne].
  - rewrite lookup_alter_eq. destruct (heap _ !! r); simpl; [|done].
    unfold at_ref. by rewrite decide_True.
  - rewrite lookup_alter_ne by done. destruct (heap _ !! r); simpl; [|done].
    unfold at_ref. by rewrite decide_False.
Qed.

(** The effect of [mark_terminal] on a handle *)
Definition terminated (now : Z) (st : SessionExecutionState) (err : option string)
    (h : SessionExecutionHandle) : SessionExecutionHandle :=
  if terminal (state h) then set_terminal_event h else terminate now st err h.

Lemma mark_terminal_call r st err c :
  terminal st = true →
  ∃ c', reg_call (mark_terminal r st err) c = (Ret tt, c') ∧
    world_map (at_ref r (terminated (clock (cworld c)) st err)) c c'.
Proof.
  intros Hst. unfold reg_call, mark_terminal, py_bind, py_guard. rewrite Hst. simpl.
  eexists. split; [done|]. unfold mark_terminal_body.
  destruct (hget (cworld c) r) as [h|] eqn:Hh; unfold hget in Hh.
  - destruct (terminal (state h)) eqn:Ht.
    + eapply (world_map_ext (at_ref r set_terminal_event)); [|apply world_map_hupd].
      intros r' h' Hh'. unfold at_ref, terminated.
      case_decide; [subst r'|done]. assert (h' = h) as -> by congruence. by rewrite Ht.
    + set (w1 := with_heap _ (cworld c)).
      set (w2 := if task_free _ _ then _ else _).
      assert (heap w2 = <[r:=terminate (clock (cworld c)) st err h]> (heap (cworld c)) ∧
        clock w2 = clock (cworld c)) as [Hw Hcl] by (unfold w2; by case_match).
      split; [done| |unfold cworld at 1; simpl; by rewrite (proj1 (proj2 (proj2 (evict_frame w2))))].
      intros r'. unfold cworld at 1. simpl. rewrite evict_heap, Hw.
      destruct (decide (r = r')) as [<-|Hne].
      * rewrite lookup_insert_eq, Hh. simpl. rewrite at_ref_same. unfold terminated. by rewrite Ht.
      * rewrite lookup_insert_ne by done. destruct (heap (cworld c) !! r'); simpl; [|done].
        by rewrite at_ref_other.
  - eapply world_map_ext; [|rewrite with_cworld_id; apply world_map_id].
    intros r' h' Hh'. unfold at_ref. case_decide; [congruence|done].
Qed.

(** What superseding does to a handle of the list *)
Definition superseded_by (k : SessionWorkKind) (h : SessionExecutionHandle) : bool :=
  supersedes k (h_work_kind h) && bool_decide (state h = WAITING_FOR_CONTROL).

Definition supersede_handle (now : Z) (k : SessionWorkKind) (h : SessionExecutionHandle)
    : SessionExecutionHandle :=
  if superseded_by k h then terminate now CANCELLED None (set_cancellation_requested true h) else h.

Lemma supersede_call k r c :
  is_Some (heap (cworld c) !! r) →
  ∃ c', supersede k r c = (Ret tt, c') ∧
    world_map (at_ref r (supersede_handle (clock (cworld c)) k)) c c'.
Proof.
  intros [h Hh]. unfold supersede. unfold py_bind at 1, py_get.
  assert (handle c r = h) as Hhd by (unfold handle, handle_in, hget; by rewrite Hh).
  rewrite Hhd. fold (superseded_by k h). destruct (superseded_by k h) eqn:Hs.
  - unfold py_bind, reg_do, py_modify.
    set (c1 := with_cworld _ c). pose proof (world_map_hupd r (set_cancellation_requested true) c) as H1.
    fold c1 in H1. destruct (mark_terminal_call r CANCELLED None c1) as (c2 & Hc2 & H2); [done|].
    exists c2. split; [done|]. eapply world_map_ext; [|by eapply world_map_trans].
    intros r' h' Hh'. unfold at_ref. simpl. case_decide; [subst r'|done].
    assert (h' = h) as -> by congruence. unfold supersede_handle. rewrite Hs.
    unfold superseded_by in Hs. apply andb_prop in Hs as [_ Hs]. apply bool_decide_eq_true in Hs.
    unfold terminated. simpl. by rewrite Hs.
  - exists c. split; [done|]. eapply world_map_ext; [|apply world_map_id].
    intros r' h' Hh'. unfold at_ref. case_decide; [subst r'|done].
    assert (h' = h) as -> by congruence. unfold supersede_handle. by rewrite Hs.
Qed.

Lemma supersede_all k rs c :
  NoDup rs → (∀ r, r ∈ rs → is_Some (heap (cworld c) !! r)) →
  ∃ c', py_for rs (supersede k) c = (Ret tt, c') ∧
    world_map (λ r h, if decide (r ∈ rs) then supersede_handle (clock (cworld c)) k h else h) c c'.
Proof.
  intros Hnd. revert c. induction Hnd as [|r rs Hr _ IH]; intros c Hrs; simpl.
  - exists c. split; [done|]. eapply world_map_ext; [|apply world_map_id].
    intros r h _. destruct (decide (r ∈ [])) as [Hin|]; [by apply not_elem_of_nil in Hin|done].
  - destruct (supersede_call k r c) as (c1 & Hc1 & H1); [apply Hrs; by left|].
    unfold py_bind. rewrite Hc1.
    destruct (IH c1) as (c2 & Hc2 & H2).
    { intros r' Hr'. rewrite (wm_heap _ _ _ H1). destruct (Hrs r') as [h Hh]; [by right|].
      rewrite Hh. by eexists. }
    exists c2. split; [done|]. eapply world_map_ext; [|by eapply world_map_trans].
    intros r' h _. simpl. rewrite (wm_clock _ _ _ H1).
    destruct (decide (r = r')) as [<-|Hne].
    + rewrite at_ref_same. rewrite (decide_False (P := r ∈ rs)) by done.
      destruct (decide (r ∈ r :: rs)) as [|Hn]; [done|]. destruct Hn. by left.
    + rewrite at_ref_other by done. destruct (decide (r' ∈ rs)) as [Hin|Hin].
      * destruct (decide (r' ∈ r :: rs)) as [|Hn]; [done|]. destruct Hn. by right.
      * destruct (decide (r' ∈ r :: rs)) as [Hn|]; [|done].
        apply elem_of_cons in Hn as [->|?]; done.
Qed.

Lemma world_map_record f c c' rec : world_map f c c' → record c' rec = record c rec.
Proof. intros [-> _ _]. done. Qed.

Lemma world_map_next f c c' : world_map f c c' → next_ref (co_sched c') = next_ref (co_sched c).
Proof. intros [-> _ _]. done. Qed.

(** The state after the superseding of a new execution *)
Lemma supersede_stage rec k c :
  coord_inv c →
  ∃ c', (if has_superseded k then
           previous <- select_record rec None true ;; py_for previous (supersede k)
         else py_ret tt) c = (Ret tt, c') ∧
    ∃ f, world_map f c c' ∧ ∀ r h, heap (cworld c) !! r = Some h →
      (active_of c rec r ∧ superseded_by k h = true →
         f r h = terminate (clock (cworld c)) CANCELLED None (set_cancellation_requested true h)) ∧
      (¬ (active_of c rec r ∧ superseded_by k h = true) → f r h = h).
Proof.
  intros Hc. destruct (has_superseded k) eqn:Hk.
  - unfold py_bind at 1. rewrite select_record_eq.
    set (active := (select _ _ _ _ _ _).1).
    assert (∀ r, r ∈ active ↔ active_of c rec r) as Hact by (intros; by apply elem_of_actives).
    destruct (supersede_all k active (evicted c)) as (c2 & Hc2 & H2).
    { apply select_NoDup, ci_index, Hc. }
    { intros r (e & h & _ & Hh & _)%Hact. exists h. unfold evicted, cworld. simpl.
      by rewrite evict_heap. }
    exists c2. split; [done|]. eexists. split; [eapply world_map_trans; [apply world_map_evicted|done]|].
    intros r h Hh. simpl. rewrite (wm_clock _ _ _ (world_map_evicted c)). unfold supersede_handle.
    split.
    + intros [Ha Hs]. apply Hact in Ha. rewrite decide_True by done. by rewrite Hs.
    + intros Hn. case_decide as Hin; [|done]. apply Hact in Hin.
      destruct (superseded_by k h); naive_solver.
  - exists c. split; [done|]. exists (λ _ h, h). split; [apply world_map_id|].
    intros r h _. split; [|done]. intros [_ Hs]. unfold superseded_by in Hs.
    apply andb_prop in Hs as [Hs _]. destruct k; try discriminate Hk; by destruct (h_work_kind h).
Qed.

(** The lookup of the parent *)
Lemma parent_stage parent_id c :
  ∃ o c', (match parent_id with
           | Some p => if str_true p then reg_get (get_execution p) else py_ret None
           | None => py_ret None
           end) c = (Ret o, c') ∧ world_map (λ _ h, h) c c' ∧
    ∀ p r, parent_id = Some p → o = Some r → od_get (executions (cworld c')) p = Some r.
Proof.
  destruct parent_id as [p|]; [destruct (str_true p)|].
  - eexists _, (evicted c). split; [done|]. split; [apply world_map_evicted|].
    by intros p' r [= <-].
  - exists None, c. split; [done|]. split; [apply world_map_id|done].
  - exists None, c. split; [done|]. split; [apply world_map_id|done].
Qed.

Lemma new_execution_eq rec uuid rid k parent_id channel team c :
  coord_inv c → uuid_new uuid c →
  is_team_kind k = (match team with Some _ => true | None => false end) →
  ∃ c1 f parent ag,
    new_execution rec uuid rid k parent_id channel team c =
      (upd_record rec (set_rec_state ACTIVE) ;; py_ret (next_ref (co_sched c)))
        (with_registered (execution_ident c1 rec uuid rid k parent_id channel team parent) ag c1) ∧
    coord_inv c1 ∧ uuid_new uuid c1 ∧
    world_map f c c1 ∧ (∀ p r, parent_id = Some p → parent = Some r → od_get (executions (cworld c1)) p = Some r) ∧
    ∀ r h, heap (cworld c) !! r = Some h →
      (active_of c rec r ∧ superseded_by k h = true →
         f r h = terminate (clock (cworld c)) CANCELLED None (set_cancellation_requested true h)) ∧
      (¬ (active_of c rec r ∧ superseded_by k h = true) → f r h = h).
Proof.
  intros Hc Hu Hk. unfold new_execution. unfold py_bind at 1, py_guard.
  rewrite Hk, Bool.eqb_reflx. simpl.
  destruct (supersede_stage rec k c Hc) as (c2 & Hc2 & f & Hf & Hfs).
  unfold py_bind at 1. rewrite Hc2.
  assert (coord_inv c2 ∧ ∀ r, hident (cworld c2) r = hident (cworld c) r) as [Hi2 Hid2].
  { assert (coord_quiet (if has_superseded k then
      previous <- select_record rec None true ;; py_for previous (supersede k)
      else py_ret tt)) as Hq by auto 10 with coord.
    destruct (Hq c Hc) as (? & _ & ?). by rewrite Hc2 in *. }
  destruct (parent_stage parent_id c2) as (parent & c1 & Hp1 & Hw1 & Hpar).
  unfold py_bind at 1. rewrite Hp1.
  assert (coord_inv c1 ∧ ∀ r, hident (cworld c1) r = hident (cworld c2) r) as [Hi1 Hid1].
  { assert (coord_quiet (match parent_id with
      | Some p => if str_true p then reg_get (get_execution p) else py_ret None
      | None => py_ret None end)) as Hq by auto 10 with coord.
    destruct (Hq c2 Hi2) as (? & _ & ?). by rewrite Hp1 in *. }
  assert (uuid_new uuid c1) as Hu1.
  { eapply uuid_new_same; [|exact Hu]. intros r. by rewrite Hid1. }
  exists c1, f, parent, (p ← parent; agent (handle c1 p)). split_and!; try done.
  - rewrite create_execution_eq by done.
    by rewrite (world_map_next _ _ _ Hw1), (world_map_next _ _ _ Hf).
  - eapply world_map_ext; [|eapply world_map_trans; [exact Hf|exact Hw1]]. done.
Qed.

(** C5: a new execution raises only when the Team details do not fit its kind, and then
    nothing changes.  Otherwise it is registered, queued, under its id, in the Session's
    generation and below its parent; the executions of the Session it supersedes - those
    waiting for an answer, of the kinds a new turn replaces - are cancelled, and no other
    execution changes. *)
Theorem new_execution_correct rec uuid rid k parent_id channel team c :
  coord_inv c → uuid_new uuid c → parent_known parent_id c → is_Some (co_records c !! rec) →
  let fits := is_team_kind k = (match team with Some _ => true | None => false end) in
  match new_execution rec uuid rid k parent_id channel team c with
  | (Exc _, c') => ¬ fits ∧ c' = c
  | (Ret r, c') =>
      fits ∧ r = next_ref (co_sched c) ∧ active_of c' rec r ∧
      rec_state (record c' rec) = ACTIVE ∧
      od_get (executions (cworld c')) uuid = Some r ∧
      (let h := handle c' r in
       state h = QUEUED ∧ h_execution_id h = uuid ∧ h_request_id h = rid ∧ h_work_kind h = k ∧
       h_parent h = parent_id) ∧
      ∀ r0 h0, heap (cworld c) !! r0 = Some h0 → ∃ h0', heap (cworld c') !! r0 = Some h0' ∧
        (active_of c rec r0 ∧ superseded_by k h0 = true →
           h0' = terminate (clock (cworld c)) CANCELLED None (set_cancellation_requested true h0)) ∧
        (¬ (active_of c rec r0 ∧ superseded_by k h0 = true) → h0' = h0)
  end.
Proof.
  intros Hc Hu Hp [x Hx] fits.
  destruct (Bool.eqb (is_team_kind k) (match team with Some _ => true | None => false end)) eqn:Hk.
  2:{ unfold new_execution, py_bind at 1, py_guard. rewrite Hk. split; [|done].
      intros Heq. unfold fits in Heq. by rewrite Heq, Bool.eqb_reflx in Hk. }
  apply Bool.eqb_prop in Hk.
  destruct (new_execution_eq rec uuid rid k parent_id channel team c Hc Hu Hk)
    as (c1 & f & parent & ag & -> & Hc1 & Hu1 & Hw & Hpar & Hf).
  set (i := execution_ident c1 rec uuid rid k parent_id channel team parent).
  unfold with_registered.
  rewrite (register_fresh _ _ (new_handle i ag));
    [|apply new_handle_heap|by apply (uuid_unregistered uuid c1)].
  rewrite (world_map_next _ _ _ Hw).
  set (w := with_index _ _ _ _). unfold py_bind, upd_record, py_modify, py_ret. simpl.
  set (r := next_ref (co_sched c)).
  assert (heap w = <[r := new_handle i ag]> (heap (cworld c1))) as Hwh.
  { unfold w. simpl. rewrite evict_heap. unfold cworld at 1. simpl. by rewrite (world_map_next _ _ _ Hw). }
  assert (od_get (executions w) uuid = Some r) as Hreg by apply od_get_set_eq.
  set (c' := with_records _ _).
  assert (cworld c' = w) as Hcw by done.
  assert (record c' rec = set_rec_state ACTIVE x) as Hrec.
  { unfold record, c'. simpl. rewrite lookup_alter_eq.
    assert (co_records c1 = co_records c) as -> by (by rewrite (wm_only _ _ _ Hw)). by rewrite Hx. }
  assert (handle c' r = new_handle i ag) as Hh.
  { unfold handle, handle_in, hget. by rewrite Hcw, Hwh, lookup_insert_eq. }
  assert (rec_session_id (record c1 rec) = rec_session_id x ∧
    rec_generation (record c1 rec) = rec_generation x) as [Hrs Hrg].
  { rewrite (world_map_record _ _ _ _ Hw). unfold record. by rewrite Hx. }
  split_and!; try done.
  - unfold active_of. rewrite Hrec, Hcw. exists uuid, (new_handle i ag). rewrite Hwh, lookup_insert_eq.
    split_and!; try done. intros g [= <-]. done.
  - by rewrite Hrec.
  - by rewrite Hh.
  - by rewrite Hh.
  - by rewrite Hh.
  - by rewrite Hh.
  - by rewrite Hh.
  - intros r0 h0 Hr0. exists (f r0 h0). split; [|by apply Hf].
    change (heap w !! r0 = Some (f r0 h0)).
    rewrite Hwh, lookup_insert_ne, (wm_heap _ _ _ Hw), Hr0; [done|].
    intros <-. pose proof (fresh_handle c Hc) as Hn. unfold r in Hr0. congruence.
Qed.

(** ** Lineages *)

Lemma evicted_idemp c : evicted (evicted c) = evicted c.
Proof.
  unfold evicted. change (cworld (with_cworld (evict_terminal (cworld c)) c)) with
    (evict_terminal (cworld c)). by rewrite evict_idemp.
Qed.

(** A lookup leaves the evicted state, from which further lookups do not move. *)
Definition visits (c c0 : Coord) : Prop := c0 = c ∨ c0 = evicted c.

Lemma get_visits p c c0 :
  visits c c0 →
  reg_get (get_execution p) c0 =
    (Ret (od_get (executions (evict_terminal (cworld c))) p), evicted c).
Proof.
  intros [->| ->]; [done|]. unfold reg_get, get_execution, lookup_execution.
  change (cworld (evicted c)) with (evict_terminal (cworld c)). rewrite evict_idemp.
  change (with_cworld (evict_terminal (cworld c)) (evicted c)) with (evicted c). done.
Qed.

Lemma handle_visits c c0 r : visits c c0 → handle c0 r = handle c r.
Proof. intros [->| ->]; [done|apply handle_evicted]. Qed.

Definition registered_parent (c : Coord) (r : href) : option href :=
  p ← h_parent (handle c r); od_get (executions (evict_terminal (cworld c))) p.

(** A registered parent is older. *)
Lemma parent_older c r r' : coord_inv c → registered_parent c r = Some r' → r' < r.
Proof.
  intros Hc Hp. unfold registered_parent in Hp.
  destruct (h_parent (handle c r)) as [p|] eqn:Hpar; simpl in Hp; [|done].
  destruct (ix_ident _ (evict_index _ (ci_index _ Hc)) _ _ Hp) as (j & Hj & Hje).
  unfold hident in Hj. rewrite evict_heap in Hj. change (hident (cworld c) r' = Some j) in Hj.
  unfold handle, handle_in, hget in Hpar. destruct (heap (cworld c) !! r) as [h|] eqn:Hh; [|done].
  destruct (ci_parent _ Hc r (ident h) p) as (r2 & j2 & Hlt & Hr2 & He2);
    [unfold hident; by rewrite Hh|done|].
  by rewrite (ci_ids _ Hc r' r2 j j2 Hj Hr2) by congruence.
Qed.

(** The registered executions older than [r]: what bounds the walk up a lineage *)
Definition older (c : Coord) (r : href) : nat :=
  length (filter (λ r', r' < r) (od_values (executions (evict_terminal (cworld c))))).

Lemma older_parent c r r' : coord_inv c → registered_parent c r = Some r' → older c r' < older c r.
Proof.
  intros Hc Hp. pose proof (parent_older c r r' Hc Hp) as Hlt. unfold older.
  set (l := od_values _).
  assert (r' ∈ l) as Hin.
  { unfold registered_parent in Hp. destruct (h_parent _) as [p|]; simpl in Hp; [|done].
    apply od_values_get; [apply ix_wf, evict_index, ci_index, Hc|by eauto]. }
  assert (filter (λ x, x < r') l = filter (λ x, x < r') (filter (λ x, x < r) l)) as ->.
  { rewrite list_filter_filter. apply list_filter_iff. intros x. lia. }
  apply (length_filter_lt _ _ r'); [|lia]. by apply list_elem_of_filter.
Qed.

Lemma older_bound c r : older c r ≤ length (executions (cworld c)).
Proof.
  unfold older. etrans; [apply length_filter|]. unfold od_values. rewrite length_map.
  apply evict_length.
Qed.

Definition same_scope (c : Coord) (owner r : href) : Prop :=
  h_session_id (handle c r) = h_session_id (handle c owner) ∧
  h_generation (handle c r) = h_generation (handle c owner).

(** [eid] is the execution [r] or one of its registered ancestors, all in the
    Session and generation of [owner]. *)
Inductive lineage (c : Coord) (owner : href) (eid : string) : href → Prop :=
| lin_here r : same_scope c owner r → h_execution_id (handle c r) = eid → lineage c owner eid r
| lin_up r r' :
    same_scope c owner r → h_parent (handle c r) ≠ Some EmptyString →
    registered_parent c r = Some r' → lineage c owner eid r' → lineage c owner eid r.

Lemma scope_test c c0 owner r :
  visits c c0 →
  bool_decide (h_session_id (handle c0 r) = h_session_id (handle c owner))
    && bool_decide (h_generation (handle c0 r) = h_generation (handle c owner)) = true
  ↔ same_scope c owner r.
Proof.
  intros Hv. rewrite (handle_visits c c0) by done.
  by rewrite andb_true_iff, !bool_decide_eq_true.
Qed.

Lemma lineage_loop_spec n owner eid r c c0 :
  coord_inv c → visits c c0 → older c r ≤ n →
  ∃ b c', lineage_loop n (handle c owner) eid r c0 = (Ret b, c') ∧ visits c c' ∧
    (b = true ↔ lineage c owner eid r).
Proof.
  revert r c0. induction n as [|n IH]; intros r c0 Hc Hv Hn; cbn [lineage_loop];
    unfold py_bind at 1, py_get; destruct (_ && _) eqn:Hs.
  all: try (exists false, c0; split; [done|]; split; [done|]; split; [done|]; intros Hl; exfalso;
    apply not_true_iff_false in Hs; apply Hs, scope_test; [done|]; by inversion Hl).
  all: apply (scope_test c c0 owner r Hv) in Hs; rewrite (handle_visits c c0) by done.
  all: case_bool_decide as He; [exists true, c0; split; [done|]; split; [done|]; split; [by constructor|done]|].
  all: destruct (h_parent (handle c r)) as [p|] eqn:Hp;
    [|exists false, c0; split; [done|]; split; [done|]; split; [done|]; intros Hl; inversion Hl; subst;
      [done|unfold registered_parent in *; by rewrite Hp in *]].
  all: destruct (str_true p) eqn:Ht;
    [|exists false, c0; split; [done|]; split; [done|]; split; [done|]; intros Hl; inversion Hl; subst;
      [done|destruct p; [by rewrite Hp in *|done]]].
  all: unfold py_bind at 1; rewrite (get_visits p c c0) by done.
  all: assert (registered_parent c r = od_get (executions (evict_terminal (cworld c))) p) as Hrp
    by (unfold registered_parent; by rewrite Hp).
  all: destruct (od_get (executions (evict_terminal (cworld c))) p) as [r'|];
    [|exists false, (evicted c); split; [done|]; split; [by right|]; split; [done|]; intros Hl; inversion Hl; subst;
      [done|congruence]].
  all: pose proof (older_parent c r r' Hc Hrp) as Hlt.
  { lia. }
  destruct (IH r' (evicted c)) as (b & c' & Hb & Hvis & Hbl); [done|by right|lia|].
  exists b, c'. split; [exact Hb|]. split; [done|]. rewrite Hbl. split.
  - intros Hl. eapply lin_up; [done| |done|done]. rewrite Hp. by destruct p.
  - intros Hl. inversion Hl; subst; [done|]. congruence.
Qed.

Lemma in_execution_lineage_visits owner eid c :
  coord_inv c →
  ∃ b c', in_execution_lineage owner eid c = (Ret b, c') ∧ visits c c' ∧
    (b = true ↔ lineage c owner eid owner).
Proof.
  intros Hc. unfold in_execution_lineage. unfold py_bind, py_get.
  apply lineage_loop_spec; [done|by left|]. pose proof (older_bound c owner). lia.
Qed.

(** The lineage test returns for every execution, and tells exactly whether the id is that
    of the execution or of a registered ancestor of it within its Session and generation. *)
Theorem in_execution_lineage_correct owner eid c :
  coord_inv c →
  ∃ b c', in_execution_lineage owner eid c = (Ret b, c') ∧
    (b = true ↔ lineage c owner eid owner).
Proof.
  intros Hc. destruct (in_execution_lineage_visits owner eid c Hc) as (b & c' & Hb & _ & Hl).
  by exists b, c'.
Qed.

(** The nearest execution of kind [k] on the way up from [r] *)
Inductive nearest (c : Coord) (origin : href) (k : SessionWorkKind) : href → option href → Prop :=
| near_here r : h_work_kind (handle c r) = k → nearest c origin k r (Some r)
| near_up r r' o :
    h_work_kind (handle c r) ≠ k → registered_parent c r = Some r' → same_scope c origin r' →
    nearest c origin k r' o → nearest c origin k r o
| near_none r :
    h_work_kind (handle c r) ≠ k →
    (∀ r', registered_parent c r = Some r' → ¬ same_scope c origin r') →
    nearest c origin k r None.

(** The ids seen on the way belong to younger executions. *)
Definition seen_younger (c : Coord) (seen : gset string) (r : href) : Prop :=
  ∀ e, e ∈ seen → ∃ r1 i, r < r1 ∧ hident (cworld c) r1 = Some i ∧ execution_id i = e.

Lemma ancestor_loop_spec n origin k seen r c c0 :
  coord_inv c → visits c c0 → older c r ≤ n → is_Some (hident (cworld c) r) →
  seen_younger c seen r →
  ∃ o c', ancestor_loop n (handle c origin) k seen r c0 = (Ret o, c') ∧ visits c c' ∧
    nearest c origin k r o.
Proof.
  revert seen r c0. induction n as [|n IH]; intros seen r c0 Hc Hv Hn [i Hi] Hseen;
    cbn [ancestor_loop]; unfold py_bind at 1, py_get; rewrite (handle_visits c c0) by done;
    pose proof (hident_handle c r i Hi) as Hh; unfold h_execution_id; rewrite Hh.
  all: rewrite bool_decide_eq_false_2 by (intros Hs; destruct (Hseen _ Hs) as (r1 & j & Hlt & Hj & He);
    pose proof (ci_ids _ Hc _ _ _ _ Hj Hi He); lia).
  all: case_bool_decide as Hk; [exists (Some r), c0; split_and!; [done|done|by constructor]|].
  all: destruct (h_parent (handle c r)) as [p|] eqn:Hp;
    [|exists None, c0; split_and!; [done|done|]; apply near_none; [done|]; intros r';
      unfold registered_parent; by rewrite Hp].
  all: unfold py_bind at 1; rewrite (get_visits p c c0) by done.
  all: assert (registered_parent c r = od_get (executions (evict_terminal (cworld c))) p) as Hrp
    by (unfold registered_parent; by rewrite Hp).
  all: destruct (od_get (executions (evict_terminal (cworld c))) p) as [r'|] eqn:Hg;
    [|exists None, (evicted c); split_and!; [done|by right|]; apply near_none; [done|]; congruence].
  all: assert (visits c (evicted c)) as Hv' by by right.
  all: unfold py_bind at 1; destruct (_ && _) eqn:Hs;
    [|exists None, (evicted c); split_and!; [done|by right|]; apply near_none; [done|]; intros r2 Hr2 Hsc;
      assert (r2 = r') as -> by congruence; apply not_true_iff_false in Hs; apply Hs;
      by apply scope_test].
  all: apply (scope_test c _ origin r' Hv') in Hs.
  all: pose proof (older_parent c r r' Hc Hrp) as Hlt.
  { lia. }
  destruct (ix_ident _ (evict_index _ (ci_index _ Hc)) _ _ Hg) as (j & Hj & Hje).
  unfold hident in Hj. rewrite evict_heap in Hj. change (hident (cworld c) r' = Some j) in Hj.
  pose proof (parent_older c r r' Hc Hrp) as Hyounger.
  destruct (IH ({[execution_id i]} ∪ seen) r' (evicted c)) as (o & c' & Ho & Hvis & Hnear);
    [done|done|lia|by exists j| |].
  { intros e. rewrite elem_of_union, elem_of_singleton. intros [->|He]; [by exists r, i|].
    destruct (Hseen e He) as (r1 & i1 & ? & ? & ?). exists r1, i1. split_and!; [lia|done|done]. }
  exists o, c'. split_and!; [exact Ho|done|]. by eapply near_up.
Qed.

Lemma ancestor_of_kind_visits r k c :
  coord_inv c → is_Some (heap (cworld c) !! r) →
  ∃ o c', ancestor_of_kind r k c = (Ret o, c') ∧ visits c c' ∧ nearest c r k r o.
Proof.
  intros Hc [h Hr]. unfold ancestor_of_kind. unfold py_bind, py_get.
  apply ancestor_loop_spec; [done|by left| | |].
  - pose proof (older_bound c r). lia.
  - exists (ident h). unfold hident. by rewrite Hr.
  - intros e He. set_solver.
Qed.

(** The search for an ancestor of a kind returns for every execution and finds the nearest
    one - the execution itself, its registered parent, and so on within the Session and
    generation - and nothing if there is none; the walk never meets an execution twice. *)
Theorem ancestor_of_kind_correct r k c :
  coord_inv c → is_Some (heap (cworld c) !! r) →
  ∃ o c', ancestor_of_kind r k c = (Ret o, c') ∧ nearest c r k r o.
Proof.
  intros Hc Hr. destruct (ancestor_of_kind_visits r k c Hc Hr) as (o & c' & Ho & _ & Hn).
  by exists o, c'.
Qed.

(** ** Descendants *)

Definition id_of (c : Coord) (r : href) : string := h_execution_id (handle c r).
Definition scope_of (c : Coord) (r : href) : string * Z :=
  (h_session_id (handle c r), h_generation (handle c r)).

(** An active registered execution of one of the scopes *)
Definition active_in (c : Coord) (scopes : string * Z → Prop) (r : href) : Prop :=
  scopes (scope_of c r) ∧
  select_spec (cworld c) (scope_of c r).1 None None (Some (scope_of c r).2) true r.

Definition parent_in (c : Coord) (frontier : string → Prop) (r : href) : Prop :=
  ∃ p, h_parent (handle c r) = Some p ∧ frontier p.

Definition scopes_among (c : Coord) (rs : list href) (s : string * Z) : Prop :=
  ∃ r, r ∈ rs ∧ scope_of c r = s.

(** The executions [rs], and the active children of such executions within the
    Sessions and generations of [rs] *)
Inductive descendant (c : Coord) (rs : list href) : href → Prop :=
| desc_root r : r ∈ rs → descendant c rs r
| desc_child r r' :
    descendant c rs r → active_in c (scopes_among c rs) r' →
    h_parent (handle c r') = Some (id_of c r) → descendant c rs r'.

(** A selection by execution id holds handles of the heap under their own id. *)
Definition sel_ok (c : Coord) (sel : odict string href) : Prop :=
  od_wf sel ∧ ∀ e r, od_get sel e = Some r → ∃ i, hident (cworld c) r = Some i ∧ execution_id i = e.

Lemma sel_ok_set c sel r i :
  sel_ok c sel → hident (cworld c) r = Some i → sel_ok c (od_set sel (execution_id i) r).
Proof.
  intros [Hwf He] Hi. split; [by apply od_wf_set|]. intros e r'. rewrite od_get_set.
  case_decide; [|apply He]. intros [= <-]. exists i. by split.
Qed.

Lemma sel_keys_set (sel : odict string href) e r e' : e' ∈ od_keys (od_set sel e r) ↔ e' = e ∨ e' ∈ od_keys sel.
Proof.
  rewrite <-!od_get_is_Some, od_get_set. case_decide as Hd; [subst|].
  - split; [by left|]. intros _. by eexists.
  - naive_solver.
Qed.

Lemma in_sel c sel r i :
  coord_inv c → sel_ok c sel → hident (cworld c) r = Some i →
  r ∈ od_values sel ↔ execution_id i ∈ od_keys sel.
Proof.
  intros Hc [Hwf He] Hi. rewrite od_values_get, <-od_get_is_Some by done. split.
  - intros [e Hg]. destruct (He _ _ Hg) as (j & Hj & <-).
    assert (i = j) as -> by congruence. by exists r.
  - intros [r' Hg]. destruct (He _ _ Hg) as (j & Hj & Hje). exists (execution_id i).
    by rewrite (ci_ids _ Hc r r' i j Hi Hj) by done.
Qed.

Lemma active_hident c scopes r :
  active_in c scopes r → ∃ i, hident (cworld c) r = Some i ∧ execution_id i = id_of c r.
Proof.
  intros [_ (e & h & _ & Hh & _)]. exists (ident h). unfold hident, id_of, handle, handle_in, hget.
  by rewrite Hh.
Qed.

(** A world of the walk: only the registered finished executions may differ. *)
Definition walks (c : Coord) (w : World) : Prop := w = cworld c ∨ w = evict_terminal (cworld c).

Lemma walks_handle c w r : walks c w → handle_in w r = handle c r.
Proof.
  intros [->| ->]; [done|]. unfold handle, handle_in, hget. by rewrite evict_heap.
Qed.

Lemma walks_select c w sid gen :
  walks c w →
  select sid None None (Some gen) true w =
    ((select sid None None (Some gen) true (cworld c)).1, evict_terminal (cworld c)).
Proof. intros [->| ->]; unfold select; [done|]. by rewrite evict_idemp. Qed.

Lemma elem_of_scope c sid gen r :
  coord_inv c →
  r ∈ (select sid None None (Some gen) true (cworld c)).1 ↔
    active_in c (λ s, s = (sid, gen)) r.
Proof.
  intros Hc. rewrite elem_of_select_active by apply Hc. unfold active_in, scope_of. simpl.
  split.
  - intros (e & h & He & Hh & Hs & _ & Hg & Ht).
    assert (handle c r = h) as -> by (unfold handle, handle_in, hget; by rewrite Hh).
    rewrite Hs, (Hg gen eq_refl). split; [done|]. exists e, h. by split_and!.
  - intros [[= -> ->] H]. exact H.
Qed.

(** What one scope of a round adds *)
Lemma add_children_spec c w frontier l sel found :
  walks c w → (∀ r, r ∈ l → ∃ i, hident (cworld c) r = Some i) → sel_ok c sel →
  let '(sel', found') := add_children w frontier l sel found in
  let new e := ∃ r, r ∈ l ∧ id_of c r = e ∧ parent_in c (.∈ frontier) r in
  sel_ok c sel' ∧ (∀ e, e ∈ od_keys sel' ↔ e ∈ od_keys sel ∨ new e) ∧
  (∀ e, e ∈ found' ↔ e ∈ found ∨ ((e ∉ od_keys sel) ∧ new e)).
Proof.
  intros Hw. revert sel found. induction l as [|r l IH]; intros sel found Hl Hsel.
  - simpl. split_and!; [done| |]; intros e; set_solver.
  - cbn [add_children]. rewrite (walks_handle c w r Hw).
    assert (parent_in c (.∈ frontier) r ↔ match h_parent (handle c r) with
      | Some p => bool_decide (p ∈ frontier) | None => false end = true) as Hpar.
    { unfold parent_in. destruct (h_parent (handle c r)) as [p|].
      - rewrite bool_decide_eq_true. naive_solver.
      - naive_solver. }
    fold (id_of c r). destruct (Hl r (list_elem_of_here _ _)) as [i Hi].
    assert (execution_id i = id_of c r) as Hid
      by (unfold id_of, h_execution_id; by rewrite (hident_handle _ _ _ Hi)).
    set (b := match h_parent (handle c r) with Some p => bool_decide (p ∈ frontier) | None => false end) in *.
    assert (∀ r', r' ∈ l → ∃ i, hident (cworld c) r' = Some i) as Hl' by (intros; apply Hl; by right).
    destruct (b && negb (od_mem sel (id_of c r))) eqn:Hb.
    + apply andb_prop in Hb as [Hb Hm]. apply negb_true_iff in Hm.
      assert (id_of c r ∉ od_keys sel) as Hnk.
      { intros Hk. apply od_mem_spec in Hk. congruence. }
      specialize (IH (od_set sel (id_of c r) r) ({[id_of c r]} ∪ found) Hl').
      rewrite <-Hid in IH at 1. specialize (IH (sel_ok_set c sel r i Hsel Hi)).
      destruct (add_children _ _ _ _ _) as [sel' found']. destruct IH as (H1 & H2 & H3).
      split_and!; [done| |]; intros e.
      * rewrite H2, sel_keys_set. setoid_rewrite elem_of_cons. split.
        -- intros [[->|?]|(r' & ? & ? & ?)]; [right; exists r; split_and!; [by left|done|by apply Hpar]|by left|].
           right. exists r'. split_and!; [by right|done..].
        -- intros [?|(r' & [->|?] & <- & ?)]; [by left; right|by left; left|]. right. by exists r'.
      * rewrite H3, sel_keys_set, elem_of_union, elem_of_singleton. setoid_rewrite elem_of_cons. split.
        -- intros [[->|?]|[Hn (r' & ? & ? & ?)]]; [right|by left|right].
           ++ split; [done|]. exists r. split_and!; [by left|done|by apply Hpar].
           ++ split; [tauto|]. exists r'. split_and!; [by right|done..].
        -- intros [?|[Hn (r' & [->|?] & <- & ?)]]; [by left; right|by left; left|].
           destruct (decide (id_of c r' = id_of c r)) as [Heq|Hne]; [left; by left|].
           right. split; [naive_solver|]. by exists r'.
    + specialize (IH sel found Hl' Hsel).
      destruct (add_children _ _ _ _ _) as [sel' found']. destruct IH as (H1 & H2 & H3).
      assert (∀ e, (∃ r', r' ∈ r :: l ∧ id_of c r' = e ∧ parent_in c (.∈ frontier) r') ↔
        (∃ r', r' ∈ l ∧ id_of c r' = e ∧ parent_in c (.∈ frontier) r') ∨
        (id_of c r = e ∧ parent_in c (.∈ frontier) r)) as Hcons.
      { intros e. setoid_rewrite elem_of_cons. naive_solver. }
      assert (parent_in c (.∈ frontier) r → id_of c r ∈ od_keys sel) as Hold.
      { intros Hp%Hpar. rewrite Hp in Hb. simpl in Hb. apply negb_false_iff in Hb.
        by apply od_mem_spec. }
      split_and!; [done| |]; intros e; rewrite ?H2, ?H3, Hcons; naive_solver.
Qed.

(** What a round adds: the children, in the scopes, of the frontier *)
Lemma descend_scopes_spec c w frontier scopes sel found :
  coord_inv c → walks c w → sel_ok c sel →
  let '(sel', found', w') := descend_scopes frontier scopes sel found w in
  let new e := ∃ r, active_in c (.∈ scopes) r ∧ id_of c r = e ∧ parent_in c (.∈ frontier) r in
  walks c w' ∧ sel_ok c sel' ∧ (∀ e, e ∈ od_keys sel' ↔ e ∈ od_keys sel ∨ new e) ∧
  (∀ e, e ∈ found' ↔ e ∈ found ∨ ((e ∉ od_keys sel) ∧ new e)).
Proof.
  intros Hc. revert w sel found. induction scopes as [|[sid gen] scopes IH]; intros w sel found Hw Hsel;
    cbn [descend_scopes].
  - assert (∀ r, ¬ active_in c (.∈ []) r) as Hno by (intros r [Hs _]; by apply not_elem_of_nil in Hs).
    split_and!; [done|done| |]; intros e; naive_solver.
  - rewrite (walks_select c w sid gen Hw). set (rs := (select sid None None (Some gen) true (cworld c)).1).
    assert (walks c (evict_terminal (cworld c))) as Hw1 by by right.
    assert (∀ r, r ∈ rs ↔ active_in c (λ s, s = (sid, gen)) r) as Hrs by (intros; by apply elem_of_scope).
    pose proof (add_children_spec c (evict_terminal (cworld c)) frontier rs sel found Hw1) as Hadd.
    destruct (add_children _ _ _ _ _) as [sel1 found1].
    destruct Hadd as (A1 & A2 & A3); [|done|].
    { intros r Hr%Hrs. destruct (active_hident _ _ _ Hr) as (i & ? & _). by exists i. }
    specialize (IH (evict_terminal (cworld c)) sel1 found1 Hw1 A1).
    destruct (descend_scopes _ _ _ _ _) as [[sel2 found2] w2]. destruct IH as (B1 & B2 & B3 & B4).
    assert (∀ e, (∃ r, active_in c (.∈ ((sid, gen) :: scopes)) r ∧ id_of c r = e ∧
        parent_in c (.∈ frontier) r) ↔
      (∃ r, r ∈ rs ∧ id_of c r = e ∧ parent_in c (.∈ frontier) r) ∨
      (∃ r, active_in c (.∈ scopes) r ∧ id_of c r = e ∧ parent_in c (.∈ frontier) r)) as Hcons.
    { intros e. unfold active_in. setoid_rewrite elem_of_cons. setoid_rewrite Hrs.
      unfold active_in. naive_solver. }
    split_and!; [done|done| |]; intros e.
    + rewrite B3, A2, Hcons. tauto.
    + rewrite B4, A3, Hcons. destruct (decide (e ∈ od_keys sel1)) as [Hs|Hs];
        pose proof (A2 e); tauto.
Qed.

(** The walk ends with all descendants. *)
Record walk_inv (c : Coord) (rs : list href) (frontier : gset string) (sel : odict string href)
    : Prop := mk_walk_inv {
  wi_ok : sel_ok c sel;
  wi_frontier : ∀ e, e ∈ frontier → e ∈ od_keys sel;
  wi_roots : ∀ r, r ∈ rs → id_of c r ∈ od_keys sel;
  wi_sound : ∀ r, r ∈ od_values sel → descendant c rs r;
  wi_scopes : ∀ r, r ∈ od_values sel → scopes_among c rs (scope_of c r);
  wi_closed : ∀ r r', r ∈ od_values sel → id_of c r ∉ frontier →
    active_in c (scopes_among c rs) r' → h_parent (handle c r') = Some (id_of c r) →
    id_of c r' ∈ od_keys sel;
}.

Lemma scopes_of_spec c w sel s :
  walks c w → s ∈ scopes_of w sel ↔ scopes_among c (od_values sel) s.
Proof.
  intros Hw. unfold scopes_of, scopes_among. rewrite elem_of_remove_dups.
  assert (map (λ r, (h_session_id (handle_in w r), h_generation (handle_in w r))) (od_values sel) =
    map (scope_of c) (od_values sel)) as ->.
  { apply map_ext. intros r. unfold scope_of. by rewrite (walks_handle c w). }
  rewrite list_elem_of_fmap. naive_solver.
Qed.

(** How many registered executions are not selected *)
Definition unselected (c : Coord) (sel : odict string href) : nat :=
  length (filter (λ e, e ∉ od_keys sel) (od_keys (executions (cworld c)))).

Lemma unselected_decreases c sel sel' e :
  (∀ e, e ∈ od_keys sel → e ∈ od_keys sel') → e ∈ od_keys (executions (cworld c)) →
  e ∉ od_keys sel → e ∈ od_keys sel' → unselected c sel' < unselected c sel.
Proof.
  intros Hsub Hin Hn Hs. unfold unselected. set (l := od_keys (executions (cworld c))) in *.
  assert (filter (λ x, x ∉ od_keys sel') l =
    filter (λ x, x ∉ od_keys sel') (filter (λ x, x ∉ od_keys sel) l)) as ->.
  { rewrite list_filter_filter. apply list_filter_iff. intros x. naive_solver. }
  apply (length_filter_lt _ _ e); [|naive_solver]. by apply list_elem_of_filter.
Qed.

Lemma descend_spec c rs n frontier sel w :
  coord_inv c → (∀ r, r ∈ rs → ∃ i, hident (cworld c) r = Some i) →
  walks c w → walk_inv c rs frontier sel → unselected c sel < n ∨ frontier = ∅ →
  ∃ sel' w', descend n frontier sel w = (sel', w') ∧ walk_inv c rs ∅ sel'.
Proof.
  intros Hc Hrs. revert frontier sel w. induction n as [|n IH]; intros frontier sel w Hw Hi Hn;
    cbn [descend]; case_bool_decide as Hf; try (subst frontier; by exists sel, w).
  { destruct Hn as [Hn|?]; [lia|done]. }
  destruct Hn as [Hn|?]; [|done].
  pose proof (descend_scopes_spec c w frontier (scopes_of w sel) sel ∅ Hc Hw (wi_ok _ _ _ _ Hi)) as Hd.
  destruct (descend_scopes _ _ _ _ _) as [[sel' found] w']. destruct Hd as (H1 & H2 & H3 & H4).
  assert (∀ s, s ∈ scopes_of w sel ↔ scopes_among c rs s) as Hsc.
  { intros s. rewrite scopes_of_spec by done. split.
    - intros (r & Hr & <-). by apply (wi_scopes _ _ _ _ Hi).
    - intros (r & Hr & <-). exists r. split; [|done]. destruct (Hrs r Hr) as [i Hri].
      apply (in_sel c sel r i Hc (wi_ok _ _ _ _ Hi) Hri).
      pose proof (wi_roots _ _ _ _ Hi r Hr) as Hk. unfold id_of, h_execution_id in Hk.
      by rewrite (hident_handle _ _ _ Hri) in Hk. }
  assert (∀ r, active_in c (.∈ scopes_of w sel) r ↔ active_in c (scopes_among c rs) r) as Hact.
  { intros r. unfold active_in. by rewrite Hsc. }
  destruct Hi as [I1 I2 I3 I4 I5 I6].
  (* each selected handle is old, or a child of the frontier *)
  assert (∀ r, r ∈ od_values sel' → r ∈ od_values sel ∨
    active_in c (scopes_among c rs) r ∧ ∃ r0, r0 ∈ od_values sel ∧ id_of c r0 ∈ frontier ∧
      h_parent (handle c r) = Some (id_of c r0)) as Hnew.
  { intros r Hr. pose proof (proj1 (od_values_get _ _ (proj1 H2)) Hr) as [e He].
    destruct (proj2 H2 _ _ He) as (i & Hri & Hie).
    pose proof (proj1 (in_sel c sel' r i Hc H2 Hri) Hr) as Hk. apply H3 in Hk as [Hk|Hk].
    { left. by apply (in_sel c sel r i). }
    destruct Hk as (r2 & Ha & Hid & p & Hp & Hpf).
    destruct (active_hident _ _ _ Ha) as (j & Hj & Hje).
    assert (r2 = r) as -> by (eapply (ci_ids _ Hc); [done|done|congruence]).
    right. split; [by apply Hact|]. apply I2 in Hpf as Hpk.
    apply od_get_is_Some in Hpk as [r0 Hr0]. exists r0.
    assert (r0 ∈ od_values sel) as Hin by (apply od_values_get; [apply I1|by exists p]).
    destruct (proj2 I1 _ _ Hr0) as (i0 & Hi0 & Hie0).
    assert (id_of c r0 = p) as Hidp
      by (unfold id_of, h_execution_id; by rewrite (hident_handle _ _ _ Hi0)).
    split_and!; [done|by rewrite Hidp|by rewrite Hidp]. }
  apply (IH found sel' w' H1).
  - split; [done| | | | |].
    + intros e He. apply H3. apply H4 in He as [He|[_ He]]; [set_solver|by right].
    + intros r Hr. apply H3. left. by apply I3.
    + intros r Hr. destruct (Hnew r Hr) as [?|(Ha & r0 & Hr0 & _ & Hp)]; [by apply I4|].
      eapply desc_child; [by apply I4|done|done].
    + intros r Hr. destruct (Hnew r Hr) as [?|([Hs _] & _)]; [by apply I5|done].
    + intros r r' Hr Hnf Ha Hp. apply H3.
      destruct (decide (id_of c r ∈ frontier)) as [Hfr|Hfr].
      * right. exists r'. split_and!; [by apply Hact|done|]. exists (id_of c r). by split.
      * destruct (decide (r ∈ od_values sel)) as [Hold|Hold]; [left; by eapply I6|].
        destruct (Hnew r Hr) as [?|(Har & r0 & Hr0 & Hf0 & Hpr)]; [done|].
        exfalso. apply Hnf. apply H4. right. split.
        -- intros Hk. apply Hold. destruct (active_hident _ _ _ Har) as (i & Hri & Hie).
           apply (in_sel c sel r i Hc I1 Hri). by rewrite Hie.
        -- exists r. split_and!; [by apply Hact|done|]. by exists (id_of c r0).
  - destruct (decide (found = ∅)) as [|Hne]; [by right|left].
    apply set_choose_L in Hne as [e He]. apply H4 in He as [He|[Hn' Hnew']]; [set_solver|].
    assert (unselected c sel' < unselected c sel); [|lia].
    apply (unselected_decreases c sel sel' e); [intros; apply H3; by left| |done|apply H3; by right].
    destruct Hnew' as (r & [_ (e' & h & He' & Hh & _)] & <- & _).
    assert (id_of c r = e') as ->; [|apply od_get_is_Some; by exists r].
    destruct (ix_ident _ (ci_index _ Hc) _ _ He') as (i & Hri & Hie). unfold id_of, h_execution_id.
    by rewrite (hident_handle _ _ _ Hri).
Qed.

Lemma by_execution_id_spec c rs :
  coord_inv c → (∀ r, r ∈ rs → ∃ i, hident (cworld c) r = Some i) →
  sel_ok c (by_execution_id (cworld c) rs) ∧
  ∀ e, e ∈ od_keys (by_execution_id (cworld c) rs) ↔ ∃ r, r ∈ rs ∧ id_of c r = e.
Proof.
  intros Hc Hrs. unfold by_execution_id.
  assert (∀ sel, sel_ok c sel →
    sel_ok c (foldl (λ d r, od_set d (h_execution_id (handle_in (cworld c) r)) r) sel rs) ∧
    ∀ e, e ∈ od_keys (foldl (λ d r, od_set d (h_execution_id (handle_in (cworld c) r)) r) sel rs) ↔
      e ∈ od_keys sel ∨ ∃ r, r ∈ rs ∧ id_of c r = e) as Hgen.
  { induction rs as [|r rs IH]; intros sel Hsel; simpl.
    - split; [done|]. intros e. split; [by left|]. intros [?|(r & Hr & _)]; [done|].
      by apply not_elem_of_nil in Hr.
    - destruct (Hrs r (list_elem_of_here _ _)) as [i Hi].
      assert (execution_id i = id_of c r) as Hid
        by (unfold id_of, h_execution_id; by rewrite (hident_handle _ _ _ Hi)).
      destruct (IH (λ r Hr, Hrs r (list_elem_of_further _ _ _ Hr)) (od_set sel (id_of c r) r))
        as [H1 H2]; [rewrite <-Hid; by apply sel_ok_set|].
      split; [done|]. intros e. rewrite H2, sel_keys_set. setoid_rewrite elem_of_cons. naive_solver. }
  destruct (Hgen []) as [H1 H2]; [split; [apply od_wf_nil|done]|].
  split; [done|]. intros e. rewrite H2. split; [|by right].
  intros [He|?]; [by apply not_elem_of_nil in He|done].
Qed.

(** C8: the descendants of a list of executions, computed round by round, are found without
    repetition and are exactly the executions of the list and the active executions of its
    Sessions and generations below them; the walk always ends. *)
Theorem with_descendants_correct rs c :
  coord_inv c → (∀ r, r ∈ rs → is_Some (heap (cworld c) !! r)) →
  ∃ ds c', with_descendants rs c = (Ret ds, c') ∧ NoDup ds ∧ ∀ r, r ∈ ds ↔ descendant c rs r.
Proof.
  intros Hc Hrs'.
  assert (∀ r, r ∈ rs → ∃ i, hident (cworld c) r = Some i) as Hrs.
  { intros r [h Hr]%Hrs'. exists (ident h). unfold hident. by rewrite Hr. }
  assert (∀ r i, hident (cworld c) r = Some i → execution_id i = id_of c r) as Hid.
  { intros r i Hi. unfold id_of, h_execution_id. by rewrite (hident_handle _ _ _ Hi). }
  destruct (by_execution_id_spec c rs Hc Hrs) as [Hok Hkeys].
  set (sel := by_execution_id (cworld c) rs) in *.
  assert (∀ r, r ∈ od_values sel → r ∈ rs) as Hroots.
  { intros r [e He]%od_values_get; [|apply Hok]. destruct (proj2 Hok _ _ He) as (i & Hi & Hie).
    assert (e ∈ od_keys sel) as (r' & Hr' & Hid')%Hkeys by (apply od_get_is_Some; by exists r).
    destruct (Hrs r' Hr') as [j Hj]. pose proof (Hid r' j Hj).
    by rewrite (ci_ids _ Hc r r' i j Hi Hj) by congruence. }
  destruct (descend_spec c rs (S (length (executions (cworld c)))) (list_to_set (od_keys sel)) sel
    (cworld c) Hc Hrs) as (sel' & w' & Hd & [I1 I2 I3 I4 I5 I6]); [by left| | |].
  - split; [done| | | | |].
    + intros e He. by apply elem_of_list_to_set in He.
    + intros r Hr. apply Hkeys. by exists r.
    + intros r Hr. apply desc_root. by apply Hroots.
    + intros r Hr. exists r. split; [by apply Hroots|done].
    + intros r r' Hr Hn. destruct Hn. apply elem_of_list_to_set, Hkeys. exists r. split; [by apply Hroots|done].
  - left. unfold unselected. pose proof (length_filter (λ e, e ∉ od_keys sel) (od_keys (executions (cworld c)))).
    unfold od_keys in *. rewrite length_map in *. lia.
  - eexists (od_values sel'), _. split; [|split].
    + unfold with_descendants, reg_get. fold sel. by rewrite Hd.
    + destruct I1 as [Hwf He]. unfold od_wf in Hwf. clear -Hwf He Hc Hid.
      assert (NoDup (map (id_of c) (od_values sel'))) as Hnd.
      { assert (map (id_of c) (od_values sel') = od_keys sel') as ->; [|done].
        unfold od_values, od_keys in *. rewrite <-list_fmap_compose. apply map_ext_in.
        intros [e r] Hin. simpl. apply list_elem_of_In in Hin.
        destruct (He e r) as (i & Hi & Hie); [by apply od_elem_get|]. by rewrite <-(Hid r i Hi). }
      by eapply NoDup_fmap_1.
    + intros r. split; [by apply I4|]. intros Hdesc. induction Hdesc as [r Hr|r r' _ IH Ha Hp].
      * destruct (Hrs r Hr) as [i Hi]. apply (in_sel c sel' r i Hc I1 Hi). rewrite (Hid r i Hi).
        by apply I3.
      * destruct (active_hident _ _ _ Ha) as (i & Hi & Hie). apply (in_sel c sel' r' i Hc I1 Hi).
        rewrite Hie. by eapply (I6 r r').
Qed.

(** ** The state of a Session *)

Lemma existsb_waiting c rs :
  existsb (λ r, negb (bool_decide (waiting_control_ids (handle c r) = ∅))) rs = false ↔
    ∀ r, r ∈ rs → waiting_control_ids (handle c r) = ∅.
Proof.
  induction rs as [|r rs IH]; simpl; [split; [|done]; intros _ r Hr; by apply not_elem_of_nil in Hr|].
  rewrite orb_false_iff, negb_false_iff, bool_decide_eq_true, IH. setoid_rewrite elem_of_cons.
  naive_solver.
Qed.

(** The record of a current Session that is not fenced *)
Definition refreshable (c : Coord) (rec : rec_ref) : bool :=
  bool_decide (od_get (sessions c) (rec_session_id (record c rec)) = Some rec)
  && negb (fenced (rec_state (record c rec))).

Lemma refresh_session_eq rec c :
  refresh_session_state rec c =
    if refreshable c rec then
      let active := (select (rec_session_id (record c rec)) None None
                       (Some (rec_generation (record c rec))) true (cworld c)).1 in
      (Ret tt, with_records
        (alter (set_rec_state (match active with [] => READY | _ => ACTIVE end)) rec
          (alter (set_control_ready (negb (existsb
             (λ r, negb (bool_decide (waiting_control_ids (handle (evicted c) r) = ∅))) active)))
             rec (co_records c))) (evicted c))
    else (Ret tt, c).
Proof.
  unfold refresh_session_state, refreshable, py_bind, py_get.
  destruct (bool_decide (od_get _ _ = _)), (fenced _); try done.
Qed.

(** refreshing the record of a current, unfenced Session makes it active exactly if an
    execution of its generation is active and opens its gate exactly if none of them waits
    for an answer; a fenced or replaced record is left alone, and executions never change. *)
Theorem refresh_session_state_correct rec c :
  coord_inv c → is_Some (co_records c !! rec) →
  let c' := (refresh_session_state rec c).2 in
  let live := od_get (sessions c) (rec_session_id (record c rec)) = Some rec ∧
              fenced (rec_state (record c rec)) = false in
  (live →
     (rec_state (record c' rec) = ACTIVE ↔ ∃ r, active_of c rec r) ∧
     (rec_state (record c' rec) = READY ↔ ¬ ∃ r, active_of c rec r) ∧
     (control_ready (record c' rec) = true ↔
        ∀ r, active_of c rec r → waiting_control_ids (handle c r) = ∅)) ∧
  (¬ live → c' = c) ∧ ∀ r, handle c' r = handle c r.
Proof.
  intros Hc [x Hx] c' live. subst c'. rewrite refresh_session_eq.
  assert (refreshable c rec = true ↔ live) as Hr.
  { unfold refreshable. by rewrite andb_true_iff, bool_decide_eq_true, negb_true_iff. }
  destruct (refreshable c rec).
  2:{ assert (¬ live) as Hn by (rewrite <-Hr; done). simpl. by split_and!. }
  assert (live) as Hlive by by apply Hr. cbv zeta. set (active := (select _ _ _ _ _ _).1).
  assert (∀ r, r ∈ active ↔ active_of c rec r) as Hact by (intros; by apply elem_of_actives).
  set (gate := negb (existsb _ active)).
  assert (gate = true ↔ ∀ r, active_of c rec r → waiting_control_ids (handle c r) = ∅) as Hgate.
  { unfold gate. rewrite negb_true_iff, existsb_waiting. setoid_rewrite Hact.
    by setoid_rewrite handle_evicted. }
  clearbody gate. unfold record. simpl. rewrite !lookup_alter_eq, Hx. simpl.
  split_and!; [|done|intros r; apply handle_evicted].
  intros _. split_and!; [| |done].
  - destruct active as [|r active].
    + split; [done|]. intros [r Hin%Hact]. by apply not_elem_of_nil in Hin.
    + split; [|done]. intros _. exists r. apply Hact. by left.
  - destruct active as [|r active].
    + split; [|done]. intros _ [r Hin%Hact]. by apply not_elem_of_nil in Hin.
    + split; [done|]. intros Hn. destruct Hn. exists r. apply Hact. by left.
Qed.
