(* ===== verification/CoordinatorAnswers.v ===== *)
(** * Answers, cancelling and closing

    Theorems on the part of [Coordinator] that routes answers to the execution
    that waits for them, one delivery at a time, and on how executions are
    cancelled and Sessions closed. *)

From S2P Require Import Prelude OrderedDict SessionModel ExecutionRegistry WorkScheduler Coordinator CoordinatorInv CoordinatorProps.

(** ** Lookups do not disturb each other *)

Lemma visits_trans c c1 c2 : visits c c1 → visits c1 c2 → visits c c2.
Proof.
  intros [->| ->] [->| ->]; [by left|by right|by right|right; apply evicted_idemp].
Qed.

Lemma coord_inv_visits c c0 : coord_inv c → visits c c0 → coord_inv c0.
Proof.
  intros Hc [->| ->]; [done|]. by apply (with_cworld_ok c), Hc; apply world_ok_evict.
Qed.

Lemma record_visits c c0 rec : visits c c0 → record c0 rec = record c rec.
Proof. by intros [->| ->]. Qed.

Lemma active_of_evicted c rec r : coord_inv c → active_of (evicted c) rec r ↔ active_of c rec r.
Proof.
  intros Hc. rewrite <-(elem_of_actives rec c) by done. rewrite elem_of_select by apply ci_index, Hc.
  done.
Qed.

Lemma active_of_visits c c0 rec r :
  coord_inv c → visits c c0 → active_of c0 rec r ↔ active_of c rec r.
Proof. intros Hc [->| ->]; [done|by apply active_of_evicted]. Qed.

Lemma registered_parent_visits c c0 r :
  visits c c0 → registered_parent c0 r = registered_parent c r.
Proof.
  intros [->| ->]; [done|]. unfold registered_parent. rewrite handle_evicted.
  change (cworld (evicted c)) with (evict_terminal (cworld c)). by rewrite evict_idemp.
Qed.

Lemma same_scope_visits c c0 o r : visits c c0 → same_scope c0 o r ↔ same_scope c o r.
Proof. intros Hv. unfold same_scope. by rewrite !(handle_visits c c0). Qed.

Lemma lineage_visits c c0 owner e r : visits c c0 → lineage c0 owner e r → lineage c owner e r.
Proof.
  intros Hv. induction 1 as [r Hs He|r r' Hs Hp Hr _ IH].
  - apply lin_here; [by apply (same_scope_visits c c0)|]. by rewrite (handle_visits c c0) in He.
  - eapply lin_up; [by apply (same_scope_visits c c0)| | |done].
    + by rewrite (handle_visits c c0) in Hp.
    + by rewrite (registered_parent_visits c c0) in Hr.
Qed.

Lemma lineage_visits_back c c0 owner e r : visits c c0 → lineage c owner e r → lineage c0 owner e r.
Proof.
  intros Hv. induction 1 as [r Hs He|r r' Hs Hp Hr _ IH].
  - apply lin_here; [by apply (same_scope_visits c c0)|]. by rewrite (handle_visits c c0).
  - eapply lin_up; [by apply (same_scope_visits c c0)| | |done].
    + by rewrite (handle_visits c c0).
    + by rewrite (registered_parent_visits c c0).
Qed.

Lemma nearest_visits c c0 origin k r o : visits c c0 → nearest c0 origin k r o → nearest c origin k r o.
Proof.
  intros Hv. induction 1 as [r Hk|r r' o Hk Hp Hs _ IH|r Hk Hn].
  - apply near_here. by rewrite (handle_visits c c0) in Hk.
  - eapply near_up; [by rewrite (handle_visits c c0) in Hk|
      by rewrite (registered_parent_visits c c0) in Hp|by apply (same_scope_visits c c0)|done].
  - apply near_none; [by rewrite (handle_visits c c0) in Hk|]. intros r' Hp Hs.
    apply (Hn r'); [by rewrite (registered_parent_visits c c0)|by apply (same_scope_visits c c0)].
Qed.

(** [r] can take the answer to the interaction [rid]. *)
Definition candidate (c : Coord) (rec : rec_ref) (rid : string) (r : href) : Prop :=
  active_of c rec r ∧ answers rid (handle c r) = true.

Lemma candidate_visits c c0 rec rid r :
  coord_inv c → visits c c0 → candidate c0 rec rid r ↔ candidate c rec rid r.
Proof.
  intros Hc Hv. unfold candidate. by rewrite active_of_visits, (handle_visits c c0).
Qed.

Lemma control_parent_spec rec rid c :
  coord_inv c →
  ∃ o, control_parent rec rid c = (Ret o, evicted c) ∧
    match o with Some r => candidate c rec rid r | None => ∀ r, ¬ candidate c rec rid r end.
Proof.
  intros Hc. unfold control_parent. unfold py_bind at 1. rewrite select_record_eq.
  set (active := (select _ _ _ _ _ _).1). unfold py_bind, py_get, py_ret. eexists. split; [done|].
  set (ps := filter _ active).
  assert (∀ r, r ∈ ps ↔ candidate c rec rid r) as Hps.
  { intros r. unfold ps, candidate. rewrite list_elem_of_filter, handle_evicted.
    rewrite <-(elem_of_actives rec c) by done. fold active. tauto. }
  destruct ps as [|p ps]; [intros r Hr%Hps; by apply not_elem_of_nil in Hr|].
  apply Hps. by apply (py_max_spec (λ r, start_key (handle (evicted c) r))).
Qed.

Lemma control_target_spec rec names c :
  coord_inv c →
  ∃ o c', control_target rec names c = (Ret o, c') ∧ visits c c' ∧
    match o with
    | Some (r, rid) => rid ∈ names ∧ candidate c rec rid r
    | None => ∀ rid r, rid ∈ names → ¬ candidate c rec rid r
    end.
Proof.
  revert c. induction names as [|rid names IH]; intros c Hc; cbn [control_target].
  - exists None, c. split_and!; [done|by left|]. intros rid r Hr. by apply not_elem_of_nil in Hr.
  - unfold py_bind at 1. destruct (control_parent_spec rec rid c Hc) as (o & Ho & Hspec).
    rewrite Ho. assert (visits c (evicted c)) as Hv by by right. destruct o as [r|].
    + exists (Some (r, rid)), (evicted c). split_and!; [done|done|by left|done].
    + destruct (IH (evicted c)) as (o & c' & Ho' & Hv' & Hs'); [by eapply coord_inv_visits|].
      exists o, c'. split; [done|]. split; [by eapply visits_trans|]. destruct o as [[r rid']|].
      * destruct Hs' as [Hin Hcand]. split; [by right|]. by apply (candidate_visits c (evicted c)).
      * intros rid' r [->|Hin]%elem_of_cons; [apply Hspec|]. intros Hcand.
        apply (Hs' rid' r Hin). by apply (candidate_visits c (evicted c)).
Qed.

(** ** Claims *)

(** Every interaction of [names] is being answered by one delivery in flight. *)
Definition covered (c : Coord) (rec : rec_ref) (names : list string) : Prop :=
  ∃ d, d ∈ od_values (deliveries (record c rec)) ∧ list_to_set names ⊆ answered d.

Lemma covered_test c rec names :
  existsb (λ d, bool_decide ((list_to_set names : gset string) ⊆ answered d))
    (od_values (deliveries (record c rec))) = true ↔ covered c rec names.
Proof.
  rewrite existsb_exists. unfold covered. setoid_rewrite <-list_elem_of_In.
  by setoid_rewrite bool_decide_eq_true.
Qed.

Lemma require_open_cases sid c :
  (takes_no_work sid c ∧ ∃ e, require_open_session sid c = (Exc e, c)) ∨
  (∃ rec, ¬ takes_no_work sid c ∧ od_get (sessions c) sid = Some rec ∧
     require_open_session sid c = (Ret rec, c)).
Proof.
  unfold require_open_session, takes_no_work, py_bind, py_get, py_guard, py_some.
  destruct (fence c sid) as [msg|]; [left; split; [by left|by eexists]|].
  destruct (accepting c) eqn:Ha; simpl.
  2:{ left. split; [by right; left|by eexists]. }
  destruct (od_get (sessions c) sid) as [rec|] eqn:Hs; simpl.
  2:{ left. split; [by right; right|by eexists]. }
  destruct (fenced _) eqn:Hf; simpl.
  - left. split; [by right; right|by eexists].
  - right. exists rec. split_and!; try done. intros [[? ?]|[?|?]]; congruence.
Qed.

(** The branches of a claim *)
Definition claim_result (sid : string) (names : list string) (w : option string) (c : Coord)
    (o : outcome coordinator_error claim) (c' : Coord) : Prop :=
  match o with
  | Ret (Claimed rec p rid) =>
      od_get (sessions c) sid = Some rec ∧ rid ∈ names ∧ candidate c rec rid p ∧
      ¬ covered c rec names ∧ (∀ e, w = Some e → lineage c p e p) ∧
      od_get (deliveries (record c rec)) (id_of c p) = None ∧
      deliveries (record c' rec) =
        od_set (deliveries (record c rec)) (id_of c p)
          (mk_delivery (list_to_set names) (next_ref (co_sched c)))
  | Ret (WaitFor e event) =>
      visits c c' ∧ ∃ rec p rid d root,
        od_get (sessions c) sid = Some rec ∧ rid ∈ names ∧ candidate c rec rid p ∧
        (∀ e, w = Some e → lineage c p e p) ∧
        od_get (deliveries (record c rec)) (id_of c p) = Some d ∧ event = settled_event d ∧
        nearest c p HEARTBEAT p root ∧ e = id_of c (default p root)
  | Exc _ =>
      visits c c' ∧
      (takes_no_work sid c ∨ ∃ rec, od_get (sessions c) sid = Some rec ∧
        (covered c rec names ∨ (∀ rid p, rid ∈ names → ¬ candidate c rec rid p) ∨
         ∃ e rid p, w = Some e ∧ rid ∈ names ∧ candidate c rec rid p ∧ ¬ lineage c p e p))
  end.

Lemma claim_lineage w p c c0 :
  coord_inv c → visits c c0 →
  ∃ b c1, (match w with Some eid => in_execution_lineage p eid | None => py_ret true end) c0 =
      (Ret b, c1) ∧ visits c c1 ∧
    (b = true → ∀ e, w = Some e → lineage c p e p) ∧
    (b = false → ∃ e, w = Some e ∧ ¬ lineage c p e p).
Proof.
  intros Hc Hv. destruct w as [e|].
  - destruct (in_execution_lineage_visits p e c0) as (b & c1 & Hb & Hv1 & Hl);
      [by eapply coord_inv_visits|].
    exists b, c1. split_and!; [done|by eapply visits_trans| |].
    + intros -> e' [= <-]. eapply lineage_visits; [done|]. by apply Hl.
    + intros ->. exists e. split; [done|]. intros H.
      assert (false = true); [|done]. apply Hl. by eapply lineage_visits_back.
  - by exists true, c0.
Qed.

(** C2: an answer is claimed for an execution that waits on an interaction it names, only
    while no delivery to that execution is in flight and none answers all the names already
    - after a wait, only in the lineage of the execution waited for; a second answer to the
    execution waits for the first delivery's event; refused answers change nothing. *)
Theorem claim_control_parent_correct sid names dup w c :
  coord_inv c →
  let '(o, c') := claim_control_parent sid names dup w c in claim_result sid names w c o c'.
Proof.
  intros Hc. unfold claim_control_parent. unfold py_bind at 1.
  destruct (require_open_cases sid c) as [[Hno [e ->]]|(rec & Hopen & Hs & ->)].
  { split; [by left|by left]. }
  unfold py_bind at 1, py_get. unfold py_bind at 1, py_guard.
  destruct (existsb _ _) eqn:Hcov; simpl.
  { apply covered_test in Hcov. split; [by left|]. right. exists rec. split; [done|by left]. }
  apply not_true_iff_false in Hcov. rewrite covered_test in Hcov.
  unfold py_bind at 1. destruct (control_target_spec rec names c Hc) as (o & c1 & -> & Hv1 & Ho).
  destruct o as [[p rid]|]; simpl.
  2:{ split; [done|]. right. exists rec. split; [done|]. right. by left. }
  destruct Ho as [Hin Hcand]. unfold py_bind at 1.
  destruct (claim_lineage w p c c1 Hc Hv1) as (b & c2 & -> & Hv2 & Hl & Hnl).
  unfold py_bind at 1. destruct b; simpl.
  2:{ split; [done|]. right. exists rec. split; [done|]. right. right.
      destruct (Hnl eq_refl) as (e & ? & ?). by exists e, rid, p. }
  specialize (Hl eq_refl). unfold py_bind at 1.
  assert (h_execution_id (handle c2 p) = id_of c p) as Hid.
  { unfold id_of. by rewrite (handle_visits c c2). }
  rewrite Hid, (record_visits c c2) by done.
  destruct (od_get (deliveries (record c rec)) (id_of c p)) as [d|] eqn:Hd.
  - unfold py_bind at 1. assert (is_Some (heap (cworld c2) !! p)) as Hp.
    { assert (candidate c2 rec rid p) as [(e & h & _ & Hh & _) _] by by apply (candidate_visits c c2).
      by exists h. }
    destruct (ancestor_of_kind_visits p HEARTBEAT c2) as (root & c3 & -> & Hv3 & Hnear);
      [by eapply coord_inv_visits|done|].
    assert (visits c c3) as Hv by by eapply visits_trans.
    unfold py_bind, py_ret. simpl. split; [done|]. exists rec, p, rid, d, root. split_and!; try done.
    + by apply (nearest_visits c c2).
    + unfold id_of. by rewrite (handle_visits c c3).
  - destruct (ci_sessions _ Hc _ _ Hs) as (x & Hx & _). simpl. split_and!; try done.
    assert (co_records c2 = co_records c) as Hrec by (by destruct Hv2 as [->| ->]).
    assert (next_ref (co_sched c2) = next_ref (co_sched c)) as Hnext by (by destruct Hv2 as [->| ->]).
    unfold record. simpl. by rewrite lookup_alter_eq, Hrec, Hx, Hnext.
Qed.

(** ** The end of a delivery *)

(** [m] leaves the answers being delivered alone. *)
Definition coord_keeps {A} (m : coord A) : Prop :=
  ∀ c, (∀ rec, deliveries (record (m c).2 rec) = deliveries (record c rec)) ∧
       settled (m c).2 = settled c.

Lemma keeps_same {A} (m : coord A) :
  (∀ c, co_records (m c).2 = co_records c ∧ settled (m c).2 = settled c) → coord_keeps m.
Proof. intros H c. destruct (H c) as [H1 H2]. unfold record. by rewrite H1. Qed.

Lemma keeps_ret {A} (a : A) : coord_keeps (py_ret a).
Proof. done. Qed.
Lemma keeps_raise {A} e : coord_keeps (py_raise (A := A) e).
Proof. done. Qed.
Lemma keeps_get : coord_keeps py_get.
Proof. done. Qed.
Lemma keeps_reg_do f : coord_keeps (reg_do f).
Proof. by apply keeps_same. Qed.
Lemma keeps_reg_get {A} (f : World → A * World) : coord_keeps (reg_get f).
Proof. apply keeps_same. intros c. unfold reg_get. by destruct (f _). Qed.
Lemma keeps_reg_call {A} (m : py World registry_error A) : coord_keeps (reg_call m).
Proof. apply keeps_same. intros c. unfold reg_call. by destruct (m _) as [[?|[?]] ?]. Qed.

Lemma keeps_bind {A B} (m : coord A) (k : A → coord B) :
  coord_keeps m → (∀ a, coord_keeps (k a)) → coord_keeps (py_bind m k).
Proof.
  intros Hm Hk c. specialize (Hm c). unfold py_bind. destruct (m c) as [[a|e] c1]; [|done].
  destruct (Hk a c1) as [H1 H2], Hm as [H3 H4]. simpl in *. split; [|congruence].
  intros rec. by rewrite H1.
Qed.

Lemma keeps_upd_record rec f :
  (∀ x, deliveries (f x) = deliveries x) → coord_keeps (upd_record rec f).
Proof.
  intros Hf c. split; [|done]. intros rec'. unfold record. simpl. rewrite lookup_alter.
  case_decide; [subst|done]. destruct (co_records c !! rec'); simpl; [apply Hf|done].
Qed.

#[export] Hint Resolve keeps_ret keeps_raise keeps_get keeps_reg_do keeps_reg_get keeps_reg_call
  keeps_bind : coord.
#[export] Hint Extern 2 (coord_keeps (upd_record _ _)) => (apply keeps_upd_record; done) : coord.
#[export] Hint Extern 4 (coord_keeps (match ?x with _ => _ end)) => (destruct x) : coord.
#[export] Hint Extern 4 (coord_keeps (if ?x then _ else _)) => (destruct x) : coord.

Lemma keeps_ancestor_loop n origin k seen r : coord_keeps (ancestor_loop n origin k seen r).
Proof.
  revert seen r. induction n as [|n IH]; intros seen r; cbn [ancestor_loop]; auto 20 with coord.
Qed.
Lemma keeps_ancestor_of_kind r k : coord_keeps (ancestor_of_kind r k).
Proof. unfold ancestor_of_kind. auto using keeps_ancestor_loop with coord. Qed.
Lemma keeps_answered_by p claimed was : coord_keeps (answered_by p claimed was).
Proof. unfold answered_by. auto 20 with coord. Qed.
Lemma keeps_deliver_failed p r was st msg : coord_keeps (deliver_failed p r was st msg).
Proof. unfold deliver_failed. auto 20 with coord. Qed.
Lemma keeps_select_record rec rid a : coord_keeps (select_record rec rid a).
Proof.
  intros c. apply (keeps_reg_get (select (rec_session_id (record c rec)) rid None
    (Some (rec_generation (record c rec))) a)).
Qed.
Lemma keeps_refresh_gate rec active : coord_keeps (refresh_control_gate_with rec active).
Proof. unfold refresh_control_gate_with. auto 20 with coord. Qed.
Lemma keeps_refresh rec : coord_keeps (refresh_session_state rec).
Proof.
  unfold refresh_session_state.
  auto 20 using keeps_select_record, keeps_refresh_gate with coord.
Qed.
#[export] Hint Resolve keeps_ancestor_of_kind keeps_answered_by keeps_deliver_failed
  keeps_select_record keeps_refresh_gate keeps_refresh : coord.

(** The delivery [d] to [parent] is in flight. *)
Definition in_flight (c : Coord) (rec : rec_ref) (parent : href) (d : Delivery) : Prop :=
  is_Some (co_records c !! rec) ∧ is_Some (heap (cworld c) !! parent) ∧
  od_get (deliveries (record c rec)) (id_of c parent) = Some d.

Lemma hident_some c r : is_Some (heap (cworld c) !! r) → hident (cworld c) r = Some (ident (handle c r)).
Proof.
  intros [h Hh]. unfold hident, handle, handle_in, hget. by rewrite Hh.
Qed.

Lemma id_of_ident c c' r :
  is_Some (heap (cworld c) !! r) → hident (cworld c') r = hident (cworld c) r →
  id_of c' r = id_of c r.
Proof.
  intros Hr Hi. rewrite (hident_some c r Hr) in Hi. unfold id_of, h_execution_id.
  by rewrite (hident_handle _ _ _ Hi).
Qed.

Lemma refresh_frame rec c :
  ∃ c', refresh_session_state rec c = (Ret tt, c') ∧ (∀ r, handle c' r = handle c r).
Proof.
  rewrite refresh_session_eq. destruct (refreshable c rec); eexists; (split; [done|]); intros r;
    [apply handle_evicted|done].
Qed.

Lemma delivery_finally_spec {A} rec parent (m : coord A) d c :
  coord_inv c → coord_quiet m → coord_keeps m → in_flight c rec parent d →
  ∃ c2, delivery_finally rec parent m c = ((m c).1, c2) ∧
    (∀ r, handle c2 r = handle (m c).2 r) ∧
    od_get (deliveries (record c2 rec)) (id_of c parent) = None ∧
    settled c2 = {[settled_event d]} ∪ settled c.
Proof.
  intros Hc Hq Hk ([x Hx] & Hp & Hd). destruct (Hq c Hc) as (Hc1 & He & Hi).
  destruct (Hk c) as [Hdel Hset]. unfold delivery_finally.
  destruct (m c) as [o c1] eqn:Hm. simpl in *.
  destruct (ev_records _ _ He rec x Hx) as (x1 & Hx1 & _).
  unfold release_control_parent, py_bind, py_get.
  assert (h_execution_id (handle c1 parent) = id_of c parent) as ->
    by (apply (id_of_ident c c1); [done|apply Hi]).
  rewrite Hdel, Hd. simpl. unfold py_ret. set (c3 := with_settled _ _).
  destruct (refresh_frame rec c3) as (c2 & Hr & Hh). destruct (keeps_refresh rec c3) as [Hd2 Hs2].
  unfold upd_record, py_modify. rewrite Hr in *. simpl in *. exists c2. split; [done|].
  split; [done|]. split; [|rewrite Hs2; unfold c3; simpl; by rewrite Hset].
  rewrite Hd2. unfold record, c3. simpl. rewrite lookup_alter_eq, Hx1. simpl. apply od_get_pop_eq.
Qed.

(** What [deliver_control] raises after its operation returned, if the parent ended
    meanwhile *)
Definition delivery_ended (c : Coord) (sid : string) (rec : rec_ref) (parent : href) : Prop :=
  terminal (state (handle c parent)) = true ∨ od_get (sessions c) sid ≠ Some rec ∨
  fenced (rec_state (record c rec)) = true.

(** [m] returns [a] and applies [f] to the handles. *)
Definition does {A} (m : coord A) (a : A) (f : href → SessionExecutionHandle → SessionExecutionHandle)
    (c : Coord) : Prop :=
  ∃ c', m c = (Ret a, c') ∧ world_map f c c'.

Lemma does_bind {A B} (m : coord A) (k : A → coord B) a b f g c :
  does m a f c → (∀ c', world_map f c c' → does (k a) b g c') →
  does (py_bind m k) b (λ r, g r ∘ f r) c.
Proof.
  intros (c1 & H1 & W1) Hk. destruct (Hk c1 W1) as (c2 & H2 & W2). exists c2.
  split; [unfold py_bind; by rewrite H1|]. by eapply world_map_trans.
Qed.

Lemma does_seq {B} (m : coord unit) (m' : coord B) b f g h c :
  does m tt f c → (∀ c', world_map f c c' → does m' b g c') → (∀ r x, h r x = g r (f r x)) →
  does (m ;; m') b h c.
Proof.
  intros H1 H2 Hh. destruct (does_bind m (λ _, m') tt b f g c H1 H2) as (c' & ? & ?).
  exists c'. split; [done|]. eapply world_map_ext; [|done]. intros r x _. by rewrite Hh.
Qed.

Lemma does_ext {A} (m : coord A) a f g c :
  (∀ r h, heap (cworld c) !! r = Some h → f r h = g r h) → does m a f c → does m a g c.
Proof. intros He (c' & H & W). exists c'. split; [done|]. by eapply world_map_ext. Qed.

Lemma does_ret {A} (a : A) c : does (py_ret a) a (λ _ h, h) c.
Proof. exists c. split; [done|]. apply world_map_id. Qed.

Lemma does_hupd r g c : does (reg_do (hupd r g)) tt (at_ref r g) c.
Proof. eexists. split; [done|]. apply world_map_hupd. Qed.

Lemma does_terminal r st err c :
  terminal st = true →
  does (reg_call (mark_terminal r st err)) tt (at_ref r (terminated (clock (cworld c)) st err)) c.
Proof. intros Hst. destruct (mark_terminal_call r st err c Hst) as (c' & ? & ?). by exists c'. Qed.

Lemma does_visits {A} (m : coord A) a c c' : m c = (Ret a, c') → visits c c' → does m a (λ _ h, h) c.
Proof.
  intros Hm [->| ->]; (eexists; split; [exact Hm|]); [apply world_map_id|apply world_map_evicted].
Qed.

Lemma does_get {B} (k : Coord → coord B) b f c : does (k c) b f c → does (py_bind py_get k) b f c.
Proof. intros (c' & H & W). by exists c'. Qed.

(** The assignments of [mark_waiting] and [mark_awaiting_control] *)
Definition waiting_handle (h : SessionExecutionHandle) : SessionExecutionHandle :=
  if terminal (state h) then h
  else let h' := set_state WAITING_FOR_CONTROL h in
       if retain_owner_task h' then h' else set_task None h'.
Definition awaiting_handle (ids : gset string) (h : SessionExecutionHandle)
    : SessionExecutionHandle :=
  if terminal (state h) then h else set_waiting (waiting_control_ids h ∪ ids) h.

(** What an answer to [claimed] does to the execution it goes to *)
Definition answered_handle (now : Z) (claimed : gset string) (was_waiting : bool)
    (h : SessionExecutionHandle) : SessionExecutionHandle :=
  let h1 := set_waiting (waiting_control_ids h ∖ claimed) h in
  if was_waiting || bool_decide (state h1 = WAITING_FOR_CONTROL) then
    if bool_decide (waiting_control_ids h1 = ∅)
    then terminated now SUCCEEDED None h1 else waiting_handle h1
  else h1.

Lemma world_map_heap f c c' r : world_map f c c' → is_Some (heap (cworld c) !! r) → is_Some (heap (cworld c') !! r).
Proof. intros [_ Hh _] [h Hr]. rewrite Hh, Hr. by eexists. Qed.

Lemma does_answered p claimed was c :
  is_Some (heap (cworld c) !! p) →
  does (answered_by p claimed was) tt
    (at_ref p (answered_handle (clock (cworld c)) claimed was)) c.
Proof.
  intros Hp. unfold answered_by.
  set (s := λ h, set_waiting (waiting_control_ids h ∖ claimed) h).
  set (k := λ h : SessionExecutionHandle, if was || bool_decide (state h = WAITING_FOR_CONTROL) then
    (if bool_decide (waiting_control_ids h = ∅)
     then terminated (clock (cworld c)) SUCCEEDED None h else waiting_handle h) else h).
  apply (does_ext _ _ (λ r, (at_ref p (λ h, k (s (handle c p)))) r ∘ at_ref p s r)).
  { intros r h Hr. unfold at_ref. simpl. case_decide; [subst p|done].
    assert (handle c r = h) as -> by (unfold handle, handle_in, hget; by rewrite Hr). done. }
  eapply does_bind; [apply does_hupd|]. intros c1 W1. apply does_get.
  assert (handle c1 p = s (handle c p)) as Hh.
  { rewrite (world_map_handle _ _ _ _ W1 Hp). apply at_ref_same. }
  rewrite Hh. pose proof (world_map_heap _ _ _ _ W1 Hp) as [h1 Hp1].
  assert (h1 = s (handle c p)) as ->.
  { rewrite <-Hh. unfold handle, handle_in, hget. by rewrite Hp1. }
  assert (∀ g, (∀ h, h = s (handle c p) → g h = k h) →
    ∀ r h, heap (cworld c1) !! r = Some h → at_ref p g r h = at_ref p (λ _, k (s (handle c p))) r h) as Hext.
  { intros g Hg r h Hr. unfold at_ref. case_decide; [subst p|done].
    assert (h = s (handle c r)) as -> by congruence. by apply Hg. }
  destruct (was || _) eqn:Hw;
    [destruct (bool_decide (waiting_control_ids (s (handle c p)) = ∅)) eqn:He|].
  - eapply does_ext; [|by apply does_terminal]. apply Hext. intros h ->. unfold k. rewrite Hw.
    by rewrite He, (wm_clock _ _ _ W1).
  - eapply does_ext; [|apply does_hupd]. apply Hext. intros h ->. unfold k. rewrite Hw.
    by rewrite He.
  - eapply does_ext; [|apply does_ret]. intros r h Hr. unfold at_ref.
    destruct (decide (p = r)) as [<-|]; [|done].
    assert (h = s (handle c p)) as -> by congruence. unfold k. by rewrite Hw.
Qed.

Lemma does_ancestor_of_kind r k c c1 :
  coord_inv c → is_Some (heap (cworld c) !! r) → visits c c1 →
  ∃ o c2, ancestor_of_kind r k c1 = (Ret o, c2) ∧ visits c c2 ∧ nearest c r k r o.
Proof.
  intros Hc Hr Hv. destruct (ancestor_of_kind_visits r k c1) as (o & c2 & Ho & Hv2 & Hn).
  - by eapply coord_inv_visits.
  - destruct Hv as [->| ->]; [done|]. by eapply world_map_heap; [apply world_map_evicted|].
  - exists o, c2. split_and!; [done|by eapply visits_trans|by apply (nearest_visits c c1)].
Qed.

Lemma nearest_fun c origin k r o o' : nearest c origin k r o → nearest c origin k r o' → o = o'.
Proof.
  intros H1. revert o'. induction H1 as [r Hk|r r1 o Hk Hp Hs _ IH|r Hk Hn];
    intros o' H2; inversion H2; subst; try done.
  - apply IH. congruence.
  - exfalso. by eapply H0.
  - exfalso. by eapply Hn.
Qed.

Lemma nearest_kind c origin k r root : nearest c origin k r (Some root) → h_work_kind (handle c root) = k.
Proof. intros H. remember (Some root) as o. induction H; simplify_eq; auto. Qed.

(** The interactions an answer takes from its execution *)
Definition taken (names : list string) (claimed new : gset string) (message : option href)
    : gset string :=
  if bool_decide (new = ∅) then claimed
  else match message with None => list_to_set names ∪ new | Some _ => claimed end.

(** What the end of a delivery that returned does to the handles *)
Definition delivered (now : Z) (parent r : href) (taken new : gset string) (was : bool)
    (heartbeat : option href) (r0 : href) (h : SessionExecutionHandle) : SessionExecutionHandle :=
  if bool_decide (new = ∅) then
    at_ref r (terminated now SUCCEEDED None) r0 (at_ref parent (answered_handle now taken was) r0 h)
  else match heartbeat with
       | Some root =>
           at_ref r (terminated now SUCCEEDED None) r0
             (at_ref root waiting_handle r0 (at_ref root (awaiting_handle new) r0
               (at_ref parent (λ h, set_waiting (waiting_control_ids h ∖ taken) h) r0 h)))
       | None =>
           at_ref r waiting_handle r0 (at_ref r (awaiting_handle new) r0
             (at_ref parent (answered_handle now taken was) r0 h))
       end.

(** [deliver_control] after its operation returned, without its [finally] *)
Definition deliver_body (parent r : href) (names : list string) (claimed new : gset string)
    (was_waiting : bool) : coord unit :=
  claimed <- (if bool_decide (new = ∅) then py_ret claimed
              else message <- ancestor_of_kind parent SESSION_MESSAGE ;;
                   py_ret (match message with
                           | None => list_to_set names ∪ new
                           | Some _ => claimed
                           end)) ;;
  heartbeat <- ancestor_of_kind parent HEARTBEAT ;;
  match heartbeat with
  | Some root =>
      if bool_decide (new = ∅) then
        answered_by parent claimed was_waiting ;;
        reg_call (mark_terminal r SUCCEEDED None)
      else
        reg_do (hupd parent (λ h, set_waiting (waiting_control_ids h ∖ claimed) h)) ;;
        reg_do (mark_awaiting_control root new) ;;
        reg_do (mark_waiting root) ;;
        reg_call (mark_terminal r SUCCEEDED None)
  | None =>
      answered_by parent claimed was_waiting ;;
      if bool_decide (new = ∅)
      then reg_call (mark_terminal r SUCCEEDED None)
      else reg_do (mark_awaiting_control r new) ;; reg_do (mark_waiting r)
  end.

Lemma deliver_taken parent names claimed new c :
  coord_inv c → is_Some (heap (cworld c) !! parent) →
  ∃ message c1,
    (if bool_decide (new = ∅) then py_ret claimed
     else message <- ancestor_of_kind parent SESSION_MESSAGE ;;
          py_ret (match message with
                  | None => list_to_set names ∪ new
                  | Some _ => claimed
                  end)) c = (Ret (taken names claimed new message), c1) ∧
    visits c c1 ∧ nearest c parent SESSION_MESSAGE parent message.
Proof.
  intros Hc Hp. unfold taken.
  destruct (does_ancestor_of_kind parent SESSION_MESSAGE c c) as (message & c1 & Hm & Hv & Hn);
    [done|done|by left|].
  exists message. destruct (bool_decide (new = ∅)).
  - exists c. split_and!; [done|by left|done].
  - exists c1. unfold py_bind. rewrite Hm. by destruct message.
Qed.

Lemma deliver_body_does parent r names claimed new was c :
  coord_inv c → is_Some (heap (cworld c) !! parent) →
  ∃ message heartbeat,
    nearest c parent SESSION_MESSAGE parent message ∧ nearest c parent HEARTBEAT parent heartbeat ∧
    does (deliver_body parent r names claimed new was) tt
      (delivered (clock (cworld c)) parent r (taken names claimed new message) new was heartbeat) c.
Proof.
  intros Hc Hp. destruct (deliver_taken parent names claimed new c Hc Hp)
    as (message & c1 & Ht & Hv1 & Hmsg).
  destruct (does_ancestor_of_kind parent HEARTBEAT c c1) as (hb & c2 & Hb & Hv2 & Hhb); try done.
  exists message, hb. split_and!; [done|done|]. unfold deliver_body. unfold does, py_bind at 1.
  rewrite Ht. unfold py_bind at 1. rewrite Hb. clear Ht Hb Hv1 Hmsg Hhb.
  set (tk := taken _ _ _ _). clearbody tk.
  assert (∀ m f, does m tt f c2 → ∃ c', m c2 = (Ret tt, c') ∧ world_map f c c') as Hlift.
  { intros m f (c' & Hm & Hw). exists c'. split; [done|]. destruct Hv2 as [->| ->]; [done|].
    eapply world_map_ext; [|eapply world_map_trans; [apply world_map_evicted|done]]. done. }
  assert (clock (cworld c) = clock (cworld c2)) as ->.
  { destruct Hv2 as [->| ->]; [done|]. by rewrite (wm_clock _ _ _ (world_map_evicted c)). }
  assert (is_Some (heap (cworld c2) !! parent)) as Hp2.
  { destruct Hv2 as [->| ->]; [done|]. by eapply world_map_heap; [apply world_map_evicted|]. }
  clear Hc Hp Hv2. apply Hlift. unfold delivered.
  set (now := clock (cworld c2)).
  assert (∀ c' f, world_map f c2 c' → clock (cworld c') = now) as Hnow
    by (intros c' f W; apply (wm_clock _ _ _ W)). clearbody now.
  destruct hb as [root|], (bool_decide (new = ∅)).
  - eapply (does_seq _ _ _ _ (at_ref r (terminated now SUCCEEDED None)));
      [by apply does_answered| |by rewrite (Hnow _ _ (world_map_id c2))].
    intros c3 W. rewrite <-(Hnow _ _ W). by apply does_terminal.
  - apply (does_seq _ _ _ (at_ref parent (λ h, set_waiting (waiting_control_ids h ∖ tk) h))
      (λ r0 h, at_ref r (terminated now SUCCEEDED None) r0 (at_ref root waiting_handle r0
        (at_ref root (awaiting_handle new) r0 h)))); [apply does_hupd| |done].
    intros c3 W3. apply (does_seq _ _ _ (at_ref root (awaiting_handle new))
      (λ r0 h, at_ref r (terminated now SUCCEEDED None) r0 (at_ref root waiting_handle r0 h)));
      [apply does_hupd| |done].
    intros c4 W4. apply (does_seq _ _ _ (at_ref root waiting_handle)
      (at_ref r (terminated now SUCCEEDED None))); [apply does_hupd| |done].
    intros c5 W5. rewrite <-(Hnow _ _ W3), <-(wm_clock _ _ _ W4), <-(wm_clock _ _ _ W5).
    by apply does_terminal.
  - eapply (does_seq _ _ _ _ (at_ref r (terminated now SUCCEEDED None)));
      [by apply does_answered| |by rewrite (Hnow _ _ (world_map_id c2))].
    intros c3 W. rewrite <-(Hnow _ _ W). by apply does_terminal.
  - eapply (does_seq _ _ _ _ (λ r0 h, at_ref r waiting_handle r0 (at_ref r (awaiting_handle new) r0 h)));
      [by apply does_answered| |by rewrite (Hnow _ _ (world_map_id c2))].
    intros c3 W. apply (does_seq _ _ _ (at_ref r (awaiting_handle new)) (at_ref r waiting_handle));
      [apply does_hupd| |done]. intros c4 W4. apply does_hupd.
Qed.

Lemma quiet_deliver_body parent r names claimed new was :
  coord_quiet (deliver_body parent r names claimed new was).
Proof. unfold deliver_body. auto 25 with coord. Qed.

Lemma keeps_deliver_body parent r names claimed new was :
  coord_keeps (deliver_body parent r names claimed new was).
Proof. unfold deliver_body. auto 25 with coord. Qed.

Lemma ended_test c sid rec parent :
  terminal (state (handle c parent)) || negb (bool_decide (od_get (sessions c) sid = Some rec))
  || fenced (rec_state (record c rec)) = true ↔ delivery_ended c sid rec parent.
Proof.
  unfold delivery_ended. rewrite !orb_true_iff, negb_true_iff, bool_decide_eq_false. tauto.
Qed.

Lemma py_get_eq {B} (k : Coord → coord B) c : py_bind py_get k c = k c c.
Proof. done. Qed.

Lemma deliver_control_body sid rec parent r names claimed was ids c :
  ¬ delivery_ended c sid rec parent →
  deliver_control_end sid rec parent r names claimed was (Returned_ids ids) c =
    delivery_finally rec parent (deliver_body parent r names claimed (default ∅ ids) was) c.
Proof.
  intros He. rewrite <-ended_test in He. apply not_true_iff_false in He.
  unfold deliver_control_end, delivery_finally. rewrite py_get_eq, He. done.
Qed.

(** [parent] got an answer: its interactions are [left]. *)
Definition answered_to (c c' : Coord) (parent : href) (was : bool) (left : gset string) : Prop :=
  if was || bool_decide (state (handle c parent) = WAITING_FOR_CONTROL) then
    if bool_decide (left = ∅) then state (handle c' parent) = SUCCEEDED
    else state (handle c' parent) = WAITING_FOR_CONTROL ∧
         waiting_control_ids (handle c' parent) = left
  else state (handle c' parent) = state (handle c parent) ∧
       waiting_control_ids (handle c' parent) = left.

Lemma answered_handle_spec now claimed was h :
  terminal (state h) = false →
  let h' := answered_handle now claimed was h in
  let left := waiting_control_ids h ∖ claimed in
  if was || bool_decide (state h = WAITING_FOR_CONTROL) then
    if bool_decide (left = ∅) then state h' = SUCCEEDED
    else state h' = WAITING_FOR_CONTROL ∧ waiting_control_ids h' = left
  else state h' = state h ∧ waiting_control_ids h' = left.
Proof.
  intros Ht. unfold answered_handle, terminated, waiting_handle. simpl.
  destruct (was || _); [|done]. rewrite Ht. case_bool_decide; simpl.
  - by destruct (retain_owner_task h).
  - by destruct (retain_owner_task h).
Qed.

Lemma terminated_state now st err h :
  terminal (state h) = false → state (terminated now st err h) = st.
Proof. intros Ht. unfold terminated. rewrite Ht. destruct err; simpl; by case_match. Qed.

Lemma waiting_awaiting_spec ids h :
  terminal (state h) = false →
  state (waiting_handle (awaiting_handle ids h)) = WAITING_FOR_CONTROL ∧
  waiting_control_ids (waiting_handle (awaiting_handle ids h)) = waiting_control_ids h ∪ ids.
Proof.
  intros Ht. unfold awaiting_handle. rewrite Ht. unfold waiting_handle. simpl. rewrite Ht.
  by destruct (retain_owner_task h).
Qed.

Lemma world_map_handle_same f c c' r :
  world_map f c c' → (∀ h, f r h = h) → handle c' r = handle c r.
Proof.
  intros W Hf. unfold handle, handle_in, hget. rewrite (wm_heap _ _ _ W).
  destruct (heap (cworld c) !! r); simpl; [by rewrite Hf|done].
Qed.

(** C3: when a delivered answer's operation returns in time, the delivery is over and its
    execution waits for what is left of its interactions: it succeeds if nothing is left and
    goes back to waiting otherwise, and interactions raised meanwhile are kept.  Interactions
    the answer raised are waited for by the heartbeat above the execution, or by the answer
    itself if there is none; no other execution changes. *)
Theorem deliver_control_answers sid rec parent r names claimed was ids d c :
  coord_inv c → in_flight c rec parent d → is_Some (heap (cworld c) !! r) → r ≠ parent →
  h_work_kind (handle c r) = CONTROL_INPUT → terminal (state (handle c r)) = false →
  ¬ delivery_ended c sid rec parent →
  ∃ c' heartbeat message,
    deliver_control_end sid rec parent r names claimed was (Returned_ids ids) c = (Ret tt, c') ∧
    nearest c parent HEARTBEAT parent heartbeat ∧
    nearest c parent SESSION_MESSAGE parent message ∧
    let new := default ∅ ids in
    let left := waiting_control_ids (handle c parent) ∖ taken names claimed new message in
    (new = ∅ → state (handle c' r) = SUCCEEDED ∧ answered_to c c' parent was left) ∧
    (new ≠ ∅ → heartbeat = None →
       state (handle c' r) = WAITING_FOR_CONTROL ∧
       waiting_control_ids (handle c' r) = waiting_control_ids (handle c r) ∪ new ∧
       answered_to c c' parent was left) ∧
    (new ≠ ∅ → ∀ root, heartbeat = Some root → is_Some (heap (cworld c) !! root) →
       terminal (state (handle c root)) = false →
       state (handle c' r) = SUCCEEDED ∧ state (handle c' root) = WAITING_FOR_CONTROL ∧
       waiting_control_ids (handle c' root) =
         (if decide (root = parent) then left else waiting_control_ids (handle c root)) ∪ new ∧
       (root ≠ parent → state (handle c' parent) = state (handle c parent) ∧
          waiting_control_ids (handle c' parent) = left)) ∧
    od_get (deliveries (record c' rec)) (id_of c parent) = None ∧ settled_event d ∈ settled c' ∧
    ∀ r', r' ≠ r → r' ≠ parent → heartbeat ≠ Some r' → handle c' r' = handle c r'.
Proof.
  intros Hc Hfl Hr Hne Hkind Htr Hend. rewrite deliver_control_body by done.
  set (new := default ∅ ids). destruct Hfl as (Hrec & Hp & Hd).
  destruct (deliver_body_does parent r names claimed new was c Hc Hp)
    as (message & hb & Hmsg & Hhb & c1 & Hbody & W).
  destruct (delivery_finally_spec rec parent (deliver_body parent r names claimed new was) d c)
    as (c2 & Hfin & Hsame & Hgone & Hset);
    [done|apply quiet_deliver_body|apply keeps_deliver_body|done|].
  rewrite Hbody in *. simpl in *. exists c2, hb, message. split_and!; try done.
  all: assert (terminal (state (handle c parent)) = false) as Htp by
    (apply not_true_iff_false; intros Ht; apply Hend; by left).
  all: set (tk := taken _ _ _ _) in *; set (now := clock (cworld c)) in *; clearbody tk now new.
  all: pose proof (λ r0 H, eq_trans (Hsame r0) (world_map_handle _ _ _ r0 W H)) as Hh; pose proof Hsame as Hsame'; clear Hsame.
  - intros Hnew. rewrite !Hh by done. unfold answered_to. rewrite (Hh parent Hp).
    unfold delivered. rewrite (bool_decide_eq_true_2 _ Hnew), !at_ref_same.
    rewrite (at_ref_other parent r), (at_ref_other r parent) by done.
    split; [by apply terminated_state|by apply answered_handle_spec].
  - intros Hnew ->. rewrite !Hh by done. unfold answered_to. rewrite (Hh parent Hp).
    unfold delivered. rewrite (bool_decide_eq_false_2 _ Hnew), !at_ref_same.
    rewrite !(at_ref_other parent r), !(at_ref_other r parent) by done.
    destruct (waiting_awaiting_spec new (handle c r) Htr) as [H1 H2].
    split_and!; [done|done|by apply answered_handle_spec].
  - intros Hnew root -> Hroot Htroot. assert (root ≠ r) as Hrr.
    { intros ->. apply nearest_kind in Hhb. congruence. }
    rewrite !Hh by done. unfold delivered. rewrite (bool_decide_eq_false_2 _ Hnew), !at_ref_same.
    rewrite !(at_ref_other r root), !(at_ref_other root r), (at_ref_other parent r),
      !(at_ref_other r parent) by done.
    set (h := at_ref parent _ root _).
    assert (terminal (state h) = false ∧ waiting_control_ids h =
      if decide (root = parent) then waiting_control_ids (handle c parent) ∖ tk
      else waiting_control_ids (handle c root)) as [Hth Hwh].
    { unfold h. destruct (decide (root = parent)) as [->|]; [by rewrite at_ref_same|].
      by rewrite at_ref_other. }
    destruct (waiting_awaiting_spec new h Hth) as [H1 H2].
    split_and!; [by apply terminated_state|done|by rewrite H2, Hwh|].
    intros Hrp. by rewrite !(at_ref_other root parent).
  - rewrite Hset. set_solver.
  - intros r' H1 H2 H3. rewrite Hsame'. apply (world_map_handle_same _ _ _ _ W). intros h.
    unfold delivered. case_match; [by rewrite !at_ref_other by done|].
    destruct hb as [root|]; [|by rewrite !at_ref_other by done].
    rewrite !at_ref_other by (congruence || done). done.
Qed.

Lemma does_deliver_failed parent r was st msg c :
  terminal st = true →
  does (deliver_failed parent r was st msg) tt
    (λ r0 h, (if was : bool then at_ref parent waiting_handle r0 else id)
               (at_ref r (terminated (clock (cworld c)) st (Some msg)) r0 h)) c.
Proof.
  intros Hst. apply (does_seq _ _ _ (at_ref r (terminated (clock (cworld c)) st (Some msg)))
    (λ r0, if was then at_ref parent waiting_handle r0 else id)); [by apply does_terminal| |done].
  intros c1 _. destruct was; [apply does_hupd|apply does_ret].
Qed.

Lemma does_raise (m : coord unit) f e c :
  does m tt f c → ∃ c', (m ;; py_raise (A := unit) e) c = (Exc e, c') ∧ world_map f c c'.
Proof. intros (c' & H & W). exists c'. split; [|done]. unfold py_bind. by rewrite H. Qed.

(** A delivery whose operation failed: [st] is the outcome of its execution [r]. *)
Definition delivery_failed (c c' : Coord) (parent r : href) (was : bool)
    (st : SessionExecutionState) : Prop :=
  state (handle c' r) = st ∧
  if was && negb (terminal (state (handle c parent)))
  then state (handle c' parent) = WAITING_FOR_CONTROL ∧
       waiting_control_ids (handle c' parent) = waiting_control_ids (handle c parent)
  else handle c' parent = handle c parent.

Lemma deliver_failed_spec parent r was st msg c c1 :
  is_Some (heap (cworld c) !! parent) → is_Some (heap (cworld c) !! r) → r ≠ parent →
  terminal (state (handle c r)) = false → terminal st = true →
  world_map (λ r0 h, (if was : bool then at_ref parent waiting_handle r0 else id)
               (at_ref r (terminated (clock (cworld c)) st (Some msg)) r0 h)) c c1 →
  delivery_failed c c1 parent r was st.
Proof.
  intros Hp Hr Hne Htr Hst W. unfold delivery_failed.
  rewrite (world_map_handle _ _ _ _ W Hr), (world_map_handle _ _ _ _ W Hp), at_ref_same.
  rewrite (at_ref_other r parent) by done. split.
  - destruct was; [rewrite at_ref_other by done|]; by apply terminated_state.
  - destruct was; [|done]. simpl. rewrite at_ref_same. unfold waiting_handle.
    destruct (terminal (state (handle c parent))); [done|]. simpl. by destruct (retain_owner_task _).
Qed.

(** C4: a delivery whose operation fails or is cancelled raises that error, ends its own
    execution with it and puts the execution it answered back to waiting with its interactions;
    one whose execution ended meanwhile raises that and is cancelled; in each case the claim is
    released and the answers that wait for it are woken. *)
Theorem deliver_control_failures sid rec parent r names claimed was o d c :
  coord_inv c → in_flight c rec parent d → is_Some (heap (cworld c) !! r) → r ≠ parent →
  terminal (state (handle c r)) = false →
  let '(res, c') := deliver_control_end sid rec parent r names claimed was o c in
  od_get (deliveries (record c' rec)) (id_of c parent) = None ∧ settled_event d ∈ settled c' ∧
  match o with
  | Cancelled_with msg =>
      res = Exc (CoordCancelledError msg) ∧ delivery_failed c c' parent r was CANCELLED
  | Raised_with msg => res = Exc (OperationError msg) ∧ delivery_failed c c' parent r was FAILED
  | Returned_ids _ => delivery_ended c sid rec parent →
      res = Exc (SessionExecutionEndedError "control input arrived after its execution ended") ∧
      state (handle c' r) = CANCELLED ∧ handle c' parent = handle c parent
  end.
Proof.
  intros Hc Hfl Hr Hne Htr. unfold deliver_control_end.
  match goal with |- context [delivery_finally rec parent ?m] => set (m0 := m) end.
  destruct (delivery_finally_spec rec parent m0 d c) as (c2 & Hfin & Hsame & Hgone & Hset);
    [done|subst m0; auto 25 with coord|subst m0; auto 25 with coord|done|].
  rewrite Hfin. split_and!; [done|rewrite Hset; set_solver|]. clear Hfin Hgone Hset.
  destruct Hfl as (_ & Hp & _). destruct o as [ids|msg|msg].
  - intros He%ended_test.
    destruct (does_raise _ _ (SessionExecutionEndedError "control input arrived after its execution ended")
      c (does_terminal r CANCELLED None c eq_refl)) as (c1 & Hm & W).
    assert (m0 c = (Exc (SessionExecutionEndedError "control input arrived after its execution ended"), c1))
      as H0 by (subst m0; by rewrite py_get_eq, He). rewrite H0 in *. simpl in Hsame. rewrite !Hsame.
    rewrite (world_map_handle _ _ _ _ W Hr), (world_map_handle _ _ _ _ W Hp), at_ref_same.
    rewrite at_ref_other by done. split_and!; [done|by apply terminated_state|done].
  - destruct (does_raise _ _ (CoordCancelledError msg) c
      (does_deliver_failed parent r was CANCELLED msg c eq_refl)) as (c1 & Hm & W).
    subst m0. rewrite Hm in *. split; [done|]. unfold delivery_failed. rewrite !Hsame.
    by eapply deliver_failed_spec.
  - destruct (does_raise _ _ (OperationError msg) c
      (does_deliver_failed parent r was FAILED msg c eq_refl)) as (c1 & Hm & W).
    subst m0. rewrite Hm in *. split; [done|]. unfold delivery_failed. rewrite !Hsame.
    by eapply deliver_failed_spec.
Qed.

(** ** Cancelling and closing *)

Lemma does_for (rs : list href) (body : href → coord unit)
    (g : Z → SessionExecutionHandle → SessionExecutionHandle) c :
  NoDup rs → (∀ r, r ∈ rs → is_Some (heap (cworld c) !! r)) →
  (∀ r c, is_Some (heap (cworld c) !! r) → does (body r) tt (at_ref r (g (clock (cworld c)))) c) →
  does (py_for rs body) tt (λ r h, if decide (r ∈ rs) then g (clock (cworld c)) h else h) c.
Proof.
  intros Hnd Hrs Hb. revert c Hrs. induction Hnd as [|r rs Hr _ IH]; intros c Hrs; simpl.
  - eapply does_ext; [|apply does_ret]. intros r h _.
    by destruct (decide (r ∈ [])) as [Hin%not_elem_of_nil|].
  - apply (does_seq _ _ _ (at_ref r (g (clock (cworld c))))
      (λ r' h, if decide (r' ∈ rs) then g (clock (cworld c)) h else h)).
    + apply Hb, Hrs. by left.
    + intros c1 W. rewrite <-(wm_clock _ _ _ W). apply IH. intros r' Hr'.
      eapply world_map_heap; [done|]. apply Hrs. by right.
    + intros r' h. destruct (decide (r = r')) as [<-|Hne].
      * rewrite at_ref_same, decide_True by by left. by rewrite decide_False.
      * rewrite at_ref_other by done. destruct (decide (r' ∈ rs)).
        -- by rewrite decide_True by by right.
        -- rewrite decide_False; [done|]. intros [?|?]%elem_of_cons; congruence.
Qed.

(** What the end of cancelling does to a handle *)
Definition cancelled_handle (timed_out : list string) (now : Z) (h : SessionExecutionHandle)
    : SessionExecutionHandle :=
  if negb (bool_decide (h_execution_id h ∈ timed_out)) && negb (terminal (state h))
  then terminate now CANCELLED None h else h.

(** What closing does to a handle of the Session *)
Definition closed_handle (timed_out : list string) (now : Z) (h : SessionExecutionHandle)
    : SessionExecutionHandle :=
  cancelled_handle timed_out now (set_cancellation_requested true h).

Lemma does_cancelled timed_out r c (h : SessionExecutionHandle) :
  heap (cworld c) !! r = Some h →
  does (if negb (bool_decide (h_execution_id h ∈ timed_out)) && negb (terminal (state h))
        then reg_call (mark_terminal r CANCELLED None) else py_ret tt) tt
    (at_ref r (cancelled_handle timed_out (clock (cworld c)))) c.
Proof.
  intros Hh. destruct (negb _ && negb _) eqn:Hb.
  - eapply does_ext; [|by apply does_terminal]. intros r' h' Hh'. unfold at_ref.
    destruct (decide (r = r')) as [<-|]; [|done]. assert (h' = h) as -> by congruence.
    unfold cancelled_handle, terminated. rewrite Hb. apply andb_prop in Hb as [_ Hb].
    by destruct (terminal (state h)).
  - eapply does_ext; [|apply does_ret]. intros r' h' Hh'. unfold at_ref.
    destruct (decide (r = r')) as [<-|]; [|done]. assert (h' = h) as -> by congruence.
    unfold cancelled_handle. by rewrite Hb.
Qed.

Lemma handle_heap c r h : heap (cworld c) !! r = Some h → handle c r = h.
Proof. unfold handle, handle_in, hget. by intros ->. Qed.

Lemma does_close_mark timed_out r c :
  is_Some (heap (cworld c) !! r) →
  does (close_mark timed_out r) tt (at_ref r (closed_handle timed_out (clock (cworld c)))) c.
Proof.
  intros [h Hh]. unfold close_mark.
  apply (does_seq _ _ _ (at_ref r (set_cancellation_requested true))
    (at_ref r (cancelled_handle timed_out (clock (cworld c))))); [apply does_hupd| |].
  - intros c1 W. apply does_get. rewrite <-(wm_clock _ _ _ W).
    assert (heap (cworld c1) !! r = Some (set_cancellation_requested true h)) as Hh1.
    { rewrite (wm_heap _ _ _ W), Hh. simpl. by rewrite at_ref_same. }
    rewrite (handle_heap _ _ _ Hh1). by apply does_cancelled.
  - intros r' h'. unfold at_ref. by case_decide.
Qed.

Lemma cancelled_handle_spec timed_out now h :
  let h' := cancelled_handle timed_out now h in
  ident h' = ident h ∧
  (h_execution_id h ∉ timed_out → terminal (state h') = true ∧
     (terminal (state h) = false → state h' = CANCELLED)) ∧
  (h_execution_id h ∈ timed_out → h' = h).
Proof.
  unfold cancelled_handle. destruct (decide (h_execution_id h ∈ timed_out)) as [Hin|Hn].
  - rewrite bool_decide_eq_true_2 by done. done.
  - rewrite bool_decide_eq_false_2 by done. simpl. destruct (terminal (state h)) eqn:Ht; simpl.
    + done.
    + split; [by destruct (retain_owner_task h)|]. split; [|done]. intros _.
      by destruct (retain_owner_task h).
Qed.

(** [m] registers no execution. *)
Definition shrinks (w w' : World) : Prop :=
  ∀ e r, od_get (executions w') e = Some r → od_get (executions w) e = Some r.

Lemma shrinks_evict w : shrinks w (evict_terminal w).
Proof.
  intros e r. apply (evict_terminal_rule (λ _ w', od_get (executions w') e = Some r →
    od_get (executions w) e = Some r)); try done.
  intros e' q w1 h Hw1 _ _ _. simpl. rewrite od_get_pop. case_decide; [done|]. apply Hw1.
Qed.

Lemma shrinks_mark_terminal r st err w : shrinks w (mark_terminal r st err w).2.
Proof.
  unfold mark_terminal, py_bind, py_guard. destruct (terminal st); [|by intros e q].
  simpl. unfold mark_terminal_body. destruct (hget w r) as [h|]; [|by intros e q].
  destruct (terminal (state h)); [by intros e q|]. intros e q Hq%shrinks_evict. by case_match.
Qed.

Lemma shrinks_close_mark timed_out r c : shrinks (cworld c) (cworld (close_mark timed_out r c).2).
Proof.
  unfold close_mark, py_bind, reg_do, py_get, py_modify. set (c1 := with_cworld _ c).
  destruct (negb _ && negb _); [|by intros e q]. unfold reg_call.
  pose proof (shrinks_mark_terminal r CANCELLED None (cworld c1)) as Hs.
  destruct (mark_terminal r CANCELLED None (cworld c1)) as [[[]|[msg]] w]; exact Hs.
Qed.

Lemma shrinks_for {A} (l : list A) (body : A → coord unit) c :
  (∀ x c, shrinks (cworld c) (cworld (body x c).2)) →
  shrinks (cworld c) (cworld (py_for l body c).2).
Proof.
  intros Hb. revert c. induction l as [|x l IH]; intros c; simpl; [by intros e q|].
  unfold py_bind. specialize (Hb x c). destruct (body x c) as [[[]|err] c1]; [|done].
  intros e q Hq%IH. by apply Hb.
Qed.

(** An active execution of a Session and generation *)
Definition active_gen (c : Coord) (sid : string) (gen : Z) (r : href) : Prop :=
  select_spec (cworld c) sid None None (Some gen) true r.

Lemma close_marks sid gen timed_out c :
  coord_inv c →
  ∃ c1 f,
    (active <- reg_get (select sid None None (Some gen) true) ;;
     py_for active (close_mark timed_out)) c = (Ret tt, c1) ∧
    world_map f c c1 ∧
    (∀ r, active_gen c sid gen r → handle c1 r = closed_handle timed_out (clock (cworld c)) (handle c r)) ∧
    (∀ r, ¬ active_gen c sid gen r → handle c1 r = handle c r) ∧
    (∀ r, active_gen c1 sid gen r → active_gen c sid gen r).
Proof.
  intros Hc. set (active := (select sid None None (Some gen) true (cworld c)).1).
  assert (∀ r, r ∈ active ↔ active_gen c sid gen r) as Hact
    by (intros; apply elem_of_select_active, ci_index, Hc).
  assert (∀ r, active_gen c sid gen r → is_Some (heap (cworld c) !! r)) as Hheap
    by (intros r (e & h & _ & Hh & _); by exists h).
  destruct (does_for active (close_mark timed_out) (closed_handle timed_out) (evicted c))
    as (c1 & Hfor & W).
  - apply select_NoDup, ci_index, Hc.
  - intros r Hr%Hact%Hheap. by eapply world_map_heap; [apply world_map_evicted|].
  - intros r c1 Hr. by apply does_close_mark.
  - pose proof (world_map_trans _ _ _ _ _ (world_map_evicted c) W) as W'.
    rewrite (wm_clock _ _ _ (world_map_evicted c)) in W'.
    assert (∀ r, r ∉ active → handle c1 r = handle c r) as Hsame.
    { intros r Hr. apply (world_map_handle_same _ _ _ _ W'). intros h. simpl. by rewrite decide_False. }
    exists c1. eexists. split; [exact Hfor|]. split; [exact W'|].
    split_and!; [intros r Hr|intros r Hr|].
    + rewrite (world_map_handle _ _ _ r W') by auto. simpl. rewrite decide_True by by apply Hact. done.
    + apply (Hsame r). by rewrite Hact.
    + intros r (e & h & He & Hh & Hs & _ & Hg & Ht).
      destruct (decide (r ∈ active)) as [Hin|Hin]; [by apply Hact|].
      pose proof (shrinks_for active (close_mark timed_out) (evicted c)
        (λ r c, shrinks_close_mark timed_out r c)) as Hsh. rewrite Hfor in Hsh.
      pose proof (Hsame r Hin) as Hh1. rewrite (handle_heap _ _ _ Hh) in Hh1.
      rewrite (wm_heap _ _ _ W') in Hh. destruct (heap (cworld c) !! r) as [h0|] eqn:Hh0; [|done].
      rewrite (handle_heap _ _ _ Hh0) in Hh1. subst h0.
      exists e, h. split_and!; try done. by apply shrinks_evict, Hsh.
Qed.

(** C6: closing a Session ends with its generation: every active execution is marked cancelled,
    those that did not time out end cancelled, and all others are left alone; if none timed
    out the Session is closed and has no active execution, otherwise it is not closed and the
    ones that did are reported. *)
Theorem close_end_session_correct sid rec gen timed_out c :
  coord_inv c → od_get (sessions c) sid = Some rec → rec_generation (record c rec) = gen →
  ∃ c', close_end_session sid rec gen timed_out c =
      (Ret (mk_close_result sid (Some gen) true (dict_fromkeys timed_out)), c') ∧
    (∀ r, active_gen c sid gen r →
       cancellation_requested (handle c' r) = true ∧
       (id_of c r ∉ timed_out → state (handle c' r) = CANCELLED) ∧
       (id_of c r ∈ timed_out → state (handle c' r) = state (handle c r))) ∧
    (∀ r, ¬ active_gen c sid gen r → handle c' r = handle c r) ∧
    (timed_out = [] → rec_state (record c' rec) = CLOSED ∧ ¬ ∃ r, active_of c' rec r) ∧
    (timed_out ≠ [] → record c' rec = record c rec).
Proof.
  intros Hc Hs Hg.
  destruct (close_marks sid gen timed_out c Hc) as (c1 & f & Hm & W & Hin & Hout & Hback).
  assert (∀ r, active_gen c sid gen r → terminal (state (handle c r)) = false) as Hnt.
  { intros r (e & h & _ & Hh & _ & _ & _ & Ht). rewrite (handle_heap _ _ _ Hh). by apply Ht. }
  assert (∀ r, active_gen c sid gen r →
       cancellation_requested (handle c1 r) = true ∧
       (id_of c r ∉ timed_out → state (handle c1 r) = CANCELLED) ∧
       (id_of c r ∈ timed_out → state (handle c1 r) = state (handle c r))) as Hmarked.
  { intros r Hr. rewrite Hin by done. unfold closed_handle.
    destruct (cancelled_handle_spec timed_out (clock (cworld c))
      (set_cancellation_requested true (handle c r))) as (_ & H1 & H2). split_and!.
    - unfold cancelled_handle. case_match; [|done]. simpl. by destruct (retain_owner_task _).
    - intros Hn. by apply H1, Hnt.
    - intros Hy. by rewrite H2. }
  assert (close_end_session sid rec gen timed_out c =
    match timed_out with
    | [] => ((if bool_decide (od_get (sessions c1) sid = Some rec)
              then upd_record rec (set_rec_state CLOSED) else py_ret tt) ;;
             py_ret (mk_close_result sid (Some gen) true [])) c1
    | _ => (Ret (mk_close_result sid (Some gen) true (dict_fromkeys timed_out)), c1)
    end) as ->.
  { unfold close_end_session, py_bind. unfold py_bind in Hm.
    destruct (reg_get _ c) as [[act|] c0]; [|done]. rewrite Hm. by destruct timed_out. }
  assert (sessions c1 = sessions c) as Hses by (by rewrite (wm_only _ _ _ W)).
  destruct timed_out as [|e es].
  - rewrite bool_decide_eq_true_2 by by rewrite Hses. unfold py_bind, upd_record, py_modify, py_ret.
    eexists. split; [done|]. split_and!; [done|done| |done]. intros _.
    destruct (ci_sessions _ Hc _ _ Hs) as (x & Hx & Hxs & _).
    assert (record c rec = x) as Hrx by (unfold record; by rewrite Hx).
    assert (co_records c1 = co_records c) as Hrec by (by rewrite (wm_only _ _ _ W)).
    unfold active_of, record. simpl. rewrite Hrec, lookup_alter_eq, Hx. simpl. split; [done|].
    rewrite Hxs, <-Hrx, Hg. intros [r Hr]. assert (active_gen c sid gen r) as Ha by by apply Hback.
    destruct Hr as (e & h & _ & Hh & _ & _ & _ & Ht). destruct (Hmarked r Ha) as (_ & Hcan & _).
    change (heap (cworld c1) !! r = Some h) in Hh. rewrite (handle_heap _ _ _ Hh) in Hcan.
    rewrite Hcan in Ht by apply not_elem_of_nil. by specialize (Ht eq_refl).
  - eexists. split; [done|]. split_and!; [done|done|done|]. intros _. by apply (world_map_record f).
Qed.
