(* ===== verification/CoordinatorRun.v ===== *)
(** * A run of the coordinator

    A Session takes one unary request, which asks the user a question; the user's
    answer is claimed and delivered.  The states of this run instantiate the
    theorems of [CoordinatorProps] and [CoordinatorAnswers]. *)

From S2P Require Import Prelude OrderedDict SessionModel ExecutionRegistry WorkScheduler Coordinator CoordinatorInv CoordinatorProps CoordinatorAnswers.

(** An empty coordinator, where no Session is fenced on disk *)
Definition x0 : Coord := coord_init 10 300 0 (λ _, None).
(** The Session is registered: record 0. *)
Definition x1 : Coord := (register_session "s1" "web" PERSISTENT_POLICY x0).2.
(** A request creates the execution 1, which runs and asks the question [q1]. *)
Definition x2 : Coord := (run_unary_begin "s1" "r1" CHAT_UNARY "e1" None false x1).2.
Definition x3 : Coord := (tracked_begin 0 1 x2).2.
Definition x4 : Coord := (tracked_end 0 1 (Returned_ids (Some {["q1"]})) false "deadline" x3).2.
(** The answer is claimed, and the execution 3 delivers it. *)
Definition x5 : Coord := (claim_control_parent "s1" ["q1"] "duplicate" None x4).2.
Definition x6 : Coord := (deliver_begin 0 1 "q1" "e2" 9 x5).2.
(** The Session quiesces while the answer is delivered. *)
Definition x7 : Coord := (quiesce_session "s1" None x6).2.

(** No execution has the id [uuid]. *)
Definition uuid_free (uuid : string) (c : Coord) : bool :=
  forallb (λ kv, negb (String.eqb (h_execution_id kv.2) uuid)) (map_to_list (heap (cworld c))).

Lemma uuid_free_new uuid c : uuid_free uuid c = true → uuid_new uuid c.
Proof.
  unfold uuid_free. rewrite forallb_forall. intros Hf r i Hi He. unfold hident in Hi.
  destruct (heap (cworld c) !! r) as [h|] eqn:Hr; simpl in Hi; [|done]. injection Hi as <-.
  specialize (Hf (r, h)). rewrite <-list_elem_of_In, elem_of_map_to_list in Hf.
  specialize (Hf Hr). simpl in Hf. unfold h_execution_id in Hf. rewrite He, String.eqb_refl in Hf.
  done.
Qed.

Ltac new_uuid := apply uuid_free_new; vm_compute; reflexivity.

Lemma x1_step : coord_step x0 x1.
Proof. apply (cs_register_session _ "s1" "web" PERSISTENT_POLICY). Qed.
Lemma x2_step : coord_step x1 x2.
Proof. apply (cs_run_unary _ "s1" "r1" CHAT_UNARY "e1" None false). new_uuid. Qed.
Lemma x3_step : coord_step x2 x3.
Proof. apply (cs_tracked_begin _ 0 1). Qed.
Lemma x4_step : coord_step x3 x4.
Proof. apply (cs_tracked_end _ 0 1 (Returned_ids (Some {["q1"]})) false "deadline"). Qed.
Lemma x5_step : coord_step x4 x5.
Proof. apply (cs_claim _ "s1" ["q1"] "duplicate" None). Qed.
Lemma x6_step : coord_step x5 x6.
Proof.
  apply (cs_deliver_begin _ 0 1 "q1" "e2" 9); [new_uuid|].
  exists (ident (handle x5 1)). vm_compute. reflexivity.
Qed.
Lemma x7_step : coord_step x6 x7.
Proof. apply (cs_quiesce _ "s1" None). Qed.

Lemma x4_steps : coord_steps x0 x4.
Proof.
  apply (rtc_l _ _ x1), (rtc_l _ _ x2), (rtc_l _ _ x3), (rtc_l _ _ x4), rtc_refl;
    [apply x1_step|apply x2_step|apply x3_step|apply x4_step].
Qed.
Lemma x6_steps : coord_steps x4 x6.
Proof. apply (rtc_l _ _ x5), (rtc_l _ _ x6), rtc_refl; [apply x5_step|apply x6_step]. Qed.

Lemma x0_inv : coord_inv x0.
Proof. apply coord_init_inv. Qed.
Lemma x1_inv : coord_inv x1.
Proof. apply (coord_step_ok x0); [apply x1_step|apply x0_inv]. Qed.
Lemma x4_inv : coord_inv x4.
Proof. apply (coord_steps_ok x0); [apply x4_steps|apply x0_inv]. Qed.
Lemma x6_inv : coord_inv x6.
Proof. apply (coord_steps_ok x4); [apply x6_steps|apply x4_inv]. Qed.
Lemma x7_inv : coord_inv x7.
Proof. apply (coord_step_ok x6); [apply x7_step|apply x6_inv]. Qed.

(** ** The theorems at the states of the run *)

Lemma coordinator_invariant_witness : coord_steps x0 x4 ∧ coord_inv x6 ∧ evolves x4 x6.
Proof.
  split; [apply x4_steps|].
  apply (coordinator_invariant 10 300 0 (λ _, None) x4 x6); [apply x4_steps|apply x6_steps].
Defined.

Lemma register_session_behaviour_witness :
  coord_inv x1 ∧
  match register_session " s1 " "tui" PERSISTENT_POLICY x1 with
  | (Ret s, _) => ss_session_id s = "s1" ∧ accepting x1 = true
  | (Exc _, _) => False
  end.
Proof.
  split; [apply x1_inv|].
  pose proof (register_session_behaviour " s1 " "tui" PERSISTENT_POLICY x1 x1_inv) as H.
  assert (match (register_session " s1 " "tui" PERSISTENT_POLICY x1).1 with Ret _ => True | _ => False end)
    as Hr by (vm_compute; exact I).
  destruct (register_session " s1 " "tui" PERSISTENT_POLICY x1) as [[s|e] c']; [|done].
  destruct H as (_ & Ha & Hs & _). split; [|done]. rewrite Hs. vm_compute. reflexivity.
Defined.

Lemma fenced_session_refuses_witness :
  takes_no_work "s1" x7 ∧ refuses (claim_control_parent "s1" ["q1"] "duplicate" None) x7.
Proof.
  assert (takes_no_work "s1" x7) as H by (right; right; vm_compute; reflexivity).
  split; [done|]. by apply fenced_session_refuses.
Defined.

Lemma queued_work_lifts_fence_witness :
  takes_no_work "s1" x7 ∧ ¬ takes_no_work "s1" (tracked_begin 0 1 x7).2.
Proof.
  apply queued_work_lifts_fence; [apply x7_inv|vm_compute; reflexivity..].
Defined.

Lemma new_execution_correct_witness :
  coord_inv x4 ∧
  match new_execution 0 "e9" "r9" CHAT_STREAM (Some "e1") "web" None x4 with
  | (Ret r, c') => r = 2 ∧ od_get (executions (cworld c')) "e9" = Some r ∧
      h_parent (handle c' r) = Some "e1"
  | (Exc _, _) => False
  end.
Proof.
  split; [apply x4_inv|].
  pose proof (new_execution_correct 0 "e9" "r9" CHAT_STREAM (Some "e1") "web" None x4 x4_inv) as H.
  destruct (new_execution 0 "e9" "r9" CHAT_STREAM (Some "e1") "web" None x4) as [[r|e] c'].
  - destruct H as (_ & Hr & _ & _ & Hg & (_ & _ & _ & _ & Hp) & _).
    + new_uuid.
    + intros p [= <-]. exists 1, (ident (handle x4 1)). vm_compute. by split.
    + vm_compute. by eexists.
    + split_and!; [|done|done]. rewrite Hr. vm_compute. reflexivity.
  - destruct H as [H _]; [new_uuid| |vm_compute; by eexists|].
    + intros p [= <-]. exists 1, (ident (handle x4 1)). vm_compute. by split.
    + apply H. vm_compute. reflexivity.
Defined.

Lemma claim_control_parent_correct_witness :
  coord_inv x4 ∧
  claim_result "s1" ["q0"; "q1"] None x4 (claim_control_parent "s1" ["q0"; "q1"] "duplicate" None x4).1
    (claim_control_parent "s1" ["q0"; "q1"] "duplicate" None x4).2.
Proof.
  split; [apply x4_inv|].
  pose proof (claim_control_parent_correct "s1" ["q0"; "q1"] "duplicate" None x4 x4_inv) as H.
  by destruct (claim_control_parent "s1" ["q0"; "q1"] "duplicate" None x4).
Defined.

(** The delivery claimed in [x5] *)
Definition d5 : Delivery := mk_delivery {["q1"]} 2.

Lemma x6_in_flight : in_flight x6 0 1 d5.
Proof. split_and!; [vm_compute; by eexists|vm_compute; by eexists|vm_compute; reflexivity]. Qed.

Lemma deliver_control_answers_witness :
  in_flight x6 0 1 d5 ∧
  ∃ c', deliver_control_end "s1" 0 1 3 ["q1"] {["q1"]} true (Returned_ids None) x6 = (Ret tt, c') ∧
    state (handle c' 3) = SUCCEEDED ∧ answered_to x6 c' 1 true ∅.
Proof.
  split; [apply x6_in_flight|].
  destruct (deliver_control_answers "s1" 0 1 3 ["q1"] {["q1"]} true None d5 x6)
    as (c' & hb & msg & Hd & _ & _ & Hdone & _).
  - apply x6_inv.
  - apply x6_in_flight.
  - vm_compute. by eexists.
  - done.
  - vm_compute. reflexivity.
  - vm_compute. reflexivity.
  - rewrite <-ended_test. vm_compute. discriminate.
  - exists c'. split; [done|]. destruct (Hdone eq_refl) as [H1 H2]. split; [done|].
    assert (waiting_control_ids (handle x6 1) ∖ taken ["q1"] {["q1"]} (default ∅ None) msg = ∅) as He;
      [|by rewrite He in H2]. vm_compute. reflexivity.
Defined.

Lemma deliver_control_failures_witness :
  in_flight x6 0 1 d5 ∧
  match deliver_control_end "s1" 0 1 3 ["q1"] {["q1"]} true (Raised_with "refused") x6 with
  | (res, c') => res = Exc (OperationError "refused") ∧ delivery_failed x6 c' 1 3 true FAILED
  end.
Proof.
  split; [apply x6_in_flight|].
  pose proof (deliver_control_failures "s1" 0 1 3 ["q1"] {["q1"]} true (Raised_with "refused") d5 x6
    x6_inv x6_in_flight) as H.
  destruct (deliver_control_end _ _ _ _ _ _ _ _ _) as [res c']. apply H; [|done|].
  - vm_compute. by eexists.
  - vm_compute. reflexivity.
Defined.

Lemma with_descendants_correct_witness :
  ∃ ds c', with_descendants [1] x6 = (Ret ds, c') ∧ NoDup ds ∧ ∀ r, r ∈ ds ↔ descendant x6 [1] r.
Proof.
  apply with_descendants_correct; [apply x6_inv|]. intros r ->%list_elem_of_singleton.
  vm_compute. by eexists.
Defined.

Lemma refresh_session_state_correct_witness :
  coord_inv x6 ∧
  (rec_state (record (refresh_session_state 0 x6).2 0) = READY ↔ ¬ ∃ r, active_of x6 0 r).
Proof.
  split; [apply x6_inv|].
  destruct (refresh_session_state_correct 0 x6 x6_inv) as [H _]; [vm_compute; by eexists|].
  apply H. split; vm_compute; reflexivity.
Defined.

Lemma close_end_session_correct_witness :
  coord_inv x7 ∧
  ∃ c', close_end_session "s1" 0 1 [] x7 = (Ret (mk_close_result "s1" (Some 1%Z) true []), c') ∧
    rec_state (record c' 0) = CLOSED.
Proof.
  split; [apply x7_inv|].
  destruct (close_end_session_correct "s1" 0 1 [] x7) as (c' & Hc & _ & _ & Hcl & _).
  - apply x7_inv.
  - vm_compute. reflexivity.
  - vm_compute. reflexivity.
  - exists c'. split; [exact Hc|]. by apply Hcl.
Defined.
