(* ===== verification/AsyncLRU.v ===== *)
(** * The tenant agent cache: an LRU cache with sliding expiry

    Source: [jiuwenswarm/enterprise/tenant/async_lru_cache.py].

    Every method of [AsyncLRUCache] runs under one lock (the [_nowait] variants
    contain no [await]), so each is one atomic step on the cache.  [now] is the
    reading of [time.time()] in that step, in clock ticks.  Two values are equal
    when they are the same Python object. *)

From S2P Require Import Prelude OrderedDict.

Section AsyncLRUCache.
Context {K V : Type} {EqK : EqDecision K} {EqV : EqDecision V}.

(** ** State *)

Record AsyncLRUCache := mk_lru {
  cache : odict K (V * Z);
  max_size : option Z;
  ttl : option Z;
}.

Definition lru_init (max_size : option Z) (ttl_seconds : option Z) : AsyncLRUCache :=
  mk_lru [] max_size ttl_seconds.

Definition set_cache (c : odict K (V * Z)) (s : AsyncLRUCache) : AsyncLRUCache :=
  mk_lru c (max_size s) (ttl s).

(** The exception of [popitem] on an empty [OrderedDict]. *)
Inductive lru_error := KeyError.

(** ** Operations *)

Definition is_expired (s : AsyncLRUCache) (now timestamp : Z) : bool :=
  match ttl s with
  | None => false
  | Some t => Z.ltb t (now - timestamp)
  end.

Definition lru_get (now : Z) (k : K) : py AsyncLRUCache lru_error (option V) :=
  s <- py_get ;;
  match od_get (cache s) k with
  | None => py_ret None
  | Some (value, timestamp) =>
      if is_expired s now timestamp then
        py_modify (set_cache (od_pop (cache s) k)) ;; py_ret None
      else
        py_modify (set_cache (od_move_to_end (od_set (cache s) k (value, now)) k)) ;;
        py_ret (Some value)
  end.

(** [len(self._cache) >= self._max_size], when there is a bound *)
Definition at_capacity (s : AsyncLRUCache) : bool :=
  match max_size s with
  | None => false
  | Some n => Z.leb n (Z.of_nat (length (cache s)))
  end.

(** The body [put] and [put_nowait] share. *)
Definition put_body (now : Z) (k : K) (v : V) : py AsyncLRUCache lru_error unit :=
  s <- py_get ;;
  (if od_mem (cache s) k then py_modify (set_cache (od_pop (cache s) k))
   else if at_capacity s then
     match od_popfirst (cache s) with
     | Some (_, c) => py_modify (set_cache c)
     | None => py_raise KeyError
     end
   else py_ret tt) ;;
  s' <- py_get ;;
  py_modify (set_cache (od_set (cache s') k (v, now))).

Definition lru_put := put_body.
Definition put_nowait := put_body.

Definition touch_if_same (now : Z) (k : K) (v : V) : py AsyncLRUCache lru_error bool :=
  s <- py_get ;;
  match od_get (cache s) k with
  | None => py_ret false
  | Some (cached_value, _) =>
      if decide (cached_value = v) then
        py_modify (set_cache (od_move_to_end (od_set (cache s) k (v, now)) k)) ;;
        py_ret true
      else py_ret false
  end.

Definition lru_remove (k : K) : py AsyncLRUCache lru_error unit :=
  s <- py_get ;; py_modify (set_cache (od_pop (cache s) k)).

Definition lru_clear : py AsyncLRUCache lru_error unit := py_modify (set_cache []).

Definition lru_len (s : AsyncLRUCache) : nat := length (cache s).

Definition snapshot_values_nowait (s : AsyncLRUCache) : list V :=
  (od_values (cache s)).*1.

Definition get_nowait (s : AsyncLRUCache) (now : Z) (k : K) : option V :=
  match od_get (cache s) k with
  | None => None
  | Some (value, timestamp) => if is_expired s now timestamp then None else Some value
  end.

Definition lru_keys (now : Z) : py AsyncLRUCache lru_error (list K) :=
  s <- py_get ;;
  (match ttl s with
   | None => py_ret tt
   | Some _ =>
       let expired_keys :=
         od_keys (filter (λ kv, is_expired s now kv.2.2 = true) (cache s)) in
       py_modify (set_cache (foldl od_pop (cache s) expired_keys))
   end) ;;
  s' <- py_get ;; py_ret (od_keys (cache s')).

(** ** Runs

    A run is a sequence of calls, each with the clock reading of its step. *)

Inductive lru_op :=
| OpGet (now : Z) (k : K)
| OpPut (now : Z) (k : K) (v : V)
| OpTouch (now : Z) (k : K) (v : V)
| OpRemove (k : K)
| OpClear
| OpKeys (now : Z).

Definition lru_step (o : lru_op) (s : AsyncLRUCache) : AsyncLRUCache :=
  match o with
  | OpGet now k => (lru_get now k s).2
  | OpPut now k v => (lru_put now k v s).2
  | OpTouch now k v => (touch_if_same now k v s).2
  | OpRemove k => (lru_remove k s).2
  | OpClear => (lru_clear s).2
  | OpKeys now => (lru_keys now s).2
  end.

Definition lru_run (ops : list lru_op) (s : AsyncLRUCache) : AsyncLRUCache :=
  foldl (λ s o, lru_step o s) s ops.

Definition op_time (o : lru_op) : option Z :=
  match o with
  | OpGet now _ | OpPut now _ _ | OpTouch now _ _ | OpKeys now => Some now
  | _ => None
  end.

(** The clock does not go backwards along a run. *)
Fixpoint clock_ok (t : Z) (ops : list lru_op) : Prop :=
  match ops with
  | [] => True
  | o :: ops' =>
      match op_time o with
      | Some now => (t ≤ now)%Z ∧ clock_ok now ops'
      | None => clock_ok t ops'
      end
  end.

(** ** Invariants *)

(** The items are in the order of their last access, oldest first, and no access
    lies after [t]. *)
Definition older (a b : K * (V * Z)) : Prop := (a.2.2 ≤ b.2.2)%Z.
Definition recency (t : Z) (c : odict K (V * Z)) : Prop :=
  StronglySorted older c ∧ Forall (λ kv, (kv.2.2 ≤ t)%Z) c.

Definition within_capacity (s : AsyncLRUCache) : Prop :=
  match max_size s with
  | None => True
  | Some n => (Z.of_nat (length (cache s)) ≤ Z.max 0 n)%Z
  end.

Definition lru_inv (s : AsyncLRUCache) : Prop :=
  od_wf (cache s) ∧ within_capacity s.

(** ** Lemmas on one step *)

Lemma cache_set_cache c s : cache (set_cache c s) = c.
Proof. done. Qed.

Lemma recency_pop t c k : recency t c → recency t (od_pop c k).
Proof. intros [Hs Hf]. split; [by apply StronglySorted_filter|by apply Forall_filter]. Qed.

Lemma recency_snoc t now c k v :
  recency t c → (t ≤ now)%Z → recency now (c ++ [(k, (v, now))]).
Proof.
  intros [Hs Hf] Ht.
  assert (Forall (λ kv, (kv.2.2 ≤ now)%Z) c) as Hn.
  { eapply Forall_impl; [exact Hf|]. simpl. lia. }
  split; [by apply StronglySorted_snoc|].
  apply Forall_app. split; [done|by repeat constructor].
Qed.

Lemma recency_weaken t now c : recency t c → (t ≤ now)%Z → recency now c.
Proof. intros [Hs Hf] Ht. split; [done|]. eapply Forall_impl; [exact Hf|]. simpl. lia. Qed.

Lemma recency_tail t kv c : recency t (kv :: c) → recency t c.
Proof.
  intros [Hs Hf]. split; [by inversion Hs|by inversion Hf].
Qed.

(** A hit moves the entry to the end with a fresh access time. *)
Lemma lru_get_hit s now k v ts :
  od_get (cache s) k = Some (v, ts) → is_expired s now ts = false →
  lru_get now k s = (Ret (Some v), set_cache (od_pop (cache s) k ++ [(k, (v, now))]) s).
Proof.
  intros Hk He. unfold lru_get, py_bind, py_get. rewrite Hk, He.
  unfold py_modify, py_ret. by rewrite od_move_set.
Qed.

Lemma lru_get_expired s now k v ts :
  od_get (cache s) k = Some (v, ts) → is_expired s now ts = true →
  lru_get now k s = (Ret None, set_cache (od_pop (cache s) k) s).
Proof. intros Hk He. unfold lru_get, py_bind, py_get. by rewrite Hk, He. Qed.

Lemma lru_get_miss s now k :
  od_get (cache s) k = None → lru_get now k s = (Ret None, s).
Proof. intros Hk. unfold lru_get, py_bind, py_get. by rewrite Hk. Qed.

Lemma lru_put_present s now k v :
  od_mem (cache s) k = true →
  lru_put now k v s = (Ret tt, set_cache (od_pop (cache s) k ++ [(k, (v, now))]) s).
Proof.
  intros Hk. unfold lru_put, put_body, py_bind, py_get, py_modify. rewrite Hk.
  unfold set_cache; simpl. by rewrite od_set_pop.
Qed.

Lemma lru_put_room s now k v :
  od_mem (cache s) k = false → at_capacity s = false →
  lru_put now k v s = (Ret tt, set_cache (cache s ++ [(k, (v, now))]) s).
Proof.
  intros Hk Hc. unfold lru_put, put_body, py_bind, py_get, py_modify. rewrite Hk, Hc.
  unfold py_ret. rewrite od_set_new; [done|].
  unfold od_mem in Hk. by destruct (od_get (cache s) k).
Qed.

Lemma lru_put_evict s now k v kv c :
  od_mem (cache s) k = false → at_capacity s = true → cache s = kv :: c →
  lru_put now k v s = (Ret tt, set_cache (c ++ [(k, (v, now))]) s).
Proof.
  intros Hk Hc Hs. unfold lru_put, put_body, py_bind, py_get, py_modify. rewrite Hk, Hc, Hs.
  simpl. unfold set_cache; simpl. rewrite od_set_new; [done|].
  unfold od_mem in Hk. rewrite Hs in Hk. destruct kv as [k1 x]. simpl in Hk.
  case_decide; [done|]. by destruct (od_get c k).
Qed.

Lemma lru_put_empty_full s now k v :
  cache s = [] → at_capacity s = true → lru_put now k v s = (Exc KeyError, s).
Proof.
  intros Hs Hc. unfold lru_put, put_body, py_bind, py_get, py_modify.
  by rewrite Hc, Hs.
Qed.

Lemma touch_same s now k v ts :
  od_get (cache s) k = Some (v, ts) →
  touch_if_same now k v s =
    (Ret true, set_cache (od_pop (cache s) k ++ [(k, (v, now))]) s).
Proof.
  intros Hk. unfold touch_if_same, py_bind, py_get, py_modify. rewrite Hk, decide_True by done.
  by rewrite od_move_set.
Qed.

Lemma touch_other s now k v :
  (∀ ts, od_get (cache s) k ≠ Some (v, ts)) → touch_if_same now k v s = (Ret false, s).
Proof.
  intros Hk. unfold touch_if_same, py_bind, py_get.
  destruct (od_get (cache s) k) as [[v' ts]|]; [|done].
  rewrite decide_False; [done|]. intros ->. by apply (Hk ts).
Qed.

(** The cache a step leaves: unchanged, filtered, cleared, or with one entry moved
    or added at the end. *)
Inductive cache_change (o : lru_op) (s : AsyncLRUCache) : odict K (V * Z) → Prop :=
| change_none : cache_change o s (cache s)
| change_filter P (HP : ∀ kv, Decision (P kv)) : cache_change o s (filter P (cache s))
| change_renew now k v :
    op_time o = Some now → is_Some (od_get (cache s) k) →
    cache_change o s (od_pop (cache s) k ++ [(k, (v, now))])
| change_add now k v :
    op_time o = Some now → od_get (cache s) k = None → at_capacity s = false →
    cache_change o s (cache s ++ [(k, (v, now))])
| change_evict now k v kv c :
    op_time o = Some now → od_get (cache s) k = None → at_capacity s = true →
    cache s = kv :: c → cache_change o s (c ++ [(k, (v, now))]).

Lemma od_mem_false (c : odict K (V * Z)) k : od_mem c k = false ↔ od_get c k = None.
Proof. unfold od_mem. by destruct (od_get c k). Qed.

Lemma lru_keys_change s now :
  cache_change (OpKeys now) s (cache (lru_keys now s).2).
Proof.
  unfold lru_keys, py_bind, py_get. destruct (ttl s); [|by constructor].
  simpl. rewrite od_foldl_pop_filter. by eapply change_filter.
Qed.

Lemma lru_put_change s now k v :
  cache_change (OpPut now k v) s (cache (lru_put now k v s).2).
Proof.
  destruct (od_mem (cache s) k) eqn:Hk.
  - rewrite lru_put_present by done. apply change_renew; [done|].
    apply od_get_is_Some. by apply od_mem_spec.
  - destruct (at_capacity s) eqn:Hc.
    + destruct (cache s) as [|kv c] eqn:Hs; rewrite <-Hs in Hk.
      * rewrite lru_put_empty_full by done. exact (change_none _ _).
      * rewrite (lru_put_evict _ _ _ _ kv c) by done.
        apply od_mem_false in Hk. by apply (change_evict _ _ now k v kv c).
    + rewrite lru_put_room by done. apply change_add; [done|by apply od_mem_false|done].
Qed.

Lemma lru_step_change o s : cache_change o s (cache (lru_step o s)).
Proof.
  destruct o as [now k|now k v|now k v|k| |now]; simpl.
  - destruct (od_get (cache s) k) as [[v ts]|] eqn:Hk.
    + destruct (is_expired s now ts) eqn:He.
      * erewrite lru_get_expired by eauto. by eapply change_filter.
      * erewrite lru_get_hit by eauto. eapply change_renew; [done|]. by rewrite Hk.
    + rewrite lru_get_miss by done. constructor.
  - apply lru_put_change.
  - destruct (od_get (cache s) k) as [[v' ts]|] eqn:Hk; [destruct (decide (v' = v)) as [->|Hv]|].
    + erewrite touch_same by eauto. eapply change_renew; [done|]. by rewrite Hk.
    + rewrite touch_other; [constructor|]. intros ts' ?. congruence.
    + rewrite touch_other; [constructor|]. intros ts' ?. congruence.
  - by eapply change_filter.
  - assert ([] = filter (λ _ : K * (V * Z), False) (cache s)) as ->.
    { induction (cache s) as [|kv c IH]; [done|]. by rewrite filter_cons_False by tauto. }
    apply change_filter.
  - apply lru_keys_change.
Qed.

(** ** Invariants along a run *)

Lemma lru_step_bounds o s : max_size (lru_step o s) = max_size s ∧ ttl (lru_step o s) = ttl s.
Proof.
  destruct o as [now k|now k v|now k v|k| |now]; simpl;
    unfold lru_get, lru_put, put_body, touch_if_same, lru_remove, lru_clear, lru_keys,
      py_bind, py_get, py_modify, py_ret, py_raise;
    repeat (case_match; simplify_eq/=); auto.
Qed.

Lemma cache_change_inv o s c :
  cache_change o s c → lru_inv s → lru_inv (set_cache c s).
Proof.
  intros Hc [Hwf Hcap]. unfold lru_inv, within_capacity in *.
  rewrite cache_set_cache. simpl.
  destruct Hc as [|P HP|now k v _ Hk|now k v _ Hk Hroom|now k v kv c _ Hk Hfull Hs].
  - done.
  - split.
    + unfold od_wf, od_keys in *. eapply sublist_NoDup; [exact Hwf|].
      apply fmap_sublist, sublist_filter.
    + destruct (max_size s); [|done]. pose proof (length_filter P (cache s)). lia.
  - rewrite <-od_set_pop. split; [by auto with odict|].
    destruct (max_size s); [|done]. rewrite od_length_set.
    pose proof (od_length_pop _ _ Hwf Hk). unfold od_mem. rewrite od_get_pop_eq. lia.
  - rewrite <-od_set_new by done. split; [by auto with odict|].
    unfold at_capacity in Hroom. destruct (max_size s) as [n|]; [|done].
    rewrite od_length_set. unfold od_mem. rewrite Hk. apply Z.leb_gt in Hroom. lia.
  - rewrite Hs in Hk, Hwf. destruct kv as [k1 x]. simpl in Hk. case_decide; [done|].
    rewrite <-od_set_new by done. split; [by eauto with odict|].
    destruct (max_size s) as [n|]; [|done].
    rewrite od_length_set. unfold od_mem. rewrite Hk, Hs in *. simpl in Hcap. lia.
Qed.

Lemma lru_step_inv o s : lru_inv s → lru_inv (lru_step o s).
Proof.
  intros Hs. pose proof (cache_change_inv _ _ _ (lru_step_change o s) Hs) as [H1 H2].
  destruct (lru_step_bounds o s) as [Hm _]. split; [done|].
  unfold within_capacity in *. by rewrite Hm.
Qed.

Lemma lru_init_inv m t : lru_inv (lru_init m t).
Proof. split; [apply od_wf_nil|]. unfold within_capacity. simpl. case_match; [simpl; lia|done]. Qed.

Lemma lru_run_keeps ops s : lru_inv s → lru_inv (lru_run ops s).
Proof.
  revert s. induction ops as [|o ops IH]; intros s Hs; [done|].
  apply IH, lru_step_inv, Hs.
Qed.

Lemma lru_run_bounds ops s : max_size (lru_run ops s) = max_size s ∧ ttl (lru_run ops s) = ttl s.
Proof.
  revert s. induction ops as [|o ops IH]; intros s; [done|].
  change (lru_run (o :: ops) s) with (lru_run ops (lru_step o s)).
  destruct (IH (lru_step o s)) as [-> ->]. apply lru_step_bounds.
Qed.

Lemma lru_step_recency o s t t' :
  recency t (cache s) → (t ≤ t')%Z → default t (op_time o) = t' →
  recency t' (cache (lru_step o s)).
Proof.
  intros Hr Ht Ho.
  destruct (lru_step_change o s)
    as [|P HP|now k v Hn _|now k v Hn _ _|now k v kv c Hn _ _ Hs].
  - by eapply recency_weaken.
  - eapply recency_weaken; [|done]. destruct Hr.
    split; [by apply StronglySorted_filter|by apply Forall_filter].
  - rewrite Hn in Ho. simpl in Ho. subst. eapply recency_snoc; [|done]. by apply recency_pop.
  - rewrite Hn in Ho. simpl in Ho. subst. by eapply recency_snoc.
  - rewrite Hn in Ho. simpl in Ho. subst. eapply recency_snoc; [|done].
    rewrite Hs in Hr. by eapply recency_tail.
Qed.

Lemma lru_run_recency ops t s :
  recency t (cache s) → clock_ok t ops → ∃ t', recency t' (cache (lru_run ops s)).
Proof.
  revert t s. induction ops as [|o ops IH]; intros t s Hr Hc; [by eauto|].
  simpl in Hc. destruct (op_time o) as [now|] eqn:Ho.
  - destruct Hc as [Hle Hc]. apply (IH now); [|done].
    eapply lru_step_recency; [done|done|by rewrite Ho].
  - apply (IH t); [|done]. eapply lru_step_recency; [done|reflexivity|by rewrite Ho].
Qed.

(** ** Refinement to a finite map

    With no bound and no expiry the cache is a map: the order of its items and
    the access times cannot be observed. *)

Section unbounded.
Context {CountK : Countable K}.

Definition lru_abs (s : AsyncLRUCache) : gmap K V := fst <$> od_to_map (cache s).

(** What each call does to the map. *)
Definition map_step (o : lru_op) (m : gmap K V) : gmap K V :=
  match o with
  | OpPut _ k v => <[k := v]> m
  | OpRemove k => delete k m
  | OpClear => ∅
  | OpGet _ _ | OpTouch _ _ _ | OpKeys _ => m
  end.

Lemma lru_abs_lookup s k : lru_abs s !! k = fst <$> od_get (cache s) k.
Proof. unfold lru_abs. by rewrite lookup_fmap, od_to_map_lookup. Qed.

Lemma lru_abs_renew s k v now :
  lru_abs (set_cache (od_pop (cache s) k ++ [(k, (v, now))]) s) = <[k := v]> (lru_abs s).
Proof.
  apply map_eq. intros k'. rewrite lru_abs_lookup, cache_set_cache, <-od_set_pop.
  rewrite od_get_set, lookup_insert, od_get_pop, lru_abs_lookup.
  by destruct (decide (k = k')).
Qed.

Lemma lru_step_abs o s :
  max_size s = None → ttl s = None → lru_abs (lru_step o s) = map_step o (lru_abs s).
Proof.
  intros Hm Ht. destruct o as [now k|now k v|now k v|k| |now]; simpl.
  - destruct (od_get (cache s) k) as [[v ts]|] eqn:Hk.
    + erewrite lru_get_hit; [|done|unfold is_expired; by rewrite Ht].
      cbn [snd]. rewrite lru_abs_renew. apply insert_id. by rewrite lru_abs_lookup, Hk.
    + by rewrite lru_get_miss.
  - destruct (od_mem (cache s) k) eqn:Hk.
    + rewrite lru_put_present by done. cbn [snd]. apply lru_abs_renew.
    + rewrite lru_put_room; [|done|unfold at_capacity; by rewrite Hm].
      rewrite <-(lru_abs_renew s k v now). apply od_mem_false in Hk. simpl.
      by rewrite od_pop_fresh.
  - destruct (decide (od_get (cache s) k = None)) as [Hk|Hk].
    { rewrite touch_other; [done|]. congruence. }
    destruct (od_get (cache s) k) as [[v' ts]|] eqn:Hk'; [|done].
    destruct (decide (v' = v)) as [->|Hv].
    + erewrite touch_same by eauto. cbn [snd]. rewrite lru_abs_renew. apply insert_id.
      by rewrite lru_abs_lookup, Hk'.
    + rewrite touch_other; [done|]. intros ts' ?. congruence.
  - apply map_eq. intros k'. rewrite lru_abs_lookup. simpl.
    rewrite od_get_pop, lookup_delete, lru_abs_lookup. by case_decide.
  - apply map_eq. intros k'. by rewrite lru_abs_lookup, lookup_empty.
  - unfold lru_keys, py_bind, py_get. by rewrite Ht.
Qed.

(** C37: for an unbounded cache without expiry, any sequence of calls leaves the map that
    the same sequence of map operations leaves, and a [get] returns the map's entry. *)
Theorem lru_refines_map ops now k :
  let s := lru_run ops (lru_init None None) in
  lru_abs s = foldl (λ m o, map_step o m) ∅ ops ∧
  (lru_get now k s).1 = Ret (foldl (λ m o, map_step o m) ∅ ops !! k).
Proof.
  assert (∀ s m, max_size s = None → ttl s = None → lru_abs s = m →
    lru_abs (lru_run ops s) = foldl (λ m o, map_step o m) m ops) as Hrun.
  { induction ops as [|o ops IH]; intros s m Hm Ht Ha; [done|].
    simpl. destruct (lru_step_bounds o s) as [Hm' Ht'].
    apply IH; [congruence..|]. rewrite lru_step_abs by done. by rewrite Ha. }
  intros s. assert (lru_abs s = foldl (λ m o, map_step o m) ∅ ops) as Hs by by apply Hrun.
  split; [done|]. rewrite <-Hs, lru_abs_lookup.
  destruct (od_get (cache s) k) as [[v ts]|] eqn:Hk.
  - erewrite lru_get_hit; [done|done|].
    unfold is_expired. subst s. by destruct (lru_run_bounds ops (lru_init None None)) as [_ ->].
  - by rewrite lru_get_miss.
Qed.

End unbounded.

(** whatever calls are made on a cache built with the bound [m], its keys stay unique
    and it never holds more than the bound. *)
Theorem lru_run_inv ops m t : lru_inv (lru_run ops (lru_init m t)).
Proof. apply lru_run_keeps, lru_init_inv. Qed.

(** with a bound of at least one, [put] of a new key into a full cache drops exactly one
    entry, and no entry it keeps was accessed before the one it dropped. *)
Theorem lru_put_evicts_oldest ops n t t0 now k v :
  let s := lru_run ops (lru_init (Some n) t) in
  (1 ≤ n)%Z → clock_ok t0 ops → od_get (cache s) k = None → at_capacity s = true →
  ∃ old c, cache s = old :: c ∧
    lru_put now k v s = (Ret tt, set_cache (c ++ [(k, (v, now))]) s) ∧
    Forall (older old) c.
Proof.
  intros s Hn Hclock Hk Hfull. destruct (lru_run_bounds ops (lru_init (Some n) t)) as [Hm _].
  destruct (lru_run_recency ops t0 (lru_init (Some n) t)) as [t' [Hsort _]];
    [by repeat constructor|done|]. fold s in Hsort, Hm.
  destruct (cache s) as [|old c] eqn:Hs.
  - unfold at_capacity in Hfull. rewrite Hm, Hs in Hfull. simpl in Hfull.
    apply Z.leb_le in Hfull. lia.
  - exists old, c. split_and!; [done| |by inversion Hsort].
    eapply lru_put_evict; [|done|done]. rewrite Hs. by apply od_mem_false.
Qed.

(** [put] raises [KeyError] in a reachable state exactly when the bound is not positive:
    [popitem] then runs on an empty cache. *)
Theorem lru_put_raises_iff ops n t now k v :
  (lru_put now k v (lru_run ops (lru_init (Some n) t))).1 = Exc KeyError ↔ (n ≤ 0)%Z.
Proof.
  set (s := lru_run ops (lru_init (Some n) t)).
  destruct (lru_run_inv ops (Some n) t) as [_ Hcap].
  destruct (lru_run_bounds ops (lru_init (Some n) t)) as [Hm _].
  fold s in Hcap, Hm. unfold within_capacity in Hcap. rewrite Hm in Hcap. simpl in Hm, Hcap.
  destruct (cache s) as [|kv c] eqn:Hs.
  - simpl in Hcap. destruct (Z.leb_spec n 0) as [Hle|Hgt].
    + rewrite lru_put_empty_full; [done|done|]. unfold at_capacity. rewrite Hm, Hs.
      by apply Z.leb_le.
    + rewrite lru_put_room; [split; [done|lia]|by rewrite Hs|].
      unfold at_capacity. rewrite Hm, Hs. by apply Z.leb_gt.
  - simpl in Hcap. split; [|lia]. intros Hexc. exfalso.
    destruct (od_mem (cache s) k) eqn:Hk; [by rewrite lru_put_present in Hexc|].
    destruct (at_capacity s) eqn:Hc; [|by rewrite lru_put_room in Hexc].
    by rewrite (lru_put_evict _ _ _ _ kv c) in Hexc.
Qed.

(** after a [put] of [k], a [get] of [k] returns the value as long as it comes no later
    than [ttl] after the last access, and a hit starts that period again. *)
Theorem lru_get_after_put s s1 s2 now k v now1 now2 :
  lru_put now k v s = (Ret tt, s1) →
  is_expired s now1 now = false →
  lru_get now1 k s1 = (Ret (Some v), s2) →
  (lru_get now2 k s2).1 = Ret (if is_expired s now2 now1 then None else Some v).
Proof.
  intros Hput He Hget.
  assert (od_get (cache s1) k = Some (v, now)) as H1.
  { unfold lru_put, put_body in Hput.
    apply py_bind_ret_inv in Hput as (s0 & s0' & _ & Hput).
    apply py_bind_ret_inv in Hput as (u & s' & _ & Hput).
    unfold py_bind, py_get, py_modify in Hput. simplify_eq/=. apply od_get_set_eq. }
  assert (ttl s1 = ttl s) as Ht1.
  { destruct (lru_step_bounds (OpPut now k v) s) as [_ Ht]. simpl in Ht. by rewrite Hput in Ht. }
  assert (is_expired s1 now1 now = false) as He1 by (unfold is_expired in *; by rewrite Ht1).
  erewrite lru_get_hit in Hget by eauto. injection Hget as <-.
  assert (od_get (cache (set_cache (od_pop (cache s1) k ++ [(k, (v, now1))]) s1)) k
    = Some (v, now1)) as H2 by (rewrite cache_set_cache, <-od_set_pop; apply od_get_set_eq).
  assert (is_expired (set_cache (od_pop (cache s1) k ++ [(k, (v, now1))]) s1) now2 now1
    = is_expired s now2 now1) as H3 by (unfold is_expired; simpl; by rewrite Ht1).
  destruct (is_expired s now2 now1) eqn:He2.
  - by erewrite lru_get_expired by eauto.
  - by erewrite lru_get_hit by eauto.
Qed.

End AsyncLRUCache.
Arguments AsyncLRUCache : clear implicits.
Arguments lru_op : clear implicits.

(** ** Witnesses *)

Lemma lru_put_evicts_oldest_witness :
  let s := lru_run [OpPut 1 10 100; OpPut 2 20 200; OpGet 3 10]
             (lru_init (Some 2%Z) None) in
  ∃ old c, cache s = old :: c ∧
    lru_put 4 30 300 s = (Ret tt, set_cache (c ++ [(30, (300, 4%Z))]) s) ∧
    Forall (older old) c.
Proof.
  apply (lru_put_evicts_oldest (K := nat) (V := nat)
    [OpPut 1 10 100; OpPut 2 20 200; OpGet 3 10] 2 None 0 4 30 300).
  - lia.
  - simpl. lia.
  - reflexivity.
  - reflexivity.
Defined.

Lemma lru_get_after_put_witness :
  (lru_get 12 1 (lru_get 5 1 (lru_put 0 1 7 (lru_init None (Some 8%Z))).2).2).1
    = Ret (Some 7).
Proof.
  apply (lru_get_after_put (K := nat) (V := nat) (lru_init None (Some 8%Z))
    (lru_put 0 1 7 (lru_init None (Some 8%Z))).2
    (lru_get 5 1 (lru_put 0 1 7 (lru_init None (Some 8%Z))).2).2 0 1 7 5 12);
    reflexivity.
Defined.
