(* ===== verification/CircuitBreaker.v ===== *)
(** * The circuit breaker for looping agents

    Source: [jiuwenswarm/agents/harness/common/rails/execution_guard/circuit_breaker_rail.py].

    The detectors read a list of recorded tool calls, the newest last.  A tool's
    result is a [val]; [str] of a value that is not a string, a [bool] or [None],
    [json.loads] and the SHA-256 digests of canonical JSON are functions of the
    model ([repr], [json_loads], [digest]), and nothing is assumed of them. *)

From S2P Require Import Prelude.

(** ** Values a tool returns *)

(** An object has the result of its [model_dump], if that is a method, and its
    other attributes. *)
#[local] Unset Elimination Schemes.
Inductive val :=
| VNone
| VBool (b : bool)
| VInt (z : Z)
| VStr (s : string)
| VDict (d : list (string * val))
| VObject (model_dump : option val) (attrs : list (string * val))
| VOther (repr : string).
#[local] Set Elimination Schemes.

(** [d.get(k)] of a dict literal: the last binding of a key counts. *)
Fixpoint assoc (d : list (string * val)) (k : string) : option val :=
  match d with
  | [] => None
  | (k', v) :: d' =>
      match assoc d' k with
      | Some v' => Some v'
      | None => if bool_decide (k' = k) then Some v else None
      end
  end.

Definition dict_get (d : list (string * val)) (k : string) : val := default VNone (assoc d k).

(** [str.lower()] and [str.upper()], as far as comparisons with ASCII text go *)
Definition lower_char (c : Ascii.ascii) : Ascii.ascii :=
  let n := Ascii.nat_of_ascii c in
  if (65 <=? n) && (n <=? 90) then Ascii.ascii_of_nat (n + 32) else c.
Definition upper_char (c : Ascii.ascii) : string :=
  let n := Ascii.nat_of_ascii c in
  if (97 <=? n) && (n <=? 122) then String (Ascii.ascii_of_nat (n - 32)) ""
  else if n =? 223 then "SS" else String c "".
Fixpoint py_lower (s : string) : string :=
  match s with EmptyString => EmptyString | String c s' => String (lower_char c) (py_lower s') end.
Fixpoint py_upper (s : string) : string :=
  match s with EmptyString => EmptyString | String c s' => upper_char c +:+ py_upper s' end.

(** ** [ToolResultErrorDetector] *)

Section detector.
Context (repr : val → string) (json_loads : string → option val).

(** [str(v)] *)
Definition py_str (v : val) : string :=
  match v with
  | VNone => "None"
  | VBool true => "True"
  | VBool false => "False"
  | VStr s => s
  | VOther r => r
  | _ => repr v
  end.

(** [_boolish_false] and [_boolish_true] *)
Definition boolish_false (v : val) : bool :=
  match v with
  | VBool b => negb b
  | VStr s => bool_decide (py_lower (py_strip s) ∈ ["false"; "0"; "no"])
  | _ => false
  end.
Definition boolish_true (v : val) : bool :=
  match v with
  | VBool b => b
  | VStr s => bool_decide (py_lower (py_strip s) ∈ ["true"; "1"; "yes"])
  | _ => false
  end.

(** A [\w] character below 256 *)
Definition word_char (c : Ascii.ascii) : bool :=
  let n := Ascii.nat_of_ascii c in
  ((48 <=? n) && (n <=? 57)) || ((65 <=? n) && (n <=? 90)) || (n =? 95) || ((97 <=? n) && (n <=? 122))
  || (n =? 170) || (n =? 178) || (n =? 179) || (n =? 181) || (n =? 185) || (n =? 186)
  || ((188 <=? n) && (n <=? 190))
  || ((192 <=? n) && negb (n =? 215) && negb (n =? 247)).

(** The text after [p], compared without case *)
Fixpoint after_prefix (p s : string) : option string :=
  match p, s with
  | EmptyString, _ => Some s
  | String c p', String d s' =>
      if bool_decide (lower_char c = lower_char d) then after_prefix p' s' else None
  | _, _ => None
  end.

(** The regular expression [^success\s*=\s*<word>\b] *)
Definition repr_success (word s : string) : bool :=
  match after_prefix "success" s with
  | None => false
  | Some r =>
      match after_prefix "=" (py_lstrip r) with
      | None => false
      | Some r' =>
          match after_prefix word (py_lstrip r') with
          | None => false
          | Some EmptyString => true
          | Some (String c _) => negb (word_char c)
          end
      end
  end.

Definition plain_error_prefixes (extra : list string) : list string := "[ERROR]:" :: extra.

(** [register_plain_error_prefix]; [extra] is the class attribute
    [_extra_plain_error_prefixes] *)
Definition register_plain_error_prefix (p : string) (extra : list string) : list string :=
  let marker := py_upper (py_strip p) in
  if str_true marker then (if bool_decide (marker ∈ extra) then extra else extra ++ [marker])
  else extra.

Definition normalize_text (extra : list string) (text : string)
    : option (list (string * val)) :=
  if repr_success "False" text then Some [("success", VBool false)]
  else if repr_success "True" text then Some [("success", VBool true)]
  else if existsb (λ p, String.prefix p (py_upper text)) (plain_error_prefixes extra)
  then Some [("success", VBool false); ("error", VStr text)]
  else None.

(** [_normalize] *)
Definition normalize (extra : list string) (v : val) : option (list (string * val)) :=
  match v with
  | VDict d => Some d
  | VObject dumped attrs =>
      match dumped with
      | Some (VDict d) => Some d
      | _ => match assoc attrs "success" with
             | Some s => Some [("success", s); ("data", dict_get attrs "data");
                               ("error", dict_get attrs "error")]
             | None => None
             end
      end
  | VStr s =>
      let text := py_strip s in
      if str_true text then
        match (if String.prefix "{" text then json_loads text else None) with
        | Some (VDict d) => Some d
        | _ => normalize_text extra text
        end
      else None
  | _ => None
  end.

Definition error_statuses : list string := ["error"; "failed"; "failure"].
Definition exit_keys : list string := ["exit_code"; "exitCode"; "returncode"; "return_code"].

(** [isinstance(code, int) and code != 0]: a [bool] is an [int]. *)
Definition nonzero_exit (v : val) : bool :=
  match v with VInt z => negb (Z.eqb z 0) | VBool b => b | _ => false end.

(** The tests of [_dict_has_error] after those of [success] *)
Definition flags_error (d : list (string * val)) : bool :=
  boolish_true (dict_get d "is_error") || boolish_true (dict_get d "isError")
  || match dict_get d "status" with
     | VStr s => bool_decide (py_lower (py_strip s) ∈ error_statuses)
     | _ => false
     end
  || match dict_get d "result_type" with
     | VStr s => bool_decide (py_lower (py_strip s) = "error")
     | _ => false
     end
  || match dict_get d "error" with
     | VNone => false
     | v => str_true (py_strip (py_str v)) && negb (bool_decide (py_lower (py_strip (py_str v)) = "none"))
     end
  || existsb (λ k, nonzero_exit (dict_get d k)) exit_keys.

(** What [success] says, if it says anything *)
Definition success_says (d : list (string * val)) : option bool :=
  match assoc d "success" with
  | Some v => if boolish_false v then Some false else if boolish_true v then Some true else None
  | None => None
  end.

(** [_dict_has_error(payload, check_data=False)], and [_dict_has_error(payload)] *)
Definition data_has_error (d : list (string * val)) : bool :=
  match success_says d with Some ok => negb ok | None => flags_error d end.
Definition dict_has_error (d : list (string * val)) : bool :=
  match success_says d with
  | Some ok => negb ok
  | None => flags_error d || match dict_get d "data" with
                             | VDict data => data_has_error data
                             | _ => false
                             end
  end.

(** [has_error] and [has_explicit_success] *)
Definition has_error (extra : list string) (v : val) : bool :=
  match normalize extra v with None => false | Some d => dict_has_error d end.
Definition has_explicit_success (extra : list string) (v : val) : bool :=
  match normalize extra v with
  | None => false
  | Some d => match assoc d "success" with Some s => boolish_true s | None => false end
  end.

Inductive call_exception := ToolInterruptException | OtherException.

(** [AgentCallbackContext], as far as the rail reads it, with the context
    variable [_invoke_sid] of the running context *)
Record Ctx := mk_ctx {
  invoke_sid : option string;
  extra_sid : option val;
  extra_stream_sid : option val;
  exception : option call_exception;
  tool_msg : option val;
}.

(** [ctx_has_error] and [infer_record_has_error] *)
Definition ctx_has_error (extra : list string) (ctx : Ctx) : bool :=
  match exception ctx with
  | Some _ => true
  | None => match tool_msg ctx with Some content => has_error extra content | None => false end
  end.
Definition infer_record_has_error (extra : list string) (result : val) (ctx : Ctx) : bool :=
  if has_error extra result then true
  else if has_explicit_success extra result then false
  else ctx_has_error extra ctx.

End detector.

(** ** The detectors *)

Record CircuitBreakerConfig := mk_config {
  warning_threshold : Z;
  critical_threshold : Z;
  global_breaker_threshold : Z;
  unknown_tool_threshold : Z;
}.

Definition default_config : CircuitBreakerConfig := mk_config 10 20 30 10.

Definition history_size (cfg : CircuitBreakerConfig) : Z :=
  Z.max (Z.max (4 * critical_threshold cfg) (2 * global_breaker_threshold cfg))
    (2 * unknown_tool_threshold cfg).

Record ToolCallRecord := mk_call {
  tool_name : string;
  args_hash : string;
  result_hash : option string;
  timestamp : Z;
  call_has_error : bool;
}.

Inductive level := Critical | Warning.

(** [DetectionResult] with [stuck=True]; [detector] and [msg_key] *)
Record DetectionResult := mk_detection {
  det_level : level;
  detector : string;
  det_count : nat;
  msg_key : string;
  det_tool : string;
}.

Record PingPongResult := mk_ping_pong {
  no_progress_rounds : nat;
  paired_tool : option string;
  no_progress : bool;
}.

Definition same_call (name ah : string) (r : ToolCallRecord) : bool :=
  bool_decide (tool_name r = name) && bool_decide (args_hash r = ah).

(** The loop of [_get_no_progress_streak], over the reversed history *)
Fixpoint no_progress_loop (name ah : string) (latest : option string) (streak : nat)
    (l : list ToolCallRecord) : nat :=
  match l with
  | [] => streak
  | r :: l' =>
      if negb (same_call name ah r) then no_progress_loop name ah latest streak l'
      else match result_hash r with
           | None => no_progress_loop name ah latest streak l'
           | Some h =>
               match latest with
               | None => no_progress_loop name ah (Some h) 1 l'
               | Some h0 => if bool_decide (h = h0)
                            then no_progress_loop name ah latest (S streak) l' else streak
               end
           end
  end.

(** [_get_no_progress_streak] *)
Definition get_no_progress_streak (history : list ToolCallRecord) (name ah : string) : nat :=
  no_progress_loop name ah None 0 (rev history).

(** The loop of [_get_side_tail_streak] *)
Fixpoint side_tail_loop (latest : option string) (streak : nat) (l : list ToolCallRecord) : nat :=
  match l with
  | [] => streak
  | r :: l' =>
      match result_hash r with
      | None => streak
      | Some h =>
          match latest with
          | None => side_tail_loop (Some h) 1 l'
          | Some h0 => if bool_decide (h = h0) then side_tail_loop latest (S streak) l' else streak
          end
      end
  end.

Definition get_side_tail_streak (records : list ToolCallRecord) : nat :=
  side_tail_loop None 0 (rev records).

(** [_compute_ping_pong_no_progress_rounds] *)
Definition compute_rounds (side_a side_b : list ToolCallRecord) : nat :=
  Nat.min (get_side_tail_streak side_a) (get_side_tail_streak side_b).

(** The second loop of [_collect_alternating_streak]; the streak is built newest
    first *)
Fixpoint alternate_loop (expect last other : string) (l : list ToolCallRecord)
    : list ToolCallRecord :=
  match l with
  | [] => []
  | r :: l' =>
      if bool_decide (args_hash r = expect)
      then r :: alternate_loop (if bool_decide (expect = other) then last else other) last other l'
      else []
  end.

(** [_collect_alternating_streak] *)
Definition collect_alternating_streak (history : list ToolCallRecord)
    : list ToolCallRecord * option string :=
  match rev history with
  | newest :: (_ :: _) as older_ =>
      let older := tail (rev history) in
      match find (λ r, negb (bool_decide (args_hash r = args_hash newest))) older with
      | None => ([], None)
      | Some o =>
          (rev (newest :: alternate_loop (args_hash o) (args_hash newest) (args_hash o) older),
           Some (tool_name o))
      end
  | _ => ([], None)
  end.

(** [_get_ping_pong_streak]; [None] is the [StopIteration] of its [next] *)
Definition get_ping_pong_streak (history : list ToolCallRecord) : option PingPongResult :=
  let '(streak, paired) := collect_alternating_streak history in
  match last streak with
  | Some newest =>
      if length streak <? 2 then Some (mk_ping_pong 0 None false)
      else
        let hash_last := args_hash newest in
        match find (λ r, negb (bool_decide (args_hash r = hash_last))) streak with
        | None => None
        | Some o =>
            let side h := filter (λ r, args_hash r = h) streak in
            let rounds := compute_rounds (side hash_last) (side (args_hash o)) in
            Some (mk_ping_pong rounds paired (2 <=? rounds))
        end
  | None => Some (mk_ping_pong 0 None false)
  end.

(** [_count_recent_same] *)
Definition count_recent_same (history : list ToolCallRecord) (name ah : string) : nat :=
  length (filter (λ r, same_call name ah r = true) history).

(** The loop of [_get_unknown_tool_streak] *)
Fixpoint unknown_tool_loop (name : string) (l : list ToolCallRecord) : nat :=
  match l with
  | r :: l' => if bool_decide (tool_name r = name) && call_has_error r
               then S (unknown_tool_loop name l') else 0
  | [] => 0
  end.

Definition get_unknown_tool_streak (history : list ToolCallRecord) (name : string) : nat :=
  unknown_tool_loop name (rev history).

Definition at_least (n : nat) (threshold : Z) : bool := Z.leb threshold (Z.of_nat n).

(** [_detect]: the outer option is the exception, the inner one [stuck=False]. *)
Definition detect (cfg : CircuitBreakerConfig) (history : list ToolCallRecord) (name ah : string)
    : option (option DetectionResult) :=
  let stuck := get_no_progress_streak history name ah in
  if at_least stuck (global_breaker_threshold cfg) then
    Some (Some (mk_detection Critical "global_circuit_breaker" stuck "global_circuit_breaker" name))
  else
  let unknown := get_unknown_tool_streak history name in
  if at_least unknown (unknown_tool_threshold cfg) then
    Some (Some (mk_detection Critical "unknown_tool_repeat" unknown "unknown_tool_repeat" name))
  else
  p ← get_ping_pong_streak history;
  let rounds := no_progress_rounds p in
  if no_progress p && at_least rounds (critical_threshold cfg) then
    Some (Some (mk_detection Critical "ping_pong" rounds "ping_pong_critical" name))
  else if no_progress p && at_least rounds (warning_threshold cfg) then
    Some (Some (mk_detection Warning "ping_pong" rounds "ping_pong_warning" name))
  else
  let recent := count_recent_same history name ah in
  if at_least recent (warning_threshold cfg) then
    Some (Some (mk_detection Warning "generic_repeat" recent "generic_repeat" name))
  else Some None.

(** ** The rail *)

(** The rail's state; the texts of its messages, keyed by [rail_language], are data. *)
Record Rail := mk_rail {
  config : CircuitBreakerConfig;
  histories : gmap string (list ToolCallRecord);
  locks : gset string;
  rail_language : string;
}.

Definition with_histories (h : gmap string (list ToolCallRecord)) (r : Rail) : Rail :=
  mk_rail (config r) h (locks r) (rail_language r).

(** [_normalize_language] *)
Definition normalize_language (language : option string) : string :=
  let lang := py_lower (py_strip (default EmptyString language)) in
  let lang := if bool_decide (lang = "zh") then "cn" else lang in
  if bool_decide (lang ∈ ["cn"; "en"]) then lang else "cn".

Definition rail_init (cfg : option CircuitBreakerConfig) (language : string) : Rail :=
  mk_rail (default default_config cfg) ∅ ∅ (normalize_language (Some language)).

(** [set_language] *)
Definition set_language (language : string) (r : Rail) : Rail :=
  mk_rail (config r) (histories r) (locks r) (normalize_language (Some language)).

(** [cleanup_session] *)
Definition cleanup_session (session_id : string) (r : Rail) : Rail :=
  let sid := str_or (py_strip session_id) "default" in
  mk_rail (config r) (delete sid (histories r)) (locks r ∖ {[sid]}) (rail_language r).

(** [isinstance(v, str) and v] *)
Definition text_of (v : option val) : option string :=
  match v with
  | Some (VStr s) => if str_true s then Some s else None
  | _ => None
  end.

(** [_resolve_sid] *)
Definition resolve_sid (ctx : Ctx) : string :=
  match text_of (VStr <$> invoke_sid ctx) with
  | Some s => s
  | None =>
      match text_of (extra_sid ctx) with
      | Some s => s
      | None =>
          match text_of (extra_stream_sid ctx) with
          | Some s => match invoke_sid ctx with
                      | None => s
                      | Some i => if bool_decide (s = i) then s else "default"
                      end
          | None => "default"
          end
      end
  end.

(** [before_invoke] for [InvokeInputs]; the context it leaves *)
Definition before_invoke (conversation_id : option string) (ctx : Ctx) (r : Rail) : Ctx * Rail :=
  let sid := str_or (py_strip (default EmptyString conversation_id)) "default" in
  (mk_ctx (Some sid) (Some (VStr sid)) (extra_stream_sid ctx) (exception ctx) (tool_msg ctx),
   with_histories (<[sid := []]> (histories r)) r).

(** [after_invoke] *)
Definition after_invoke (ctx : Ctx) (r : Rail) : Ctx * Rail :=
  (mk_ctx None (extra_sid ctx) (extra_stream_sid ctx) (exception ctx) (tool_msg ctx),
   match text_of (VStr <$> invoke_sid ctx) with
   | Some sid => cleanup_session sid r
   | None => r
   end).

(** [before_tool_call] *)
Definition before_tool_call (ctx : Ctx) : Ctx :=
  mk_ctx (invoke_sid ctx) (Some (VStr (resolve_sid ctx))) (extra_stream_sid ctx) (exception ctx)
    (tool_msg ctx).

(** [l[-n:]] *)
Definition last_slice {A} (n : Z) (l : list A) : list A :=
  if Z.ltb 0 n then drop (length l - Z.to_nat n) l else drop (Z.to_nat (- n)) l.

(** [_METADATA_ONLY_TOP_LEVEL] and [_canonicalize_args_for_hash] *)
Definition metadata_only (name : string) : list string :=
  if bool_decide (name ∈ ["bash"; "powershell"; "Agent"]) then ["description"] else [].
Definition canonicalize_args (name : string) (params : val) : val :=
  match params with
  | VDict d => VDict (filter (λ kv, kv.1 ∉ metadata_only name) d)
  | v => v
  end.

Section rail.
Context (repr : val → string) (json_loads : string → option val).
(** The SHA-256 digests of a tool's canonical arguments and of a normalized result *)
Context (digest : string → val → string) (result_digest : val → string).

(** [_hash_args] *)
Definition hash_args (name : string) (params : val) : string :=
  digest name (canonicalize_args name params).

(** [_normalize_result] *)
Definition normalize_result (v : val) : val :=
  match v with
  | VDict d =>
      let text k := py_str repr (default (VStr "") (assoc d k)) in
      VDict [("content", VStr (py_strip (text "content"))); ("output", VStr (py_strip (text "output")));
             ("error", VStr (py_strip (text "error"))); ("status", VStr (text "status"))]
  | v => VDict [("raw", VStr (py_str repr v))]
  end.

(** [_hash_outcome] *)
Definition hash_outcome (v : val) : option string :=
  match v with VNone => None | v => Some (result_digest (normalize_result v)) end.

(** The history after [history.append(record)], as long as [history_size] *)
Definition push_call (cfg : CircuitBreakerConfig) (history : list ToolCallRecord)
    (record : ToolCallRecord) : list ToolCallRecord :=
  let history := history ++ [record] in
  if Z.ltb (history_size cfg) (Z.of_nat (length history))
  then last_slice (history_size cfg) history else history.

(** The record of a call *)
Definition call_record (prefixes : list string) (ctx : Ctx) (name : string) (args result : val)
    (now : Z) : ToolCallRecord :=
  mk_call name (hash_args name args) (hash_outcome result) now
    (infer_record_has_error repr json_loads prefixes result ctx).

(** What [after_tool_call] does: nothing, an exception, or the rail and the result of
    [_detect]; a critical one requests that the agent finishes. *)
Inductive call_outcome :=
| Ignored
| Raised
| Detected (r : Rail) (d : option DetectionResult).

(** [after_tool_call]; [prefixes] are the registered error prefixes *)
Definition after_tool_call (prefixes : list string) (ctx : Ctx) (tool_call : option (string * val))
    (result : val) (now : Z) (r : Rail) : call_outcome :=
  match tool_call with
  | None => Ignored
  | Some (name, args) =>
      if negb (str_true name) then Ignored
      else match exception ctx with
      | Some ToolInterruptException => Ignored
      | _ =>
          let sid := resolve_sid ctx in
          let record := call_record prefixes ctx name args result now in
          let history := push_call (config r) (default [] (histories r !! sid)) record in
          let r' := mk_rail (config r) (<[sid := history]> (histories r)) ({[sid]} ∪ locks r)
                      (rail_language r) in
          match detect (config r) history name (args_hash record) with
          | None => Raised
          | Some d => Detected r' d
          end
      end
  end.

(** [ctx.request_force_finish] is called. *)
Definition forces_finish (o : call_outcome) : bool :=
  match o with
  | Detected _ (Some d) => match det_level d with Critical => true | Warning => false end
  | _ => false
  end.

End rail.

(** ** Runs at the front of a list *)

(** How many leading elements of [l] are [x] *)
Fixpoint lead {A} `{EqDecision A} (x : A) (l : list A) : nat :=
  match l with
  | [] => 0
  | y :: l' => if bool_decide (y = x) then S (lead x l') else 0
  end.

Lemma lead_ge {A} `{EqDecision A} (x : A) k l :
  k ≤ lead x l ↔ ∃ l', l = replicate k x ++ l'.
Proof.
  revert l. induction k as [|k IH]; intros l; simpl; [split; [by exists l|lia]|].
  destruct l as [|y l]; simpl; [split; [lia|by intros [? ?]]|]. case_bool_decide as Hy.
  - subst y. rewrite <-Nat.succ_le_mono, IH. split; intros [l' Hl]; exists l'; congruence.
  - split; [lia|]. intros [l' [= ? ?]]. congruence.
Qed.

Lemma lead_app {A} `{EqDecision A} (x : A) k l : k ≤ lead x (replicate k x ++ l).
Proof. apply lead_ge. by exists l. Qed.

(** ** What the counts mean *)

(** The results recorded for one call *)
Definition results (name ah : string) (h : list ToolCallRecord) : list string :=
  omap (λ r, if same_call name ah r then result_hash r else None) h.

Lemma no_progress_loop_eq name ah l :
  (∀ x n, no_progress_loop name ah (Some x) n l = n + lead x (results name ah l)) ∧
  no_progress_loop name ah None 0 l =
    match results name ah l with [] => 0 | x :: rs => S (lead x rs) end.
Proof.
  induction l as [|r l [IH1 IH2]]; [split; [intros; simpl; lia|done]|].
  unfold results in *. csimpl. destruct (same_call name ah r); csimpl; [|by split].
  destruct (result_hash r) as [h|]; csimpl; [|by split]. split.
  - intros x n. destruct (decide (h = x)) as [Hh|Hh].
    + rewrite !bool_decide_eq_true_2 by done. rewrite IH1. lia.
    + rewrite !bool_decide_eq_false_2 by done. lia.
  - by rewrite IH1.
Qed.

Lemma results_rev name ah h : results name ah (rev h) = rev (results name ah h).
Proof.
  unfold results. induction h as [|r h IH]; [done|]. simpl. rewrite omap_app, IH. simpl.
  destruct (if same_call name ah r then result_hash r else None); simpl; [done|].
  by rewrite app_nil_r.
Qed.

(** The last [k] recorded results of the call are the same. *)
Definition no_progress_for (name ah : string) (k : nat) (h : list ToolCallRecord) : Prop :=
  ∃ x l, results name ah h = l ++ replicate k x.

Lemma rev_replicate {A} (x : A) k : rev (replicate k x) = replicate k x.
Proof.
  induction k as [|k IH]; [done|]. simpl. by rewrite IH, <-replicate_cons_app.
Qed.

Lemma no_progress_streak_spec name ah k h :
  0 < k → k ≤ get_no_progress_streak h name ah ↔ no_progress_for name ah k h.
Proof.
  intros Hk. unfold get_no_progress_streak, no_progress_for.
  rewrite (proj2 (no_progress_loop_eq name ah (rev h))), results_rev.
  assert (∀ x l, results name ah h = l ++ replicate k x ↔
    rev (results name ah h) = replicate k x ++ rev l) as Hrev.
  { intros x l. split; intros He; [by rewrite He, rev_app_distr, rev_replicate|].
    rewrite <-(rev_involutive (results name ah h)), He, rev_app_distr, rev_replicate.
    by rewrite rev_involutive. }
  setoid_rewrite Hrev. destruct (rev (results name ah h)) as [|x rs].
  - split; [lia|]. intros (x & l & He). destruct k; [lia|done].
  - destruct k as [|k]; [lia|]. rewrite <-Nat.succ_le_mono, lead_ge. split.
    + intros [l' ->]. exists x, (rev l'). simpl. by rewrite rev_involutive.
    + intros (y & l & [= -> He]). exists (rev l). done.
Qed.

(** The last [k] calls are failed calls of the tool. *)
Definition failing_for (name : string) (k : nat) (h : list ToolCallRecord) : Prop :=
  ∃ l l', h = l ++ l' ∧ length l' = k ∧ Forall (λ r, tool_name r = name ∧ call_has_error r = true) l'.

Lemma unknown_tool_loop_spec name k l :
  k ≤ unknown_tool_loop name l ↔
    ∃ l1 l2, l = l1 ++ l2 ∧ length l1 = k ∧
      Forall (λ r, tool_name r = name ∧ call_has_error r = true) l1.
Proof.
  revert l. induction k as [|k IH]; intros l.
  - split; [|lia]. intros _. by exists [], l.
  - destruct l as [|r l]; simpl.
    + split; [lia|]. intros (l1 & l2 & He & Hl & _). by destruct l1.
    + assert (bool_decide (tool_name r = name) && call_has_error r = true ↔
        tool_name r = name ∧ call_has_error r = true) as Ht
        by (by rewrite andb_true_iff, bool_decide_eq_true).
      destruct (_ && _).
      * rewrite <-Nat.succ_le_mono, IH. split.
        -- intros (l1 & l2 & -> & Hl & Hf). exists (r :: l1), l2. split_and!; [done|by simpl; f_equal|].
           constructor; [by apply Ht|done].
        -- intros (l1 & l2 & He & Hl & Hf). destruct l1 as [|r' l1]; [done|].
           injection He as -> ->. exists l1, l2. apply Forall_cons in Hf as [_ Hf].
           split_and!; [done|by injection Hl|done].
      * split; [lia|]. intros (l1 & l2 & He & Hl & Hf). destruct l1 as [|r' l1]; [done|].
        injection He as -> ->. apply Forall_cons in Hf as [Hr _]. by apply Ht in Hr.
Qed.

Lemma unknown_streak_spec name k h :
  k ≤ get_unknown_tool_streak h name ↔ failing_for name k h.
Proof.
  unfold get_unknown_tool_streak, failing_for. rewrite unknown_tool_loop_spec. split.
  - intros (l1 & l2 & He & Hl & Hf). exists (rev l2), (rev l1).
    rewrite <-rev_app_distr, <-He, rev_involutive, length_rev. split_and!; [done|done|].
    by apply Forall_rev.
  - intros (l & l' & -> & Hl & Hf). exists (rev l'), (rev l).
    rewrite rev_app_distr, length_rev. split_and!; [done|done|]. by apply Forall_rev.
Qed.

(** ** Alternating calls *)

Definition outcome_of (r : ToolCallRecord) : string * option string := (args_hash r, result_hash r).

(** [k] rounds of two alternating outcomes *)
Definition rounds {A} (x y : A) (k : nat) : list A := concat (replicate k [x; y]).

Lemma rounds_snoc {A} (x y : A) k : rounds x y k ++ [x; y] = x :: y :: rounds x y k.
Proof. unfold rounds. induction k as [|k IH]; [done|]. simpl in *. by rewrite IH. Qed.

Lemma rev_rounds {A} (x y : A) k : rev (rounds x y k) = rounds y x k.
Proof.
  induction k as [|k IH]; [done|]. unfold rounds in *. simpl in *. rewrite IH, <-app_assoc.
  apply rounds_snoc.
Qed.

(** The last [2k] calls are [k] rounds of two different calls, each with one result. *)
Definition alternates_for (k : nat) (h : list ToolCallRecord) : Prop :=
  ∃ a b ra rb l l', a ≠ b ∧ h = l ++ l' ∧
    map outcome_of l' = rounds (b, Some rb) (a, Some ra) k.

Lemma side_tail_loop_eq x n l :
  side_tail_loop (Some x) n l = n + lead (Some x) (map result_hash l).
Proof.
  revert n. induction l as [|r l IH]; intros n; simpl; [lia|].
  destruct (result_hash r) as [h|].
  - destruct (decide (h = x)) as [->|Hh].
    + rewrite !bool_decide_eq_true_2 by done. rewrite IH. lia.
    + rewrite !bool_decide_eq_false_2 by congruence. lia.
  - rewrite bool_decide_eq_false_2 by done. lia.
Qed.

Lemma side_tail_spec k l :
  0 < k → k ≤ side_tail_loop None 0 l ↔ ∃ x, k ≤ lead (Some x) (map result_hash l).
Proof.
  intros Hk. destruct l as [|r l]; simpl; [split; [lia|intros [x ?]; lia]|].
  destruct (result_hash r) as [h|].
  - rewrite side_tail_loop_eq. split.
    + intros Hle. exists h. rewrite bool_decide_eq_true_2 by done. lia.
    + intros [x Hle]. case_bool_decide; [|lia]. simplify_eq. lia.
  - split; [lia|]. intros [x Hle]. rewrite bool_decide_eq_false_2 in Hle by done. lia.
Qed.

(** The calls are [a], [b], [a], ... *)
Fixpoint alternating (a b : string) (l : list ToolCallRecord) : Prop :=
  match l with [] => True | r :: l' => args_hash r = a ∧ alternating b a l' end.

Lemma alternate_loop_spec a b l :
  a ≠ b →
  (alternating b a (alternate_loop b a b l) ∧ (∃ l', l = alternate_loop b a b l ++ l') ∧
   ∀ l1 l2, l = l1 ++ l2 → alternating b a l1 → ∃ l3, alternate_loop b a b l = l1 ++ l3) ∧
  (alternating a b (alternate_loop a a b l) ∧ (∃ l', l = alternate_loop a a b l ++ l') ∧
   ∀ l1 l2, l = l1 ++ l2 → alternating a b l1 → ∃ l3, alternate_loop a a b l = l1 ++ l3).
Proof.
  intros Hab. induction l as [|r l [(B1 & [lb B2] & B3) (A1 & [la A2] & A3)]].
  { split; (split; [done|]); (split; [by exists []|]); intros [|? ?] l2 He _; try done; by exists []. }
  split; simpl.
  - rewrite (bool_decide_eq_true_2 (b = b)) by done. case_bool_decide as Hr.
    + split; [done|]. split; [exists la; simpl; f_equal; exact A2|].
      intros [|r1 l1] l2 He Hl; [by eexists|]. injection He as <- He. destruct Hl as [_ Hl].
      destruct (A3 l1 l2 He Hl) as [l3 ->]. by exists l3.
    + split; [done|]. split; [by eexists|]. intros [|r1 l1] l2 He Hl; [by eexists|].
      injection He as <- He. by destruct Hl.
  - rewrite (bool_decide_eq_false_2 (a = b)) by done. case_bool_decide as Hr.
    + split; [done|]. split; [exists lb; simpl; f_equal; exact B2|].
      intros [|r1 l1] l2 He Hl; [by eexists|]. injection He as <- He. destruct Hl as [_ Hl].
      destruct (B3 l1 l2 He Hl) as [l3 ->]. by exists l3.
    + split; [done|]. split; [by eexists|]. intros [|r1 l1] l2 He Hl; [by eexists|].
      injection He as <- He. by destruct Hl.
Qed.

(** The calls of one side of an alternating list *)
Definition side (a : string) (l : list ToolCallRecord) : list ToolCallRecord :=
  filter (λ r, args_hash r = a) l.

Lemma side_pair a b r1 r2 l :
  a ≠ b → args_hash r1 = a → args_hash r2 = b →
  side a (r1 :: r2 :: l) = r1 :: side a l ∧ side b (r1 :: r2 :: l) = r2 :: side b l.
Proof.
  intros Hab H1 H2. unfold side. rewrite !filter_cons, H1, H2.
  rewrite (decide_True (P := a = a)), (decide_False (P := b = a)),
    (decide_False (P := a = b)), (decide_True (P := b = b)) by congruence. done.
Qed.

Lemma sides_rounds a b ra rb k l :
  a ≠ b → alternating a b l →
  (k ≤ lead ra (map result_hash (side a l)) ∧ k ≤ lead rb (map result_hash (side b l))) ↔
  ∃ l1 l2, l = l1 ++ l2 ∧ map outcome_of l1 = rounds (a, ra) (b, rb) k.
Proof.
  intros Hab. revert l. induction k as [|k IH]; intros l Hl.
  { split; [intros _; by exists [], l|lia]. }
  destruct l as [|r1 [|r2 l]].
  - split; [simpl; lia|]. intros (l1 & l2 & He & Hm). by destruct l1.
  - split.
    + intros [_ Hb]. destruct Hl as [H1 _]. unfold side in Hb. rewrite filter_cons, H1 in Hb.
      rewrite decide_False in Hb by congruence. simpl in Hb. lia.
    + intros (l1 & l2 & He & Hm). destruct l1 as [|q1 [|q2 l1]]; done.
  - destruct Hl as (H1 & H2 & Hl). destruct (side_pair a b r1 r2 l Hab H1 H2) as [-> ->].
    simpl. specialize (IH l Hl). split.
    + intros [Ha Hb]. case_bool_decide as Hra; [|lia]. case_bool_decide as Hrb; [|lia].
      destruct (proj1 IH) as (l1 & l2 & -> & Hm); [split; lia|].
      exists (r1 :: r2 :: l1), l2. split; [done|]. simpl. rewrite Hm. unfold outcome_of.
      by rewrite H1, H2, Hra, Hrb.
    + intros (l1 & l2 & He & Hm). destruct l1 as [|q1 [|q2 l1]]; [done..|].
      injection He as <- <- ->. injection Hm as _ Hra _ Hrb Hm.
      rewrite !bool_decide_eq_true_2 by done. destruct (proj2 IH); [by exists l1, l2|]. lia.
Qed.

Lemma alternates_rev k h :
  alternates_for k h ↔ ∃ a b ra rb l1 l2, a ≠ b ∧ rev h = l1 ++ l2 ∧
    map outcome_of l1 = rounds (a, Some ra) (b, Some rb) k.
Proof.
  unfold alternates_for. split.
  - intros (a & b & ra & rb & l & l' & Hab & -> & Hm). exists a, b, ra, rb, (rev l'), (rev l).
    by rewrite rev_app_distr, map_rev, Hm, rev_rounds.
  - intros (a & b & ra & rb & l1 & l2 & Hab & He & Hm). exists a, b, ra, rb, (rev l2), (rev l1).
    rewrite <-rev_app_distr, <-He, rev_involutive, map_rev, Hm, rev_rounds. done.
Qed.

Lemma rounds_alternating a b ra rb k l :
  map outcome_of l = rounds (a, ra) (b, rb) k → alternating a b l.
Proof.
  revert l. induction k as [|k IH]; intros [|r1 [|r2 l]]; try done.
  intros [= H1 _ H2 _ Hm]. simpl. split_and!; auto.
Qed.

Lemma alternating_hashes a b l r : alternating a b l → r ∈ l → args_hash r = a ∨ args_hash r = b.
Proof.
  revert a b. induction l as [|r' l IH]; intros a b Hl Hr; [by apply not_elem_of_nil in Hr|].
  destruct Hl as [Ha Hl]. apply elem_of_cons in Hr as [->|Hr]; [by left|].
  destruct (IH b a Hl Hr); auto.
Qed.

(** The alternating tail of a history, newest first *)
Definition tail_streak (newest o : ToolCallRecord) (older : list ToolCallRecord)
    : list ToolCallRecord :=
  newest :: alternate_loop (args_hash o) (args_hash newest) (args_hash o) older.

Lemma side_rev a l : rev (filter (λ r, args_hash r = a) (rev l)) = side a l.
Proof.
  unfold side. induction l as [|r l IH]; [done|]. simpl.
  rewrite filter_app, rev_app_distr, IH, !filter_cons, filter_nil. by case_decide.
Qed.

Lemma tail_streak_rounds newest o older k :
  args_hash o ≠ args_hash newest → find (λ r, negb (bool_decide (args_hash r = args_hash newest))) older = Some o →
  0 < k →
  (∃ ra rb l1 l2, tail_streak newest o older = l1 ++ l2 ∧
     map outcome_of l1 = rounds (args_hash newest, Some ra) (args_hash o, Some rb) k) ↔
  ∃ a b ra rb l1 l2, a ≠ b ∧ newest :: older = l1 ++ l2 ∧
    map outcome_of l1 = rounds (a, Some ra) (b, Some rb) k.
Proof.
  intros Hne Hf Hk. unfold tail_streak.
  destruct (alternate_loop_spec (args_hash newest) (args_hash o) older) as [(_ & [l' Hp] & Hmax) _]; [done|].
  split.
  - intros (ra & rb & l1 & l2 & He & Hm). exists (args_hash newest), (args_hash o), ra, rb, l1, (l2 ++ l').
    split_and!; [done| |done]. rewrite app_assoc, <-He. simpl. f_equal. exact Hp.
  - intros (a & b & ra & rb & l1 & l2 & Hab & He & Hm). pose proof (rounds_alternating _ _ _ _ _ _ Hm) as Hl.
    destruct k as [|k]; [lia|]. destruct l1 as [|r1 [|r2 l1]]; [done..|].
    injection He as <- He. destruct Hl as [<- Hl]. pose proof Hl as [<- _].
    rewrite He in Hf. simpl in Hf. rewrite bool_decide_eq_false_2 in Hf by congruence. injection Hf as ->.
    destruct (Hmax (o :: l1) l2) as [l3 Hl3]; [done|done|].
    exists ra, rb, (newest :: o :: l1), l3. split; [|done]. by rewrite Hl3.
Qed.

Lemma tail_streak_find newest o older o' :
  args_hash o ≠ args_hash newest →
  find (λ r, negb (bool_decide (args_hash r = args_hash newest))) (rev (tail_streak newest o older)) = Some o' →
  args_hash o' = args_hash o.
Proof.
  intros Hne [Hin Hn]%find_some. apply negb_true_iff, bool_decide_eq_false in Hn.
  rewrite <-in_rev, <-list_elem_of_In in Hin.
  destruct (alternate_loop_spec (args_hash newest) (args_hash o) older) as [(Ha & _) _]; [done|].
  destruct (alternating_hashes (args_hash newest) (args_hash o) (tail_streak newest o older) o');
    [by split|done|congruence|done].
Qed.

Lemma tail_streak_count newest o older k :
  args_hash o ≠ args_hash newest → 0 < k →
  k ≤ compute_rounds
        (filter (λ r, args_hash r = args_hash newest) (rev (tail_streak newest o older)))
        (filter (λ r, args_hash r = args_hash o) (rev (tail_streak newest o older))) ↔
  ∃ ra rb l1 l2, tail_streak newest o older = l1 ++ l2 ∧
    map outcome_of l1 = rounds (args_hash newest, Some ra) (args_hash o, Some rb) k.
Proof.
  intros Hne Hk. unfold compute_rounds, get_side_tail_streak. rewrite !side_rev, Nat.min_glb_iff.
  rewrite !side_tail_spec by done.
  assert (alternating (args_hash newest) (args_hash o) (tail_streak newest o older)) as Halt.
  { destruct (alternate_loop_spec (args_hash newest) (args_hash o) older) as [(Ha & _) _]; [done|].
    by split. }
  split.
  - intros [[ra Ha] [rb Hb]]. exists ra, rb. apply sides_rounds; [done|done|by split].
  - intros (ra & rb & H). apply sides_rounds in H as [Ha Hb]; [|done|done].
    split; [by exists ra|by exists rb].
Qed.

Lemma alternates_short k h : 0 < k → alternates_for k h → 2 ≤ length h.
Proof.
  intros Hk (a & b & ra & rb & l & l' & _ & -> & Hm). rewrite length_app.
  assert (length (map outcome_of l') = 2 * k) as Hl.
  { rewrite Hm. unfold rounds. clear. induction k as [|k IH]; [done|]. simpl in *. lia. }
  rewrite length_map in Hl. lia.
Qed.

Lemma alternates_none newest older k :
  0 < k → find (λ r, negb (bool_decide (args_hash r = args_hash newest))) older = None →
  ¬ ∃ a b ra rb l1 l2, a ≠ b ∧ newest :: older = l1 ++ l2 ∧
      map outcome_of l1 = rounds (a, Some ra) (b, Some rb) k.
Proof.
  intros Hk Hf (a & b & ra & rb & l1 & l2 & Hab & He & Hm). destruct k as [|k]; [lia|].
  destruct l1 as [|r1 [|r2 l1]]; [done..|]. injection He as <- ->.
  injection Hm as <- _ <- _ _. simpl in Hf. by rewrite bool_decide_eq_false_2 in Hf by congruence.
Qed.

Lemma ping_pong_spec k h :
  0 < k → ∃ p, get_ping_pong_streak h = Some p ∧ no_progress p = (2 <=? no_progress_rounds p) ∧
    (k ≤ no_progress_rounds p ↔ alternates_for k h).
Proof.
  intros Hk. unfold get_ping_pong_streak, collect_alternating_streak.
  assert (∀ P : Prop, ¬ P → (k ≤ 0 ↔ P)) as Hzero by (intros P HP; split; [lia|done]).
  assert (alternates_for k h → 2 ≤ length (rev h)) as Hshort
    by (rewrite length_rev; by apply alternates_short).
  rewrite (alternates_rev k h) in Hshort. setoid_rewrite (alternates_rev k h). destruct (rev h) as [|newest [|o1 os]] eqn:Hrev.
  1,2: eexists; split_and!; [done|done|]; apply Hzero; intros H%Hshort; simpl in H; lia.
  cbn [tail]. set (older := o1 :: os) in *.
  destruct (find _ older) as [o|] eqn:Hf.
  2:{ eexists. split_and!; [done|done|]. apply Hzero. by apply alternates_none. }
  assert (args_hash o ≠ args_hash newest) as Hne.
  { apply find_some in Hf as [_ Hf]. by apply negb_true_iff, bool_decide_eq_false in Hf. }
  fold (tail_streak newest o older).
  assert (last (rev (tail_streak newest o older)) = Some newest) as -> by apply last_snoc.
  setoid_rewrite <-(tail_streak_rounds newest o older k Hne Hf Hk).
  destruct (length (rev (tail_streak newest o older)) <? 2) eqn:Hlen.
  - apply Nat.ltb_lt in Hlen. rewrite length_rev in Hlen. eexists. split_and!; [done|done|].
    apply Hzero. intros (ra & rb & l1 & l2 & He & Hm). rewrite He in Hlen.
    destruct k as [|k]; [lia|]. destruct l1 as [|? [|? ?]]; [done..|]. simpl in Hlen. lia.
  - destruct (find _ (rev (tail_streak newest o older))) as [o'|] eqn:Hf'.
    + rewrite (tail_streak_find newest o older o' Hne Hf'). eexists. split_and!; [done|done|].
      cbn [no_progress_rounds]. by apply tail_streak_count.
    + exfalso. apply Nat.ltb_ge in Hlen. rewrite length_rev in Hlen. unfold tail_streak in *.
      destruct (alternate_loop_spec (args_hash newest) (args_hash o) older) as [(Ha & _) _]; [done|].
      destruct (alternate_loop _ _ _ _) as [|r l] eqn:Hl; [simpl in Hlen; lia|].
      destruct Ha as [Hr _]. apply (find_none _ _) with (x := r) in Hf'.
      * rewrite bool_decide_eq_false_2 in Hf' by congruence. done.
      * apply in_rev. rewrite rev_involutive. right. by left.
Qed.

(** ** Detection *)

(** The agent repeats a call without progress, calls a failing tool again and again, or
    alternates between two calls without progress. *)
Definition looping (cfg : CircuitBreakerConfig) (h : list ToolCallRecord) (name ah : string) : Prop :=
  no_progress_for name ah (Z.to_nat (global_breaker_threshold cfg)) h ∨
  failing_for name (Z.to_nat (unknown_tool_threshold cfg)) h ∨
  alternates_for (Z.to_nat (Z.max 2 (critical_threshold cfg))) h.

(** Thresholds that mean something *)
Definition positive (cfg : CircuitBreakerConfig) : Prop :=
  (0 < warning_threshold cfg ∧ 0 < critical_threshold cfg ∧ 0 < global_breaker_threshold cfg ∧
   0 < unknown_tool_threshold cfg)%Z.

Lemma at_least_spec n t : (0 < t)%Z → at_least n t = true ↔ Z.to_nat t ≤ n.
Proof. intros Ht. unfold at_least. rewrite Z.leb_le. lia. Qed.

Lemma detect_critical cfg h name ah :
  positive cfg →
  ∃ d, detect cfg h name ah = Some d ∧
    ((∃ r, d = Some r ∧ det_level r = Critical) ↔ looping cfg h name ah).
Proof.
  intros (Hw & Hcr & Hg & Hu). unfold detect, looping.
  assert (0 < Z.to_nat (global_breaker_threshold cfg)) as Hg' by lia.
  setoid_rewrite <-(no_progress_streak_spec name ah _ h Hg').
  setoid_rewrite <-(unknown_streak_spec name (Z.to_nat (unknown_tool_threshold cfg)) h).
  destruct (ping_pong_spec (Z.to_nat (Z.max 2 (critical_threshold cfg))) h) as (p & -> & Hnp & Hp); [lia|].
  setoid_rewrite <-Hp. clear Hp. destruct (at_least (get_no_progress_streak h name ah) _) eqn:H1.
  { eexists. split; [done|]. rewrite at_least_spec in H1 by done. split; [by left|by eexists]. }
  apply not_true_iff_false in H1. rewrite at_least_spec in H1 by done.
  destruct (at_least (get_unknown_tool_streak h name) _) eqn:H2.
  { eexists. split; [done|]. rewrite at_least_spec in H2 by done. split; [by right; left|by eexists]. }
  apply not_true_iff_false in H2. rewrite at_least_spec in H2 by done. cbn [mbind option_bind].
  assert (no_progress p && at_least (no_progress_rounds p) (critical_threshold cfg) = true ↔
    Z.to_nat (Z.max 2 (critical_threshold cfg)) ≤ no_progress_rounds p) as H3.
  { rewrite andb_true_iff, Hnp, Nat.leb_le, at_least_spec by done. lia. }
  destruct (no_progress p && at_least (no_progress_rounds p) (critical_threshold cfg)).
  { eexists. split; [done|]. split; [by right; right; apply H3|by eexists]. }
  assert (¬ Z.to_nat (Z.max 2 (critical_threshold cfg)) ≤ no_progress_rounds p) as H4
    by (rewrite <-H3; done).
  repeat case_match; (eexists; split; [done|]); (split; [intros (r & Hr & Hl); by simplify_eq|tauto]).
Qed.

(** the detectors never raise, and they ask for the agent to stop exactly if it loops: the
    last recorded results of the call are all the same for [global_breaker_threshold] of
    them, the last [unknown_tool_threshold] calls are failures of the tool, or the last
    [critical_threshold] rounds (at least two) alternate between two calls that each gave
    one result. *)
Theorem detect_critical_iff cfg h name ah :
  positive cfg →
  ∃ d, detect cfg h name ah = Some d ∧
    ((∃ r, d = Some r ∧ det_level r = Critical) ↔ looping cfg h name ah).
Proof. apply detect_critical. Qed.

(** ** Histories along a run *)

(** The [n] newest elements *)
Definition newest {A} (n : nat) (l : list A) : list A := drop (length l - n) l.

Lemma newest_all {A} n (l : list A) : length l ≤ n → newest n l = l.
Proof. intros Hl. unfold newest. by replace (length l - n) with 0 by lia. Qed.

Lemma newest_app_newest {A} n (l l' : list A) : newest n (newest n l ++ l') = newest n (l ++ l').
Proof.
  unfold newest. rewrite !length_app, length_drop.
  destruct (decide (length l ≤ n)) as [Hl|Hl].
  - replace (length l - n) with 0 by lia. rewrite drop_0. f_equal. lia.
  - replace (length l + length l' - n) with ((length l - n) + length l') by lia.
    replace (length l - (length l - n) + length l' - n) with (length l') by lia.
    rewrite <-drop_drop. f_equal. by rewrite drop_app_le by lia.
Qed.

Lemma newest_suffix {A} n (l l' : list A) : length l' ≤ n → ∃ l1, newest n (l ++ l') = l1 ++ l'.
Proof.
  intros Hl. exists (drop (length l + length l' - n) l). unfold newest.
  by rewrite length_app, drop_app_le by lia.
Qed.

Lemma newest_prefix {A} n (l : list A) : ∃ l1, l = l1 ++ newest n l.
Proof. exists (take (length l - n) l). unfold newest. by rewrite take_drop. Qed.

Lemma push_call_newest cfg h r :
  positive cfg → push_call cfg h r = newest (Z.to_nat (history_size cfg)) (h ++ [r]).
Proof.
  intros (Hw & Hcr & Hg & Hu). unfold push_call, last_slice.
  assert (0 < history_size cfg)%Z as Hs by (unfold history_size; lia).
  destruct (Z.ltb_spec (history_size cfg) (Z.of_nat (length (h ++ [r])))).
  - rewrite (proj2 (Z.ltb_lt 0 (history_size cfg))) by done. done.
  - by rewrite newest_all by lia.
Qed.

Section run.
Context (repr : val → string) (json_loads : string → option val).
Context (digest : string → val → string) (result_digest : val → string).
Context (prefixes : list string).

(** The arguments of one call of [after_tool_call] *)
Record CallInput := mk_input {
  in_ctx : Ctx;
  in_call : option (string * val);
  in_result : val;
  in_now : Z;
}.

Definition on_call (e : CallInput) (r : Rail) : call_outcome :=
  after_tool_call repr json_loads digest result_digest prefixes (in_ctx e) (in_call e) (in_result e)
    (in_now e) r.

(** The calls of several sessions, one after the other *)
Fixpoint run_calls (es : list CallInput) (r : Rail) : Rail :=
  match es with
  | [] => r
  | e :: es' => run_calls es' (match on_call e r with Detected r' _ => r' | _ => r end)
  end.

(** The record a call makes, if it is not ignored *)
Definition counted (e : CallInput) : option ToolCallRecord :=
  match in_call e with
  | None => None
  | Some (name, args) =>
      if negb (str_true name) then None
      else match exception (in_ctx e) with
           | Some ToolInterruptException => None
           | _ => Some (call_record repr json_loads digest result_digest prefixes (in_ctx e) name args
                          (in_result e) (in_now e))
           end
  end.

(** The records of one session *)
Definition log (sid : string) (es : list CallInput) : list ToolCallRecord :=
  omap (λ e, if bool_decide (resolve_sid (in_ctx e) = sid) then counted e else None) es.

Definition history_of (sid : string) (r : Rail) : list ToolCallRecord := default [] (histories r !! sid).

Lemma on_call_eq e r :
  positive (config r) →
  match counted e with
  | None => on_call e r = Ignored
  | Some record =>
      let sid := resolve_sid (in_ctx e) in
      let h := newest (Z.to_nat (history_size (config r))) (history_of sid r ++ [record]) in
      ∃ r' d, on_call e r = Detected r' d ∧ config r' = config r ∧
        detect (config r) h (tool_name record) (args_hash record) = Some d ∧
        ∀ sid', history_of sid' r' = if bool_decide (sid = sid') then h else history_of sid' r
  end.
Proof.
  intros Hp. unfold counted, on_call, after_tool_call.
  destruct (in_call e) as [[name args]|]; [|done]. destruct (negb (str_true name)); [done|].
  set (record := call_record _ _ _ _ _ _ _ _ _ _). set (sid := resolve_sid (in_ctx e)).
  assert (∃ r' d, match detect (config r) (push_call (config r) (history_of sid r) record) name
                          (args_hash record) with
      | Some d => Detected (mk_rail (config r)
          (<[sid := push_call (config r) (history_of sid r) record]> (histories r))
          ({[sid]} ∪ locks r) (rail_language r)) d
      | None => Raised
      end = Detected r' d ∧ config r' = config r ∧
    detect (config r) (newest (Z.to_nat (history_size (config r))) (history_of sid r ++ [record]))
      (tool_name record) (args_hash record) = Some d ∧
    ∀ sid', history_of sid' r' = if bool_decide (sid = sid')
      then newest (Z.to_nat (history_size (config r))) (history_of sid r ++ [record])
      else history_of sid' r) as H.
  { rewrite push_call_newest by done. set (h := newest _ _).
    assert (∃ d, detect (config r) h name (args_hash record) = Some d) as [d Hd].
    { pose proof (ping_pong_spec 1 h) as (p & Hpp & _); [lia|]. unfold detect. rewrite Hpp.
      cbn [mbind option_bind]. repeat case_match; by eexists. }
    rewrite Hd. eexists _, d. split_and!; [done|done|done|]. intros sid'. unfold history_of. simpl.
    rewrite lookup_insert. case_bool_decide as Hs; [subst sid'; by rewrite decide_True|].
    by rewrite decide_False. }
  destruct (exception (in_ctx e)) as [[]|]; [done|exact H|exact H].
Qed.

Lemma run_calls_history es r sid :
  positive (config r) → length (history_of sid r) ≤ Z.to_nat (history_size (config r)) →
  config (run_calls es r) = config r ∧
  history_of sid (run_calls es r) =
    newest (Z.to_nat (history_size (config r))) (history_of sid r ++ log sid es).
Proof.
  set (n := Z.to_nat (history_size (config r))). intros Hp Hn.
  assert (∀ es r1 l, config r1 = config r → history_of sid r1 = newest n l →
    config (run_calls es r1) = config r ∧ history_of sid (run_calls es r1) = newest n (l ++ log sid es))
    as Hgen; [|apply Hgen; [done|by rewrite newest_all]].
  clear es Hn. induction es as [|e es IH]; intros r1 l Hcfg Hl; [simpl; by rewrite app_nil_r|].
  simpl. pose proof (on_call_eq e r1) as He. rewrite Hcfg in He. specialize (He Hp).
  unfold log. csimpl. fold (log sid es). destruct (counted e) as [record|].
  - destruct He as (r' & d & -> & Hc' & _ & Hh). specialize (Hh sid).
    destruct (bool_decide (resolve_sid (in_ctx e) = sid)) eqn:Hs.
    + replace (l ++ record :: log sid es) with ((l ++ [record]) ++ log sid es) by by rewrite <-app_assoc.
      apply IH; [congruence|]. rewrite Hh. apply bool_decide_eq_true in Hs. rewrite Hs, Hl.
      apply newest_app_newest.
    + apply IH; [congruence|]. by rewrite Hh.
  - rewrite He. replace (if bool_decide _ then None else None) with (@None ToolCallRecord)
      by by case_match. by apply IH.
Qed.

(** the rail's history of a session is the window of the last [history_size] calls
    recorded for it, whatever other sessions do; paused calls leave no trace. *)
Theorem history_is_window es r sid :
  positive (config r) → length (history_of sid r) ≤ Z.to_nat (history_size (config r)) →
  history_of sid (run_calls es r) =
    newest (Z.to_nat (history_size (config r))) (history_of sid r ++ log sid es).
Proof. intros Hp Hn. by apply run_calls_history. Qed.

(** The last calls loop without any other call in between. *)
Definition repeating (cfg : CircuitBreakerConfig) (h : list ToolCallRecord) (name ah : string) : Prop :=
  (∃ x l l', h = l ++ l' ∧ length l' = Z.to_nat (global_breaker_threshold cfg) ∧
     Forall (λ r, same_call name ah r = true ∧ result_hash r = Some x) l') ∨
  failing_for name (Z.to_nat (unknown_tool_threshold cfg)) h ∨
  alternates_for (Z.to_nat (Z.max 2 (critical_threshold cfg))) h.

Lemma results_app name ah l l' : results name ah (l ++ l') = results name ah l ++ results name ah l'.
Proof. apply omap_app. Qed.

Lemma looping_prefix cfg l h name ah : looping cfg h name ah → looping cfg (l ++ h) name ah.
Proof.
  intros [(x & l1 & He)|[(l1 & l2 & -> & Hl & Hf)|(a & b & ra & rb & l1 & l2 & Hab & -> & Hm)]].
  - left. exists x, (results name ah l ++ l1). by rewrite results_app, He, app_assoc.
  - right. left. exists (l ++ l1), l2. by rewrite app_assoc.
  - right. right. exists a, b, ra, rb, (l ++ l1), l2. by rewrite app_assoc.
Qed.

Lemma rounds_length {A} (x y : A) k : length (rounds x y k) = 2 * k.
Proof. unfold rounds. induction k as [|k IH]; [done|]. simpl in *. lia. Qed.

Lemma repeating_window cfg h name ah :
  positive cfg → repeating cfg h name ah →
  looping cfg (newest (Z.to_nat (history_size cfg)) h) name ah.
Proof.
  intros (Hw & Hcr & Hg & Hu). set (n := Z.to_nat (history_size cfg)).
  assert (Z.to_nat (global_breaker_threshold cfg) ≤ n ∧ Z.to_nat (unknown_tool_threshold cfg) ≤ n ∧
    2 * Z.to_nat (Z.max 2 (critical_threshold cfg)) ≤ n) as (N1 & N2 & N3)
    by (unfold n, history_size; lia). clearbody n.
  intros [(x & l & l' & -> & Hl & Hf)|[(l1 & l2 & -> & Hl & Hf)|(a & b & ra & rb & l1 & l2 & Hab & -> & Hm)]].
  - left. destruct (newest_suffix n l l') as [l1 ->]; [lia|]. exists x, (results name ah l1).
    rewrite results_app. f_equal. rewrite <-Hl. clear -Hf. unfold results.
    induction Hf as [|r l' [Hs Hr] _ IH]; [done|]. csimpl. by rewrite Hs, Hr, IH.
  - right. left. destruct (newest_suffix n l1 l2) as [l3 ->]; [lia|]. by exists l3, l2.
  - right. right. destruct (newest_suffix n l1 l2) as [l3 ->].
    + assert (length (map outcome_of l2) = length l2) as <- by apply length_map.
      rewrite Hm, rounds_length. done.
    + by exists a, b, ra, rb, l3, l2.
Qed.

(** whatever other sessions and paused calls happen in between, a call that completes a
    loop of a session's agent - [global_breaker_threshold] times the same call with the same
    result, [unknown_tool_threshold] failures of one tool, or [critical_threshold] rounds of
    two alternating calls - makes the agent finish; and the agent is only made to finish when
    its calls loop. *)
Theorem loop_is_stopped es e r record :
  let sid := resolve_sid (in_ctx e) in
  let l := history_of sid r ++ log sid (es ++ [e]) in
  positive (config r) → length (history_of sid r) ≤ Z.to_nat (history_size (config r)) →
  counted e = Some record →
  (repeating (config r) l (tool_name record) (args_hash record) →
     forces_finish (on_call e (run_calls es r)) = true) ∧
  (forces_finish (on_call e (run_calls es r)) = true →
     looping (config r) l (tool_name record) (args_hash record)).
Proof.
  intros sid l Hp Hn Hrec. destruct (run_calls_history es r sid Hp Hn) as [Hcfg Hh].
  pose proof (on_call_eq e (run_calls es r)) as He. rewrite Hcfg, Hrec in He. specialize (He Hp).
  destruct He as (r' & d & -> & _ & Hd & _). fold sid in Hd. rewrite Hh, newest_app_newest in Hd.
  assert ((history_of sid r ++ log sid es) ++ [record] = l) as Hl.
  { unfold l, log. rewrite omap_app, <-app_assoc. f_equal. f_equal. simpl. fold sid.
    rewrite bool_decide_eq_true_2 by done. by rewrite Hrec. }
  rewrite Hl in Hd.
  destruct (detect_critical (config r) (newest (Z.to_nat (history_size (config r))) l)
    (tool_name record) (args_hash record) Hp) as (d' & Hd' & Hiff).
  assert (d' = d) as -> by congruence.
  assert (forces_finish (Detected r' d) = true ↔ ∃ r, d = Some r ∧ det_level r = Critical) as Hff.
  { simpl. destruct d as [[[] ? ? ? ?]|]; simpl; split; try done; [by eexists|by intros (? & [= <-] & ?)|
      by intros (? & ? & ?)]. }
  rewrite Hff, Hiff. split; [by apply repeating_window|]. intros Hloop.
  destruct (newest_prefix (Z.to_nat (history_size (config r))) l) as [l1 Hl1]. rewrite Hl1.
  by apply looping_prefix.
Qed.

End run.

(** ** Verdicts on results *)

Lemma boolish_disjoint v : boolish_true v = true → boolish_false v = false.
Proof.
  destruct v as [|[]| |s| | |]; try done. simpl. rewrite bool_decide_eq_true, bool_decide_eq_false.
  rewrite !elem_of_cons, !elem_of_nil. intuition congruence.
Qed.

Lemma success_says_no prefixes json_loads v d :
  normalize json_loads prefixes v = Some d →
  has_explicit_success json_loads prefixes v = true → success_says d = Some true.
Proof.
  unfold has_explicit_success, success_says. intros ->. destruct (assoc d "success") as [s|]; [|done].
  intros Hs. by rewrite (boolish_disjoint s Hs), Hs.
Qed.

(** a result that says it succeeded is never counted as a failure, neither for an [error]
    field it carries nor for an exception in the context; a result that shows an error is
    always counted; and only results that say neither leave it to the context. *)
Theorem verdict_correct repr json_loads prefixes result ctx :
  let err := has_error repr json_loads prefixes result in
  let ok := has_explicit_success json_loads prefixes result in
  let verdict := infer_record_has_error repr json_loads prefixes result ctx in
  ¬ (err = true ∧ ok = true) ∧ (ok = true → verdict = false) ∧ (err = true → verdict = true) ∧
  (err = false → ok = false →
     (verdict = true ↔ is_Some (exception ctx) ∨
        ∃ content, tool_msg ctx = Some content ∧ has_error repr json_loads prefixes content = true)).
Proof.
  intros err ok verdict.
  assert (ok = true → err = false) as Hex.
  { unfold ok, err, has_error. intros Hok. destruct (normalize json_loads prefixes result) as [d|] eqn:Hd.
    - unfold dict_has_error. by rewrite (success_says_no _ _ _ _ Hd Hok).
    - done. }
  unfold verdict, infer_record_has_error. fold err ok. split_and!.
  - intros [He Ho]. by rewrite Hex in He.
  - intros Ho. by rewrite (Hex Ho), Ho.
  - by intros ->.
  - intros -> ->. unfold ctx_has_error. destruct (exception ctx) as [x|]; simpl.
    + split; [intros _; left; by eexists|done].
    + destruct (tool_msg ctx) as [content|]; split; try done; [by right; exists content| | ];
        intros [[? ?]|(c & Hc & He)]; simplify_eq; done.
Qed.

(** ** The theorems at work *)

Definition ex_repr (v : val) : string := "?".
Definition ex_call (result : val) : CallInput :=
  mk_input (mk_ctx (Some "s1") None None None None) (Some ("grep", VDict [])) result 0.
Definition ex_rail : Rail := rail_init None "en".

(** The same call with the same result, with a paused call in between *)
Definition ex_calls : list CallInput :=
  replicate 20 (ex_call (VStr "no match")) ++
  [mk_input (mk_ctx (Some "s1") None None (Some ToolInterruptException) None)
     (Some ("ask", VNone)) VNone 0] ++
  replicate 9 (ex_call (VStr "no match")).

Lemma default_positive : positive default_config.
Proof. by vm_compute. Qed.

Lemma history_is_window_witness :
  positive (config ex_rail) ∧
  history_of "s1" (run_calls ex_repr (λ _, None) (λ n _, n) (λ _, "d") [] ex_calls ex_rail) =
    newest (Z.to_nat (history_size (config ex_rail)))
      (history_of "s1" ex_rail ++ log ex_repr (λ _, None) (λ n _, n) (λ _, "d") [] "s1" ex_calls).
Proof.
  split; [apply default_positive|].
  apply (history_is_window ex_repr (λ _, None) (λ n _, n) (λ _, "d") [] ex_calls ex_rail "s1");
    [apply default_positive|vm_compute; lia].
Defined.

Lemma detect_critical_iff_witness :
  positive default_config ∧
  ∃ d, detect default_config (replicate 10 (mk_call "grep" "a" (Some "d") 0 false)) "grep" "a" = Some d ∧
    ¬ ∃ r, d = Some r ∧ det_level r = Critical.
Proof.
  split; [apply default_positive|].
  destruct (detect_critical_iff default_config (replicate 10 (mk_call "grep" "a" (Some "d") 0 false))
    "grep" "a" default_positive) as (d & Hd & _).
  exists d. split; [exact Hd|]. vm_compute in Hd. injection Hd as <-. by intros (r & [= <-] & ?).
Defined.

Lemma loop_is_stopped_witness :
  positive (config ex_rail) ∧
  forces_finish (on_call ex_repr (λ _, None) (λ n _, n) (λ _, "d") [] (ex_call (VStr "no match"))
    (run_calls ex_repr (λ _, None) (λ n _, n) (λ _, "d") [] ex_calls ex_rail)) = true.
Proof.
  split; [apply default_positive|].
  eapply (loop_is_stopped ex_repr (λ _, None) (λ n _, n) (λ _, "d") [] ex_calls
    (ex_call (VStr "no match")) ex_rail); [apply default_positive|vm_compute; lia|reflexivity|].
  left. exists "d", []. eexists. split; [reflexivity|]. split; [vm_compute; reflexivity|].
  vm_compute. repeat constructor.
Defined.
