(* ===== verification/Readiness.v ===== *)
(** * The readiness state machine of the AgentServer

    Source: [jiuwenswarm/server/lifecycle.py].

    [Readiness] is the object's state; each [mark_...] method is a function.
    [wait_agent_ready] is split at its wait. *)

From S2P Require Import Prelude OrderedDict.

Inductive ReadinessState :=
| STARTING | TRANSPORT_READY | CONTROL_READY | RUNTIME_WARMING | AGENT_READY | DEGRADED | DRAINING
| READINESS_FAILED.

#[export] Instance readiness_state_eq : EqDecision ReadinessState.
Proof. solve_decision. Defined.

Definition readiness_value (s : ReadinessState) : string :=
  match s with
  | STARTING => "STARTING"
  | TRANSPORT_READY => "TRANSPORT_READY"
  | CONTROL_READY => "CONTROL_READY"
  | RUNTIME_WARMING => "RUNTIME_WARMING"
  | AGENT_READY => "AGENT_READY"
  | DEGRADED => "DEGRADED"
  | DRAINING => "DRAINING"
  | READINESS_FAILED => "FAILED"
  end.

(** [_TRANSPORT_STATES], [_CONTROL_STATES], [_WARMING_STATES], [_AGENT_STATES] *)
Definition transport_states (s : ReadinessState) : bool :=
  match s with STARTING | READINESS_FAILED => false | _ => true end.
Definition control_states (s : ReadinessState) : bool :=
  match s with STARTING | TRANSPORT_READY | READINESS_FAILED => false | _ => true end.
Definition warming_states (s : ReadinessState) : bool :=
  match s with RUNTIME_WARMING | AGENT_READY | DEGRADED => true | _ => false end.
Definition agent_states (s : ReadinessState) : bool :=
  match s with AGENT_READY | DEGRADED => true | _ => false end.

(** [_RUNTIME_PHASES] and [_CAPABILITY_STATES] *)
Definition runtime_phases : list string := ["IPC_READY"; "EXECUTION_MIN_READY"; "FULLY_WARM"].
Definition capability_states : list string := ["pending"; "ready"; "disabled"; "failed"].

(** The event [_agent_ready] is a flag. *)
Record Readiness := mk_readiness {
  rd_state : ReadinessState;
  agent_event : bool;
  failed_reason : option string;
  retrying : bool;
  runtime_phase : option string;
  capability_readiness : option (odict string string);
}.

Definition readiness_init : Readiness := mk_readiness STARTING false None false None None.

Definition with_state (s : ReadinessState) (r : Readiness) : Readiness :=
  mk_readiness s (agent_event r) (failed_reason r) (retrying r) (runtime_phase r)
    (capability_readiness r).

Record ReadinessSnapshot := mk_readiness_snapshot {
  sn_state : string;
  sn_transport_ready : bool;
  sn_control_ready : bool;
  sn_runtime_warming : bool;
  sn_agent_ready : bool;
  sn_draining : bool;
  sn_failed : bool;
  sn_failed_reason : option string;
  sn_last_error : option string;
  sn_retrying : bool;
  sn_runtime_phase : option string;
  sn_capability_readiness : option (odict string string);
}.

(** [snapshot] *)
Definition readiness_snapshot (r : Readiness) : ReadinessSnapshot :=
  let s := rd_state r in
  mk_readiness_snapshot (readiness_value s) (transport_states s) (control_states s)
    (warming_states s) (agent_states s) (bool_decide (s = DRAINING))
    (bool_decide (s = READINESS_FAILED))
    (if decide (s = READINESS_FAILED) then failed_reason r else None)
    (failed_reason r) (retrying r) (runtime_phase r) (capability_readiness r).

(** What a Worker may send: a string, a dictionary, or anything else *)
#[local] Unset Elimination Schemes.
Inductive progress :=
| PText (s : string)
| PDict (d : list (progress * progress))
| POther.
#[local] Set Elimination Schemes.

Definition text_pair (kv : progress * progress) : option (string * string) :=
  match kv with (PText k, PText v) => Some (k, v) | _ => None end.

(** [note_runtime_progress] *)
Definition note_runtime_progress (phase caps : progress) (r : Readiness) : Readiness :=
  let phase := match phase with
               | PText s => if bool_decide (s ∈ runtime_phases) then Some s else runtime_phase r
               | _ => runtime_phase r
               end in
  let caps := match caps with
              | PDict d => Some (foldl (λ m kv, od_set m kv.1 kv.2) []
                  (filter (λ kv, kv.2 ∈ capability_states) (omap text_pair d)))
              | _ => capability_readiness r
              end in
  mk_readiness (rd_state r) (agent_event r) (failed_reason r) (retrying r) phase caps.

(** [self._state in {FAILED, DRAINING}] *)
Definition stopped (s : ReadinessState) : bool :=
  match s with READINESS_FAILED | DRAINING => true | _ => false end.

Definition mark_transport_ready (r : Readiness) : Readiness :=
  if stopped (rd_state r) then r else with_state TRANSPORT_READY r.

Definition mark_control_ready (r : Readiness) : Readiness :=
  if stopped (rd_state r) then r else with_state CONTROL_READY r.

Definition mark_runtime_warming (r : Readiness) : Readiness :=
  if stopped (rd_state r) then r
  else if agent_states (rd_state r) then mk_readiness RUNTIME_WARMING false None false None None
  else mk_readiness RUNTIME_WARMING (agent_event r) (failed_reason r) (retrying r) None None.

Definition mark_agent_ready (r : Readiness) : Readiness :=
  if bool_decide (rd_state r = DRAINING) then r
  else mk_readiness AGENT_READY true None false (runtime_phase r) (capability_readiness r).

Definition mark_degraded (r : Readiness) : Readiness :=
  if bool_decide (rd_state r = AGENT_READY)
  then mk_readiness DEGRADED true (failed_reason r) (retrying r) (runtime_phase r)
         (capability_readiness r)
  else r.

Definition mark_draining (r : Readiness) : Readiness :=
  if bool_decide (rd_state r = READINESS_FAILED) then r
  else mk_readiness DRAINING true (failed_reason r) (retrying r) (runtime_phase r)
         (capability_readiness r).

Definition mark_failed (reason : string) (r : Readiness) : Readiness :=
  if bool_decide (rd_state r = DRAINING) then r
  else mk_readiness READINESS_FAILED true (Some reason) false (runtime_phase r)
         (capability_readiness r).

Definition mark_recovering (reason : string) (r : Readiness) : Readiness :=
  if bool_decide (rd_state r = READINESS_FAILED)
  then mk_readiness RUNTIME_WARMING false (Some reason) true (runtime_phase r)
         (capability_readiness r)
  else r.

Definition note_warmup_retry (reason : string) (r : Readiness) : Readiness :=
  if stopped (rd_state r) || agent_states (rd_state r) then r
  else mk_readiness RUNTIME_WARMING (agent_event r) (Some reason) true (runtime_phase r)
         (capability_readiness r).

(** [wait_agent_ready]: its result, or [None] if it waits for the event; and its result
    once the event is set ([woken]) or the timeout is over *)
Definition wait_begin (r : Readiness) : option bool :=
  if stopped (rd_state r) then Some false
  else if agent_event r then Some (agent_states (rd_state r)) else None.
Definition wait_end (woken : bool) (r : Readiness) : bool :=
  if woken then agent_states (rd_state r) else false.

(** ** The methods as a transition system *)

Inductive readiness_op :=
| OpTransport | OpControl | OpWarming | OpAgent | OpDegraded | OpDraining
| OpFailed (reason : string) | OpRecovering (reason : string) | OpRetry (reason : string)
| OpProgress (phase caps : progress).

Definition run_op (o : readiness_op) : Readiness → Readiness :=
  match o with
  | OpTransport => mark_transport_ready
  | OpControl => mark_control_ready
  | OpWarming => mark_runtime_warming
  | OpAgent => mark_agent_ready
  | OpDegraded => mark_degraded
  | OpDraining => mark_draining
  | OpFailed reason => mark_failed reason
  | OpRecovering reason => mark_recovering reason
  | OpRetry reason => note_warmup_retry reason
  | OpProgress phase caps => note_runtime_progress phase caps
  end.

Definition run_ops (os : list readiness_op) (r : Readiness) : Readiness :=
  foldl (λ r o, run_op o r) r os.

(** The transport and the control plane are announced before the runtime is. *)
Definition startup_first (o : readiness_op) (r : Readiness) : Prop :=
  match o with
  | OpTransport | OpControl => ¬ agent_states (rd_state r) = true
  | _ => True
  end.

Fixpoint startup_order (os : list readiness_op) (r : Readiness) : Prop :=
  match os with
  | [] => True
  | o :: os' => startup_first o r ∧ startup_order os' (run_op o r)
  end.

(** A waiter is woken in exactly the states that decide its answer. *)
Definition event_ok (r : Readiness) : Prop :=
  agent_event r = true ↔ (agent_states (rd_state r) = true ∨ stopped (rd_state r) = true).

Lemma run_op_event o r : startup_first o r → event_ok r → event_ok (run_op o r).
Proof.
  unfold event_ok. destruct r as [s ev fr rt ph cp], o; simpl;
    unfold mark_transport_ready, mark_control_ready, mark_runtime_warming, mark_agent_ready,
      mark_degraded, mark_draining, mark_failed, mark_recovering, note_warmup_retry; simpl;
    destruct s; simpl; intuition.
Qed.

Lemma run_ops_event os r : startup_order os r → event_ok r → event_ok (run_ops os r).
Proof.
  unfold run_ops. revert r. induction os as [|o os IH]; intros r; simpl; [done|].
  intros [Ho Hos] Hr. apply IH; [done|by apply run_op_event].
Qed.

Lemma run_op_draining o r : rd_state r = DRAINING → rd_state (run_op o r) = DRAINING.
Proof.
  destruct r as [s ev fr rt ph cp], o; simpl; intros ->; try done.
Qed.

Lemma run_ops_draining os r : rd_state r = DRAINING → rd_state (run_ops os r) = DRAINING.
Proof.
  unfold run_ops. revert r. induction os as [|o os IH]; intros r Hr; simpl; [done|].
  by apply IH, run_op_draining.
Qed.

(** if the transport and control plane are announced before the runtime is, a caller of
    [wait_agent_ready] waits exactly while the runtime is not ready, draining or failed; it
    answers at once otherwise, with yes exactly if requests can be executed, and draining is
    never left. *)
Theorem readiness_waits os r :
  startup_order os readiness_init → r = run_ops os readiness_init →
  (wait_begin r = None ↔ agent_states (rd_state r) = false ∧ stopped (rd_state r) = false) ∧
  (∀ b, wait_begin r = Some b → (b = true ↔ agent_states (rd_state r) = true)) ∧
  (agent_event r = true → wait_begin r = Some (wait_end true r)) ∧
  (∀ os', rd_state r = DRAINING → rd_state (run_ops os' r) = DRAINING).
Proof.
  intros Hos ->. assert (event_ok (run_ops os readiness_init)) as He.
  { apply run_ops_event; [done|]. unfold event_ok. simpl. split; [done|by intros [?|?]]. }
  set (r := run_ops os readiness_init) in *. clearbody r. unfold event_ok, wait_begin, wait_end in *.
  split_and!; [| | |intros os'; apply run_ops_draining];
    destruct (rd_state r), (agent_event r); simpl in *; intuition congruence.
Qed.

Lemma readiness_waits_witness :
  startup_order [OpTransport; OpControl; OpWarming; OpRetry "booting"; OpAgent] readiness_init ∧
  wait_begin (run_ops [OpTransport; OpControl; OpWarming; OpRetry "booting"] readiness_init) = None.
Proof.
  split; [simpl; intuition discriminate|].
  eapply (readiness_waits [OpTransport; OpControl; OpWarming; OpRetry "booting"]);
    [simpl; intuition discriminate|reflexivity|split; reflexivity].
Defined.

(** a failed runtime is left by [mark_recovering], as its comment says, and also by
    [mark_agent_ready]: a late readiness report of a Worker makes the runtime ready again.
    No other method leaves the state. *)
Theorem failed_exits o r :
  rd_state r = READINESS_FAILED →
  (rd_state (run_op o r) ≠ READINESS_FAILED ↔ (∃ reason, o = OpRecovering reason) ∨ o = OpAgent).
Proof.
  destruct r as [s ev fr rt ph cp], o; simpl; intros ->; vm_compute; split; intros H; try done;
    try (by left; eexists); try (by right);
    destruct H as [[? ?]|?]; congruence.
Qed.

Lemma failed_exits_witness :
  rd_state (mark_failed "boot" readiness_init) = READINESS_FAILED ∧
  rd_state (run_op OpAgent (mark_failed "boot" readiness_init)) ≠ READINESS_FAILED.
Proof.
  split; [reflexivity|]. apply (failed_exits OpAgent (mark_failed "boot" readiness_init));
    [reflexivity|by right].
Defined.
