(* ===== verification/RequestRegistry.v ===== *)
(** * The front's table of requests in flight

    Source: [jiuwenswarm/server/front/request_registry.py].

    A [TrackedRequest] is a mutable object, by reference.  A request carries the
    first four components of [request_scope] and its target, which other modules
    compute.  The methods hold their lock only across code that does not
    suspend, so each is one call. *)

From S2P Require Import Prelude OrderedDict.

Inductive ReqMethod := CHAT_CANCEL | AGENT_RELOAD_CONFIG | OtherMethod (name : string).

#[export] Instance req_method_eq : EqDecision ReqMethod.
Proof. solve_decision. Defined.

(** [AgentRequest], as far as the front reads it *)
Record Request := mk_request {
  rq_id : string;
  rq_session : string;
  rq_scope : list string;
  rq_method : ReqMethod;
  rq_target : string;
  rq_stream : bool;
}.

Record TrackedRequest := mk_tracked {
  tr_request : Request;
  tr_queued : bool;
  tr_cancelled : bool;
}.

Definition request_id (t : TrackedRequest) : string := rq_id (tr_request t).
Definition session_id (t : TrackedRequest) : string := rq_session (tr_request t).

Abbreviation tref := nat (only parsing).
Abbreviation scope_key := (list string * string)%type (only parsing).

Record Registry := mk_registry {
  items : odict scope_key tref;
  objects : gmap tref TrackedRequest;
  next_object : tref;
}.

Definition registry_empty : Registry := mk_registry [] ∅ 0.

Definition with_items (d : odict scope_key tref) (g : Registry) : Registry :=
  mk_registry d (objects g) (next_object g).
Definition upd_object (t : tref) (f : TrackedRequest → TrackedRequest) (g : Registry) : Registry :=
  mk_registry (items g) (alter f t (objects g)) (next_object g).

Definition blank_request : Request := mk_request "" "" [] (OtherMethod "") "" false.
Definition tracked (g : Registry) (t : tref) : TrackedRequest :=
  default (mk_tracked blank_request true false) (objects g !! t).

(** The key of a request: its scope without the Session, and its id *)
Definition key_of (q : Request) : scope_key := (rq_scope q, rq_id q).

Inductive registry_error := DuplicateRequestError.

(** [register] *)
Definition register (q : Request) (queued : bool) : py Registry registry_error tref :=
  λ g,
    let t := next_object g in
    let g := mk_registry (items g) (<[t := mk_tracked q queued false]> (objects g)) (S t) in
    if str_true (rq_id q) then
      if od_mem (items g) (key_of q) then (Exc DuplicateRequestError, g)
      else (Ret t, with_items (od_set (items g) (key_of q) t) g)
    else (Ret t, g).

Definition scope_matches (owner : option Request) (t : TrackedRequest) : bool :=
  match owner with
  | None => true
  | Some o => bool_decide (rq_scope (tr_request t) = rq_scope o)
  end.

(** [get] *)
Definition get (rid : string) (owner : option Request) (g : Registry) : option tref :=
  match filter (λ t, bool_decide (request_id (tracked g t) = rid)
                     && scope_matches owner (tracked g t) = true) (od_values (items g)) with
  | [t] => Some t
  | _ => None
  end.

(** [tracked or self.get(request_id)] *)
Definition tracked_or_get (rid : string) (t : option tref) (g : Registry) : option tref :=
  match t with Some t => Some t | None => get rid None g end.

Definition set_queued (b : bool) (t : TrackedRequest) : TrackedRequest :=
  mk_tracked (tr_request t) b (tr_cancelled t).
Definition set_cancelled (t : TrackedRequest) : TrackedRequest :=
  mk_tracked (tr_request t) (tr_queued t) true.

(** [mark_dispatched] *)
Definition mark_dispatched (rid : string) (t : option tref) (g : Registry) : Registry :=
  match tracked_or_get rid t g with
  | Some t => upd_object t (set_queued false) g
  | None => g
  end.

(** [complete] *)
Definition complete (rid : string) (t : option tref) (g : Registry) : option tref * Registry :=
  match tracked_or_get rid t g with
  | None => (None, g)
  | Some t =>
      let key := (rq_scope (tr_request (tracked g t)), rid) in
      if bool_decide (od_get (items g) key = Some t)
      then (Some t, with_items (od_pop (items g) key) g)
      else (None, g)
  end.

(** [cancel] *)
Definition cancel (rid : string) (owner : option Request) (g : Registry) : option tref * Registry :=
  match get rid owner g with
  | None => (None, g)
  | Some t => (Some t, upd_object t set_cancelled g)
  end.

(** [cancel_session] *)
Definition cancel_session (session : string) (owner : option Request) (g : Registry)
    : list tref * Registry :=
  let sid := py_strip session in
  if str_true sid then
    let matches := filter (λ t, bool_decide (session_id (tracked g t) = sid)
                                && negb (tr_cancelled (tracked g t))
                                && scope_matches owner (tracked g t) = true) (od_values (items g)) in
    (matches, foldl (λ g t, upd_object t set_cancelled g) g matches)
  else ([], g).

(** [snapshot] *)
Definition registry_snapshot (g : Registry) : list (string * string * ReqMethod * bool * bool) :=
  map (λ t, let x := tracked g t in
            (request_id x, session_id x, rq_method (tr_request x), tr_queued x, tr_cancelled x))
    (od_values (items g)).

(** ** The invariant

    An entry is filed under its own request's key; entries refer to objects. *)
Record registry_ok (g : Registry) : Prop := mk_registry_ok {
  ro_wf : od_wf (items g);
  ro_key : ∀ k t, od_get (items g) k = Some t →
    ∃ x, objects g !! t = Some x ∧ key_of (tr_request x) = k;
  ro_fresh : ∀ t x, objects g !! t = Some x → t < next_object g;
}.

(** What a method may change of an object: not its request, nor a cancellation. *)
Definition objects_kept (g g' : Registry) : Prop :=
  ∀ t x, objects g !! t = Some x → ∃ x', objects g' !! t = Some x' ∧
    tr_request x' = tr_request x ∧ (tr_cancelled x = true → tr_cancelled x' = true).

#[export] Instance objects_kept_preorder : PreOrder objects_kept.
Proof.
  split; [intros g t x Hx; by exists x|].
  intros g1 g2 g3 H12 H23 t x Hx. destruct (H12 t x Hx) as (x2 & H2 & Hr2 & Hc2).
  destruct (H23 t x2 H2) as (x3 & H3 & Hr3 & Hc3). exists x3. split_and!; [done|congruence|auto].
Qed.

Lemma registry_empty_ok : registry_ok registry_empty.
Proof. split; try done. apply od_wf_nil. Qed.

Lemma upd_object_ok t f g :
  (∀ x, tr_request (f x) = tr_request x ∧ (tr_cancelled x = true → tr_cancelled (f x) = true)) →
  registry_ok g → registry_ok (upd_object t f g) ∧ objects_kept g (upd_object t f g).
Proof.
  intros Hf []. split.
  - split; simpl; [done| |].
    + intros k t' Hk. destruct (ro_key0 k t' Hk) as (x & Hx & Hkx). rewrite lookup_alter.
      case_decide; [subst; rewrite Hx|by eauto]. exists (f x). by rewrite (proj1 (Hf x)).
    + intros t' x. rewrite lookup_alter. case_decide; [subst|by eauto].
      destruct (objects g !! t') eqn:E; [by eauto|done].
  - intros t' x Hx. simpl. rewrite lookup_alter. case_decide; [subst; rewrite Hx|by eauto].
    destruct (Hf x). by exists (f x).
Qed.

Lemma register_spec q queued g :
  registry_ok g →
  let '(o, g') := register q queued g in
  registry_ok g' ∧ objects_kept g g' ∧
  match o with
  | Exc DuplicateRequestError =>
      rq_id q ≠ EmptyString ∧ is_Some (od_get (items g) (key_of q)) ∧ items g' = items g
  | Ret t =>
      objects g !! t = None ∧ objects g' !! t = Some (mk_tracked q queued false) ∧
      (rq_id q = EmptyString → items g' = items g) ∧
      (rq_id q ≠ EmptyString → od_get (items g) (key_of q) = None ∧
         items g' = od_set (items g) (key_of q) t)
  end.
Proof.
  intros []. unfold register. simpl. set (t := next_object g).
  assert (objects g !! t = None) as Hnone.
  { destruct (objects g !! t) as [x|] eqn:E; [|done]. apply ro_fresh0 in E. unfold t in E. lia. }
  set (g1 := mk_registry (items g) _ (S t)).
  assert (registry_ok g1) as H1.
  { split; simpl; [done| |].
    - intros k t' Hk. destruct (ro_key0 k t' Hk) as (x & Hx & Hkx). exists x.
      rewrite lookup_insert_ne by congruence. done.
    - intros t' x. rewrite lookup_insert. case_decide; [subst; lia|]. intros Hx%ro_fresh0. unfold t. lia. }
  assert (objects_kept g g1) as Hk1.
  { intros t' x Hx. exists x. simpl. rewrite lookup_insert_ne by congruence. done. }
  assert (objects g1 !! t = Some (mk_tracked q queued false)) as Ht by apply lookup_insert_eq.
  destruct (str_true (rq_id q)) eqn:Hid.
  - apply str_true_spec in Hid. unfold od_mem.
    destruct (od_get (items g) (key_of q)) as [t'|] eqn:Hm; [by split_and!|].
    split_and!; try done. destruct H1. split; simpl; [by apply od_wf_set| |done].
    intros k t'. rewrite od_get_set. case_decide as Hkq; [|by eauto]. intros [= <-].
    exists (mk_tracked q queued false). split; [done|]. by subst.
  - split_and!; try done. intros Hne. apply str_true_spec in Hne. congruence.
Qed.

Lemma complete_spec rid t g :
  registry_ok g →
  let g' := (complete rid t g).2 in registry_ok g' ∧ objects_kept g g' ∧ objects g' = objects g.
Proof.
  intros Hg. unfold complete. destruct (tracked_or_get rid t g) as [t'|]; [|done].
  case_bool_decide as Hk; [|done]. split_and!; [|intros t2 x Hx; by exists x|done].
  destruct Hg. split; simpl; [by apply od_wf_pop| |done].
  intros k t2. rewrite od_get_pop. case_decide; [done|]. apply ro_key0.
Qed.

(** Completing a registered request removes exactly its entry. *)
Lemma complete_registered q t g :
  (tracked g t).(tr_request) = q →
  items (complete (rq_id q) (Some t) g).2 =
    if bool_decide (od_get (items g) (key_of q) = Some t) then od_pop (items g) (key_of q) else items g.
Proof. intros <-. unfold complete, tracked_or_get, key_of. by case_bool_decide. Qed.

Lemma mark_dispatched_spec rid t g :
  registry_ok g →
  let g' := mark_dispatched rid t g in
  registry_ok g' ∧ objects_kept g g' ∧ items g' = items g.
Proof.
  intros Hg. unfold mark_dispatched. destruct (tracked_or_get rid t g) as [t'|]; [|done].
  destruct (upd_object_ok t' (set_queued false) g) as [H1 H2]; [done|done|]. done.
Qed.

Lemma cancel_spec rid owner g :
  registry_ok g →
  let g' := (cancel rid owner g).2 in registry_ok g' ∧ objects_kept g g' ∧ items g' = items g.
Proof.
  intros Hg. unfold cancel. destruct (get rid owner g) as [t|]; [|done].
  destruct (upd_object_ok t set_cancelled g) as [H1 H2]; [done|done|]. done.
Qed.

Lemma cancel_all_spec ts g :
  registry_ok g →
  let g' := foldl (λ g t, upd_object t set_cancelled g) g ts in
  registry_ok g' ∧ objects_kept g g' ∧ items g' = items g.
Proof.
  revert g. induction ts as [|t ts IH]; intros g Hg; simpl; [done|].
  destruct (upd_object_ok t set_cancelled g) as [H1 H2]; [done|done|].
  destruct (IH _ H1) as (H3 & H4 & H5). split_and!; [done|by etrans|done].
Qed.

Lemma cancel_session_spec sid owner g :
  registry_ok g →
  let g' := (cancel_session sid owner g).2 in registry_ok g' ∧ objects_kept g g' ∧ items g' = items g.
Proof.
  intros Hg. unfold cancel_session. destruct (str_true _); [|done]. simpl. by apply cancel_all_spec.
Qed.
