(* ===== verification/Admission.v ===== *)
(** * Admission of execution requests

    Source: [jiuwenswarm/server/front/admission.py].

    Every request is dispatched by a task of its own.  [Front] is what the tasks
    share - the readiness, the table of requests, the backend and the number of
    waiting requests - with the place each task is at.  Between two awaits that
    can suspend a task is one step; a task can also be aborted at an await: the
    connection's handler cancels its tasks when the Gateway disconnects, and
    sending can raise.  What the tasks send is recorded as the answer they end
    with. *)

From S2P Require Import Prelude OrderedDict Readiness RequestRegistry.

(** ** State *)

(** A backend: whether it accepts requests while warming, and whether it has
    [recover_from_failed]. *)
Record Backend := mk_backend { accepts_warming : bool; can_recover : bool }.

(** How a dispatch ends *)
Inductive answer :=
| Rejected (code : string)
| Handed
| CancelAcknowledged (ids : list string)
| Aborted.

(** Where a dispatch is suspended: awaiting [recover()]; sending the warming frame of a
    request that goes to the backend; in the backend; waiting for readiness in the
    queue; sending the rejection of a cancelled request; in the backend after the queue;
    in the backend with a cancellation. *)
Inductive phase :=
| Recovering (q : Request)
| Announcing (q : Request) (t : tref)
| Direct (q : Request) (t : tref)
| Queued (q : Request) (t : tref)
| RejectingCancelled (q : Request) (t : tref)
| Dispatched (q : Request) (t : tref)
| Forwarding (q : Request)
| Ended (a : answer).

Record Front := mk_front {
  readiness : Readiness;
  registry : Registry;
  backend : option Backend;
  queue_limit : Z;
  waiting : Z;
  tasks : gmap nat phase;
}.

(** [ExecutionAdmission(readiness, queue_limit=...)] *)
Definition front_init (r : Readiness) (limit : Z) : Front :=
  mk_front r registry_empty None limit 0 ∅.

Definition with_readiness (r : Readiness) (f : Front) : Front :=
  mk_front r (registry f) (backend f) (queue_limit f) (waiting f) (tasks f).
Definition with_registry (g : Registry) (f : Front) : Front :=
  mk_front (readiness f) g (backend f) (queue_limit f) (waiting f) (tasks f).
Definition with_backend (b : option Backend) (f : Front) : Front :=
  mk_front (readiness f) (registry f) b (queue_limit f) (waiting f) (tasks f).
Definition with_waiting (n : Z) (f : Front) : Front :=
  mk_front (readiness f) (registry f) (backend f) (queue_limit f) n (tasks f).
Definition set_phase (p : nat) (x : phase) (f : Front) : Front :=
  mk_front (readiness f) (registry f) (backend f) (queue_limit f) (waiting f) (<[p := x]> (tasks f)).

Definition reject (p : nat) (code : string) : Front → Front := set_phase p (Ended (Rejected code)).

(** [attach_backend] and [detach_backend] *)
Definition attach_backend (b : Backend) : Front → Front := with_backend (Some b).
Definition detach_backend : Front → Front := with_backend None.

(** ** Dispatching *)

(** [await self._registry.complete(tracked.request_id, tracked=tracked)] *)
Definition complete_request (q : Request) (t : tref) (f : Front) : Front :=
  with_registry (complete (rq_id q) (Some t) (registry f)).2 f.

Definition agent_ready (f : Front) : bool := agent_states (rd_state (readiness f)).

(** [dispatch] from the backend test to the next await *)
Definition admit_request (p : nat) (q : Request) (f : Front) : Front :=
  if match backend f with Some b => agent_ready f || accepts_warming b | None => false end then
    match register q false (registry f) with
    | (Exc DuplicateRequestError, g) => reject p "DUPLICATE_REQUEST" (with_registry g f)
    | (Ret t, g) =>
        set_phase p (if negb (agent_ready f) && rq_stream q then Announcing q t else Direct q t)
          (with_registry g f)
    end
  else if Z.leb (queue_limit f) (waiting f) then reject p "RUNTIME_QUEUE_FULL" f
  else
    match register q true (registry f) with
    | (Exc DuplicateRequestError, g) => reject p "DUPLICATE_REQUEST" (with_registry g f)
    | (Ret t, g) => set_phase p (Queued q t) (with_waiting (waiting f + 1) (with_registry g f))
    end.

(** [_dispatch_cancel] up to the next await *)
Definition dispatch_cancel (p : nat) (q : Request) (f : Front) : Front :=
  let sid := py_strip (rq_session q) in
  let target := rq_target q in
  let '(cancelled, g) :=
    if str_true sid && negb (str_true target) then cancel_session sid (Some q) (registry f)
    else ([], registry f) in
  let '(cancelled, g) :=
    if str_true target then
      match cancel target (Some q) g with
      | (Some t, g) => (if bool_decide (t ∈ cancelled) then cancelled else cancelled ++ [t], g)
      | (None, g) => (cancelled, g)
      end
    else (cancelled, g) in
  let f := with_registry g f in
  match backend f with
  | Some _ => set_phase p (Forwarding q) f
  | None =>
      match cancelled with
      | [] => reject p "RUNTIME_WARMING" f
      | _ => set_phase p (Ended (CancelAcknowledged (map (λ t, request_id (tracked g t)) cancelled))) f
      end
  end.

(** [_try_recover_after_failed]: whether [recover()] is awaited *)
Definition tries_recovery (q : Request) (f : Front) : bool :=
  bool_decide (rq_method q = AGENT_RELOAD_CONFIG)
  && match backend f with Some b => can_recover b | None => false end.

(** [dispatch] up to its first await *)
Definition dispatch (p : nat) (q : Request) (f : Front) : Front :=
  if bool_decide (rq_method q = CHAT_CANCEL) then dispatch_cancel p q f
  else match rd_state (readiness f) with
       | DRAINING => reject p "RUNTIME_DRAINING" f
       | READINESS_FAILED =>
           if tries_recovery q f then set_phase p (Recovering q) f else reject p "RUNTIME_FAILED" f
       | _ => admit_request p q f
       end.

(** [dispatch] after [recover()] *)
Definition recovered (p : nat) (ok : bool) (q : Request) (f : Front) : Front :=
  if ok then admit_request p q f else reject p "RUNTIME_FAILED" f.

(** [dispatch] after the wait in the queue, which found the request [ready] unless it is
    cancelled *)
Definition wait_over (p : nat) (ready : bool) (q : Request) (t : tref) (f : Front) : Front :=
  let f := with_waiting (waiting f - 1) f in
  if tr_cancelled (tracked (registry f) t) then set_phase p (RejectingCancelled q t) f
  else match rd_state (readiness f) with
       | DRAINING => reject p "RUNTIME_DRAINING" (complete_request q t f)
       | READINESS_FAILED => reject p "RUNTIME_FAILED" (complete_request q t f)
       | _ =>
           if negb ready || match backend f with None => true | Some _ => false end
           then reject p "RUNTIME_WARMING" (complete_request q t f)
           else set_phase p (Dispatched q t)
                  (with_registry (mark_dispatched (rq_id q) (Some t) (registry f)) f)
       end.

(** A task goes on after its await: the result of [recover()] or of the wait, where it has
    one, is [ok]. *)
Definition resume (p : nat) (ok : bool) (f : Front) : Front :=
  match tasks f !! p with
  | Some (Recovering q) => recovered p ok q f
  | Some (Announcing q t) => set_phase p (Direct q t) f
  | Some (Direct q t) => set_phase p (Ended Handed) (complete_request q t f)
  | Some (Queued q t) => wait_over p ok q t f
  | Some (RejectingCancelled q t) =>
      set_phase p (Ended (Rejected "REQUEST_CANCELLED")) (complete_request q t f)
  | Some (Dispatched q t) => set_phase p (Ended Handed) (complete_request q t f)
  | Some (Forwarding q) => set_phase p (Ended Handed) f
  | Some (Ended _) | None => f
  end.

(** An exception at the await: only the [finally] blocks run. *)
Definition abort (p : nat) (f : Front) : Front :=
  match tasks f !! p with
  | Some (Direct q t) | Some (Dispatched q t) => set_phase p (Ended Aborted) (complete_request q t f)
  | Some (Queued q t) => set_phase p (Ended Aborted) (with_waiting (waiting f - 1) f)
  | Some (Ended _) | None => f
  | Some _ => set_phase p (Ended Aborted) f
  end.

(** ** The front as a transition system *)

Inductive front_step (f : Front) : Front → Prop :=
| fs_dispatch p q : tasks f !! p = None → front_step f (dispatch p q f)
| fs_resume p ok : front_step f (resume p ok f)
| fs_readiness o : front_step f (with_readiness (run_op o (readiness f)) f)
| fs_attach b : front_step f (attach_backend b f)
| fs_detach : front_step f (detach_backend f).

(** With tasks that are aborted *)
Inductive front_step_abort (f : Front) : Front → Prop :=
| fa_step f' : front_step f f' → front_step_abort f f'
| fa_abort p : front_step_abort f (abort p f).

(** ** Invariants *)

Definition is_queued (x : phase) : bool := match x with Queued _ _ => true | _ => false end.

(** The request a task has registered *)
Definition owns (x : phase) : option (Request * tref) :=
  match x with
  | Announcing q t | Direct q t | Queued q t | RejectingCancelled q t | Dispatched q t => Some (q, t)
  | Recovering _ | Forwarding _ | Ended _ => None
  end.

Definition queued_count (m : gmap nat phase) : nat :=
  size (filter (λ kv : nat * phase, is_queued kv.2 = true) m).

Record front_ok (f : Front) : Prop := mk_front_ok {
  fo_registry : registry_ok (registry f);
  fo_waiting : waiting f = Z.of_nat (queued_count (tasks f));
  fo_limit : (waiting f ≤ Z.max 0 (queue_limit f))%Z;
  fo_owns : ∀ p x q t, tasks f !! p = Some x → owns x = Some (q, t) →
    (∃ o, objects (registry f) !! t = Some o ∧ tr_request o = q) ∧
    (rq_id q ≠ EmptyString → od_get (items (registry f)) (key_of q) = Some t);
  fo_owner : ∀ p p' x x' q q' t, tasks f !! p = Some x → tasks f !! p' = Some x' →
    owns x = Some (q, t) → owns x' = Some (q', t) → p = p';
}.

(** Every registration belongs to a task. *)
Definition no_orphans (f : Front) : Prop :=
  ∀ k t, od_get (items (registry f)) k = Some t →
    ∃ p x q, tasks f !! p = Some x ∧ owns x = Some (q, t).

(** ** Counting the queued tasks *)

Lemma queued_count_insert m p x :
  queued_count (<[p := x]> m) = queued_count (delete p m) + Nat.b2n (is_queued x).
Proof.
  unfold queued_count. rewrite <-insert_delete_eq. destruct (is_queued x) eqn:Hx; simpl.
  - rewrite map_filter_insert_True by done. rewrite map_size_insert_None; [lia|].
    apply map_lookup_filter_None. left. apply lookup_delete_eq.
  - rewrite map_filter_insert_False by (simpl; congruence). by rewrite delete_delete_eq, Nat.add_0_r.
Qed.

Definition queued_at (o : option phase) : bool := match o with Some x => is_queued x | None => false end.

Lemma queued_count_set m p x :
  queued_count (<[p := x]> m) + Nat.b2n (queued_at (m !! p)) = queued_count m + Nat.b2n (is_queued x).
Proof.
  rewrite queued_count_insert. destruct (m !! p) as [y|] eqn:Hp; simpl.
  - rewrite <-(insert_id m p y Hp) at 2. rewrite queued_count_insert. lia.
  - rewrite delete_id by done. lia.
Qed.

(** ** One task moves *)

(** What other tasks need of a new registry [g] *)
Definition others_kept (p : nat) (f : Front) (g : Registry) : Prop :=
  registry_ok g ∧ objects_kept (registry f) g ∧
  ∀ p' x' q t, p' ≠ p → tasks f !! p' = Some x' → owns x' = Some (q, t) → rq_id q ≠ EmptyString →
    od_get (items g) (key_of q) = Some t.

(** What the task itself has of it *)
Definition own_kept (p : nat) (x : phase) (f : Front) (g : Registry) : Prop :=
  ∀ q t, owns x = Some (q, t) →
    (∃ o, objects g !! t = Some o ∧ tr_request o = q) ∧
    (rq_id q ≠ EmptyString → od_get (items g) (key_of q) = Some t) ∧
    ∀ p' x' q', p' ≠ p → tasks f !! p' = Some x' → owns x' ≠ Some (q', t).

Lemma front_ok_move p x n g f :
  front_ok f → others_kept p f g → own_kept p x f g →
  (n + Z.b2z (queued_at (tasks f !! p)) = waiting f + Z.b2z (is_queued x))%Z →
  (n ≤ Z.max 0 (queue_limit f))%Z →
  front_ok (set_phase p x (with_waiting n (with_registry g f))).
Proof.
  intros [] (Hg & Hk & Hoth) Hown Hn Hlim. split; simpl; [done| |done| |].
  - pose proof (queued_count_set (tasks f) p x) as Hc.
    destruct (queued_at (tasks f !! p)), (is_queued x); simpl in *; lia.
  - intros p' x' q t. rewrite lookup_insert. case_decide as Hp.
    + intros [= <-] Ho. destruct (Hown q t Ho) as (H1 & H2 & _). by split.
    + intros Hx' Ho. destruct (fo_owns0 p' x' q t Hx' Ho) as [(o & Hobj & Hq) Hi].
      destruct (Hk t o Hobj) as (o' & Hobj' & Hq' & _). split; [exists o'; by rewrite Hq'|].
      intros Hne. by eapply (Hoth p').
  - intros p1 p2 x1 x2 q1 q2 t. rewrite !lookup_insert. repeat case_decide; subst.
    + done.
    + intros [= <-] Hx2 Ho1 Ho2. destruct (Hown q1 t Ho1) as (_ & _ & Hno). by destruct (Hno p2 x2 q2).
    + intros Hx1 [= <-] Ho1 Ho2. destruct (Hown q2 t Ho2) as (_ & _ & Hno). by destruct (Hno p1 x1 q1).
    + by apply fo_owner0.
Qed.

Lemma others_kept_same p f g :
  front_ok f → registry_ok g ∧ objects_kept (registry f) g ∧ items g = items (registry f) →
  others_kept p f g.
Proof.
  intros [] (H1 & H2 & H3). split_and!; [done|done|]. intros p' x' q t _ Hx Ho Hne. rewrite H3.
  by apply (fo_owns0 p' x' q t).
Qed.

Lemma others_kept_complete p x q t f :
  front_ok f → tasks f !! p = Some x → owns x = Some (q, t) →
  others_kept p f (complete (rq_id q) (Some t) (registry f)).2.
Proof.
  intros Hf Hx Ho. destruct (complete_spec (rq_id q) (Some t) (registry f) (fo_registry _ Hf))
    as (H1 & H2 & _). split_and!; [done|done|].
  destruct (fo_owns _ Hf p x q t Hx Ho) as [(o & Hobj & Hq) _].
  assert (tr_request (tracked (registry f) t) = q) as Htq by (unfold tracked; by rewrite Hobj).
  intros p' x' q' t' Hp' Hx' Ho' Hne. rewrite (complete_registered q t (registry f) Htq).
  destruct (fo_owns _ Hf p' x' q' t' Hx' Ho') as [_ Hi]. specialize (Hi Hne).
  case_bool_decide as Hk; [|done]. rewrite od_get_pop_ne; [done|].
  intros Heq. rewrite Heq in Hk. assert (t' = t) as -> by congruence.
  apply Hp'. by eapply (fo_owner _ Hf).
Qed.

Lemma others_kept_register p q b f t g :
  front_ok f → register q b (registry f) = (Ret t, g) →
  others_kept p f g ∧ objects g !! t = Some (mk_tracked q b false) ∧
  (rq_id q ≠ EmptyString → od_get (items g) (key_of q) = Some t) ∧
  ∀ p' x' q', tasks f !! p' = Some x' → owns x' ≠ Some (q', t).
Proof.
  intros Hf Hr. pose proof (register_spec q b (registry f) (fo_registry _ Hf)) as Hs. rewrite Hr in Hs.
  destruct Hs as (H1 & H2 & Hnone & Hobj & Hempty & Hfull). split_and!; [|done| |].
  - split_and!; [done|done|]. intros p' x' q' t' _ Hx' Ho' Hne.
    destruct (fo_owns _ Hf p' x' q' t' Hx' Ho') as [_ Hi]. specialize (Hi Hne).
    destruct (decide (rq_id q = EmptyString)) as [He|He]; [by rewrite Hempty|].
    destruct (Hfull He) as [Hn ->]. rewrite od_get_set_ne by congruence. done.
  - intros Hne. destruct (Hfull Hne) as [_ ->]. apply od_get_set_eq.
  - intros p' x' q' Hx' Ho'. destruct (fo_owns _ Hf p' x' q' t Hx' Ho') as [(o & Ho & _) _]. congruence.
Qed.

Lemma own_none p x f g : owns x = None → own_kept p x f g.
Proof. intros Hx q t. by rewrite Hx. Qed.

Lemma own_same p x q t f g :
  front_ok f → objects_kept (registry f) g → items g = items (registry f) →
  (∃ y, tasks f !! p = Some y ∧ owns y = Some (q, t)) → owns x = Some (q, t) → own_kept p x f g.
Proof.
  intros Hf Hk Hi (y & Hy & Ho) Hx q' t' Hx'. rewrite Hx in Hx'. injection Hx' as <- <-.
  destruct (fo_owns _ Hf p y q t Hy Ho) as [(o & Hobj & Hq) Hit].
  destruct (Hk t o Hobj) as (o' & Hobj' & Hq' & _). split_and!.
  - exists o'. by rewrite Hq'.
  - by rewrite Hi.
  - intros p' x' q' Hp' Hx2 Ho2. apply Hp'. by eapply (fo_owner _ Hf).
Qed.

(** Some other task keeps what [no_orphans] asks for. *)
Definition still_owned (p : nat) (x : phase) (f : Front) (g : Registry) : Prop :=
  ∀ k t, od_get (items g) k = Some t →
    (∃ q, owns x = Some (q, t)) ∨
    (od_get (items (registry f)) k = Some t ∧
     ∀ y q, tasks f !! p = Some y → owns y ≠ Some (q, t)).

Lemma no_orphans_move p x n g f :
  no_orphans f → still_owned p x f g → no_orphans (set_phase p x (with_waiting n (with_registry g f))).
Proof.
  intros Hf Hs k t Hk. simpl in Hk. destruct (Hs k t Hk) as [[q Hq]|[Hold Hno]].
  - exists p, x, q. split; [apply lookup_insert_eq|done].
  - destruct (Hf k t Hold) as (p' & x' & q & Hx' & Ho). exists p', x', q. split; [|done].
    simpl. rewrite lookup_insert_ne; [done|]. intros ->. by apply (Hno x' q).
Qed.

Lemma still_owned_complete p x y q t f :
  front_ok f → tasks f !! p = Some y → owns y = Some (q, t) →
  still_owned p x f (complete (rq_id q) (Some t) (registry f)).2.
Proof.
  intros Hf Hy Ho k t' Hk. right.
  destruct (fo_owns _ Hf p y q t Hy Ho) as [(o & Hobj & Hq) _].
  assert (tr_request (tracked (registry f) t) = q) as Htq by (unfold tracked; by rewrite Hobj).
  rewrite (complete_registered q t (registry f) Htq) in Hk.
  assert (od_get (items (registry f)) k = Some t' ∧ t' ≠ t) as [Hk' Hne].
  { assert (∀ k, od_get (items (registry f)) k = Some t → k = key_of q) as Hkey.
    { intros k' Hk'. destruct (ro_key _ (fo_registry _ Hf) k' t Hk') as (o' & Ho' & <-). congruence. }
    case_bool_decide as Hd.
    - rewrite od_get_pop in Hk. case_decide as Hkq; [done|]. split; [done|].
      intros ->. apply Hkq. symmetry. by apply Hkey.
    - split; [done|]. intros ->. apply Hd. by rewrite <-(Hkey k Hk). }
  split; [done|]. intros y' q' Hy' Ho'. congruence.
Qed.

Lemma still_owned_same p x f g :
  items g = items (registry f) →
  (∀ y q t, tasks f !! p = Some y → owns y = Some (q, t) → owns x = Some (q, t)) →
  still_owned p x f g.
Proof.
  intros Hi Hkeep k t Hk. rewrite Hi in Hk.
  destruct (tasks f !! p) as [y|] eqn:Hy; [|by right].
  destruct (owns y) as [[q t']|] eqn:Ho.
  - destruct (decide (t' = t)) as [->|Hne]; [left; exists q; by eapply Hkeep|].
    right. split; [done|]. intros y' q' [= <-]. congruence.
  - right. split; [done|]. intros y' q' [= <-]. congruence.
Qed.

Lemma still_owned_register p x q b t g f :
  front_ok f → register q b (registry f) = (Ret t, g) → owns x = Some (q, t) →
  (∀ y, tasks f !! p = Some y → owns y = None) → still_owned p x f g.
Proof.
  intros Hf Hr Hx Hp k t' Hk. pose proof (register_spec q b (registry f) (fo_registry _ Hf)) as Hs.
  rewrite Hr in Hs. destruct Hs as (_ & _ & _ & _ & Hempty & Hfull).
  assert (t' = t ∨ od_get (items (registry f)) k = Some t') as [->|Hold].
  { destruct (decide (rq_id q = EmptyString)) as [He|He]; [right; by rewrite <-Hempty|].
    destruct (Hfull He) as [_ Hi]. rewrite Hi, od_get_set in Hk. case_decide; [left; congruence|by right]. }
  - left. by exists q.
  - right. split; [done|]. intros y q' Hy. by rewrite (Hp y Hy).
Qed.

(** A registration that belongs to no task *)
Definition orphan (k : scope_key) (t : tref) (f : Front) : Prop :=
  od_get (items (registry f)) k = Some t ∧ is_Some (objects (registry f) !! t) ∧
  ∀ p x q, tasks f !! p = Some x → owns x ≠ Some (q, t).

(** The move of a task leaves the orphans alone. *)
Definition orphans_kept (x : phase) (f : Front) (g : Registry) : Prop :=
  ∀ k t, orphan k t f → od_get (items g) k = Some t ∧ ∀ q, owns x ≠ Some (q, t).

Lemma orphan_move p x n g f k t :
  orphan k t f → objects_kept (registry f) g → orphans_kept x f g →
  orphan k t (set_phase p x (with_waiting n (with_registry g f))).
Proof.
  intros Ho Hk Hx. destruct (Hx k t Ho) as [Hg Hown]. destruct Ho as (_ & [o Hobj] & Hno).
  split; [done|]. split; [destruct (Hk t o Hobj) as (o' & Ho' & _); by exists o'|].
  intros p' x' q. simpl. rewrite lookup_insert. case_decide; [intros [= <-]; apply Hown|by apply Hno].
Qed.

Lemma orphans_kept_same x f g :
  items g = items (registry f) → (∀ q t, owns x = Some (q, t) → ∃ p y, tasks f !! p = Some y ∧ owns y = Some (q, t)) →
  orphans_kept x f g.
Proof.
  intros Hi Hx k t (H1 & _ & Hno). split; [by rewrite Hi|].
  intros q Hq. destruct (Hx q t Hq) as (p & y & Hy & Hyo). by apply (Hno p y q).
Qed.

Lemma orphans_kept_complete p x y q t f :
  front_ok f → tasks f !! p = Some y → owns y = Some (q, t) → owns x = None →
  orphans_kept x f (complete (rq_id q) (Some t) (registry f)).2.
Proof.
  intros Hf Hy Ho Hx k t' (H1 & _ & Hno). split; [|by rewrite Hx].
  destruct (fo_owns _ Hf p y q t Hy Ho) as [(o & Hobj & Hq) _].
  assert (tr_request (tracked (registry f) t) = q) as Htq by (unfold tracked; by rewrite Hobj).
  rewrite (complete_registered q t (registry f) Htq). case_bool_decide as Hk; [|done].
  rewrite od_get_pop_ne; [done|]. intros Heq. rewrite Heq in Hk.
  assert (t' = t) as -> by congruence. by apply (Hno p y q).
Qed.

Lemma orphans_kept_register x q b t g f :
  front_ok f → register q b (registry f) = (Ret t, g) → owns x = Some (q, t) → orphans_kept x f g.
Proof.
  intros Hf Hr Hx k t' (H1 & [o Hobj] & _).
  pose proof (register_spec q b (registry f) (fo_registry _ Hf)) as Hs.
  rewrite Hr in Hs. destruct Hs as (_ & _ & Hnone & _ & Hempty & Hfull).
  split; [|intros q' Hq'; congruence].
  destruct (decide (rq_id q = EmptyString)) as [He|He]; [by rewrite Hempty|].
  destruct (Hfull He) as [Hn ->]. rewrite od_get_set_ne by congruence. done.
Qed.

(** ** Every step keeps the invariants *)

(** The invariants, the second as long as no task is aborted, and the orphans *)
Definition kept (f f' : Front) : Prop :=
  front_ok f' ∧ (no_orphans f → no_orphans f') ∧ ∀ k t, orphan k t f → orphan k t f'.

Lemma kept_reject_same p code g f :
  front_ok f → registry_ok g ∧ objects_kept (registry f) g ∧ items g = items (registry f) →
  (∀ y, tasks f !! p = Some y → owns y = None) → queued_at (tasks f !! p) = false →
  kept f (reject p code (with_registry g f)).
Proof.
  intros Hf Hg Hp Hq. pose proof (fo_limit f Hf) as Hl. split; [|split].
  - apply (front_ok_move p (Ended (Rejected code)) (waiting f) g f); [done|by apply others_kept_same|
      by apply own_none|by rewrite Hq|done].
  - intros Hno. apply (no_orphans_move p (Ended (Rejected code)) (waiting f) g f); [done|].
    apply still_owned_same; [apply Hg|]. intros y q t Hy. by rewrite (Hp y Hy).
  - intros k t Ho. apply (orphan_move p (Ended (Rejected code)) (waiting f) g f); [done|apply Hg|].
    by apply orphans_kept_same; [apply Hg|].
Qed.

Lemma kept_admit p q f :
  front_ok f → (∀ y, tasks f !! p = Some y → owns y = None) → queued_at (tasks f !! p) = false →
  kept f (admit_request p q f).
Proof.
  intros Hf Hp Hq. pose proof (fo_limit f Hf) as Hlim. unfold admit_request.
  match goal with |- kept f (if ?c then _ else _) => destruct c end.
  - pose proof (register_spec q false (registry f) (fo_registry _ Hf)) as Hs.
    destruct (register q false (registry f)) as [[t|[]] g] eqn:Hr.
    + destruct (others_kept_register p q false f t g Hf Hr) as (H1 & H2 & H3 & H4).
      set (x := if negb (agent_ready f) && rq_stream q then Announcing q t else Direct q t).
      assert (owns x = Some (q, t) ∧ is_queued x = false) as [Hx Hxq] by (unfold x; by case_match).
      split; [|split].
      * apply (front_ok_move p x (waiting f) g f); [done|done| |by rewrite Hq, Hxq|done].
        intros q' t' Ho. rewrite Hx in Ho. injection Ho as <- <-.
        split_and!; [by eexists|done|]. intros p' x' q' _. apply H4.
      * intros Hno. apply (no_orphans_move p x (waiting f) g f); [done|]. by eapply still_owned_register.
      * intros k t' Ho. apply (orphan_move p x (waiting f) g f); [done|apply Hs|].
        by eapply orphans_kept_register.
    + apply kept_reject_same; try done. destruct Hs as (? & ? & _ & _ & ?). by split_and!.
  - destruct (Z.leb_spec (queue_limit f) (waiting f)) as [Hl|Hl].
    { apply (kept_reject_same p "RUNTIME_QUEUE_FULL" (registry f) f); [done| |done|done].
      split; [exact (fo_registry f Hf)|done]. }
    pose proof (register_spec q true (registry f) (fo_registry _ Hf)) as Hs.
    destruct (register q true (registry f)) as [[t|[]] g] eqn:Hr.
    + destruct (others_kept_register p q true f t g Hf Hr) as (H1 & H2 & H3 & H4). split; [|split].
      * apply (front_ok_move p (Queued q t) (waiting f + 1) g f); [done|done| |rewrite Hq; simpl; lia|lia].
        intros q' t' [= <- <-]. split_and!; [by eexists|done|]. intros p' x' q' _. apply H4.
      * intros Hno. apply (no_orphans_move p (Queued q t) (waiting f + 1) g f); [done|].
        by eapply still_owned_register.
      * intros k t' Ho. apply (orphan_move p (Queued q t) (waiting f + 1) g f); [done|apply Hs|].
        by eapply orphans_kept_register.
    + apply kept_reject_same; try done. destruct Hs as (? & ? & _ & _ & ?). by split_and!.
Qed.

Lemma kept_complete p x y q t n f :
  front_ok f → tasks f !! p = Some y → owns y = Some (q, t) → owns x = None →
  (n + Z.b2z (queued_at (tasks f !! p)) = waiting f + Z.b2z (is_queued x))%Z →
  (n ≤ Z.max 0 (queue_limit f))%Z →
  kept f (set_phase p x (with_waiting n (complete_request q t f))).
Proof.
  intros Hf Hy Ho Hx Hn Hl. set (g := (complete (rq_id q) (Some t) (registry f)).2). split; [|split].
  - apply (front_ok_move p x n g f); [done|by eapply others_kept_complete|by apply own_none|done|done].
  - intros Hno. apply (no_orphans_move p x n g f); [done|]. by eapply still_owned_complete.
  - intros k t' Ht'. apply (orphan_move p x n g f); [done| |by eapply orphans_kept_complete].
    apply (complete_spec (rq_id q) (Some t)), fo_registry, Hf.
Qed.

(** A task moves on with what it owns. *)
Lemma kept_own p x y q t n g f :
  front_ok f → tasks f !! p = Some y → owns y = Some (q, t) → owns x = Some (q, t) →
  registry_ok g ∧ objects_kept (registry f) g ∧ items g = items (registry f) →
  (n + Z.b2z (queued_at (tasks f !! p)) = waiting f + Z.b2z (is_queued x))%Z →
  (n ≤ Z.max 0 (queue_limit f))%Z →
  kept f (set_phase p x (with_waiting n (with_registry g f))).
Proof.
  intros Hf Hy Ho Hx Hg Hn Hl. split; [|split].
  - apply front_ok_move; [done|by apply others_kept_same| |done|done].
    destruct Hg as (_ & ? & ?). by eapply own_same; eauto.
  - intros Hno. apply no_orphans_move; [done|]. apply still_owned_same; [apply Hg|].
    intros y' q' t' Hy' Ho'. congruence.
  - intros k t' Ht'. apply orphan_move; [done|apply Hg|]. apply orphans_kept_same; [apply Hg|].
    intros q' t2 Hq'. exists p, y. split; [done|congruence].
Qed.

Lemma limit_pred f : front_ok f → (waiting f - 1 ≤ Z.max 0 (queue_limit f))%Z.
Proof. intros []. lia. Qed.

Lemma kept_wait_over p ready q t f :
  front_ok f → tasks f !! p = Some (Queued q t) → kept f (wait_over p ready q t f).
Proof.
  intros Hf Hy. pose proof (limit_pred f Hf) as Hl. unfold wait_over.
  assert (∀ x, is_queued x = false →
    (waiting f - 1 + Z.b2z (queued_at (tasks f !! p)) = waiting f + Z.b2z (is_queued x))%Z) as Hn
    by (intros x ->; rewrite Hy; simpl; lia).
  set (f1 := with_waiting _ f).
  assert (∀ code, kept f (reject p code (complete_request q t f1))) as Hrej.
  { intros code. apply (kept_complete p (Ended (Rejected code)) (Queued q t) q t (waiting f - 1) f);
      try done. by apply Hn. }
  destruct (tr_cancelled _).
  { apply (kept_own p (RejectingCancelled q t) (Queued q t) q t (waiting f - 1) (registry f) f);
      try done; [|by apply Hn]. split; [exact (fo_registry f Hf)|done]. }
  destruct (rd_state (readiness f1)); try apply Hrej; (case_match; [apply Hrej|]);
    apply (kept_own p (Dispatched q t) (Queued q t) q t (waiting f - 1)
      (mark_dispatched (rq_id q) (Some t) (registry f)) f); try done;
    try (by apply Hn); apply mark_dispatched_spec, fo_registry, Hf.
Qed.

Lemma kept_resume p ok f : front_ok f → kept f (resume p ok f).
Proof.
  intros Hf. pose proof (fo_limit _ Hf) as Hl. unfold resume.
  destruct (tasks f !! p) as [[q|q t|q t|q t|q t|q t|q|a]|] eqn:Hy; try (by split_and!).
  - unfold recovered. destruct ok; [apply kept_admit; [done|by intros y Hy'; simplify_eq/=|by rewrite Hy]|].
    apply (kept_reject_same p "RUNTIME_FAILED" (registry f) f); [done| | |by rewrite Hy].
    + split; [exact (fo_registry f Hf)|done].
    + intros y Hy'. by simplify_eq/=.
  - apply (kept_own p (Direct q t) (Announcing q t) q t (waiting f) (registry f) f);
      try done; [|by rewrite Hy]. split; [exact (fo_registry f Hf)|done].
  - apply (kept_complete p (Ended Handed) (Direct q t) q t (waiting f) f); try done. by rewrite Hy.
  - by apply kept_wait_over.
  - apply (kept_complete p (Ended (Rejected "REQUEST_CANCELLED")) (RejectingCancelled q t) q t
      (waiting f) f); try done. by rewrite Hy.
  - apply (kept_complete p (Ended Handed) (Dispatched q t) q t (waiting f) f); try done. by rewrite Hy.
  - split; [|split].
    + apply (front_ok_move p (Ended Handed) (waiting f) (registry f) f);
        [done| |by apply own_none|by rewrite Hy|done].
      apply others_kept_same; [done|]. split; [exact (fo_registry f Hf)|done].
    + intros Hno. apply (no_orphans_move p (Ended Handed) (waiting f) (registry f) f); [done|].
      apply still_owned_same; [done|]. intros y q' t' Hy'. by simplify_eq/=.
    + intros k t' Ht'. apply (orphan_move p (Ended Handed) (waiting f) (registry f) f); [done|done|].
      by apply orphans_kept_same.
Qed.

Lemma kept_set_phase_none p x g f :
  front_ok f → tasks f !! p = None → owns x = None → is_queued x = false →
  registry_ok g ∧ objects_kept (registry f) g ∧ items g = items (registry f) →
  kept f (set_phase p x (with_registry g f)).
Proof.
  intros Hf Hp Hx Hxq Hg. pose proof (fo_limit f Hf) as Hlim. split; [|split].
  - apply (front_ok_move p x (waiting f) g f); [done|by apply others_kept_same|by apply own_none|
      by rewrite Hp, Hxq|done].
  - intros Hno. apply (no_orphans_move p x (waiting f) g f); [done|].
    apply still_owned_same; [apply Hg|]. intros y q t Hy. congruence.
  - intros k t Ht. apply (orphan_move p x (waiting f) g f); [done|apply Hg|].
    apply orphans_kept_same; [apply Hg|]. intros q t'. by rewrite Hx.
Qed.

Lemma kept_dispatch_cancel p q f :
  front_ok f → tasks f !! p = None → kept f (dispatch_cancel p q f).
Proof.
  intros Hf Hp. unfold dispatch_cancel.
  set (c1 := if _ && _ then _ else _).
  assert (registry_ok c1.2 ∧ objects_kept (registry f) c1.2 ∧ items c1.2 = items (registry f)) as H1.
  { unfold c1. case_match; [apply cancel_session_spec, fo_registry, Hf|].
    split; [exact (fo_registry f Hf)|done]. }
  destruct c1 as [cs1 g1]. simpl in H1. set (c2 := if str_true _ then _ else _).
  assert (registry_ok c2.2 ∧ objects_kept (registry f) c2.2 ∧ items c2.2 = items (registry f)) as H2.
  { unfold c2. case_match; [|done]. destruct H1 as (A1 & A2 & A3).
    pose proof (cancel_spec (rq_target q) (Some q) g1 A1) as Hcs.
    destruct (cancel (rq_target q) (Some q) g1) as [[t|] g2]; simpl in *;
      destruct Hcs as (B1 & B2 & B3); (split_and!; [done|by etrans|congruence]). }
  destruct c2 as [cs2 g2]. simpl in H2.
  repeat case_match; (apply (kept_set_phase_none p _ g2 f); done).
Qed.

Lemma kept_dispatch p q f : front_ok f → tasks f !! p = None → kept f (dispatch p q f).
Proof.
  intros Hf Hp. unfold dispatch. case_bool_decide; [by apply kept_dispatch_cancel|].
  assert (registry_ok (registry f) ∧ objects_kept (registry f) (registry f) ∧
    items (registry f) = items (registry f)) as Hsame by (split; [exact (fo_registry f Hf)|done]).
  assert (kept f (admit_request p q f)) as Ha
    by (apply kept_admit; [done|by intros y Hy; congruence|by rewrite Hp]).
  destruct (rd_state (readiness f)); try exact Ha.
  - by apply (kept_set_phase_none p (Ended (Rejected "RUNTIME_DRAINING")) (registry f) f).
  - case_match; [by apply (kept_set_phase_none p (Recovering q) (registry f) f)|].
    by apply (kept_set_phase_none p (Ended (Rejected "RUNTIME_FAILED")) (registry f) f).
Qed.

Lemma front_step_kept f f' : front_ok f → front_step f f' → kept f f'.
Proof.
  intros Hf []; [by apply kept_dispatch|by apply kept_resume|..]; (split; [by destruct Hf|by split]).
Qed.

Lemma abort_ok p f : front_ok f → front_ok (abort p f).
Proof.
  intros Hf. pose proof (fo_limit _ Hf) as Hl. pose proof (limit_pred f Hf) as Hl'. unfold abort.
  assert (registry_ok (registry f) ∧ objects_kept (registry f) (registry f) ∧
    items (registry f) = items (registry f)) as Hsame by (split; [exact (fo_registry f Hf)|done]).
  destruct (tasks f !! p) as [[q|q t|q t|q t|q t|q t|q|a]|] eqn:Hy; try done.
  3: apply (kept_complete p (Ended Aborted) (Direct q t) q t (waiting f) f); try done; by rewrite Hy.
  3: apply (front_ok_move p (Ended Aborted) (waiting f - 1) (registry f) f);
    [done|by apply others_kept_same|by apply own_none|rewrite Hy; simpl; lia|done].
  4: apply (kept_complete p (Ended Aborted) (Dispatched q t) q t (waiting f) f); try done; by rewrite Hy.
  all: apply (front_ok_move p (Ended Aborted) (waiting f) (registry f) f);
    [done|by apply others_kept_same|by apply own_none|by rewrite Hy|done].
Qed.

Lemma front_init_ok r limit : front_ok (front_init r limit) ∧ no_orphans (front_init r limit).
Proof.
  split; [|done]. split; simpl; [apply registry_empty_ok|done|lia|done|done].
Qed.

Lemma front_steps_kept f f' : rtc front_step f f' → front_ok f → kept f f'.
Proof.
  induction 1 as [f|f f1 f' H1 _ IH]; intros Hf; [by split_and!|].
  destruct (front_step_kept _ _ Hf H1) as (H2 & Hno & Ho). destruct (IH H2) as (H3 & Hno2 & Ho2).
  split_and!; by auto.
Qed.

Lemma front_steps_abort_ok f f' : rtc front_step_abort f f' → front_ok f → front_ok f'.
Proof.
  induction 1 as [f|f f1 f' H1 _ IH]; intros Hf; [done|]. apply IH.
  destruct H1 as [f1 H1|p]; [by apply (front_step_kept f)|by apply abort_ok].
Qed.

(** ** What aborting leaves behind *)

Lemma orphan_set_ended p n k t f :
  orphan k t f → orphan k t (set_phase p (Ended Aborted) (with_waiting n f)).
Proof.
  intros Ho. apply (orphan_move p (Ended Aborted) n (registry f) f); [done|done|].
  by apply orphans_kept_same.
Qed.

Lemma abort_orphan p k t f : front_ok f → orphan k t f → orphan k t (abort p f).
Proof.
  intros Hf Ho. unfold abort.
  destruct (tasks f !! p) as [[q|q t'|q t'|q t'|q t'|q t'|q|a]|] eqn:Hy; try done;
    try (by apply (orphan_set_ended p (waiting f))).
  - apply (kept_complete p (Ended Aborted) (Direct q t') q t' (waiting f) f); try done;
      [by rewrite Hy|by apply fo_limit].
  - apply (kept_complete p (Ended Aborted) (Dispatched q t') q t' (waiting f) f); try done;
      [by rewrite Hy|by apply fo_limit].
Qed.

Lemma steps_orphan f f' k t : rtc front_step_abort f f' → front_ok f → orphan k t f → orphan k t f'.
Proof.
  induction 1 as [f|f f1 f' H1 _ IH]; intros Hf Ho; [done|].
  destruct H1 as [f1 H1|p].
  - destruct (front_step_kept _ _ Hf H1) as (H2 & _ & H3). by apply IH, H3.
  - apply IH; [by apply abort_ok|by apply abort_orphan].
Qed.

(** The awaits of [dispatch] outside the [try] that completes the request *)
Definition unguarded (x : phase) : bool :=
  match x with Announcing _ _ | Queued _ _ | RejectingCancelled _ _ => true | _ => false end.

Lemma abort_makes_orphan p x q t f :
  front_ok f → tasks f !! p = Some x → owns x = Some (q, t) → unguarded x = true →
  rq_id q ≠ EmptyString → orphan (key_of q) t (abort p f).
Proof.
  intros Hf Hx Ho Hu Hne. destruct (fo_owns _ Hf p x q t Hx Ho) as [(o & Hobj & _) Hi].
  assert (∀ n, orphan (key_of q) t (set_phase p (Ended Aborted) (with_waiting n f))) as H.
  { intros n. split; [by apply Hi|]. split; [by exists o|]. intros p' x' q'. simpl.
    rewrite lookup_insert. case_decide as Hp; [by intros [= <-]|]. intros Hx' Ho'.
    apply Hp. by eapply (fo_owner _ Hf). }
  unfold abort. rewrite Hx. destruct x; try done; injection Ho as -> ->; first [apply H|apply (H (waiting f))].
Qed.

Lemma admit_registered p q f :
  is_Some (od_get (items (registry f)) (key_of q)) → rq_id q ≠ EmptyString →
  ∃ code, tasks (admit_request p q f) !! p = Some (Ended (Rejected code)).
Proof.
  intros [t Ht] Hne. unfold admit_request, register. rewrite (proj2 (str_true_spec (rq_id q)) Hne).
  simpl. unfold od_mem. rewrite Ht. repeat case_match; eexists; apply lookup_insert_eq.
Qed.

(** ** What the front guarantees *)

(** whatever tasks are aborted, the counter of waiting requests is the number of tasks in
    the queue and within the limit, every request being dispatched is registered under its
    scope and id, and no two requests of one scope and id are dispatched at once. *)
Theorem admission_invariant r limit f :
  rtc front_step_abort (front_init r limit) f →
  waiting f = Z.of_nat (queued_count (tasks f)) ∧ (waiting f ≤ Z.max 0 limit)%Z ∧
  (∀ p x q t, tasks f !! p = Some x → owns x = Some (q, t) → rq_id q ≠ EmptyString →
     od_get (items (registry f)) (key_of q) = Some t) ∧
  (∀ p p' x x' q q' t t', tasks f !! p = Some x → tasks f !! p' = Some x' →
     owns x = Some (q, t) → owns x' = Some (q', t') → rq_id q ≠ EmptyString →
     key_of q = key_of q' → p = p').
Proof.
  intros Hr. assert (queue_limit f = limit) as Hlim.
  { assert (∀ f1 f2, rtc front_step_abort f1 f2 → queue_limit f2 = queue_limit f1) as H;
      [|by rewrite (H _ _ Hr)].
    intros f1 f2. induction 1 as [f1|f1 f2 f3 Hs _ IH]; [done|]. rewrite IH. clear IH.
    destruct Hs as [f2 []|p]; try done;
      unfold dispatch, dispatch_cancel, resume, recovered, admit_request, wait_over, abort;
      repeat case_match; done. }
  pose proof (front_steps_abort_ok _ _ Hr (proj1 (front_init_ok r limit))) as [].
  split_and!; [done|congruence| |].
  - intros p x q t Hx Ho. by apply (fo_owns0 p x q t).
  - intros p p' x x' q q' t t' Hx Hx' Ho Ho' Hne Hk.
    destruct (fo_owns0 p x q t Hx Ho) as [_ H1]. destruct (fo_owns0 p' x' q' t' Hx' Ho') as [_ H2].
    assert (rq_id q = rq_id q') as Hid by (unfold key_of in Hk; congruence).
    specialize (H1 Hne). rewrite Hk in H1. rewrite H2 in H1; [|by rewrite <-Hid].
    injection H1 as ->. by eapply fo_owner0.
Qed.

(** as long as no task is aborted, every registration belongs to a request that is being
    dispatched: once all have been answered the table is empty and nobody is waiting. *)
Theorem nothing_left_behind r limit f :
  rtc front_step (front_init r limit) f →
  no_orphans f ∧
  ((∀ p x, tasks f !! p = Some x → owns x = None) → items (registry f) = [] ∧ waiting f = 0%Z).
Proof.
  intros Hr. destruct (front_init_ok r limit) as [H0 Hno0].
  destruct (front_steps_kept _ _ Hr H0) as (Hf & Hno & _). specialize (Hno Hno0).
  split; [done|]. intros Hend. split.
  - destruct (items (registry f)) as [|[k t] d] eqn:Hi; [done|]. exfalso.
    destruct (Hno k t) as (p & x & q & Hx & Ho).
    { rewrite Hi. simpl. by rewrite decide_True. }
    by rewrite (Hend p x Hx) in Ho.
  - rewrite (fo_waiting _ Hf). replace (queued_count (tasks f)) with 0; [done|].
    unfold queued_count. symmetry. apply map_size_empty_iff, map_eq. intros p.
    rewrite lookup_empty. apply map_lookup_filter_None. right. intros x Hx Hq. simpl in Hq. specialize (Hend p x Hx). by destruct x.
Qed.

(** a request whose task is aborted while it waits in the queue - the Gateway
    disconnects - stays registered forever: from then on every request of its scope and id
    is refused, whatever happens. *)
Theorem aborted_wait_blocks_id r limit f p x q t f' :
  rtc front_step_abort (front_init r limit) f →
  tasks f !! p = Some x → owns x = Some (q, t) → unguarded x = true → rq_id q ≠ EmptyString →
  rtc front_step_abort (abort p f) f' →
  od_get (items (registry f')) (key_of q) = Some t ∧
  ∀ p' q' m, key_of q' = key_of q → rq_method q' = OtherMethod m →
    ∃ code, tasks (dispatch p' q' f') !! p' = Some (Ended (Rejected code)).
Proof.
  intros Hr Hx Ho Hu Hne Hr'.
  pose proof (front_steps_abort_ok _ _ Hr (proj1 (front_init_ok r limit))) as Hf.
  pose proof (abort_makes_orphan p x q t f Hf Hx Ho Hu Hne) as Horph.
  destruct (steps_orphan _ _ _ _ Hr' (abort_ok p f Hf) Horph) as (Hk & _).
  split; [done|]. intros p' q' m Hkey Hm.
  assert (∃ code, tasks (admit_request p' q' f') !! p' = Some (Ended (Rejected code))) as Ha.
  { apply admit_registered; [exists t; by rewrite Hkey|]. injection Hkey as _ ->. done. }
  unfold dispatch, tries_recovery. rewrite Hm. simpl.
  destruct (rd_state (readiness f')); try exact Ha; eexists; apply lookup_insert_eq.
Qed.

(** ** A run *)

Definition chat : Request := mk_request "r1" "s1" ["web"; "u1"; ""; "agent"] (OtherMethod "chat.send") "" true.
Definition f0 : Front := front_init readiness_init 4.
Definition f1 : Front := dispatch 0 chat f0.
(** The runtime becomes ready and the request is answered. *)
Definition f2 : Front := with_readiness (run_op OpAgent (readiness f1)) (attach_backend (mk_backend false false) f1).
Definition f3 : Front := resume 0 true (resume 0 true f2).

Lemma f1_step : front_step f0 f1.
Proof. apply (fs_dispatch f0 0 chat). reflexivity. Qed.

Lemma f3_steps : rtc front_step f0 f3.
Proof.
  apply (rtc_l _ _ f1), (rtc_l _ _ (attach_backend (mk_backend false false) f1)), (rtc_l _ _ f2),
    (rtc_l _ _ (resume 0 true f2)), (rtc_l _ _ f3), rtc_refl.
  - apply f1_step.
  - apply fs_attach.
  - apply (fs_readiness (attach_backend (mk_backend false false) f1) OpAgent).
  - apply fs_resume.
  - apply fs_resume.
Qed.

Lemma f1_steps : rtc front_step_abort f0 f1.
Proof. apply rtc_once, fa_step, f1_step. Qed.

Lemma admission_invariant_witness :
  rtc front_step_abort f0 f1 ∧ waiting f1 = Z.of_nat (queued_count (tasks f1)).
Proof. split; [apply f1_steps|]. apply (admission_invariant readiness_init 4). apply f1_steps. Defined.

Lemma nothing_left_behind_witness :
  rtc front_step f0 f3 ∧ items (registry f3) = [] ∧ waiting f3 = 0%Z.
Proof.
  split; [apply f3_steps|]. apply (nothing_left_behind readiness_init 4 f3); [apply f3_steps|].
  assert (tasks f3 = {[0 := Ended Handed]}) as -> by (vm_compute; reflexivity).
  intros p x [_ <-]%lookup_singleton_Some. reflexivity.
Defined.

Lemma aborted_wait_blocks_id_witness :
  tasks f1 !! 0 = Some (Queued chat 0) ∧
  ∃ code, tasks (dispatch 1 chat (abort 0 f1)) !! 1 = Some (Ended (Rejected code)).
Proof.
  split; [vm_compute; reflexivity|].
  destruct (aborted_wait_blocks_id readiness_init 4 f1 0 (Queued chat 0) chat 0 (abort 0 f1)) as [_ H];
    [apply f1_steps|vm_compute; reflexivity|reflexivity|reflexivity|done|apply rtc_refl|].
  by apply (H 1 chat "chat.send").
Defined.
