(* ===== verification/PyJson.v ===== *)
(** * JSON values as Python holds them

    What [json.loads] gives and [json.dumps] takes: dictionaries keep the order
    in which their keys were first set, numbers are integers, and a [str] is a
    [string] of code points below 256.  Truth, [str()], [repr()] and [dumps] are
    Python's; values are immutable here, so [copy.deepcopy] is the identity.
    [int()] of a string is modelled short of the interpreter's limit on digits. *)

From S2P Require Import Prelude OrderedDict.
From stdpp Require Import pretty.

Inductive json :=
| JNull
| JBool (b : bool)
| JNum (n : Z)
| JStr (s : string)
| JList (l : list json)
| JObj (d : list (string * json)).

Abbreviation jdict := (odict string json) (only parsing).

(** [bool(x)] *)
Definition j_truth (x : json) : bool :=
  match x with
  | JNull => false
  | JBool b => b
  | JNum n => negb (Z.eqb n 0)
  | JStr s => str_true s
  | JList l => match l with [] => false | _ => true end
  | JObj d => match d with [] => false | _ => true end
  end.

(** [x or y] *)
Definition j_or (x y : json) : json := if j_truth x then x else y.

(** [d.get(k)] *)
Definition j_get (d : jdict) (k : string) : json := default JNull (od_get d k).

(** [isinstance(x, dict)] *)
Definition as_dict (x : json) : option jdict :=
  match x with JObj d => Some d | _ => None end.

(** [{**d, **e}] *)
Definition j_merge (d e : jdict) : jdict := foldl (λ acc kv, od_set acc kv.1 kv.2) d e.

(** ** Text *)

Definition hex_digit (n : nat) : string :=
  default EmptyString (["0"; "1"; "2"; "3"; "4"; "5"; "6"; "7"; "8"; "9"; "a"; "b"; "c"; "d"; "e"; "f"] !! n).
Definition hex2 (n : nat) : string := hex_digit (n / 16) +:+ hex_digit (n mod 16).

Definition chr (n : nat) : string := String (Ascii.ascii_of_nat n) EmptyString.

Fixpoint map_chars (f : nat → string) (s : string) : string :=
  match s with
  | EmptyString => EmptyString
  | String c s' => f (Ascii.nat_of_ascii c) +:+ map_chars f s'
  end.

Fixpoint has_char (n : nat) (s : string) : bool :=
  match s with
  | EmptyString => false
  | String c s' => Nat.eqb (Ascii.nat_of_ascii c) n || has_char n s'
  end.

(** The escape of one character in [repr(str)], [quote] being 34 or 39 *)
Definition repr_char (quote n : nat) : string :=
  if Nat.eqb n quote || Nat.eqb n 92 then chr 92 +:+ chr n
  else if Nat.eqb n 9 then chr 92 +:+ "t"
  else if Nat.eqb n 10 then chr 92 +:+ "n"
  else if Nat.eqb n 13 then chr 92 +:+ "r"
  else if Nat.ltb n 32 || (Nat.leb 127 n && Nat.leb n 160) || Nat.eqb n 173
  then chr 92 +:+ "x" +:+ hex2 n
  else chr n.

Definition repr_str (s : string) : string :=
  let quote := if has_char 39 s && negb (has_char 34 s) then 34 else 39 in
  chr quote +:+ map_chars (repr_char quote) s +:+ chr quote.

Definition join (sep : string) (l : list string) : string :=
  match l with [] => EmptyString | x :: l' => x +:+ foldr (λ y r, sep +:+ y +:+ r) EmptyString l' end.

(** [repr(x)], [repr_text] being the [repr] of a [str] *)
Fixpoint repr_with (repr_text : string → string) (x : json) : string :=
  match x with
  | JNull => "None"
  | JBool b => if b then "True" else "False"
  | JNum n => pretty n
  | JStr s => repr_text s
  | JList l => "[" +:+ join ", " (map (repr_with repr_text) l) +:+ "]"
  | JObj d => "{" +:+ join ", " (map (λ kv, repr_text kv.1 +:+ ": " +:+ repr_with repr_text kv.2) d) +:+ "}"
  end.
Definition py_repr (x : json) : string := repr_with repr_str x.

(** [str(x)] *)
Definition py_str (x : json) : string := match x with JStr s => s | _ => py_repr x end.

(** [str(x or "")] *)
Definition str_or_empty (x : json) : string := if j_truth x then py_str x else EmptyString.

(** The escape of one character in [json.dumps(ensure_ascii=False)] *)
Definition dumps_char (n : nat) : string :=
  if Nat.eqb n 34 || Nat.eqb n 92 then chr 92 +:+ chr n
  else if Nat.eqb n 8 then chr 92 +:+ "b"
  else if Nat.eqb n 9 then chr 92 +:+ "t"
  else if Nat.eqb n 10 then chr 92 +:+ "n"
  else if Nat.eqb n 12 then chr 92 +:+ "f"
  else if Nat.eqb n 13 then chr 92 +:+ "r"
  else if Nat.ltb n 32 then chr 92 +:+ "u00" +:+ hex2 n
  else chr n.

Definition dumps_str (s : string) : string := chr 34 +:+ map_chars dumps_char s +:+ chr 34.

(** [json.dumps(x, ensure_ascii=False)] *)
Fixpoint json_dumps (x : json) : string :=
  match x with
  | JNull => "null"
  | JBool b => if b then "true" else "false"
  | JNum n => pretty n
  | JStr s => dumps_str s
  | JList l => "[" +:+ join ", " (map json_dumps l) +:+ "]"
  | JObj d => "{" +:+ join ", " (map (λ kv, dumps_str kv.1 +:+ ": " +:+ json_dumps kv.2) d) +:+ "}"
  end.

Fixpoint insert_key {A} (kv : string * A) (d : list (string * A)) : list (string * A) :=
  match d with
  | [] => [kv]
  | kv' :: d' => if String.leb kv.1 kv'.1 then kv :: d else kv' :: insert_key kv d'
  end.

(** [sorted(set(l))] *)
Fixpoint insert_name (x : string) (l : list string) : list string :=
  match l with
  | [] => [x]
  | y :: l' => if String.eqb x y then l else if String.leb x y then x :: l else y :: insert_name x l'
  end.
Definition sorted_names (l : list string) : list string := foldr insert_name [] l.

(** The keys in the order of [json.dumps(sort_keys=True)] *)
Fixpoint sort_json (x : json) : json :=
  match x with
  | JList l => JList (map sort_json l)
  | JObj d => JObj (foldr insert_key [] (map (λ kv, (kv.1, sort_json kv.2)) d))
  | _ => x
  end.

(** [s.lower()] *)
Definition lower_char (n : nat) : string :=
  if (Nat.leb 65 n && Nat.leb n 90) || (Nat.leb 192 n && Nat.leb n 222 && negb (Nat.eqb n 215))
  then chr (n + 32) else chr n.
Definition py_lower (s : string) : string := map_chars lower_char s.

(** [len(s.encode("utf-8"))] *)
Fixpoint utf8_len (s : string) : Z :=
  match s with
  | EmptyString => 0
  | String c s' => (if Nat.ltb (Ascii.nat_of_ascii c) 128 then 1 else 2) + utf8_len s'
  end.

(** [sub in s] *)
Definition py_contains (sub s : string) : bool :=
  match String.index 0 sub s with Some _ => true | None => false end.

(** [int(s)] after the sign: digits, with single underscores between them *)
Fixpoint parse_digits (acc : Z) (after_digit : bool) (s : string) : option Z :=
  match s with
  | EmptyString => if after_digit then Some acc else None
  | String c s' =>
      let n := Ascii.nat_of_ascii c in
      if Nat.leb 48 n && Nat.leb n 57 then parse_digits (10 * acc + (Z.of_nat n - 48))%Z true s'
      else if Nat.eqb n 95 && after_digit then
        match s' with EmptyString => None | _ => parse_digits acc false s' end
      else None
  end.

Definition parse_signed (s : string) : option Z :=
  match s with
  | String c s' =>
      let n := Ascii.nat_of_ascii c in
      if Nat.eqb n 43 then parse_digits 0 false s'
      else if Nat.eqb n 45 then Z.opp <$> parse_digits 0 false s'
      else parse_digits 0 false (String c s')
  | EmptyString => None
  end.
Definition parse_int (s : string) : option Z := parse_signed (py_strip s).

(** [int(value)], [None] when it raises *)
Definition py_int (value : json) : option Z :=
  match value with
  | JBool b => Some (if b then 1 else 0)%Z
  | JNum n => Some n
  | JStr s => parse_int s
  | _ => None
  end.

Lemma utf8_len_nonneg s : (0 ≤ utf8_len s)%Z.
Proof. induction s as [|c s IH]; simpl; [lia|]. case_match; lia. Qed.

Lemma string_leb_trans a b c :
  String.leb a b = true → String.leb b c = true → String.leb a c = true.
Proof.
  revert a c. induction b as [|y b IH]; intros [|x a] [|z c]; try done.
  unfold String.leb in *. cbn [String.compare]. unfold Ascii.compare.
  destruct (N.compare_spec (Ascii.N_of_ascii x) (Ascii.N_of_ascii y)) as [Exy|Hxy|Hxy];
    destruct (N.compare_spec (Ascii.N_of_ascii y) (Ascii.N_of_ascii z)) as [Eyz|Hyz|Hyz]; try done.
  - rewrite Exy, Eyz, N.compare_refl. apply IH.
  - by rewrite Exy, (proj2 (N.compare_lt_iff _ _) Hyz).
  - by rewrite <-Eyz, (proj2 (N.compare_lt_iff _ _) Hxy).
  - by rewrite (proj2 (N.compare_lt_iff _ _) (N.lt_trans _ _ _ Hxy Hyz)).
Qed.

Lemma utf8_len_app s t : utf8_len (s +:+ t) = (utf8_len s + utf8_len t)%Z.
Proof. induction s as [|c s IH]; [done|]. change (String c s +:+ t) with (String c (s +:+ t)). simpl. rewrite IH. lia. Qed.

Lemma str_app_assoc s t u : s +:+ (t +:+ u) = (s +:+ t) +:+ u.
Proof. induction s as [|c s IH]; [done|]. exact (f_equal (String c) IH). Qed.

Lemma str_app_nil_r s : s +:+ EmptyString = s.
Proof. induction s as [|c s IH]; [done|]. exact (f_equal (String c) IH). Qed.

(** Induction on a JSON value, with the hypothesis for every value inside *)
Lemma json_ind' (P : json → Prop) :
  P JNull → (∀ b, P (JBool b)) → (∀ n, P (JNum n)) → (∀ s, P (JStr s)) →
  (∀ l, Forall P l → P (JList l)) → (∀ d, Forall (λ kv, P kv.2) d → P (JObj d)) → ∀ x, P x.
Proof.
  intros H0 H1 H2 H3 H4 H5. fix IH 1. intros [|b|n|s|l|d]; [done|done|done|done| |].
  - apply H4. induction l as [|x l IHl]; constructor; [apply IH|done].
  - apply H5. induction d as [|[k x] d IHd]; constructor; [apply IH|done].
Qed.

(** Equality of JSON values *)
Fixpoint json_eqb (x y : json) : bool :=
  match x, y with
  | JNull, JNull => true
  | JBool b, JBool c => Bool.eqb b c
  | JNum n, JNum m => Z.eqb n m
  | JStr s, JStr t => String.eqb s t
  | JList l, JList l' =>
      (fix go l l' := match l, l' with
       | [], [] => true | a :: l, b :: l' => json_eqb a b && go l l' | _, _ => false end) l l'
  | JObj d, JObj d' =>
      (fix go d d' := match d, d' with
       | [], [] => true
       | (k, a) :: d, (k', b) :: d' => String.eqb k k' && json_eqb a b && go d d'
       | _, _ => false end) d d'
  | _, _ => false
  end.

Lemma json_eqb_eq x : ∀ y, json_eqb x y = true ↔ x = y.
Proof.
  induction x as [|b|n|s|l IH|d IH] using json_ind'; intros y; destruct y as [|b'|n'|s'|l'|d']; try done.
  - simpl. rewrite eqb_true_iff. naive_solver.
  - simpl. rewrite Z.eqb_eq. naive_solver.
  - simpl. rewrite String.eqb_eq. naive_solver.
  - transitivity (l = l'); [|naive_solver]. revert l'. induction IH as [|x l Hx _ IHl]; intros [|y l']; try done.
    simpl in *. rewrite andb_true_iff, Hx, IHl. naive_solver.
  - transitivity (d = d'); [|naive_solver].
    revert d'. induction IH as [|[k x] d Hx _ IHd]; intros [|[k' y] d']; try done.
    simpl in *. rewrite !andb_true_iff, String.eqb_eq, Hx, IHd. naive_solver.
Qed.

#[export] Instance json_eq_dec : EqDecision json.
Proof.
  intros x y. destruct (json_eqb x y) eqn:E; [left; by apply json_eqb_eq|right].
  intros H%json_eqb_eq. congruence.
Defined.

Lemma elem_of_insert_name x y l : y ∈ insert_name x l ↔ y = x ∨ y ∈ l.
Proof.
  induction l as [|z l IH]; simpl; [by rewrite list_elem_of_singleton, elem_of_nil; naive_solver|].
  destruct (String.eqb_spec x z) as [->|]; [rewrite elem_of_cons; naive_solver|].
  destruct (String.leb x z); rewrite !elem_of_cons; [naive_solver|]. rewrite IH. naive_solver.
Qed.

Lemma elem_of_sorted_names y l : y ∈ sorted_names l ↔ y ∈ l.
Proof.
  induction l as [|x l IH]; simpl; [done|]. by rewrite elem_of_insert_name, IH, elem_of_cons.
Qed.

Lemma insert_name_NoDup x l : NoDup l → StronglySorted (λ a b, String.leb a b = true) l →
  NoDup (insert_name x l) ∧ StronglySorted (λ a b, String.leb a b = true) (insert_name x l).
Proof.
  induction 1 as [|y l Hy Hl IH]; intros Hs; simpl; [split; [apply NoDup_singleton|by repeat constructor]|].
  apply StronglySorted_inv in Hs as [Hs Hall].
  destruct (String.eqb_spec x y) as [->|Hne]; [by repeat constructor|].
  destruct (String.leb x y) eqn:E.
  - assert (Forall (λ b, String.leb x b = true) (y :: l)) as Hx.
    { constructor; [done|]. eapply Forall_impl; [exact Hall|]. intros b. by apply string_leb_trans. }
    split; [|constructor; [by constructor|done]]. constructor; [|by constructor].
    rewrite Forall_forall in Hall. intros [?|Hin]%elem_of_cons; [done|].
    apply Hne, String.leb_antisym; [done|by apply Hall].
  - destruct (IH Hs) as [IH1 IH2]. split; constructor; try done.
    + rewrite elem_of_insert_name. intros [?|?]; congruence.
    + apply Forall_forall. intros b [->|Hb]%elem_of_insert_name.
      * destruct (String.leb_total y x); [done|congruence].
      * rewrite Forall_forall in Hall. by apply Hall.
Qed.

Lemma sorted_names_NoDup l :
  NoDup (sorted_names l) ∧ StronglySorted (λ a b, String.leb a b = true) (sorted_names l).
Proof.
  induction l as [|x l [IH1 IH2]]; simpl; [by repeat constructor|]. by apply insert_name_NoDup.
Qed.

Lemma json_text_examples :
  py_str (JObj [("k", JList [JNum (-3); JBool true; JStr "it's"]); ("n", JNull)]) =
    ("{'k': [-3, True, " +:+ chr 34 +:+ "it's" +:+ chr 34 +:+ "], 'n': None}") ∧
  json_dumps (JObj [("k", JList [JNum 12; JBool false; JNull])]) =
    ("{" +:+ chr 34 +:+ "k" +:+ chr 34 +:+ ": [12, false, null]}") ∧
  py_contains "ask_user" "chat.ask_user_question" = true ∧
  py_contains "chat.final" "chat.fin" = false.
Proof. vm_compute. done. Qed.
