(* ===== verification/Utf8.v ===== *)
(** * Text as UTF-8

    A [str] as the string of its UTF-8 bytes, for the parts of the program that count bytes and
    cut texts by characters ([WireTruncate], [WireWorkflow]): any text of Unicode, its characters taking one to four bytes.
    Concatenation, equality, order and [json.dumps(ensure_ascii=False)] are those of the bytes;
    [len], slices, [strip] and [repr] go by characters.

    [isprintable] is [str.isprintable] of one character above ASCII, from Unicode's database.
    A [str] with lone surrogates has no UTF-8, and [int()] of digits of other scripts is not
    modelled. *)

From S2P Require Import Prelude OrderedDict PyJson.

Definition byte_len (s : string) : Z := Z.of_nat (String.length s).
Definition concat_str (l : list string) : string := foldr String.append EmptyString l.

(** ** Characters *)

(** How many bytes the character takes that starts with this byte *)
Definition char_width (b : Ascii.ascii) : nat :=
  let n := Ascii.nat_of_ascii b in
  if Nat.ltb n 192 then 1 else if Nat.ltb n 224 then 2 else if Nat.ltb n 240 then 3 else 4.

(** The rest of a character that lacks [need] bytes, and the characters after it *)
Fixpoint chars_from (need : nat) (s : string) : string * list string :=
  match s with
  | EmptyString => (EmptyString, [])
  | String b s' =>
      match need with
      | O => let r := chars_from (char_width b - 1) s' in (EmptyString, String b r.1 :: r.2)
      | S need' => let r := chars_from need' s' in (String b r.1, r.2)
      end
  end.
Definition chars (s : string) : list string := (chars_from 0 s).2.

(** [len(s)] *)
Definition text_len (s : string) : nat := length (chars s).

(** [s[i:j]] for [0 <= i <= j] *)
Definition text_slice (s : string) (i j : nat) : string := concat_str (take (j - i) (drop i (chars s))).

(** What the bytes of a text are: every character has the bytes its first byte announces *)
Definition continuation (b : Ascii.ascii) : bool :=
  let n := Ascii.nat_of_ascii b in Nat.leb 128 n && Nat.ltb n 192.
Fixpoint all_bytes (f : Ascii.ascii → bool) (s : string) : bool :=
  match s with EmptyString => true | String b s' => f b && all_bytes f s' end.
Definition utf8_char (c : string) : bool :=
  match c with
  | EmptyString => false
  | String b t => Nat.eqb (String.length c) (char_width b) && negb (continuation b) && all_bytes continuation t
  end.
Definition utf8 (s : string) : bool := forallb utf8_char (chars s).

(** ** White space and numbers *)

(** [\x85], [\xa0], [\u1680], [\u2000] to [\u200a], [\u2028], [\u2029], [\u202f], [\u205f], [\u3000] *)
Definition bytes (l : list nat) : string := concat_str (map chr l).
Definition wide_spaces : list string :=
  map bytes ([[194; 133]; [194; 160]; [225; 154; 128]; [226; 128; 168]; [226; 128; 169]; [226; 128; 175]; [226; 129; 159];
              [227; 128; 128]] ++ map (λ n, [226; 128; n]) (List.seq 128 11)).
Definition is_space (c : string) : bool :=
  match c with
  | String b EmptyString => Nat.ltb (Ascii.nat_of_ascii b) 128 && py_isspace b
  | _ => bool_decide (c ∈ wide_spaces)
  end.

Fixpoint drop_spaces (l : list string) : list string :=
  match l with
  | c :: l' => if is_space c then drop_spaces l' else l
  | [] => []
  end.

(** [s.strip()] *)
Definition text_strip (s : string) : string := concat_str (rev (drop_spaces (rev (drop_spaces (chars s))))).

(** [int(value)], [None] when it raises *)
Definition text_int (value : json) : option Z :=
  match value with
  | JStr s => parse_signed (text_strip s)
  | _ => py_int value
  end.

(** ** [repr] *)

Section repr.
Context (isprintable : string → bool).

Definition code_point (c : string) : nat :=
  match map Ascii.nat_of_ascii (String.list_ascii_of_string c) with
  | [a; b] => (a - 192) * 64 + (b - 128)
  | [a; b; c] => ((a - 224) * 64 + (b - 128)) * 64 + (c - 128)
  | [a; b; c; d] => (((a - 240) * 64 + (b - 128)) * 64 + (c - 128)) * 64 + (d - 128)
  | a :: _ => a
  | [] => 0
  end.

Fixpoint hex_digits (width n : nat) : string :=
  match width with
  | O => EmptyString
  | S width' => hex_digits width' (n / 16) +:+ hex_digit (n mod 16)
  end.

(** The characters above ASCII that are not printable are escaped by their number. *)
Definition repr_wide (c : string) : string :=
  let n := code_point c in
  if isprintable c then c
  else if Nat.leb n 255 then chr 92 +:+ "x" +:+ hex_digits 2 n
  else if Nat.ltb (n / 256) 256 then chr 92 +:+ "u" +:+ hex_digits 4 n
  else chr 92 +:+ "U" +:+ hex_digits 8 n.

Definition repr_text (s : string) : string :=
  let quote := if has_char 39 s && negb (has_char 34 s) then 34 else 39 in
  chr quote +:+ concat_str (map (λ c, match c with
                                      | String b EmptyString => repr_char quote (Ascii.nat_of_ascii b)
                                      | _ => repr_wide c
                                      end) (chars s)) +:+ chr quote.

(** [str(x)] *)
Definition text_str (x : json) : string := match x with JStr s => s | _ => repr_with repr_text x end.
End repr.

(** ** Lemmas *)

Lemma length_app_str s t : String.length (s +:+ t) = String.length s + String.length t.
Proof. induction s as [|c s IH]; [done|]. exact (f_equal S IH). Qed.

Lemma byte_len_app s t : byte_len (s +:+ t) = (byte_len s + byte_len t)%Z.
Proof. unfold byte_len. rewrite length_app_str. lia. Qed.

Lemma byte_len_nonneg s : (0 ≤ byte_len s)%Z.
Proof. unfold byte_len. lia. Qed.

Lemma concat_str_app l k : concat_str (l ++ k) = concat_str l +:+ concat_str k.
Proof. induction l as [|x l IH]; [done|]. simpl. by rewrite IH, str_app_assoc. Qed.

Lemma char_width_bounds b : 1 ≤ char_width b ≤ 4.
Proof. unfold char_width. repeat case_match; lia. Qed.

Lemma chars_from_spec need s :
  (chars_from need s).1 +:+ concat_str (chars_from need s).2 = s ∧ String.length (chars_from need s).1 ≤ need ∧
  Forall (λ c, 1 ≤ String.length c ≤ 4) (chars_from need s).2.
Proof.
  revert need. induction s as [|b s IH]; intros need; [repeat constructor; simpl; lia|].
  destruct need as [|need]; simpl.
  - destruct (IH (char_width b - 1)) as (H1 & H2 & H3). pose proof (char_width_bounds b). split; [|split; [lia|]].
    + exact (f_equal (String b) H1).
    + constructor; [|done]. simpl. lia.
  - destruct (IH need) as (H1 & H2 & H3). split; [exact (f_equal (String b) H1)|]. split; [lia|done].
Qed.

Lemma chars_concat s : concat_str (chars s) = s.
Proof.
  destruct (chars_from_spec 0 s) as (H1 & H2 & _). unfold chars. destruct (chars_from 0 s) as [cur l]. simpl in *.
  by destruct cur; [|simpl in H2; lia].
Qed.

Lemma chars_sizes s : Forall (λ c, 1 ≤ String.length c ≤ 4) (chars s).
Proof. by destruct (chars_from_spec 0 s) as (_ & _ & H). Qed.

Lemma concat_size l : Forall (λ c, 1 ≤ String.length c ≤ 4) l → (byte_len (concat_str l) ≤ 4 * Z.of_nat (length l))%Z.
Proof.
  induction 1 as [|c l Hc _ IH]; [done|]. cbn [concat_str foldr length]. fold (concat_str l). rewrite byte_len_app.
  unfold byte_len in *. lia.
Qed.

Lemma slice_size s i j : (byte_len (text_slice s i j) ≤ 4 * Z.of_nat (j - i))%Z.
Proof.
  unfold text_slice. etrans; [apply concat_size, Forall_take, Forall_drop, chars_sizes|]. rewrite length_take. lia.
Qed.

(** *** Whole characters *)

Lemma chars_from_app need c s : String.length c = need → chars_from need (c +:+ s) = (c, chars s).
Proof.
  revert need. induction c as [|b c IH]; intros need H; simpl in H; subst need.
  - unfold chars. simpl. destruct (chars_from_spec 0 s) as (_ & H & _). destruct s as [|b s]; [done|]. simpl in *. done.
  - change (String b c +:+ s) with (String b (c +:+ s)). simpl. by rewrite IH.
Qed.

Lemma chars_cons c s : utf8_char c = true → chars (c +:+ s) = c :: chars s.
Proof.
  destruct c as [|b c]; [done|]. unfold utf8_char. intros ((H & _)%andb_true_iff & _)%andb_true_iff. apply Nat.eqb_eq in H.
  simpl in H. unfold chars at 1. change (String b c +:+ s) with (String b (c +:+ s)). simpl. rewrite chars_from_app by lia. done.
Qed.

Lemma chars_of_concat l : forallb utf8_char l = true → chars (concat_str l) = l.
Proof.
  induction l as [|c l IH]; [done|]. simpl. intros [Hc Hl]%andb_true_iff. by rewrite chars_cons, IH.
Qed.

(** A slice of a text has whole characters, and just those. *)
Lemma slice_chars s i j : utf8 s = true → chars (text_slice s i j) = take (j - i) (drop i (chars s)).
Proof.
  intros H. apply chars_of_concat. unfold utf8 in H. rewrite forallb_forall in *. intros c Hc. apply H.
  apply list_elem_of_In in Hc. apply list_elem_of_In. eapply elem_of_take in Hc as (k & Hk & _).
  rewrite lookup_drop in Hk. by eapply list_elem_of_lookup_2.
Qed.

Lemma slice_utf8 s i j : utf8 s = true → utf8 (text_slice s i j) = true.
Proof.
  intros H. unfold utf8. rewrite slice_chars by done. unfold utf8 in H. rewrite forallb_forall in *. intros c Hc. apply H.
  apply list_elem_of_In in Hc. apply list_elem_of_In. eapply elem_of_take in Hc as (k & Hk & _).
  rewrite lookup_drop in Hk. by eapply list_elem_of_lookup_2.
Qed.

(** Slices one after another, [n] characters each *)
Lemma slices_concat s n k : length (chars s) ≤ k * n →
  concat_str (map (λ i, text_slice s (i * n) ((i + 1) * n)) (List.seq 0 k)) = s.
Proof.
  intros H. assert (∀ k, concat_str (map (λ i, text_slice s (i * n) ((i + 1) * n)) (List.seq 0 k)) = concat_str (take (k * n) (chars s))) as Hk.
  { clear. induction k as [|k IH]; [done|]. rewrite List.seq_S, map_app, concat_str_app, IH. cbn [map concat_str foldr].
    rewrite str_app_nil_r. unfold text_slice. replace ((0 + k + 1) * n - (0 + k) * n) with n by lia.
    rewrite <-concat_str_app, take_take_drop. f_equal. f_equal. lia. }
  rewrite Hk, take_ge by done. apply chars_concat.
Qed.

(** Three characters of one, three and four bytes *)
Lemma text_examples :
  let s := bytes [65; 228; 184; 173; 240; 159; 152; 128] in
  text_len s = 3 ∧ byte_len s = 8%Z ∧ utf8 s = true ∧ text_slice s 1 2 = bytes [228; 184; 173] ∧
  text_strip (bytes [227; 128; 128; 65; 194; 160]) = "A" ∧ text_int (JStr (bytes [194; 160; 45; 55])) = Some (-7)%Z ∧
  repr_text (λ _, false) s = "'A" +:+ chr 92 +:+ "u4e2d" +:+ chr 92 +:+ "U0001f600'".
Proof. vm_compute. done. Qed.
