(* ===== verification/EventStore.v ===== *)
(** * The replay journal of a resident worker

    Sources: [jiuwenswarm/server/worker/event_store.py], the function
    [request_scope] of [server/ipc/protocol.py] and the two methods of
    [server/worker/gateway_bridge.py] that change a record themselves.

    [Store] is [WorkerEventStore].  A [DispatchRecord] is only ever reached
    through [records] under its own [dispatch_id]: a record that [finish] has
    trimmed is written to no more in a way another call could see, so an update
    is an update of the entry, when there still is one.  The uuid of
    [internal_record] is an argument.  The keys and defaults of the protocol
    package are the Section's variables. *)

From stdpp Require Import pretty.
From S2P Require Import Prelude OrderedDict PyJson.

Inductive ReqMethod :=
| CHAT_SEND | COMMAND_GOAL
| TEAM_LIST | ORG_SNAPSHOT | TEAM_SNAPSHOT | TEAM_MEMBERS_GET | TEAM_HISTORY_GET
| SESSION_ASSETS_LIST | SESSION_PLAN_STATUS | COMMAND_WORKFLOWS | A4P_AUTHORIZATION_PENDING
| OtherMethod (name : string).

(** [_SESSION_INSPECTION_METHODS] *)
Definition session_inspection (m : ReqMethod) : bool :=
  match m with
  | TEAM_LIST | ORG_SNAPSHOT | TEAM_SNAPSHOT | TEAM_MEMBERS_GET | TEAM_HISTORY_GET
  | SESSION_ASSETS_LIST | SESSION_PLAN_STATUS | COMMAND_WORKFLOWS
  | A4P_AUTHORIZATION_PENDING => true
  | _ => false
  end.

(** [AgentRequest], as far as the journal reads it: an absent field is [JNull],
    absent metadata are empty, [rq_ref] is what [_dump_agent_ref] gives. *)
Record AgentRequest := mk_request {
  rq_id : string;
  rq_session : json;
  rq_channel : json;
  rq_user : json;
  rq_ref : json;
  rq_method : ReqMethod;
  rq_params : jdict;
  rq_metadata : jdict;
}.

Definition default_ref_json : json := JObj [("mode", JStr "agent"); ("id", JStr "default")].

Definition request_scope (q : AgentRequest) : list string :=
  [ str_or_empty (rq_channel q);
    str_or_empty (j_or (rq_user q) (j_get (rq_metadata q) "user_id"));
    str_or_empty (j_get (rq_metadata q) "app_id");
    json_dumps (sort_json (j_or (rq_ref q) default_ref_json));
    str_or_empty (j_or (j_get (rq_params q) "session_id") (rq_session q)) ].

Record DispatchRecord := mk_record {
  dispatch_id : string;
  request : AgentRequest;
  scope : list string;
  active : bool;
  last_sequence : Z;
  last_execution_id : string;
  is_processing : bool;
  entered_at_ns : option Z;
  interactions : odict string jdict;
  terminal : option jdict;
}.

Definition set_active (b : bool) (r : DispatchRecord) : DispatchRecord :=
  mk_record (dispatch_id r) (request r) (scope r) b (last_sequence r) (last_execution_id r)
    (is_processing r) (entered_at_ns r) (interactions r) (terminal r).
Definition set_last_sequence (n : Z) (r : DispatchRecord) : DispatchRecord :=
  mk_record (dispatch_id r) (request r) (scope r) (active r) n (last_execution_id r)
    (is_processing r) (entered_at_ns r) (interactions r) (terminal r).
Definition set_execution (e : string) (r : DispatchRecord) : DispatchRecord :=
  mk_record (dispatch_id r) (request r) (scope r) (active r) (last_sequence r) e
    (is_processing r) (entered_at_ns r) (interactions r) (terminal r).
Definition set_processing (b : bool) (r : DispatchRecord) : DispatchRecord :=
  mk_record (dispatch_id r) (request r) (scope r) (active r) (last_sequence r)
    (last_execution_id r) b (entered_at_ns r) (interactions r) (terminal r).
Definition set_entered (n : Z) (r : DispatchRecord) : DispatchRecord :=
  mk_record (dispatch_id r) (request r) (scope r) (active r) (last_sequence r)
    (last_execution_id r) (is_processing r) (Some n) (interactions r) (terminal r).
Definition set_interactions (d : odict string jdict) (r : DispatchRecord) : DispatchRecord :=
  mk_record (dispatch_id r) (request r) (scope r) (active r) (last_sequence r)
    (last_execution_id r) (is_processing r) (entered_at_ns r) d (terminal r).
Definition set_terminal (t : jdict) (r : DispatchRecord) : DispatchRecord :=
  mk_record (dispatch_id r) (request r) (scope r) (active r) (last_sequence r)
    (last_execution_id r) (is_processing r) (entered_at_ns r) (interactions r) (Some t).

Record Frame := mk_frame {
  f_request : string;
  f_dispatch : string;
  f_sequence : Z;
  f_payload : jdict;
}.

Definition frame_json (f : Frame) : json :=
  JObj [("request_id", JStr (f_request f)); ("dispatch_id", JStr (f_dispatch f));
        ("sequence", JNum (f_sequence f)); ("payload", JObj (f_payload f))].
Definition frame_size (f : Frame) : Z := utf8_len (json_dumps (frame_json f)).

Record Store := mk_store {
  instance : string;
  sequence : Z;
  frames : list (list string * Frame * Z);
  bytes : Z;
  max_events : Z;
  max_bytes : Z;
  expired : Z;
  records : odict string DispatchRecord;
  slots : gmap (list string) string;
}.

Definition store_init (name : string) (events limit : Z) : Store :=
  mk_store name 0 [] 0 events limit 0 [] ∅.

Definition with_records (d : odict string DispatchRecord) (s : Store) : Store :=
  mk_store (instance s) (sequence s) (frames s) (bytes s) (max_events s) (max_bytes s)
    (expired s) d (slots s).
Definition with_slots (m : gmap (list string) string) (s : Store) : Store :=
  mk_store (instance s) (sequence s) (frames s) (bytes s) (max_events s) (max_bytes s)
    (expired s) (records s) m.
Definition with_journal (n : Z) (fs : list (list string * Frame * Z)) (b ex : Z) (s : Store) : Store :=
  mk_store (instance s) n fs b (max_events s) (max_bytes s) ex (records s) (slots s).

(** An assignment to a field of the record under [id] *)
Definition upd_record (id : string) (f : DispatchRecord → DispatchRecord) (s : Store) : Store :=
  match od_get (records s) id with
  | Some r => with_records (od_set (records s) id (f r)) s
  | None => s
  end.

(** The duplicate guard's key: the caller without the Session, and the id *)
Definition slot_key (sc : list string) (q : AgentRequest) : list string := take 4 sc ++ [rq_id q].

Inductive store_error :=
| ValueError (message : string)
| AttributeError.

(** ** [register], [finish], [internal_record], [complete] *)

Definition active_count (s : Store) : nat :=
  length (filter (λ r, active r = true) (od_values (records s))).

Definition new_record (id : string) (q : AgentRequest) : DispatchRecord :=
  mk_record id q (request_scope q) true 0 "" false None [] None.

Definition register (q : AgentRequest) (id : string) : py Store store_error DispatchRecord :=
  s <- py_get ;;
  let key := slot_key (request_scope q) q in
  py_guard (negb (bool_decide (is_Some (slots s !! key)))) (ValueError "duplicate active request_id") ;;
  py_guard (negb (Nat.leb 256 (active_count s))) (ValueError "worker dispatch limit reached") ;;
  py_guard (negb (Nat.leb 2048 (length (records s)))) (ValueError "worker retained interaction limit reached") ;;
  let r := new_record id q in
  py_modify (λ s, with_slots (<[key := id]> (slots s)) (with_records (od_set (records s) id r) s)) ;;
  py_ret r.

Definition no_interactions (r : DispatchRecord) : bool :=
  match interactions r with [] => true | _ => false end.
Definition idle (r : DispatchRecord) : bool :=
  negb (active r) && negb (is_processing r) && no_interactions r.

Fixpoint first_idle (d : odict string DispatchRecord) : option string :=
  match d with
  | [] => None
  | (k, r) :: d' => if idle r then Some k else first_idle d'
  end.

(** The [while len(self.records) > 512] of [finish]: every round removes one. *)
Fixpoint trim (fuel : nat) (d : odict string DispatchRecord) : odict string DispatchRecord :=
  match fuel with
  | O => d
  | S n =>
      if Nat.ltb 512 (length d) then
        match first_idle d with Some k => trim n (od_pop d k) | None => d end
      else d
  end.

Definition finish (id : string) (s : Store) : Store :=
  match od_get (records s) id with
  | None => s
  | Some r =>
      let s := upd_record id (set_active false) s in
      let key := slot_key (scope r) (request r) in
      let s := if negb (is_processing r) && no_interactions r && bool_decide (slots s !! key = Some id)
               then with_slots (delete key (slots s)) s else s in
      with_records (trim (length (records s)) (records s)) s
  end.

Definition same_request (q : AgentRequest) (r : DispatchRecord) : bool :=
  bool_decide (scope r = request_scope q) && bool_decide (rq_id (request r) = rq_id q).

Definition internal_record (fresh : string) (q : AgentRequest) : py Store store_error DispatchRecord :=
  s <- py_get ;;
  match List.find (same_request q) (rev (od_values (records s))) with
  | Some r =>
      (if active r || is_processing r then
         py_modify (λ s, with_slots (<[slot_key (request_scope q) q := dispatch_id r]> (slots s)) s)
       else py_ret tt) ;;
      py_ret r
  | None => register q fresh
  end.

Definition complete (id state error : string) (s : Store) : Store :=
  match od_get (records s) id with
  | None => s
  | Some r =>
      finish id (upd_record id (λ r, set_terminal
        [("event_type", JStr "runtime.completed"); ("state", JStr state); ("error", JStr error)]
        (set_interactions [] (set_processing false r))) s)
  end.

(** ** [append] *)

Section protocol.

(** [E2A_WIRE_SERVER_PUSH_KEY], [SESSION_MESSAGE_OWNER_SCOPE_METADATA_KEY],
    [TEAM_ATTACH_ONLY_PARAM], and the defaults of [AgentRequest()] *)
Context (push_key owner_key attach_key : string) (default_ref : json) (default_method : ReqMethod).

Definition is_passive_subscription (r : DispatchRecord) : bool :=
  match rq_method (request r), j_get (rq_params (request r)) attach_key with
  | CHAT_SEND, JBool true => true
  | _, _ => false
  end.

Definition has_pending_execution (r : DispatchRecord) : bool :=
  if negb (active r) || is_passive_subscription r then false
  else if session_inspection (rq_method (request r)) then false
  else match rq_method (request r) with
       | COMMAND_GOAL =>
           negb (String.eqb (py_lower (py_strip (py_str
             (j_or (j_get (rq_params (request r)) "action") (JStr "get"))))) "get")
       | _ => true
       end.

(** [wire.get("metadata") or {}]; [None] when reading a key of it raises *)
Definition metadata_of (wire : jdict) : option jdict :=
  as_dict (j_or (j_get wire "metadata") (JObj [])).

Definition scope_session (sc : list string) : string := default EmptyString (last sc).
Definition scope_app (sc : list string) : string := default EmptyString (sc !! 2).

Definition push_request (wire metadata : jdict) (record : option DispatchRecord) : option AgentRequest :=
  let target := str_or_empty (j_get wire "session_id") in
  if j_truth (j_get metadata push_key) && str_true target then
    let owner := j_get metadata owner_key in
    let rid := str_or_empty (j_get wire "request_id") in
    match record with
    | Some r =>
        if bool_decide (target = scope_session (scope r)) then None
        else let q := request r in
          Some (mk_request rid (JStr target)
            (JStr (py_str (j_or (j_get wire "channel") (rq_channel q))))
            (JStr (py_str (j_or owner (rq_user q))))
            (rq_ref q) (rq_method q) [("session_id", JStr target)]
            (j_merge (rq_metadata q) metadata))
    | None =>
        Some (mk_request rid (JStr target)
          (JStr (str_or_empty (j_get wire "channel")))
          (JStr (str_or_empty (j_or owner (j_get metadata "user_id"))))
          default_ref default_method [("session_id", JStr target)] metadata)
    end
  else None.

Definition frame_scope (wire : jdict) (record : option DispatchRecord) : list string :=
  match record with
  | Some r => scope r
  | None => [""; ""; ""; "null"; str_or_empty (j_get wire "session_id")]
  end.

Definition publication_scope (wire : jdict) (id : string) (s : Store) : option (list string) :=
  metadata ← metadata_of wire;
  let record := od_get (records s) id in
  Some match push_request wire metadata record with
       | Some q => request_scope q
       | None => frame_scope wire record
       end.

Definition make_frame (wire : jdict) (id : string) (record : option DispatchRecord)
    (name : string) (n : Z) : Frame :=
  let sc := frame_scope wire record in
  let payload :=
    if bool_decide (is_Some record) && str_true (scope_session sc)
    then od_set wire "session_id" (JStr (scope_session sc)) else wire in
  let metadata := default [] (metadata_of payload) in
  let metadata :=
    if bool_decide (is_Some record) && str_true (scope_app sc)
    then od_set metadata "app_id" (JStr (scope_app sc)) else metadata in
  let metadata := od_set metadata "runtime_event"
    (JObj [("worker_instance", JStr name); ("sequence", JNum n); ("dispatch_id", JStr id)]) in
  mk_frame (str_or_empty (j_get wire "request_id")) id n (od_set payload "metadata" (JObj metadata)).

(** The loop that drops the oldest frames *)
Fixpoint expire (most limit : Z) (fs : list (list string * Frame * Z)) (b ex : Z) :
    list (list string * Frame * Z) * Z * Z :=
  match fs with
  | [] => ([], b, ex)
  | (_, f, size) :: fs' =>
      if Z.ltb most (Z.of_nat (length fs)) || Z.ltb limit b
      then expire most limit fs' (b - size) (f_sequence f)
      else (fs, b, ex)
  end.

Definition push_frame (sc : list string) (f : Frame) (s : Store) : Store :=
  let '(fs, b, ex) := expire (max_events s) (max_bytes s)
    (frames s ++ [(sc, f, frame_size f)]) (bytes s + frame_size f) (expired s) in
  with_journal (f_sequence f) fs b ex s.

(** The native event inside an E2A body, when the body is a dictionary *)
Definition event_body (wire : jdict) : option jdict :=
  body ← as_dict (j_or (j_or (j_get wire "body") (j_get wire "payload")) (JObj []));
  let nested := match as_dict (j_get body "delta") with
                | Some _ => j_get body "delta"
                | None => j_get body "result"
                end in
  Some match as_dict nested with Some d => j_merge body d | None => body end.

Definition event_name (wire body : jdict) : string :=
  str_or_empty (j_or (j_get body "event_type") (j_get wire "response_kind")).
Definition event_interaction (event : string) (body : jdict) : string :=
  str_or_empty (j_or (j_or (j_get body "interaction_id") (j_get body "control_id"))
    (if py_contains "ask_user" event then j_get body "request_id" else JStr "")).
Definition asks (event : string) : bool :=
  py_contains "ask_user" event || py_contains "permission" event ||
  py_contains "approval" event || py_contains "interrupted" event.
Definition ends_execution (event : string) (body : jdict) : bool :=
  py_contains "runtime.completed" event || py_contains "chat.error" event ||
  (py_contains "chat.final" event &&
   match j_get body "final_mode" with JStr m => negb (String.eqb m "patch_segment") | _ => true end).

(** What an event does to its record, [last_sequence] and [finish] apart *)
Definition read_event (wire body : jdict) (r : DispatchRecord) : DispatchRecord :=
  let r := set_execution (py_str (j_or (j_get body "execution_id") (JStr (last_execution_id r)))) r in
  let r := if od_mem body "is_processing"
           then set_processing (j_truth (j_get body "is_processing")) r else r in
  let event := event_name wire body in
  let interaction := event_interaction event body in
  let r := if str_true interaction && asks event
           then set_processing true (set_interactions (od_set (interactions r) interaction body) r)
           else r in
  if ends_execution event body
  then set_interactions [] (set_processing false (set_terminal body r)) else r.

Definition finish_if_returned (id : string) (s : Store) : Store :=
  match od_get (records s) id with
  | Some r => if active r then s else finish id s
  | None => s
  end.

Definition observe (wire : jdict) (id : string) (s : Store) : Store :=
  let s1 := match event_body wire with
            | Some body =>
                let s := upd_record id (read_event wire body) s in
                if ends_execution (event_name wire body) body then finish_if_returned id s else s
            | None => s
            end in
  upd_record id (set_last_sequence (sequence s1)) s1.

Definition append_to (wire : jdict) (id : string) (record : option DispatchRecord) :
    py Store store_error (list string * Frame) :=
  s <- py_get ;;
  let f := make_frame wire id record (instance s) (sequence s + 1) in
  py_modify (push_frame (frame_scope wire record) f) ;;
  (if bool_decide (is_Some record) then py_modify (observe wire id) else py_ret tt) ;;
  py_ret (frame_scope wire record, f).

(** [append]; it also gives the scope the frame is stored under. *)
Definition append (fresh : string) (wire : jdict) (id : string) :
    py Store store_error (list string * Frame) :=
  s <- py_get ;;
  metadata <- py_some (metadata_of wire) AttributeError ;;
  let record := od_get (records s) id in
  match push_request wire metadata record with
  | Some target =>
      r <- internal_record fresh target ;;
      py_modify (finish (dispatch_id r)) ;;
      append_to wire (dispatch_id r) (Some r)
  | None => append_to wire id record
  end.

(** ** [snapshot], [retire_session_interactions], [replay] *)

Inductive phase := waiting_for_control | completed | executing | accepted | handler_returned.

Definition phase_of (r : DispatchRecord) : phase :=
  if negb (no_interactions r) then waiting_for_control
  else if match terminal r with Some (_ :: _) => true | _ => false end then completed
  else if match entered_at_ns r with Some n => negb (Z.eqb n 0) | None => false end then executing
  else if active r then accepted else handler_returned.

Record Snapshot := mk_snapshot {
  sn_instance : string;
  sn_cursor : Z;
  sn_history_required : bool;
  sn_processing : bool;
  sn_dispatches : list (DispatchRecord * phase);
}.

Definition snapshot (q : AgentRequest) (after : Z) (s : Store) : Snapshot :=
  let rs := filter (λ r, scope r = request_scope q) (od_values (records s)) in
  mk_snapshot (instance s) (sequence s) (Z.ltb after (expired s))
    (existsb (λ r, has_pending_execution r || is_processing r)
       (filter (λ r, is_passive_subscription r = false) rs))
    (map (λ r, (r, phase_of r)) rs).

Definition retire_target (q : AgentRequest) : string :=
  str_or_empty (j_or (j_get (rq_params q) "target_request_id") (j_get (rq_params q) "request_id")).

Definition retires (q : AgentRequest) (r : DispatchRecord) : bool :=
  bool_decide (scope r = request_scope q) && negb (is_passive_subscription r) &&
  (negb (str_true (retire_target q)) || bool_decide (rq_id (request r) = retire_target q)).

Definition retire_record (q : AgentRequest) (r : DispatchRecord) : DispatchRecord :=
  if retires q r then set_processing false (set_interactions [] r) else r.

Definition retired_ids (q : AgentRequest) (s : Store) : list string :=
  map dispatch_id (filter (λ r, retires q r && negb (active r) = true) (od_values (records s))).

Definition retire_session_interactions (q : AgentRequest) (s : Store) : Store :=
  foldl (λ s id, finish id s)
    (with_records (map (λ kv, (kv.1, retire_record q kv.2)) (records s)) s)
    (retired_ids q s).

Definition replay (q : AgentRequest) (after : Z) (s : Store) : list Frame :=
  map (λ x, x.1.2)
    (filter (λ x, x.1.1 = request_scope q ∧ (after < f_sequence x.1.2)%Z) (frames s)).

(** ** The bridge's [execution_scope] and [observe_execution_entry] *)

Definition accepted_request (parent : option DispatchRecord) (q : AgentRequest) : AgentRequest :=
  let metadata :=
    match parent with
    | Some p => if str_true (scope_app (scope p)) && negb (od_mem (rq_metadata q) "app_id")
                then od_set (rq_metadata q) "app_id" (JStr (scope_app (scope p))) else rq_metadata q
    | None => rq_metadata q
    end in
  mk_request (rq_id q) (rq_session q) (rq_channel q) (rq_user q) (rq_ref q) (rq_method q)
    (rq_params q) metadata.

(** Entering the scope; leaving it is [finish]. *)
Definition execution_scope_enter (fresh parent : string) (q : AgentRequest) :
    py Store store_error string :=
  s <- py_get ;;
  r <- internal_record fresh (accepted_request (od_get (records s) parent) q) ;;
  py_modify (upd_record (dispatch_id r) (λ r, set_processing true (set_active true r))) ;;
  py_ret (dispatch_id r).

Definition observe_execution_entry (id : string) (now : Z) (s : Store) : Store :=
  match od_get (records s) id with
  | Some r => match entered_at_ns r with
              | Some _ => s
              | None => upd_record id (set_entered now) s
              end
  | None => s
  end.

(** ** Runs *)

Inductive op :=
| ORegister (q : AgentRequest) (id : string)
| OFinish (id : string)
| OComplete (id state error : string)
| OAppend (fresh : string) (wire : jdict) (id : string)
| ORetire (q : AgentRequest)
| OEnter (fresh parent : string) (q : AgentRequest)
| OEntry (id : string) (now : Z).

(** A call, with the frame it emits if it emits one *)
Definition run_op (o : op) (s : Store) : list (list string * Frame) * Store :=
  match o with
  | ORegister q id => ([], (register q id s).2)
  | OFinish id => ([], finish id s)
  | OComplete id state error => ([], complete id state error s)
  | OAppend fresh wire id =>
      match append fresh wire id s with
      | (Ret x, s') => ([x], s')
      | (Exc _, s') => ([], s')
      end
  | ORetire q => ([], retire_session_interactions q s)
  | OEnter fresh parent q => ([], (execution_scope_enter fresh parent q s).2)
  | OEntry id now => ([], observe_execution_entry id now s)
  end.

Fixpoint run_ops (l : list op) (s : Store) : list (list string * Frame) * Store :=
  match l with
  | [] => ([], s)
  | o :: l' => let '(xs, s1) := run_op o s in
               let '(ys, s2) := run_ops l' s1 in (xs ++ ys, s2)
  end.

End protocol.

(** ** The journal *)

Definition total_size (fs : list (list string * Frame * Z)) : Z := foldr (λ x n, x.2 + n)%Z 0%Z fs.
Definition sequences (fs : list (list string * Frame * Z)) : list Z := map (λ x, f_sequence x.1.2) fs.

(** The frames kept are the last ones of a numbering without holes, within the
    two limits, and [_bytes] is their size. *)
Record journal_ok (s : Store) : Prop := {
  jo_sequences : sequences (frames s) = seqZ (expired s + 1) (sequence s - expired s);
  jo_sizes : Forall (λ x, x.2 = frame_size x.1.2) (frames s);
  jo_bytes : bytes s = total_size (frames s);
  jo_bounds : (0 ≤ expired s ≤ sequence s)%Z;
  jo_events : (Z.of_nat (length (frames s)) ≤ max_events s)%Z;
  jo_limit : (bytes s ≤ max_bytes s)%Z;
}.

(** What the journal has dropped of all the frames emitted *)
Definition dropped_ok (ex : Z) (gone : list (list string * Frame)) : Prop :=
  Forall (λ x, f_sequence x.2 ≤ ex)%Z gone ∧
  (ex = 0%Z ∧ gone = [] ∨ ∃ x, x ∈ gone ∧ f_sequence x.2 = ex).

Definition keeps_log (log : list (list string * Frame)) (s : Store) : Prop :=
  ∃ gone, log = gone ++ map fst (frames s) ∧ dropped_ok (expired s) gone.

(** The fields only [push_frame] writes *)
Definition same_journal (s s' : Store) : Prop :=
  sequence s' = sequence s ∧ frames s' = frames s ∧ bytes s' = bytes s ∧
  max_events s' = max_events s ∧ max_bytes s' = max_bytes s ∧ expired s' = expired s.

#[export] Instance same_journal_refl : Reflexive same_journal.
Proof. by intros s; repeat split. Qed.
#[export] Instance same_journal_trans : Transitive same_journal.
Proof. unfold same_journal. intros s1 s2 s3 H1 H2. intuition congruence. Qed.

Create HintDb journal.

Lemma same_journal_records d s : same_journal s (with_records d s).
Proof. by repeat split. Qed.
Lemma same_journal_slots m s : same_journal s (with_slots m s).
Proof. by repeat split. Qed.
Lemma same_journal_upd id f s : same_journal s (upd_record id f s).
Proof. unfold upd_record. case_match; [by repeat split|done]. Qed.
#[export] Hint Resolve same_journal_records same_journal_slots same_journal_upd : journal.
#[export] Hint Extern 1 (same_journal ?s ?s) => reflexivity : journal.

Lemma same_journal_finish id s : same_journal s (finish id s).
Proof.
  unfold finish. case_match; [|done].
  etrans; [apply (same_journal_upd id (set_active false))|]. case_match; by repeat split.
Qed.

Lemma same_journal_complete id state error s : same_journal s (complete id state error s).
Proof.
  unfold complete. case_match; [|done].
  etrans; [eapply same_journal_upd|apply same_journal_finish].
Qed.

Lemma same_journal_register q id s : same_journal s (register q id s).2.
Proof.
  unfold register, py_bind, py_get, py_guard, py_modify, py_ret, py_raise.
  repeat case_match; simplify_eq/=; by repeat split.
Qed.

Lemma same_journal_internal fresh q s : same_journal s (internal_record fresh q s).2.
Proof.
  unfold internal_record. unfold py_bind at 1. simpl. destruct (List.find _ _) as [r|].
  - unfold py_bind. destruct (_ || _); simpl; by repeat split.
  - apply same_journal_register.
Qed.
#[export] Hint Resolve same_journal_finish same_journal_complete same_journal_register
  same_journal_internal : journal.

Lemma same_journal_observe wire id s : same_journal s (observe wire id s).
Proof.
  unfold observe, finish_if_returned. etrans; [|apply same_journal_upd].
  destruct (event_body wire) as [body|]; [|done].
  destruct (ends_execution _ _); [|auto with journal].
  repeat case_match; [|etrans; [|apply same_journal_finish]|]; auto with journal.
Qed.

Lemma same_journal_retire attach q s : same_journal s (retire_session_interactions attach q s).
Proof.
  unfold retire_session_interactions.
  etrans; [apply (same_journal_records (map (λ kv, (kv.1, retire_record attach q kv.2)) (records s)) s)|].
  generalize (with_records (map (λ kv, (kv.1, retire_record attach q kv.2)) (records s)) s).
  induction (retired_ids attach q s) as [|id ids IH]; intros s'; simpl; [reflexivity|].
  etrans; [apply same_journal_finish|apply IH].
Qed.

Lemma same_journal_enter fresh parent q s :
  same_journal s (execution_scope_enter fresh parent q s).2.
Proof.
  unfold execution_scope_enter. unfold py_bind at 1. simpl. unfold py_bind.
  pose proof (same_journal_internal fresh (accepted_request (od_get (records s) parent) q) s) as H.
  destruct (internal_record _ _ s) as [[r|e] s1]; simpl in *; [|done].
  etrans; [exact H|apply same_journal_upd].
Qed.

Lemma same_journal_entry id now s : same_journal s (observe_execution_entry id now s).
Proof. unfold observe_execution_entry. repeat case_match; auto with journal. Qed.

Lemma journal_ok_same s s' : same_journal s s' → journal_ok s → journal_ok s'.
Proof.
  intros (H1 & H2 & H3 & H4 & H5 & H6) [].
  by split; rewrite ?H1, ?H2, ?H3, ?H4, ?H5, ?H6.
Qed.

Lemma keeps_log_same log s s' : same_journal s s' → keeps_log log s → keeps_log log s'.
Proof. intros (_ & H2 & _ & _ & _ & H6) (gone & ? & ?). exists gone. by rewrite H2, H6. Qed.

Lemma expire_spec most limit n fs b ex fs' b' ex' :
  (0 ≤ most)%Z → (0 ≤ limit)%Z → (ex ≤ n)%Z →
  sequences fs = seqZ (ex + 1) (n - ex) → b = total_size fs →
  expire most limit fs b ex = (fs', b', ex') →
  (ex ≤ ex' ≤ n)%Z ∧ sequences fs' = seqZ (ex' + 1) (n - ex') ∧ b' = total_size fs' ∧
  (Z.of_nat (length fs') ≤ most)%Z ∧ (b' ≤ limit)%Z ∧
  ∃ gone, fs = gone ++ fs' ∧ Forall (λ x, f_sequence x.1.2 ≤ ex')%Z gone ∧
    (ex' = ex ∧ gone = [] ∨ ∃ x, x ∈ gone ∧ f_sequence x.1.2 = ex').
Proof.
  intros Hmost Hlimit. revert b ex. induction fs as [|[[sc f] size] fs IH]; intros b ex Hn Hseq Hb He.
  - simpl in He. simplify_eq/=. split_and!; [lia|lia|done|done|lia|lia|].
    exists []. split_and!; [done|constructor|by left].
  - cbn [sequences map] in Hseq. cbn [expire] in He.
    assert (0 < n - ex)%Z as Hpos.
    { destruct (decide (0 < n - ex)%Z); [done|]. by rewrite seqZ_nil in Hseq by lia. }
    rewrite seqZ_cons in Hseq by done. injection Hseq as Hf Hrest. simpl in Hf.
    destruct (Z.ltb most _ || Z.ltb limit b) eqn:Et.
    + apply IH in He; [| lia | | subst b; simpl; lia].
      2:{ fold (sequences fs) in Hrest. rewrite Hrest. f_equal; lia. }
      destruct He as (? & ? & ? & ? & ? & gone & -> & Hle & Hlast).
      split_and!; [lia|lia|done|done|done|done|].
      exists ((sc, f, size) :: gone). split_and!; [done|by constructor; [simpl; lia|]|].
      right. destruct Hlast as [[-> ->]|(x & ? & ?)].
      * exists (sc, f, size). split; [by left|done].
      * exists x. split; [by right|done].
    + apply orb_false_iff in Et as [Et1%Z.ltb_ge Et2%Z.ltb_ge]. simplify_eq.
      split_and!; [lia|lia| |done|done|done|].
      { rewrite seqZ_cons by done. cbn [sequences map]. by rewrite <-Hrest, <-Hf. }
      exists []. split_and!; [done|constructor|by left].
Qed.

Lemma push_frame_ok sc f s log :
  f_sequence f = (sequence s + 1)%Z → journal_ok s → (0 ≤ max_events s)%Z → (0 ≤ max_bytes s)%Z →
  keeps_log log s → journal_ok (push_frame sc f s) ∧ keeps_log (log ++ [(sc, f)]) (push_frame sc f s).
Proof.
  intros Hf [Hseq Hsz Hb Hex _ _] Hm Hl (gone & -> & Hgone). unfold push_frame.
  destruct (expire _ _ _ _ _) as [[fs' b'] ex'] eqn:He.
  eapply (expire_spec _ _ (f_sequence f)) in He as (? & ? & ? & ? & ? & more & Hfs & Hle & Hlast);
    [|done|done|lia| |].
  2:{ unfold sequences in *. rewrite map_app, Hseq, Hf. simpl.
      replace (sequence s + 1 - expired s)%Z with ((sequence s - expired s) + 1)%Z by lia.
      rewrite (seqZ_app _ (sequence s - expired s) 1) by lia. do 2 f_equal. rewrite seqZ_cons, seqZ_nil by lia.
      f_equal. lia. }
  2:{ rewrite Hb. clear. induction (frames s) as [|x l IH]; simpl; lia. }
  split.
  - split; simpl; try done; [|lia].
    assert (Forall (λ x, x.2 = frame_size x.1.2) (more ++ fs')) as Hall.
    { rewrite <-Hfs. apply Forall_app. split; [done|by repeat constructor]. }
    by apply Forall_app in Hall as [_ ?].
  - exists (gone ++ map fst more). simpl. split.
    { by rewrite <-!app_assoc, <-map_app, <-Hfs, map_app. }
    destruct Hgone as [Hgle Hglast]. split.
    + apply Forall_app. split.
      * eapply Forall_impl; [exact Hgle|]. simpl. intros. lia.
      * apply Forall_map. eapply Forall_impl; [exact Hle|]. done.
    + destruct Hlast as [[-> ->]|(x & Hx & Hxs)].
      * rewrite app_nil_r. exact Hglast.
      * right. exists x.1. split; [|done]. apply elem_of_app. right.
        apply list_elem_of_fmap. eauto.
Qed.

Lemma journal_limits s : journal_ok s → (0 ≤ max_events s)%Z ∧ (0 ≤ max_bytes s)%Z.
Proof.
  intros [_ Hsz Hb _ He Hl]. split; [lia|].
  enough (0 ≤ total_size (frames s))%Z by lia. clear Hb He Hl.
  induction Hsz as [|x l Hx Hl IH]; simpl; [lia|].
  rewrite Hx. unfold frame_size. pose proof (utf8_len_nonneg (json_dumps (frame_json x.1.2))). lia.
Qed.

Lemma append_to_spec wire id record s :
  ∃ f s', append_to wire id record s = (Ret (frame_scope wire record, f), s') ∧
    f = make_frame wire id record (instance s) (sequence s + 1) ∧
    s' = (if bool_decide (is_Some record) then observe wire id else λ s, s)
           (push_frame (frame_scope wire record) f s).
Proof.
  unfold append_to, py_bind. simpl. destruct (bool_decide (is_Some record)); simpl; eauto.
Qed.

Lemma append_journal push owner dref dmethod fresh wire id s r s' :
  append push owner dref dmethod fresh wire id s = (r, s') →
  match r with
  | Exc _ => same_journal s s'
  | Ret (sc, f) =>
      ∃ s1, same_journal s s1 ∧ f_sequence f = (sequence s1 + 1)%Z ∧
            same_journal (push_frame sc f s1) s'
  end.
Proof.
  assert (∀ id record s1 r s', same_journal s s1 → append_to wire id record s1 = (r, s') →
    match r with
    | Exc _ => same_journal s s'
    | Ret (sc, f) => ∃ s1, same_journal s s1 ∧ f_sequence f = (sequence s1 + 1)%Z ∧
                           same_journal (push_frame sc f s1) s'
    end) as Hto.
  { clear. intros id record s1 r s' Hs Ha.
    destruct (append_to_spec wire id record s1) as (f & s2 & Heq & Hf & Hs2).
    rewrite Heq in Ha. injection Ha as <- <-. exists s1. subst f s2.
    split_and!; [done|done|]. destruct (bool_decide _); [apply same_journal_observe|done]. }
  unfold append. unfold py_bind at 1. cbn [py_get]. unfold py_bind at 1.
  destruct (metadata_of wire) as [md|]; cbn [py_some py_ret py_raise].
  2:{ intros [= <- <-]. reflexivity. }
  destruct (push_request _ _ _ _ _ _ _) as [target|]; [|by apply Hto].
  unfold py_bind at 1. pose proof (same_journal_internal fresh target s) as Hi.
  destruct (internal_record fresh target s) as [[rec|e] s1]; cbn [snd] in Hi.
  - unfold py_bind. cbn [py_modify]. apply Hto. etrans; [exact Hi|apply same_journal_finish].
  - by intros [= <- <-].
Qed.

Section runs.
Context (push owner attach : string) (dref : json) (dmethod : ReqMethod).
#[local] Abbreviation step := (run_op push owner attach dref dmethod).
#[local] Abbreviation run := (run_ops push owner attach dref dmethod).

Lemma run_op_journal o s xs s' log :
  step o s = (xs, s') → journal_ok s → keeps_log log s → journal_ok s' ∧ keeps_log (log ++ xs) s'.
Proof.
  intros Ho Hok Hlog.
  assert (∀ s1, same_journal s s1 → xs = [] → s' = s1 → journal_ok s' ∧ keeps_log (log ++ xs) s') as Hsame.
  { intros s1 H -> ->. rewrite app_nil_r.
    split; [by eapply journal_ok_same|by eapply keeps_log_same]. }
  destruct o; simpl in Ho.
  1-3,5-7: injection Ho as <- <-; eapply Hsame; [|done|done];
    auto using same_journal_register, same_journal_finish, same_journal_complete,
      same_journal_retire, same_journal_enter, same_journal_entry.
  destruct (append _ _ _ _ _ _ _ _) as [[[sc f]|e] s1] eqn:Ha; injection Ho as <- <-;
    apply append_journal in Ha; [|by eapply Hsame].
  destruct Ha as (s2 & H2 & Hf & H3). destruct (journal_limits s Hok) as [He Hb].
  assert (max_events s2 = max_events s ∧ max_bytes s2 = max_bytes s) as [Em Eb] by (by destruct H2 as (_&_&_&?&?&_)).
  destruct (push_frame_ok sc f s2 log) as [Hj Hk]; [done|by eapply journal_ok_same|lia|lia|by eapply keeps_log_same|].
  split; [by eapply journal_ok_same|by eapply keeps_log_same].
Qed.

Lemma run_ops_journal l s xs s' log :
  run l s = (xs, s') → journal_ok s → keeps_log log s → journal_ok s' ∧ keeps_log (log ++ xs) s'.
Proof.
  revert s xs log. induction l as [|o l IH]; intros s xs log; simpl.
  - intros [= <- <-] ? ?. by rewrite app_nil_r.
  - destruct (run_op push owner attach dref dmethod o s) as [x s1] eqn:Eo.
    destruct (run_ops push owner attach dref dmethod l s1) as [y s2] eqn:El. intros [= <- <-] Hok Hlog.
    eapply run_op_journal in Eo as [? ?]; [|done..].
    rewrite app_assoc. by eapply IH.
Qed.

Lemma store_init_ok name e b :
  (0 ≤ e)%Z → (0 ≤ b)%Z → journal_ok (store_init name e b) ∧ keeps_log [] (store_init name e b).
Proof.
  intros He Hb. split.
  - split; simpl; try done; lia.
  - exists []. split; [done|]. split; [constructor|by left].
Qed.

(** Whatever calls are made on a new journal, the frames it keeps are the
    latest ones, numbered without holes up to the cursor; there are never more
    than [max_events] of them, their stored sizes are their sizes as UTF-8 JSON,
    and the byte count is their sum and stays within [max_bytes]. *)
Theorem journal_invariant name e b l xs s :
  (0 ≤ e)%Z → (0 ≤ b)%Z → run l (store_init name e b) = (xs, s) →
  sequences (frames s) = seqZ (expired s + 1) (sequence s - expired s) ∧
  (0 ≤ expired s ≤ sequence s)%Z ∧
  (Z.of_nat (length (frames s)) ≤ max_events s)%Z ∧
  bytes s = foldr (λ x n, frame_size x.1.2 + n)%Z 0%Z (frames s) ∧ (bytes s ≤ max_bytes s)%Z.
Proof.
  intros He Hb Hrun. destruct (store_init_ok name e b He Hb) as [H1 H2].
  destruct (run_ops_journal _ _ _ _ _ Hrun H1 H2) as [[? Hsz Hbytes ? ? ?] _].
  split_and!; try done; [lia|lia|]. rewrite Hbytes. clear -Hsz.
  induction Hsz as [|x fs Hx _ IH]; simpl; [done|]. by rewrite IH, Hx.
Qed.

Lemma replay_of_log q after s gone :
  dropped_ok (expired s) gone → (expired s ≤ after)%Z →
  map snd (filter (λ x, x.1 = request_scope q ∧ (after < f_sequence x.2)%Z)
    (gone ++ map fst (frames s))) = replay q after s.
Proof.
  intros [Hgone _] Hafter. rewrite filter_app.
  assert (filter (λ x, x.1 = request_scope q ∧ (after < f_sequence x.2)%Z) gone = []) as ->.
  { induction Hgone as [|x l Hx _ IH]; [done|]. rewrite filter_cons_False; [done|]. lia. }
  unfold replay. simpl. induction (frames s) as [|x l IH]; [done|]. simpl.
  rewrite !filter_cons. destruct (decide (x.1.1 = _ ∧ _)); simpl; by rewrite IH.
Qed.

Lemma kept_after s x :
  journal_ok s → x ∈ map fst (frames s) → (expired s < f_sequence x.2)%Z.
Proof.
  intros Hok (y & -> & Hy)%list_elem_of_fmap.
  assert (f_sequence y.1.2 ∈ sequences (frames s)) as Hs by (apply list_elem_of_fmap; eauto).
  rewrite (jo_sequences s Hok), elem_of_seqZ in Hs. lia.
Qed.

(** C36: A client that reconnects with the sequence number it saw last is told
    that it must reload the history exactly when a frame later than that number
    has been dropped; when it is not told so, [replay] gives it every later
    frame ever emitted for its scope, in order, and nothing else. *)
Theorem replay_lossless name e b l log s q after :
  (0 ≤ e)%Z → (0 ≤ b)%Z → (0 ≤ after)%Z → run l (store_init name e b) = (log, s) →
  let required := sn_history_required (snapshot attach q after s) in
  (required = true ↔
     ∃ x, x ∈ log ∧ (after < f_sequence x.2)%Z ∧ x ∉ map fst (frames s)) ∧
  (required = false →
     replay q after s =
     map snd (filter (λ x, x.1 = request_scope q ∧ (after < f_sequence x.2)%Z) log)).
Proof.
  intros He Hb Ha Hrun required. destruct (store_init_ok name e b He Hb) as [H1 H2].
  destruct (run_ops_journal _ _ _ _ _ Hrun H1 H2) as [Hok (gone & Hlog & Hgone)].
  simpl in Hlog. subst log.
  unfold required, snapshot, sn_history_required. split.
  - rewrite Z.ltb_lt. destruct Hgone as [Hle Hlast]. split.
    + intros Hlt. destruct Hlast as [[Hz _]|(x & Hx & Hseq)]; [lia|].
      exists x. split_and!; [apply elem_of_app; by left|lia|].
      intros Hin. pose proof (kept_after s x Hok Hin). lia.
    + intros (x & [Hx|?]%elem_of_app & ? & ?); [|done].
      rewrite Forall_forall in Hle. specialize (Hle x Hx). lia.
  - rewrite Z.ltb_ge. intros Hle. by rewrite replay_of_log.
Qed.

End runs.

(** ** The records *)

(** What trimming means: the [n] oldest idle records go. *)
Fixpoint drop_idle (n : nat) (d : odict string DispatchRecord) : odict string DispatchRecord :=
  match n, d with
  | S m, (k, r) :: d' => if idle r then drop_idle m d' else (k, r) :: drop_idle n d'
  | _, _ => d
  end.

Lemma drop_idle_0 d : drop_idle 0 d = d.
Proof. by destruct d as [|[k r] d]. Qed.

Lemma first_idle_elem d k : first_idle d = Some k → k ∈ od_keys d.
Proof.
  induction d as [|[k' r] d IH]; simpl; [done|]. destruct (idle r).
  - intros [= ->]. by left.
  - intros H. right. by apply IH.
Qed.

Lemma drop_idle_none n d : first_idle d = None → drop_idle n d = d.
Proof.
  revert n. induction d as [|[k r] d IH]; intros [|n]; simpl; try done.
  destruct (idle r); [done|]. intros H. by rewrite IH.
Qed.

Lemma drop_idle_S n d k :
  od_wf d → first_idle d = Some k → drop_idle (S n) d = drop_idle n (od_pop d k).
Proof.
  induction d as [|[k' r] d IH]; [done|]. intros Hwf Hk. cbn [first_idle drop_idle] in *.
  inversion_clear Hwf as [|? ? Hnot Hwf']. unfold od_pop. rewrite filter_cons. simpl in *.
  destruct (idle r) eqn:Ei.
  - injection Hk as ->. rewrite decide_False by auto. fold (od_pop d k).
    by rewrite od_pop_fresh by by apply od_get_None.
  - apply first_idle_elem in Hk as Hin. rewrite decide_True by congruence.
    fold (od_pop d k). specialize (IH Hwf' Hk). rewrite IH.
    destruct n; simpl; [by rewrite drop_idle_0|]. by rewrite Ei.
Qed.

Lemma trim_drop fuel d :
  od_wf d → length d ≤ fuel → trim fuel d = drop_idle (length d - 512) d.
Proof.
  revert d. induction fuel as [|n IH]; intros d Hwf Hlen; simpl.
  { destruct d as [|[k r] d]; [done|simpl in Hlen; lia]. }
  destruct (Nat.ltb_spec 512 (length d)) as [Hlt|Hge].
  - destruct (first_idle d) as [k|] eqn:Ek; [|by rewrite drop_idle_none].
    apply first_idle_elem in Ek as Hk. pose proof (od_length_pop d k Hwf) as Hpop.
    apply od_get_is_Some in Hk. specialize (Hpop Hk).
    rewrite IH; [|by apply od_wf_pop|lia].
    replace (length d - 512) with (S (length (od_pop d k) - 512)) by lia.
    by rewrite <-drop_idle_S.
  - replace (length d - 512) with 0 by lia. by rewrite drop_idle_0.
Qed.

Lemma drop_idle_sublist n d : drop_idle n d `sublist_of` d.
Proof.
  revert n. induction d as [|[k r] d IH]; intros [|n]; simpl; try done.
  destruct (idle r); [by apply sublist_cons|by apply sublist_skip].
Qed.

Lemma drop_idle_wf n d : od_wf d → od_wf (drop_idle n d).
Proof. intros Hwf. eapply sublist_NoDup; [exact Hwf|]. apply fmap_sublist, drop_idle_sublist. Qed.

Lemma drop_idle_get n d k r :
  od_wf d → od_get (drop_idle n d) k = Some r → od_get d k = Some r.
Proof.
  intros Hwf Hget%od_get_elem. apply od_elem_get; [done|].
  eapply elem_of_sublist; [exact Hget|apply drop_idle_sublist].
Qed.

Lemma drop_idle_busy n d k r :
  od_get d k = Some r → idle r = false → od_get (drop_idle n d) k = Some r.
Proof.
  revert n. induction d as [|[k' r'] d IH]; intros [|n]; try done.
  cbn [od_get drop_idle]. destruct (decide (k = k')) as [->|Hne].
  - intros [= ->] Hidle. rewrite Hidle. simpl. by rewrite decide_True.
  - intros Hget Hidle. destruct (idle r'); [by apply IH|]. simpl.
    rewrite decide_False by done. by apply IH.
Qed.

(** Dropping stops early only when nothing idle is left. *)
Lemma drop_idle_length n d :
  length (drop_idle n d) = length d - n ∨ first_idle (drop_idle n d) = None.
Proof.
  revert n. induction d as [|[k r] d IH]; intros [|n]; simpl; [by left..|].
  destruct (idle r) eqn:Ei; simpl; [by apply IH|]. rewrite Ei.
  destruct (IH (S n)) as [H|H]; [|by right].
  destruct (decide (S n ≤ length d)); [left; lia|].
  right. destruct (drop_idle (S n) d) as [|? ?]; [done|]. simpl in H. lia.
Qed.

Lemma first_idle_None d k r : first_idle d = None → (k, r) ∈ d → idle r = false.
Proof.
  induction d as [|[k' r'] d IH]; simpl; [by intros _ ?%elem_of_nil|].
  destruct (idle r') eqn:Ei; [done|]. intros Hn [?|?]%elem_of_cons; [by simplify_eq|by apply IH].
Qed.

Record records_ok (s : Store) : Prop := {
  ro_wf : od_wf (records s);
  ro_record : ∀ k r, od_get (records s) k = Some r →
    dispatch_id r = k ∧ scope r = request_scope (request r);
  ro_limit : length (records s) ≤ 2048;
}.

(** An assignment that leaves a record's identity alone *)
Definition keeps_identity (f : DispatchRecord → DispatchRecord) : Prop :=
  ∀ r, dispatch_id (f r) = dispatch_id r ∧ request (f r) = request r ∧ scope (f r) = scope r.

Lemma upd_record_get id f s k :
  od_get (records (upd_record id f s)) k =
  if decide (k = id) then f <$> od_get (records s) id else od_get (records s) k.
Proof.
  unfold upd_record. destruct (od_get (records s) id) as [r|] eqn:E; simpl.
  - rewrite od_get_set. repeat case_decide; congruence.
  - destruct (decide (k = id)) as [->|]; [by rewrite E|done].
Qed.

Lemma upd_record_length id f s : length (records (upd_record id f s)) = length (records s).
Proof.
  unfold upd_record. destruct (od_get (records s) id) as [r|] eqn:E; simpl; [|done].
  rewrite od_length_set. unfold od_mem. by rewrite E.
Qed.

Lemma upd_record_slots id f s : slots (upd_record id f s) = slots s.
Proof. unfold upd_record. by case_match. Qed.

Lemma records_ok_upd id f s : keeps_identity f → records_ok s → records_ok (upd_record id f s).
Proof.
  intros Hf [Hwf Hrec Hlim]. split.
  - unfold upd_record. case_match; [by apply od_wf_set|done].
  - intros k r. rewrite upd_record_get. destruct (decide (k = id)) as [->|]; [|apply Hrec].
    intros (r0 & Hr0 & ->)%fmap_Some. destruct (Hf r0) as (-> & -> & ->). by apply Hrec.
  - by rewrite upd_record_length.
Qed.

Lemma records_ok_same s s' : records s' = records s → records_ok s → records_ok s'.
Proof. intros H []. by split; rewrite ?H. Qed.

Lemma records_ok_drop n s :
  records_ok s → records_ok (with_records (drop_idle n (records s)) s).
Proof.
  intros [Hwf Hrec Hlim]. split; simpl.
  - by apply drop_idle_wf.
  - intros k r Hk%drop_idle_get; [by apply Hrec|done].
  - pose proof (sublist_length _ _ (drop_idle_sublist n (records s))). lia.
Qed.

Definition record_key (r : DispatchRecord) : list string := slot_key (scope r) (request r).

(** [finish] gives the record's slot back: nothing is pending on it and it is
    the slot's holder. *)
Definition gives_back (id : string) (r : DispatchRecord) (s : Store) : bool :=
  negb (is_processing r) && no_interactions r && bool_decide (slots s !! record_key r = Some id).

Lemma finish_eq id s r :
  od_wf (records s) → od_get (records s) id = Some r →
  records (finish id s) =
    drop_idle (length (records s) - 512) (od_set (records s) id (set_active false r)) ∧
  slots (finish id s) =
    (if gives_back id r s then delete (record_key r) (slots s) else slots s).
Proof.
  intros Hwf Hr. unfold finish. rewrite Hr. rewrite upd_record_slots. fold (record_key r).
  fold (gives_back id r s).
  pose proof (upd_record_length id (set_active false) s) as Hlen.
  assert (od_wf (records (upd_record id (set_active false) s))) as Hwf'.
  { unfold upd_record. rewrite Hr. by apply od_wf_set. }
  assert (records (upd_record id (set_active false) s) =
          od_set (records s) id (set_active false r)) as Hrec by (unfold upd_record; by rewrite Hr).
  split; destruct (gives_back id r s); simpl; rewrite ?upd_record_slots; try done;
    by rewrite trim_drop, Hlen, Hrec by done.
Qed.

Lemma records_ok_finish id s : records_ok s → records_ok (finish id s).
Proof.
  intros Hok. destruct (od_get (records s) id) as [r|] eqn:Hr.
  2:{ unfold finish. by rewrite Hr. }
  eapply (records_ok_same (with_records (drop_idle (length (records s) - 512)
    (records (upd_record id (set_active false) s))) (upd_record id (set_active false) s))).
  - simpl. destruct (finish_eq id s r (ro_wf s Hok) Hr) as [-> _].
    unfold upd_record. by rewrite Hr.
  - by apply records_ok_drop, records_ok_upd.
Qed.

Lemma register_cases q id s :
  (∃ e, register q id s = (Exc e, s)) ∨
  length (records s) < 2048 ∧ register q id s = (Ret (new_record id q),
    with_slots (<[slot_key (request_scope q) q := id]> (slots s))
      (with_records (od_set (records s) id (new_record id q)) s)).
Proof.
  unfold register, py_bind, py_get, py_guard, py_modify, py_ret, py_raise.
  destruct (negb (bool_decide _)); [|by eauto]. destruct (negb (Nat.leb 256 _)); [|by eauto].
  destruct (Nat.leb_spec 2048 (length (records s))); simpl; [by eauto|by right].
Qed.

Lemma records_ok_register q id s : records_ok s → records_ok (register q id s).2.
Proof.
  intros Hok. destruct (register_cases q id s) as [[e ->]|[Hlen ->]]; [done|]. simpl.
  destruct Hok as [Hwf Hrec Hlim]. split; simpl.
  - by apply od_wf_set.
  - intros k r. rewrite od_get_set. case_decide as Hk; [|by apply Hrec].
    intros [= <-]. by rewrite Hk.
  - rewrite od_length_set. case_match; lia.
Qed.

Lemma records_ok_internal fresh q s : records_ok s → records_ok (internal_record fresh q s).2.
Proof.
  intros Hok. unfold internal_record. unfold py_bind at 1. simpl.
  destruct (List.find _ _) as [r|]; [|by apply records_ok_register].
  unfold py_bind. destruct (_ || _); simpl; [by apply (records_ok_same s)|done].
Qed.

Lemma read_event_identity wire body : keeps_identity (read_event wire body).
Proof. intros r. unfold read_event. repeat case_match; done. Qed.

Lemma records_ok_observe wire id s : records_ok s → records_ok (observe wire id s).
Proof.
  intros Hok. unfold observe, finish_if_returned. apply records_ok_upd; [by intros r|].
  destruct (event_body wire) as [body|]; [|done].
  pose proof (records_ok_upd id _ s (read_event_identity wire body) Hok) as Hupd.
  destruct (ends_execution _ _); [|done]. repeat case_match; try done.
  by apply records_ok_finish.
Qed.

Lemma records_ok_push sc f s : records_ok s → records_ok (push_frame sc f s).
Proof.
  apply records_ok_same. unfold push_frame.
  by destruct (expire _ _ _ _ _) as [[??]?].
Qed.

Lemma records_ok_append push owner dref dmethod fresh wire id s :
  records_ok s → records_ok (append push owner dref dmethod fresh wire id s).2.
Proof.
  assert (∀ id record s, records_ok s → records_ok (append_to wire id record s).2) as Hto.
  { clear. intros id record s Hok.
    destruct (append_to_spec wire id record s) as (f & s' & -> & _ & ->). simpl.
    destruct (bool_decide _); [apply records_ok_observe|]; by apply records_ok_push. }
  intros Hok. unfold append. unfold py_bind at 1. cbn [py_get]. unfold py_bind at 1.
  destruct (metadata_of wire) as [md|]; cbn [py_some py_ret py_raise]; [|done].
  destruct (push_request _ _ _ _ _ _ _) as [target|]; [|by apply Hto].
  unfold py_bind at 1. pose proof (records_ok_internal fresh target s Hok) as Hi.
  destruct (internal_record fresh target s) as [[rec|e] s1]; [|done].
  unfold py_bind. cbn [py_modify]. by apply Hto, records_ok_finish.
Qed.

Lemma od_get_map_values (f : DispatchRecord → DispatchRecord) (d : odict string DispatchRecord) k :
  od_get (map (λ kv, (kv.1, f kv.2)) d) k = f <$> od_get d k.
Proof. induction d as [|[k' r] d IH]; simpl; [done|]. by case_decide. Qed.

Lemma od_keys_map_values (f : DispatchRecord → DispatchRecord) (d : odict string DispatchRecord) :
  od_keys (map (λ kv, (kv.1, f kv.2)) d) = od_keys d.
Proof. unfold od_keys. induction d as [|[k' r] d IH]; simpl; [done|]. by f_equal. Qed.

Lemma retire_record_identity attach q : keeps_identity (retire_record attach q).
Proof. intros r. unfold retire_record. by case_match. Qed.

Definition retire_marked (attach : string) (q : AgentRequest) (s : Store) : Store :=
  with_records (map (λ kv, (kv.1, retire_record attach q kv.2)) (records s)) s.

Lemma records_ok_marked attach q s : records_ok s → records_ok (retire_marked attach q s).
Proof.
  intros [Hwf Hrec Hlim]. split; simpl.
  - unfold od_wf. by rewrite od_keys_map_values.
  - intros k r. rewrite od_get_map_values. intros (r0 & Hr0 & ->)%fmap_Some.
    destruct (retire_record_identity attach q r0) as (-> & -> & ->). by apply Hrec.
  - by rewrite length_map.
Qed.

Lemma records_ok_finishes ids s : records_ok s → records_ok (foldl (λ s id, finish id s) s ids).
Proof.
  revert s. induction ids as [|id ids IH]; intros s Hok; [done|].
  simpl. by apply IH, records_ok_finish.
Qed.

Lemma records_ok_enter fresh parent q s :
  records_ok s → records_ok (execution_scope_enter fresh parent q s).2.
Proof.
  intros Hok. unfold execution_scope_enter. unfold py_bind at 1. simpl. unfold py_bind.
  pose proof (records_ok_internal fresh (accepted_request (od_get (records s) parent) q) s Hok) as H.
  destruct (internal_record _ _ s) as [[r|e] s1]; simpl in *; [|done].
  by apply records_ok_upd.
Qed.

Lemma records_ok_op push owner attach dref dmethod o s :
  records_ok s → records_ok (run_op push owner attach dref dmethod o s).2.
Proof.
  intros Hok. destruct o as [q id|id|id state error|fresh wire id|q|fresh parent q|id now]; simpl.
  - by apply records_ok_register.
  - by apply records_ok_finish.
  - unfold complete. case_match; [|done]. by apply records_ok_finish, records_ok_upd.
  - pose proof (records_ok_append push owner dref dmethod fresh wire id s Hok) as H.
    by destruct (append _ _ _ _ _ _ _ _) as [[x|e] s1].
  - by apply records_ok_finishes, records_ok_marked.
  - by apply records_ok_enter.
  - unfold observe_execution_entry. repeat case_match; try done. by apply records_ok_upd.
Qed.

Lemma finish_empty_drop id s r :
  od_wf (records s) → length (records s) ≤ 512 → od_get (records s) id = Some r →
  idle r = true → records (finish id s) = records s.
Proof.
  intros Hwf Hlen Hr Hidle. destruct (finish_eq id s r Hwf Hr) as [-> _].
  replace (length (records s) - 512) with 0 by lia. rewrite drop_idle_0.
  assert (set_active false r = r) as ->.
  { unfold idle in Hidle. destruct r as [? ? ? [] ? ? ? ? ? ?]; done. }
  by apply od_set_id.
Qed.

Definition held_by (ids : list string) (s : Store) (key : list string) (id : string) : bool :=
  bool_decide (id ∈ ids) &&
  match od_get (records s) id with Some r => bool_decide (record_key r = key) | None => false end.

(** Finishing idle records, while nothing is trimmed, only gives slots back. *)
Lemma finishes_idle ids s :
  od_wf (records s) → length (records s) ≤ 512 →
  (∀ id, id ∈ ids → ∃ r, od_get (records s) id = Some r ∧ idle r = true) →
  let s' := foldl (λ s id, finish id s) s ids in
  records s' = records s ∧
  ∀ key, slots s' !! key =
    (id ← slots s !! key; if held_by ids s key id then None else Some id).
Proof.
  revert s. induction ids as [|id ids IH]; intros s Hwf Hlen Hids; simpl.
  { split; [done|]. intros key. by destruct (slots s !! key). }
  destruct (Hids id) as (r & Hr & Hidle); [by left|].
  pose proof (finish_empty_drop id s r Hwf Hlen Hr Hidle) as Hrec.
  destruct (IH (finish id s)) as [IHr IHs]; [by rewrite Hrec..| |].
  { intros id' Hin. rewrite Hrec. apply Hids. by right. }
  split; [by rewrite IHr|]. intros key. rewrite IHs.
  destruct (finish_eq id s r Hwf Hr) as [_ ->]. unfold gives_back, held_by. rewrite Hrec.
  unfold idle in Hidle. apply andb_true_iff in Hidle as [[_ ->]%andb_true_iff ->]. simpl.
  destruct (bool_decide_reflect (slots s !! record_key r = Some id)) as [Hs|Hs].
  - destruct (decide (record_key r = key)) as [<-|Hne].
    + rewrite lookup_delete_eq, Hs. simpl. rewrite (bool_decide_eq_true_2 (id ∈ _)) by by left.
      by rewrite Hr, bool_decide_eq_true_2.
    + rewrite lookup_delete_ne by done. destruct (slots s !! key) as [k|] eqn:Ek; [|done]. simpl.
      destruct (decide (k = id)) as [->|Hk].
      * rewrite Hr, (bool_decide_eq_false_2 (record_key r = key)) by done. by rewrite !andb_false_r.
      * by rewrite (bool_decide_ext (k ∈ id :: ids) (k ∈ ids)) by (rewrite elem_of_cons; naive_solver).
  - destruct (slots s !! key) as [k|] eqn:Ek; [|done]. simpl.
    destruct (decide (k = id)) as [->|Hk].
    + rewrite Hr, (bool_decide_eq_false_2 (record_key r = key)) by congruence. by rewrite !andb_false_r.
    + by rewrite (bool_decide_ext (k ∈ id :: ids) (k ∈ ids)) by (rewrite elem_of_cons; naive_solver).
Qed.

Lemma marked_idle attach q s id :
  records_ok s → id ∈ retired_ids attach q s →
  ∃ r, od_get (records s) id = Some r ∧ retires attach q r = true ∧ active r = false ∧
       od_get (records (retire_marked attach q s)) id = Some (retire_record attach q r) ∧
       idle (retire_record attach q r) = true.
Proof.
  intros Hok (r & -> & [Hret Hin]%list_elem_of_filter)%list_elem_of_fmap.
  apply andb_true_iff in Hret as [Hret Ha%negb_true_iff].
  apply od_values_get in Hin as [k Hk]; [|by apply ro_wf].
  destruct (ro_record s Hok k r Hk) as [-> _]. exists r. split_and!; try done.
  - simpl. by rewrite od_get_map_values, Hk.
  - unfold retire_record. rewrite Hret. unfold idle, no_interactions. simpl. by rewrite Ha.
Qed.

Lemma held_by_retired attach q s key id :
  records_ok s →
  held_by (retired_ids attach q s) (retire_marked attach q s) key id =
  match od_get (records s) id with
  | Some r => retires attach q r && negb (active r) && bool_decide (record_key r = key)
  | None => false
  end.
Proof.
  intros Hok. unfold held_by. simpl. rewrite od_get_map_values.
  destruct (od_get (records s) id) as [r|] eqn:Hr; simpl; [|by rewrite andb_false_r].
  assert (record_key (retire_record attach q r) = record_key r) as ->.
  { unfold record_key. by destruct (retire_record_identity attach q r) as (_ & -> & ->). }
  f_equal. apply eq_true_iff_eq. rewrite bool_decide_eq_true. split.
  - intros (r' & Hr' & Hret & Ha & _)%(marked_idle _ _ _ _ Hok). simplify_eq. by rewrite Hret, Ha.
  - intros Hret. apply list_elem_of_fmap. exists r.
    split; [by destruct (ro_record s Hok id r Hr) as [-> _]|].
    apply list_elem_of_filter. split; [done|].
    apply od_values_get; [by apply ro_wf|eauto].
Qed.

Lemma drop_idle_all n d k r :
  od_wf d → length (filter (λ kv, idle kv.2 = true) d) ≤ n →
  od_get (drop_idle n d) k = Some r → idle r = false.
Proof.
  intros Hwf Hn Hget%od_get_elem. revert n Hn Hget.
  induction d as [|[k' r'] d IH]; intros n Hn Hget.
  { destruct n; by apply elem_of_nil in Hget. }
  inversion_clear Hwf as [|? ? _ Hwf']. rewrite filter_cons in Hn. simpl in Hn.
  destruct (idle r') eqn:Ei.
  - rewrite decide_True in Hn by done. destruct n as [|n]; simpl in Hn; [lia|].
    cbn [drop_idle] in Hget. rewrite Ei in Hget. apply (IH Hwf' n); [lia|done].
  - rewrite decide_False in Hn by done.
    destruct n as [|n]; cbn [drop_idle] in Hget; [|rewrite Ei in Hget];
      apply elem_of_cons in Hget as [[= -> ->]|Hget]; try done.
    + apply (IH Hwf' 0); [done|by rewrite drop_idle_0].
    + by apply (IH Hwf' (S n)).
Qed.

(** Two keys at most are idle, so two records at most are. *)
Lemma idle_count (d : odict string DispatchRecord) k1 k2 :
  od_wf d → (∀ k r, od_get d k = Some r → idle r = true → k = k1 ∨ k = k2) →
  length (filter (λ kv, idle kv.2 = true) d) ≤ 2.
Proof.
  intros Hwf Hidle. rewrite <-(length_fmap fst). change 2 with (length [k1; k2]).
  apply submseteq_length, NoDup_submseteq.
  - eapply sublist_NoDup; [exact Hwf|]. apply fmap_sublist, sublist_filter.
  - intros k ([k' r] & -> & [Hi Hin]%list_elem_of_filter)%list_elem_of_fmap.
    rewrite !elem_of_cons. destruct (Hidle k' r) as [->| ->]; [by apply od_elem_get|done|auto..].
Qed.

Section records.
Context (push owner attach : string) (dref : json) (dmethod : ReqMethod).

(** Whatever calls are made on a new store, every record is kept once, under
    its own dispatch id and with the scope of its own request, and there are
    never more than 2048 of them. *)
Theorem records_invariant name e b l :
  let s := (run_ops push owner attach dref dmethod l (store_init name e b)).2 in
  NoDup (od_keys (records s)) ∧ length (records s) ≤ 2048 ∧
  ∀ k r, od_get (records s) k = Some r → dispatch_id r = k ∧ scope r = request_scope (request r).
Proof.
  assert (∀ s, records_ok s → records_ok (run_ops push owner attach dref dmethod l s).2) as Hrun.
  { induction l as [|o l IH]; intros s Hok; [done|]. simpl.
    pose proof (records_ok_op push owner attach dref dmethod o s Hok) as H1.
    destruct (run_op _ _ _ _ _ o s) as [xs s1]. simpl in H1. specialize (IH s1 H1).
    by destruct (run_ops _ _ _ _ _ l s1) as [ys s2]. }
  intros s. destruct (Hrun (store_init name e b)) as [Hwf Hrec Hlim]; [|done].
  split; simpl; [constructor|done|lia].
Qed.

(** [finish] leaves its record inactive and gives its slot back exactly when
    nothing is pending on it and it holds the slot; of the records beyond 512
    the oldest idle ones go and no others, so that afterwards there are at most
    512 records or none of them is idle. *)
Theorem finish_behaviour s id r :
  records_ok s → od_get (records s) id = Some r →
  let s' := finish id s in
  records s' = drop_idle (length (records s) - 512) (od_set (records s) id (set_active false r)) ∧
  (length (records s') ≤ 512 ∨ ∀ k r0, od_get (records s') k = Some r0 → idle r0 = false) ∧
  (∀ k r0, k ≠ id → od_get (records s) k = Some r0 → idle r0 = false →
     od_get (records s') k = Some r0) ∧
  slots s' = (if negb (is_processing r) && no_interactions r &&
                 bool_decide (slots s !! record_key r = Some id)
              then delete (record_key r) (slots s) else slots s).
Proof.
  intros Hok Hr s'. destruct (finish_eq id s r (ro_wf s Hok) Hr) as [Hrec Hslots].
  fold s' in Hrec, Hslots. split_and!; [done| | |done]; rewrite Hrec.
  - assert (length (od_set (records s) id (set_active false r)) = length (records s)) as Hlen
      by (rewrite od_length_set; unfold od_mem; by rewrite Hr).
    destruct (drop_idle_length (length (records s) - 512) (od_set (records s) id (set_active false r)))
      as [H|H]; [left; lia|right].
    intros k r0 Hk. by eapply first_idle_None, od_get_elem.
  - intros k r0 Hne Hk Hbusy. apply drop_idle_busy; [|done]. by rewrite od_get_set_ne.
Qed.

(** While at most 512 records are kept, retiring a session's interactions
    clears the pending questions and the processing flag of exactly the records
    it is aimed at, removes no record, and gives back the slot of every such
    record whose handler has returned, and no other slot. *)
Theorem retire_behaviour s q :
  records_ok s → length (records s) ≤ 512 →
  let s' := retire_session_interactions attach q s in
  (∀ k, od_get (records s') k = retire_record attach q <$> od_get (records s) k) ∧
  ∀ key, slots s' !! key =
    (id ← slots s !! key;
     match od_get (records s) id with
     | Some r => if retires attach q r && negb (active r) && bool_decide (record_key r = key)
                 then None else Some id
     | None => Some id
     end).
Proof.
  intros Hok Hlen s'. pose proof (records_ok_marked attach q s Hok) as Hmok.
  destruct (finishes_idle (retired_ids attach q s) (retire_marked attach q s)) as [Hrec Hslots].
  - by apply ro_wf.
  - simpl. by rewrite length_map.
  - intros id Hin. destruct (marked_idle _ _ _ _ Hok Hin) as (r & _ & _ & _ & ? & ?). eauto.
  - split.
    + intros k. unfold s', retire_session_interactions. fold (retire_marked attach q s).
      rewrite Hrec. simpl. by rewrite od_get_map_values.
    + intros key. unfold s', retire_session_interactions. fold (retire_marked attach q s).
      rewrite Hslots. simpl. destruct (slots s !! key) as [id|]; [|done]. simpl.
      rewrite held_by_retired by done. by destruct (od_get (records s) id).
Qed.

(** With more than 513 records kept, retiring two returned records of which
    the other records leave the trimming no choice loses the second one's slot:
    [finish] of the first trims both, so that [finish] of the second finds no
    record, and every later request under that caller and id is refused as a
    duplicate although no record of it is left. *)
Theorem retire_loses_slot s q id1 id2 r :
  records_ok s → 514 ≤ length (records s) → retired_ids attach q s = [id1; id2] →
  (∀ k r0, od_get (records s) k = Some r0 → k ≠ id1 → k ≠ id2 →
     idle (retire_record attach q r0) = false) →
  od_get (records s) id2 = Some r → slots s !! record_key r = Some id2 → id1 ≠ id2 →
  let s' := retire_session_interactions attach q s in
  od_get (records s') id2 = None ∧
  ∀ q' id', slot_key (request_scope q') q' = record_key r →
    register q' id' s' = (Exc (ValueError "duplicate active request_id"), s').
Proof.
  intros Hok Hlen Hids Hbusy Hr Hslot Hne s'. pose proof (records_ok_marked attach q s Hok) as Hmok.
  destruct (marked_idle attach q s id1 Hok) as (r1 & _ & _ & _ & Hm1 & Hi1); [rewrite Hids; by left|].
  destruct (marked_idle attach q s id2 Hok) as (r2 & Hr2 & _ & _ & Hm2 & Hi2);
    [rewrite Hids; right; by left|].
  destruct (finish_eq id1 _ _ (ro_wf _ Hmok) Hm1) as [Hrec Hslots].
  set (t := finish id1 (retire_marked attach q s)) in *.
  assert (od_get (records t) id2 = None) as Hgone.
  { destruct (od_get (records t) id2) as [r0|] eqn:E; [|done]. rewrite Hrec in E.
    assert (idle r0 = false) as Hf.
    { eapply drop_idle_all; [apply od_wf_set, Hmok| |exact E].
      transitivity 2; [|simpl; rewrite length_map; lia].
      apply (idle_count _ id1 id2); [apply od_wf_set, Hmok|].
      intros k r3. rewrite od_get_set. case_decide; [by left|]. simpl. rewrite od_get_map_values.
      intros (r4 & H4 & ->)%fmap_Some Hi. destruct (decide (k = id1)), (decide (k = id2)); auto.
      by rewrite (Hbusy k r4) in Hi. }
    apply drop_idle_get in E; [|apply od_wf_set, Hmok]. rewrite od_get_set_ne in E by done. congruence. }
  assert (s' = t) as ->.
  { unfold s', retire_session_interactions. fold (retire_marked attach q s). rewrite Hids. simpl.
    fold t. unfold finish. by rewrite Hgone. }
  split; [done|]. intros q' id' Hkey. unfold register, py_bind, py_get. rewrite Hkey.
  assert (slots t !! record_key r = Some id2) as ->.
  { rewrite Hslots. destruct (gives_back _ _ _) eqn:Hg; [|exact Hslot].
    apply andb_true_iff in Hg as [_ Hg%bool_decide_eq_true]. simpl in Hg |- *.
    rewrite lookup_delete_ne; [done|]. intros Heq. rewrite Heq in Hg. congruence. }
  by rewrite bool_decide_eq_true_2.
Qed.

End records.

(** ** A run

    A request is registered, asks its user something and returns; its answer's
    final event comes back in a journal that keeps two frames. *)

Definition demo_request : AgentRequest :=
  mk_request "r1" (JStr "s1") (JStr "web") (JStr "ann") JNull CHAT_SEND [("session_id", JStr "s1")] [].

Definition demo_event (l : jdict) : jdict := [("request_id", JStr "r1"); ("payload", JObj l)].

Definition demo_ops : list op :=
  [ ORegister demo_request "d1";
    OAppend "u1" (demo_event [("event_type", JStr "chat.delta")]) "d1";
    OAppend "u1" (demo_event [("event_type", JStr "chat.ask_user_question"); ("request_id", JStr "i1")]) "d1";
    OFinish "d1";
    OAppend "u1" (demo_event [("event_type", JStr "chat.delta"); ("execution_id", JStr "e1")]) "d1" ].

Definition demo_run (l : list op) : list (list string * Frame) * Store :=
  run_ops "push" "owner" "attach" JNull (OtherMethod "") l (store_init "w" 2 100000).
Definition demo_log : list (list string * Frame) := (demo_run demo_ops).1.
Definition demo_store : Store := (demo_run demo_ops).2.

Lemma demo_eq :
  run_ops "push" "owner" "attach" JNull (OtherMethod "") demo_ops (store_init "w" 2 100000) =
  (demo_log, demo_store).
Proof. unfold demo_log, demo_store, demo_run. by destruct (run_ops _ _ _ _ _ _ _). Qed.

Lemma demo_facts :
  expired demo_store = 1%Z ∧ length (frames demo_store) = 2 ∧ length demo_log = 3 ∧
  map f_sequence (replay demo_request 1 demo_store) = [2%Z; 3%Z] ∧
  sn_history_required (snapshot "attach" demo_request 0 demo_store) = true ∧
  (phase_of <$> od_get (records demo_store) "d1") = Some waiting_for_control ∧
  slots demo_store !! record_key (new_record "d1" demo_request) = Some "d1".
Proof. vm_compute. done. Qed.

Lemma journal_invariant_witness :
  sequences (frames demo_store) = seqZ (expired demo_store + 1) (sequence demo_store - expired demo_store) ∧
  (0 ≤ expired demo_store ≤ sequence demo_store)%Z ∧
  (Z.of_nat (length (frames demo_store)) ≤ max_events demo_store)%Z ∧
  bytes demo_store = foldr (λ x n, frame_size x.1.2 + n)%Z 0%Z (frames demo_store) ∧
  (bytes demo_store ≤ max_bytes demo_store)%Z.
Proof.
  apply (journal_invariant "push" "owner" "attach" JNull (OtherMethod "") "w" 2 100000 demo_ops
           demo_log demo_store); [lia|lia|exact demo_eq].
Defined.

Lemma replay_lossless_witness :
  let required := sn_history_required (snapshot "attach" demo_request 1 demo_store) in
  (required = true ↔
     ∃ x, x ∈ demo_log ∧ (1 < f_sequence x.2)%Z ∧ x ∉ map fst (frames demo_store)) ∧
  (required = false →
     replay demo_request 1 demo_store =
     map snd (filter (λ x, x.1 = request_scope demo_request ∧ (1 < f_sequence x.2)%Z) demo_log)).
Proof.
  apply (replay_lossless "push" "owner" "attach" JNull (OtherMethod "") "w" 2 100000 demo_ops
           demo_log demo_store demo_request 1); [lia|lia|lia|exact demo_eq].
Defined.

Definition demo_record : DispatchRecord :=
  default (new_record "" demo_request) (od_get (records demo_store) "d1").

Lemma demo_get : od_get (records demo_store) "d1" = Some demo_record.
Proof. vm_compute. reflexivity. Qed.

Lemma demo_ok : records_ok demo_store.
Proof.
  assert (records demo_store = [("d1", demo_record)]) as E by (vm_compute; reflexivity).
  split; rewrite E.
  - apply NoDup_singleton.
  - cbn [od_get]. intros k r. destruct (decide (k = "d1")) as [->|]; [|done].
    intros Hr. apply (inj Some) in Hr as <-. split; vm_compute; reflexivity.
  - apply Nat.leb_le. reflexivity.
Qed.

Lemma finish_behaviour_witness :
  let s' := finish "d1" demo_store in
  records s' = drop_idle (length (records demo_store) - 512)
    (od_set (records demo_store) "d1" (set_active false demo_record)) ∧
  (length (records s') ≤ 512 ∨ ∀ k r0, od_get (records s') k = Some r0 → idle r0 = false) ∧
  (∀ k r0, k ≠ "d1" → od_get (records demo_store) k = Some r0 → idle r0 = false →
     od_get (records s') k = Some r0) ∧
  slots s' = (if negb (is_processing demo_record) && no_interactions demo_record &&
                 bool_decide (slots demo_store !! record_key demo_record = Some "d1")
              then delete (record_key demo_record) (slots demo_store) else slots demo_store).
Proof. exact (finish_behaviour demo_store "d1" demo_record demo_ok demo_get). Defined.

Lemma retire_behaviour_witness :
  let s' := retire_session_interactions "attach" demo_request demo_store in
  (∀ k, od_get (records s') k = retire_record "attach" demo_request <$> od_get (records demo_store) k) ∧
  ∀ key, slots s' !! key =
    (id ← slots demo_store !! key;
     match od_get (records demo_store) id with
     | Some r => if retires "attach" demo_request r && negb (active r) && bool_decide (record_key r = key)
                 then None else Some id
     | None => Some id
     end).
Proof.
  apply (retire_behaviour "attach" demo_store demo_request demo_ok).
  vm_compute. lia.
Defined.

(** 512 executions of another session are under way, and two rounds of [s1]
    have returned with a question open. *)
Definition full_request (session rid : string) : AgentRequest :=
  mk_request rid (JStr session) (JStr "web") (JStr "ann") JNull CHAT_SEND [] [].
Definition full_record (id session rid : string) : DispatchRecord :=
  mk_record id (full_request session rid) (request_scope (full_request session rid)) false 0 "" true
    None [("i", [])] None.
Definition full_id (n : nat) : string := "b" +:+ pretty n.
Definition full_other (n : nat) : string * DispatchRecord := (full_id n, full_record (full_id n) "s2" "r0").
Definition full_records : odict string DispatchRecord :=
  [("a1", full_record "a1" "s1" "r1"); ("a2", full_record "a2" "s1" "r2")] ++ map full_other (seq 0 512).
Definition full_store : Store :=
  mk_store "w" 0 [] 0 2048 8388608 0 full_records
    {[ record_key (full_record "a2" "s1" "r2") := "a2" ]}.

Lemma full_get k r :
  od_get full_records k = Some r →
  (k = "a1" ∧ r = full_record "a1" "s1" "r1") ∨ (k = "a2" ∧ r = full_record "a2" "s1" "r2") ∨
  ∃ n, k = full_id n ∧ r = full_record (full_id n) "s2" "r0".
Proof.
  unfold full_records. intros [[Hk|Hk%list_elem_of_singleton]%elem_of_cons|Hk]%od_get_elem%elem_of_app;
    [injection Hk as -> ->; by auto..|].
  apply list_elem_of_fmap in Hk as (n & [= -> ->] & _). eauto.
Qed.

Lemma full_ok : records_ok full_store.
Proof.
  split.
  - unfold od_wf, full_store, full_records, od_keys. cbn [records app]. rewrite !fmap_cons. cbn [fst].
    assert ((map full_other (seq 0 512)).*1 = full_id <$> seq 0 512) as ->
      by (rewrite <-list_fmap_compose; by apply list_fmap_ext).
    rewrite !NoDup_cons. split_and!.
    + rewrite not_elem_of_cons. split; [done|]. by intros (n & Hn & _)%list_elem_of_fmap.
    + by intros (n & Hn & _)%list_elem_of_fmap.
    + apply NoDup_fmap_2_strong; [|apply NoDup_seq]. intros x y _ _. unfold full_id.
      intros [= Heq]. by apply (inj pretty).
  - intros k r [[-> ->]|[[-> ->]|(n & -> & ->)]]%full_get; done.
  - unfold full_store, full_records. cbn [records]. rewrite length_app, length_map, length_seq. simpl. lia.
Qed.

Lemma full_retired : retired_ids "attach" demo_request full_store = ["a1"; "a2"].
Proof. vm_compute. reflexivity. Qed.

Lemma retire_loses_slot_witness :
  let s' := retire_session_interactions "attach" demo_request full_store in
  od_get (records s') "a2" = None ∧
  ∀ q' id', slot_key (request_scope q') q' = record_key (full_record "a2" "s1" "r2") →
    register q' id' s' = (Exc (ValueError "duplicate active request_id"), s').
Proof.
  apply (retire_loses_slot "attach" full_store demo_request "a1" "a2" (full_record "a2" "s1" "r2")).
  - exact full_ok.
  - unfold full_store, full_records. cbn [records]. rewrite length_app, length_map, length_seq. simpl. lia.
  - exact full_retired.
  - intros k r [[-> ->]|[[-> ->]|(n & -> & ->)]]%full_get H1 H2; [done|done|].
    unfold retire_record, retires. rewrite bool_decide_eq_false_2; [done|]. vm_compute. congruence.
  - reflexivity.
  - apply lookup_singleton_eq.
  - done.
Defined.
