(* ===== verification/ToolInvocationKey.v ===== *)
(** * The identity of one tool invocation

    Source: [jiuwenswarm/agents/harness/common/rails/permissions/tool_invocation_key.py].

    Values that arrive from outside are JSON; [None] is a [ValueError]. *)

From S2P Require Import Prelude OrderedDict PyJson.

Definition TOOL_INVOCATION_KEY_VERSION : Z := 1.
Definition MAX_TOOL_INVOCATION_ID_LENGTH : nat := 128.

(** [normalize_tool_invocation_text]; [maximum] is 512 when not given. *)
Definition normalize_tool_invocation_text (maximum : nat) (value : json) : option string :=
  let normalized := match value with JStr s => py_strip s | _ => EmptyString end in
  if negb (str_true normalized) || Nat.ltb maximum (String.length normalized)
  then None else Some normalized.

Record ToolInvocationKeyV1 := mk_key {
  invocation_id : string;
  root_session_id : string;
  request_id : string;
  executor_kind : string;
  execution_session_id : string;
  tool_call_id : string;
  version : Z;
}.

#[export] Instance key_eq_dec : EqDecision ToolInvocationKeyV1.
Proof. solve_decision. Defined.

(** The constructor with [__post_init__] *)
Definition make_key (invocation root req kind execution call ver : json) : option ToolInvocationKeyV1 :=
  v ← match ver with JNum n => if Z.eqb n TOOL_INVOCATION_KEY_VERSION then Some n else None | _ => None end;
  k ← match kind with JStr s => if String.eqb s "agent" then Some s else None | _ => None end;
  i ← normalize_tool_invocation_text MAX_TOOL_INVOCATION_ID_LENGTH invocation;
  r ← normalize_tool_invocation_text 512 root;
  q ← normalize_tool_invocation_text 512 req;
  e ← normalize_tool_invocation_text 512 execution;
  c ← normalize_tool_invocation_text 512 call;
  Some (mk_key i r q k e c v).

Definition to_wire (k : ToolInvocationKeyV1) : jdict :=
  [("version", JNum (version k)); ("invocation_id", JStr (invocation_id k));
   ("root_session_id", JStr (root_session_id k)); ("request_id", JStr (request_id k));
   ("executor_kind", JStr (executor_kind k));
   ("execution_session_id", JStr (execution_session_id k)); ("tool_call_id", JStr (tool_call_id k))].

Definition required : list string :=
  ["version"; "invocation_id"; "root_session_id"; "request_id"; "executor_kind";
   "execution_session_id"; "tool_call_id"].

(** [set(value) == required] *)
Definition has_fields (d : jdict) : bool :=
  forallb (λ k, od_mem d k) required && forallb (λ k, bool_decide (k ∈ required)) (od_keys d).

Definition from_wire (d : jdict) : option ToolInvocationKeyV1 :=
  if has_fields d then
    make_key (j_get d "invocation_id") (j_get d "root_session_id") (j_get d "request_id")
      (j_get d "executor_kind") (j_get d "execution_session_id") (j_get d "tool_call_id")
      (j_get d "version")
  else None.

(** ** Properties *)

(** What [normalize_tool_invocation_text] returns, it returns unchanged. *)
Lemma normalize_idemp n v s :
  normalize_tool_invocation_text n v = Some s → normalize_tool_invocation_text n (JStr s) = Some s.
Proof.
  unfold normalize_tool_invocation_text. destruct v; simpl; try done.
  destruct (negb _ || _) eqn:E; [done|]. intros [= <-]. by rewrite py_strip_idemp, E.
Qed.

Lemma normalize_spec n v s :
  normalize_tool_invocation_text n v = Some s ↔
  ∃ t, v = JStr t ∧ s = py_strip t ∧ s ≠ EmptyString ∧ String.length s ≤ n.
Proof.
  unfold normalize_tool_invocation_text. split.
  - destruct v as [| | |t| |]; simpl; try done. destruct (negb _ || _) eqn:E; [done|].
    intros [= <-]. apply orb_false_iff in E as [E1%negb_false_iff%str_true_spec E2%Nat.ltb_ge]. eauto.
  - intros (t & -> & -> & H1%str_true_spec & H2). rewrite H1. simpl.
    by rewrite (proj2 (Nat.ltb_ge _ _)).
Qed.

(** A key some call of the constructor made *)
Definition key_made (k : ToolInvocationKeyV1) : Prop :=
  ∃ invocation root req kind execution call ver, make_key invocation root req kind execution call ver = Some k.

Lemma make_key_spec invocation root req kind execution call ver k :
  make_key invocation root req kind execution call ver = Some k ↔
  ver = JNum 1 ∧ version k = 1%Z ∧ kind = JStr "agent" ∧ executor_kind k = "agent" ∧
  normalize_tool_invocation_text MAX_TOOL_INVOCATION_ID_LENGTH invocation = Some (invocation_id k) ∧
  normalize_tool_invocation_text 512 root = Some (root_session_id k) ∧
  normalize_tool_invocation_text 512 req = Some (request_id k) ∧
  normalize_tool_invocation_text 512 execution = Some (execution_session_id k) ∧
  normalize_tool_invocation_text 512 call = Some (tool_call_id k).
Proof.
  unfold make_key. split.
  - intros H. destruct ver as [| |n| | |]; try done. destruct (Z.eqb_spec n TOOL_INVOCATION_KEY_VERSION); [|done].
    destruct kind as [| | |s| |]; try done. simpl in H. destruct (String.eqb_spec s "agent"); [|done].
    simpl in H. repeat (apply bind_Some in H as (? & ? & H)). by simplify_eq/=.
  - intros (-> & Hv & -> & Hk & -> & -> & -> & -> & ->). simpl. by destruct k; simplify_eq/=.
Qed.

Lemma from_to_wire k : key_made k → from_wire (to_wire k) = Some k.
Proof.
  intros (i & r & q & kd & e & c & v & Hk%make_key_spec).
  destruct Hk as (-> & Hv & -> & Hkd & Hi & Hr & Hq & He & Hc).
  change (from_wire (to_wire k)) with
    (make_key (JStr (invocation_id k)) (JStr (root_session_id k)) (JStr (request_id k))
       (JStr (executor_kind k)) (JStr (execution_session_id k)) (JStr (tool_call_id k)) (JNum (version k))).
  apply make_key_spec. rewrite Hv, Hkd. split_and!; try done; by eapply normalize_idemp.
Qed.

(** A key survives its wire form: what [to_wire] writes of a key the
    constructor has accepted, [from_wire] reads back as the same key; and a
    mapping [from_wire] accepts has exactly the fields [to_wire] writes, each of
    them the one written but for surrounding white space. *)
Theorem wire_roundtrip k d :
  (key_made k → from_wire (to_wire k) = Some k) ∧
  (from_wire d = Some k →
     key_made k ∧ (∀ f, f ∈ od_keys d ↔ f ∈ od_keys (to_wire k)) ∧
     ∀ f, f ∈ od_keys d → f ≠ "version" →
       ∃ s, j_get d f = JStr s ∧ (f ≠ "executor_kind" → j_get (to_wire k) f = JStr (py_strip s)) ∧
            (f = "executor_kind" → j_get (to_wire k) f = JStr s)).
Proof.
  split; [apply from_to_wire|]. unfold from_wire. destruct (has_fields d) eqn:Hf; [|done].
  intros Hk. split; [by unfold key_made; eauto 8|].
  apply andb_true_iff in Hf as [Hf1 Hf2]. rewrite forallb_forall in Hf1, Hf2.
  assert (∀ f, f ∈ od_keys d ↔ f ∈ required) as Hkeys.
  { intros f. split.
    - intros Hin. apply list_elem_of_In, Hf2, bool_decide_eq_true in Hin. done.
    - intros Hin. apply od_mem_spec, Hf1, list_elem_of_In, Hin. }
  split; [exact Hkeys|]. intros f Hin Hne. apply Hkeys in Hin.
  apply make_key_spec in Hk as (Hv & _ & Hkind & Hkk & Hi & Hr & Hq & He & Hc).
  unfold required in Hin. rewrite !elem_of_cons in Hin.
  destruct Hin as [->|[->|[->|[->|[->|[->|[->|Hin%elem_of_nil]]]]]]]; try done.
  4:{ exists "agent". split_and!; [exact Hkind|done|]. intros _. cbn. by rewrite Hkk. }
  all: match goal with H : normalize_tool_invocation_text _ (j_get ?dd ?f) = Some _ |- context [j_get ?dd ?f] =>
    apply normalize_spec in H as (s & Hs & Hs' & _); exists s; split_and!; [exact Hs| |done];
    intros _; cbn; by rewrite Hs' end.
Qed.

Definition demo_key : ToolInvocationKeyV1 := mk_key "tiv_1" "s1" "r1" "agent" "s1" "call1" 1.

Lemma demo_key_made : key_made demo_key.
Proof.
  exists (JStr " tiv_1"), (JStr "s1 "), (JStr "r1"), (JStr "agent"), (JStr "s1"), (JStr "call1"), (JNum 1).
  vm_compute. reflexivity.
Qed.

Lemma wire_roundtrip_witness :
  from_wire (to_wire demo_key) = Some demo_key ∧
  j_get (to_wire demo_key) "tool_call_id" = JStr "call1".
Proof.
  split; [|reflexivity]. destruct (wire_roundtrip demo_key []) as [H _]. exact (H demo_key_made).
Defined.
