(* ===== verification/PermissionQueue.v ===== *)
(** * The permission cards of a root session

    Source: [jiuwenswarm/agents/harness/common/rails/permissions/root_permission_queue.py].

    [Queue] is [RootPermissionQueue]: its [dict] of cards in insertion order, the
    two indexes, the visible order of each root session and the quarantined
    sessions.  Every method is one step: it holds the lock over all it reads and
    writes, and what [reconcile] does before it takes the lock reads its argument
    alone.  Interrupt requests and root contexts are values of another package,
    which are stored and compared.  A call's text arguments are JSON values, as
    [_text] checks them. *)

From S2P Require Import Prelude OrderedDict PyJson ToolInvocationKey.

Definition MAX_ROOT_PERMISSION_CARDS : nat := 64.

Inductive CardState := active | pending | resuming.

#[export] Instance card_state_eq : EqDecision CardState.
Proof. solve_decision. Defined.

(** [ValueError] is what a key's constructor raises. *)
Inductive queue_error := RootPermissionQueueError (message : string) | ValueError.

Abbreviation active_id := (string * string * string * string)%type (only parsing).
Abbreviation pending_id := (string * string * string)%type (only parsing).

Definition active_key (k : ToolInvocationKeyV1) : active_id :=
  (root_session_id k, request_id k, execution_session_id k, tool_call_id k).
Definition pending_key (k : ToolInvocationKeyV1) : pending_id :=
  (root_session_id k, execution_session_id k, tool_call_id k).

(** ** Core's values *)

(** [InteractiveInput]: an attribute that is [None] or is not a mapping is [None]. *)
Record InteractiveInput := mk_input {
  raw_inputs : option json;
  user_inputs : option (list (json * json));
}.

(** The request of an interruption: an object with its [interrupt_kind] and
    [metadata], or a mapping *)
Inductive RequestValue :=
| RObject (client_tool : bool) (metadata : json)
| RMapping (d : jdict).

(** An entry of Core's [state]: an object with a [payload], an object with [id]
    and [value], a mapping with some of the three keys, or anything else *)
Inductive Item :=
| IPayload (payload : Item)
| IObject (id : json) (value : RequestValue)
| IMapping (payload : option Item) (id : option json) (value : option RequestValue)
| IOther.

Record Interaction := mk_interaction { in_id : string; in_value : RequestValue }.

(** The mapping of an interrupted run; [None] where a list is expected is a
    value of another type. *)
Record CoreResult := mk_result {
  raw_state : option (list Item);
  raw_ids : option (list json);
}.

Definition new_interaction (id : json) (value : RequestValue) : Interaction :=
  mk_interaction (py_strip (str_or_empty id)) value.

(** [_interaction] *)
Fixpoint interaction (i : Item) : option Interaction :=
  match i with
  | IPayload (IMapping (Some p) _ _) | IMapping (Some p) _ _ => interaction p
  | IPayload (IObject id value) | IObject id value
  | IPayload (IMapping None (Some id) (Some value)) | IMapping None (Some id) (Some value) =>
      Some (new_interaction id value)
  | _ => None
  end.

Definition invocation_key_in (x : json) : option jdict :=
  m ← as_dict x; as_dict (j_get m "tool_invocation_key").

(** [_request_key] *)
Definition request_key (r : RequestValue) : option jdict :=
  match r with
  | RObject _ metadata => invocation_key_in metadata
  | RMapping d =>
      match invocation_key_in (j_get d "metadata") with
      | Some k => Some k
      | None => invocation_key_in (j_get d "value")
      end
  end.

Definition is_client_tool (r : RequestValue) : bool :=
  match r with RObject c _ => c | RMapping _ => false end.

(** ** The queue *)

Section queue.
Context {IReq Ctx : Type} `{EqDecision IReq, EqDecision Ctx}.

Record Card := mk_card {
  key : ToolInvocationKeyV1;
  tool_name : string;
  state : CardState;
  request : option IReq;
  auto_manual : bool;
  root_context : option Ctx;
}.

#[export] Instance card_eq : EqDecision Card.
Proof. solve_decision. Defined.

Definition set_state (st : CardState) (c : Card) : Card :=
  mk_card (key c) (tool_name c) st (request c) (auto_manual c) (root_context c).

Record Queue := mk_queue {
  cards : odict string Card;
  active_ids : gmap active_id string;
  pending_ids : gmap pending_id string;
  order : gmap string (list string);
  quarantined : gset string;
}.

Definition queue_empty : Queue := mk_queue [] ∅ ∅ ∅ ∅.

Definition with_cards (d : odict string Card) (q : Queue) : Queue :=
  mk_queue d (active_ids q) (pending_ids q) (order q) (quarantined q).
Definition with_active (m : gmap active_id string) (q : Queue) : Queue :=
  mk_queue (cards q) m (pending_ids q) (order q) (quarantined q).
Definition with_pending (m : gmap pending_id string) (q : Queue) : Queue :=
  mk_queue (cards q) (active_ids q) m (order q) (quarantined q).
Definition with_order (m : gmap string (list string)) (q : Queue) : Queue :=
  mk_queue (cards q) (active_ids q) (pending_ids q) m (quarantined q).
Definition with_quarantined (m : gset string) (q : Queue) : Queue :=
  mk_queue (cards q) (active_ids q) (pending_ids q) (order q) m.

Abbreviation call A := (py Queue queue_error A) (only parsing).

Definition raise {A} (message : string) : call A := py_raise (RootPermissionQueueError message).
Definition need {A} (o : option A) (message : string) : call A :=
  py_some o (RootPermissionQueueError message).
Definition unless (c : bool) (message : string) : call unit :=
  py_guard (negb c) (RootPermissionQueueError message).

(** [_text] *)
Definition text_of (maximum : nat) (name : string) (value : json) : call string :=
  need (normalize_tool_invocation_text maximum value) ("permission_queue_" +:+ name +:+ "_invalid").

Definition card_of (q : Queue) (id : string) : option Card := od_get (cards q) id.
Definition card_id (c : Card) : string := invocation_id (key c).
Definition card_root (c : Card) : string := root_session_id (key c).
Definition set_card (c : Card) (q : Queue) : Queue := with_cards (od_set (cards q) (card_id c) c) q.

(** [self._cards.get(self._pending.get(...) or "")] *)
Definition card_at (q : Queue) (pk : pending_id) : option Card :=
  card_of q (str_or (default EmptyString (pending_ids q !! pk)) EmptyString).

Definition is_quarantined (q : Queue) (root : string) : bool := bool_decide (root ∈ quarantined q).

(** [_raise_if_quarantined_locked] *)
Definition raise_if_quarantined (root : json) : call unit :=
  q <- py_get ;; unless (is_quarantined q (str_or_empty root)) "permission_queue_quarantined".

(** [_exact_card_locked] *)
Definition exact_card (k : ToolInvocationKeyV1) : call Card :=
  q <- py_get ;;
  match card_of q (invocation_id k) with
  | Some c => if bool_decide (key c = k) then py_ret c else raise "permission_queue_card_mismatch"
  | None => raise "permission_queue_card_mismatch"
  end.

(** [_remove_locked] *)
Definition remove (c : Card) (q : Queue) : Queue :=
  let root := card_root c in
  let rest := filter (λ i, i ≠ card_id c) (default [] (order q !! root)) in
  mk_queue (od_pop (cards q) (card_id c))
    (delete (active_key (key c)) (active_ids q))
    (delete (pending_key (key c)) (pending_ids q))
    (match rest with [] => delete root (order q) | _ => <[root := rest]> (order q) end)
    (quarantined q).

Definition quarantine (root : json) (q : Queue) : Queue :=
  with_quarantined ({[ str_or_empty root ]} ∪ quarantined q) q.

(** [begin]; [fresh] is what [_id_factory] returns. *)
Definition begin_card (root req execution call_id tool fresh : json) : call Card :=
  root <- text_of 512 "root_session_id" root ;;
  execution <- text_of 512 "execution_session_id" execution ;;
  call_id <- text_of 512 "tool_call_id" call_id ;;
  tool <- text_of 512 "tool_name" tool ;;
  raise_if_quarantined (JStr root) ;;
  q <- py_get ;;
  match pending_ids q !! (root, execution, call_id) with
  | Some id =>
      match card_of q id with
      | Some c => if bool_decide (tool_name c = tool) then py_ret c
                  else raise "permission_queue_pending_mismatch"
      | None => raise "permission_queue_pending_mismatch"
      end
  | None =>
      req <- text_of 512 "request_id" req ;;
      let ak := (root, req, execution, call_id) in
      unless (bool_decide (is_Some (active_ids q !! ak))) "permission_queue_duplicate_call" ;;
      id <- text_of 128 "invocation_id" fresh ;;
      unless (od_mem (cards q) id) "permission_queue_id_collision" ;;
      k <- py_some (make_key (JStr id) (JStr root) (JStr req) (JStr "agent") (JStr execution)
                      (JStr call_id) (JNum TOOL_INVOCATION_KEY_VERSION)) ValueError ;;
      let c := mk_card k tool active None false None in
      py_modify (λ q, with_active (<[ak := id]> (active_ids q)) (with_cards (od_set (cards q) id c) q)) ;;
      py_ret c
  end.

Definition mark_pending (k : ToolInvocationKeyV1) (r : IReq) (auto : bool) (ctx : option Ctx) : call Card :=
  c <- exact_card k ;;
  q <- py_get ;;
  match state c with
  | pending => if bool_decide (request c = Some r) then py_ret c else raise "permission_queue_request_changed"
  | resuming => raise "permission_queue_pending_transition"
  | active =>
      let pk := pending_key k in
      unless (match pending_ids q !! pk with
              | Some id => negb (bool_decide (id = invocation_id k)) | None => false end)
        "permission_queue_pending_collision" ;;
      let frozen := mk_card (key c) (tool_name c) pending (Some r) auto ctx in
      py_modify (λ q, with_pending (<[pk := invocation_id k]> (pending_ids q))
        (with_active (delete (active_key (key c)) (active_ids q))
          (with_cards (od_set (cards q) (invocation_id k) frozen) q))) ;;
      py_ret frozen
  end.

Definition pending_for_call (root execution call_id : json) (q : Queue) : option Card :=
  c ← card_at q (str_or_empty root, str_or_empty execution, str_or_empty call_id);
  if bool_decide (state c = pending) then Some c else None.

(** [_normalize_answer] *)
Definition normalize_answer (value : jdict) : jdict + string :=
  if negb (forallb (λ k, bool_decide (k ∈ ["approved"; "auto_confirm"; "persist_allow"; "feedback"]))
             (od_keys value)) then inr "permission_queue_payload_invalid"
  else match j_get value "approved", j_get value "auto_confirm",
             default (JBool false) (od_get value "persist_allow"),
             default (JStr EmptyString) (od_get value "feedback") with
       | JBool approved, JBool auto_confirm, JBool persist_allow, JStr feedback =>
           if Nat.ltb 4000 (String.length feedback) then inr "permission_queue_feedback_too_large"
           else if persist_allow && (negb approved || negb auto_confirm)
           then inr "permission_queue_scope_invalid"
           else inl ([("approved", JBool approved); ("auto_confirm", JBool auto_confirm);
                      ("feedback", JStr feedback)] ++
                     if od_mem value "persist_allow" then [("persist_allow", JBool persist_allow)] else [])
       | _, _, _, _ => inr "permission_queue_decision_invalid"
       end.

Record Answer := mk_answer {
  an_card : Card;
  an_input : string * jdict;
  an_payload : jdict;
}.

Definition reserve_answer (root : json) (incoming : InteractiveInput) : call Answer :=
  root <- text_of 512 "root_session_id" root ;;
  unless (bool_decide (is_Some (raw_inputs incoming))) "permission_queue_raw_input_invalid" ;;
  submitted <- need (match user_inputs incoming with Some [x] => Some x | _ => None end)
    "permission_queue_one_answer_required" ;;
  rid <- text_of 512 "card_id" submitted.1 ;;
  raw_payload <- need (as_dict submitted.2) "permission_queue_payload_invalid" ;;
  raise_if_quarantined (JStr root) ;;
  q <- py_get ;;
  head <- need (hd_error (default [] (order q !! root))) "permission_queue_empty" ;;
  c <- need (match card_of q head with
             | Some c => if bool_decide (state c = pending) then Some c else None | None => None end)
    "permission_queue_head_invalid" ;;
  unless (negb (bool_decide (rid = tool_call_id (key c)))) "permission_queue_non_head_answer" ;;
  payload <- (match normalize_answer raw_payload with inl p => py_ret p | inr m => raise m end) ;;
  let reserved := set_state resuming c in
  py_modify (set_card reserved) ;;
  py_ret (mk_answer reserved (tool_call_id (key c), payload) payload).

Definition release_answer (a : Answer) (q : Queue) : Queue :=
  match card_of q (card_id (an_card a)) with
  | Some c => if bool_decide (c = an_card a) && bool_decide (state c = resuming)
              then set_card (set_state pending c) q else q
  | None => q
  end.

Record Claim := mk_claim { cl_card : Card; cl_quarantined : bool }.

Definition claim_answer_for_call (root execution call_id tool : json) : call Claim :=
  root <- text_of 512 "root_session_id" root ;;
  execution <- text_of 512 "execution_session_id" execution ;;
  call_id <- text_of 512 "tool_call_id" call_id ;;
  tool <- text_of 512 "tool_name" tool ;;
  let lookup := (root, execution, call_id) in
  q <- py_get ;;
  c <- need (match card_at q lookup with
             | Some c => if bool_decide (state c = resuming) then Some c else None | None => None end)
    "permission_queue_answer_not_reserved" ;;
  unless (negb (bool_decide (tool_name c = tool))) "permission_queue_pending_mismatch" ;;
  let ak := active_key (key c) in
  unless (bool_decide (is_Some (active_ids q !! ak))) "permission_queue_duplicate_call" ;;
  let claimed := set_state active c in
  py_modify (λ q, with_active (<[ak := card_id c]> (active_ids q))
    (with_pending (delete lookup (pending_ids q)) (set_card claimed q))) ;;
  py_ret (mk_claim claimed (is_quarantined q (card_root c))).

Definition consume_accepted_answer_if_quarantined (a : Answer) (q : Queue) : bool * Queue :=
  match card_of q (card_id (an_card a)) with
  | Some c => if bool_decide (c = an_card a) && bool_decide (state c = resuming) &&
                 is_quarantined q (card_root c)
              then (true, remove c q) else (false, q)
  | None => (false, q)
  end.

(** ** [reconcile] *)

Record Snapshot := mk_snapshot {
  sn_cards : list Card;
  sn_interactions : list Interaction;
}.

(** What the loop over Core's list has found so far *)
Record Found := mk_found {
  fd_keys : list ToolInvocationKeyV1;
  fd_interactions : list Interaction;
  fd_other : bool;
}.

(** Quarantine the session and raise. *)
Definition fence {A} (root message : string) : call A :=
  py_modify (quarantine (JStr root)) ;; raise message.

Fixpoint scan_result (root : string) (entries : list (json * Item)) (f : Found) : call Found :=
  match entries with
  | [] => py_ret f
  | (raw_id, item) :: entries' =>
      inner_id <- text_of 512 "tool_call_id" raw_id ;;
      match interaction item with
      | None => fence root "permission_queue_snapshot_mismatch"
      | Some i =>
          if negb (bool_decide (in_id i = inner_id)) then fence root "permission_queue_snapshot_mismatch"
          else if is_client_tool (in_value i) then scan_result root entries' f
          else match request_key (in_value i) with
               | None => scan_result root entries'
                           (mk_found (fd_keys f) (fd_interactions f ++ [i]) true)
               | Some wire =>
                   match from_wire wire with
                   | None => fence root "permission_queue_locator_invalid"
                   | Some k =>
                       if negb (bool_decide (root_session_id k = root)) ||
                          negb (bool_decide (tool_call_id k = inner_id))
                       then fence root "permission_queue_locator_mismatch"
                       else scan_result root entries'
                              (mk_found (fd_keys f ++ [k]) (fd_interactions f ++ [i]) (fd_other f))
                   end
               end
      end
  end.

Fixpoint exact_cards (ks : list ToolInvocationKeyV1) : call (list Card) :=
  match ks with
  | [] => py_ret []
  | k :: ks' => c <- exact_card k ;; cs <- exact_cards ks' ;; py_ret (c :: cs)
  end.

(** The loop over all cards of the session: the first one Core no longer names *)
Fixpoint missing_card (root : string) (live : list string) (cs : list Card) : option string :=
  match cs with
  | [] => None
  | c :: cs' =>
      if negb (bool_decide (card_root c = root)) then missing_card root live cs'
      else if bool_decide (state c = resuming) && negb (bool_decide (card_id c ∈ live))
      then Some "permission_queue_unclaimed_resume_missing"
      else if bool_decide (state c = pending) && negb (bool_decide (card_id c ∈ live))
      then Some "permission_queue_sibling_missing"
      else missing_card root live cs'
  end.

Definition reconcile (result : option CoreResult) (root : json) : call (option Snapshot) :=
  root <- text_of 512 "root_session_id" root ;;
  match result with
  | None => py_ret None
  | Some r =>
      match raw_state r, raw_ids r with
      | Some items, Some ids =>
          if match items with [] => true | _ => false end || negb (Nat.eqb (length items) (length ids)) ||
             Nat.ltb MAX_ROOT_PERMISSION_CARDS (length items)
          then fence root "permission_queue_snapshot_invalid"
          else
            f <- scan_result root (zip ids items) (mk_found [] [] false) ;;
            match fd_keys f with
            | [] => py_ret None
            | _ =>
                if fd_other f || negb (Nat.eqb (length (fd_keys f)) (length (fd_interactions f)))
                then fence root "permission_queue_mixed_interrupt"
                else if negb (bool_decide (NoDup (map invocation_id (fd_keys f))))
                then fence root "permission_queue_duplicate"
                else
                  cs <- exact_cards (fd_keys f) ;;
                  q <- py_get ;;
                  let live := map invocation_id (fd_keys f) in
                  if existsb (λ c, negb (bool_decide (state c = pending))) cs
                  then fence root "permission_queue_card_not_pending"
                  else match missing_card root live (od_values (cards q)) with
                       | Some m => fence root m
                       | None =>
                           py_modify (λ q, with_order (<[root := live]> (order q)) q) ;;
                           py_ret (Some (mk_snapshot cs (fd_interactions f)))
                       end
            end
      | _, _ => fence root "permission_queue_snapshot_invalid"
      end
  end.

(** ** The end of cards *)

Definition get_card (k : ToolInvocationKeyV1) (q : Queue) : option Card :=
  c ← card_of q (invocation_id k); if bool_decide (key c = k) then Some c else None.

Definition finish (k : ToolInvocationKeyV1) (q : Queue) : bool * Queue :=
  match get_card k q with Some c => (true, remove c q) | None => (false, q) end.

Definition finish_active (k : ToolInvocationKeyV1) (q : Queue) : bool * Queue :=
  match get_card k q with
  | Some c => if bool_decide (state c = active) then (true, remove c q) else (false, q)
  | None => (false, q)
  end.

Definition has_live (root : option string) (q : Queue) : bool :=
  existsb (λ c, match root with Some r => bool_decide (card_root c = r) | None => true end)
    (od_values (cards q)).

Definition snapshot_scope (root : string) (req : option string) (q : Queue) : list ToolInvocationKeyV1 :=
  map key (filter (λ c, bool_decide (card_root c = root) &&
                        match req with Some r => bool_decide (request_id (key c) = r) | None => true end = true)
             (od_values (cards q))).

Definition begin_cutover (root : json) (q : Queue) : bool * Queue :=
  let root := str_or_empty root in
  if is_quarantined q root then (true, q)
  else if negb (has_live (Some root) q) then (false, q)
  else (true, with_quarantined ({[ root ]} ∪ quarantined q) q).

Definition cutover_continuation_scope (root : json) : call (list ToolInvocationKeyV1) :=
  let root := str_or_empty root in
  q <- py_get ;;
  unless (negb (is_quarantined q root)) "permission_queue_cutover_not_started" ;;
  let cs := filter (λ c, card_root c = root) (od_values (cards q)) in
  unless (existsb (λ c, bool_decide (state c = active)) cs) "permission_queue_active_cleanup_pending" ;;
  unless (existsb (λ c, bool_decide (state c = resuming)) cs) "permission_queue_unowned_resume" ;;
  py_ret (map key cs).

(** The loop that removes the cards with exactly these keys, and counts them *)
Definition cancel_snapshot (ks : list ToolInvocationKeyV1) (q : Queue) : nat * Queue :=
  foldl (λ nq k, match get_card k nq.2 with
                 | Some c => (S nq.1, remove c nq.2)
                 | None => nq
                 end) (0, q) ks.

Definition discard_continuation (ks : list ToolInvocationKeyV1) (root : json) : call nat :=
  let root := str_or_empty root in
  q <- py_get ;;
  unless (negb (is_quarantined q root)) "permission_queue_cutover_not_started" ;;
  let mine := filter (λ k, root_session_id k = root) ks in
  let expected : gset string := list_to_set (map invocation_id mine) in
  let live : gset string :=
    list_to_set (map card_id (filter (λ c, card_root c = root) (od_values (cards q)))) in
  unless (negb (bool_decide (live = expected))) "permission_queue_discard_scope_changed" ;;
  let '(removed, q') := cancel_snapshot mine q in
  py_modify (λ _, with_quarantined (quarantined q' ∖ {[ root ]}) q') ;;
  py_ret removed.

(** ** Steps *)

Inductive op :=
| OBegin (root req execution call_id tool fresh : json)
| OMarkPending (k : ToolInvocationKeyV1) (r : IReq) (auto : bool) (ctx : option Ctx)
| OReserve (root : json) (incoming : InteractiveInput)
| ORelease (a : Answer)
| OClaim (root execution call_id tool : json)
| OConsume (a : Answer)
| OReconcile (result : option CoreResult) (root : json)
| OFinish (k : ToolInvocationKeyV1)
| OFinishActive (k : ToolInvocationKeyV1)
| OBeginCutover (root : json)
| OCancel (ks : list ToolInvocationKeyV1)
| ODiscard (ks : list ToolInvocationKeyV1) (root : json)
| OQuarantine (root : json).

Definition run_op (o : op) (q : Queue) : Queue :=
  match o with
  | OBegin root req execution call_id tool fresh => (begin_card root req execution call_id tool fresh q).2
  | OMarkPending k r auto ctx => (mark_pending k r auto ctx q).2
  | OReserve root incoming => (reserve_answer root incoming q).2
  | ORelease a => release_answer a q
  | OClaim root execution call_id tool => (claim_answer_for_call root execution call_id tool q).2
  | OConsume a => (consume_accepted_answer_if_quarantined a q).2
  | OReconcile result root => (reconcile result root q).2
  | OFinish k => (finish k q).2
  | OFinishActive k => (finish_active k q).2
  | OBeginCutover root => (begin_cutover root q).2
  | OCancel ks => (cancel_snapshot ks q).2
  | ODiscard ks root => (discard_continuation ks root q).2
  | OQuarantine root => quarantine root q
  end.

Definition run_ops (l : list op) : Queue := foldl (λ q o, run_op o q) queue_empty l.

(** ** The state of a queue

    The indexes name cards that exist and are in the state the index stands for;
    the visible order of a session lists cards of that session, once each; a card
    whose answer is on its way is the head of its session's order. *)

Record queue_ok (q : Queue) : Prop := {
  qo_wf : od_wf (cards q);
  qo_id : ∀ id c, card_of q id = Some c → card_id c = id;
  qo_key : ∀ id c, card_of q id = Some c → key_made (key c);
  qo_active : ∀ ak id, active_ids q !! ak = Some id →
    ∃ c, card_of q id = Some c ∧ state c = active ∧ ak = active_key (key c);
  qo_pending : ∀ pk id, pending_ids q !! pk = Some id →
    ∃ c, card_of q id = Some c ∧ state c ≠ active ∧ pk = pending_key (key c);
  qo_order : ∀ root l, order q !! root = Some l →
    l ≠ [] ∧ NoDup l ∧ ∀ id, id ∈ l → ∃ c, card_of q id = Some c ∧ card_root c = root;
  qo_head : ∀ id c, card_of q id = Some c → state c = resuming →
    ∃ l, order q !! card_root c = Some (id :: l);
}.

Lemma queue_empty_ok : queue_ok queue_empty.
Proof. split; try done; [constructor|..]; intros *; by rewrite lookup_empty. Qed.

(** *** Walking through a call *)

Section walk.
Context (I : Queue → Prop) {A B : Type}.

Lemma walk_need o m (k : A → call B) q :
  I q → (∀ a, o = Some a → I (k a q).2) → I ((x <- need o m ;; k x) q).2.
Proof. intros Hq Hk. unfold py_bind, need. destruct o; simpl; [by apply Hk|done]. Qed.

Lemma walk_some o e (k : A → call B) q :
  I q → (∀ a, o = Some a → I (k a q).2) → I ((x <- py_some o e ;; k x) q).2.
Proof. intros Hq Hk. unfold py_bind. destruct o; simpl; [by apply Hk|done]. Qed.

Lemma walk_text n name v (k : string → call B) q :
  I q → (∀ a, normalize_tool_invocation_text n v = Some a → I (k a q).2) →
  I ((x <- text_of n name v ;; k x) q).2.
Proof. intros Hq Hk. unfold py_bind, text_of, need. destruct (normalize_tool_invocation_text n v); simpl; [by apply Hk|done]. Qed.

Lemma walk_unless c m (k : unit → call B) q :
  I q → (c = false → I (k tt q).2) → I ((x <- unless c m ;; k x) q).2.
Proof. intros Hq Hk. unfold py_bind, unless, py_guard. destruct c; simpl; [done|by apply Hk]. Qed.

Lemma walk_get (k : Queue → call B) q : I (k q q).2 → I ((x <- py_get ;; k x) q).2.
Proof. done. Qed.

Lemma walk_quarantined root (k : unit → call B) q :
  I q → I (k tt q).2 → I ((x <- raise_if_quarantined root ;; k x) q).2.
Proof.
  intros Hq Hk. unfold raise_if_quarantined, py_bind, unless, py_guard. simpl.
  by destruct (is_quarantined q (str_or_empty root)).
Qed.

Lemma walk_exact id (k : Card → call B) q :
  I q → (∀ c, card_of q (invocation_id id) = Some c → key c = id → I (k c q).2) →
  I ((x <- exact_card id ;; k x) q).2.
Proof.
  intros Hq Hk. unfold exact_card, py_bind. simpl.
  destruct (card_of q (invocation_id id)) as [c|] eqn:E; [|done].
  destruct (bool_decide_reflect (key c = id)); simpl; [by apply Hk|done].
Qed.

Lemma walk_modify f (k : unit → call B) q : I (k tt (f q)).2 → I ((x <- py_modify f ;; k x) q).2.
Proof. done. Qed.

End walk.

Ltac walk :=
  repeat first [ apply walk_text; [done|intros ? ?] | apply walk_need; [done|intros ? ?]
               | apply walk_some; [done|intros ? ?] | apply walk_unless; [done|intros ?]
               | apply walk_quarantined; [done|] | apply walk_exact; [done|intros ? ? ?]
               | apply walk_get | apply walk_modify ].

(** *** The elementary changes *)

Lemma card_of_set c q id :
  card_of (set_card c q) id = if decide (id = card_id c) then Some c else card_of q id.
Proof. unfold card_of, set_card. simpl. rewrite od_get_set. repeat case_decide; congruence. Qed.

Lemma ok_quarantine m q : queue_ok q → queue_ok (with_quarantined m q).
Proof. by intros []. Qed.

Lemma remove_card_of q c id :
  card_of (remove c q) id = if decide (id = card_id c) then None else card_of q id.
Proof. unfold card_of, remove. simpl. rewrite od_get_pop. repeat case_decide; congruence. Qed.

Lemma remove_order q c root :
  order (remove c q) !! root =
  if decide (root = card_root c)
  then match filter (λ i, i ≠ card_id c) (default [] (order q !! root)) with
       | [] => None | l => Some l end
  else order q !! root.
Proof.
  unfold remove. simpl. destruct (decide (root = card_root c)) as [->|Hne].
  - destruct (filter _ _); [apply lookup_delete_eq|apply lookup_insert_eq].
  - destruct (filter _ _); [by apply lookup_delete_ne|by apply lookup_insert_ne].
Qed.

Lemma ok_remove q c : queue_ok q → card_of q (card_id c) = Some c → queue_ok (remove c q).
Proof.
  intros [Hwf Hid Hkey Hact Hpen Hord Hhead] Hc. split.
  - by apply od_wf_pop.
  - intros id c'. rewrite remove_card_of. case_decide; [done|apply Hid].
  - intros id c'. rewrite remove_card_of. case_decide; [done|apply Hkey].
  - intros ak id. simpl. rewrite lookup_delete_Some. intros [Hne (c' & ? & ? & ->)%Hact].
    exists c'. rewrite remove_card_of, decide_False; [done|]. intros ->. congruence.
  - intros pk id. simpl. rewrite lookup_delete_Some. intros [Hne (c' & ? & ? & ->)%Hpen].
    exists c'. rewrite remove_card_of, decide_False; [done|]. intros ->. congruence.
  - intros root l. rewrite remove_order. case_decide as Hr.
    + destruct (order q !! root) as [l0|] eqn:El; simpl; [|done].
      apply Hord in El as (_ & Hnd & Hin).
      destruct (filter _ l0) as [|i l1] eqn:Ef; [done|]. intros [= <-]. rewrite <-Ef.
      split_and!; [by rewrite Ef|by apply NoDup_filter|].
      intros id [Hne Hl]%list_elem_of_filter. rewrite remove_card_of, decide_False by done. by apply Hin.
    + intros (Hl & Hnd & Hin)%Hord. split_and!; [done|done|]. intros id (c' & Hc' & <-)%Hin.
      exists c'. rewrite remove_card_of, decide_False; [done|]. intros ->. congruence.
  - intros id c'. rewrite remove_card_of. case_decide as Hne; [done|]. intros Hc' Hst.
    destruct (Hhead id c' Hc' Hst) as (l & Hl). rewrite remove_order. case_decide; [|by eauto].
    rewrite Hl. simpl. rewrite filter_cons_True by done. eauto.
Qed.

(** A card changes its state to one that is not active, and the indexes of the
    active and the pending follow. *)
Lemma ok_set_state st q c :
  queue_ok q → card_of q (card_id c) = Some c → state c ≠ active → st ≠ active →
  (st = resuming → ∃ l, order q !! card_root c = Some (card_id c :: l)) →
  queue_ok (set_card (set_state st c) q).
Proof.
  intros [Hwf Hid Hkey Hact Hpen Hord Hhead] Hc Hold Hnew Hres. split.
  - by apply od_wf_set.
  - intros id c'. rewrite card_of_set. case_decide; [by intros [= <-]|apply Hid].
  - intros id c'. rewrite card_of_set. case_decide; [intros [= <-]; exact (Hkey _ _ Hc)|apply Hkey].
  - intros ak id (c' & ? & ? & ->)%Hact. exists c'. rewrite card_of_set, decide_False; [done|].
    intros ->. change (card_id (set_state st c)) with (card_id c) in *. congruence.
  - intros pk id (c' & ? & ? & ->)%Hpen. rewrite card_of_set.
    destruct (decide (id = card_id (set_state st c))) as [->|]; [|by eauto].
    exists (set_state st c). change (card_id (set_state st c)) with (card_id c) in *. by simplify_eq.
  - intros root l (? & ? & Hin)%Hord. split_and!; [done|done|]. intros id (c' & Hc' & <-)%Hin.
    rewrite card_of_set. destruct (decide (id = card_id (set_state st c))) as [->|]; [|by eauto].
    exists (set_state st c). change (card_id (set_state st c)) with (card_id c) in *. by simplify_eq.
  - intros id c'. rewrite card_of_set. case_decide as Hi; [|by apply Hhead].
    intros [= <-]. simpl. intros Hst. subst id. by apply Hres.
Qed.

(** A key made of texts already normalized has these texts. *)
Lemma make_key_text a b c d e k :
  normalize_tool_invocation_text MAX_TOOL_INVOCATION_ID_LENGTH (JStr a) = Some a →
  normalize_tool_invocation_text 512 (JStr b) = Some b →
  normalize_tool_invocation_text 512 (JStr c) = Some c →
  normalize_tool_invocation_text 512 (JStr d) = Some d →
  normalize_tool_invocation_text 512 (JStr e) = Some e →
  make_key (JStr a) (JStr b) (JStr c) (JStr "agent") (JStr d) (JStr e)
    (JNum TOOL_INVOCATION_KEY_VERSION) = Some k →
  invocation_id k = a ∧ active_key k = (b, c, d, e).
Proof.
  intros H1 H2 H3 H4 H5 (_ & _ & _ & _ & M1 & M2 & M3 & M4 & M5)%make_key_spec.
  unfold active_key. split; congruence.
Qed.

Lemma ok_begin root req execution call_id tool fresh q :
  queue_ok q → queue_ok (begin_card root req execution call_id tool fresh q).2.
Proof.
  intros Hq. unfold begin_card. walk.
  destruct (pending_ids q !! _) as [id|] eqn:Ep.
  { destruct (card_of q id) as [c|]; [|done]. by destruct (bool_decide _). }
  walk. rename a5 into k. cbn [py_ret snd]. destruct Hq as [Hwf Hid Hkey Hact Hpen Hord Hhead].
  assert (od_get (cards q) a4 = None) as Hnew.
  { unfold od_mem in *. by destruct (od_get (cards q) a4). }
  assert (key_made k) as Hmade.
  { match goal with H : make_key _ _ _ _ _ _ _ = Some k |- _ => unfold key_made; eauto 8 end. }
  assert (invocation_id k = a4 ∧ active_key k = (a, a3, a0, a1)) as [Hk Hak].
  { eapply make_key_text; [..|eassumption]; by eapply normalize_idemp. }
  assert (∀ id c, card_of q id = Some c → id ≠ a4) as Hother by (intros id c Hc ->; unfold card_of in Hc; congruence).
  set (new := mk_card k a2 active None false None).
  assert (∀ id, card_of (with_active (<[(a, a3, a0, a1):=a4]> (active_ids q))
    (with_cards (od_set (cards q) a4 new) q)) id = if decide (id = a4) then Some new else card_of q id) as Hget.
  { intros id. unfold card_of. simpl. rewrite od_get_set. repeat case_decide; congruence. }
  split.
  - by apply od_wf_set.
  - intros id c. rewrite Hget. case_decide as Hi; [intros [= <-]; by rewrite Hi|apply Hid].
  - intros id c. rewrite Hget. case_decide; [intros [= <-]; exact Hmade|apply Hkey].
  - intros ak id. simpl. rewrite lookup_insert_Some. intros [[<- <-]|[Hne (c & Hc & ? & ->)%Hact]].
    + exists new. by rewrite Hget, decide_True.
    + exists c. rewrite Hget, decide_False by eauto. done.
  - intros pk id (c & Hc & ? & ->)%Hpen. exists c. rewrite Hget, decide_False by eauto. done.
  - intros r l (? & ? & Hin)%Hord. split_and!; [done|done|]. intros id (c & Hc & <-)%Hin.
    exists c. rewrite Hget, decide_False by eauto. done.
  - intros id c. rewrite Hget. case_decide; [by intros [= <-]|apply Hhead].
Qed.

Lemma ok_mark_pending k r auto ctx q : queue_ok q → queue_ok (mark_pending k r auto ctx q).2.
Proof.
  intros Hq. unfold mark_pending. apply walk_exact; [done|intros c Hc Hk]. apply walk_get.
  destruct (state c) eqn:Est; [|by destruct (bool_decide _)|done].
  apply walk_unless; [done|intros Hfree]. apply walk_modify. cbn [py_ret snd].
  destruct Hq as [Hwf Hid Hkey Hact Hpen Hord Hhead]. subst k.
  set (new := mk_card (key c) (tool_name c) pending (Some r) auto ctx).
  set (q' := with_pending _ _).
  assert (∀ id, card_of q' id = if decide (id = card_id c) then Some new else card_of q id) as Hget.
  { intros id. unfold card_of. simpl. rewrite od_get_set. unfold card_id. repeat case_decide; congruence. }
  split.
  - by apply od_wf_set.
  - intros id c'. rewrite Hget. case_decide; [by intros [= <-]|apply Hid].
  - intros id c'. rewrite Hget. case_decide; [intros [= <-]; exact (Hkey _ _ Hc)|apply Hkey].
  - intros ak id. simpl. rewrite lookup_delete_Some. intros [Hne (c' & ? & ? & ->)%Hact].
    exists c'. rewrite Hget, decide_False; [done|]. intros ->. unfold card_id in *. congruence.
  - intros pk id. simpl. rewrite lookup_insert_Some. intros [[<- <-]|[Hne (c' & ? & ? & ->)%Hpen]].
    + exists new. by rewrite Hget, decide_True.
    + exists c'. rewrite Hget, decide_False; [done|]. intros ->. unfold card_id in *. congruence.
  - intros root l (? & ? & Hin)%Hord. split_and!; [done|done|]. intros id (c' & Hc' & <-)%Hin.
    rewrite Hget. destruct (decide (id = card_id c)) as [->|]; [|by eauto].
    exists new. unfold card_id in *. by simplify_eq.
  - intros id c'. rewrite Hget. case_decide; [by intros [= <-]|apply Hhead].
Qed.

Lemma ok_reserve root incoming q : queue_ok q → queue_ok (reserve_answer root incoming q).2.
Proof.
  intros Hq. unfold reserve_answer. walk. rename a3 into h, a4 into c.
  match goal with H : match card_of q h with _ => _ end = Some c |- _ => rename H into Hc end.
  destruct (card_of q h) as [c'|] eqn:Eh; [|done].
  destruct (bool_decide_reflect (state c' = pending)) as [Hst|]; [|done]. simplify_eq.
  unfold py_bind. destruct (normalize_answer _) as [p|m]; cbn [py_ret py_modify raise py_raise snd]; [|done].
  pose proof (qo_id q Hq h c Eh) as Hid. subst h.
  match goal with H : hd_error (default [] (order q !! ?r)) = Some _ |- _ => rename H into Hh;
    destruct (order q !! r) as [l|] eqn:El; [|done]; destruct l as [|i l]; [done|] end.
  cbn in Hh. injection Hh as ->.
  apply ok_set_state; [done|done|congruence|done|]. intros _.
  destruct (qo_order q Hq _ _ El) as (_ & _ & Hin). destruct (Hin (card_id c)) as (c' & Hc' & <-); [by left|].
  rewrite Eh in Hc'. injection Hc' as <-. eauto.
Qed.

Lemma ok_release a q : queue_ok q → queue_ok (release_answer a q).
Proof.
  intros Hq. unfold release_answer. destruct (card_of q _) as [c|] eqn:Ec; [|done].
  destruct (bool_decide _ && bool_decide _) eqn:E; [|done].
  apply andb_true_iff in E as [E1%bool_decide_eq_true E2%bool_decide_eq_true]. rewrite <-E1 in Ec.
  apply ok_set_state; [done|done|congruence|done|done].
Qed.

Lemma card_id_nonempty q id c : queue_ok q → card_of q id = Some c → id ≠ EmptyString.
Proof.
  intros Hq Hc. rewrite <-(qo_id q Hq id c Hc).
  destruct (qo_key q Hq id c Hc) as (? & ? & ? & ? & ? & ? & ? & Hk%make_key_spec).
  destruct Hk as (_ & _ & _ & _ & (? & _ & _ & Hne & _)%normalize_spec & _). exact Hne.
Qed.

Lemma card_at_spec q pk c :
  queue_ok q → card_at q pk = Some c →
  pending_ids q !! pk = Some (card_id c) ∧ card_of q (card_id c) = Some c ∧ pk = pending_key (key c).
Proof.
  intros Hq. unfold card_at. destruct (pending_ids q !! pk) as [id|] eqn:Ep; simpl.
  - destruct (qo_pending q Hq _ _ Ep) as (c' & Hc' & _ & ->).
    replace (str_or id EmptyString) with id by by destruct id.
    intros Hc. simplify_eq. by rewrite (qo_id q Hq _ _ Hc').
  - intros Hc. by apply (card_id_nonempty q EmptyString c) in Hc.
Qed.

Lemma ok_claim root execution call_id tool q :
  queue_ok q → queue_ok (claim_answer_for_call root execution call_id tool q).2.
Proof.
  intros Hq. unfold claim_answer_for_call. walk. rename a3 into c. cbn [py_ret snd].
  match goal with H : match card_at q ?pk with _ => _ end = Some c |- _ => rename H into Hc; set (lookup := pk) in * end.
  destruct (card_at q lookup) as [c'|] eqn:Ea; [|done].
  destruct (bool_decide_reflect (state c' = resuming)) as [Hst|]; [|done]. simplify_eq.
  destruct (card_at_spec q _ _ Hq Ea) as (Hp & Hc & Hpk).
  destruct Hq as [Hwf Hid Hkey Hact Hpen Hord Hhead].
  set (q' := with_active _ _).
  assert (∀ id, card_of q' id = if decide (id = card_id c) then Some (set_state active c) else card_of q id) as Hget.
  { intros id. apply (card_of_set (set_state active c) q). }
  split.
  - by apply od_wf_set.
  - intros id c'. rewrite Hget. destruct (decide (id = card_id c)) as [->|]; [intros H'; by apply (inj Some) in H' as <-|apply Hid].
  - intros id c'. rewrite Hget. destruct (decide (id = card_id c)) as [->|]; [intros H'; apply (inj Some) in H' as <-; exact (Hkey _ _ Hc)|apply Hkey].
  - intros ak id. simpl. rewrite lookup_insert_Some. intros [[<- <-]|[Hne (c' & Hc' & ? & ->)%Hact]].
    + exists (set_state active c). by rewrite Hget, decide_True.
    + exists c'. rewrite Hget, decide_False; [done|]. intros ->. congruence.
  - intros pk id. simpl. rewrite lookup_delete_Some. intros [Hne (c' & Hc' & ? & ->)%Hpen].
    exists c'. rewrite Hget, decide_False; [done|]. intros ->. congruence.
  - intros r l (? & ? & Hin)%Hord. split_and!; [done|done|]. intros id (c' & Hc' & <-)%Hin.
    rewrite Hget. destruct (decide (id = card_id c)) as [->|]; [|by eauto].
    exists (set_state active c). by simplify_eq.
  - intros id c'. rewrite Hget. destruct (decide (id = card_id c)) as [->|]; [intros H'; by apply (inj Some) in H' as <-|apply Hhead].
Qed.

Lemma ok_consume a q : queue_ok q → queue_ok (consume_accepted_answer_if_quarantined a q).2.
Proof.
  intros Hq. unfold consume_accepted_answer_if_quarantined.
  destruct (card_of q _) as [c|] eqn:Ec; [|done]. destruct (_ && _ && _); [|done]. simpl.
  apply ok_remove; [done|]. by rewrite (qo_id q Hq _ _ Ec).
Qed.

Lemma get_card_spec k q c : get_card k q = Some c ↔ card_of q (invocation_id k) = Some c ∧ key c = k.
Proof.
  unfold get_card. destruct (card_of q (invocation_id k)) as [c'|]; simpl; [|naive_solver].
  destruct (bool_decide_reflect (key c' = k)); naive_solver.
Qed.

Lemma ok_remove_got k q c : queue_ok q → get_card k q = Some c → queue_ok (remove c q).
Proof. intros Hq [Hc <-]%get_card_spec. by apply ok_remove. Qed.

Lemma ok_finish k q : queue_ok q → queue_ok (finish k q).2.
Proof. intros Hq. unfold finish. destruct (get_card k q) eqn:E; [by eapply ok_remove_got|done]. Qed.

Lemma ok_finish_active k q : queue_ok q → queue_ok (finish_active k q).2.
Proof.
  intros Hq. unfold finish_active. destruct (get_card k q) eqn:E; [|done].
  destruct (bool_decide _); [by eapply ok_remove_got|done].
Qed.

Definition cancel_one (nq : nat * Queue) (k : ToolInvocationKeyV1) : nat * Queue :=
  match get_card k nq.2 with Some c => (S nq.1, remove c nq.2) | None => nq end.

Lemma ok_cancel ks q : queue_ok q → queue_ok (cancel_snapshot ks q).2.
Proof.
  unfold cancel_snapshot. generalize 0. revert q.
  induction ks as [|k ks IH]; intros q n Hq; [done|]. simpl.
  destruct (get_card k q) eqn:E; [|by apply IH]. apply IH. by eapply ok_remove_got.
Qed.

Lemma ok_cutover root q : queue_ok q → queue_ok (begin_cutover root q).2.
Proof.
  intros Hq. unfold begin_cutover. destruct (is_quarantined _ _); [done|].
  destruct (negb _); [done|by apply ok_quarantine].
Qed.

Lemma ok_discard ks root q : queue_ok q → queue_ok (discard_continuation ks root q).2.
Proof.
  intros Hq. unfold discard_continuation. walk.
  pose proof (ok_cancel (filter (λ k, root_session_id k = str_or_empty root) ks) q Hq) as H1.
  destruct (cancel_snapshot _ q) as [n q']. walk. by apply ok_quarantine.
Qed.

(** *** [reconcile] *)

Lemma fence_eq {A} root m q :
  fence (A := A) root m q = (Exc (RootPermissionQueueError m), quarantine (JStr root) q).
Proof. done. Qed.

(** Reading Core's list changes nothing but the quarantine. *)
Lemma scan_result_spec root entries f q :
  match scan_result root entries f q with
  | (Ret f', q') => q' = q ∧
      ∀ k, k ∈ fd_keys f' → k ∈ fd_keys f ∨ root_session_id k = root
  | (Exc e, q') => q' = quarantine (JStr root) q ∨
      q' = q ∧ e = RootPermissionQueueError "permission_queue_tool_call_id_invalid"
  end.
Proof.
  revert f. induction entries as [|[raw item] entries IH]; intros f; simpl; [by auto|].
  unfold text_of, need, py_bind. destruct (normalize_tool_invocation_text 512 raw) as [inner|]; simpl; [|by auto].
  destruct (interaction item) as [i|]; [|by left].
  destruct (negb (bool_decide (in_id i = inner))); [by left|]. destruct (is_client_tool _); [apply IH|].
  destruct (request_key _) as [w|];
    [|apply (IH (mk_found (fd_keys f) (fd_interactions f ++ [i]) true))]. destruct (from_wire w) as [k|]; [|by left].
  destruct (negb _ || negb _) eqn:E; [by left|].
  apply orb_false_iff in E as [E%negb_false_iff%bool_decide_eq_true _].
  specialize (IH (mk_found (fd_keys f ++ [k]) (fd_interactions f ++ [i]) (fd_other f))).
  destruct (scan_result _ _ _ q) as [[f'|e] q']; [|done]. destruct IH as [-> IH]. split; [done|].
  intros k' [Hk|Hk]%IH; [|by auto]. simpl in Hk. apply elem_of_app in Hk as [?|Hk]; [by auto|].
  apply list_elem_of_singleton in Hk as ->. by auto.
Qed.

Lemma exact_cards_spec ks q :
  match exact_cards ks q with
  | (Ret cs, q') => q' = q ∧ map key cs = ks ∧ Forall (λ c, card_of q (card_id c) = Some c) cs
  | (Exc e, q') => q' = q ∧ e = RootPermissionQueueError "permission_queue_card_mismatch"
  end.
Proof.
  induction ks as [|k ks IH]; simpl; [by repeat constructor|].
  unfold exact_card, py_bind. simpl. destruct (card_of q (invocation_id k)) as [c|] eqn:Ec; [|done].
  destruct (bool_decide_reflect (key c = k)) as [Hk|]; [|done]. simpl.
  destruct (exact_cards ks q) as [[cs|e] q']; [|done]. destruct IH as (-> & <- & Hcs). simpl.
  split_and!; [done|by rewrite Hk|]. constructor; [|done]. unfold card_id. by rewrite Hk.
Qed.

Lemma missing_card_None root live cs :
  missing_card root live cs = None →
  ∀ c, c ∈ cs → card_root c = root → state c ≠ active → card_id c ∈ live.
Proof.
  induction cs as [|c cs IH]; simpl; [by intros _ ? ?%elem_of_nil|].
  destruct (bool_decide_reflect (card_root c = root)) as [Hr|Hr]; simpl.
  2:{ intros Hm c' [->|?]%elem_of_cons; [done|by apply IH]. }
  destruct (bool_decide_reflect (card_id c ∈ live)) as [Hin|Hin]; simpl.
  - rewrite !andb_false_r. intros Hm c' [->|?]%elem_of_cons; [done|by apply IH].
  - rewrite !andb_true_r. destruct (bool_decide_reflect (state c = resuming)); [done|].
    destruct (bool_decide_reflect (state c = pending)); [done|].
    intros Hm c' [->|?]%elem_of_cons ? Hst; [by destruct (state c)|by apply IH].
Qed.

(** What a call of [reconcile] comes to *)
Definition reconciled (q : Queue) (out : outcome queue_error (option Snapshot) * Queue)
    (root : json) : Prop :=
  match out with
  | (Ret None, q') => q' = q
  | (Ret (Some sn), q') => ∃ r,
      normalize_tool_invocation_text 512 root = Some r ∧
      q' = with_order (<[r := map card_id (sn_cards sn)]> (order q)) q ∧
      sn_cards sn ≠ [] ∧ NoDup (map card_id (sn_cards sn)) ∧
      (∀ c, c ∈ sn_cards sn → card_of q (card_id c) = Some c ∧ card_root c = r ∧ state c = pending) ∧
      (∀ id c, card_of q id = Some c → card_root c = r → state c ≠ active → c ∈ sn_cards sn)
  | (Exc e, q') =>
      (∃ r, normalize_tool_invocation_text 512 root = Some r ∧ q' = quarantine (JStr r) q) ∨
      q' = q ∧ (e = RootPermissionQueueError "permission_queue_root_session_id_invalid" ∨
                e = RootPermissionQueueError "permission_queue_tool_call_id_invalid" ∨
                e = RootPermissionQueueError "permission_queue_card_mismatch")
  end.

Lemma map_card_id cs : map card_id cs = map invocation_id (map key cs).
Proof. by rewrite map_map. Qed.

Lemma reconcile_spec result root q : queue_ok q → reconciled q (reconcile result root q) root.
Proof.
  intros Hq. unfold reconcile, text_of, need. unfold py_bind at 1.
  destruct (normalize_tool_invocation_text 512 root) as [r|] eqn:Er; cbn [py_some py_ret py_raise];
    [|by right; auto].
  assert (∀ m, reconciled q (fence r m q) root) as Hfence by (intros m; left; eauto).
  destruct result as [[items ids]|]; [|done]. simpl. destruct items as [items|]; [|apply Hfence].
  destruct ids as [ids|]; [|apply Hfence]. destruct (_ || _ || _); [apply Hfence|].
  unfold py_bind at 1. pose proof (scan_result_spec r (zip ids items) (mk_found [] [] false) q) as Hscan.
  destruct (scan_result _ _ _ q) as [[f|e] q1].
  2:{ destruct Hscan as [->|[-> ->]]; [left; eauto|right; auto]. }
  destruct Hscan as [-> Hroots]. simpl in Hroots.
  destruct (fd_keys f) as [|k0 ks0] eqn:Ek; [done|]. rewrite <-Ek in *.
  destruct (fd_other f || _); [apply Hfence|].
  destruct (bool_decide_reflect (NoDup (map invocation_id (fd_keys f)))) as [Hnd|]; [|apply Hfence].
  cbn [negb]. unfold py_bind at 1. pose proof (exact_cards_spec (fd_keys f) q) as Hex.
  destruct (exact_cards (fd_keys f) q) as [[cs|e] q1]; [|destruct Hex as [-> ->]; right; auto].
  destruct Hex as (-> & Hkeys & Hcs). unfold py_bind at 1. cbn [py_get].
  destruct (existsb _ cs) eqn:Epend; [apply Hfence|].
  destruct (missing_card _ _ _) as [m|] eqn:Em; [apply Hfence|].
  unfold py_bind. cbn [py_modify py_ret reconciled sn_cards]. exists r.
  rewrite map_card_id, Hkeys. rewrite Forall_forall in Hcs.
  assert (∀ c, c ∈ cs → card_root c = r ∧ state c = pending) as Hpend.
  { intros c Hin. split.
    - destruct (Hroots (key c)) as [Hn|?]; [|by apply elem_of_nil in Hn|done].
      rewrite <-Hkeys. by apply list_elem_of_fmap_2.
    - apply not_true_iff_false in Epend. destruct (decide (state c = pending)); [done|].
      destruct Epend. apply existsb_exists. exists c. split; [by apply list_elem_of_In|].
      by rewrite bool_decide_eq_false_2. }
  split_and!; try done.
  - intros ->. by rewrite <-Hkeys in Ek.
  - intros c Hin. destruct (Hpend c Hin). auto.
  - intros id c Hc Hr Hst.
    pose proof (qo_id q Hq _ _ Hc) as Hidc.
    assert (card_id c ∈ map invocation_id (fd_keys f)) as Hin.
    { eapply missing_card_None; [exact Em| |done|done].
      apply od_values_get; [by apply qo_wf|]. eauto. }
    rewrite <-Hkeys, <-map_card_id in Hin. apply list_elem_of_fmap in Hin as (c' & Hcc & Hin).
    specialize (Hcs c' Hin). unfold card_of in *. rewrite <-Hcc, Hidc in Hcs. congruence.
Qed.

Lemma ok_reconcile result root q : queue_ok q → queue_ok (reconcile result root q).2.
Proof.
  intros Hq. pose proof (reconcile_spec result root q Hq) as H.
  destruct (reconcile result root q) as [[[sn|]|e] q']; simpl in *; [|by subst|].
  - destruct H as (r & _ & -> & Hne & Hnd & Hcs & Hall).
    destruct Hq as [Hwf Hid Hkey Hact Hpen Hord Hhead]. split; try done; simpl.
    + intros root' l. rewrite lookup_insert_Some. intros [[<- <-]|[_ ?]]; [|by apply Hord].
      split_and!; [by destruct (sn_cards sn)|done|].
      intros id (c & -> & Hc)%list_elem_of_fmap. exists c. by apply Hcs in Hc as (? & ? & _).
    + intros id c Hc Hst. change (card_of q id = Some c) in Hc.
      destruct (decide (card_root c = r)) as [Hr|Hr].
      * apply Hall in Hc as Hin; [|done|congruence]. apply Hcs in Hin as (_ & _ & ?). congruence.
      * rewrite lookup_insert_ne by done. by apply Hhead.
  - destruct H as [(r & _ & ->)|[-> _]]; [by apply ok_quarantine|done].
Qed.

Lemma ok_run_op o q : queue_ok q → queue_ok (run_op o q).
Proof.
  intros Hq. destruct o; simpl; auto using ok_begin, ok_mark_pending, ok_reserve, ok_release,
    ok_claim, ok_consume, ok_reconcile, ok_finish, ok_finish_active, ok_cutover, ok_cancel, ok_discard.
  by apply ok_quarantine.
Qed.

Lemma ok_run l : queue_ok (run_ops l).
Proof.
  unfold run_ops. generalize queue_empty_ok. generalize queue_empty.
  induction l as [|o l IH]; intros q Hq; [done|]. simpl. by apply IH, ok_run_op.
Qed.

(** ** What the queue promises *)

Lemma head_of_order q id c :
  queue_ok q → card_of q id = Some c → state c = resuming →
  hd_error (default [] (order q !! card_root c)) = Some id.
Proof. intros Hq Hc Hst. destruct (qo_head q Hq id c Hc Hst) as (l & ->). done. Qed.

(** C9: In every reachable state the indexes of active and pending calls name
    cards that exist and are not in the other state, every card sits under its
    own id, and a session's visible order lists cards of that session, once
    each. *)
Theorem queue_invariant l :
  let q := run_ops l in
  NoDup (od_keys (cards q)) ∧
  (∀ id c, card_of q id = Some c → card_id c = id ∧ key_made (key c)) ∧
  (∀ ak id, active_ids q !! ak = Some id →
     ∃ c, card_of q id = Some c ∧ state c = active ∧ active_key (key c) = ak) ∧
  (∀ pk id, pending_ids q !! pk = Some id →
     ∃ c, card_of q id = Some c ∧ state c ≠ active ∧ pending_key (key c) = pk) ∧
  (∀ root l, order q !! root = Some l →
     l ≠ [] ∧ NoDup l ∧ ∀ id, id ∈ l → ∃ c, card_of q id = Some c ∧ card_root c = root).
Proof.
  intros q. destruct (ok_run l) as [Hwf Hid Hkey Hact Hpen Hord _]. split_and!; [done|..|done].
  - intros id c Hc. eauto.
  - intros ak id (c & ? & ? & ->)%Hact. eauto.
  - intros pk id (c & ? & ? & ->)%Hpen. eauto.
Qed.

(** A session never has two answers on their way: in every reachable state a
    card whose answer is reserved is the head of its session's visible order, and
    any two such cards of one session are the same. *)
Theorem one_answer_in_flight l id1 id2 c1 c2 :
  let q := run_ops l in
  card_of q id1 = Some c1 → state c1 = resuming →
  hd_error (default [] (order q !! card_root c1)) = Some id1 ∧
  (card_of q id2 = Some c2 → state c2 = resuming → card_root c2 = card_root c1 → id2 = id1).
Proof.
  intros q H1 S1. pose proof (head_of_order q id1 c1 (ok_run l) H1 S1) as Hd. split; [done|].
  intros H2 S2 Hr. pose proof (head_of_order q id2 c2 (ok_run l) H2 S2) as Hd2.
  rewrite Hr in Hd2. congruence.
Qed.

(** The reservation of an answer: its effect, or none *)
Definition reserved_answer (q : Queue) (root : json) (incoming : InteractiveInput)
    (out : outcome queue_error Answer * Queue) : Prop :=
  match out with
  | (Exc _, q') => q' = q
  | (Ret a, q') => ∃ r c rest raw_id raw payload,
      normalize_tool_invocation_text 512 root = Some r ∧ r ∉ quarantined q ∧
      user_inputs incoming = Some [(raw_id, JObj raw)] ∧ raw_inputs incoming = None ∧
      normalize_tool_invocation_text 512 raw_id = Some (tool_call_id (key c)) ∧
      order q !! r = Some (card_id c :: rest) ∧ card_of q (card_id c) = Some c ∧ state c = pending ∧
      normalize_answer raw = inl payload ∧
      a = mk_answer (set_state resuming c) (tool_call_id (key c), payload) payload ∧
      q' = set_card (set_state resuming c) q
  end.

Lemma bind_need {A B} o m (k : A → call B) q :
  (x <- need o m ;; k x) q = match o with Some a => k a q | None => (Exc (RootPermissionQueueError m), q) end.
Proof. by destruct o. Qed.

Lemma bind_text {B} n name v (k : string → call B) q :
  (x <- text_of n name v ;; k x) q =
  match normalize_tool_invocation_text n v with
  | Some a => k a q
  | None => (Exc (RootPermissionQueueError ("permission_queue_" +:+ name +:+ "_invalid")), q)
  end.
Proof. unfold text_of. by rewrite bind_need. Qed.

Lemma bind_unless {B} c m (k : unit → call B) q :
  (x <- unless c m ;; k x) q = if c then (Exc (RootPermissionQueueError m), q) else k tt q.
Proof. by destruct c. Qed.

Lemma bind_quarantined {B} root (k : unit → call B) q :
  (x <- raise_if_quarantined root ;; k x) q =
  if is_quarantined q (str_or_empty root)
  then (Exc (RootPermissionQueueError "permission_queue_quarantined"), q) else k tt q.
Proof. unfold raise_if_quarantined, py_bind, unless, py_guard. simpl. by destruct (is_quarantined _ _). Qed.

Lemma bind_get {B} (k : Queue → call B) q : (x <- py_get ;; k x) q = k q q.
Proof. done. Qed.

Lemma normalized_nonempty n v s : normalize_tool_invocation_text n v = Some s → str_or_empty (JStr s) = s.
Proof. intros (_ & _ & _ & Hne & _)%normalize_spec. unfold str_or_empty. simpl. by destruct s. Qed.

Lemma reserve_spec root incoming q :
  queue_ok q → reserved_answer q root incoming (reserve_answer root incoming q).
Proof.
  intros Hq. unfold reserve_answer. rewrite bind_text.
  destruct (normalize_tool_invocation_text 512 root) as [r|] eqn:Er; [|done].
  rewrite bind_unless. destruct (bool_decide_reflect (is_Some (raw_inputs incoming))) as [|Hraw]; [done|].
  rewrite bind_need. destruct (user_inputs incoming) as [[|[raw_id raw] [|? ?]]|] eqn:Eu; try done.
  rewrite bind_text. cbn [fst]. destruct (normalize_tool_invocation_text 512 raw_id) as [rid|] eqn:Eid; [|done].
  rewrite bind_need. cbn [snd]. destruct raw as [| | | | |raw]; try done. cbn [as_dict].
  rewrite bind_quarantined, (normalized_nonempty _ _ _ Er).
  unfold is_quarantined. destruct (bool_decide_reflect (r ∈ quarantined q)) as [|Hnq]; [done|].
  rewrite bind_get, bind_need. destruct (order q !! r) as [[|h rest]|] eqn:Eo; try done. cbn [default hd_error head id].
  rewrite bind_need. destruct (card_of q h) as [c|] eqn:Ec; [|done].
  destruct (bool_decide_reflect (state c = pending)) as [Hst|]; [|done].
  rewrite bind_unless. destruct (bool_decide_reflect (rid = tool_call_id (key c))) as [->|]; [|done].
  cbn [negb]. unfold py_bind at 1. destruct (normalize_answer raw) as [p|m] eqn:Ep; [|done].
  pose proof (qo_id q Hq _ _ Ec) as <-. apply eq_None_not_Some in Hraw.
  exists r, c, rest, raw_id, raw, p. done.
Qed.

(** An answer is accepted only for the pending card at the head of a session
    that is not quarantined, only as the one answer submitted and under that
    card's call id; accepting it changes nothing but that card, which is now on
    its way, and any answer refused changes nothing at all. *)
Theorem reserve_answer_correct root incoming q :
  queue_ok q → reserved_answer q root incoming (reserve_answer root incoming q).
Proof. apply reserve_spec. Qed.

Lemma claim_texts c q tool :
  key_made (key c) →
  claim_answer_for_call (JStr (root_session_id (key c))) (JStr (execution_session_id (key c)))
    (JStr (tool_call_id (key c))) tool q =
  match normalize_tool_invocation_text 512 tool with
  | None => (Exc (RootPermissionQueueError "permission_queue_tool_name_invalid"), q)
  | Some t =>
      match card_at q (pending_key (key c)) with
      | Some c' => if bool_decide (state c' = resuming) then
                     if negb (bool_decide (tool_name c' = t))
                     then (Exc (RootPermissionQueueError "permission_queue_pending_mismatch"), q)
                     else if bool_decide (is_Some (active_ids q !! active_key (key c')))
                     then (Exc (RootPermissionQueueError "permission_queue_duplicate_call"), q)
                     else (Ret (mk_claim (set_state active c') (is_quarantined q (card_root c'))),
                           with_active (<[active_key (key c') := card_id c']> (active_ids q))
                             (with_pending (delete (pending_key (key c)) (pending_ids q))
                               (set_card (set_state active c') q)))
                   else (Exc (RootPermissionQueueError "permission_queue_answer_not_reserved"), q)
      | None => (Exc (RootPermissionQueueError "permission_queue_answer_not_reserved"), q)
      end
  end.
Proof.
  intros (i & r & qq & kd & e & cc & v & Hk%make_key_spec).
  destruct Hk as (_ & _ & _ & _ & _ & Hr & _ & He & Hc).
  unfold claim_answer_for_call. rewrite bind_text, (normalize_idemp _ _ _ Hr).
  rewrite bind_text, (normalize_idemp _ _ _ He), bind_text, (normalize_idemp _ _ _ Hc), bind_text.
  destruct (normalize_tool_invocation_text 512 tool) as [t|]; [|done].
  rewrite bind_get, bind_need. fold (pending_key (key c)).
  destruct (card_at q (pending_key (key c))) as [c'|]; [|done].
  destruct (bool_decide _); [|done]. rewrite bind_unless. destruct (negb _); [done|].
  rewrite bind_unless. by destruct (bool_decide _).
Qed.

Abbreviation claim c tool := (claim_answer_for_call (JStr (root_session_id (key c)))
  (JStr (execution_session_id (key c))) (JStr (tool_call_id (key c))) tool).

(** The queue after a card's answer has been claimed *)
Definition claimed_queue (c : Card) (q : Queue) : Queue :=
  with_active (<[active_key (key c) := card_id c]> (active_ids q))
    (with_pending (delete (pending_key (key c)) (pending_ids q)) (set_card (set_state active c) q)).

Lemma card_at_linked q c :
  queue_ok q → card_of q (card_id c) = Some c → pending_ids q !! pending_key (key c) = Some (card_id c) →
  card_at q (pending_key (key c)) = Some c.
Proof.
  intros Hq Hc Hl. unfold card_at. rewrite Hl. simpl. pose proof (card_id_nonempty q _ _ Hq Hc).
  by replace (str_or (card_id c) EmptyString) with (card_id c) by by destruct (card_id c).
Qed.

Lemma claim_linked q c tool :
  queue_ok q → card_of q (card_id c) = Some c → state c = resuming →
  pending_ids q !! pending_key (key c) = Some (card_id c) → active_ids q !! active_key (key c) = None →
  normalize_tool_invocation_text 512 tool = Some (tool_name c) →
  claim c tool q =
    (Ret (mk_claim (set_state active c) (is_quarantined q (card_root c))), claimed_queue c q).
Proof.
  intros Hq Hc Hst Hl Hfree Ht. rewrite claim_texts by exact (qo_key q Hq _ _ Hc).
  rewrite Ht, card_at_linked by done. rewrite !bool_decide_eq_true_2 by done. cbn [negb].
  rewrite bool_decide_eq_false_2; [done|]. rewrite Hfree. by intros [? ?].
Qed.

Lemma claim_unlinked q c tool :
  queue_ok q → key_made (key c) → pending_ids q !! pending_key (key c) = None →
  ∃ e, claim c tool q = (Exc e, q).
Proof.
  intros Hq Hmade Hl. rewrite claim_texts by done.
  destruct (normalize_tool_invocation_text 512 tool); [|by eauto].
  destruct (card_at q (pending_key (key c))) as [c'|] eqn:E; [|by eauto].
  apply card_at_spec in E as (E & _); [congruence|done].
Qed.

(** While the head is not pending, no answer is accepted. *)
Lemma reserve_refused q root r incoming id rest c :
  queue_ok q → normalize_tool_invocation_text 512 root = Some r →
  order q !! r = Some (id :: rest) → card_of q id = Some c → state c ≠ pending →
  ∃ e, reserve_answer root incoming q = (Exc e, q).
Proof.
  intros Hq Hr Ho Hc Hst. pose proof (reserve_spec root incoming q Hq) as Hs.
  destruct (reserve_answer root incoming q) as [[a|e] q']; [|simpl in Hs; subst q'; by eauto].
  destruct Hs as (? & c' & ? & ? & ? & ? & ? & _ & _ & _ & _ & ? & ? & ? & _). congruence.
Qed.

(** An accepted answer is claimed once: while the call's card is linked, the
    first callback for the call takes the card, which is active again and stays
    the head of the visible order; every later claim for the call and every
    further answer to the session is then refused and changes nothing. *)
Theorem answer_claimed_once root incoming q a q1 :
  queue_ok q → reserve_answer root incoming q = (Ret a, q1) →
  let c := an_card a in
  pending_ids q !! pending_key (key c) = Some (card_id c) → active_ids q !! active_key (key c) = None →
  normalize_tool_invocation_text 512 (JStr (tool_name c)) = Some (tool_name c) →
  ∃ q2, claim c (JStr (tool_name c)) q1 = (Ret (mk_claim (set_state active c) false), q2) ∧
    card_of q2 (card_id c) = Some (set_state active c) ∧ order q2 = order q ∧
    (∀ tool, ∃ e, claim c tool q2 = (Exc e, q2)) ∧
    (∀ incoming', ∃ e, reserve_answer root incoming' q2 = (Exc e, q2)).
Proof.
  intros Hq Hres c Hlink Hfree Htool. pose proof (reserve_spec root incoming q Hq) as Hspec.
  pose proof (ok_reserve root incoming q Hq) as Hq1. rewrite Hres in Hspec, Hq1. cbn [snd] in Hq1.
  destruct Hspec as (r & c0 & rest & ? & ? & ? & Hr & Hnq & _ & _ & _ & Ho & Hc0 & Hst & _ & Ha & E1).
  assert (c = set_state resuming c0) as Ec by (unfold c; by rewrite Ha). clearbody c. clear Ha Hres.
  assert (card_root c = r) as Hroot.
  { destruct (qo_order q Hq _ _ Ho) as (_ & _ & Hin).
    destruct (Hin (card_id c0)) as (c' & Hc' & <-); [by left|]. subst c. by simplify_eq. }
  assert (card_of q1 (card_id c) = Some c) as Hc1 by (subst q1 c; by rewrite card_of_set, decide_True).
  exists (claimed_queue c q1).
  pose proof (claim_linked q1 c (JStr (tool_name c)) Hq1 Hc1) as Hclaim.
  rewrite Hclaim; [|by subst c|by subst q1|by subst q1|done].
  assert (queue_ok (claimed_queue c q1)) as Hq2.
  { pose proof (ok_claim (JStr (root_session_id (key c))) (JStr (execution_session_id (key c)))
      (JStr (tool_call_id (key c))) (JStr (tool_name c)) q1 Hq1) as H.
    rewrite Hclaim in H; [done|by subst c|by subst q1|by subst q1|done]. }
  assert (card_of (claimed_queue c q1) (card_id c) = Some (set_state active c)) as Hc2.
  { change (card_of (claimed_queue c q1)) with (card_of (set_card (set_state active c) q1)).
    by rewrite card_of_set, decide_True. }
  split_and!; [|exact Hc2|by subst q1|..].
  - do 3 f_equal. unfold is_quarantined. rewrite Hroot. apply bool_decide_eq_false_2. by subst q1.
  - intros tool. apply claim_unlinked; [done| |apply lookup_delete_eq]. exact (qo_key q1 Hq1 _ _ Hc1).
  - intros incoming'. eapply reserve_refused; [done|exact Hr| |exact Hc2|done]. subst q1 c. exact Ho.
Qed.

(** Reconciling with Core's interruptions either does not concern the queue
    and changes nothing; or it returns cards that all exist in that session and
    are pending, among them every card of the session that is pending or on its
    way, and their order becomes the visible one and nothing else changes; or it
    raises, and then nothing changes but that the session is quarantined, unless
    a session id or call id was malformed or a card named was unknown. *)
Theorem reconcile_correct result root q :
  queue_ok q → reconciled q (reconcile result root q) root.
Proof. apply reconcile_spec. Qed.

(** *** Quarantine *)

Lemma remove_quarantined c q : quarantined (remove c q) = quarantined q.
Proof. done. Qed.

Lemma cancel_quarantined ks q : quarantined (cancel_snapshot ks q).2 = quarantined q.
Proof.
  unfold cancel_snapshot. generalize 0. revert q.
  induction ks as [|k ks IH]; intros q n; [done|]. simpl.
  destruct (get_card k q); by rewrite IH.
Qed.

Lemma begin_quarantined root req execution call_id tool fresh q :
  quarantined (begin_card root req execution call_id tool fresh q).2 = quarantined q.
Proof.
  set (I := λ q0, quarantined q0 = quarantined q). enough (I (begin_card root req execution call_id tool fresh q).2) by done.
  assert (I q) by done. unfold begin_card. walk.
  destruct (pending_ids q !! _) as [id|]; [|by walk].
  destruct (card_of q id) as [c|]; [|done]. by destruct (bool_decide _).
Qed.

Lemma run_op_quarantined q r o :
  queue_ok q → r ∈ quarantined q → (∀ ks root, o = ODiscard ks root → str_or_empty root ≠ r) →
  r ∈ quarantined (run_op o q).
Proof.
  intros Hq Hr Ho. destruct o as [| |root incoming|a|root execution call_id tool|a|result root|k|k|root|ks|ks root|root]; simpl.
  - by rewrite begin_quarantined.
  - unfold mark_pending. apply walk_exact; [done|intros c _ _]. apply walk_get.
    destruct (state c); [|by destruct (bool_decide _)|done].
    by apply walk_unless; [done|intros _].
  - pose proof (reserve_spec root incoming q Hq) as Hs.
    destruct (reserve_answer root incoming q) as [[a|e] q']; simpl in *; [|by subst].
    by destruct Hs as (?&?&?&?&?&?&_&_&_&_&_&_&_&_&_&_&->).
  - unfold release_answer. destruct (card_of q _); [|done]. by destruct (_ && _).
  - unfold claim_answer_for_call. by walk.
  - unfold consume_accepted_answer_if_quarantined. destruct (card_of q _); [|done]. by destruct (_ && _).
  - pose proof (reconcile_spec result root q Hq) as Hs.
    destruct (reconcile result root q) as [[[sn|]|e] q']; simpl in *; [by destruct Hs as (?&_&->&_)|by subst|].
    destruct Hs as [(r' & _ & ->)|[-> _]]; [|done]. simpl. set_solver.
  - unfold finish. by destruct (get_card k q).
  - unfold finish_active. destruct (get_card k q) as [c|]; [|done]. by destruct (bool_decide _).
  - unfold begin_cutover. destruct (is_quarantined _ _); [done|]. destruct (negb _); [done|]. simpl. set_solver.
  - by rewrite cancel_quarantined.
  - unfold discard_continuation. walk.
    pose proof (cancel_quarantined (filter (λ k, root_session_id k = str_or_empty root) ks) q) as Hs.
    destruct (cancel_snapshot _ q) as [n q']. walk. simpl in *. specialize (Ho ks root eq_refl). set_solver.
  - set_solver.
Qed.

(** Only [discard_continuation] for a session ends its quarantine, and while
    it lasts the session begins no call and accepts no answer. *)
Theorem quarantine_lasts q r o :
  queue_ok q → r ∈ quarantined q → (∀ ks root, o = ODiscard ks root → str_or_empty root ≠ r) →
  r ∈ quarantined (run_op o q) ∧
  ∀ root, normalize_tool_invocation_text 512 root = Some r →
    (∀ req execution call_id tool fresh, ∃ e, begin_card root req execution call_id tool fresh q = (Exc e, q)) ∧
    (∀ incoming, ∃ e, reserve_answer root incoming q = (Exc e, q)).
Proof.
  intros Hq Hr Ho. split; [by apply run_op_quarantined|].
  intros root Hroot. split.
  - intros *. unfold begin_card. rewrite bind_text, Hroot.
    rewrite bind_text. destruct (normalize_tool_invocation_text 512 execution); [|by eauto].
    rewrite bind_text. destruct (normalize_tool_invocation_text 512 call_id); [|by eauto].
    rewrite bind_text. destruct (normalize_tool_invocation_text 512 tool); [|by eauto].
    rewrite bind_quarantined, (normalized_nonempty _ _ _ Hroot). unfold is_quarantined.
    rewrite bool_decide_eq_true_2 by done. eauto.
  - intros incoming. pose proof (reserve_spec root incoming q Hq) as Hs.
    destruct (reserve_answer root incoming q) as [[a|e] q']; simpl in Hs; [|subst; by eauto].
    destruct Hs as (?&?&?&?&?&?&?&?&_). congruence.
Qed.

(** *** Discarding a continuation *)

Lemma cancel_exact ks q n :
  queue_ok q → NoDup (map invocation_id ks) →
  (∀ k, k ∈ ks → ∃ c, card_of q (invocation_id k) = Some c ∧ key c = k) →
  ∃ q', foldl cancel_one (n, q) ks = (n + length ks, q') ∧ queue_ok q' ∧
    quarantined q' = quarantined q ∧
    ∀ id, card_of q' id = if decide (id ∈ map invocation_id ks) then None else card_of q id.
Proof.
  revert q n. induction ks as [|k ks IH]; intros q n Hq Hnd Hks; cbn [foldl length map] in *.
  { exists q. split_and!; [by rewrite Nat.add_0_r|done|done|].
    intros id. rewrite decide_False; [done|apply not_elem_of_nil]. }
  apply NoDup_cons in Hnd as [Hk Hnd].
  destruct (Hks k) as (c & Hc & Hck); [by left|].
  unfold cancel_one at 2. cbn [fst snd]. rewrite (proj2 (get_card_spec k q c)) by done.
  assert (card_id c = invocation_id k) as Hid by (unfold card_id; by rewrite Hck).
  destruct (IH (remove c q) (S n)) as (q' & -> & Hq' & Hqu & Hget); [by eapply ok_remove_got, get_card_spec|done|..].
  { intros k' Hk'. destruct (Hks k') as (c' & Hc' & Hck'); [by right|]. exists c'.
    rewrite remove_card_of, decide_False; [done|]. rewrite Hid. intros Heq.
    apply Hk. rewrite <-Heq. by apply list_elem_of_fmap_2. }
  exists q'. split_and!; [f_equal; lia|done|by rewrite Hqu|].
  intros id. rewrite Hget, remove_card_of, Hid.
  repeat case_decide; rewrite ?elem_of_cons in *; naive_solver.
Qed.

Lemma no_cards_no_order q r :
  queue_ok q → (∀ id c, card_of q id = Some c → card_root c ≠ r) → order q !! r = None.
Proof.
  intros Hq Hno. destruct (order q !! r) as [l|] eqn:E; [|done].
  destruct (qo_order q Hq _ _ E) as (Hne & _ & Hin). destruct l as [|id l]; [done|].
  destruct (Hin id) as (c & Hc & Hr); [by left|]. by destruct (Hno id c Hc).
Qed.

Lemma cutover_scope_spec root q ks q1 :
  cutover_continuation_scope root q = (Ret ks, q1) →
  let r := str_or_empty root in
  q1 = q ∧ r ∈ quarantined q ∧
  ks = map key (filter (λ c, card_root c = r) (od_values (cards q))) ∧
  ∀ c, c ∈ od_values (cards q) → card_root c = r → state c = pending.
Proof.
  unfold cutover_continuation_scope. rewrite bind_get, bind_unless.
  unfold is_quarantined. destruct (bool_decide_reflect (str_or_empty root ∈ quarantined q)); [|done].
  cbn [negb]. rewrite bind_unless. destruct (existsb _ _) eqn:E1; [done|].
  rewrite bind_unless. destruct (existsb (λ c, bool_decide (state c = resuming)) _) eqn:E2; [done|].
  intros [= <- <-]. split_and!; [done..|]. intros c Hc Hr.
  assert (c ∈ filter (λ c, card_root c = str_or_empty root) (od_values (cards q))) as Hin
    by by apply list_elem_of_filter.
  apply list_elem_of_In in Hin.
  destruct (state c) eqn:Est; [|done|].
  - apply not_true_iff_false in E1. destruct E1. apply existsb_exists. exists c.
    by rewrite bool_decide_eq_true_2.
  - apply not_true_iff_false in E2. destruct E2. apply existsb_exists. exists c.
    by rewrite bool_decide_eq_true_2.
Qed.

Lemma root_cards_NoDup q r :
  queue_ok q → NoDup (map invocation_id (map key (filter (λ c, card_root c = r) (od_values (cards q))))).
Proof.
  intros Hq. rewrite <-map_card_id. eapply sublist_NoDup; [exact (qo_wf q Hq)|].
  transitivity (map card_id (od_values (cards q))).
  - apply fmap_sublist, sublist_filter.
  - replace (map card_id (od_values (cards q))) with (od_keys (cards q)); [done|].
    assert (∀ id c, (id, c) ∈ cards q → card_id c = id) as Hids.
    { intros id c Hin. apply (qo_id q Hq). apply od_elem_get; [by apply qo_wf|done]. }
    unfold od_keys, od_values. induction (cards q) as [|[id c] d IH]; [done|]. simpl.
    rewrite (Hids id c) by by left. f_equal. apply IH. intros id' c' Hin. apply Hids. by right.
Qed.

(** A quarantined session recovers: once its cards are all pending, the scope
    [cutover_continuation_scope] returns can be discarded, which removes every
    card of the session and counts them, empties its visible order, ends the
    quarantine, and leaves the cards and the quarantine of other sessions as they
    were. *)
Theorem cutover_recovers root q ks q1 :
  queue_ok q → cutover_continuation_scope root q = (Ret ks, q1) →
  let r := str_or_empty root in
  ∃ q', discard_continuation ks root q1 = (Ret (length ks), q') ∧
    (∀ id c, card_of q id = Some c → card_root c = r → key c ∈ ks ∧ card_of q' id = None) ∧
    (∀ id c, card_of q id = Some c → card_root c ≠ r → card_of q' id = Some c) ∧
    order q' !! r = None ∧ quarantined q' = quarantined q ∖ {[ r ]}.
Proof.
  intros Hq (-> & Hr & -> & _)%cutover_scope_spec r. fold r. fold r in Hr.
  set (cs := filter (λ c, card_root c = r) (od_values (cards q))).
  assert (∀ c, c ∈ cs ↔ card_root c = r ∧ card_of q (card_id c) = Some c) as Hcs.
  { intros c. unfold cs. rewrite list_elem_of_filter, od_values_get by by apply qo_wf.
    split; [intros [? [id Hid]]|intros [? Hc]; split; [done|by exists (card_id c)]].
    by rewrite (qo_id q Hq id c Hid). }
  assert (filter (λ k, root_session_id k = r) (map key cs) = map key cs) as Hmine.
  { apply filter_true, Forall_forall. intros k (c & -> & [? _]%Hcs)%list_elem_of_fmap. done. }
  destruct (cancel_exact (map key cs) q 0 Hq) as (q' & Hcancel & Hq' & Hqu & Hget).
  { by apply root_cards_NoDup. }
  { intros k (c & -> & [_ ?]%Hcs)%list_elem_of_fmap. eauto. }
  exists (with_quarantined (quarantined q' ∖ {[ r ]}) q'). split.
  { unfold discard_continuation. rewrite bind_get, bind_unless. unfold is_quarantined. fold r.
    rewrite bool_decide_eq_true_2 by done. cbn [negb]. rewrite Hmine. fold cs. rewrite bind_unless.
    rewrite bool_decide_eq_true_2 by by rewrite map_card_id. cbn [negb].
    change (cancel_snapshot (map key cs) q) with (foldl cancel_one (0, q) (map key cs)).
    by rewrite Hcancel. }
  assert (∀ id c, card_of q id = Some c → card_root c = r → key c ∈ map key cs ∧ card_of q' id = None) as Hgone.
  { intros id c Hc Hroot. pose proof (qo_id q Hq id c Hc) as <-.
    assert (c ∈ cs) as Hin by by apply Hcs. split; [by apply list_elem_of_fmap_2|].
    rewrite Hget, <-map_card_id, decide_True; [done|]. by apply list_elem_of_fmap_2. }
  split_and!; [exact Hgone|..].
  - intros id c Hc Hroot. change (card_of q' id = Some c). rewrite Hget, decide_False; [done|].
    rewrite <-map_card_id. intros (c' & -> & [? ?]%Hcs)%list_elem_of_fmap. congruence.
  - apply (no_cards_no_order q' r Hq'). intros id c Hc Hroot. rewrite Hget in Hc.
    case_decide as Hd; [done|]. destruct (Hgone id c Hc Hroot) as [_ Hn]. rewrite Hget, decide_False in Hn by done.
    congruence.
  - simpl. by rewrite Hqu.
Qed.

(** Removing a card also removes the pending entry of another card of the same
    call: when a second request's evaluation of a call that is already pending
    ends, the pending card keeps its state but is no longer linked, so that once
    its answer is reserved no callback can claim it, and a resumed call does not
    find it. *)
Theorem finish_unlinks_other q c1 c2 :
  queue_ok q → card_of q (card_id c1) = Some c1 → state c1 = pending →
  pending_ids q !! pending_key (key c1) = Some (card_id c1) →
  card_of q (card_id c2) = Some c2 → state c2 = active → pending_key (key c2) = pending_key (key c1) →
  let q' := (finish_active (key c2) q).2 in
  card_of q' (card_id c1) = Some c1 ∧ pending_ids q' !! pending_key (key c1) = None ∧
  ∀ root incoming a q1, reserve_answer root incoming q' = (Ret a, q1) →
    an_card a = set_state resuming c1 → ∀ tool, ∃ e, claim c1 tool q1 = (Exc e, q1).
Proof.
  intros Hq H1 S1 Hl H2 S2 Hpk q'.
  assert (q' = remove c2 q) as Hq'.
  { unfold q', finish_active. rewrite (proj2 (get_card_spec (key c2) q c2)) by done.
    by rewrite bool_decide_eq_true_2. }
  assert (pending_ids q' !! pending_key (key c1) = None) as Hnone
    by (rewrite Hq', <-Hpk; apply lookup_delete_eq).
  assert (queue_ok q') as Hok by (rewrite Hq'; by apply ok_remove).
  split_and!; [|exact Hnone|].
  - rewrite Hq', remove_card_of, decide_False; [done|]. intros Heq. rewrite Heq in H1. congruence.
  - intros root incoming a q1 Hres Ha tool. pose proof (reserve_spec root incoming q' Hok) as Hs.
    pose proof (ok_reserve root incoming q' Hok) as Hq1. rewrite Hres in Hs, Hq1. simpl in Hs, Hq1.
    destruct Hs as (r & c & rest & ? & ? & ? & _ & _ & _ & _ & _ & _ & Hc & _ & _ & _ & ->).
    apply claim_unlinked; [done|exact (qo_key q Hq _ _ H1)|exact Hnone].
Qed.

End queue.

(** ** A run

    One call of session [s1] asks for permission, Core reports the interruption,
    and its answer is accepted. *)

Abbreviation demo_op := (@op string string) (only parsing).
Abbreviation demo_run := (@run_ops string string _ _) (only parsing).

Definition demo_pending : list demo_op :=
  [ OBegin (JStr "s1") (JStr "r1") (JStr "s1") (JStr "call1") (JStr "bash") (JStr "tiv_1");
    OMarkPending demo_key "may bash run?" false None ].

Definition demo_result : CoreResult :=
  mk_result (Some [IObject (JStr "call1")
    (RObject false (JObj [("tool_invocation_key", JObj (to_wire demo_key))]))]) (Some [JStr "call1"]).

Definition demo_input : InteractiveInput :=
  mk_input None (Some [(JStr "call1", JObj [("approved", JBool true); ("auto_confirm", JBool false)])]).

Definition demo_shown : list demo_op := demo_pending ++ [OReconcile (Some demo_result) (JStr "s1")].
Definition demo_answered : list demo_op := demo_shown ++ [OReserve (JStr "s1") demo_input].

Definition demo_card (st : CardState) : @Card string string :=
  mk_card demo_key "bash" st (Some "may bash run?") false None.
Definition demo_answer : @Answer string string :=
  mk_answer (demo_card resuming)
    ("call1", [("approved", JBool true); ("auto_confirm", JBool false); ("feedback", JStr "")])
    [("approved", JBool true); ("auto_confirm", JBool false); ("feedback", JStr "")].

Lemma demo_cards :
  card_of (demo_run demo_shown) "tiv_1" = Some (demo_card pending) ∧
  order (demo_run demo_shown) !! "s1" = Some ["tiv_1"] ∧
  card_of (demo_run demo_answered) "tiv_1" = Some (demo_card resuming).
Proof. vm_compute. done. Qed.

Lemma demo_reserve :
  reserve_answer (JStr "s1") demo_input (demo_run demo_shown) =
  (Ret demo_answer, demo_run demo_answered).
Proof. vm_compute. reflexivity. Qed.

Lemma one_answer_in_flight_witness :
  hd_error (default [] (order (demo_run demo_answered) !! card_root (demo_card resuming))) = Some "tiv_1" ∧
  (card_of (demo_run demo_answered) "tiv_1" = Some (demo_card resuming) → state (demo_card resuming) = resuming →
     card_root (demo_card resuming) = card_root (demo_card resuming) → "tiv_1" = "tiv_1").
Proof.
  apply (one_answer_in_flight demo_answered "tiv_1" "tiv_1" (demo_card resuming) (demo_card resuming)).
  - exact (proj2 (proj2 demo_cards)).
  - reflexivity.
Defined.

Lemma reserve_answer_correct_witness :
  reserved_answer (demo_run demo_shown) (JStr "s1") demo_input
    (reserve_answer (JStr "s1") demo_input (demo_run demo_shown)).
Proof. exact (reserve_answer_correct (JStr "s1") demo_input (demo_run demo_shown) (ok_run demo_shown)). Defined.

Lemma answer_claimed_once_witness :
  ∃ q2, claim_answer_for_call (JStr "s1") (JStr "s1") (JStr "call1") (JStr "bash") (demo_run demo_answered) =
      (Ret (mk_claim (set_state active (demo_card resuming)) false), q2) ∧
    card_of q2 "tiv_1" = Some (set_state active (demo_card resuming)) ∧
    order q2 = order (demo_run demo_shown) ∧
    (∀ tool, ∃ e, claim_answer_for_call (JStr "s1") (JStr "s1") (JStr "call1") tool q2 = (Exc e, q2)) ∧
    (∀ incoming', ∃ e, reserve_answer (JStr "s1") incoming' q2 = (Exc e, q2)).
Proof.
  apply (answer_claimed_once (JStr "s1") demo_input (demo_run demo_shown) demo_answer (demo_run demo_answered)).
  - exact (ok_run demo_shown).
  - exact demo_reserve.
  - vm_compute. reflexivity.
  - vm_compute. reflexivity.
  - vm_compute. reflexivity.
Defined.

Lemma reconcile_correct_witness :
  reconciled (demo_run demo_pending) (reconcile (Some demo_result) (JStr "s1") (demo_run demo_pending)) (JStr "s1").
Proof.
  exact (reconcile_correct (Some demo_result) (JStr "s1") (demo_run demo_pending) (ok_run demo_pending)).
Defined.

Definition demo_fenced : list demo_op := demo_shown ++ [OBeginCutover (JStr "s1")].

Lemma quarantine_lasts_witness :
  "s1" ∈ quarantined (run_op (OFinish demo_key) (demo_run demo_fenced)) ∧
  ∀ root, normalize_tool_invocation_text 512 root = Some "s1" →
    (∀ req execution call_id tool fresh, ∃ e,
       begin_card root req execution call_id tool fresh (demo_run demo_fenced) = (Exc e, demo_run demo_fenced)) ∧
    (∀ incoming, ∃ e, reserve_answer root incoming (demo_run demo_fenced) = (Exc e, demo_run demo_fenced)).
Proof.
  apply (quarantine_lasts (demo_run demo_fenced) "s1" (OFinish demo_key)).
  - exact (ok_run demo_fenced).
  - apply (bool_decide_eq_true_1 ("s1" ∈ quarantined (demo_run demo_fenced))). vm_compute. reflexivity.
  - intros ks root [=].
Defined.

Lemma cutover_recovers_witness :
  let r := str_or_empty (JStr "s1") in
  ∃ q', discard_continuation [demo_key] (JStr "s1") (demo_run demo_fenced) = (Ret (length [demo_key]), q') ∧
    (∀ id c, card_of (demo_run demo_fenced) id = Some c → card_root c = r →
       key c ∈ [demo_key] ∧ card_of q' id = None) ∧
    (∀ id c, card_of (demo_run demo_fenced) id = Some c → card_root c ≠ r → card_of q' id = Some c) ∧
    order q' !! r = None ∧ quarantined q' = quarantined (demo_run demo_fenced) ∖ {[ r ]}.
Proof.
  apply (cutover_recovers (JStr "s1") (demo_run demo_fenced) [demo_key] (demo_run demo_fenced)).
  - exact (ok_run demo_fenced).
  - vm_compute. reflexivity.
Defined.

(** The same call begun again under a second request, while the first is still
    being evaluated *)
Definition demo_key2 : ToolInvocationKeyV1 := mk_key "tiv_2" "s1" "r2" "agent" "s1" "call1" 1.
Definition demo_twice : list demo_op :=
  [ OBegin (JStr "s1") (JStr "r1") (JStr "s1") (JStr "call1") (JStr "bash") (JStr "tiv_1");
    OBegin (JStr "s1") (JStr "r2") (JStr "s1") (JStr "call1") (JStr "bash") (JStr "tiv_2");
    OMarkPending demo_key "may bash run?" false None ].
Definition demo_card2 : @Card string string := mk_card demo_key2 "bash" active None false None.

Lemma finish_unlinks_other_witness :
  let q' := (finish_active demo_key2 (demo_run demo_twice)).2 in
  card_of q' (card_id (demo_card pending)) = Some (demo_card pending) ∧
  pending_ids q' !! pending_key (key (demo_card pending)) = None ∧
  ∀ root incoming a q1, reserve_answer root incoming q' = (Ret a, q1) →
    an_card a = set_state resuming (demo_card pending) →
    ∀ tool, ∃ e, claim_answer_for_call (JStr "s1") (JStr "s1") (JStr "call1") tool q1 = (Exc e, q1).
Proof.
  apply (finish_unlinks_other (demo_run demo_twice) (demo_card pending) demo_card2).
  - exact (ok_run demo_twice).
  - vm_compute. reflexivity.
  - reflexivity.
  - vm_compute. reflexivity.
  - vm_compute. reflexivity.
  - reflexivity.
  - reflexivity.
Defined.
