(* ===== verification/PermissionTools.v ===== *)
(** * Permission levels, tool names and the permission mode

    Source: [jiuwenswarm/common/permission_tools.py] and
    [jiuwenswarm/common/permission_mode.py].

    A level the code writes is one of three strings; [level] names them, and the
    functions that take any string take a [string].  A mapping's [frozenset] of
    values and the collections of names are lists, used for membership only. *)

From S2P Require Import Prelude OrderedDict PyJson.

Inductive level := deny | ask | allow.

#[export] Instance level_eq : EqDecision level.
Proof. solve_decision. Defined.

Definition level_name (l : level) : string :=
  match l with deny => "deny" | ask => "ask" | allow => "allow" end.

Definition level_of (s : string) : option level :=
  if String.eqb s "deny" then Some deny
  else if String.eqb s "ask" then Some ask
  else if String.eqb s "allow" then Some allow else None.

(** ** [permission_tools] *)

Definition PERMISSION_TOOL_ALIASES : odict string string :=
  [("exec_command", "mcp_exec_command"); ("fetch_webpage", "mcp_fetch_webpage");
   ("free_search", "mcp_free_search"); ("paid_search", "mcp_paid_search")].

Definition PERMISSION_LEVEL_RANK : odict string Z := [("allow", 0%Z); ("ask", 1%Z); ("deny", 2%Z)].

Record PermissionToolNameResolution := {
  registered_name : string;
  canonical_name : string;
  aliases : list string;
  conflict : bool;
}.

(** [alias in aliases and aliases[alias] != name] *)
Definition aliased_away (alias name : string) : bool :=
  match od_get PERMISSION_TOOL_ALIASES alias with
  | Some target => negb (String.eqb target name)
  | None => false
  end.

(** [resolve_permission_tool_name], on a value whose [str()] does not raise *)
Definition resolve_permission_tool_name (tool_name : json) (canonical_names : list string) :
    PermissionToolNameResolution :=
  let registered := py_strip (str_or_empty tool_name) in
  let canonical := default registered (od_get PERMISSION_TOOL_ALIASES registered) in
  let aliased := od_mem PERMISSION_TOOL_ALIASES registered && negb (String.eqb canonical registered) in
  let bad := (bool_decide (registered ∈ canonical_names) && aliased)
             || (bool_decide (registered ∈ od_values PERMISSION_TOOL_ALIASES) && aliased)
             || aliased_away canonical canonical in
  let canonical := if bad then EmptyString else canonical in
  {| registered_name := registered;
     canonical_name := canonical;
     aliases := if bad then []
                else sorted_names (omap (λ at_, if String.eqb at_.2 canonical && negb (String.eqb at_.1 canonical)
                                                then Some at_.1 else None) PERMISSION_TOOL_ALIASES);
     conflict := bad |}.

Definition normalize_permission_tool_name (tool_name : json) : string :=
  canonical_name (resolve_permission_tool_name tool_name []).

Definition rank_of (s : string) : Z := default 1%Z (od_get PERMISSION_LEVEL_RANK s).

(** [str(x or "ask").strip().lower()] for a string *)
Definition level_text (s : string) : string := py_lower (py_strip (str_or s "ask")).

Definition stricter_permission_level (left right : string) : string :=
  let left_level := level_text left in
  let right_level := level_text right in
  if (rank_of right_level <=? rank_of left_level)%Z then left_level else right_level.

(** ** [permission_mode] *)

Definition runtime_mode (permission_config : jdict) : string :=
  let raw_mode := py_lower (py_strip (py_str (j_or (j_get permission_config "mode") (JStr "manual")))) in
  if bool_decide (raw_mode ∈ ["manual"; "auto"]) then raw_mode else "manual".

Definition is_auto_permission_mode (permission_config : jdict) : bool :=
  String.eqb (runtime_mode permission_config) "auto".

(** [permission_config.get("enabled") is True] *)
Definition is_permission_boundary_enabled (permission_config : jdict) : bool :=
  match j_get permission_config "enabled" with JBool b => b | _ => false end.

Definition is_auto_permission_enabled (permission_config : jdict) : bool :=
  is_permission_boundary_enabled permission_config && is_auto_permission_mode permission_config.

(** ** Levels and ranks *)

Definition stricter (a b : level) : level :=
  match a, b with
  | deny, _ | _, deny => deny
  | ask, _ | _, ask => ask
  | allow, allow => allow
  end.

Definition level_rank (l : level) : Z := match l with allow => 0 | ask => 1 | deny => 2 end.

Lemma stricter_names a b :
  stricter_permission_level (level_name a) (level_name b) = level_name (stricter a b).
Proof. by destruct a, b. Qed.

Lemma stricter_rank a b : level_rank (stricter a b) = (level_rank a `max` level_rank b)%Z.
Proof. by destruct a, b. Qed.

#[export] Instance stricter_comm : Comm (=) stricter.
Proof. by intros [] []. Qed.
#[export] Instance stricter_assoc : Assoc (=) stricter.
Proof. by intros [] [] []. Qed.
#[export] Instance stricter_idemp : IdemP (=) stricter.
Proof. by intros []. Qed.

Lemma level_name_inj a b : level_name a = level_name b → a = b.
Proof. by destruct a, b. Qed.

Lemma level_of_name l : level_of (level_name l) = Some l.
Proof. by destruct l. Qed.

Lemma level_of_Some s l : level_of s = Some l → s = level_name l.
Proof.
  unfold level_of. destruct (String.eqb_spec s "deny") as [->|]; [by intros [= <-]|].
  destruct (String.eqb_spec s "ask") as [->|]; [by intros [= <-]|].
  destruct (String.eqb_spec s "allow") as [->|]; [by intros [= <-]|done].
Qed.

(** The alias table has no chain, so that no name is ambiguous. *)
Lemma resolve_no_conflict tool_name names :
  Forall (λ alias, alias ∉ names) (od_keys PERMISSION_TOOL_ALIASES) →
  conflict (resolve_permission_tool_name tool_name names) = false.
Proof.
  intros Hn. unfold resolve_permission_tool_name. cbv zeta. cbn [conflict].
  generalize (py_strip (str_or_empty tool_name)) as r. intros r.
  unfold aliased_away, od_mem, PERMISSION_TOOL_ALIASES in *. simpl in Hn |- *. rewrite !Forall_cons in Hn. destruct Hn as (H1 & H2 & H3 & H4 & _).
  repeat (case_decide; subst; simpl; [by rewrite (bool_decide_eq_false_2 (_ ∈ names)) by done|]).
  rewrite !andb_false_r. simpl. done.
Qed.

Lemma normalize_name tool_name :
  normalize_permission_tool_name tool_name =
  let r := py_strip (str_or_empty tool_name) in default r (od_get PERMISSION_TOOL_ALIASES r).
Proof.
  pose proof (resolve_no_conflict tool_name [] ltac:(by repeat constructor; apply not_elem_of_nil)) as H.
  unfold normalize_permission_tool_name, resolve_permission_tool_name in *. cbv zeta in *.
  cbn [conflict canonical_name] in *. by rewrite H.
Qed.

Lemma normalize_stripped tool_name :
  let n := normalize_permission_tool_name tool_name in py_strip n = n ∧ od_get PERMISSION_TOOL_ALIASES n = None.
Proof.
  rewrite normalize_name. cbv zeta. set (r := py_strip (str_or_empty tool_name)).
  assert (py_strip r = r) as Hr by apply py_strip_idemp.
  destruct (od_get PERMISSION_TOOL_ALIASES r) as [t|] eqn:E; [|done]. simpl in *.
  repeat (case_decide; [by simplify_eq|]). done.
Qed.

Lemma canonical_name_idemp tool_name :
  let n := normalize_permission_tool_name tool_name in normalize_permission_tool_name (JStr n) = n.
Proof.
  cbv zeta. destruct (normalize_stripped tool_name) as [H1 H2].
  set (n := normalize_permission_tool_name tool_name) in *. rewrite normalize_name. cbv zeta.
  assert (str_or_empty (JStr n) = n) as -> by by destruct n. by rewrite H1, H2.
Qed.

(** A level that is not known ranks as [ask], but is returned as it is. *)
Example unknown_level_kept : stricter_permission_level "maybe" "allow" = "maybe".
Proof. reflexivity. Qed.
