(* ===== verification/ToolCapabilities.v ===== *)
(** * The capability of a tool, by name

    Source: [jiuwenswarm/agents/harness/common/rails/permissions/tool_capabilities.py].

    [classify_tool] is the table the automatic permission mode decides by.  A
    [frozenset] of side effects is a [gset]; the tables of names are lists, used
    for membership only. *)

From S2P Require Import Prelude OrderedDict PyJson PermissionTools.

Definition SHELL_TOOLS : list string := ["bash"; "cmd"; "powershell"; "mcp_exec_command"; "create_terminal"].
Definition CODE_TOOLS : list string := ["code"].
Definition PATH_TOOLS : list string :=
  ["apply_patch"; "lsp"; "read_file"; "read_pdf"; "write_file"; "edit_file"; "read_text_file";
   "write_text_file"; "write"; "read"; "glob_file_search"; "glob"; "list_dir"; "list_files"; "grep";
   "search_replace"].
Definition PUBLIC_SEARCH_TOOLS : list string := ["mcp_free_search"; "mcp_paid_search"].
Definition PUBLIC_WEB_READ_TOOLS : list string :=
  ["mcp_fetch_webpage"].
Definition SUBAGENT_TOOLS : list string := ["task_tool"; "spawn_sub_agent"; "session_new"].
Definition SUBAGENT_RUNTIME_CONTROL_TOOLS : list string :=
  ["subagent_close"; "subagent_list"; "subagent_resume"; "subagent_send_input"; "subagent_spawn";
   "subagent_wait"].
Definition HOST_TODO_TOOLS : list string := ["todo_create"; "todo_list"; "todo_get"; "todo_modify"].
Definition LEGACY_TODO_TOOLS : list string :=
  ["todo_insert"; "todo_complete"; "todo_remove"].
Definition SESSION_STATUS_TOOLS : list string := ["session_list"; "session_message_list"; "session_read"].
Definition SESSION_SEND_TOOLS : list string :=
  ["session_send_message"].
Definition SESSION_MESSAGE_MANAGEMENT_TOOLS : list string := ["session_message_resolve"; "session_continue_queued"].
Definition INTERNAL_READONLY_TOOLS : list string :=
  ["cron_list_jobs"; "cron_get_job"; "cron_preview_job"; "heartbeat_list_jobs"; "heartbeat_get_job";
   "heartbeat_preview_job"; "read_terminal_output"; "wait_for_terminal_exit";
   "convert_timestamp_to_utc8_time"; "tool_search"; "skill_index"; "list_skill"; "get_current_goal";
   "recall_compressed_context"].
Definition ASK_USER_TOOLS : list string := ["ask_user"].
Definition SKILL_READ_TOOLS : list string :=
  ["skill_tool"].
Definition SKILL_CHANGE_TOOLS : list string := ["install_skill"; "uninstall_skill"].
Definition SKILL_DISCOVERY_TOOLS : list string :=
  ["search_skill"].
Definition EXTERNAL_SEND_TOOLS : list string := ["send_file_to_user"; "upload_file"; "upload_photo"; "send_message"].
Definition DEVICE_TOOLS : list string :=
  ["call_phone"; "save_media_to_gallery"; "save_file_to_file_manager"].
Definition MEMORY_WRITE_TOOLS : list string :=
  ["write_memory"; "edit_memory"; "viking_remember"; "viking_add_resource"; "mem0_conclude";
   "coding_memory_write"; "coding_memory_edit"].
Definition LOCAL_MEMORY_READ_TOOLS : list string := ["memory_get"; "memory_search"; "read_memory"].
Definition REVIEWED_MEMORY_READ_TOOLS : list string :=
  ["coding_memory_read"; "ltm_search"; "ltm_search_summary"; "mem0_profile"; "mem0_search";
   "viking_browse"; "viking_read"; "viking_search"].
Definition FIXED_BROWSER_TOOLS : list string := ["browser_phase"; "browser_probe_cards"; "browser_probe_interactives"; "browser_recall_offload"].
Definition DYNAMIC_REPRESENTATIVE_TOOLS : list string :=
  ["browser_click"; "browser_open"; "browser_run_task"; "browser_snapshot"; "cron_create_job";
   "cron_delete_job"; "cron_preview_job"; "mcp_unknown_tool"; "todo_create"; "todo_list"].
Definition TRUSTED_BROWSER_MCP_SERVER_PREFIXES : list string := ["mcp_playwright-official_browser_"; "mcp_playwright_official_browser_"].
Definition TRUSTED_BROWSER_MCP_TOOL_SUFFIXES : list string :=
  ["click"; "close"; "console_messages"; "drag"; "drop"; "evaluate"; "file_upload"; "fill_form";
   "handle_dialog"; "hover"; "navigate"; "navigate_back"; "network_request"; "network_requests";
   "press_key"; "route"; "resize"; "run_code_unsafe"; "select_option"; "snapshot"; "tabs";
   "take_screenshot"; "type"; "unroute"; "wait_for"].

(** [_STATIC_CANONICAL_TOOL_NAMES] *)
Definition STATIC_CANONICAL_TOOL_NAMES : list string :=
  od_values PERMISSION_TOOL_ALIASES ++ SHELL_TOOLS ++ CODE_TOOLS ++ PATH_TOOLS ++ PUBLIC_SEARCH_TOOLS ++
  PUBLIC_WEB_READ_TOOLS ++ SUBAGENT_TOOLS ++ SUBAGENT_RUNTIME_CONTROL_TOOLS ++ HOST_TODO_TOOLS ++
  LEGACY_TODO_TOOLS ++ SESSION_STATUS_TOOLS ++ SESSION_SEND_TOOLS ++ SESSION_MESSAGE_MANAGEMENT_TOOLS ++
  INTERNAL_READONLY_TOOLS ++ ASK_USER_TOOLS ++ SKILL_READ_TOOLS ++ SKILL_CHANGE_TOOLS ++
  SKILL_DISCOVERY_TOOLS ++ EXTERNAL_SEND_TOOLS ++ DEVICE_TOOLS ++ MEMORY_WRITE_TOOLS ++
  LOCAL_MEMORY_READ_TOOLS ++ REVIEWED_MEMORY_READ_TOOLS ++ FIXED_BROWSER_TOOLS ++
  DYNAMIC_REPRESENTATIVE_TOOLS ++ ["xiaoyi_gui_agent"].

(** [shell_tool_names] *)
Definition shell_tool_names : json := JList (map JStr (sorted_names SHELL_TOOLS)).

(** [ToolCapability] *)
Record ToolCapability := {
  tool_name : string;
  cap_registered_name : string;
  cap_aliases : list string;
  category : string;
  operation_family : string;
  resource_class : string;
  static_side_effects : gset string;
  risk_tier : string;
  high_flex : bool;
  display_key : string;
  redaction_key : string;
  facts_source : string;
  facts_version : string;
  alias_conflict : bool;
}.

(** [x in s] for a collection of names *)
Definition is_in (x : string) (s : list string) : bool := bool_decide (x ∈ s).

(** [_redaction_key] *)
Definition redaction_key_of (resource : string) : string :=
  if is_in resource ["command"; "code"] then "arguments_sensitive"
  else if is_in resource ["workspace_path"; "browser_session"; "installed_skill"; "memory_store"]
  then "resource_sensitive"
  else if is_in resource ["public_web"; "external_recipient"] then "network_sensitive"
  else if is_in resource ["unknown"; "external_resource"] then "full_sensitive"
  else "default".

(** [_capability] *)
Definition capability (resolution : PermissionToolNameResolution) (cat family resource : string)
    (side_effects : gset string) (risk : string) (flex authoritative : bool) : ToolCapability :=
  {| tool_name := canonical_name resolution;
     cap_registered_name := registered_name resolution;
     cap_aliases := aliases resolution;
     category := cat;
     operation_family := family;
     resource_class := resource;
     static_side_effects := side_effects;
     risk_tier := risk;
     high_flex := flex;
     display_key := "tool." +:+ cat +:+ "." +:+ family;
     redaction_key := redaction_key_of resource;
     facts_source := if conflict resolution || String.eqb cat "unknown" then "unknown"
                     else if authoritative then "host_static" else "name_classification_hint";
     facts_version := "2";
     alias_conflict := conflict resolution |}.

(** [s.startswith(p)] *)
Definition starts_with (p s : string) : bool := String.prefix p s.

(** [s.removeprefix(p)] *)
Definition remove_prefix (p s : string) : string :=
  if starts_with p s then String.substring (String.length p) (String.length s - String.length p) s else s.

(** [_is_exact_subagent_runtime_control], of a string *)
Definition is_exact_subagent_runtime_control (name : string) (r : PermissionToolNameResolution) : bool :=
  if negb (is_in name SUBAGENT_RUNTIME_CONTROL_TOOLS) then false
  else if negb (String.eqb (registered_name r) name) then false
  else if negb (String.eqb (canonical_name r) name) then false
  else match aliases r with [] => true | _ => false end.

Definition is_path_write_tool (name : string) : bool :=
  is_in name ["apply_patch"; "write_file"; "edit_file"; "write_text_file"; "write"; "search_replace"].

(** [_is_trusted_browser_mcp_tool]: the first prefix that matches decides. *)
Fixpoint trusted_browser_suffix (prefixes : list string) (name : string) : bool :=
  match prefixes with
  | [] => false
  | prefix :: rest =>
      if starts_with prefix name then is_in (remove_prefix prefix name) TRUSTED_BROWSER_MCP_TOOL_SUFFIXES
      else trusted_browser_suffix rest name
  end.
Definition is_trusted_browser_mcp_tool (name : string) : bool :=
  trusted_browser_suffix TRUSTED_BROWSER_MCP_SERVER_PREFIXES name.

(** [classify_tool]: the branches from the first to the session tools *)
Definition classify_by_name (lowered : string) (cap : string → string → string → gset string → string → bool → bool → ToolCapability)
    (rest : ToolCapability) : ToolCapability :=
  if is_in lowered SHELL_TOOLS
  then cap "shell" "dynamic_execution" "command" {["dynamic_exec"]} "high" true true
  else if is_in lowered CODE_TOOLS
  then cap "code" "dynamic_execution" "code" {["dynamic_exec"]} "high" true true
  else if is_in lowered PATH_TOOLS
  then if is_path_write_tool lowered
       then cap "path" "workspace_write" "workspace_path" {["write_local"]} "medium" false true
       else cap "path" "workspace_read" "workspace_path" ∅ "low" false true
  else if is_in lowered PUBLIC_SEARCH_TOOLS
  then cap "network" "public_search" "public_web" {["network_search"]} "medium" false true
  else if is_in lowered PUBLIC_WEB_READ_TOOLS
  then cap "network" "public_web_read" "public_web" {["network_read"]} "medium" false true
  else if is_in lowered HOST_TODO_TOOLS
  then cap "task_management" "task_state" "session_task_state" ∅ "low" false true
  else if is_in lowered LEGACY_TODO_TOOLS
  then cap "task_management" "task_state" "session_task_state" ∅ "medium" true false
  else if is_in lowered SESSION_STATUS_TOOLS
  then cap "task_management" "session_status" "session_task_state" ∅ "low" false true
  else if is_in lowered SESSION_SEND_TOOLS
  then cap "task_management" "cross_session_send" "product_session" {["delegation"]} "high" true true
  else if is_in lowered SESSION_MESSAGE_MANAGEMENT_TOOLS
  then cap "task_management" "cross_session_resolution" "product_session" {["session_state_write"]} "high" true true
  else if is_in lowered ASK_USER_TOOLS
  then cap "interaction" "ask_user" "user_interaction" ∅ "low" false true
  else rest.

(** The branches after the browser's *)
Definition classify_rest (lowered : string)
    (cap : string → string → string → gset string → string → bool → bool → ToolCapability) : ToolCapability :=
  if is_in lowered SKILL_DISCOVERY_TOOLS
  then cap "skill" "skill_discovery" "skill_catalog" ∅ "medium" false true
  else if is_in lowered SKILL_READ_TOOLS
  then cap "skill" "skill_read" "installed_skill" ∅ "low" false true
  else if is_in lowered SKILL_CHANGE_TOOLS
  then cap "skill" "skill_change" "skill_catalog" {["skill_change"]} "high" true true
  else if is_in lowered EXTERNAL_SEND_TOOLS
  then cap "external_send" "external_send" "external_recipient" {["external_send"]} "high" true true
  else if is_in lowered DEVICE_TOOLS
  then cap "device" "device_action" "user_device" {["device_action"]} "high" true true
  else if is_in lowered MEMORY_WRITE_TOOLS
  then cap "memory" "memory_write" "memory_store" {["memory_write"]} "high" true true
  else if is_in lowered LOCAL_MEMORY_READ_TOOLS
  then cap "memory" (if String.eqb lowered "memory_search" then "memory_search" else "memory_read")
         "memory_store" ∅ "low" false true
  else if is_in lowered REVIEWED_MEMORY_READ_TOOLS
  then cap "memory"
         (if is_in lowered ["ltm_search"; "ltm_search_summary"; "mem0_search"; "viking_search"]
          then "memory_search" else "memory_read")
         "memory_store" ∅ "medium" true false
  else if starts_with "mcp_" lowered
  then cap "mcp" "unknown_mcp" "external_resource" ∅ "high" true false
  else cap "unknown" "unknown" "unknown" ∅ "high" true false.

(** The branches from [cron_] on; [exact] is [_is_exact_subagent_runtime_control(tool_name, resolution)]. *)
Definition classify_late (lowered : string) (exact : bool)
    (cap : string → string → string → gset string → string → bool → bool → ToolCapability) : ToolCapability :=
  if starts_with "cron_" lowered
  then cap "cron" "schedule_change" "schedule" {["schedule"]} "high" true false
  else if exact
  then cap "subagent" "subagent_runtime_control" "agent_runtime" {["delegation"]} "low" false true
  else if is_in lowered SUBAGENT_TOOLS
  then cap "subagent" "subagent_control" "agent_runtime" {["delegation"]} "high" true
         (String.eqb lowered "task_tool")
  else if is_in lowered FIXED_BROWSER_TOOLS
  then cap "browser"
         (if String.eqb lowered "browser_recall_offload" then "browser_session_recall"
          else "browser_session_observe")
         "browser_session"
         (if String.eqb lowered "browser_recall_offload" then ∅ else {["session_cache_write"]})
         "low" false true
  else if starts_with "browser_" lowered || String.eqb lowered "xiaoyi_gui_agent"
          || is_trusted_browser_mcp_tool lowered
  then cap "browser" "browser_action" "browser_session" {["browser_action"]} "high" true false
  else classify_rest lowered cap.

(** [classify_tool] *)
Definition classify_tool (name : string) : ToolCapability :=
  let resolution := resolve_permission_tool_name (JStr name) STATIC_CANONICAL_TOOL_NAMES in
  let lowered := py_lower (canonical_name resolution) in
  let cap := capability resolution in
  if conflict resolution then cap "unknown" "unknown" "unknown" ∅ "high" true true
  else if is_in name INTERNAL_READONLY_TOOLS && match aliases resolution with [] => true | _ => false end
  then cap (if starts_with "cron_" lowered then "cron" else "task_management")
         "internal_readonly" "internal_state" ∅ "low" false true
  else classify_by_name lowered cap
         (classify_late lowered (is_exact_subagent_runtime_control name resolution) cap).

(** ** What the table promises *)

Lemma is_in_spec x s : is_in x s = true ↔ x ∈ s.
Proof. apply bool_decide_eq_true. Qed.

(** The side effects a tool may have that runs without a question *)
Definition quiet_effects : gset string :=
  {["write_local"; "network_search"; "network_read"; "delegation"; "session_cache_write"]}.

Definition quiet (c : ToolCapability) : Prop :=
  facts_source c = "host_static" ∧ static_side_effects c ⊆ quiet_effects ∧
  (risk_tier c = "low" ∨ risk_tier c = "medium") ∧ high_flex c = false.

(** The tools the table names as quiet *)
Definition QUIET_TOOLS : list string :=
  PATH_TOOLS ++ PUBLIC_SEARCH_TOOLS ++ PUBLIC_WEB_READ_TOOLS ++ HOST_TODO_TOOLS ++ SESSION_STATUS_TOOLS ++
  ASK_USER_TOOLS ++ FIXED_BROWSER_TOOLS ++ SKILL_DISCOVERY_TOOLS ++ SKILL_READ_TOOLS ++ LOCAL_MEMORY_READ_TOOLS.

Definition loud (c : ToolCapability) : Prop := high_flex c = true.

(** Every branch of the table is quiet with a name of the list, or loud. *)
Definition graded (lowered : string) (extra : Prop) (c : ToolCapability) : Prop :=
  loud c ∨ quiet c ∧ (lowered ∈ QUIET_TOOLS ∨ extra).

Lemma graded_loud lowered extra r cat family resource eff risk auth :
  graded lowered extra (capability r cat family resource eff risk true auth).
Proof. by left. Qed.

Lemma graded_quiet lowered extra r cat family resource eff risk :
  conflict r = false → cat ≠ "unknown" → eff ⊆ quiet_effects → risk = "low" ∨ risk = "medium" →
  lowered ∈ QUIET_TOOLS ∨ extra →
  graded lowered extra (capability r cat family resource eff risk false true).
Proof.
  intros Hc Hcat Heff Hrisk Hin. right. split; [|done]. unfold quiet, capability. cbn.
  rewrite Hc. by destruct (String.eqb_spec cat "unknown").
Qed.

Ltac quiet_eff := apply (bool_decide_unpack _); vm_compute; exact I.

Ltac quiet_branch :=
  apply graded_quiet; [assumption|done|try destruct (String.eqb _ "browser_recall_offload"); quiet_eff
    |by auto|left; unfold QUIET_TOOLS; rewrite ?elem_of_app; tauto].

Ltac grade :=
  repeat match goal with
  | |- graded _ _ (if is_in ?x ?s then _ else _) =>
      let H := fresh "H" in destruct (is_in x s) eqn:H; [apply is_in_spec in H|clear H]
  | |- graded _ _ (capability _ _ _ _ _ _ true _) => apply graded_loud
  | |- graded _ _ (capability _ _ _ _ _ _ false _) => quiet_branch
  | |- graded _ _ (if ?b then _ else _) => destruct b
  end.

Lemma classify_rest_graded lowered extra r :
  conflict r = false → graded lowered extra (classify_rest lowered (capability r)).
Proof. intros Hc. unfold classify_rest. grade. Qed.

Lemma classify_by_name_graded lowered extra r rest :
  conflict r = false → graded lowered extra rest → graded lowered extra (classify_by_name lowered (capability r) rest).
Proof. intros Hc Hrest. unfold classify_by_name. grade. exact Hrest. Qed.

Lemma static_names_no_alias : Forall (λ alias, alias ∉ STATIC_CANONICAL_TOOL_NAMES) (od_keys PERMISSION_TOOL_ALIASES).
Proof. apply (bool_decide_unpack _). by vm_compute. Qed.

Lemma classify_graded name :
  let r := resolve_permission_tool_name (JStr name) STATIC_CANONICAL_TOOL_NAMES in
  graded (py_lower (canonical_name r)) (name ∈ INTERNAL_READONLY_TOOLS ++ SUBAGENT_RUNTIME_CONTROL_TOOLS)
    (classify_tool name).
Proof.
  cbv zeta. unfold classify_tool. set (r := resolve_permission_tool_name _ _).
  assert (conflict r = false) as Hc by apply resolve_no_conflict, static_names_no_alias. rewrite Hc.
  destruct (is_in name INTERNAL_READONLY_TOOLS && _) eqn:Hi.
  { apply andb_true_iff in Hi as [Hi%is_in_spec _].
    apply graded_quiet; [done| |quiet_eff|by auto|rewrite elem_of_app; tauto]. by destruct (starts_with _ _). }
  apply classify_by_name_graded; [done|]. unfold classify_late.
  destruct (starts_with _ _); [apply graded_loud|].
  destruct (is_exact_subagent_runtime_control name r) eqn:He.
  { unfold is_exact_subagent_runtime_control in He.
    destruct (is_in name SUBAGENT_RUNTIME_CONTROL_TOOLS) eqn:Hs; [apply is_in_spec in Hs|done].
    apply graded_quiet; [done|done|quiet_eff|by auto|rewrite elem_of_app; tauto]. }
  grade. by apply classify_rest_graded.
Qed.

(** What the automatic mode asks about *)
Definition asked (c : ToolCapability) : bool := high_flex c || String.eqb (risk_tier c) "high".

Lemma listed_tools_quiet :
  Forall (λ l, ∀ exact r, asked (classify_by_name l (capability r) (classify_late l exact (capability r))) = false)
    QUIET_TOOLS.
Proof.
  repeat (apply Forall_cons; split; [intros []; intros; vm_compute; reflexivity|]). by apply Forall_nil.
Qed.

Lemma exact_tools_quiet :
  Forall (λ n, asked (classify_tool n) = false) (INTERNAL_READONLY_TOOLS ++ SUBAGENT_RUNTIME_CONTROL_TOOLS).
Proof. apply (bool_decide_unpack _). vm_compute. exact I. Qed.

Lemma canonical_static v :
  canonical_name (resolve_permission_tool_name v STATIC_CANONICAL_TOOL_NAMES) = normalize_permission_tool_name v.
Proof.
  pose proof (resolve_no_conflict v _ static_names_no_alias) as H1.
  rewrite normalize_name. unfold resolve_permission_tool_name in *. cbv zeta in *.
  cbn [conflict canonical_name] in *. by rewrite H1.
Qed.

Lemma asked_iff name :
  asked (classify_tool name) = false ↔
  py_lower (normalize_permission_tool_name (JStr name)) ∈ QUIET_TOOLS ∨
  name ∈ INTERNAL_READONLY_TOOLS ++ SUBAGENT_RUNTIME_CONTROL_TOOLS.
Proof.
  split.
  - intros [Hflex _]%orb_false_iff. destruct (classify_graded name) as [Hl|[_ Hin]].
    + by rewrite Hl in Hflex.
    + by rewrite canonical_static in Hin.
  - intros [Hin|Hin]; [|exact (proj1 (Forall_forall _ _) exact_tools_quiet name Hin)].
    unfold classify_tool. rewrite (resolve_no_conflict _ _ static_names_no_alias), canonical_static.
    destruct (is_in name INTERNAL_READONLY_TOOLS && _); [by destruct (starts_with _ _)|].
    exact (proj1 (Forall_forall _ _) listed_tools_quiet _ Hin _ _).
Qed.

(** A tool runs without a question in the automatic mode (neither high-risk nor
    flexible) exactly when the table names it: by its canonical name in any case
    of letters for the quiet lists, by the very name for the read-only tools and
    the control of sub-agents.  Such a tool has host-given facts, and its side
    effects are local writes, network search and reading, delegation and the
    browser session's cache. *)
Theorem quiet_tools name :
  let c := classify_tool name in
  (high_flex c || String.eqb (risk_tier c) "high" = false ↔
     py_lower (normalize_permission_tool_name (JStr name)) ∈ QUIET_TOOLS ∨
     name ∈ INTERNAL_READONLY_TOOLS ++ SUBAGENT_RUNTIME_CONTROL_TOOLS) ∧
  (high_flex c = true ∨ facts_source c = "host_static" ∧ static_side_effects c ⊆ quiet_effects).
Proof.
  cbv zeta. split; [apply asked_iff|].
  destruct (classify_graded name) as [Hl|[(H1 & H2 & _) _]]; [by left|by right].
Qed.

(** ** Aliases *)

Definition anonymous (c : ToolCapability) : ToolCapability :=
  {| tool_name := tool_name c; cap_registered_name := EmptyString; cap_aliases := cap_aliases c;
     category := category c; operation_family := operation_family c; resource_class := resource_class c;
     static_side_effects := static_side_effects c; risk_tier := risk_tier c; high_flex := high_flex c;
     display_key := display_key c; redaction_key := redaction_key c; facts_source := facts_source c;
     facts_version := facts_version c; alias_conflict := alias_conflict c |}.

Lemma resolve_canonical v w names :
  Forall (λ alias, alias ∉ names) (od_keys PERMISSION_TOOL_ALIASES) →
  normalize_permission_tool_name v = normalize_permission_tool_name w →
  let r := resolve_permission_tool_name v names in
  let r' := resolve_permission_tool_name w names in
  canonical_name r = canonical_name r' ∧ aliases r = aliases r' ∧ conflict r = conflict r'.
Proof.
  intros Hn. rewrite !normalize_name. cbv zeta. intros E.
  pose proof (resolve_no_conflict v _ Hn) as H1. pose proof (resolve_no_conflict w _ Hn) as H2.
  unfold resolve_permission_tool_name in *. cbv zeta in *.
  cbn [conflict canonical_name aliases] in *. by rewrite H1, H2, E.
Qed.

Lemma exact_name_not_canonical name l :
  Forall (λ n, normalize_permission_tool_name (JStr n) = n) l →
  normalize_permission_tool_name (JStr name) ∉ l → is_in name l = false.
Proof.
  intros Hl Hn. apply bool_decide_eq_false. intros Hin.
  rewrite Forall_forall in Hl. apply Hn. by rewrite (Hl name Hin).
Qed.

(** Two names with the same canonical name (an alias and its tool, or a name
    with white space around it) get the same capability up to the registered name;
    only the tools that are recognised by their very name are excepted. *)
Theorem classified_by_canonical_name a b :
  normalize_permission_tool_name (JStr a) = normalize_permission_tool_name (JStr b) →
  normalize_permission_tool_name (JStr a) ∉ INTERNAL_READONLY_TOOLS ++ SUBAGENT_RUNTIME_CONTROL_TOOLS →
  anonymous (classify_tool a) = anonymous (classify_tool b).
Proof.
  intros E. rewrite not_elem_of_app. intros [Hi Hs].
  assert (Forall (λ n, normalize_permission_tool_name (JStr n) = n) INTERNAL_READONLY_TOOLS ∧
          Forall (λ n, normalize_permission_tool_name (JStr n) = n) SUBAGENT_RUNTIME_CONTROL_TOOLS) as [Fi Fs].
  { split; apply (bool_decide_unpack _); vm_compute; exact I. }
  destruct (resolve_canonical (JStr a) (JStr b) _ static_names_no_alias E) as (Hc & Ha & Hx).
  unfold classify_tool, is_exact_subagent_runtime_control. rewrite Hx, Hc.
  rewrite (exact_name_not_canonical a _ Fi Hi), (exact_name_not_canonical a _ Fs Hs).
  rewrite E in Hi, Hs. rewrite (exact_name_not_canonical b _ Fi Hi), (exact_name_not_canonical b _ Fs Hs).
  set (r := resolve_permission_tool_name (JStr a) _) in *. set (r' := resolve_permission_tool_name (JStr b) _) in *.
  clearbody r r'.
  assert (∀ cat fam res eff risk flex auth,
    anonymous (capability r cat fam res eff risk flex auth) = anonymous (capability r' cat fam res eff risk flex auth)) as Hcap.
  { intros. unfold capability, anonymous. cbn. by rewrite Hc, Ha, Hx. }
  simpl. unfold classify_by_name, classify_late, classify_rest.
  repeat match goal with |- context [if ?b then anonymous _ else _] => destruct b
    | |- anonymous (if ?b then _ else _) = _ => destruct b end; apply Hcap.
Qed.

Lemma classified_by_canonical_name_witness :
  anonymous (classify_tool "exec_command") = anonymous (classify_tool " mcp_exec_command ") ∧
  cap_registered_name (classify_tool "exec_command") = "exec_command".
Proof.
  split; [|vm_compute; reflexivity].
  apply (classified_by_canonical_name "exec_command" " mcp_exec_command "); [vm_compute; reflexivity|].
  apply (bool_decide_unpack _). vm_compute. exact I.
Defined.
