(* ===== verification/AutoConfig.v ===== *)
(** * Normalising permissions for the automatic mode

    Source: [jiuwenswarm/agents/harness/common/rails/permissions/auto_config.py]
    and [protected_paths.py]; not modelled: [resolve_declared_auto_workspace]
    (paths of the file system) and [supports_phase_auto_root] (a call of another
    package).

    Configurations are JSON values, so that a tuple is a [JList], a [Mapping] is a
    [JObj], and a [float] does not occur. *)

From S2P Require Import Prelude OrderedDict PyJson PermissionTools ToolCapabilities.

Definition STRUCTURED_PERMISSION_RULE_MAP_KEYS : list string := ["paths"; "commands"; "patterns"].

Definition JIUWENCLAW_PROTECTED_WRITE_PATHS : list string :=
  ["jiuwenbox"; "jiuwenswarm/agents/harness/common/rails/permissions";
   "tests/unit_tests/agentserver/permissions"; "tests/system_tests/auto_permission_matrix"].

Definition AUTO_PERMISSION_DEFAULT_OPTIONS : jdict :=
  [("reviewer_timeout_ms", JNum 60000); ("reviewer_output_format", JStr "json_object");
   ("persistent_audit_enabled", JBool false); ("bounded_write_max_files", JNum 3);
   ("bounded_write_excluded_paths", JList (map JStr JIUWENCLAW_PROTECTED_WRITE_PATHS))].

(** [merge_protected_write_paths], one path *)
Definition add_protected_path (merged : list string) (path : string) : list string :=
  let text := py_strip path in
  if negb (str_true text) || bool_decide (text ∈ merged) then merged else merged ++ [text].

Definition merge_protected_write_paths (path_groups : list (list string)) : list string :=
  foldl (foldl add_protected_path) [] path_groups.

Definition positive_int (value : json) (default_value : Z) : Z :=
  match py_int value with
  | Some parsed => if (0 <? parsed)%Z then parsed else default_value
  | None => default_value
  end.

Definition normalize_string_tuple (value : json) (default_value : list string) : list string :=
  match value with
  | JList l => omap (λ item, let text := py_strip (py_str item) in if str_true text then Some text else None) l
  | _ => default_value
  end.

Definition normalize_reviewer_output_format (value : json) : string :=
  match value with
  | JStr s => if is_in s ["json_object"; "prompt"] then s else "json_object"
  | _ => "json_object"
  end.

Definition as_strings (x : json) : list string :=
  match x with JList l => omap (λ v, match v with JStr s => Some s | _ => None end) l | _ => [] end.

(** One option of [normalize_auto_permission_options] *)
Definition auto_option (options : jdict) (kd : string * json) : string * json :=
  let '(key, default_value) := kd in
  (key,
   match od_get options key with
   | None => default_value
   | Some raw_value =>
       match default_value with
       | JBool _ => JBool (j_truth raw_value)
       | JNum n => JNum (positive_int raw_value n)
       | _ => if String.eqb key "reviewer_output_format" then JStr (normalize_reviewer_output_format raw_value)
              else if String.eqb key "bounded_write_excluded_paths"
              then JList (map JStr (merge_protected_write_paths
                                      [as_strings default_value; normalize_string_tuple raw_value []]))
              else raw_value
       end
   end).

Definition normalize_auto_permission_options (raw_options : json) : jdict :=
  map (auto_option (default [] (as_dict raw_options))) AUTO_PERMISSION_DEFAULT_OPTIONS.

(** ** Levels *)

Definition normalize_level (value : json) : string :=
  let value := match value with JObj d => j_get d "*" | _ => value end in
  let level := py_lower (py_strip (py_str (j_or value (JStr "ask")))) in
  if is_in level ["allow"; "ask"; "deny"] then level else "ask".

Definition normalize_auto_default_level (value : json) : string :=
  if String.eqb (normalize_level value) "deny" then "deny" else "ask".

Definition tool_requires_ask_in_auto (tool : string) : bool :=
  let c := classify_tool tool in high_flex c || String.eqb (risk_tier c) "high".

Definition normalize_tool_level (tool : string) (value : json) : string :=
  let level := normalize_level value in
  if String.eqb level "allow" && tool_requires_ask_in_auto tool then "ask" else level.

Definition level_keys : list string := ["*"; "default"; "level"; "permission"].

Definition level_at (tool : string) (d : jdict) (key : string) : jdict :=
  match od_get d key with
  | Some v => od_set d key (JStr (normalize_tool_level tool v))
  | None => d
  end.

(** The value of the first of the keys that is there *)
Fixpoint first_key (d : jdict) (keys : list string) : option json :=
  match keys with
  | [] => None
  | key :: keys' => match od_get d key with Some v => Some v | None => first_key d keys' end
  end.

(** [_normalize_tool_entry_for_auto_mode] *)
Definition normalize_tool_entry (tool : string) (entry : json) : json :=
  match entry with
  | JObj d =>
      JObj (foldl (level_at tool) d level_keys)
  | _ => JStr (normalize_tool_level tool entry)
  end.

(** [_tool_entry_default_level] *)
Definition tool_entry_default_level (tool : string) (entry : json) : string :=
  match entry with
  | JObj d => match first_key d level_keys with
              | Some v => normalize_tool_level tool v
              | None => "ask"
              end
  | _ => normalize_tool_level tool entry
  end.

(** ** Structured rules *)

(** [_structured_rule_item_level] *)
Definition structured_rule_item_level (item : jdict) : option string :=
  v ← first_key item ["level"; "permission"; "action"]; Some (normalize_level v).

(** One item of a list of rules *)
Definition structured_rule_item (rules : odict string string) (item : json) : odict string string :=
  match item with
  | JStr s => od_set rules s (stricter_permission_level (default "allow" (od_get rules s)) "deny")
  | JObj d =>
      match j_or (j_or (j_get d "pattern") (j_get d "path")) (j_get d "command") with
      | JNull => rules
      | pattern =>
          match structured_rule_item_level d with
          | None => rules
          | Some level =>
              od_set rules (py_str pattern)
                (stricter_permission_level (default "allow" (od_get rules (py_str pattern))) level)
          end
      end
  | _ => rules
  end.

(** [_structured_rule_map_from_value] *)
Definition structured_rule_map_from_value (value : json) : odict string string :=
  match value with
  | JObj d => foldl (λ out kv, od_set out kv.1 (normalize_level kv.2)) [] d
  | JList l => foldl structured_rule_item [] l
  | _ => []
  end.

(** [_merge_structured_rule_map] *)
Definition merge_structured_rule_map (rule_key : string) (left right : jdict) : jdict :=
  foldl (λ merged kv,
    match od_get merged kv.1 with
    | Some v =>
        if is_in rule_key STRUCTURED_PERMISSION_RULE_MAP_KEYS
        then od_set merged kv.1 (JStr (stricter_permission_level (normalize_level v) (normalize_level kv.2)))
        else od_set merged kv.1 kv.2
    | None => od_set merged kv.1 kv.2
    end) left right.

Definition rules_json (rules : odict string string) : jdict := map (λ kv, (kv.1, JStr kv.2)) rules.

(** [_merge_structured_rule_values] *)
Definition merge_structured_rule_values (rule_key : string) (left right : json) : json :=
  let left_rules := structured_rule_map_from_value left in
  let right_rules := structured_rule_map_from_value right in
  match left_rules, right_rules with
  | [], [] => right
  | _, _ => JObj (merge_structured_rule_map rule_key (rules_json left_rules) (rules_json right_rules))
  end.

(** One key of [_merge_structured_tool_rules] *)
Definition merge_tool_rule (merged : jdict) (kv : string * json) : jdict :=
  let '(key, value) := kv in
  if is_in key level_keys then merged
  else match od_get merged key with
       | Some old =>
           if is_in key STRUCTURED_PERMISSION_RULE_MAP_KEYS
           then od_set merged key (merge_structured_rule_values key old value)
           else match old, value with
                | JObj o, JObj v => od_set merged key (JObj (merge_structured_rule_map key o v))
                | _, _ => od_set merged key value
                end
       | None => od_set merged key value
       end.

Definition merge_structured_tool_rules (left right : json) : jdict :=
  foldl (λ merged entry, match entry with JObj d => foldl merge_tool_rule merged d | _ => merged end)
    [] [left; right].

(** [_merge_tool_entries_for_auto_mode] *)
Definition merge_tool_entries (tool : string) (existing candidate : json) : json :=
  let strict_level := stricter_permission_level (tool_entry_default_level tool existing)
                        (tool_entry_default_level tool candidate) in
  match existing, candidate with
  | JObj _, _ | _, JObj _ => JObj (od_set (merge_structured_tool_rules existing candidate) "*" (JStr strict_level))
  | _, _ => JStr strict_level
  end.

(** [_normalize_tools_for_auto_mode], one tool *)
Definition normalize_tool (normalized : jdict) (kv : string * json) : jdict :=
  let tool := normalize_permission_tool_name (JStr kv.1) in
  if negb (str_true tool) then normalized
  else let entry := normalize_tool_entry tool kv.2 in
       od_set normalized tool
         (match od_get normalized tool with
          | Some old => merge_tool_entries tool old entry
          | None => entry
          end).

Definition normalize_tools_for_auto_mode (tools : jdict) : jdict := foldl normalize_tool [] tools.

(** [normalize_permissions_for_runtime] *)
Definition normalize_permissions_for_runtime (permission_config : jdict) : jdict :=
  if negb (is_auto_permission_mode permission_config) then permission_config
  else
    let normalized := od_set permission_config "mode" (JStr "auto") in
    let normalized := od_set normalized "auto" (JObj (normalize_auto_permission_options (j_get normalized "auto"))) in
    let defaults := default [] (as_dict (j_get normalized "defaults")) in
    let defaults := od_set defaults "*" (JStr (normalize_auto_default_level (j_get defaults "*"))) in
    let normalized := od_set normalized "defaults" (JObj defaults) in
    match j_get normalized "tools" with
    | JObj tools => od_set normalized "tools" (JObj (normalize_tools_for_auto_mode tools))
    | _ => normalized
    end.

(** ** Levels of entries *)

Definition entry_level (tool : string) (entry : json) : level :=
  default ask (level_of (tool_entry_default_level tool entry)).

Lemma normalize_level_name v : ∃ l, normalize_level v = level_name l.
Proof.
  unfold normalize_level. cbv zeta. set (s := py_lower _). destruct (is_in s _) eqn:E; [|by exists ask].
  apply is_in_spec in E. rewrite !elem_of_cons in E.
  destruct E as [->|[->|[->|E]]]; [by exists allow|by exists ask|by exists deny|by apply elem_of_nil in E].
Qed.

Lemma normalize_level_idemp l : normalize_level (JStr (level_name l)) = level_name l.
Proof. by destruct l. Qed.

Definition tighten (tool : string) (l : level) : level :=
  if bool_decide (l = allow) && tool_requires_ask_in_auto tool then ask else l.

Lemma tighten_idemp tool l : tighten tool (tighten tool l) = tighten tool l.
Proof. unfold tighten. by destruct l, (tool_requires_ask_in_auto tool). Qed.

Lemma tighten_stricter tool a b : stricter (tighten tool a) (tighten tool b) = tighten tool (stricter a b).
Proof. unfold tighten. by destruct a, b, (tool_requires_ask_in_auto tool). Qed.

Lemma normalize_tool_level_name tool v :
  ∃ l, normalize_tool_level tool v = level_name (tighten tool l) ∧ normalize_level v = level_name l.
Proof.
  unfold normalize_tool_level, tighten. destruct (normalize_level_name v) as [l ->]. exists l.
  split; [|done]. by destruct l, (tool_requires_ask_in_auto tool).
Qed.

Lemma normalize_tool_level_again tool l :
  normalize_tool_level tool (JStr (level_name (tighten tool l))) = level_name (tighten tool l).
Proof.
  destruct (normalize_tool_level_name tool (JStr (level_name (tighten tool l)))) as (l' & -> & H).
  rewrite normalize_level_idemp in H. apply level_name_inj in H as <-. by rewrite tighten_idemp.
Qed.

Lemma entry_level_name tool entry :
  tool_entry_default_level tool entry = level_name (entry_level tool entry) ∧
  tighten tool (entry_level tool entry) = entry_level tool entry.
Proof.
  assert (∃ l, tool_entry_default_level tool entry = level_name (tighten tool l)) as [l Hl].
  { assert (∀ v, ∃ l, normalize_tool_level tool v = level_name (tighten tool l)) as H.
    { intros v. destruct (normalize_tool_level_name tool v) as (l & Hv & _). by exists l. }
    destruct entry as [| | | | |d]; cbn [tool_entry_default_level]; [apply H..|].
    destruct (first_key d level_keys) as [v|]; [apply H|].
    exists ask. by destruct (tool_requires_ask_in_auto tool). }
  unfold entry_level. rewrite Hl, level_of_name. simpl. by rewrite tighten_idemp.
Qed.

Lemma entry_level_asked tool entry :
  tool_requires_ask_in_auto tool = true → entry_level tool entry ≠ allow.
Proof. intros H. rewrite <-(proj2 (entry_level_name tool entry)). unfold tighten. rewrite H. by destruct (entry_level _ _). Qed.

(** ** Merging entries *)

Lemma od_get_level_at tool keys d k :
  NoDup keys →
  od_get (foldl (level_at tool) d keys) k =
  if decide (k ∈ keys) then (λ v, JStr (normalize_tool_level tool v)) <$> od_get d k else od_get d k.
Proof.
  intros Hn. revert d. induction Hn as [|key keys Hkey Hn IH]; intros d; [done|]. simpl. rewrite IH.
  unfold level_at. destruct (decide (k = key)) as [->|Hne].
  - rewrite (decide_True _ _ (list_elem_of_here _ _)), decide_False by done.
    destruct (od_get d key) eqn:E; [by rewrite od_get_set_eq|by rewrite E].
  - assert (od_get (match od_get d key with Some v => od_set d key (JStr (normalize_tool_level tool v)) | None => d end) k
            = od_get d k) as -> by (destruct (od_get d key); [by rewrite od_get_set_ne|done]).
    destruct (decide (k ∈ keys)); destruct (decide (k ∈ key :: keys)); rewrite ?elem_of_cons in *; naive_solver.
Qed.

Lemma first_key_level_at tool d keys :
  keys ⊆ level_keys →
  first_key (foldl (level_at tool) d level_keys) keys =
  (λ v, JStr (normalize_tool_level tool v)) <$> first_key d keys.
Proof.
  induction keys as [|k keys IH]; intros Hk; [done|]. cbn [first_key].
  rewrite od_get_level_at by (apply (bool_decide_unpack _); vm_compute; exact I).
  rewrite decide_True by (apply Hk; by left). rewrite IH by set_solver. by destruct (od_get d k).
Qed.

Lemma normalize_tool_level_twice tool v :
  normalize_tool_level tool (JStr (normalize_tool_level tool v)) = normalize_tool_level tool v.
Proof. destruct (normalize_tool_level_name tool v) as (l & -> & _). apply normalize_tool_level_again. Qed.

Lemma normalized_entry_level tool entry : entry_level tool (normalize_tool_entry tool entry) = entry_level tool entry.
Proof.
  unfold entry_level. do 2 f_equal.
  destruct entry as [| | | | |d]; cbn [normalize_tool_entry tool_entry_default_level];
    try apply normalize_tool_level_twice.
  rewrite first_key_level_at by done. destruct (first_key d level_keys); [apply normalize_tool_level_twice|done].
Qed.

Lemma merged_entry_level tool a b :
  entry_level tool (merge_tool_entries tool a b) = stricter (entry_level tool a) (entry_level tool b).
Proof.
  destruct (entry_level_name tool a) as [Ha Ta], (entry_level_name tool b) as [Hb Tb].
  assert (∀ d, tool_entry_default_level tool (JObj (od_set d "*" (JStr (level_name
            (stricter (entry_level tool a) (entry_level tool b)))))) =
          level_name (stricter (entry_level tool a) (entry_level tool b))) as Hobj.
  { intros d. unfold tool_entry_default_level, level_keys. cbn [first_key]. rewrite od_get_set_eq, <-Ta, <-Tb, tighten_stricter.
    apply normalize_tool_level_again. }
  unfold merge_tool_entries. rewrite Ha, Hb, stricter_names.
  unfold entry_level at 1.
  destruct a, b; cbv zeta; rewrite ?Hobj, ?level_of_name; try done; cbn [tool_entry_default_level];
    by rewrite <-Ta, <-Tb, tighten_stricter, normalize_tool_level_again, level_of_name.
Qed.

(** The strictest of some levels *)
Definition strictest (levels : list level) : option level :=
  match levels with [] => None | l :: levels' => Some (foldl stricter l levels') end.

Lemma strictest_snoc levels l :
  strictest (levels ++ [l]) = Some (match strictest levels with Some l' => stricter l' l | None => l end).
Proof. destruct levels as [|l0 levels]; [done|]. simpl. by rewrite foldl_app. Qed.

(** The entries of the tool [n] under any of its names *)
Definition entries_of (n : string) (tools : jdict) : jdict :=
  filter (λ kv, normalize_permission_tool_name (JStr kv.1) = n) tools.

Lemma normalized_tools_level tools n :
  n ≠ EmptyString →
  entry_level n <$> od_get (normalize_tools_for_auto_mode tools) n =
  strictest (map (λ kv, entry_level n kv.2) (entries_of n tools)).
Proof.
  intros Hn. induction tools as [|[k v] tools IH] using rev_ind; [done|].
  unfold normalize_tools_for_auto_mode, entries_of. rewrite foldl_app, filter_app, map_app. cbn [foldl].
  fold (normalize_tools_for_auto_mode tools). fold (entries_of n tools).
  unfold normalize_tool. cbn [fst snd]. rewrite filter_cons, filter_nil. cbn [fst].
  destruct (decide (normalize_permission_tool_name (JStr k) = n)) as [Hk|Hk].
  - rewrite Hk. rewrite (proj2 (str_true_spec n) Hn). cbn [negb map]. rewrite strictest_snoc, <-IH.
    rewrite od_get_set_eq. simpl. f_equal.
    destruct (od_get (normalize_tools_for_auto_mode tools) n); simpl;
      [by rewrite merged_entry_level, normalized_entry_level|by rewrite normalized_entry_level].
  - simpl. rewrite app_nil_r, <-IH. destruct (negb _); [done|]. by rewrite od_get_set_ne.
Qed.

(** In the automatic mode a tool's level is the strictest that the configuration
    gives to any of its names, allowed becoming asked for where the tool must be
    asked about; a tool without a name of its own in the configuration gets no
    entry, and none that must be asked about is allowed. *)
Theorem auto_level_is_strictest tools n :
  let out := normalize_tools_for_auto_mode tools in
  n ≠ EmptyString →
  entry_level n <$> od_get out n = strictest (map (λ kv, entry_level n kv.2) (entries_of n tools)) ∧
  (tool_requires_ask_in_auto n = true → entry_level n <$> od_get out n ≠ Some allow).
Proof.
  intros out Hn. split; [by apply normalized_tools_level|]. intros H.
  destruct (od_get out n) as [e|]; [|done]. simpl. intros [= E]. by apply (entry_level_asked n e).
Qed.

Lemma auto_level_is_strictest_witness :
  let tools := [("exec_command", JStr "allow"); ("read_file", JStr "allow");
                ("mcp_exec_command", JObj [("default", JStr "deny"); ("paths", JList [])])] in
  "mcp_exec_command" ≠ "" ∧
  entry_level "mcp_exec_command" <$> od_get (normalize_tools_for_auto_mode tools) "mcp_exec_command" = Some deny ∧
  entry_level "read_file" <$> od_get (normalize_tools_for_auto_mode tools) "read_file" = Some allow.
Proof.
  cbv zeta. split; [done|].
  split; [rewrite (proj1 (auto_level_is_strictest _ "mcp_exec_command" ltac:(done)))
         |rewrite (proj1 (auto_level_is_strictest _ "read_file" ltac:(done)))]; vm_compute; reflexivity.
Defined.

(** ** Structured rules *)

(** What a value of [paths], [commands] or [patterns] says of one pattern *)
Definition rule_level (value : json) (p : string) : option level :=
  s ← od_get (structured_rule_map_from_value value) p; level_of s.

Definition leveled (rules : odict string string) : Prop :=
  od_wf rules ∧ ∀ p s, od_get rules p = Some s → ∃ l, s = level_name l.

Lemma leveled_set rules p l : leveled rules → leveled (od_set rules p (level_name l)).
Proof.
  intros [Hwf Hl]. split; [by apply od_wf_set|]. intros p' s. rewrite od_get_set.
  destruct (decide (p = p')); [intros [= <-]; by exists l|apply Hl].
Qed.

Lemma leveled_set_stricter rules p l :
  leveled rules →
  leveled (od_set rules p (stricter_permission_level (default "allow" (od_get rules p)) (level_name l))).
Proof.
  intros H. destruct (od_get rules p) as [s|] eqn:E; simpl.
  - destruct (proj2 H p s E) as [l' ->]. rewrite stricter_names. by apply leveled_set.
  - change "allow" with (level_name allow). rewrite stricter_names. by apply leveled_set.
Qed.

Lemma leveled_item rules item : leveled rules → leveled (structured_rule_item rules item).
Proof.
  intros H. destruct item as [| | |s| |d]; try done; cbn [structured_rule_item].
  - by apply (leveled_set_stricter _ _ deny).
  - set (pattern := j_or _ _). unfold structured_rule_item_level.
    destruct (first_key d _) as [v|]; simpl; [|by destruct pattern].
    destruct (normalize_level_name v) as [l ->]. destruct pattern; [done|by apply leveled_set_stricter..].
Qed.

Lemma leveled_value value : leveled (structured_rule_map_from_value value).
Proof.
  assert (leveled []) as H0 by (split; [apply od_wf_nil|done]).
  destruct value as [| | | |l|d]; try done; cbn [structured_rule_map_from_value].
  - revert H0. generalize ([] : odict string string) as rules.
    induction l as [|item l IH]; intros rules H; [done|]. simpl. by apply IH, leveled_item.
  - revert H0. generalize ([] : odict string string) as rules.
    induction d as [|[p v] d IH]; intros rules H; [done|]. simpl. apply IH.
    destruct (normalize_level_name v) as [l ->]. by apply leveled_set.
Qed.

Lemma od_get_rules_json rules p : od_get (rules_json rules) p = JStr <$> od_get rules p.
Proof. unfold rules_json. induction rules as [|[k s] rules IH]; simpl; [done|]. by case_decide. Qed.

Lemma rules_json_wf rules : od_wf rules → od_wf (rules_json rules).
Proof. unfold od_wf, od_keys, rules_json. intros H. change (map ?f ?l) with (f <$> l). by rewrite <-list_fmap_compose. Qed.

Lemma merge_rule_map_get key left right p :
  is_in key STRUCTURED_PERMISSION_RULE_MAP_KEYS = true → od_wf right →
  od_get (merge_structured_rule_map key left right) p =
  match od_get left p, od_get right p with
  | Some a, Some b => Some (JStr (stricter_permission_level (normalize_level a) (normalize_level b)))
  | Some a, None => Some a
  | None, o => o
  end.
Proof.
  intros Hkey. unfold merge_structured_rule_map. rewrite Hkey. revert left.
  induction right as [|[k v] right IH]; intros left Hwf; cbn [foldl fst snd od_get].
  { by destruct (od_get left p). }
  rewrite IH by (by eapply od_wf_tail). apply NoDup_cons in Hwf as [Hk _].
  destruct (decide (p = k)) as [->|Hne].
  - rewrite (proj2 (od_get_None right k) Hk). destruct (od_get left k); by rewrite od_get_set_eq.
  - destruct (od_get left k); by rewrite od_get_set_ne.
Qed.

Lemma merge_rule_map_wf key left right : od_wf left → od_wf (merge_structured_rule_map key left right).
Proof.
  unfold merge_structured_rule_map. revert left.
  induction right as [|[k v] right IH]; intros left Hwf; [done|]. simpl. apply IH.
  destruct (od_get left k); [destruct (is_in key _)|]; by apply od_wf_set.
Qed.

Lemma dict_rules d p : od_wf d → od_get (structured_rule_map_from_value (JObj d)) p = normalize_level <$> od_get d p.
Proof.
  cbn [structured_rule_map_from_value].
  assert (∀ rules, od_wf d →
    od_get (foldl (λ out kv, od_set out kv.1 (normalize_level kv.2)) rules d) p =
    match od_get d p with Some v => Some (normalize_level v) | None => od_get rules p end) as H.
  { induction d as [|[k v] d IH]; intros rules Hwf; [done|]. cbn [foldl fst snd od_get].
    rewrite IH by (by eapply od_wf_tail). apply NoDup_cons in Hwf as [Hk _].
    destruct (decide (p = k)) as [->|Hne].
    - by rewrite (proj2 (od_get_None d k) Hk), od_get_set_eq.
    - by rewrite od_get_set_ne. }
  intros Hwf. rewrite H by done. by destruct (od_get d p).
Qed.

Definition stricter_of : option level → option level → option level := union_with (λ a b, Some (stricter a b)).

Lemma merged_values_level key left right p :
  is_in key STRUCTURED_PERMISSION_RULE_MAP_KEYS = true →
  rule_level (merge_structured_rule_values key left right) p = stricter_of (rule_level left p) (rule_level right p).
Proof.
  intros Hkey. unfold merge_structured_rule_values, rule_level.
  destruct (leveled_value left) as [Wl Hl], (leveled_value right) as [Wr Hr].
  set (L := structured_rule_map_from_value left) in *. set (R := structured_rule_map_from_value right) in *.
  assert (od_get (structured_rule_map_from_value (JObj (merge_structured_rule_map key (rules_json L) (rules_json R)))) p ≫= level_of
          = stricter_of (od_get L p ≫= level_of) (od_get R p ≫= level_of)) as Hm.
  { rewrite dict_rules by by apply merge_rule_map_wf, rules_json_wf.
    rewrite merge_rule_map_get, !od_get_rules_json by (done || by apply rules_json_wf).
    destruct (od_get L p) as [a|] eqn:Ea, (od_get R p) as [b|] eqn:Eb; simpl; try done.
    - destruct (Hl p a Ea) as [la ->], (Hr p b Eb) as [lb ->].
      by rewrite !normalize_level_idemp, stricter_names, normalize_level_idemp, !level_of_name.
    - destruct (Hl p a Ea) as [la ->]. by rewrite normalize_level_idemp, !level_of_name.
    - destruct (Hr p b Eb) as [lb ->]. by rewrite normalize_level_idemp, !level_of_name. }
  destruct L as [|kv L']; [|exact Hm]. destruct R as [|kv R'] eqn:ER; [|exact Hm].
  unfold R in ER. rewrite ER. done.
Qed.

Lemma merge_tool_rules_get merged d key :
  is_in key STRUCTURED_PERMISSION_RULE_MAP_KEYS = true → od_wf d →
  od_get (foldl merge_tool_rule merged d) key =
  match od_get merged key, od_get d key with
  | Some old, Some v => Some (merge_structured_rule_values key old v)
  | Some old, None => Some old
  | None, o => o
  end.
Proof.
  intros Hkey. assert (is_in key level_keys = false) as Hlevel.
  { apply is_in_spec in Hkey. unfold STRUCTURED_PERMISSION_RULE_MAP_KEYS in Hkey. rewrite !elem_of_cons in Hkey.
    destruct Hkey as [->|[->|[->|H]]]; [done..|by apply elem_of_nil in H]. }
  revert merged. induction d as [|[k v] d IH]; intros merged Hwf; cbn [foldl od_get].
  { by destruct (od_get merged key). }
  rewrite IH by (by eapply od_wf_tail). apply NoDup_cons in Hwf as [Hk _]. unfold merge_tool_rule.
  destruct (decide (key = k)) as [<-|Hne].
  - rewrite (proj2 (od_get_None d key) Hk), Hlevel, Hkey. destruct (od_get merged key); by rewrite od_get_set_eq.
  - assert (∀ x, od_get (od_set merged k x) key = od_get merged key) as Hset by (intros; by rewrite od_get_set_ne).
    assert (od_get (if is_in k level_keys then merged else _) key = od_get merged key) as ->; [|done].
    destruct (is_in k level_keys); [done|]. destruct (od_get merged k) as [old|]; [|by rewrite Hset].
    destruct (is_in k _); [by rewrite Hset|]. destruct old, v; by rewrite Hset.
Qed.

Definition entry_dict (entry : json) : jdict := default [] (as_dict entry).

(** C29: Merging the entries of two names of one tool relaxes no rule: under [paths],
    [commands] and [patterns] every pattern has the strictest of the levels that
    either entry gives it, whether the rules are written as a mapping or a list. *)
Theorem merged_rules_strictest a b key p :
  key ∈ STRUCTURED_PERMISSION_RULE_MAP_KEYS → od_wf (entry_dict a) → od_wf (entry_dict b) →
  rule_level (j_get (merge_structured_tool_rules a b) key) p =
  stricter_of (rule_level (j_get (entry_dict a) key) p) (rule_level (j_get (entry_dict b) key) p).
Proof.
  intros Hkey%is_in_spec Wa Wb.
  assert (merge_structured_tool_rules a b = foldl merge_tool_rule (foldl merge_tool_rule [] (entry_dict a)) (entry_dict b)) as ->.
  { unfold merge_structured_tool_rules, entry_dict. by destruct a, b. }
  unfold j_get. rewrite !merge_tool_rules_get by done. cbn [od_get].
  destruct (od_get (entry_dict a) key) as [va|], (od_get (entry_dict b) key) as [vb|]; simpl;
    [by apply merged_values_level| |by destruct (rule_level vb p)|done].
  by destruct (rule_level va p).
Qed.

Lemma merged_rules_strictest_witness :
  let a := JObj [("paths", JObj [("/tmp", JStr "allow"); ("/etc", JStr "deny")])] in
  let b := JObj [("paths", JList [JStr "/tmp"; JObj [("path", JStr "/etc"); ("level", JStr "ask")]])] in
  "paths" ∈ STRUCTURED_PERMISSION_RULE_MAP_KEYS ∧
  rule_level (j_get (merge_structured_tool_rules a b) "paths") "/tmp" = Some deny ∧
  rule_level (j_get (merge_structured_tool_rules a b) "paths") "/etc" = Some deny.
Proof.
  cbv zeta. split; [by left|].
  split; (rewrite merged_rules_strictest; [vm_compute; reflexivity|by left|..];
    apply (bool_decide_unpack _); vm_compute; exact I).
Defined.
