(* ===== verification/PermissionCompose.v ===== *)
(** * The effective tool permissions of a session

    Source: [jiuwenswarm/agents/harness/common/rails/permissions/permission_compose.py],
    with and without [auto_mode].

    The layers are JSON values, as they come from YAML files.  The engine package
    is the Section's variables: its reading of [package_builtin_rules], when it can
    be imported, and its three functions that add the package's own rules, each of
    which may raise. *)

From S2P Require Import Prelude OrderedDict PyJson PermissionTools ToolCapabilities AutoConfig.

Definition session_drop : list string := ["deny_tools"; "ask_tools"; "enabled"].

(** [_as_dict] *)
Definition dict_or_empty (x : json) : jdict := default [] (as_dict x).
Definition list_or_empty (x : json) : list json := match x with JList l => l | _ => [] end.

(** [_scalar_level] *)
Definition scalar_level (raw : json) : option level :=
  match (match raw with JObj d => j_get d "*" | _ => raw end) with
  | JStr s => level_of (py_lower (py_strip s))
  | _ => None
  end.

Definition named_tool (drop_tighten : bool) (out : odict string level) (kv : string * json) : odict string level :=
  if negb (str_true (py_strip kv.1)) then out
  else match scalar_level kv.2 with
       | None => out
       | Some l => if drop_tighten && negb (bool_decide (l = allow)) then out
                   else od_set out (py_strip kv.1) l
       end.

Definition named_in_list (l : level) (out : odict string level) (name : json) : odict string level :=
  match name with
  | JStr s => if str_true (py_strip s) then od_set out (py_strip s) l else out
  | _ => out
  end.

(** [_named_levels] *)
Definition named_levels (layer : jdict) (drop_tighten : bool) : odict string level :=
  let tools := match j_get layer "tools" with JObj d => d | _ => [] end in
  let mapping := if drop_tighten then [("allow_tools", allow)]
                 else [("deny_tools", deny); ("ask_tools", ask); ("allow_tools", allow)] in
  foldl (λ out kl, foldl (named_in_list kl.2) out (list_or_empty (j_get layer kl.1)))
    (foldl (named_tool drop_tighten) [] tools) mapping.

(** [_pick_level] *)
Definition pick_level (g u s : option level) : option level :=
  if bool_decide (g = Some deny) || bool_decide (u = Some deny) then Some deny
  else if bool_decide (s = Some allow) then Some allow
  else if bool_decide (u = Some allow) then Some allow
  else if bool_decide (g = Some ask) || bool_decide (u = Some ask) then Some ask
  else if bool_decide (g = Some allow) || bool_decide (u = Some allow) || bool_decide (s = Some allow)
  then Some allow
  else match g with Some l => Some l | None => match u with Some l => Some l | None => s end end.

(** [_merge_list_of_dicts] *)
Definition merge_list_of_dicts (layers : list json) : list jdict :=
  concat (map (λ layer, omap as_dict (list_or_empty layer)) layers).

(** [s.upper()] on ASCII letters; other letters never make a key of the table. *)
Definition upper_char (n : nat) : string := if Nat.leb 97 n && Nat.leb n 122 then chr (n - 32) else chr n.
Definition py_upper (s : string) : string := map_chars upper_char s.

(** [_P1_SEVERITY_TO_ACTION] *)
Definition severity_action (sev : string) : option level :=
  if String.eqb sev "LOW" || String.eqb sev "MEDIUM" then Some allow
  else if String.eqb sev "HIGH" then Some ask
  else if String.eqb sev "CRITICAL" then Some deny else None.

Definition rule_action (rule : jdict) : jdict :=
  let has_action := match j_get rule "action" with JStr a => str_true (py_strip a) | _ => false end in
  if has_action then rule
  else match severity_action (py_upper (py_strip (str_or_empty (j_get rule "severity")))) with
       | Some l => od_set rule "action" (JStr (level_name l))
       | None => rule
       end.

(** [_net_action] *)
Definition net_action (raw : json) : option level :=
  let raw := match raw with
             | JObj d => match j_get d "action" with JNull => j_get d "fetch" | a => a end
             | _ => raw
             end in
  match raw with
  | JStr s => match level_of (py_lower (py_strip s)) with Some ask => None | l => l end
  | _ => None
  end.

Definition merge_net_url (merged : odict string level) (kv : string * json) : odict string level :=
  let key := py_strip kv.1 in
  if negb (str_true key) then merged
  else match net_action kv.2 with
       | None => merged
       | Some action =>
           let existing := od_get merged key in
           if bool_decide (existing = Some deny) && bool_decide (action = allow) then merged
           else od_set merged key
                  (if bool_decide (existing = Some deny) || bool_decide (action = deny) then deny else allow)
       end.

(** [_merge_net_urls] *)
Definition merge_net_urls (layers : list json) : odict string level :=
  foldl (λ merged layer, foldl merge_net_url merged (dict_or_empty layer)) [] layers.

Definition levels_json (d : odict string level) : json :=
  JObj (map (λ kl, (kl.1, JStr (level_name kl.2))) d).

(** [_compose_shell_guard] *)
Definition shell_flag (g u : jdict) (name : string) : bool :=
  match j_get u name with
  | JBool b => b
  | _ => match j_get g name with JBool b => b | _ => true end
  end.

Definition compose_shell_guard (g u : jdict) : jdict :=
  let g_sg := dict_or_empty (j_get g "shell_guard") in
  let u_sg := dict_or_empty (j_get u "shell_guard") in
  [("unknown_structure", JBool (shell_flag g_sg u_sg "unknown_structure"));
   ("interpreter_sink", JBool (shell_flag g_sg u_sg "interpreter_sink"))].

(** [_compose_net_guard] *)
Definition net_defaults (g u : option level) : level :=
  if bool_decide (g = Some deny) && bool_decide (u = Some allow) then deny
  else match u with Some l => l | None => default allow g end.

Definition compose_net_guard (g u : jdict) : jdict :=
  let g_ng := dict_or_empty (j_get g "net_guard") in
  let u_ng := dict_or_empty (j_get u "net_guard") in
  let enabled := match od_get g_ng "enabled" with Some b => j_truth b | None => true end in
  [("enabled", JBool enabled);
   ("defaults", JStr (level_name (net_defaults (net_action (j_get g_ng "defaults"))
                                    (net_action (j_get u_ng "defaults")))));
   ("urls", levels_json (merge_net_urls [j_get g_ng "urls"; j_get u_ng "urls"]))].

(** [_fail_closed] *)
Definition fail_closed (enabled : bool) : jdict :=
  [("enabled", JBool enabled); ("schema", JStr "tiered_policy"); ("permission_mode", JStr "normal");
   ("defaults", JObj [("*", JStr "ask")]); ("tools", JObj []); ("rules", JList []);
   ("approval_overrides", JList []); ("categories", JObj [("shell", shell_tool_names)]);
   ("package_builtin_rules", JBool true);
   ("file_guard", JObj [("enabled", JBool true);
      ("defaults", JObj [("read", JStr "ask"); ("write", JStr "ask"); ("exec", JStr "ask")]);
      ("paths", JList [])]);
   ("shell_guard", JObj [("unknown_structure", JBool true); ("interpreter_sink", JBool true)])].

(** The session's layer without the fields it may not set *)
Definition session_layer (s : json) : jdict :=
  filter (λ kv, kv.1 ∉ session_drop) (dict_or_empty s).

(** [tools]: the level of every name a layer mentions *)
Definition effective_levels (g u s : jdict) : odict string level :=
  let g_lv := named_levels g false in
  let u_lv := named_levels u false in
  let s_lv := named_levels s true in
  omap (λ n, l ← pick_level (od_get g_lv n) (od_get u_lv n) (od_get s_lv n); Some (n, l))
    (sorted_names (od_keys g_lv ++ od_keys u_lv ++ od_keys s_lv)).

Definition names_at (l : level) (d : odict string level) : json :=
  JList (map (λ kl, JStr kl.1) (filter (λ kl, kl.2 = l) d)).

(** The paths a layer adds to [file_guard] *)
Definition add_paths (fg layer : jdict) : jdict :=
  match j_get layer "file_guard" with
  | JObj overlay =>
      match j_get overlay "paths" with
      | JList extra =>
          od_set fg "paths"
            (JList (list_or_empty (j_get fg "paths") ++ map JObj (omap as_dict extra)))
      | _ => fg
      end
  | _ => fg
  end.

(** [_package_builtin_rules_enabled] when the package cannot be imported *)
Definition builtin_rules_fallback (layer : jdict) : bool :=
  match j_get layer "package_builtin_rules" with
  | JBool b => b
  | JStr s => negb (bool_decide (py_lower (py_strip s) ∈ ["false"; "0"; "no"; "off"]))
  | _ => true
  end.

(** [out] before the package's rules are added *)
Definition host_permissions (g u s : jdict) (use_package : bool) : jdict :=
  let levels := effective_levels g u s in
  let out := od_set g "tools" (levels_json levels) in
  let out := od_set out "deny_tools" (names_at deny levels) in
  let out := od_set out "ask_tools" (names_at ask levels) in
  let out := od_set out "allow_tools" (names_at allow levels) in
  let out := if od_mem out "enabled" then out else od_set out "enabled" (JBool false) in
  let out := od_set out "rules"
    (JList (map (λ r, JObj (rule_action r))
              (merge_list_of_dicts [j_get g "rules"; j_get u "rules"; j_get s "rules"]))) in
  let out := od_set out "approval_overrides"
    (JList (map JObj (merge_list_of_dicts
       [j_get g "approval_overrides"; j_get u "approval_overrides"; j_get s "approval_overrides"]))) in
  let fg := add_paths (add_paths (dict_or_empty (j_get g "file_guard")) u) s in
  let out := match fg with [] => out | _ => od_set out "file_guard" (JObj fg) end in
  let out := od_set out "net_guard" (JObj (compose_net_guard g u)) in
  let out := od_set out "shell_guard" (JObj (compose_shell_guard g u)) in
  let out := od_set (od_pop out "categories") "categories" (JObj [("shell", shell_tool_names)]) in
  od_set out "package_builtin_rules" (JBool use_package).

Section engine.
Context (builtin_rules : option (jdict → option bool)).
Context (inline_rules merge_paths merge_urls : jdict → option jdict).

Definition package_builtin_rules_enabled (layer : jdict) : option bool :=
  match builtin_rules with Some f => f layer | None => Some (builtin_rules_fallback layer) end.

(** [compose_host_effective_permissions] from the global layer [g] on; [None] when
    the package raises *)
Definition compose_over (g : jdict) (user session : json) : option jdict :=
  let u := dict_or_empty user in
  let s := session_layer session in
  use_package ← package_builtin_rules_enabled g;
  let out := host_permissions g u s use_package in
  if negb use_package then Some out
  else out ← inline_rules out; out ← merge_paths out; merge_urls out.

(** The [except] clause: any exception fails closed. *)
Definition or_fail_closed (global : json) (out : option jdict) : jdict :=
  default (fail_closed (j_truth (j_get (dict_or_empty global) "enabled"))) out.

(** [compose_host_effective_permissions] with [auto_mode=False] *)
Definition compose_host_effective_permissions (global user session : json) : jdict :=
  or_fail_closed global (compose_over (dict_or_empty global) user session).

(** The global layer of the automatic mode *)
Definition auto_layer (composed : jdict) : jdict :=
  od_pop (od_pop (od_pop (normalize_permissions_for_runtime composed) "allow_tools") "ask_tools") "deny_tools".

(** [compose_host_effective_permissions] with [auto_mode=True] *)
Definition compose_auto_permissions (global user session : json) : jdict :=
  or_fail_closed global
    (compose_over (auto_layer (compose_host_effective_permissions (JObj (dict_or_empty global)) JNull JNull))
       user session).

End engine.

(** ** Levels *)

Lemma od_get_omap {A} (f : string → option A) names n :
  od_get (omap (λ n, l ← f n; Some (n, l)) names) n = if decide (n ∈ names) then f n else None.
Proof.
  induction names as [|m names IH]; [done|]. csimpl.
  destruct (f m) as [l|] eqn:Ef; csimpl.
  - destruct (decide (n = m)) as [->|Hne].
    + rewrite decide_True by by left. by rewrite Ef.
    + rewrite IH. repeat case_decide; rewrite ?elem_of_cons in *; naive_solver.
  - rewrite IH. repeat case_decide; rewrite ?elem_of_cons in *; naive_solver.
Qed.

Lemma effective_level g u s n :
  od_get (effective_levels g u s) n =
  pick_level (od_get (named_levels g false) n) (od_get (named_levels u false) n)
    (od_get (named_levels s true) n).
Proof.
  unfold effective_levels. rewrite od_get_omap. case_decide as Hn; [done|].
  rewrite elem_of_sorted_names, !elem_of_app in Hn.
  rewrite !(proj2 (od_get_None _ _)); [done|tauto..].
Qed.

(** A name of a layer's list *)
Definition listed (layer : jdict) (field n : string) : bool :=
  existsb (λ x, match x with JStr s => str_true (py_strip s) && String.eqb (py_strip s) n | _ => false end)
    (list_or_empty (j_get layer field)).

Lemma fold_named_in_list l names out n :
  od_get (foldl (named_in_list l) out names) n =
  if existsb (λ x, match x with JStr s => str_true (py_strip s) && String.eqb (py_strip s) n | _ => false end) names
  then Some l else od_get out n.
Proof.
  revert out. induction names as [|x names IH]; intros out; [done|]. simpl. rewrite IH.
  destruct (existsb _ names); [by rewrite orb_true_r|]. rewrite orb_false_r.
  destruct x as [| | |s| |]; simpl; try done. destruct (str_true (py_strip s)); simpl; [|done].
  rewrite od_get_set. destruct (String.eqb_spec (py_strip s) n); case_decide; congruence.
Qed.

(** What the [tools] mapping of a layer says of a name: its last entry with a level *)
Definition tool_level (layer : jdict) (n : string) : option level :=
  od_get (foldl (named_tool false) [] (match j_get layer "tools" with JObj d => d | _ => [] end)) n.

Lemma named_level layer n :
  od_get (named_levels layer false) n =
  if listed layer "allow_tools" n then Some allow
  else if listed layer "ask_tools" n then Some ask
  else if listed layer "deny_tools" n then Some deny
  else tool_level layer n.
Proof. unfold named_levels. simpl. by rewrite !fold_named_in_list. Qed.

Lemma fold_named_tool_allow tools out n l :
  (∀ l, od_get out n = Some l → l = allow) →
  od_get (foldl (named_tool true) out tools) n = Some l → l = allow.
Proof.
  revert out. induction tools as [|[k raw] tools IH]; intros out Hout; [apply Hout|]. simpl.
  apply IH. intros l' Hl'. unfold named_tool in Hl'. simpl in Hl'.
  destruct (negb (str_true _)); [by apply Hout|]. destruct (scalar_level raw) as [l0|]; [|by apply Hout].
  destruct l0; [by apply Hout|by apply Hout|]. simpl in Hl'.
  rewrite od_get_set in Hl'. case_decide; [by simplify_eq|by apply Hout].
Qed.

(** The session's layer only allows. *)
Lemma session_level s n l : od_get (named_levels s true) n = Some l → l = allow.
Proof.
  unfold named_levels. simpl. rewrite fold_named_in_list. destruct (existsb _ _); [by intros [= <-]|].
  by apply fold_named_tool_allow.
Qed.

(** C27: A tool the global or the user's layer denies is denied whatever the
    session says, and only such a tool; a session changes a tool's level only by
    allowing it, and only when neither layer denies it; a tool is asked for only
    when a layer asks and neither the user nor the session allows it. *)
Theorem deny_is_final g u s n :
  let lv := od_get (effective_levels g u s) n in
  let g_lv := od_get (named_levels g false) n in
  let u_lv := od_get (named_levels u false) n in
  (lv = Some deny ↔ g_lv = Some deny ∨ u_lv = Some deny) ∧
  (lv ≠ od_get (effective_levels g u []) n →
     lv = Some allow ∧ od_get (named_levels s true) n = Some allow ∧ g_lv ≠ Some deny ∧ u_lv ≠ Some deny) ∧
  (lv = Some ask ↔
     (g_lv = Some ask ∨ u_lv = Some ask) ∧ g_lv ≠ Some deny ∧ u_lv ≠ Some deny ∧ u_lv ≠ Some allow ∧
     od_get (named_levels s true) n ≠ Some allow).
Proof.
  intros lv g_lv u_lv. unfold lv. rewrite !effective_level. fold g_lv u_lv.
  assert (od_get (named_levels [] true) n = None) as -> by done.
  pose proof (session_level s n) as Hs. destruct (od_get (named_levels s true) n) as [ls|].
  - specialize (Hs ls eq_refl) as ->. destruct g_lv as [[]|], u_lv as [[]|]; vm_compute; naive_solver.
  - destruct g_lv as [[]|], u_lv as [[]|]; vm_compute; naive_solver.
Qed.

Lemma od_get_map_snd {A B} (f : A → B) (d : odict string A) n :
  od_get (map (λ kv, (kv.1, f kv.2)) d) n = f <$> od_get d n.
Proof. induction d as [|[k a] d IH]; simpl; [done|]. by case_decide. Qed.

Lemma levels_json_get d n :
  j_get (dict_or_empty (levels_json d)) n = match od_get d n with Some l => JStr (level_name l) | None => JNull end.
Proof.
  unfold j_get, levels_json, dict_or_empty. cbn [as_dict default].
  change (id (map ?f d)) with (map f d). rewrite (od_get_map_snd (λ l, JStr (level_name l))).
  by destruct (od_get d n).
Qed.

(** ** Composing again *)

(** Names as the layers give them: stripped and not blank *)
Definition clean (d : odict string level) : Prop :=
  ∀ n l, (n, l) ∈ d → py_strip n = n ∧ n ≠ EmptyString.

Lemma clean_set d s l : clean d → str_true (py_strip s) = true → clean (od_set d (py_strip s) l).
Proof.
  intros Hd Hs n l'. induction d as [|[k v] d IH]; simpl.
  - intros [= -> ->]%list_elem_of_singleton. split; [apply py_strip_idemp|by apply str_true_spec].
  - case_decide as Hk; rewrite !elem_of_cons.
    + intros [[= -> ->]|Hin]; [apply (Hd k v); by left|]. apply (Hd n l'). by right.
    + intros [[= -> ->]|Hin]; [apply (Hd k v); by left|]. apply IH; [|done].
      intros n0 l0 H0. apply (Hd n0 l0). by right.
Qed.

Lemma clean_list l names out : clean out → clean (foldl (named_in_list l) out names).
Proof.
  revert out. induction names as [|x names IH]; intros out Hout; [done|]. simpl. apply IH.
  destruct x as [| | |s| |]; try done. simpl. destruct (str_true (py_strip s)) eqn:E; [|done].
  by apply clean_set.
Qed.

Lemma clean_tools drop tools out : clean out → clean (foldl (named_tool drop) out tools).
Proof.
  revert out. induction tools as [|[k raw] tools IH]; intros out Hout; [done|]. simpl. apply IH.
  unfold named_tool. simpl. destruct (str_true (py_strip k)) eqn:E; [|done]. simpl.
  destruct (scalar_level raw); [|done]. destruct (drop && _); [done|by apply clean_set].
Qed.

Lemma clean_named layer drop : clean (named_levels layer drop).
Proof.
  unfold named_levels. destruct drop; simpl; repeat apply clean_list; apply clean_tools;
    intros n l Hin; by apply elem_of_nil in Hin.
Qed.

Lemma clean_effective g u s : clean (effective_levels g u s).
Proof.
  intros n l (m & Hm & Hl)%list_elem_of_omap.
  destruct (pick_level _ _ _); [|done]. simpl in Hl. injection Hl as -> _.
  rewrite elem_of_sorted_names, !elem_of_app in Hm.
  destruct Hm as [Hm|[Hm|Hm]]; apply list_elem_of_fmap in Hm as ([m' l'] & -> & Hin);
    by eapply clean_named.
Qed.

Lemma j_get_set_eq d k v : j_get (od_set d k v) k = v.
Proof. unfold j_get. by rewrite od_get_set_eq. Qed.

Lemma j_get_set_ne d k k' v : k' ≠ k → j_get (od_set d k v) k' = j_get d k'.
Proof. intros H. unfold j_get. by rewrite od_get_set_ne. Qed.

Lemma j_get_pop_ne d k k' : k' ≠ k → j_get (od_pop d k) k' = j_get d k'.
Proof. intros H. unfold j_get. by rewrite od_get_pop_ne. Qed.

(** The four fields of the effective permissions that carry levels *)
Lemma host_levels g u s b :
  let out := host_permissions g u s b in
  let lv := effective_levels g u s in
  j_get out "tools" = levels_json lv ∧ j_get out "deny_tools" = names_at deny lv ∧
  j_get out "ask_tools" = names_at ask lv ∧ j_get out "allow_tools" = names_at allow lv.
Proof.
  unfold host_permissions. cbv zeta.
  split_and!; repeat first
    [ rewrite j_get_set_eq; reflexivity | rewrite j_get_set_ne by done | rewrite j_get_pop_ne by done
    | match goal with |- context [j_get (if ?b then _ else _) _] => destruct b end
    | match goal with |- context [j_get (match ?fg with [] => _ | _ :: _ => _ end) _] => destruct fg end ].
Qed.

Lemma listed_names_at layer field l lv n :
  clean lv → od_wf lv → j_get layer field = names_at l lv →
  listed layer field n = bool_decide (od_get lv n = Some l).
Proof.
  intros Hc Hwf Hf. unfold listed. rewrite Hf. unfold names_at, list_or_empty.
  apply eq_true_iff_eq. rewrite existsb_exists, bool_decide_eq_true. split.
  - intros (x & Hx%list_elem_of_In & Hn). apply list_elem_of_fmap in Hx as ([k l'] & -> & Hin).
    apply list_elem_of_filter in Hin as [Hl Hin]. simpl in *. subst l'.
    destruct (Hc k l Hin) as [Hs _]. apply andb_true_iff in Hn as [_ Hn%String.eqb_eq].
    rewrite Hs in Hn. subst. by apply od_elem_get.
  - intros Hget%od_get_elem. exists (JStr n). destruct (Hc n l Hget) as [Hs Hne]. split.
    + apply list_elem_of_In, list_elem_of_fmap. exists (n, l). split; [done|]. by apply list_elem_of_filter.
    + rewrite Hs, String.eqb_refl. by apply str_true_spec in Hne as ->.
Qed.

Lemma fold_named_tool_other tools out n :
  (∀ kv, kv ∈ tools → py_strip kv.1 ≠ n) → od_get (foldl (named_tool false) out tools) n = od_get out n.
Proof.
  revert out. induction tools as [|[k raw] tools IH]; intros out Hn; [done|]. simpl.
  rewrite IH by (intros kv Hkv; apply Hn; by right). unfold named_tool. simpl.
  destruct (negb _); [done|]. destruct (scalar_level raw); [|done].
  apply od_get_set_ne. apply (Hn (k, raw)). by left.
Qed.

Lemma effective_wf g u s : od_wf (effective_levels g u s).
Proof.
  unfold od_wf, effective_levels.
  set (f := λ n, pick_level (od_get (named_levels g false) n) (od_get (named_levels u false) n)
                   (od_get (named_levels s true) n)).
  generalize (proj1 (sorted_names_NoDup (od_keys (named_levels g false) ++ od_keys (named_levels u false) ++
    od_keys (named_levels s true)))).
  generalize (sorted_names (od_keys (named_levels g false) ++ od_keys (named_levels u false) ++
    od_keys (named_levels s true))) as names.
  induction 1 as [|n names Hn Hnames IH]; [constructor|]. csimpl. fold (f n).
  destruct (f n); [|done]. csimpl. constructor; [|done].
  intros ([m l'] & -> & (k & Hk & Hl)%list_elem_of_omap)%list_elem_of_fmap. simpl in *.
  fold (f k) in Hl. destruct (f k); [|done]. simpl in Hl. by simplify_eq.
Qed.

(** The effective permissions, taken as the global layer again, give every
    tool the same level: the sorted lists and the mapping that are written agree
    with each other under the reading that wrote them. *)
Theorem recompose g u s use_package n :
  od_get (effective_levels (host_permissions g u s use_package) [] []) n = od_get (effective_levels g u s) n.
Proof.
  destruct (host_levels g u s use_package) as (Ht & Hd & Ha & Hl). set (out := host_permissions _ _ _ _) in *.
  pose proof (clean_effective g u s) as Hc. pose proof (effective_wf g u s) as Hwf.
  rewrite (effective_level out). change (od_get (named_levels [] _) n) with (@None level).
  rewrite named_level, (listed_names_at _ _ _ _ n Hc Hwf Hd), (listed_names_at _ _ _ _ n Hc Hwf Ha),
    (listed_names_at _ _ _ _ n Hc Hwf Hl).
  destruct (od_get (effective_levels g u s) n) as [[]|] eqn:E; try done.
  unfold tool_level. rewrite Ht. simpl. rewrite fold_named_tool_other; [done|].
  intros kv (kl & -> & Hin)%list_elem_of_fmap. destruct kl as [k l]. simpl.
  destruct (Hc k l Hin) as [-> _]. intros ->. by rewrite (od_elem_get _ _ _ Hwf Hin) in E.
Qed.

(** ** Network guard *)

(** What the layers say of a URL pattern *)
Definition net_actions (layers : list json) (key : string) : list level :=
  concat (map (λ layer, omap (λ kv, if String.eqb (py_strip kv.1) key && str_true key then net_action kv.2 else None)
                          (dict_or_empty layer)) layers).

Definition strictest (acts : list level) (before : option level) : option level :=
  foldl (λ o a, if bool_decide (o = Some deny) || bool_decide (a = deny) then Some deny else Some allow) before acts.

Lemma net_action_not_ask raw : net_action raw ≠ Some ask.
Proof. unfold net_action. repeat case_match; congruence. Qed.

Lemma merge_net_layer layer merged key :
  od_get (foldl merge_net_url merged layer) key =
  strictest (omap (λ kv, if String.eqb (py_strip kv.1) key && str_true key then net_action kv.2 else None) layer)
    (od_get merged key).
Proof.
  revert merged. induction layer as [|[k raw] layer IH]; intros merged; [done|]. csimpl. rewrite IH.
  unfold merge_net_url. csimpl. destruct (String.eqb_spec (py_strip k) key) as [<-|Hne]; csimpl.
  - destruct (str_true (py_strip k)) eqn:Es; [|done]. csimpl.
    pose proof (net_action_not_ask raw). destruct (net_action raw) as [a|]; [|done]. csimpl.
    destruct (od_get merged (py_strip k)) as [[]|] eqn:Em, a; csimpl; rewrite ?od_get_set_eq, ?Em; done.
  - destruct (negb _); [done|]. destruct (net_action raw) as [a|]; [|done].
    destruct (bool_decide _ && _); [done|]. by rewrite od_get_set_ne.
Qed.

Lemma strictest_app a b o : strictest (a ++ b) o = strictest b (strictest a o).
Proof. apply foldl_app. Qed.

Lemma merge_net_urls_get layers key :
  od_get (merge_net_urls layers) key = strictest (net_actions layers key) None.
Proof.
  unfold merge_net_urls. change None with (od_get ([] : odict string level) key) at 1.
  generalize ([] : odict string level) as merged.
  induction layers as [|layer layers IH]; intros merged; [done|]. simpl.
  by rewrite IH, merge_net_layer, <-strictest_app.
Qed.

Lemma strictest_spec acts o :
  strictest acts o = if bool_decide (o = Some deny ∨ deny ∈ acts) then Some deny
                     else match acts with [] => o | _ => Some allow end.
Proof.
  revert o. induction acts as [|a acts IH]; intros o; csimpl.
  - case_bool_decide as H; [|done]. destruct H as [->|H]; [done|by apply elem_of_nil in H].
  - rewrite IH. repeat case_bool_decide; rewrite ?elem_of_cons in *; destruct acts; naive_solver.
Qed.

Lemma merge_net_urls_spec layers key :
  od_get (merge_net_urls layers) key =
  if bool_decide (deny ∈ net_actions layers key) then Some deny
  else match net_actions layers key with [] => None | _ => Some allow end.
Proof. rewrite merge_net_urls_get, strictest_spec. repeat case_bool_decide; naive_solver. Qed.

Lemma net_guard_fields g u :
  let g_ng := dict_or_empty (j_get g "net_guard") in
  let u_ng := dict_or_empty (j_get u "net_guard") in
  let ng := compose_net_guard g u in
  j_get ng "enabled" = JBool (match od_get g_ng "enabled" with Some b => j_truth b | None => true end) ∧
  j_get ng "defaults" = JStr (level_name (net_defaults (net_action (j_get g_ng "defaults"))
                                            (net_action (j_get u_ng "defaults")))) ∧
  j_get ng "urls" = levels_json (merge_net_urls [j_get g_ng "urls"; j_get u_ng "urls"]).
Proof. done. Qed.

Lemma net_defaults_spec gd ud :
  net_defaults gd ud = if bool_decide (gd = Some deny) then match ud with Some ask => ask | _ => deny end
                       else default (default allow gd) ud.
Proof. by destruct gd as [[]|], ud as [[]|]. Qed.

(** The user's network guard only tightens: it cannot change [enabled], cannot
    relax a default the global layer denies, and a URL pattern is denied exactly
    when some entry of either layer denies it, wherever that entry stands, allowed
    when it has entries and none denies, and absent otherwise. *)
Theorem net_guard_tightens g u key :
  let ng := compose_net_guard g u in
  let g_ng := dict_or_empty (j_get g "net_guard") in
  let u_ng := dict_or_empty (j_get u "net_guard") in
  let actions := net_actions [j_get g_ng "urls"; j_get u_ng "urls"] key in
  j_get ng "enabled" = j_get (compose_net_guard g []) "enabled" ∧
  j_get ng "defaults" =
    (if bool_decide (net_action (j_get g_ng "defaults") = Some deny) then JStr "deny"
     else JStr (level_name (default (default allow (net_action (j_get g_ng "defaults")))
                              (net_action (j_get u_ng "defaults"))))) ∧
  j_get (dict_or_empty (j_get ng "urls")) key =
    (if bool_decide (deny ∈ actions) then JStr "deny"
     else match actions with [] => JNull | _ => JStr "allow" end).
Proof.
  cbv zeta. destruct (net_guard_fields g u) as (He & Hd & Hu).
  split_and!; [by rewrite He, (proj1 (net_guard_fields g []))| |].
  - rewrite Hd, net_defaults_spec.
    pose proof (net_action_not_ask (j_get (dict_or_empty (j_get u "net_guard")) "defaults")).
    case_bool_decide; [|done]. by destruct (net_action (j_get (dict_or_empty (j_get u _)) _)) as [[]|].
  - rewrite Hu. rewrite levels_json_get, merge_net_urls_spec. generalize (net_actions [j_get (dict_or_empty (j_get g "net_guard")) "urls";
      j_get (dict_or_empty (j_get u "net_guard")) "urls"] key) as acts.
    intros acts. by destruct (bool_decide _), acts.
Qed.

(** ** Host facts *)

Definition composed_fields : list string :=
  ["tools"; "deny_tools"; "ask_tools"; "allow_tools"; "enabled"; "rules"; "approval_overrides"; "file_guard";
   "net_guard"; "shell_guard"; "categories"; "package_builtin_rules"].

Lemma host_other_fields g u s b k :
  k ∉ composed_fields → j_get (host_permissions g u s b) k = j_get g k.
Proof.
  unfold composed_fields. intros Hk. rewrite !not_elem_of_cons in Hk. destruct_and! Hk.
  unfold host_permissions. cbv zeta.
  repeat first
    [ rewrite j_get_set_ne by done | rewrite j_get_pop_ne by done
    | match goal with |- context [j_get (if ?b then _ else _) _] => destruct b end
    | match goal with |- context [j_get (match ?fg with [] => _ | _ :: _ => _ end) _] => destruct fg end ].
  all: done.
Qed.

Lemma host_fixed_fields g u s b :
  let out := host_permissions g u s b in
  j_get out "enabled" = (if od_mem g "enabled" then j_get g "enabled" else JBool false) ∧
  j_get out "categories" = JObj [("shell", shell_tool_names)] ∧
  j_get out "package_builtin_rules" = JBool b.
Proof.
  unfold host_permissions. cbv zeta.
  set (o4 := od_set (od_set (od_set (od_set g "tools" _) "deny_tools" _) "ask_tools" _) "allow_tools" _).
  assert (od_mem o4 "enabled" = od_mem g "enabled") as ->.
  { unfold od_mem, o4. by rewrite !od_get_set_ne by done. }
  split_and!; repeat first
    [ rewrite j_get_set_eq; reflexivity | rewrite j_get_set_ne by done | rewrite j_get_pop_ne by done
    | match goal with |- context [j_get (match ?fg with [] => _ | _ :: _ => _ end) _] => destruct fg end ].
  all: destruct (od_mem g "enabled"); rewrite ?j_get_set_eq; try done; unfold o4; by rewrite !j_get_set_ne by done.
Qed.

(** The paths a layer adds *)
Definition extra_paths (layer : jdict) : list json :=
  match j_get layer "file_guard" with
  | JObj overlay => map JObj (omap as_dict (list_or_empty (j_get overlay "paths")))
  | _ => []
  end.

Lemma add_paths_spec fg layer k :
  (k ≠ "paths" → j_get (add_paths fg layer) k = j_get fg k) ∧
  list_or_empty (j_get (add_paths fg layer) "paths") = list_or_empty (j_get fg "paths") ++ extra_paths layer ∧
  (add_paths fg layer = [] → fg = []).
Proof.
  unfold add_paths, extra_paths. destruct (j_get layer "file_guard") as [| | | | |overlay]; try by rewrite app_nil_r.
  destruct (j_get overlay "paths"); try by rewrite app_nil_r.
  split_and!; [intros; by apply j_get_set_ne|by rewrite j_get_set_eq|].
  destruct fg as [|[]]; simpl; [done|]. by case_decide.
Qed.

Lemma host_file_guard g u s b :
  let fg := add_paths (add_paths (dict_or_empty (j_get g "file_guard")) u) s in
  dict_or_empty (j_get (host_permissions g u s b) "file_guard") = fg.
Proof.
  intros fg. unfold host_permissions. cbv zeta. fold fg.
  rewrite !j_get_set_ne, j_get_pop_ne, !j_get_set_ne by done.
  destruct fg as [|kv fg'] eqn:E; [|by rewrite j_get_set_eq].
  apply add_paths_spec, add_paths_spec in E; [|exact ""..].
  rewrite !j_get_set_ne by done. destruct (od_mem _ _); rewrite ?j_get_set_ne by done; done.
Qed.

(** Every field that the composition does not write keeps the global layer's
    value; [enabled] is the global layer's, [False] when it has none; the shell
    categories and the package switch are the host's; of [file_guard] only the
    paths grow, by the user's and then the session's. *)
Theorem host_facts g u s b k :
  let out := host_permissions g u s b in
  let fg := dict_or_empty (j_get out "file_guard") in
  let g_fg := dict_or_empty (j_get g "file_guard") in
  j_get out k = (if decide (k ∈ composed_fields) then j_get out k else j_get g k) ∧
  j_get out "enabled" = (if od_mem g "enabled" then j_get g "enabled" else JBool false) ∧
  j_get out "categories" = JObj [("shell", shell_tool_names)] ∧
  j_get out "package_builtin_rules" = JBool b ∧
  j_get fg k = (if decide (k = "paths") then j_get fg "paths" else j_get g_fg k) ∧
  list_or_empty (j_get fg "paths") = list_or_empty (j_get g_fg "paths") ++ extra_paths u ++ extra_paths s.
Proof.
  cbv zeta. destruct (host_fixed_fields g u s b) as (He & Hc & Hb). rewrite host_file_guard.
  split_and!; try done.
  - case_decide; [done|by apply host_other_fields].
  - destruct (decide (k = "paths")) as [->|Hk]; [done|].
    by rewrite (proj1 (add_paths_spec _ s k)), (proj1 (add_paths_spec _ u k)).
  - by rewrite (proj1 (proj2 (add_paths_spec _ s ""))), (proj1 (proj2 (add_paths_spec _ u ""))), app_assoc.
Qed.

(** ** The automatic mode *)

Definition plain (tools : jdict) : Prop :=
  od_wf tools ∧ ∀ m e, od_get tools m = Some e →
    py_strip m = m ∧ m ≠ EmptyString ∧ ∃ l, e = JStr (level_name (tighten m l)).

Lemma plain_named tools n :
  plain tools → od_get (foldl (named_tool false) [] tools) n = entry_level n <$> od_get tools n.
Proof.
  intros [Hwf Hp].
  assert (∀ out, od_get (foldl (named_tool false) out tools) n =
                 match od_get tools n with Some e => Some (entry_level n e) | None => od_get out n end) as H.
  { clear -Hwf Hp. induction tools as [|[m e] tools IH]; intros out; [done|]. cbn [foldl].
    pose proof (od_wf_tail _ _ Hwf) as Hwf'. pose proof (proj1 (proj1 (NoDup_cons _ _) Hwf)) as Hm.
    rewrite IH; [|done|].
    - destruct (Hp m e) as (Hs & Hne & l & ->); [by cbn; rewrite decide_True|].
      unfold named_tool. cbn [fst snd]. rewrite Hs, (proj2 (str_true_spec m) Hne). cbn [negb od_get].
      assert (scalar_level (JStr (level_name (tighten m l))) = Some (tighten m l)) as ->
        by by destruct (tighten m l).
      assert (entry_level m (JStr (level_name (tighten m l))) = tighten m l) as He.
      { unfold entry_level. cbn [tool_entry_default_level].
        by rewrite normalize_tool_level_again, level_of_name. }
      destruct (decide (n = m)) as [->|Hnm].
      + rewrite (proj2 (od_get_None tools m) Hm). simpl. by rewrite od_get_set_eq, He.
      + simpl. by rewrite od_get_set_ne.
    - intros m' e' He. apply Hp. cbn. destruct (decide (m' = m)) as [->|]; [|done].
      by rewrite (proj2 (od_get_None tools m) Hm) in He. }
  rewrite H. by destruct (od_get tools n).
Qed.

Lemma plain_normalized lv : plain (normalize_tools_for_auto_mode (map (λ kl, (kl.1, JStr (level_name kl.2))) lv)).
Proof.
  unfold normalize_tools_for_auto_mode.
  assert (plain []) as H0 by (split; [apply od_wf_nil|done]). revert H0.
  generalize ([] : jdict) as out. induction lv as [|[k l] lv IH]; intros out Hp; [done|].
  cbn [map foldl fst snd]. apply IH. clear IH. unfold normalize_tool. cbn [fst snd].
  destruct (normalize_stripped (JStr k)) as [Hs _]. set (m := normalize_permission_tool_name (JStr k)) in *.
  destruct (str_true m) eqn:Em; [apply str_true_spec in Em|done]. cbn [negb normalize_tool_entry].
  split; [apply od_wf_set, Hp|]. intros m' e'. rewrite od_get_set.
  destruct (decide (m = m')) as [<-|]; [|apply (proj2 Hp)]. intros [= <-]. split_and!; [done..|].
  destruct (normalize_tool_level_name m (JStr (level_name l))) as (l' & Hl & _). rewrite Hl.
  destruct (od_get out m) as [old|] eqn:Eo; [|by exists l'].
  destruct (proj2 Hp m old Eo) as (_ & _ & l0 & ->).
  exists (stricter l0 l'). unfold merge_tool_entries. cbn [tool_entry_default_level].
  by rewrite !normalize_tool_level_again, stricter_names, tighten_stricter.
Qed.

Lemma j_get_pop_eq d k : j_get (od_pop d k) k = JNull.
Proof. unfold j_get. by rewrite od_get_pop_eq. Qed.

Lemma auto_layer_lists c field n :
  field ∈ ["allow_tools"; "ask_tools"; "deny_tools"] → listed (auto_layer c) field n = false.
Proof.
  intros Hf. unfold listed. assert (j_get (auto_layer c) field = JNull) as ->; [|done]. unfold auto_layer.
  rewrite !elem_of_cons in Hf. destruct Hf as [->|[->|[->|H]]]; [| | |by apply elem_of_nil in H].
  - rewrite !j_get_pop_ne by done. apply j_get_pop_eq.
  - rewrite j_get_pop_ne by done. apply j_get_pop_eq.
  - apply j_get_pop_eq.
Qed.

Lemma auto_layer_tools c lv :
  is_auto_permission_mode c = true → j_get c "tools" = levels_json lv →
  j_get (auto_layer c) "tools" =
  JObj (normalize_tools_for_auto_mode (map (λ kl, (kl.1, JStr (level_name kl.2))) lv)).
Proof.
  intros Ha Ht. unfold auto_layer. rewrite !j_get_pop_ne by done.
  unfold normalize_permissions_for_runtime. rewrite Ha. cbn [negb]. cbv zeta.
  rewrite !j_get_set_ne by done. rewrite Ht. cbn [levels_json]. by rewrite j_get_set_eq.
Qed.

Lemma auto_layer_level c lv n :
  is_auto_permission_mode c = true → j_get c "tools" = levels_json lv →
  od_get (named_levels (auto_layer c) false) n =
  entry_level n <$> od_get (normalize_tools_for_auto_mode (map (λ kl, (kl.1, JStr (level_name kl.2))) lv)) n.
Proof.
  intros Ha Ht. rewrite named_level, !auto_layer_lists by (apply (bool_decide_unpack _); vm_compute; exact I).
  unfold tool_level. rewrite (auto_layer_tools c lv Ha Ht). apply plain_named, plain_normalized.
Qed.

Lemma auto_layer_asks c lv n :
  is_auto_permission_mode c = true → j_get c "tools" = levels_json lv →
  tool_requires_ask_in_auto n = true → od_get (named_levels (auto_layer c) false) n ≠ Some allow.
Proof.
  intros Ha Ht Hn. rewrite (auto_layer_level c lv n Ha Ht).
  destruct (od_get _ n) as [e|]; [|done]. simpl. intros [= E]. by apply (entry_level_asked n e).
Qed.

(** ** What the package may do *)

Section outcome.
Context (builtin_rules : option (jdict → option bool)).
Context (inline_rules merge_paths merge_urls : jdict → option jdict).

(** The package adds its command rules to [rules], its sensitive paths to
    [file_guard], its patterns to [net_guard], and leaves the other fields alone. *)
Hypothesis inline_keeps : ∀ d d' k, inline_rules d = Some d' → k ≠ "rules" → j_get d' k = j_get d k.
Hypothesis paths_keeps : ∀ d d' k, merge_paths d = Some d' → k ≠ "file_guard" → j_get d' k = j_get d k.
Hypothesis urls_keeps : ∀ d d' k, merge_urls d = Some d' → k ≠ "net_guard" → j_get d' k = j_get d k.

Lemma compose_over_fields g user session out k :
  compose_over builtin_rules inline_rules merge_paths merge_urls g user session = Some out →
  k ∉ ["rules"; "file_guard"; "net_guard"] →
  ∃ b, package_builtin_rules_enabled builtin_rules g = Some b ∧
       j_get out k = j_get (host_permissions g (dict_or_empty user) (session_layer session) b) k.
Proof.
  unfold compose_over. intros H Hk. rewrite !not_elem_of_cons in Hk. destruct Hk as (H1 & H2 & H3 & _).
  destruct (package_builtin_rules_enabled builtin_rules g) as [b|]; simpl in H; [|done]. exists b. split; [done|].
  destruct b; simpl in H; [|by injection H as <-].
  destruct (inline_rules _) as [o1|] eqn:E1; simpl in H; [|done].
  destruct (merge_paths o1) as [o2|] eqn:E2; simpl in H; [|done].
  by rewrite (urls_keeps _ _ _ H H3), (paths_keeps _ _ _ E2 H2), (inline_keeps _ _ _ E1 H1).
Qed.

(** Whatever the package does to the rules and the guards: the permissions are
    enforced exactly when the global layer says so, no other layer and no failure
    changes that; and when the package fails no tool has a level of its own, so
    that every call is asked for. *)
Theorem only_global_enables global user session :
  let g := dict_or_empty global in
  let out := compose_host_effective_permissions builtin_rules inline_rules merge_paths merge_urls
               global user session in
  j_truth (j_get out "enabled") = j_truth (j_get g "enabled") ∧
  (package_builtin_rules_enabled builtin_rules g = Some true →
   (∀ d, inline_rules d = None) ∨ (∀ d, merge_paths d = None) ∨ (∀ d, merge_urls d = None) →
   out = fail_closed (j_truth (j_get g "enabled")) ∧ ∀ n, od_get (effective_levels out [] []) n = None).
Proof.
  cbv zeta. set (g := dict_or_empty global).
  unfold compose_host_effective_permissions, or_fail_closed. fold g. split.
  - destruct (compose_over _ _ _ _ g user session) as [out|] eqn:E; simpl; [|by destruct (j_truth _)].
    destruct (compose_over_fields _ _ _ _ "enabled" E) as (b & _ & ->); [by apply (bool_decide_unpack _); vm_compute|].
    rewrite (proj1 (host_fixed_fields _ _ _ _)). unfold od_mem, j_get. by destruct (od_get g "enabled").
  - intros Hb Hfail.
    assert (compose_over builtin_rules inline_rules merge_paths merge_urls g user session = None) as ->.
    { unfold compose_over. rewrite Hb. simpl. destruct Hfail as [H|[H|H]]; [by rewrite H|..];
        (destruct (inline_rules _) as [o1|]; simpl; [|done]); [by rewrite H|].
      destruct (merge_paths o1); simpl; [by rewrite H|done]. }
    split; [done|]. intros n. rewrite effective_level, named_level. by destruct (j_truth _).
Qed.

Lemma written_level g user session out n :
  compose_over builtin_rules inline_rules merge_paths merge_urls g user session = Some out →
  j_get (dict_or_empty (j_get out "tools")) n =
  match od_get (effective_levels g (dict_or_empty user) (session_layer session)) n with
  | Some l => JStr (level_name l) | None => JNull end.
Proof.
  intros E. destruct (compose_over_fields _ _ _ _ "tools" E) as (b & _ & ->); [by apply (bool_decide_unpack _); vm_compute|].
  by rewrite (proj1 (host_levels _ _ _ _)), levels_json_get.
Qed.

Lemma auto_base_asks global n :
  is_auto_permission_mode (dict_or_empty global) = true → tool_requires_ask_in_auto n = true →
  od_get (named_levels (auto_layer (compose_host_effective_permissions builtin_rules inline_rules merge_paths merge_urls
                                      (JObj (dict_or_empty global)) JNull JNull)) false) n ≠ Some allow.
Proof.
  intros Ha Hn. unfold compose_host_effective_permissions, or_fail_closed. cbn [dict_or_empty as_dict default].
  change (id (dict_or_empty global)) with (dict_or_empty global). set (g := dict_or_empty global) in *.
  destruct (compose_over _ _ _ _ g JNull JNull) as [c|] eqn:E; cbn [default].
  - change (id c) with c.
    destruct (compose_over_fields _ _ _ _ "tools" E) as (b & _ & Ht); [by apply (bool_decide_unpack _); vm_compute|].
    destruct (compose_over_fields _ _ _ _ "mode" E) as (b' & _ & Hm); [by apply (bool_decide_unpack _); vm_compute|].
    rewrite host_other_fields in Hm by (apply (bool_decide_unpack _); vm_compute; exact I).
    rewrite (proj1 (host_levels _ _ _ _)) in Ht.
    eapply auto_layer_asks; [|exact Ht|exact Hn].
    revert Ha. unfold is_auto_permission_mode, runtime_mode. by rewrite Hm.
  - rewrite named_level, !auto_layer_lists by (apply (bool_decide_unpack _); vm_compute; exact I).
    by destruct (j_truth (j_get g "enabled")).
Qed.

(** C28: In the automatic mode a tool that must be asked about is written as allowed
    only if the user's or the session's own layer allows it and neither the
    normalised global layer nor the user's denies it; nothing in the global layer,
    under any name of the tool, can allow it. *)
Theorem auto_mode_asks global user session n :
  is_auto_permission_mode (dict_or_empty global) = true → tool_requires_ask_in_auto n = true →
  let out := compose_auto_permissions builtin_rules inline_rules merge_paths merge_urls global user session in
  j_get (dict_or_empty (j_get out "tools")) n = JStr "allow" →
  od_get (named_levels (dict_or_empty user) false) n ≠ Some deny ∧
  (od_get (named_levels (dict_or_empty user) false) n = Some allow ∨
   od_get (named_levels (session_layer session) true) n = Some allow).
Proof.
  intros Ha Hn. cbv zeta. pose proof (auto_base_asks global n Ha Hn) as Hbase. unfold compose_auto_permissions.
  set (a := auto_layer _) in *.
  destruct (compose_over _ _ _ _ a user session) as [out|] eqn:E; cbn [or_fail_closed default].
  - change (id out) with out. rewrite (written_level _ _ _ _ n E), effective_level.
    destruct (od_get (named_levels a false) n) as [[]|], (od_get (named_levels (dict_or_empty user) false) n) as [[]|],
      (od_get (named_levels (session_layer session) true) n) as [[]|]; vm_compute; naive_solver.
  - by destruct (j_truth _).
Qed.

End outcome.

Lemma only_global_enables_witness :
  let c := compose_host_effective_permissions None Some (λ _, None) Some
             (JObj [("enabled", JBool true)]) (JObj [("enabled", JBool false)]) JNull in
  j_truth (j_get c "enabled") = true ∧ c = fail_closed true.
Proof.
  cbv zeta.
  destruct (only_global_enables None Some (λ _, None) Some (ltac:(by intros d d' k [= ->]))
    (ltac:(by intros d d' k [=])) (ltac:(by intros d d' k [= ->]))
    (JObj [("enabled", JBool true)]) (JObj [("enabled", JBool false)]) JNull) as [H1 H2].
  split; [exact H1|]. exact (proj1 (H2 eq_refl (or_intror (or_introl (λ _, eq_refl))))).
Defined.

Lemma auto_mode_asks_witness :
  let global := JObj [("mode", JStr "auto"); ("tools", JObj [("bash", JStr "allow")]); ("allow_tools", JList [JStr "code"])] in
  let user := JObj [("allow_tools", JList [JStr "code"])] in
  let out := compose_auto_permissions None Some Some Some global user JNull in
  j_get out "tools" = JObj [("bash", JStr "ask"); ("code", JStr "allow")] ∧
  od_get (named_levels (dict_or_empty user) false) "code" ≠ Some deny ∧
  (od_get (named_levels (dict_or_empty user) false) "code" = Some allow ∨
   od_get (named_levels (session_layer JNull) true) "code" = Some allow).
Proof.
  cbv zeta. split; [vm_compute; reflexivity|].
  apply (auto_mode_asks None Some Some Some (ltac:(by intros d d' k [= ->])) (ltac:(by intros d d' k [= ->]))
    (ltac:(by intros d d' k [= ->])) (JObj [("mode", JStr "auto"); ("tools", JObj [("bash", JStr "allow")]);
      ("allow_tools", JList [JStr "code"])]) (JObj [("allow_tools", JList [JStr "code"])]) JNull "code");
    vm_compute; reflexivity.
Defined.
