(* ===== verification/WarmPool.v ===== *)
(** * The pool of parked sandboxes

    Source: [jiuwenbox/src/jiuwenbox/server/runtime/warm_pool.py], with the fields of
    [jiuwenbox/models/policy.py] that it compares.  Not modelled: [_MountClient]
    and [mount_specs] (pipes to a helper, and the binds of [BwrapConfig]).

    [Pool] is [WarmPool]; its methods run in threads of their own.  A section under
    [_state_lock] is one step, and so is each call of the runtime that starts or
    destroys a sandbox: whether such a call raises is left open.  A sandbox is named
    by the id that [spawn_warm_slot] makes ([boot] holds the policy it was started
    from), and the lists [stale], [stopping], [handed], [gone] and [leaked] say where the
    sandboxes that are no longer parked have gone.

    The policy's fields that the pool neither reads nor compares are [Rest];
    [interpreter_binds] is [FilesystemPolicy(bind_mounts=binds)] for the directories
    of the host. *)

From S2P Require Import Prelude PyJson.

(** ** Policies *)

Inductive compatibility := disabled | best_effort | hard_requirement.
#[export] Instance compatibility_eq : EqDecision compatibility.
Proof. solve_decision. Defined.

Record NamespacePolicy := { ns_user : bool; ns_pid : bool; ns_ipc : bool; ns_cgroup : bool; ns_uts : bool }.
#[export] Instance NamespacePolicy_eq : EqDecision NamespacePolicy.
Proof. solve_decision. Defined.

Record CapabilityPolicy := { cap_add : list string; cap_drop : list string }.
#[export] Instance CapabilityPolicy_eq : EqDecision CapabilityPolicy.
Proof. solve_decision. Defined.

Record SyscallPolicy := { x86_64_blocked : list string; arm64_blocked : list string }.
#[export] Instance SyscallPolicy_eq : EqDecision SyscallPolicy.
Proof. solve_decision. Defined.

Inductive NetworkMode := ISOLATED | HOST.
#[export] Instance NetworkMode_eq : EqDecision NetworkMode.
Proof. solve_decision. Defined.

(** [NetworkRulePolicy]; [rule_allow] is [default == "allow"] *)
Record NetworkRulePolicy := {
  rule_allow : bool;
  allowed_domains : list string; blocked_domains : list string;
  allowed_ips : list string; blocked_ips : list string;
  allowed_ports : list Z; blocked_ports : list Z;
}.
#[export] Instance NetworkRulePolicy_eq : EqDecision NetworkRulePolicy.
Proof. solve_decision. Defined.

Record NetworkUplinkPolicy := { subnet : string; nat_ : bool; interface : string }.
#[export] Instance NetworkUplinkPolicy_eq : EqDecision NetworkUplinkPolicy.
Proof. solve_decision. Defined.

Record NetworkPolicy := {
  mode : NetworkMode; uplink : NetworkUplinkPolicy; egress : NetworkRulePolicy; ingress : NetworkRulePolicy;
}.
#[export] Instance NetworkPolicy_eq : EqDecision NetworkPolicy.
Proof. solve_decision. Defined.

Record CgroupPolicy := { memory_max : option Z; cpu_max : option (Z * Z); pids_max : option Z }.
#[export] Instance CgroupPolicy_eq : EqDecision CgroupPolicy.
Proof. solve_decision. Defined.

Record ProcessPolicy := { run_as_user : string; run_as_group : string }.

(** [warm_pool_size], from the environment variable *)
Definition DEFAULT_WARM_POOL_SIZE : Z := 4.
Definition warm_pool_size (raw : option string) : Z :=
  match raw with
  | None => DEFAULT_WARM_POOL_SIZE
  | Some raw =>
      if negb (str_true (py_strip raw)) then DEFAULT_WARM_POOL_SIZE
      else match parse_int raw with Some n => Z.max 0 n | None => 0%Z end
  end.

Section pool.
Context {Filesystem Rest : Type} (interpreter_binds : Filesystem).

Record SecurityPolicy := {
  namespace : NamespacePolicy;
  capabilities : CapabilityPolicy;
  landlock : compatibility;
  syscall : SyscallPolicy;
  network : NetworkPolicy;
  cgroup : CgroupPolicy;
  filesystem_policy : Filesystem;
  process : ProcessPolicy;
  rest : Rest;
}.

Definition warm_pool_compatible (template request : SecurityPolicy) : bool :=
  if bool_decide (landlock request = disabled) then false
  else if negb (bool_decide (landlock request = landlock template)) then false
  else bool_decide (network request = network template) && bool_decide (cgroup request = cgroup template)
       && bool_decide (namespace request = namespace template) && bool_decide (syscall request = syscall template).

Definition boot_policy (template : SecurityPolicy) : SecurityPolicy :=
  {| namespace := namespace template; capabilities := capabilities template; landlock := landlock template;
     syscall := syscall template; network := network template; cgroup := cgroup template;
     filesystem_policy := interpreter_binds; process := {| run_as_user := "0"; run_as_group := "0" |};
     rest := rest template |}.

(** ** State *)

Abbreviation slot := nat (only parsing).

(** Where the filler thread is: at the loop's test; before the locked look at the
    queue; waiting; starting a sandbox; about to queue it; about to destroy it; past the
    loop; ended by an exception *)
Inductive filler_point :=
| Top
| Look
| Waiting
| Spawning (template : SecurityPolicy) (seen_epoch : Z)
| Putting (s : slot) (seen_epoch : Z)
| Discarding (s : slot)
| Finished
| Died.

(** How far [stop] is: not called; the event is set; the epoch is raised; drained *)
Inductive stop_point := Running | StopSet | StopBumped | StopDrained.

Record Pool := mk_pool {
  template : SecurityPolicy;
  pool_size : Z;
  epoch : Z;
  slots : list slot;
  stopped : bool;
  filler : filler_point;
  stop_at : stop_point;
  boot : gmap slot SecurityPolicy;
  stale : list slot;
  stopping : list slot;
  handed : list (slot * SecurityPolicy);
  gone : list slot;
  leaked : list slot;
}.

Definition with_slots l p := mk_pool (template p) (pool_size p) (epoch p) l (stopped p) (filler p) (stop_at p)
  (boot p) (stale p) (stopping p) (handed p) (gone p) (leaked p).
Definition with_filler f p := mk_pool (template p) (pool_size p) (epoch p) (slots p) (stopped p) f (stop_at p)
  (boot p) (stale p) (stopping p) (handed p) (gone p) (leaked p).
Definition with_template t e l st p := mk_pool t (pool_size p) e l (stopped p) (filler p) (stop_at p)
  (boot p) st (stopping p) (handed p) (gone p) (leaked p).
Definition with_boot b p := mk_pool (template p) (pool_size p) (epoch p) (slots p) (stopped p) (filler p) (stop_at p)
  b (stale p) (stopping p) (handed p) (gone p) (leaked p).
Definition with_handed h p := mk_pool (template p) (pool_size p) (epoch p) (slots p) (stopped p) (filler p) (stop_at p)
  (boot p) (stale p) (stopping p) h (gone p) (leaked p).
Definition with_stale st g p := mk_pool (template p) (pool_size p) (epoch p) (slots p) (stopped p) (filler p) (stop_at p)
  (boot p) st (stopping p) (handed p) g (leaked p).
Definition with_stop s a e p := mk_pool (template p) (pool_size p) e (slots p) s (filler p) a
  (boot p) (stale p) (stopping p) (handed p) (gone p) (leaked p).
Definition with_stopping l st g k p := mk_pool (template p) (pool_size p) (epoch p) l (stopped p) (filler p) (stop_at p)
  (boot p) (stale p) st (handed p) g k.

(** [WarmPool(runtime, template, size)] *)
Definition pool_init (t : SecurityPolicy) (size : Z) : Pool :=
  mk_pool t size 0 [] false Top Running ∅ [] [] [] [] [].

(** ** Methods *)

(** [acquire]; a sandbox that is claimed is recorded with the policy it is to serve. *)
Definition acquire (policy : SecurityPolicy) (p : Pool) : (bool * option slot) * Pool :=
  if negb (warm_pool_compatible (template p) policy) then ((false, None), p)
  else match slots p with
       | s :: l => ((true, Some s), with_handed ((s, policy) :: handed p) (with_slots l p))
       | [] => ((true, None), p)
       end.

(** [replace_template], the section under the lock; the sandboxes it drains are
    destroyed afterwards. *)
Definition replace_template (t : SecurityPolicy) (p : Pool) : Pool :=
  if warm_pool_compatible (template p) t then with_template t (epoch p) (slots p) (stale p) p
  else with_template t (epoch p + 1) [] (stale p ++ slots p) p.

(** One of them is destroyed, or fails to be and is logged. *)
Definition discard_stale (s : slot) (p : Pool) : Pool :=
  with_stale (filter (λ s', s' ≠ s) (stale p)) (s :: gone p) p.

(** [stop]: the event, the epoch, the drained queue *)
Definition stop_set (p : Pool) : Pool := with_stop true StopSet (epoch p) p.
Definition stop_bump (p : Pool) : Pool := with_stop (stopped p) StopBumped (epoch p + 1) p.
Definition stop_drain (p : Pool) : Pool :=
  with_stop (stopped p) StopDrained (epoch p) (with_stopping [] (stopping p ++ slots p) (gone p) (leaked p) p).

(** [stop] destroys the next sandbox; if that raises, the others are forgotten. *)
Definition stop_destroy (ok : bool) (p : Pool) : Pool :=
  match stopping p with
  | [] => p
  | s :: l => if ok then with_stopping (slots p) l (s :: gone p) (leaked p) p
              else with_stopping (slots p) [] (s :: gone p) (l ++ leaked p) p
  end.

(** [_fill_loop], from one step to the next.  [made] is the sandbox that
    [spawn_warm_slot] starts, or [None] when it raises; [ok] is whether
    [destroy_warm_slot] returns. *)
Definition fill_step (made : option slot) (ok : bool) (p : Pool) : Pool :=
  match filler p with
  | Top => with_filler (if stopped p then Finished else Look) p
  | Look =>
      if (pool_size p <=? Z.of_nat (length (slots p)))%Z then with_filler Waiting p
      else with_filler (Spawning (template p) (epoch p)) p
  | Waiting => with_filler Top p
  | Spawning t e =>
      match made with
      | Some s => with_filler (Putting s e) (with_boot (<[s := boot_policy t]> (boot p)) p)
      | None => with_filler Waiting p
      end
  | Putting s e =>
      if stopped p || negb (Z.eqb e (epoch p)) then with_filler (Discarding s) p
      else with_filler Top (with_slots (slots p ++ [s]) p)
  | Discarding s =>
      with_filler (if ok then (if stopped p then Finished else Top) else Died)
        (with_stale (stale p) (s :: gone p) p)
  | Finished | Died => p
  end.

(** The threads, interleaved; a sandbox that is started has an id of its own. *)
Inductive pool_step (p : Pool) : Pool → Prop :=
| ps_fill made ok : (∀ s, made = Some s → boot p !! s = None) → pool_step p (fill_step made ok p)
| ps_acquire policy : pool_step p (acquire policy p).2
| ps_replace t : pool_step p (replace_template t p)
| ps_discard s : s ∈ stale p → pool_step p (discard_stale s p)
| ps_stop_set : stop_at p = Running → pool_step p (stop_set p)
| ps_stop_bump : stop_at p = StopSet → pool_step p (stop_bump p)
| ps_stop_drain : stop_at p = StopBumped → pool_step p (stop_drain p)
| ps_stop_destroy ok : pool_step p (stop_destroy ok p).

(** ** Invariant *)

(** What the pool compares *)
Definition same_host (a b : SecurityPolicy) : Prop :=
  network a = network b ∧ cgroup a = cgroup b ∧ namespace a = namespace b ∧ syscall a = syscall b ∧
  landlock a = landlock b.

Lemma compatible_spec t r : warm_pool_compatible t r = true ↔ landlock r ≠ disabled ∧ same_host t r.
Proof.
  unfold warm_pool_compatible, same_host.
  repeat case_bool_decide; simpl; split; intros; destruct_and?; try done; split_and?; congruence.
Qed.

#[local] Instance same_host_equivalence : Equivalence same_host.
Proof.
  unfold same_host. split; [done|by intros a b (?&?&?&?&?)|].
  intros a b c (?&?&?&?&?) (?&?&?&?&?). split_and!; congruence.
Qed.

Definition held (f : filler_point) : list slot :=
  match f with Putting s _ | Discarding s => [s] | _ => [] end.

(** Where every sandbox is *)
Definition places (p : Pool) : list slot :=
  slots p ++ held (filler p) ++ stale p ++ stopping p ++ (handed p).*1 ++ gone p ++ leaked p.

(** The room the filler has seen *)
Definition reserved (f : filler_point) : Z := match f with Spawning _ _ | Putting _ _ => 1 | _ => 0 end.

(** What the filler knows: as long as the epoch it has seen is the current one, the
    template has not changed in what is compared. *)
Definition filler_ok (p : Pool) : Prop :=
  match filler p with
  | Spawning t e => (e ≤ epoch p)%Z ∧ (e = epoch p → same_host t (template p))
  | Putting s e => (e ≤ epoch p)%Z ∧ ∃ b, boot p !! s = Some b ∧ (e = epoch p → same_host b (template p))
  | _ => True
  end.

Record pool_ok (p : Pool) : Prop := mk_pool_ok {
  pk_nodup : NoDup (places p);
  pk_places : ∀ s, s ∈ places p ↔ is_Some (boot p !! s);
  pk_bound : (Z.of_nat (length (slots p)) + reserved (filler p) ≤ Z.max 0 (pool_size p))%Z;
  pk_parked : ∀ s, s ∈ slots p → ∃ b, boot p !! s = Some b ∧ same_host b (template p);
  pk_filler : filler_ok p;
  pk_handed : ∀ s policy, (s, policy) ∈ handed p →
    ∃ b, boot p !! s = Some b ∧ same_host b policy ∧ landlock policy ≠ disabled;
  pk_stop : (stopped p = false ↔ stop_at p = Running) ∧ (stop_at p = StopDrained → slots p = []);
}.

Lemma places_kept p p' :
  boot p' = boot p → places p' ≡ₚ places p → pool_ok p →
  NoDup (places p') ∧ ∀ s, s ∈ places p' ↔ is_Some (boot p' !! s).
Proof.
  intros -> HP []. split; [by rewrite HP|]. intros s. rewrite <- pk_places0. by rewrite HP.
Qed.

Lemma NoDup_take_out (s : slot) l : NoDup l → s ∈ l → s :: filter (λ s', s' ≠ s) l ≡ₚ l.
Proof.
  intros Hn Hs. apply NoDup_Permutation; [|done|].
  - constructor; [rewrite list_elem_of_filter; naive_solver|by apply NoDup_filter].
  - intros x. rewrite elem_of_cons, list_elem_of_filter. destruct (decide (x = s)) as [->|]; naive_solver.
Qed.

#[local] Ltac same_places :=
  unfold places; csimpl; apply (Permutation_count_occ Nat.eq_dec); intros ?;
  repeat first [rewrite count_occ_app | rewrite fmap_cons | progress cbn [count_occ app fst held]];
  repeat case_match; lia.

Lemma pool_init_ok t size : pool_ok (pool_init t size).
Proof.
  split; simpl; try done.
  - constructor.
  - intros s. rewrite lookup_empty. split; [by intros ?%elem_of_nil|by intros [??]].
  - lia.
  - by intros s ?%elem_of_nil.
  - by intros s q ?%elem_of_nil.
Qed.

(** *** Steps *)

Lemma pool_ok_acquire policy p : pool_ok p → pool_ok (acquire policy p).2.
Proof.
  intros Hp. unfold acquire. destruct (warm_pool_compatible _ _) eqn:HC; [simpl|done].
  destruct (slots p) as [|s l] eqn:HS; [done|]. simpl.
  apply compatible_spec in HC as [Hl HC].
  edestruct (places_kept p (with_handed ((s, policy) :: handed p) (with_slots l p))) as [H1 H2]; [done| |done|].
  { unfold places; csimpl. rewrite HS. same_places. }
  destruct Hp. rewrite HS in *. split; simpl in *; try done.
  - intros; lia.
  - intros; apply pk_parked0. set_solver.
  - intros s' q [[= -> ->]|]%elem_of_cons; [|naive_solver].
    destruct (pk_parked0 s ltac:(left)) as (b & ? & Hb). exists b. split_and!; try done. by etrans.
  - naive_solver.
Qed.

Lemma pool_ok_replace t p : pool_ok p → pool_ok (replace_template t p).
Proof.
  intros Hp. unfold replace_template. destruct (warm_pool_compatible _ _) eqn:HC.
  - apply compatible_spec in HC as [_ HC]. destruct Hp. split; simpl; try done.
    + intros s Hs. destruct (pk_parked0 s Hs) as (b & ? & ?). exists b. split; [done|by etrans].
    + unfold filler_ok in *; simpl. destruct (filler p); try done.
      * destruct pk_filler0. split; [done|]. intros; etrans; eauto.
      * destruct pk_filler0 as (?&b&?&?). split; [done|]. exists b. split; [done|]. intros; etrans; eauto.
  - edestruct (places_kept p (with_template t (epoch p + 1) [] (stale p ++ slots p) p)) as [H1 H2]; [done| |done|].
    { same_places. }
    destruct Hp. split; simpl; try done.
    + lia.
    + by intros s ?%elem_of_nil.
    + unfold filler_ok in *; simpl. destruct (filler p); try done.
      * split; [lia|intros; lia].
      * destruct pk_filler0 as (?&b&?&?). split; [lia|]. exists b. split; [done|lia].
    + by split; [apply pk_stop0|].
Qed.

Lemma pool_ok_discard s p : s ∈ stale p → pool_ok p → pool_ok (discard_stale s p).
Proof.
  intros Hs Hp. edestruct (places_kept p (discard_stale s p)) as [H1 H2]; [done| |done|].
  { unfold places; simpl. assert (Hn : NoDup (stale p)).
    { destruct Hp as [Hn _ _ _ _ _ _]. unfold places in Hn.
      by apply NoDup_app in Hn as (_&_&Hn); apply NoDup_app in Hn as (_&_&Hn); apply NoDup_app in Hn as (?&_). }
    pose proof (NoDup_take_out s (stale p) Hn Hs) as HT.
    rewrite <- HT at 2. same_places. }
  destruct Hp. by split.
Qed.

Lemma pool_ok_stop p :
  pool_ok p →
  (stop_at p = Running → pool_ok (stop_set p)) ∧ (stop_at p = StopSet → pool_ok (stop_bump p)) ∧
  (stop_at p = StopBumped → pool_ok (stop_drain p)).
Proof.
  intros Hp. split_and!; intros Ha.
  - destruct Hp. split; try done.
  - destruct Hp. split; simpl in *; try done.
    + unfold filler_ok in *; simpl. destruct (filler p); try done; [naive_solver lia|].
      destruct pk_filler0 as (?&b&?&?). split; [lia|]. exists b. split; [done|lia].
    + rewrite Ha in pk_stop0. destruct (stopped p); naive_solver.
  - edestruct (places_kept p (stop_drain p)) as [H1 H2]; [done| |done|].
    { same_places. }
    destruct Hp. split; simpl in *; try done.
    + lia.
    + by intros s ?%elem_of_nil.
    + rewrite Ha in pk_stop0. destruct (stopped p); naive_solver.
Qed.

Lemma pool_ok_stop_destroy ok p : pool_ok p → pool_ok (stop_destroy ok p).
Proof.
  intros Hp. unfold stop_destroy. destruct (stopping p) as [|s l] eqn:HS; [done|].
  edestruct (places_kept p (stop_destroy ok p)) as [H1 H2]; [| |done|].
  { unfold stop_destroy. rewrite HS. by destruct ok. }
  { unfold stop_destroy, places. rewrite HS. destruct ok; same_places. }
  unfold stop_destroy in H1, H2. rewrite HS in H1, H2. destruct Hp. destruct ok; by split.
Qed.

Lemma pool_ok_spawned t e s p :
  filler p = Spawning t e → boot p !! s = None → pool_ok p →
  pool_ok (with_filler (Putting s e) (with_boot (<[s := boot_policy t]> (boot p)) p)).
Proof.
  intros Hf Hs [].
  assert (HP : places (with_filler (Putting s e) (with_boot (<[s := boot_policy t]> (boot p)) p)) ≡ₚ s :: places p).
  { unfold places; simpl. rewrite Hf. same_places. }
  assert (Hnew : ∀ s' b, boot p !! s' = Some b → <[s := boot_policy t]> (boot p) !! s' = Some b).
  { intros s' b Hb. rewrite lookup_insert_ne; [done|congruence]. }
  split; simpl; try done.
  - rewrite HP. constructor; [|done]. rewrite pk_places0, Hs. by intros [??].
  - intros s'. rewrite HP, elem_of_cons, pk_places0. destruct (decide (s' = s)) as [->|].
    + rewrite lookup_insert_eq. naive_solver.
    + rewrite lookup_insert_ne by done. naive_solver.
  - by rewrite Hf in pk_bound0.
  - intros s' Hs'. destruct (pk_parked0 _ Hs') as (b & ? & ?). eauto.
  - unfold filler_ok in *; simpl. rewrite Hf in pk_filler0. destruct pk_filler0 as [? He].
    split; [done|]. exists (boot_policy t). rewrite lookup_insert_eq. split; [done|]. intros H'. by apply He.
  - intros s' q Hq. destruct (pk_handed0 _ _ Hq) as (b & ? & ?). eauto.
Qed.

Lemma pool_ok_refile f p :
  held f = held (filler p) → (Z.of_nat (length (slots p)) + reserved f ≤ Z.max 0 (pool_size p))%Z →
  (filler_ok (with_filler f p)) → pool_ok p → pool_ok (with_filler f p).
Proof.
  intros Hh Hr Hf []. split; simpl; try done; unfold places; simpl; by rewrite Hh.
Qed.

Lemma pool_ok_fill made ok p :
  (∀ s, made = Some s → boot p !! s = None) → pool_ok p → pool_ok (fill_step made ok p).
Proof.
  intros Hm Hp. unfold fill_step. pose proof (pk_bound _ Hp) as Hb. pose proof (pk_filler _ Hp) as Hk.
  unfold filler_ok in Hk. destruct (filler p) as [| | |t e|s e|s| |] eqn:Hf; simpl in *; try done.
  - apply pool_ok_refile; [rewrite Hf; by case_match|case_match; simpl; lia|by case_match|done].
  - case_match eqn:Hle; apply pool_ok_refile; rewrite ?Hf; simpl; try done.
    + intros; apply Z.leb_gt in Hle; lia.
  - apply pool_ok_refile; rewrite ?Hf; done.
  - destruct made as [s|]; [by apply pool_ok_spawned; auto|].
    apply pool_ok_refile; rewrite ?Hf; simpl; try done. intros; lia.
  - destruct (_ || _) eqn:Ho; [apply pool_ok_refile; rewrite ?Hf; simpl; try done; intros; lia|].
    apply orb_false_iff in Ho as [Ho He]. apply negb_false_iff, Z.eqb_eq in He as ->.
    edestruct (places_kept p (with_filler Top (with_slots (slots p ++ [s]) p))) as [H1 H2]; [done| |done|].
    { unfold places; simpl. rewrite Hf. same_places. }
    destruct Hp. destruct Hk as (_&b&Hb1&Hb2). split; simpl; try done.
    + rewrite length_app; simpl. intros; lia.
    + intros s' [Hs'|Hs']%elem_of_app; [by apply pk_parked0|]. apply list_elem_of_singleton in Hs' as ->. exists b. auto.
    + naive_solver congruence.
  - edestruct (places_kept p (with_filler (if ok then (if stopped p then Finished else Top) else Died)
        (with_stale (stale p) (s :: gone p) p))) as [H1 H2]; [done| |done|].
    { unfold places; simpl. rewrite Hf. destruct ok, (stopped p); same_places. }
    destruct Hp. split; simpl; try done; destruct ok, (stopped p); simpl; try done; intros; lia.
Qed.

Lemma pool_step_ok p p' : pool_step p p' → pool_ok p → pool_ok p'.
Proof.
  intros [] Hp; [by apply pool_ok_fill|by apply pool_ok_acquire|by apply pool_ok_replace|by apply pool_ok_discard| | | |
                 by apply pool_ok_stop_destroy]; by apply pool_ok_stop.
Qed.

Lemma pool_reachable_ok t size p : rtc pool_step (pool_init t size) p → pool_ok p.
Proof.
  intros H. assert (G : ∀ q, rtc pool_step q p → pool_ok q → pool_ok p).
  { induction 1; eauto using pool_step_ok. }
  eauto using pool_init_ok.
Qed.

Lemma pool_size_kept p p' : rtc pool_step p p' → pool_size p' = pool_size p.
Proof.
  induction 1 as [|p q r Hs _ IH]; [done|]. rewrite IH. destruct Hs; try done.
  - unfold fill_step. by repeat case_match.
  - unfold acquire. by repeat case_match.
  - unfold replace_template. by case_match.
  - unfold stop_destroy. by repeat case_match.
Qed.

(** ** Theorems *)

(** however its threads interleave, every sandbox the pool has started is in exactly
    one place (parked, in the filler's hands, being discarded, handed out, destroyed or
    forgotten by a failed [stop]), no more than the configured number are parked, and the
    parked ones were started under a policy that agrees with the template on what the pool
    compares. *)
Theorem pool_invariant t size p :
  rtc pool_step (pool_init t size) p →
  NoDup (places p) ∧ (∀ s, s ∈ places p ↔ is_Some (boot p !! s)) ∧
  (Z.of_nat (length (slots p)) ≤ Z.max 0 size)%Z ∧
  (∀ s, s ∈ slots p → ∃ b, boot p !! s = Some b ∧ same_host b (template p)).
Proof.
  intros Hr. pose proof (pool_size_kept _ _ Hr) as Hz. simpl in Hz.
  apply pool_reachable_ok in Hr as []. rewrite Hz in *. split_and!; try done.
  destruct (filler p); simpl in *; lia.
Qed.

(** a sandbox that [acquire] hands to a request was started under a policy with the
    request's network, cgroup, namespace, syscall and Landlock settings, Landlock is not
    disabled in them, and it is handed to this request only. *)
Theorem checkout_compatible t size p policy s p' :
  rtc pool_step (pool_init t size) p → acquire policy p = ((true, Some s), p') →
  (∃ b, boot p' !! s = Some b ∧ same_host b policy ∧ landlock policy ≠ disabled) ∧
  handed p' = (s, policy) :: handed p ∧ (s ∉ slots p') ∧ (s ∉ (handed p).*1) ∧ (s ∉ gone p').
Proof.
  intros Hr Ha. pose proof (pool_reachable_ok _ _ _ Hr) as Hp.
  assert (pool_ok p') as Hp' by (pose proof (pool_ok_acquire policy p Hp) as G; by rewrite Ha in G).
  unfold acquire in Ha. case_match; [done|]. destruct (slots p) as [|s' l] eqn:HS; [done|].
  injection Ha as -> <-. simpl in *. split; [|split; [done|]].
  - destruct Hp'. apply pk_handed0. left.
  - destruct Hp as [Hn _ _ _ _ _ _]. unfold places in Hn. rewrite HS in Hn. simpl in Hn.
    apply NoDup_cons in Hn as [Hn _]. rewrite !elem_of_app in Hn. naive_solver.
Qed.

(** After [stop] has drained the queue *)
Lemma drained_step p p' :
  pool_step p p' → pool_ok p → stop_at p = StopDrained →
  stop_at p' = StopDrained ∧ handed p' = handed p ∧ (∀ s, s ∈ stopping p' → s ∈ stopping p).
Proof.
  intros Hs Hp Ha. pose proof (pk_stop _ Hp) as [_ Hd]. specialize (Hd Ha). destruct Hs; try congruence; try done.
  - unfold fill_step. by repeat case_match.
  - unfold acquire. rewrite Hd. by case_match.
  - unfold replace_template. by case_match.
  - unfold stop_destroy. destruct (stopping p) eqn:HS; [by rewrite HS|].
    destruct ok; simpl; split_and!; try done; intros s' Hs'; [by right|by apply elem_of_nil in Hs'].
Qed.

(** once [stop] has drained the queue, nothing is parked or handed out any more, whatever
    the filler, requests and changes of the template do next. *)
Theorem stopped_pool_empty t size p p' policy :
  rtc pool_step (pool_init t size) p → stop_at p = StopDrained → rtc pool_step p p' →
  slots p' = [] ∧ handed p' = handed p ∧ (acquire policy p').1.2 = None.
Proof.
  intros Hr Ha Hs. apply pool_reachable_ok in Hr.
  assert (pool_ok p' ∧ stop_at p' = StopDrained ∧ handed p' = handed p) as (Hp'&Ha'&Hh).
  { induction Hs as [|p q r Hq _ IH]; [done|]. pose proof (drained_step _ _ Hq Hr Ha) as (?&Hh&_).
    rewrite <- Hh. apply IH; [by eapply pool_step_ok|done]. }
  destruct (pk_stop _ Hp') as [_ He]. specialize (He Ha'). split_and!; [done|done|].
  unfold acquire. rewrite He. by case_match.
Qed.

(** the capabilities of the request are not among what is compared: a request that
    agrees with the template otherwise is handed a sandbox that was started with the
    template's capabilities. *)
Theorem capabilities_not_compared t policy :
  same_host t policy → landlock policy ≠ disabled → capabilities t ≠ capabilities policy →
  ∃ p s b, rtc pool_step (pool_init t 1) p ∧ (s, policy) ∈ handed p ∧ boot p !! s = Some b ∧
    capabilities b ≠ capabilities policy.
Proof.
  intros Hh Hl Hc.
  set (p := fill_step None true (fill_step (Some 0) true (fill_step None true (fill_step None true (pool_init t 1))))).
  assert (Hr : rtc pool_step (pool_init t 1) p).
  { do 4 (eapply rtc_r; [|apply ps_fill; intros ? [= <-]; by rewrite ?lookup_empty]). done. }
  exists (acquire policy p).2, 0, (boot_policy t). split_and!.
  - eapply rtc_r; [exact Hr|apply ps_acquire].
  - unfold acquire. simpl. rewrite (proj2 (compatible_spec t policy)) by done. simpl. left.
  - unfold acquire. simpl. rewrite (proj2 (compatible_spec t policy)) by done. done.
  - done.
Qed.

End pool.

(** ** A run *)

Section example.

Definition example_policy (caps : list string) : SecurityPolicy :=
  let rules := {| rule_allow := false; allowed_domains := []; blocked_domains := []; allowed_ips := [];
                  blocked_ips := []; allowed_ports := [443%Z]; blocked_ports := [] |} in
  {| namespace := {| ns_user := true; ns_pid := true; ns_ipc := true; ns_cgroup := true; ns_uts := true |};
     capabilities := {| cap_add := caps; cap_drop := ["ALL"] |};
     landlock := best_effort;
     syscall := {| x86_64_blocked := ["ptrace"]; arm64_blocked := ["ptrace"] |};
     network := {| mode := ISOLATED; uplink := {| subnet := "10.200.0.0/16"; nat_ := true; interface := "auto" |};
                   egress := rules; ingress := rules |};
     cgroup := {| memory_max := None; cpu_max := None; pids_max := Some 64%Z |};
     filesystem_policy := tt; process := {| run_as_user := "sandbox"; run_as_group := "sandbox" |}; rest := tt |}.

(** The filler parks a sandbox *)
Definition example_parked : Pool :=
  Nat.iter 2 (fill_step tt None true) (fill_step tt (Some 7) true (Nat.iter 2 (fill_step tt None true)
    (pool_init (example_policy []) 1))).

(** The server stops *)
Definition example_stopped : Pool := stop_drain (stop_bump (stop_set example_parked)).

Lemma example_parked_reachable : rtc (pool_step tt) (pool_init (example_policy []) 1) example_parked.
Proof. do 5 (eapply rtc_r; [|apply ps_fill; intros ? [= <-]; by rewrite ?lookup_empty]). done. Qed.

Lemma example_stopped_reachable : rtc (pool_step tt) (pool_init (example_policy []) 1) example_stopped.
Proof.
  do 3 (eapply rtc_r; [|first [by apply ps_stop_drain | by apply ps_stop_bump | by apply ps_stop_set]]).
  apply example_parked_reachable.
Qed.

Lemma pool_invariant_witness :
  slots example_parked = [7] ∧ NoDup (places example_parked) ∧
  (Z.of_nat (length (slots example_parked)) ≤ 1)%Z.
Proof.
  split; [reflexivity|].
  destruct (pool_invariant tt (example_policy []) 1 example_parked example_parked_reachable) as (?&_&?&_).
  split; assumption.
Defined.

Lemma checkout_compatible_witness :
  ∃ p', acquire (example_policy []) example_parked = ((true, Some 7), p') ∧ (7 ∉ slots p').
Proof.
  exists (acquire (example_policy []) example_parked).2.
  assert (H : acquire (example_policy []) example_parked
              = ((true, Some 7), (acquire (example_policy []) example_parked).2)) by reflexivity.
  split; [exact H|].
  apply (checkout_compatible tt (example_policy []) 1 example_parked (example_policy []) 7 _
           example_parked_reachable H).
Defined.

Lemma stopped_pool_empty_witness :
  stopping example_stopped = [7] ∧ (acquire (example_policy []) example_stopped).1.2 = None.
Proof.
  split; [reflexivity|].
  apply (stopped_pool_empty tt (example_policy []) 1 example_stopped example_stopped (example_policy [])
           example_stopped_reachable eq_refl (rtc_refl _ _)).
Defined.

Lemma capabilities_not_compared_witness :
  ∃ p s b, rtc (pool_step tt) (pool_init (example_policy ["CAP_SYS_ADMIN"]) 1) p ∧
    (s, example_policy []) ∈ handed p ∧ boot p !! s = Some b ∧
    capabilities b ≠ capabilities (example_policy []).
Proof.
  apply (capabilities_not_compared tt (example_policy ["CAP_SYS_ADMIN"]) (example_policy []));
    [repeat split|discriminate|discriminate].
Defined.

End example.
