(* ===== verification/IpcFrames.v ===== *)
(** * Frames between front and worker

    Source: [server/ipc/protocol.py] ([encode_frame], [decode_frame]) and the framing of
    [server/ipc/stream.py].

    A frame is the length of its body, four bytes big-endian, and the body, a JSON object in
    UTF-8.  Bytes are integers below 256.  [dumps] is [json.dumps] of the standard library with
    the encoding to UTF-8, [loads] the decoding with [json.loads], [None] when it raises; a
    stream is the list of the bytes that will still arrive before its end.  Messages about errors
    are not modelled. *)

From S2P Require Import Prelude OrderedDict PyJson.

(** [OtherError] stands for an exception of the heartbeat responder or of a native call that is none of
    the others. *)
Inductive ipc_error := IpcError | ConnectionError | EOFError | OSError | OtherError.
#[export] Instance ipc_error_eq : EqDecision ipc_error.
Proof. solve_decision. Defined.

Definition HEADER_SIZE : nat := 4.
Definition MAX_FRAME_BYTES : Z := 32 * 1024 * 1024.

(** [HEADER.pack] and [HEADER.unpack], for ["!I"] *)
Definition pack (n : Z) : list Z :=
  [Z.land (Z.shiftr n 24) 255; Z.land (Z.shiftr n 16) 255; Z.land (Z.shiftr n 8) 255; Z.land n 255].
Definition unpack (l : list Z) : Z := foldl (λ n b, Z.lor (Z.shiftl n 8) b) 0%Z l.

Section frames.
Context (dumps : jdict → list Z) (loads : list Z → option json).

Definition blen (l : list Z) : Z := Z.of_nat (length l).

Definition encode_frame (m : jdict) : outcome ipc_error (list Z) :=
  let body := dumps m in
  if Z.ltb MAX_FRAME_BYTES (blen body) then Exc IpcError else Ret (pack (blen body) ++ body).

Definition decode_frame (payload : list Z) : outcome ipc_error jdict :=
  if Z.ltb MAX_FRAME_BYTES (blen payload) then Exc IpcError
  else match loads payload with
       | Some (JObj d) => Ret d
       | _ => Exc IpcError
       end.

(** [reader.readexactly(n)]; what has arrived before the end is lost. *)
Definition readexactly (n : nat) : py (list Z) ipc_error (list Z) :=
  λ s, if Nat.leb n (length s) then (Ret (take n s), drop n s) else (Exc ConnectionError, []).

(** [StreamConnection._recv_frame] *)
Definition _recv_frame : py (list Z) ipc_error jdict :=
  header <- readexactly HEADER_SIZE ;;
  let length := unpack header in
  py_guard (negb (Z.ltb MAX_FRAME_BYTES length)) IpcError ;;
  body <- readexactly (Z.to_nat length) ;;
  λ s, (decode_frame body, s).

(** [PipeConnection._decode_pipe_frame]; the pipe keeps the bounds of the frames. *)
Definition _decode_pipe_frame (frame : list Z) : outcome ipc_error jdict :=
  if Nat.ltb (length frame) HEADER_SIZE then Exc IpcError
  else if negb (Z.eqb (unpack (take HEADER_SIZE frame)) (blen (drop HEADER_SIZE frame))) then Exc IpcError
  else decode_frame (drop HEADER_SIZE frame).

(** ** Round trips *)

Lemma lor_byte a b : (0 ≤ b < 256)%Z → Z.lor (Z.shiftl a 8) b = (a * 256 + b)%Z.
Proof.
  intros Hb. assert (Z.land (Z.shiftl a 8) b = 0%Z) as H.
  { apply Z.bits_inj'. intros i Hi. rewrite Z.land_spec, Z.bits_0. destruct (Z.ltb_spec i 8).
    - by rewrite Z.shiftl_spec_low.
    - assert (Z.testbit b i = false) as ->; [|apply andb_false_r]. destruct (Z.eq_dec b 0%Z) as [->|]; [apply Z.bits_0|].
      apply Z.bits_above_log2; [lia|]. apply Z.lt_le_trans with 8%Z; [apply Z.log2_lt_pow2; lia|lia]. }
  rewrite <- Z.lxor_lor by done. rewrite <- Z.add_nocarry_lxor by done. by rewrite Z.shiftl_mul_pow2 by lia.
Qed.

Lemma land_byte n : Z.land n 255 = (n mod 256)%Z.
Proof. exact (Z.land_ones n 8 ltac:(lia)). Qed.

Lemma unpack_pack n : (0 ≤ n < 2 ^ 32)%Z → unpack (pack n) = n.
Proof.
  intros Hn. unfold unpack, pack. cbn [foldl]. rewrite !land_byte, !Z.shiftr_div_pow2 by lia.
  rewrite !lor_byte by (apply Z.mod_pos_bound; lia). cbn [Z.pow Z.pow_pos Pos.iter Z.mul Pos.mul].
  change (2 ^ 32)%Z with 4294967296%Z in Hn. Z.to_euclidean_division_equations. lia.
Qed.

Lemma pack_length n : length (pack n) = HEADER_SIZE.
Proof. done. Qed.

(** Messages that [json.loads] reads back as they were written, so not one with a key that is no
    string, a lone surrogate or a value [dumps] turns into another *)
Definition json_safe (m : jdict) : Prop := loads (dumps m) = Some (JObj m).

Lemma encode_inv m f : encode_frame m = Ret f → f = pack (blen (dumps m)) ++ dumps m ∧ (0 ≤ blen (dumps m) ≤ MAX_FRAME_BYTES)%Z.
Proof.
  unfold encode_frame. destruct (Z.ltb_spec MAX_FRAME_BYTES (blen (dumps m))); [done|]. intros [= <-]. unfold blen in *. split; [done|lia].
Qed.

Lemma decode_dumps m : json_safe m → (blen (dumps m) ≤ MAX_FRAME_BYTES)%Z → decode_frame (dumps m) = Ret m.
Proof. intros Hs H. unfold decode_frame. rewrite (proj2 (Z.ltb_ge _ _)) by lia. by rewrite Hs. Qed.

Lemma readexactly_app n a b : length a = n → readexactly n (a ++ b) = (Ret a, b).
Proof. intros <-. unfold readexactly. by rewrite length_app, (proj2 (Nat.leb_le _ _)), take_app_length, drop_app_length by lia. Qed.

Lemma unpack_header m : (0 ≤ blen (dumps m) ≤ MAX_FRAME_BYTES)%Z → unpack (pack (blen (dumps m))) = blen (dumps m).
Proof.
  intros H. apply unpack_pack. change MAX_FRAME_BYTES with 33554432%Z in H. change (2 ^ 32)%Z with 4294967296%Z. lia.
Qed.

(** A frame that is complete is received, and what follows it is left. *)
Lemma recv_encoded m f rest : json_safe m → encode_frame m = Ret f → _recv_frame (f ++ rest) = (Ret m, rest).
Proof.
  intros Hs [-> H]%encode_inv. rewrite <- app_assoc. unfold _recv_frame, py_bind. rewrite readexactly_app by done.
  rewrite unpack_header by done. unfold py_guard, py_ret. rewrite (proj2 (Z.ltb_ge _ _)) by lia. cbn [negb].
  unfold blen. rewrite Nat2Z.id, readexactly_app by done. rewrite decode_dumps; [done..|lia].
Qed.

(** A stream that ends within a frame *)
Lemma recv_cut m f part more : encode_frame m = Ret f → f = part ++ more → more ≠ [] → _recv_frame part = (Exc ConnectionError, []).
Proof.
  intros [Ef H]%encode_inv E Hmore. assert (length part < HEADER_SIZE + length (dumps m)) as Hlen.
  { assert (length (part ++ more) = HEADER_SIZE + length (dumps m)) as El by (rewrite <- E, Ef, length_app; done).
    rewrite length_app in El. destruct more; [done|]. cbn [length] in El. unfold HEADER_SIZE in *. lia. }
  unfold _recv_frame, py_bind, readexactly. destruct (Nat.leb_spec HEADER_SIZE (length part)) as [Hle|]; [|done].
  assert (take HEADER_SIZE part = pack (blen (dumps m))) as ->.
  { rewrite <- (take_app_le part more) by done. by rewrite <- E, Ef, take_app_le. }
  rewrite unpack_header by done.
  rewrite (proj2 (Z.ltb_ge _ _)) by lia. unfold py_guard, py_ret, blen. cbn [negb]. rewrite Nat2Z.id, length_drop.
  by rewrite (proj2 (Nat.leb_gt _ _)) by (unfold HEADER_SIZE in *; lia).
Qed.

Lemma decode_pipe_encoded m f : json_safe m → encode_frame m = Ret f → _decode_pipe_frame f = Ret m.
Proof.
  intros Hs [-> H]%encode_inv. unfold _decode_pipe_frame. rewrite length_app, pack_length. rewrite (proj2 (Nat.ltb_ge _ _)) by lia.
  change (take HEADER_SIZE _) with (pack (blen (dumps m))). rewrite unpack_header by done.
  change (drop HEADER_SIZE _) with (dumps m). rewrite Z.eqb_refl. apply decode_dumps; [done|lia].
Qed.

(** [recv] for as long as it returns *)
Fixpoint receive (fuel : nat) (s : list Z) : list jdict * ipc_error :=
  match fuel with
  | O => ([], ConnectionError)
  | Datatypes.S fuel =>
      match _recv_frame s with
      | (Ret m, s') => let r := receive fuel s' in (m :: r.1, r.2)
      | (Exc e, _) => ([], e)
      end
  end.

Fixpoint encode_all (l : list jdict) : outcome ipc_error (list Z) :=
  match l with
  | [] => Ret []
  | m :: l' => match encode_frame m, encode_all l' with Ret f, Ret fs => Ret (f ++ fs) | Exc e, _ | _, Exc e => Exc e end
  end.

(** C38: what was sent as frames is received as it was sent, in order, and then the end of the stream,
    also when the stream ends in the middle of another frame. *)
Theorem stream_roundtrip l bytes m f part more fuel : Forall json_safe l → encode_all l = Ret bytes → encode_frame m = Ret f → f = part ++ more → more ≠ [] →
  length l < fuel → receive fuel (bytes ++ part) = (l, ConnectionError).
Proof.
  intros Hs El Em Ef Hmore. revert bytes El fuel. induction Hs as [|x l Hx Hs IH]; intros bytes El fuel Hf; simpl in *.
  - injection El as <-. destruct fuel; [lia|]. simpl. by rewrite (recv_cut m f part more).
  - destruct (encode_frame x) as [fx|] eqn:Ex; [|done]. destruct (encode_all l) as [fs|]; [|done]. injection El as <-.
    destruct fuel; [lia|]. simpl. rewrite <- app_assoc, (recv_encoded x) by done. rewrite (IH fs) by (done || lia). done.
Qed.

(** A frame that is too long is not sent, and none is received: no body is read. *)
Lemma oversized m header rest : (MAX_FRAME_BYTES < blen (dumps m))%Z → length header = HEADER_SIZE → (MAX_FRAME_BYTES < unpack header)%Z →
  encode_frame m = Exc IpcError ∧ _recv_frame (header ++ rest) = (Exc IpcError, rest).
Proof.
  intros Hm Hh Hn. split; [unfold encode_frame; by rewrite (proj2 (Z.ltb_lt _ _))|].
  unfold _recv_frame, py_bind, readexactly. rewrite length_app, Hh, (proj2 (Nat.leb_le _ _)) by lia.
  rewrite <- Hh, take_app_length, drop_app_length. unfold py_guard. by rewrite (proj2 (Z.ltb_lt _ _)).
Qed.
End frames.
