(* ===== verification/IpcPipe.v ===== *)
(** * The pipe between front and worker

    Source: [server/ipc/stream.py], the receiving half of [PipeConnection].

    Two threads share the object: the one of [_read_loop], and the event loop that runs [recv],
    [close] and [_wake_reader].  What a thread does between two points where the other can see it, a
    section under [_receive_mutex] among them, is one step; [step] runs one step of a chosen thread and says what
    could be seen of it.  The coroutines of the loop run until their next [await].
    [_receive_lock] lets one call of [recv] at a time into [_next_message]: calls that wait for it
    have not begun here.  A close that has been asked for ends when the native handle is closed;
    what its caller raises is shown when the close is asked for.

    [loads] is [json.loads] after decoding, as in [IpcFrames].  Sending, timestamps and
    [diagnostics] are not modelled; [loop_running] says that the event loop has not been closed. *)

From S2P Require Import Prelude OrderedDict PyJson IpcFrames.

Definition _PIPE_PENDING_MESSAGES : nat := 256.
Definition _PIPE_PENDING_BYTES : Z := 2 * MAX_FRAME_BYTES.

(** Where [_read_loop] is; [more] says that the loop goes on once [_notify_reader] returns. *)
Inductive reader_pc :=
| NotStarted
| Top                                 (* while not self._closed *)
| Locked                              (* holds _read_native_lock *)
| Reading                             (* poll() was true *)
| Receiving                           (* before recv_bytes *)
| Handling (frame : list Z)           (* the frame is not decoded yet *)
| Putting (m : jdict) (size : Z)      (* before the mutex *)
| Failing (e : ipc_error)             (* in the except clause *)
| Notifying (more : bool)             (* in _notify_reader *)
| Calling (more : bool)               (* before call_soon_threadsafe *)
| Resetting (more : bool)             (* the loop was closed *)
| Done.

(** The call of [recv] that is inside [_next_message], when it is suspended *)
Inductive receiver_state := NoReceiver | Waits (w : nat) | Woken (w : nat).

(** What [recv] raises *)
Inductive recv_error := Cancelled | An (e : ipc_error).

(** What the event loop is in the middle of.  [after] is what the caller of [close] raises then. *)
Inductive loop_pc :=
| Free
| Checking                                (* top of the loop of _next_message *)
| Leaving (w : nat) (cancelled : bool)    (* the finally clause after [await waiter] *)
| Clearing (after : option recv_error)     (* close, after self._closed = True *)
| CloseNotifying (after : option recv_error)
| CloseCalling (after : option recv_error)
| CloseStarting (after : option recv_error).

Record PipeConnection := Pipe {
  _closed : bool; _close_task : bool; native_open : bool;
  _pending : list (jdict * Z); _pending_bytes : Z;
  _reader_started : bool; _reader_error : option ipc_error;
  _read_waiter : option nat; _read_notified : bool;
  _heartbeat_responder : bool;
  conn : list (list Z); peer_open : bool;
  reader : reader_pc; activity : loop_pc; receiver : receiver_state;
  callbacks : nat; loop_running : bool; next_future : nat;
}.

Inductive label :=
| Sent (frame : list Z)          (* the peer wrote a frame *)
| Polled | Read (frame : list Z)  (* native calls *)
| Answered (m : jdict)           (* given to the responder *)
| Accepted (m : jdict)           (* put into _pending *)
| Returned (m : jdict)           (* by recv *)
| Raised (e : recv_error)         (* by recv *)
| CloseRequested | NativeClosed.

(** ** Parts of the state *)

Definition with_reader (r : reader_pc) (s : PipeConnection) : PipeConnection :=
  Pipe (_closed s) (_close_task s) (native_open s) (_pending s) (_pending_bytes s) (_reader_started s) (_reader_error s)
    (_read_waiter s) (_read_notified s) (_heartbeat_responder s) (conn s) (peer_open s) r (activity s) (receiver s)
    (callbacks s) (loop_running s) (next_future s).
Definition with_activity (a : loop_pc) (s : PipeConnection) : PipeConnection :=
  Pipe (_closed s) (_close_task s) (native_open s) (_pending s) (_pending_bytes s) (_reader_started s) (_reader_error s)
    (_read_waiter s) (_read_notified s) (_heartbeat_responder s) (conn s) (peer_open s) (reader s) a (receiver s)
    (callbacks s) (loop_running s) (next_future s).
Definition with_receiver (r : receiver_state) (s : PipeConnection) : PipeConnection :=
  Pipe (_closed s) (_close_task s) (native_open s) (_pending s) (_pending_bytes s) (_reader_started s) (_reader_error s)
    (_read_waiter s) (_read_notified s) (_heartbeat_responder s) (conn s) (peer_open s) (reader s) (activity s) r
    (callbacks s) (loop_running s) (next_future s).
Definition with_waiter (w : option nat) (s : PipeConnection) : PipeConnection :=
  Pipe (_closed s) (_close_task s) (native_open s) (_pending s) (_pending_bytes s) (_reader_started s) (_reader_error s)
    w (_read_notified s) (_heartbeat_responder s) (conn s) (peer_open s) (reader s) (activity s) (receiver s)
    (callbacks s) (loop_running s) (next_future s).
Definition with_notified (b : bool) (n : nat) (s : PipeConnection) : PipeConnection :=
  Pipe (_closed s) (_close_task s) (native_open s) (_pending s) (_pending_bytes s) (_reader_started s) (_reader_error s)
    (_read_waiter s) b (_heartbeat_responder s) (conn s) (peer_open s) (reader s) (activity s) (receiver s)
    n (loop_running s) (next_future s).
Definition with_pending (l : list (jdict * Z)) (n : Z) (s : PipeConnection) : PipeConnection :=
  Pipe (_closed s) (_close_task s) (native_open s) l n (_reader_started s) (_reader_error s)
    (_read_waiter s) (_read_notified s) (_heartbeat_responder s) (conn s) (peer_open s) (reader s) (activity s) (receiver s)
    (callbacks s) (loop_running s) (next_future s).
Definition with_error (e : ipc_error) (s : PipeConnection) : PipeConnection :=
  Pipe (_closed s) (_close_task s) (native_open s) (_pending s) (_pending_bytes s) (_reader_started s) (Some e)
    (_read_waiter s) (_read_notified s) (_heartbeat_responder s) (conn s) (peer_open s) (reader s) (activity s) (receiver s)
    (callbacks s) (loop_running s) (next_future s).
Definition with_closing (closed task : bool) (native : bool) (s : PipeConnection) : PipeConnection :=
  Pipe closed task native (_pending s) (_pending_bytes s) (_reader_started s) (_reader_error s)
    (_read_waiter s) (_read_notified s) (_heartbeat_responder s) (conn s) (peer_open s) (reader s) (activity s) (receiver s)
    (callbacks s) (loop_running s) (next_future s).
Definition with_world (c : list (list Z)) (p l : bool) (resp : bool) (s : PipeConnection) : PipeConnection :=
  Pipe (_closed s) (_close_task s) (native_open s) (_pending s) (_pending_bytes s) (_reader_started s) (_reader_error s)
    (_read_waiter s) (_read_notified s) resp c p (reader s) (activity s) (receiver s)
    (callbacks s) l (next_future s).

(** [__init__], on a pipe that is open *)
Definition pipe_init : PipeConnection :=
  Pipe false false true [] 0 false None None false false [] true NotStarted Free NoReceiver 0 true 0.

Section pipe.
Context (loads : list Z → option json).

Definition is_heartbeat (m : jdict) : bool :=
  match j_get m "kind" with JStr k => String.eqb k "heartbeat" | _ => false end.

(** ** The reader's thread

    The guards of [_notify_reader], under the mutex; [_loop] is set when the reader is started. *)
Definition needs_wake (s : PipeConnection) : bool :=
  _reader_started s && match _read_waiter s with Some _ => negb (_read_notified s) | None => false end.

Definition after_notify (more : bool) : reader_pc := if more then Top else Done.

Definition backlog_full (l : list (jdict * Z)) (bytes size : Z) : bool :=
  Nat.leb _PIPE_PENDING_MESSAGES (length l) || Z.ltb _PIPE_PENDING_BYTES (bytes + size).

(** A native call may raise whenever it is made: [native] is the exception of [poll] or [recv_bytes] when it is
    not the end of the pipe, [answer] the one of the responder. *)
Definition reader_step (native answer : option ipc_error) (s : PipeConnection) : option (PipeConnection * list label) :=
  match reader s with
  | NotStarted | Done => None
  | Top => Some (with_reader (if _closed s then Done else Locked) s, [])
  | Locked =>
      if _closed s then Some (with_reader Done s, [])
      else match native with
           | Some e => Some (with_reader (Failing e) s, [Polled])
           | None => Some (with_reader (if match conn s with [] => peer_open s | _ => false end then Top else Reading) s, [Polled])
           end
  | Reading => Some (with_reader (if _closed s then Done else Receiving) s, [])
  | Receiving =>
      match native, conn s with
      | Some e, _ => Some (with_reader (Failing e) s, [])
      | None, [] => Some (with_reader (Failing EOFError) s, [])
      | None, f :: rest =>
          if Z.ltb (MAX_FRAME_BYTES + Z.of_nat HEADER_SIZE) (blen f) then Some (with_reader (Failing OSError) s, [])
          else Some (with_reader (Handling f) (with_world rest (peer_open s) (loop_running s) (_heartbeat_responder s) s), [Read f])
      end
  | Handling f =>
      match _decode_pipe_frame loads f with
      | Exc e => Some (with_reader (Failing e) s, [])
      | Ret m =>
          if _heartbeat_responder s && is_heartbeat m
          then Some (with_reader (match answer with Some e => Failing e | None => Top end) s, [Answered m])
          else Some (with_reader (Putting m (blen f)) s, [])
      end
  | Putting m size =>
      if _closed s then Some (with_reader Done s, [])
      else if backlog_full (_pending s) (_pending_bytes s) size
      then Some (with_reader (Failing IpcError) s, [])
      else Some (with_reader (Notifying true) (with_pending (_pending s ++ [(m, size)]) (_pending_bytes s + size) s), [Accepted m])
  | Failing e => Some (with_reader (Notifying false) (with_error e s), [])
  | Notifying more =>
      if needs_wake s then Some (with_reader (Calling more) (with_notified true (callbacks s) s), [])
      else Some (with_reader (after_notify more) s, [])
  | Calling more =>
      if loop_running s then Some (with_reader (after_notify more) (with_notified (_read_notified s) (Datatypes.S (callbacks s)) s), [])
      else Some (with_reader (Resetting more) s, [])
  | Resetting more => Some (with_reader (after_notify more) (with_notified false (callbacks s) s), [])
  end.

(** ** The event loop *)

Definition raised (after : option recv_error) : list label :=
  match after with Some e => [Raised e] | None => [] end.

(** The first statements of [close] *)
Definition begin_close (after : option recv_error) (s : PipeConnection) : PipeConnection * list label :=
  if _close_task s then (with_activity Free s, raised after)
  else (with_activity (Clearing after) (with_closing true false (native_open s) s), [CloseRequested]).

(** [except EOFError], [except OSError], of which [ConnectionError] is one *)
Definition is_os_error (e : ipc_error) : bool :=
  match e with EOFError | OSError | ConnectionError => true | _ => false end.

Definition recv_raises (e : ipc_error) (s : PipeConnection) : PipeConnection * list label :=
  if is_os_error e then begin_close (Some (An ConnectionError)) s else (with_activity Free s, [Raised (An e)]).

(** What the loop does next in the coroutine it runs *)
Definition loop_step (s : PipeConnection) : option (PipeConnection * list label) :=
  match activity s with
  | Free => None
  | Checking =>
      Some (if _closed s then recv_raises ConnectionError s
            else match _pending s with
                 | (m, size) :: rest => (with_activity Free (with_pending rest (_pending_bytes s - size) s), [Returned m])
                 | [] =>
                     match _reader_error s with
                     | Some e => recv_raises e s
                     | None =>
                         let w := next_future s in
                         (with_activity Free (with_receiver (Waits w) (with_waiter (Some w)
                            (Pipe (_closed s) (_close_task s) (native_open s) (_pending s) (_pending_bytes s) (_reader_started s)
                               (_reader_error s) (_read_waiter s) (_read_notified s) (_heartbeat_responder s) (conn s) (peer_open s)
                               (reader s) (activity s) (receiver s) (callbacks s) (loop_running s) (Datatypes.S w)))), [])
                     end
                 end)
  | Leaving w cancelled =>
      let s := with_waiter (if bool_decide (_read_waiter s = Some w) then None else _read_waiter s) s in
      Some (if cancelled then begin_close (Some Cancelled) s else (with_activity Checking s, []))
  | Clearing after => Some (with_activity (CloseNotifying after) (with_pending [] 0 s), [])
  | CloseNotifying after =>
      if needs_wake s then Some (with_activity (CloseCalling after) (with_notified true (callbacks s) s), [])
      else Some (with_activity (CloseStarting after) s, [])
  | CloseCalling after =>
      Some (with_activity (CloseStarting after) (with_notified (_read_notified s) (Datatypes.S (callbacks s)) s), [])
  | CloseStarting after => Some (with_activity Free (with_closing (_closed s) true (native_open s) s), raised after)
  end.

(** [recv], when the lock is free *)
Definition recv (s : PipeConnection) : option (PipeConnection * list label) :=
  match receiver s with
  | NoReceiver =>
      if _closed s then Some (s, [Raised (An ConnectionError)])
      else if _reader_started s then Some (with_activity Checking s, [])
      else Some (with_activity Checking (with_reader Top
        (Pipe (_closed s) (_close_task s) (native_open s) (_pending s) (_pending_bytes s) true
           (_reader_error s) (_read_waiter s) (_read_notified s) (_heartbeat_responder s) (conn s) (peer_open s)
           (reader s) (activity s) (receiver s) (callbacks s) (loop_running s) (next_future s))), [])
  | _ => None
  end.

(** A scheduled call of [_wake_reader]; [set_result] makes the waiting call ready. *)
Definition _wake_reader (s : PipeConnection) : option (PipeConnection * list label) :=
  match callbacks s with
  | O => None
  | Datatypes.S n =>
      let s := with_notified false n s in
      Some (match _read_waiter s, receiver s with
            | Some w, Waits w' => if Nat.eqb w w' then with_receiver (Woken w) s else s
            | _, _ => s
            end, [])
  end.

(** The suspended call of [recv] goes on, or is cancelled. *)
Definition resume (s : PipeConnection) : option (PipeConnection * list label) :=
  match receiver s with
  | Woken w => Some (with_activity (Leaving w false) (with_receiver NoReceiver s), [])
  | _ => None
  end.
Definition cancel_recv (s : PipeConnection) : option (PipeConnection * list label) :=
  match receiver s with
  | Waits w | Woken w => Some (with_activity (Leaving w true) (with_receiver NoReceiver s), [])
  | NoReceiver => None
  end.

(** [_close_native_pipe], once the reader has let go of the native lock *)
Definition holds_native_lock (r : reader_pc) : bool := match r with Locked | Reading | Receiving => true | _ => false end.
Definition _close_native_pipe (s : PipeConnection) : option (PipeConnection * list label) :=
  if _close_task s && native_open s && negb (holds_native_lock (reader s))
  then Some (with_closing (_closed s) (_close_task s) false s, [NativeClosed]) else None.

(** ** Steps *)

Inductive choice :=
| Reader (native answer : option ipc_error)
| Loop
| Recv | Close | Wake | Resume | Cancel | CloseNative
| PeerSends (frame : list Z) | PeerCloses | SetResponder (b : bool) | LoopCloses.

(** A coroutine or a callback starts when the loop is free. *)
Definition when_free (s : PipeConnection) (r : option (PipeConnection * list label)) : option (PipeConnection * list label) :=
  match activity s with Free => if loop_running s then r else None | _ => None end.

Definition step (c : choice) (s : PipeConnection) : option (PipeConnection * list label) :=
  match c with
  | Reader native answer => reader_step native answer s
  | Loop => loop_step s
  | Recv => when_free s (recv s)
  | Close => when_free s (Some (begin_close None s))
  | Wake => when_free s (_wake_reader s)
  | Resume => when_free s (resume s)
  | Cancel => when_free s (cancel_recv s)
  | CloseNative => when_free s (_close_native_pipe s)
  | PeerSends f => if peer_open s then Some (with_world (conn s ++ [f]) true (loop_running s) (_heartbeat_responder s) s, [Sent f]) else None
  | PeerCloses => Some (with_world (conn s) false (loop_running s) (_heartbeat_responder s) s, [])
  | SetResponder b => when_free s (Some (with_world (conn s) (peer_open s) (loop_running s) b s, []))
  | LoopCloses => when_free s (Some (with_world (conn s) (peer_open s) false (_heartbeat_responder s) s, []))
  end.

Fixpoint run (cs : list choice) (s : PipeConnection) : option (PipeConnection * list label) :=
  match cs with
  | [] => Some (s, [])
  | c :: cs' =>
      match step c s with
      | Some (s', t) => match run cs' s' with Some (s'', t') => Some (s'', t ++ t') | None => None end
      | None => None
      end
  end.

End pipe.

(** ** What a run shows *)

Definition sent_frames (t : list label) : list (list Z) := omap (λ l, match l with Sent f => Some f | _ => None end) t.
Definition read_frames (t : list label) : list (list Z) := omap (λ l, match l with Read f => Some f | _ => None end) t.
Definition handled (t : list label) : list jdict := omap (λ l, match l with Answered m | Accepted m => Some m | _ => None end) t.
Definition accepted (t : list label) : list jdict := omap (λ l, match l with Accepted m => Some m | _ => None end) t.
Definition returned (t : list label) : list jdict := omap (λ l, match l with Returned m => Some m | _ => None end) t.
Definition business (l : list jdict) : list jdict := base.filter (λ m, is_heartbeat m = false) l.
