(* ===== verification/IpcPipeProps.v ===== *)
(** * What the pipe between front and worker guarantees

    About [IpcPipe]: the messages it delivers and their order, the bounds of what it keeps, that a call of
    [recv] is woken when there is something for it, and that the native handle is not closed under a read. *)

From S2P Require Import Prelude OrderedDict PyJson IpcFrames IpcPipe.

(** The cases of a step of a state whose fields are variables *)
Ltac step_cases E :=
  cbv [IpcPipe.step reader_step loop_step when_free recv begin_close recv_raises _wake_reader resume cancel_recv
    _close_native_pipe after_notify needs_wake with_reader with_activity with_receiver with_waiter with_notified with_pending
    with_error with_closing with_world _closed _close_task native_open _pending _pending_bytes _reader_started _reader_error
    _read_waiter _read_notified _heartbeat_responder conn peer_open reader activity receiver callbacks loop_running
    next_future andb orb negb] in E;
  repeat (match type of E with
          | context [match ?x with _ => _ end] => is_var x; destruct x
          | context [match ?x with _ => _ end] => destruct x eqn:?
          end; try discriminate E);
  injection E as <- <-.

Section props.
Context (loads : list Z → option json).
#[local] Abbreviation step := (step loads).
#[local] Abbreviation run := (run loads).

Definition reachable (s : PipeConnection) : Prop := ∃ cs t, run cs pipe_init = Some (s, t).

Lemma run_app cs1 cs2 s s' t : run (cs1 ++ cs2) s = Some (s', t) ↔
  ∃ s1 t1 t2, run cs1 s = Some (s1, t1) ∧ run cs2 s1 = Some (s', t2) ∧ t = t1 ++ t2.
Proof.
  revert s t. induction cs1 as [|c cs1 IH]; intros s t; simpl.
  - split; [intros H; by exists s, [], t|]. by intros (?&?&?&[= <- <-]&?&->).
  - destruct (step c s) as [[s1 t1]|]; [|split; [done|by intros (?&?&?&?&_)]]. split.
    + destruct (run (cs1 ++ cs2) s1) as [[s2 t2]|] eqn:E; [|done]. intros [= <- <-].
      apply IH in E as (s3&t3&t4&->&H&->). exists s3, (t1 ++ t3), t4. by rewrite app_assoc.
    + intros (s2&t2&t3&H1&H2&->). destruct (run cs1 s1) as [[s3 t4]|] eqn:E; [|done]. injection H1 as <- <-.
      rewrite (proj2 (IH s1 (t4 ++ t3))); [by rewrite app_assoc|]. by exists s3, t4, t3.
Qed.

(** An invariant of the state and of what was seen, kept by every step *)
Lemma run_ind (P : PipeConnection → list label → Prop) : P pipe_init [] →
  (∀ s t c s' t', P s t → step c s = Some (s', t') → P s' (t ++ t')) → ∀ cs s t, run cs pipe_init = Some (s, t) → P s t.
Proof.
  intros H0 Hstep cs. induction cs as [|c cs IH] using rev_ind; intros s t; [by intros [= <- <-]|].
  rewrite run_app. intros (s1&t1&t2&H1&H2&->). simpl in H2. destruct (step c s1) as [[s2 t3]|] eqn:E; [|done].
  injection H2 as <- <-. rewrite app_nil_r. by apply (Hstep s1 t1 c); [apply IH|].
Qed.

Lemma reachable_ind (P : PipeConnection → Prop) : P pipe_init →
  (∀ s c s' t, P s → step c s = Some (s', t) → P s') → ∀ s, reachable s → P s.
Proof. intros H0 Hstep s (cs&t&H). apply (run_ind (λ s _, P s) H0) in H; [done|]. intros. by eapply Hstep. Qed.

(** ** Wake-ups *)

Definition in_call (r : reader_pc) : nat := match r with Calling _ | Resetting _ => 1 | _ => 0 end.
Definition closing_call (a : loop_pc) : nat := match a with CloseCalling _ => 1 | _ => 0 end.

(** A call of [recv] that waits, something that would end the wait, and a wake-up that is under way *)
Definition waiting (s : PipeConnection) : bool := match receiver s with Waits _ => true | _ => false end.
Definition has_news (s : PipeConnection) : bool :=
  _closed s || match _pending s with [] => false | _ => true end || match _reader_error s with Some _ => true | None => false end.
Definition on_the_way (s : PipeConnection) : bool :=
  _read_notified s || match reader s with Notifying _ => true | _ => false end
  || match activity s with Clearing _ | CloseNotifying _ => true | _ => false end.

Record wake_inv (s : PipeConnection) : Prop := {
  w_flag : Nat.b2n (_read_notified s) = callbacks s + in_call (reader s) + closing_call (activity s);
  w_waiter : _read_waiter s = match receiver s with
                              | Waits w | Woken w => Some w
                              | NoReceiver => match activity s with Leaving w _ => Some w | _ => None end
                              end;
  w_turn : match activity s with Checking | Leaving _ _ => receiver s = NoReceiver ∧ _reader_started s = true | _ => True end;
  w_started : receiver s ≠ NoReceiver → _reader_started s = true;
  w_idle : _reader_started s = false → reader s = NotStarted;
  w_reset : match reader s with Resetting _ => loop_running s = false | _ => True end;
  w_loop : loop_running s = false → activity s = Free;
  w_wake : loop_running s = true → waiting s = true → has_news s = true → on_the_way s = true;
}.

Lemma wake_inv_init : wake_inv pipe_init.
Proof. by constructor. Qed.

#[local] Ltac wake_fields := constructor; simpl in *; try done; try lia;
  unfold waiting, has_news, on_the_way in *; simpl in *; rewrite ?orb_true_r in *; intros; try done; try lia.

Lemma wake_inv_reader n a s s' t : wake_inv s → reader_step loads n a s = Some (s', t) → wake_inv s'.
Proof.
  intros [Hf Hw Ht Hs Hi Hr Hl Hk] E. destruct s; simpl in *. step_cases E; simplify_eq/=.
  all: wake_fields; try (by apply Hk); try (by specialize (Hi ltac:(done))).
  all: try (destruct receiver; try done; by specialize (Hs ltac:(done))).
  all: destruct _read_notified; simpl in *; lia.
Qed.

Lemma wake_inv_loop s s' t : wake_inv s → loop_step s = Some (s', t) → wake_inv s'.
Proof.
  intros [Hf Hw Ht Hs Hi Hr Hl Hk] E. destruct s; simpl in *.
  assert (loop_running = true) as -> by (destruct loop_running, activity; try done; by specialize (Hl eq_refl)).
  step_cases E; destruct_and?; simplify_eq/=.
  all: wake_fields; try (by apply Hk).
  all: try by apply bool_decide_eq_false in Heqb.
  all: destruct receiver; try done; by specialize (Hs ltac:(done)).
Qed.

Lemma wake_inv_step s c s' t : wake_inv s → step c s = Some (s', t) → wake_inv s'.
Proof.
  intros H E. destruct c; [by eapply wake_inv_reader|by eapply wake_inv_loop|..].
  all: destruct H as [Hf Hw Ht Hs Hi Hr Hl Hk]; destruct s; simpl in *; step_cases E; destruct_and?; simplify_eq/=.
  all: try rewrite Nat.eqb_refl in Heqb; simplify_eq/=; try (specialize (Hi eq_refl); subst reader).
  all: wake_fields; try (by apply Hk); try (by rewrite Hs).
  all: try (destruct _read_notified; simpl in *; lia).
  - by destruct receiver.
  - by destruct reader.
Qed.

Lemma wake_inv_run cs s s' t : wake_inv s → run cs s = Some (s', t) → wake_inv s'.
Proof.
  revert s t. induction cs as [|c cs IH]; intros s t H; simpl; [by intros [= <- <-]|].
  destruct (step c s) as [[s1 t1]|] eqn:E; [|done]. destruct (run cs s1) as [[s2 t2]|] eqn:E2; [|done].
  intros [= <- <-]. by eapply IH; [eapply wake_inv_step|].
Qed.

Lemma wake_inv_reachable s : reachable s → wake_inv s.
Proof. apply reachable_ind; [apply wake_inv_init|]. intros. by eapply wake_inv_step. Qed.

(** *** From the news to the answer *)

(** Steps that need nobody but the two threads *)
Definition internal (c : choice) : bool :=
  match c with Reader None None | Loop | Wake | Resume => true | _ => false end.

(** [s] goes to a state with [P], with nothing but internal steps. *)
Definition leads (s : PipeConnection) (P : PipeConnection → list label → Prop) : Prop :=
  ∃ cs s' t, Forall (λ c, internal c = true) cs ∧ run cs s = Some (s', t) ∧ P s' t.

Lemma leads_now s (P : PipeConnection → list label → Prop) : P s [] → leads s P.
Proof. intros H. by exists [], s, []. Qed.

Lemma leads_step c s s1 t1 (P : PipeConnection → list label → Prop) : internal c = true → step c s = Some (s1, t1) →
  leads s1 (λ s' t, P s' (t1 ++ t)) → leads s P.
Proof.
  intros Hc E (cs&s'&t&Hcs&Hr&HP). exists (c :: cs), s', (t1 ++ t). split; [by constructor|]. split; [|done].
  simpl. rewrite E. by rewrite Hr.
Qed.

Lemma leads_trans s (P Q : PipeConnection → list label → Prop) : leads s P → (∀ s' t, P s' t → leads s' (λ s'' t', Q s'' (t ++ t'))) → leads s Q.
Proof.
  intros (cs&s'&t&Hcs&Hr&HP) H. destruct (H s' t HP) as (cs'&s''&t'&Hcs'&Hr'&HQ).
  exists (cs ++ cs'), s'', (t ++ t'). split; [by apply Forall_app|]. split; [|done]. rewrite run_app. by exists s', t, t'.
Qed.

Definition closing (a : loop_pc) : option (option recv_error) :=
  match a with
  | Clearing after | CloseNotifying after | CloseCalling after | CloseStarting after => Some after
  | _ => None
  end.

Definition finished (after : option recv_error) (s s' : PipeConnection) (t : list label) : Prop :=
  activity s' = Free ∧ receiver s' = receiver s ∧ _closed s' = _closed s ∧ loop_running s' = loop_running s ∧ t = raised after.

Lemma loop_leads s s1 t1 (P : PipeConnection → list label → Prop) : loop_step s = Some (s1, t1) →
  leads s1 (λ s' t, P s' (t1 ++ t)) → leads s P.
Proof. by apply (leads_step Loop). Qed.

Lemma finish_starting s after : activity s = CloseStarting after → leads s (finished after s).
Proof.
  intros E. eapply loop_leads; [unfold loop_step; by rewrite E|]. apply leads_now. by rewrite app_nil_r.
Qed.

Lemma finish_notifying s after : activity s = CloseNotifying after → leads s (finished after s).
Proof.
  intros E. destruct (needs_wake s) eqn:En.
  - eapply loop_leads; [unfold loop_step; by rewrite E, En|]. eapply loop_leads; [done|]. refine (finish_starting _ after _); done.
  - eapply loop_leads; [unfold loop_step; by rewrite E, En|]. refine (finish_starting _ after _); done.
Qed.

(** A [close] that has begun comes to its end. *)
Lemma close_finishes s after : closing (activity s) = Some after → leads s (finished after s).
Proof.
  destruct (activity s) eqn:Ea; intros [= ->].
  - eapply loop_leads; [unfold loop_step; by rewrite Ea|]. refine (finish_notifying _ after _); done.
  - by apply finish_notifying.
  - eapply loop_leads; [unfold loop_step; by rewrite Ea|]. refine (finish_starting _ after _); done.
  - by apply finish_starting.
Qed.

Definition answered (t : list label) : Prop := (∃ m, Returned m ∈ t) ∨ (∃ e, Raised e ∈ t).

Lemma answered_app t1 t2 : answered t2 → answered (t1 ++ t2).
Proof. intros [[x H]|[x H]]; [left|right]; exists x; apply elem_of_app; by right. Qed.

Lemma begin_close_answers e s : leads (begin_close (Some e) s).1 (λ _ t, answered ((begin_close (Some e) s).2 ++ t)).
Proof.
  unfold begin_close. destruct (_close_task s); simpl.
  - apply leads_now. right. exists e. set_solver.
  - eapply leads_trans; [by apply (close_finishes _ (Some e))|]. intros s' t (_&_&_&_&->). apply leads_now. right. exists e. set_solver.
Qed.

Lemma recv_raises_answers e s : leads (recv_raises e s).1 (λ _ t, answered ((recv_raises e s).2 ++ t)).
Proof.
  unfold recv_raises. destruct (is_os_error e); [apply begin_close_answers|]. apply leads_now. right. exists (An e). set_solver.
Qed.

(** At the top of the loop of [_next_message] *)
Lemma checking_answers s : activity s = Checking → has_news s = true → leads s (λ _ t, answered t).
Proof.
  intros Ha Hn. unfold has_news in Hn. destruct (_closed s) eqn:Ec.
  { eapply loop_leads; [unfold loop_step; rewrite Ha, Ec; apply f_equal, surjective_pairing|]. apply recv_raises_answers. }
  destruct (_pending s) as [|[m size] rest] eqn:Ep.
  - destruct (_reader_error s) as [e|] eqn:Ee; [|done].
    eapply loop_leads; [unfold loop_step; rewrite Ha, Ec, Ep, Ee; apply f_equal, surjective_pairing|]. apply recv_raises_answers.
  - eapply loop_leads; [unfold loop_step; by rewrite Ha, Ec, Ep|]. apply leads_now. left. exists m. set_solver.
Qed.

(** A wake-up that has been scheduled *)
Lemma scheduled_answers s n w : activity s = Free → loop_running s = true → callbacks s = Datatypes.S n → receiver s = Waits w →
  _read_waiter s = Some w → has_news s = true → leads s (λ _ t, answered t).
Proof.
  intros Ha Hl Hc Hr Hw Hn. destruct s; simpl in *. subst.
  eapply (leads_step Wake); [done|cbn; by rewrite Nat.eqb_refl|]. eapply (leads_step Resume); [done|done|].
  eapply loop_leads; [done|]. by apply checking_answers.
Qed.

Lemma free_answers s w : wake_inv s → activity s = Free → loop_running s = true → receiver s = Waits w → has_news s = true →
  leads s (λ _ t, answered t).
Proof.
  intros [Hf Hw Ht Hs Hi Hr Hl Hk] Ha Hrun Hrec Hn. unfold waiting in Hk. rewrite Hrec in *. specialize (Hk Hrun eq_refl Hn).
  unfold on_the_way in Hk. specialize (Hs ltac:(done)). rewrite Ha in *. simpl in *. rewrite Nat.add_0_r in Hf.
  assert (∀ more, reader s = Calling more → leads s (λ _ t, answered t)) as Hcall.
  { intros more E. eapply (leads_step (Reader None None)); [done|unfold step, IpcPipe.step, reader_step; by rewrite E, Hrun|].
    by eapply scheduled_answers. }
  destruct (_read_notified s) eqn:Eb; simpl in *.
  - destruct (callbacks s) as [|n] eqn:Ec; [|by eapply scheduled_answers].
    destruct (reader s) eqn:Er; try done; simpl in *; [by eapply Hcall|]. by rewrite Hr in Hrun.
  - destruct (reader s) eqn:Er; try done.
    eapply (leads_step (Reader None None)); [done|unfold step, IpcPipe.step, reader_step, needs_wake; by rewrite Er, Hs, Hw, Eb|].
    eapply (leads_step (Reader None None)); [done|cbn; by rewrite Hrun|]. by eapply scheduled_answers.
Qed.
(** ** The native handle *)

Record close_inv (s : PipeConnection) : Prop := {
  c_task : _close_task s = true → _closed s = true;
  c_native : native_open s = false → _close_task s = true;
  c_hold : reader s = Receiving ∨ reader s = Reading → native_open s = true;
  c_closing : closing (activity s) ≠ None → _closed s = true;
  c_empty : _closed s = true → (∀ after, activity s ≠ Clearing after) → _pending s = [];
}.

Lemma close_inv_init : close_inv pipe_init.
Proof. constructor; simpl; try done. Qed.

Lemma close_inv_step s c s' t : close_inv s → step c s = Some (s', t) → close_inv s'.
Proof.
  intros [Ht Hn Hh Hc He] E. destruct s, c; simpl in *; step_cases E; simplify_eq/=.
  all: constructor; simpl in *; try done; try (by auto); try (by intros [?|?]); intros.
  all: try (destruct native_open; [done|]; by specialize (Ht (Hn eq_refl))).
  all: try (by apply He).
  all: try (by edestruct H0).
  all: try (by apply Hc).
  all: by destruct H; subst.
Qed.

Lemma close_inv_reachable s : reachable s → close_inv s.
Proof. apply reachable_ind; [apply close_inv_init|]. intros. by eapply close_inv_step. Qed.

(** the native handle is never closed under a read: when the reader's thread is about to call [poll] or
    [recv_bytes] on it, and while it is inside the call, the handle is open. *)
Theorem handle_open_while_read s : reachable s → reader s = Receiving ∨ (reader s = Locked ∧ _closed s = false) → native_open s = true.
Proof.
  intros [Ht Hn Hh _ _]%close_inv_reachable [H|[_ H]]; [by apply Hh; left|].
  destruct (native_open s) eqn:E; [done|]. rewrite Ht in H; [done|]. by apply Hn.
Qed.

Lemma closed_step s c s' t : _closed s = true → step c s = Some (s', t) → _closed s' = true ∧ returned t = [] ∧ accepted t = [].
Proof.
  intros Hs E. destruct s, c; simpl in *; subst; step_cases E; simplify_eq/=; try done.
  by destruct after.
Qed.

(** *** From a wake-up to the answer *)

Lemma leads_inv s P : wake_inv s → leads s P → leads s (λ s' t, P s' t ∧ wake_inv s').
Proof. intros Hi (cs&s'&t&Hcs&Hr&HP). exists cs, s', t. split_and!; try done. by eapply wake_inv_run. Qed.

(** C40: a call of [recv] that waits while there is a message, an error of the reader or a close for it
    is woken and returns or raises, by steps of the two threads alone: no wake-up is lost. *)
Theorem recv_answered s w : reachable s → loop_running s = true → receiver s = Waits w → has_news s = true →
  ∃ cs s' t, Forall (λ c, internal c = true) cs ∧ run cs s = Some (s', t) ∧ answered t.
Proof.
  intros Hs Hrun Hrec Hn. apply wake_inv_reachable in Hs as Hi. change (leads s (λ _ t, answered t)).
  destruct (closing (activity s)) as [after|] eqn:Ea.
  - eapply leads_trans; [apply leads_inv; [done|apply (close_finishes _ _ Ea)]|].
    intros s1 t [(H1&H2&H3&H4&->) Hi1]. eapply leads_trans; [eapply (free_answers s1 w)|]; rewrite ?H2, ?H4; try done.
    + unfold has_news. rewrite H3, (c_closing _ (close_inv_reachable _ Hs)); [done|by rewrite Ea].
    + intros s2 t2 Ht. apply leads_now. rewrite app_nil_r. by apply answered_app.
  - destruct (activity s) eqn:Eb; try done; [by eapply free_answers| |]; pose proof (w_turn _ Hi) as Ht; rewrite Eb, Hrec in Ht; by destruct Ht.
Qed.

(** ** The bounds of what is kept *)

Definition pending_size (l : list (jdict * Z)) : Z := foldr (λ x n, (x.2 + n)%Z) 0%Z l.

Lemma pending_size_app l1 l2 : pending_size (l1 ++ l2) = (pending_size l1 + pending_size l2)%Z.
Proof. unfold pending_size. induction l1; simpl; lia. Qed.

Record backlog_inv (s : PipeConnection) : Prop := {
  b_count : length (_pending s) ≤ _PIPE_PENDING_MESSAGES;
  b_bytes : _pending_bytes s = pending_size (_pending s);
  b_limit : (_pending_bytes s ≤ _PIPE_PENDING_BYTES)%Z;
  b_sizes : Forall (λ x, (0 ≤ x.2)%Z) (_pending s);
  b_put : match reader s with Putting _ size => (0 ≤ size)%Z | _ => True end;
}.

Lemma backlog_inv_init : backlog_inv pipe_init.
Proof. constructor; simpl; try done; unfold _PIPE_PENDING_MESSAGES; lia. Qed.

Lemma backlog_inv_step s c s' t : backlog_inv s → step c s = Some (s', t) → backlog_inv s'.
Proof.
  intros [Hc Hb Hl Hs Hp] E. destruct s, c; simpl in *; step_cases E; simplify_eq/=.
  all: constructor; simpl in *; try done; try (unfold blen; lia); rewrite ?length_app, ?pending_size_app; simpl.
  all: try (unfold backlog_full in *; apply orb_false_iff in Heqb as [Hq1%Nat.leb_gt Hq2%Z.ltb_ge]; lia).
  all: try (rewrite Forall_cons in Hs; destruct Hs; simpl in *; (done || lia)).
  1: by apply Forall_app; repeat constructor.
Qed.

(** what waits to be received is at most 256 messages whose frames take at most 64 megabytes together,
    and [_pending_bytes] is what they take. *)
Theorem backlog_bounded s : reachable s →
  length (_pending s) ≤ 256 ∧ _pending_bytes s = pending_size (_pending s) ∧ (0 ≤ pending_size (_pending s) ≤ 64 * 1024 * 1024)%Z.
Proof.
  intros Hs. assert (backlog_inv s) as [Hc Hb Hl Hn _].
  { revert s Hs. apply reachable_ind; [apply backlog_inv_init|]. intros. by eapply backlog_inv_step. }
  split; [done|]. split; [done|]. rewrite <- Hb at 2. split; [|done].
  clear -Hn. induction Hn; simpl; lia.
Qed.

(** ** What is delivered, and in what order *)

Definition seen_decoded (r : reader_pc) (l : list (outcome ipc_error jdict)) : Prop :=
  match r with
  | Handling f => l = [_decode_pipe_frame loads f]
  | Putting m _ => l = [Ret m]
  | Failing _ | Done | Notifying false | Calling false | Resetting false => True
  | _ => l = []
  end.

Record order_inv (s : PipeConnection) (t : list label) : Prop := {
  o_sent : sent_frames t = read_frames t ++ conn s;
  o_handled : ∃ l, map (_decode_pipe_frame loads) (read_frames t) = map Ret (handled t) ++ l ∧ seen_decoded (reader s) l;
  o_returned : ∃ l, accepted t = returned t ++ l ∧ (_closed s = false → l = map fst (_pending s));
  o_business : business (accepted t) = business (handled t);
}.

Lemma sent_app t1 t2 : sent_frames (t1 ++ t2) = sent_frames t1 ++ sent_frames t2.
Proof. apply omap_app. Qed.
Lemma read_app t1 t2 : read_frames (t1 ++ t2) = read_frames t1 ++ read_frames t2.
Proof. apply omap_app. Qed.
Lemma handled_app t1 t2 : handled (t1 ++ t2) = handled t1 ++ handled t2.
Proof. apply omap_app. Qed.
Lemma accepted_app t1 t2 : accepted (t1 ++ t2) = accepted t1 ++ accepted t2.
Proof. apply omap_app. Qed.
Lemma returned_app t1 t2 : returned (t1 ++ t2) = returned t1 ++ returned t2.
Proof. apply omap_app. Qed.
Lemma business_app l1 l2 : business (l1 ++ l2) = business l1 ++ business l2.
Proof. apply filter_app. Qed.

Lemma order_inv_init : order_inv pipe_init [].
Proof. constructor; try done; by exists []. Qed.

(** A step that shows nothing of interest *)
Lemma order_inv_silent s s' t t' : order_inv s t → sent_frames t' = [] → read_frames t' = [] → handled t' = [] → accepted t' = [] →
  returned t' = [] → conn s' = conn s → (∀ l, seen_decoded (reader s) l → seen_decoded (reader s') l) →
  (_closed s' = false → _closed s = false ∧ _pending s' = _pending s) → order_inv s' (t ++ t').
Proof.
  intros [Hs (l&Hh&Hl) (k&Hr&Hk) Hb] E1 E2 E3 E4 E5 Ec Hd Hp. constructor.
  - by rewrite sent_app, read_app, E1, E2, !app_nil_r, Ec.
  - exists l. rewrite read_app, handled_app, E2, E3, !app_nil_r. auto.
  - exists k. rewrite accepted_app, returned_app, E4, E5, !app_nil_r. split; [done|]. intros H. destruct (Hp H) as [H1 ->]. auto.
  - by rewrite accepted_app, handled_app, E3, E4, !app_nil_r.
Qed.

Lemma order_inv_read f t s s' : order_inv s t → conn s = f :: conn s' → seen_decoded (reader s) = (λ l, l = []) → reader s' = Handling f →
  _closed s' = _closed s → _pending s' = _pending s → order_inv s' (t ++ [Read f]).
Proof.
  intros [Hs (l&Hh&Hl) (k&Hr&Hk) Hb] Ec Ed Er El Ep. rewrite Ed in Hl. subst l. rewrite app_nil_r in Hh. constructor.
  - rewrite sent_app, read_app, Hs, Ec. simpl. by rewrite app_nil_r, <- app_assoc.
  - exists [_decode_pipe_frame loads f]. rewrite read_app, handled_app, map_app, Hh, Er. simpl. by rewrite app_nil_r.
  - exists k. rewrite accepted_app, returned_app, El, Ep. simpl. by rewrite !app_nil_r.
  - rewrite accepted_app, handled_app. simpl. by rewrite !app_nil_r.
Qed.

(** The reader deals with a message: the responder answers it, or it is kept for [recv]. *)
Lemma order_inv_handle m lb t s s' : order_inv s t → handled [lb] = [m] → seen_decoded (reader s) = (λ l, l = [Ret m]) →
  seen_decoded (reader s') [] → conn s' = conn s → _closed s' = _closed s →
  (lb = Answered m ∧ is_heartbeat m = true ∧ _pending s' = _pending s) ∨
    (lb = Accepted m ∧ _closed s = false ∧ ∃ size, _pending s' = _pending s ++ [(m, size)]) → order_inv s' (t ++ [lb]).
Proof.
  intros [Hs (l&Hh&Hl) (k&Hr&Hk) Hb] Em Ed Er Ec El Hcase. rewrite Ed in Hl. subst l.
  assert (∃ d, map (_decode_pipe_frame loads) (read_frames (t ++ [lb])) = map Ret (handled (t ++ [lb])) ++ d ∧ seen_decoded (reader s') d) as Hd.
  { exists []. rewrite handled_app, Em, map_app, read_app, app_nil_r. split; [|done]. change (map Ret [m]) with [Ret (E := ipc_error) m]. rewrite <- Hh.
    by destruct Hcase as [[-> _]|[-> _]]; simpl; rewrite app_nil_r. }
  assert (sent_frames (t ++ [lb]) = read_frames (t ++ [lb]) ++ conn s') as Hs'.
  { rewrite sent_app, read_app, Ec, Hs. by destruct Hcase as [[-> _]|[-> _]]; simpl; rewrite !app_nil_r. }
  constructor; try done; destruct Hcase as [(->&Hm&Ep)|(->&Hc&size&Ep)]; rewrite ?accepted_app, ?returned_app, ?handled_app; simpl.
  - exists k. rewrite !app_nil_r, Ep, El. auto.
  - exists (k ++ [m]). rewrite app_nil_r, app_assoc, Hr, Ep, map_app. split; [done|]. intros _. by rewrite Hk.
  - rewrite app_nil_r, business_app, Hb. unfold business at 3. rewrite filter_cons_False by (by rewrite Hm). by rewrite app_nil_r.
  - by rewrite !business_app, Hb.
Qed.

Lemma order_inv_reader n a s t s' t' : order_inv s t → reader_step loads n a s = Some (s', t') → order_inv s' (t ++ t').
Proof.
  intros Ho E. destruct s; step_cases E; simplify_eq/=.
  all: try (apply (order_inv_silent _ _ _ _ Ho); try done; intros ? H; simpl in *; by repeat case_match).
  all: try (apply (order_inv_silent _ _ _ _ Ho); try done; intros ? H; simpl in *; congruence).
  - by eapply order_inv_read.
  - eapply (order_inv_handle _ _ _ _ _ Ho); unfold seen_decoded; cbn [reader]; rewrite ?Heqo; try done; by left.
  - eapply (order_inv_handle _ _ _ _ _ Ho); unfold seen_decoded; cbn [reader]; rewrite ?Heqo; try done; by left.
  - eapply (order_inv_handle _ _ _ _ _ Ho); try done. right. split_and!; try done. by exists size.
Qed.

Lemma order_inv_step s t c s' t' : wake_inv s → close_inv s → order_inv s t → step c s = Some (s', t') → order_inv s' (t ++ t').
Proof.
  intros Hw Hc Ho E. destruct c; [by eapply order_inv_reader|..].
  all: destruct s; step_cases E; simplify_eq/=.
  all: try (apply (order_inv_silent _ _ _ _ Ho); try done; (by destruct after) || (intros ? H; simpl in *; by repeat case_match)).
  - destruct Ho as [Hs Hh (k&Hr&Hk) Hb]. simpl in *. rewrite Hk in Hr by done.
    constructor; simpl; rewrite ?sent_app, ?read_app, ?handled_app, ?accepted_app, ?returned_app, ?app_nil_r; try done.
    exists (map fst _pending). by rewrite Hr, <- app_assoc.
  - apply (order_inv_silent _ _ _ _ Ho); try done. pose proof (c_closing _ Hc) as Hx. simpl in *. by rewrite Hx.
  - assert (reader = NotStarted) as -> by (by apply (w_idle _ Hw)). by apply (order_inv_silent _ _ _ _ Ho).
  - destruct Ho as [Hs Hh Hr Hb]. simpl in *.
    constructor; simpl; rewrite ?sent_app, ?read_app, ?handled_app, ?accepted_app, ?returned_app, ?app_nil_r; try done.
    by rewrite Hs, <- app_assoc.
Qed.

Lemma order_inv_run cs s t : run cs pipe_init = Some (s, t) → order_inv s t.
Proof.
  intros H. apply (run_ind (λ s t, wake_inv s ∧ close_inv s ∧ order_inv s t)) in H; [tauto| |].
  - split_and!; [apply wake_inv_init|apply close_inv_init|apply order_inv_init].
  - intros s1 t1 c s2 t2 (H1&H2&H3) E. split_and!; [by eapply wake_inv_step|by eapply close_inv_step|by eapply order_inv_step].
Qed.

Lemma closed_run cs s s' t : _closed s = true → run cs s = Some (s', t) → _closed s' = true ∧ returned t = [] ∧ accepted t = [].
Proof.
  revert s t. induction cs as [|c cs IH]; intros s t Hs; simpl; [by intros [= <- <-]|].
  destruct (step c s) as [[s1 t1]|] eqn:E; [|done]. destruct (run cs s1) as [[s2 t2]|] eqn:E2; [|done]. intros [= <- <-].
  apply closed_step in E as (H1&H2&H3); [|done]. apply IH in E2 as (H4&H5&H6); [|done].
  by rewrite returned_app, accepted_app, H2, H3, H5, H6.
Qed.

Context (dumps : jdict → list Z).

Lemma decoded_sent ms fs : Forall (json_safe dumps loads) ms → Forall2 (λ m f, encode_frame dumps m = Ret f) ms fs →
  map (_decode_pipe_frame loads) fs = map Ret ms.
Proof.
  intros Hms H. revert Hms. induction H as [|m f ms fs Hf H IH]; [done|]. rewrite Forall_cons. intros [Hm Hms]. simpl.
  by rewrite (decode_pipe_encoded dumps loads m f), IH by done.
Qed.

Lemma map_Ret_prefix (l1 l2 : list jdict) k : map (Ret (E := ipc_error)) l2 = map Ret l1 ++ k → ∃ l3, l2 = l1 ++ l3 ∧ k = map Ret l3.
Proof.
  revert l2. induction l1 as [|x l1 IH]; intros l2 H; simpl in *; [by exists l2|]. destruct l2 as [|y l2]; [done|]. injection H as <- H.
  destruct (IH l2 H) as (l3&->&->). by exists l3.
Qed.

(** C39: the messages but heartbeats that [recv] returns are a prefix of those the peer sent, in their order: none
    is lost, doubled or overtaken, whatever the threads do; and while the connection is open they are
    all of them, once the reader has emptied the pipe and [recv] what is pending. *)
Theorem delivered_in_order cs s t ms : run cs pipe_init = Some (s, t) → Forall (json_safe dumps loads) ms →
  Forall2 (λ m f, encode_frame dumps m = Ret f) ms (sent_frames t) →
  business (returned t) `prefix_of` business ms ∧
  (_closed s = false → reader s = Top → conn s = [] → _pending s = [] → business (returned t) = business ms).
Proof.
  intros Hrun Hms Hf. destruct (order_inv_run _ _ _ Hrun) as [Hs (l&Hh&Hl) (k&Hr&Hk) Hb].
  pose proof (decoded_sent _ _ Hms Hf) as Hd. rewrite Hs, map_app, Hh, <- app_assoc in Hd.
  apply symmetry, map_Ret_prefix in Hd as (ms'&->&Hms'). rewrite business_app, <- Hb, Hr, business_app, <- app_assoc. split; [by eexists|].
  intros Hc Hrd Hcn Hp. rewrite Hrd in Hl. simpl in Hl. rewrite Hl, Hcn in Hms'. destruct ms'; [|done]. rewrite Hk, Hp by done.
  simpl. by rewrite !app_nil_r.
Qed.

(** Nothing is returned and nothing is kept once the connection is closed. *)
Lemma close_is_final cs s s' t : reachable s → _closed s = true → run cs s = Some (s', t) →
  _closed s' = true ∧ returned t = [] ∧ accepted t = [].
Proof. intros _. apply closed_run. Qed.
End props.
