(* ===== verification/IpcRun.v ===== *)
(** * The connection between front and worker, run

    Concrete messages and schedules on which the theorems of [IpcFrames] and [IpcPipeProps] are
    applied.  Every message has the one field [kind], and its text is the value of that field. *)

From S2P Require Import Prelude OrderedDict PyJson IpcFrames IpcPipe IpcPipeProps.

#[local] Abbreviation msg k := [("kind", JStr k)].

Definition text_of (m : jdict) : list Z :=
  match m with [(_, JStr k)] => map (λ c, Z.of_nat (Ascii.nat_of_ascii c)) (String.list_ascii_of_string k) | _ => [] end.
Definition of_text (l : list Z) : option json :=
  Some (JObj (msg (String.string_of_list_ascii (map (λ z, Ascii.ascii_of_nat (Z.to_nat z)) l)))).

#[local] Abbreviation frame k := (pack (blen (text_of (msg k))) ++ text_of (msg k)).

(** Two messages, and a stream that ends in the middle of a third *)
Lemma stream_roundtrip_witness :
  receive of_text 3 ((frame "hello" ++ frame "wire" ++ []) ++ take 6 (frame "shutdown")) = ([msg "hello"; msg "wire"], ConnectionError).
Proof.
  apply (stream_roundtrip text_of of_text [msg "hello"; msg "wire"] _ (msg "shutdown") (frame "shutdown") (take 6 (frame "shutdown")) (drop 6 (frame "shutdown"))).
  - repeat constructor.
  - reflexivity.
  - reflexivity.
  - reflexivity.
  - vm_compute. discriminate.
  - simpl. lia.
Defined.

(** The reader's thread polls and reads one frame and puts its message. *)
#[local] Abbreviation reads := [Reader None None; Reader None None; Reader None None; Reader None None; Reader None None; Reader None None].
#[local] Abbreviation waits_then_news := ([Recv; Loop; PeerSends (frame "request")] ++ reads).

Definition after (cs : list choice) : PipeConnection :=
  match run of_text cs pipe_init with Some (s, _) => s | None => pipe_init end.
Definition seen (cs : list choice) : list label :=
  match run of_text cs pipe_init with Some (_, t) => t | None => [] end.

Lemma ran cs : match run of_text cs pipe_init with Some _ => true | None => false end = true → run of_text cs pipe_init = Some (after cs, seen cs).
Proof. unfold after, seen. by destruct (run of_text cs pipe_init) as [[]|]. Qed.

Lemma recv_answered_witness :
  receiver (after waits_then_news) = Waits 0 ∧ has_news (after waits_then_news) = true ∧
  ∃ cs s' t, Forall (λ c, internal c = true) cs ∧ run of_text cs (after waits_then_news) = Some (s', t) ∧ answered t.
Proof.
  split; [by vm_compute|]. split; [by vm_compute|].
  apply (recv_answered of_text (after waits_then_news) 0); [|by vm_compute..].
  exists waits_then_news, (seen waits_then_news). by apply ran; vm_compute.
Defined.

(** A heartbeat among two messages; the first has been received. *)
#[local] Abbreviation three_sent :=
  ([SetResponder true; Recv; Loop; PeerSends (frame "request"); PeerSends (frame "heartbeat"); PeerSends (frame "cancel")] ++
   reads ++ [Reader None None; Reader None None; Wake; Resume; Loop; Loop] ++ reads).

Lemma delivered_in_order_witness :
  returned (seen three_sent) = [msg "request"] ∧
  business (returned (seen three_sent)) `prefix_of` business [msg "request"; msg "heartbeat"; msg "cancel"].
Proof.
  split; [by vm_compute|].
  apply (delivered_in_order of_text text_of three_sent (after three_sent) (seen three_sent) [msg "request"; msg "heartbeat"; msg "cancel"]).
  - by apply ran; vm_compute.
  - repeat constructor.
  - repeat constructor.
Defined.

(** The reader is about to read when the connection is closed. *)
#[local] Abbreviation closed_under_read :=
  ([Recv; Loop; PeerSends (frame "request"); Reader None None; Reader None None; Reader None None; Close; Loop; Loop; Loop; Loop]).

Lemma handle_open_while_read_witness :
  _close_task (after closed_under_read) = true ∧ native_open (after closed_under_read) = true.
Proof.
  split; [by vm_compute|]. apply (handle_open_while_read of_text (after closed_under_read)).
  - exists closed_under_read, (seen closed_under_read). by apply ran; vm_compute.
  - left. by vm_compute.
Defined.

Lemma backlog_bounded_witness :
  length (_pending (after waits_then_news)) = 1 ∧ length (_pending (after waits_then_news)) ≤ 256.
Proof.
  split; [by vm_compute|]. apply (backlog_bounded of_text (after waits_then_news)).
  exists waits_then_news, (seen waits_then_news). by apply ran; vm_compute.
Defined.
