(* ===== verification/Tables.v ===== *)
(** * Tables of SQLite

    Source: [server/jiuwenmate/sqlite_store.py], and the statements that the stores
    over it execute.

    A table is the list of its rows in the order of their [rowid].  A statement is a
    function of the table: the rows that a [SELECT] finds, an [UPDATE] of the rows
    that match, an [INSERT] that fails on a [UNIQUE] or [PRIMARY KEY] constraint.  A
    [transaction] gives the tables back as they were when its body raises. *)

From S2P Require Import Prelude.

Declare Scope table_scope.
Notation "a =s b" := (String.eqb a b) (at level 70, no associativity) : table_scope.
Open Scope table_scope.

Lemma eqs_true a b : (a =s b) = true ↔ a = b.
Proof. apply String.eqb_eq. Qed.

Lemma eqs_refl a : (a =s a) = true.
Proof. by apply String.eqb_eq. Qed.

(** ** Statements *)

Section statements.
Context {R : Type}.
Implicit Types (t : list R) (P : R → bool).

(** [SELECT * FROM t WHERE P] *)
Definition select P t : list R := filter (λ r, P r = true) t.

(** [.fetchone()] *)
Definition fetchone P t : option R := head (select P t).

(** [UPDATE t SET f WHERE P] *)
Definition update_where P (f : R → R) t : list R := (λ r, if P r then f r else r) <$> t.

(** [INSERT INTO t]; [clash r r'] says that [r] and [r'] agree on the columns of a
    constraint.  [None] is [sqlite3.IntegrityError]. *)
Definition insert_row (clash : R → R → bool) (r : R) t : option (list R) :=
  if existsb (clash r) t then None else Some (t ++ [r]).

(** [INSERT OR IGNORE] *)
Definition insert_or_ignore (clash : R → R → bool) (r : R) t : list R :=
  if existsb (clash r) t then t else t ++ [r].

(** [ORDER BY] a text column *)
Fixpoint insert_by_text (col : R → string) (r : R) t : list R :=
  match t with
  | [] => [r]
  | r' :: t' => if String.leb (col r) (col r') then r :: t else r' :: insert_by_text col r t'
  end.
Definition order_by_text (col : R → string) t : list R := foldr (insert_by_text col) [] t.

(** ** What they keep *)

Lemma elem_of_rows P t r : r ∈ select P t ↔ P r = true ∧ r ∈ t.
Proof. unfold select. by rewrite list_elem_of_filter. Qed.

Lemma fetchone_some P t r : fetchone P t = Some r → P r = true ∧ r ∈ t.
Proof.
  unfold fetchone. intros H. apply elem_of_rows. destruct (select P t); [done|].
  injection H as ->. left.
Qed.

Lemma fetchone_none P t : fetchone P t = None ↔ ∀ r, r ∈ t → P r = false.
Proof.
  unfold fetchone. split.
  - intros H r Hr. destruct (P r) eqn:HP; [|done].
    assert (r ∈ select P t) as Hin by (by apply elem_of_rows).
    destruct (select P t); [by apply elem_of_nil in Hin|done].
  - intros H. destruct (select P t) as [|r l] eqn:E; [done|].
    assert (r ∈ select P t) as [HP Hr]%elem_of_rows by (rewrite E; left).
    rewrite H in HP; done.
Qed.

Lemma fetchone_dec (Q : R → Prop) `{∀ r, Decision (Q r)} t r :
  fetchone (λ r, bool_decide (Q r)) t = Some r → Q r ∧ r ∈ t.
Proof. intros [HP Hr]%fetchone_some. by apply bool_decide_eq_true in HP. Qed.

Lemma fetchone_dec_none (Q : R → Prop) `{∀ r, Decision (Q r)} t :
  fetchone (λ r, bool_decide (Q r)) t = None ↔ ∀ r, r ∈ t → ¬ Q r.
Proof.
  rewrite fetchone_none. split; intros H' r Hr; specialize (H' r Hr); by rewrite bool_decide_eq_false in *.
Qed.

Lemma fetchone_dec_unique {K} (key : R → K) (Q : R → Prop) `{∀ r, Decision (Q r)} t r :
  NoDup (key <$> t) → r ∈ t → Q r → (∀ r', r' ∈ t → Q r' → key r' = key r) →
  fetchone (λ r, bool_decide (Q r)) t = Some r.
Proof.
  intros Hu Hr HQ Hk. destruct (fetchone (λ r, bool_decide (Q r)) t) as [r'|] eqn:E.
  - apply fetchone_dec in E as [HQ' Hr']. f_equal. specialize (Hk r' Hr' HQ').
    apply list_elem_of_lookup in Hr as [i Hi]. apply list_elem_of_lookup in Hr' as [j Hj].
    assert (i = j) as ->; [|congruence]. eapply (NoDup_lookup (key <$> t)); [done| |].
    + by rewrite list_lookup_fmap, Hi.
    + rewrite list_lookup_fmap, Hj. simpl. by rewrite Hk.
  - rewrite fetchone_dec_none in E. by destruct (E r Hr).
Qed.

(** A [UNIQUE] constraint on the columns [key] *)
Definition unique {K} (key : R → K) t : Prop := NoDup (key <$> t).

Lemma unique_eq {K} (key : R → K) t r r' :
  unique key t → r ∈ t → r' ∈ t → key r = key r' → r = r'.
Proof.
  unfold unique. induction t as [|x t IH]; [by intros _ ?%elem_of_nil|].
  rewrite fmap_cons. intros [Hx Hn]%NoDup_cons [->|Hr]%elem_of_cons [->|Hr']%elem_of_cons He; [done| | |by apply IH].
  - destruct Hx. rewrite He. by apply list_elem_of_fmap_2.
  - destruct Hx. rewrite <- He. by apply list_elem_of_fmap_2.
Qed.

Lemma fetchone_unique {K} (key : R → K) P t r :
  unique key t → r ∈ t → P r = true → (∀ r', r' ∈ t → P r' = true → key r' = key r) →
  fetchone P t = Some r.
Proof.
  intros Hu Hr HP Hk. destruct (fetchone P t) as [r'|] eqn:E.
  - apply fetchone_some in E as [HP' Hr']. f_equal. by eapply unique_eq; eauto.
  - rewrite fetchone_none in E. rewrite E in HP; done.
Qed.

Lemma insert_row_some clash r t t' :
  insert_row clash r t = Some t' → t' = t ++ [r] ∧ ∀ r', r' ∈ t → clash r r' = false.
Proof.
  unfold insert_row. destruct (existsb (clash r) t) eqn:E; [done|]. intros [= <-].
  split; [done|]. intros r' Hr'. destruct (clash r r') eqn:Hc; [|done].
  assert (existsb (clash r) t = true) as ?; [|congruence].
  apply existsb_exists. exists r'. by rewrite <- list_elem_of_In.
Qed.

Lemma insert_or_ignore_cases clash r t :
  (insert_or_ignore clash r t = t ∧ ∃ r', r' ∈ t ∧ clash r r' = true) ∨
  insert_row clash r t = Some (insert_or_ignore clash r t).
Proof.
  unfold insert_or_ignore, insert_row. destruct (existsb (clash r) t) eqn:E; [left|by right].
  apply existsb_exists in E as (r' & Hr' & Hc). rewrite <- list_elem_of_In in Hr'. eauto.
Qed.

Lemma insert_unique {K} (key : R → K) clash r t t' :
  insert_row clash r t = Some t' → (∀ r', key r = key r' → clash r r' = true) → unique key t → unique key t'.
Proof.
  intros [-> Hc]%insert_row_some Hk Hu. unfold unique. rewrite fmap_app. apply NoDup_app.
  split_and!; [done| |apply NoDup_singleton].
  intros x (r' & -> & Hr')%list_elem_of_fmap ?%list_elem_of_singleton.
  specialize (Hc r' Hr'). rewrite Hk in Hc; done.
Qed.

Lemma insert_or_ignore_unique {K} (key : R → K) clash r t :
  (∀ r', key r = key r' → clash r r' = true) → unique key t → unique key (insert_or_ignore clash r t).
Proof.
  intros Hk Hu. destruct (insert_or_ignore_cases clash r t) as [[-> _]|H]; [done|].
  by eapply insert_unique.
Qed.

Lemma elem_of_update_where P f t r :
  r ∈ update_where P f t ↔ (r ∈ t ∧ P r = false) ∨ ∃ r0, r0 ∈ t ∧ P r0 = true ∧ r = f r0.
Proof.
  unfold update_where. rewrite list_elem_of_fmap. split.
  - intros (r0 & -> & Hr0). destruct (P r0) eqn:E; eauto.
  - intros [[Hr HP]|(r0 & Hr0 & HP & ->)]; eexists; split; [by rewrite HP|done|by rewrite HP|done].
Qed.

Lemma update_where_key {K} (key : R → K) P f t :
  (∀ r, r ∈ t → P r = true → key (f r) = key r) → key <$> update_where P f t = key <$> t.
Proof.
  unfold update_where. induction t as [|r t IH]; intros H; [done|]. csimpl. f_equal.
  - destruct (P r) eqn:E; [|done]. apply H; [left|done].
  - apply IH. intros r' Hr'. apply H. by right.
Qed.

Lemma update_unique {K} (key : R → K) P f t :
  (∀ r, r ∈ t → P r = true → key (f r) = key r) → unique key t → unique key (update_where P f t).
Proof. unfold unique. intros H Hu. by rewrite update_where_key. Qed.

Lemma insert_by_text_perm col r t : insert_by_text col r t ≡ₚ r :: t.
Proof.
  induction t as [|r' t IH]; simpl; [done|]. case_match; [done|]. by rewrite IH, Permutation_swap.
Qed.

Lemma order_by_text_perm col t : order_by_text col t ≡ₚ t.
Proof. induction t as [|r t IH]; simpl; [done|]. by rewrite insert_by_text_perm, IH. Qed.

Lemma select_app P t t' : select P (t ++ t') = select P t ++ select P t'.
Proof. apply filter_app. Qed.

(** How many rows match [Q], before and after an [UPDATE] *)
Lemma count_update_in P Q f t :
  (∀ r, r ∈ t → P r = true → Q r = false ∧ Q (f r) = true) →
  length (select Q (update_where P f t)) = length (select Q t) + length (select P t).
Proof.
  unfold select, update_where. induction t as [|r t IH]; intros H; [done|]. rewrite fmap_cons, !filter_cons.
  specialize (IH (λ r' Hr', H r' (list_elem_of_further _ _ _ Hr'))). destruct (P r) eqn:HP.
  - destruct (H r ltac:(left) HP) as [H1 H2]. rewrite H2, H1. repeat case_decide; try done. simpl. lia.
  - repeat case_decide; simpl; try done; lia.
Qed.

Lemma count_update_out P Q f t :
  (∀ r, r ∈ t → P r = true → Q r = true ∧ Q (f r) = false) →
  length (select Q (update_where P f t)) + length (select P t) = length (select Q t).
Proof.
  unfold select, update_where. induction t as [|r t IH]; intros H; [done|]. rewrite fmap_cons, !filter_cons.
  specialize (IH (λ r' Hr', H r' (list_elem_of_further _ _ _ Hr'))). destruct (P r) eqn:HP.
  - destruct (H r ltac:(left) HP) as [H1 H2]. rewrite H2, H1. repeat case_decide; try done. simpl. lia.
  - repeat case_decide; simpl; try done; lia.
Qed.

Lemma count_update_same P Q f t :
  (∀ r, r ∈ t → P r = true → Q (f r) = Q r) → length (select Q (update_where P f t)) = length (select Q t).
Proof.
  unfold select, update_where. induction t as [|r t IH]; intros H; [done|]. rewrite fmap_cons, !filter_cons.
  specialize (IH (λ r' Hr', H r' (list_elem_of_further _ _ _ Hr'))). destruct (P r) eqn:HP.
  - rewrite (H r ltac:(left) HP). case_decide; simpl; lia.
  - case_decide; simpl; lia.
Qed.

Lemma count_unique {K} (key : R → K) P t r :
  unique key t → r ∈ t → P r = true → (∀ r', r' ∈ t → P r' = true → key r' = key r) → length (select P t) = 1.
Proof.
  intros Hu Hr HP Hk. assert (∀ r', r' ∈ select P t → r' = r) as Hall.
  { intros r' [HP' Hr']%elem_of_rows. by apply (unique_eq key t); auto. }
  assert (NoDup (select P t)) as Hn.
  { apply NoDup_filter. by apply (NoDup_fmap_1 key). }
  assert (r ∈ select P t) as Hin by (by apply elem_of_rows).
  destruct (select P t) as [|x [|y l]]; [by apply elem_of_nil in Hin|done|].
  apply NoDup_cons in Hn as [Hx _]. destruct Hx. rewrite (Hall x ltac:(left)), <- (Hall y ltac:(right; left)). left.
Qed.

Lemma fetchone_snoc P t r : (∀ r', r' ∈ t → P r' = false) → P r = true → fetchone P (t ++ [r]) = Some r.
Proof.
  intros Ht Hr. unfold fetchone. rewrite select_app.
  assert (select P t = []) as ->.
  { destruct (select P t) as [|x l] eqn:E; [done|]. assert (x ∈ select P t) as [HP Hx]%elem_of_rows by (rewrite E; left).
    by rewrite Ht in HP. }
  unfold select. by rewrite filter_cons_True.
Qed.

Lemma py_insert_snoc (key : R → Z) x y t :
  (key x ≤ key y)%Z → py_insert key x (t ++ [y]) = py_insert key x t ++ [y].
Proof.
  intros Hle. induction t as [|z t IH]; simpl.
  - by rewrite (proj2 (Z.leb_le _ _) Hle).
  - case_match; [done|]. by rewrite IH.
Qed.

Lemma py_sorted_snoc (key : R → Z) y t :
  (∀ x, x ∈ t → (key x ≤ key y)%Z) → py_sorted key (t ++ [y]) = py_sorted key t ++ [y].
Proof.
  unfold py_sorted. induction t as [|x t IH]; intros H; [done|]. simpl.
  rewrite IH by (intros z Hz; apply H; by right). apply py_insert_snoc, H. left.
Qed.

Lemma py_sorted_strict (key : R → Z) t :
  unique key t → StronglySorted (λ a b, (key a < key b)%Z) (py_sorted key t).
Proof.
  intros Hu. assert (unique key (py_sorted key t)) as Hn.
  { unfold unique. by rewrite (py_sorted_perm key t). }
  pose proof (py_sorted_sorted key t) as Hs. revert Hn Hs. unfold unique. generalize (py_sorted key t). clear.
  induction 2 as [|x l Hs IH Hx]; [constructor|]. rewrite fmap_cons in Hn. apply NoDup_cons in Hn as [Hnx Hn].
  constructor; [by apply IH|]. apply Forall_forall. intros y Hy. rewrite Forall_forall in Hx. specialize (Hx y Hy).
  assert (key x ≠ key y); [|lia]. intros He. apply Hnx. rewrite He. by apply list_elem_of_fmap_2.
Qed.

(** A sum over the rows, for [COUNT] and the totals that other tables keep *)
Definition sum_of (val : R → Z) t : Z := foldr (λ r n, val r + n)%Z 0%Z t.

Lemma sum_of_app val t t' : sum_of val (t ++ t') = (sum_of val t + sum_of val t')%Z.
Proof. unfold sum_of. induction t as [|r t IH]; simpl; [done|]. rewrite IH. lia. Qed.

Lemma sum_of_zero val t : (∀ r, r ∈ t → val r = 0%Z) → sum_of val t = 0%Z.
Proof.
  induction t as [|r t IH]; intros H; [done|]. simpl. rewrite (H r) by left. rewrite IH; [done|].
  intros r' Hr'. apply H. by right.
Qed.

Lemma sum_of_nonneg val t : (∀ r, r ∈ t → 0 ≤ val r)%Z → (0 ≤ sum_of val t)%Z.
Proof.
  induction t as [|r t IH]; intros H; [done|]. simpl. specialize (H r ltac:(left)) as Hr.
  assert (0 ≤ sum_of val t)%Z; [|lia]. apply IH. intros r' Hr'. apply H. by right.
Qed.

Lemma sum_of_update_none val P f t : (∀ r, r ∈ t → P r = true → val (f r) = val r) → sum_of val (update_where P f t) = sum_of val t.
Proof.
  unfold update_where. induction t as [|r t IH]; intros H; [done|]. rewrite fmap_cons. simpl.
  rewrite IH by (intros r' Hr'; apply H; by right). destruct (P r) eqn:E; [|done]. rewrite (H r); [done|left|done].
Qed.

(** An [UPDATE] of one row *)
Lemma sum_of_update {K} (key : R → K) val P f t r :
  unique key t → r ∈ t → P r = true → (∀ r', r' ∈ t → P r' = true → key r' = key r) →
  sum_of val (update_where P f t) = (sum_of val t + (val (f r) - val r))%Z.
Proof.
  unfold unique. intros Hu Hr HP Hk. induction t as [|x t IH]; [by apply elem_of_nil in Hr|].
  rewrite fmap_cons in Hu. apply NoDup_cons in Hu as [Hx Hu]. unfold update_where. rewrite fmap_cons. simpl.
  apply elem_of_cons in Hr as [->|Hr].
  - rewrite HP. enough (sum_of val (update_where P f t) = sum_of val t) as E by (unfold update_where, sum_of in *; lia).
    apply sum_of_update_none. intros r' Hr' HP'. destruct Hx. rewrite <- (Hk r') by (by right || done). by apply list_elem_of_fmap_2.
  - destruct (P x) eqn:HPx.
    + destruct Hx. rewrite (Hk x) by (by left || done). by apply list_elem_of_fmap_2.
    + fold (update_where P f t). rewrite IH; [lia|done|done|]. intros r' Hr'. apply Hk. by right.
Qed.

End statements.

(** ** Tables that grow

    Every row of [t] is in [t'], in its place, changed by [change]s; the rows after them were
    [born] since. *)

Section evolution.
Context {R : Type} (change : relation R) (born : R → Prop).
Implicit Types t : list R.

Definition evolves t t' : Prop := ∃ moved more,
  t' = moved ++ more ∧ Forall2 (rtc change) t moved ∧ Forall (λ r, ∃ r0, born r0 ∧ rtc change r0 r) more.

Lemma evolves_refl t : evolves t t.
Proof. exists t, []. by rewrite app_nil_r. Qed.

Lemma evolves_trans t0 t1 t2 : evolves t0 t1 → evolves t1 t2 → evolves t0 t2.
Proof.
  intros (m1 & more1 & -> & H1 & B1) (m2 & more2 & -> & H2 & B2).
  apply Forall2_app_inv_l in H2 as (a & b & Ha & Hb & ->). exists a, (b ++ more2). rewrite app_assoc.
  split; [done|]. split; [by etrans|]. apply Forall_app. split; [|done]. clear -B1 Hb.
  induction Hb as [|x y l l' Hxy _ IH]; [constructor|]. apply Forall_cons in B1 as [(r0 & Hr0 & Hx) B1].
  constructor; [|by apply IH]. exists r0. split; [done|by etrans].
Qed.

Lemma evolves_update t P f : (∀ r, r ∈ t → P r = true → rtc change r (f r)) → evolves t (update_where P f t).
Proof.
  intros H. exists (update_where P f t), []. rewrite app_nil_r. split; [done|]. split; [|constructor].
  unfold update_where. apply Forall2_fmap_r, Forall_Forall2_diag, Forall_forall. intros r Hr. simpl.
  destruct (P r) eqn:HP; [by apply H|done].
Qed.

Lemma evolves_insert t t' clash r : born r → insert_row clash r t = Some t' → evolves t t'.
Proof.
  intros Hr [-> _]%insert_row_some. exists t, [r]. split; [done|]. split; [done|]. constructor; [by exists r|constructor].
Qed.

Lemma evolves_insert_or_ignore t clash r : born r → evolves t (insert_or_ignore clash r t).
Proof.
  intros Hr. destruct (insert_or_ignore_cases clash r t) as [[-> _]|H]; [apply evolves_refl|by eapply evolves_insert].
Qed.

(** A row that was not in an empty table was born. *)
Lemma evolves_born t r : evolves [] t → r ∈ t → ∃ r0, born r0 ∧ rtc change r0 r.
Proof.
  intros (moved & more & -> & ->%Forall2_nil_inv_l & Hm) Hr. by apply (proj1 (Forall_forall _ _) Hm).
Qed.

Lemma evolves_row t t' r : evolves t t' → r ∈ t → ∃ r', r' ∈ t' ∧ rtc change r r'.
Proof.
  intros (moved & more & -> & H & _) [i Hi]%list_elem_of_lookup.
  destruct (Forall2_lookup_l _ _ _ _ _ H Hi) as (r' & Hr' & Hs). exists r'. split; [|done].
  apply elem_of_app. left. by eapply list_elem_of_lookup_2.
Qed.

(** A key that no change touches stays unique while rows only change. *)
Lemma changes_key {K} (key : R → K) r r' :
  (∀ r r', change r r' → key r' = key r) → rtc change r r' → key r' = key r.
Proof. intros Hk. induction 1 as [|r1 r2 r3 H _ IH]; [done|]. by rewrite IH, (Hk _ _ H). Qed.

End evolution.

(** ** Transactions

    [World] is the tables with what a rollback does not give back: how many random
    identifiers have been drawn. *)

Record World (DB : Type) := mk_world { db : DB; drawn : nat }.
Arguments mk_world {DB}.
Arguments db {DB}.
Arguments drawn {DB}.

Section transactions.
Context {DB E : Type}.

(** [with self._transaction() as conn:] *)
Definition transaction {A} (m : py (World DB) E A) : py (World DB) E A :=
  λ w, match m w with
       | (Ret a, w') => (Ret a, w')
       | (Exc e, w') => (Exc e, mk_world (db w) (drawn w'))
       end.

Definition with_db (f : DB → DB) : py (World DB) E unit := py_modify (λ w, mk_world (f (db w)) (drawn w)).
Definition get_db : py (World DB) E DB := λ w, (Ret (db w), w).
(** A random identifier: the next one that has not been drawn *)
Definition draw (uuid : nat → string) : py (World DB) E string :=
  λ w, (Ret (uuid (drawn w)), mk_world (db w) (S (drawn w))).

(** A property of the tables that a call keeps, whether it returns or raises *)
Definition db_keeps {A} (I : DB → Prop) (m : py (World DB) E A) : Prop := preserves (λ w, I (db w)) m.

Lemma db_keeps_returned {A} I (m : py (World DB) E A) :
  (∀ w a w', m w = (Ret a, w') → I (db w) → I (db w')) → db_keeps I (transaction m).
Proof.
  intros H w Hw. unfold transaction. destruct (m w) as [[a|e] w'] eqn:Em; [by eapply H|done].
Qed.

Lemma db_keeps_atomic {A} (P : DB → Prop) (m : py (World DB) E A) :
  (∀ w e w', m w = (Exc e, w') → db w' = db w) → (∀ w a w', m w = (Ret a, w') → P (db w) → P (db w')) → db_keeps P m.
Proof.
  intros He Hr w Hw. destruct (m w) as [[a|e] w'] eqn:Em; simpl; [by eapply Hr|by rewrite (He _ _ _ Em)].
Qed.

Lemma db_keeps_transaction {A} I (m : py (World DB) E A) : db_keeps I m → db_keeps I (transaction m).
Proof. intros H. apply db_keeps_returned. intros w a w' Em Hw. specialize (H w Hw). by rewrite Em in H. Qed.

(** A transaction that raises leaves the tables as they were. *)
Lemma transaction_exc {A} (m : py (World DB) E A) w e w' :
  transaction m w = (Exc e, w') → db w' = db w.
Proof. unfold transaction. destruct (m w) as [[?|?] ?]; [done|]. by intros [= <- <-]. Qed.

Lemma transaction_ret {A} (m : py (World DB) E A) w a w' :
  transaction m w = (Ret a, w') ↔ m w = (Ret a, w').
Proof. unfold transaction. destruct (m w) as [[?|?] ?]; split; congruence. Qed.

(** A call that leaves the tables as they were when it raises *)
Definition atomic {A} (m : py (World DB) E A) : Prop := ∀ w e w', m w = (Exc e, w') → db w' = db w.
(** One that leaves them as they were anyway *)
Definition reads {A} (m : py (World DB) E A) : Prop := ∀ w, db (m w).2 = db w.

Lemma atomic_transaction {A} (m : py (World DB) E A) : atomic (transaction m).
Proof. intros w e w'. apply transaction_exc. Qed.

Lemma atomic_reads {A} (m : py (World DB) E A) : reads m → atomic m.
Proof. intros H w e w' Em. specialize (H w). by rewrite Em in H. Qed.

Lemma atomic_bind {A B} (m : py (World DB) E A) (k : A → py (World DB) E B) :
  reads m → (∀ a, atomic (k a)) → atomic (py_bind m k).
Proof.
  intros Hm Hk w e w'. specialize (Hm w). unfold py_bind. destruct (m w) as [[a|e'] w1]; simpl in Hm.
  - intros H. rewrite <- Hm. by eapply Hk.
  - by intros [= -> <-].
Qed.

Lemma atomic_ret {A} (a : A) : atomic (py_ret a).
Proof. done. Qed.

Lemma atomic_drop {A} (m : py (World DB) E A) : atomic m → atomic (py_bind m (λ _, py_ret tt)).
Proof.
  intros Hm w e w'. unfold py_bind. destruct (m w) as [[a|e'] w1] eqn:Em; [done|].
  intros [= -> <-]. by eapply Hm.
Qed.

Lemma reads_ret {A} (a : A) : reads (py_ret a).
Proof. done. Qed.

Lemma reads_raise {A} e : reads (A := A) (py_raise e).
Proof. done. Qed.

Lemma reads_get : reads get_db.
Proof. done. Qed.

Lemma reads_guard c e : reads (py_guard c e).
Proof. intros w. by destruct c. Qed.

Lemma reads_some {A} (o : option A) e : reads (py_some o e).
Proof. intros w. by destruct o. Qed.

Lemma transaction_inv {A} (m : py (World DB) E A) w a w' :
  transaction m w = (Ret a, w') → m w = (Ret a, w').
Proof. apply transaction_ret. Qed.

Lemma db_keeps_draw I uuid : db_keeps I (draw uuid).
Proof. by intros w. Qed.

Lemma db_keeps_get I : db_keeps I get_db.
Proof. by intros w. Qed.

Lemma db_keeps_with (I : DB → Prop) f : (∀ d, I d → I (f d)) → db_keeps I (with_db f).
Proof. intros H w Hw. by apply H. Qed.

Lemma db_keeps_ret {A} I (a : A) : db_keeps I (py_ret a).
Proof. by intros w. Qed.

Lemma db_keeps_raise {A} I e : db_keeps (A := A) I (py_raise e).
Proof. by intros w. Qed.

Lemma db_keeps_guard I c e : db_keeps I (py_guard c e).
Proof. intros w Hw. by destruct c. Qed.

Lemma db_keeps_some {A} I (o : option A) e : db_keeps I (py_some o e).
Proof. intros w Hw. by destruct o. Qed.

(** After [if not c: raise e], [c] holds. *)
Lemma db_keeps_guarded {A} I c e (m : py (World DB) E A) :
  (c = true → db_keeps I m) → db_keeps I (py_bind (py_guard c e) (λ _, m)).
Proof. intros H w Hw. unfold py_bind, py_guard. destruct c; [by apply H|done]. Qed.

(** The tables that a call returned with *)
Lemma db_keeps_ret_inv {A} I (m : py (World DB) E A) w r w' :
  db_keeps I m → m w = (r, w') → I (db w) → I (db w').
Proof. intros H Em Hw. specialize (H w Hw). by rewrite Em in H. Qed.

Lemma db_keeps_bind {A B} I (m : py (World DB) E A) (k : A → py (World DB) E B) :
  db_keeps I m → (∀ a, db_keeps I (k a)) → db_keeps I (py_bind m k).
Proof. apply preserves_bind. Qed.

End transactions.

Create HintDb db_keeps.
#[export] Hint Resolve db_keeps_draw db_keeps_get db_keeps_ret db_keeps_raise db_keeps_guard db_keeps_some
  db_keeps_transaction : db_keeps.
#[export] Hint Extern 3 (db_keeps _ (py_bind _ _)) => (apply db_keeps_bind; [|intros]) : db_keeps.
#[export] Hint Extern 4 (db_keeps _ (match ?x with _ => _ end)) => (destruct x) : db_keeps.

Create HintDb atomic.
#[export] Hint Resolve atomic_transaction atomic_ret reads_ret reads_raise reads_get reads_guard reads_some : atomic.
#[export] Hint Extern 3 (atomic (py_bind _ _)) => (apply atomic_bind; [|intros]) : atomic.
#[export] Hint Extern 4 (atomic (match ?x with _ => _ end)) => (destruct x) : atomic.

(** ** Inversion of calls that return *)

Section inversion.
Context {S E : Type}.

Lemma py_ret_inv {A} (a b : A) (s s' : S) : py_ret (E := E) a s = (Ret b, s') → b = a ∧ s' = s.
Proof. by intros [= <- <-]. Qed.

Lemma py_raise_inv {A} (e : E) (b : A) (s s' : S) : py_raise e s = (Ret b, s') → False.
Proof. done. Qed.

Lemma py_guard_inv c (e : E) u (s s' : S) : py_guard c e s = (Ret u, s') → c = true ∧ s' = s.
Proof. unfold py_guard. destruct c; [|done]. by intros [= <- <-]. Qed.

(** A call whose first part returns goes on. *)
Lemma py_bind_run {A B} (m : py S E A) (k : A → py S E B) s a s' : m s = (Ret a, s') → py_bind m k s = k a s'.
Proof. unfold py_bind. by intros ->. Qed.

Lemma py_guard_run {B} c (e : E) (k : unit → py S E B) s : c = true → py_bind (py_guard c e) k s = k tt s.
Proof. by intros ->. Qed.

Lemma py_some_run {A B} o (e : E) (k : A → py S E B) a s : o = Some a → py_bind (py_some o e) k s = k a s.
Proof. by intros ->. Qed.

Lemma py_some_inv {A} (o : option A) (e : E) a (s s' : S) : py_some o e s = (Ret a, s') → o = Some a ∧ s' = s.
Proof. destruct o; [|done]. by intros [= <- <-]. Qed.

Lemma get_db_inv {DB} (w w' : World DB) d : get_db (E := E) w = (Ret d, w') → d = db w ∧ w' = w.
Proof. by intros [= <- <-]. Qed.

Lemma with_db_inv {DB} f (w w' : World DB) u :
  with_db (E := E) f w = (Ret u, w') → w' = mk_world (f (db w)) (drawn w).
Proof. by intros [= <- <-]. Qed.

Lemma draw_inv {DB} uuid (w w' : World DB) x :
  draw (E := E) uuid w = (Ret x, w') → x = uuid (drawn w) ∧ w' = mk_world (db w) (Datatypes.S (drawn w)).
Proof. by intros [= <- <-]. Qed.

End inversion.

(** Takes apart a call that has returned, one statement at a time *)
Ltac call_step :=
  match goal with
  | H : py_bind _ _ _ = (Ret _, _) |- _ =>
      let a := fresh "a" in let w := fresh "w" in let H1 := fresh "H" in
      apply py_bind_ret_inv in H as (a & w & H1 & H)
  | H : transaction _ _ = (Ret _, _) |- _ => apply transaction_inv in H
  | H : py_ret _ _ = (Ret _, _) |- _ => apply py_ret_inv in H as [? ?]; subst
  | H : py_raise _ _ = (Ret _, _) |- _ => destruct (py_raise_inv _ _ _ _ H)
  | H : py_guard _ _ _ = (Ret _, _) |- _ => apply py_guard_inv in H as [? ?]; subst
  | H : py_some _ _ _ = (Ret _, _) |- _ => apply py_some_inv in H as [? ?]; subst
  | H : get_db _ = (Ret _, _) |- _ => apply get_db_inv in H as [? ?]; subst
  | H : with_db _ _ = (Ret _, _) |- _ => apply with_db_inv in H; subst
  | H : draw _ _ = (Ret _, _) |- _ => apply draw_inv in H as [? ?]; subst
  end.
Ltac call_inv := repeat (call_step; cbn beta iota zeta in *; cbn [db drawn] in * ).
