(* ===== verification/MateModels.v ===== *)
(** * Host records of JiuwenMate's Requests

    Source: [server/jiuwenmate/execution_models.py], [require_identifier] and
    [PersistentAgentError] of [models.py], and the names of shared files in
    [output_files.py].

    A class whose [__post_init__] validates is a record with a function that builds it
    or raises; exceptions keep their [code], not their text.  An instant is an integer:
    aware [datetime]s in UTC, and their ISO texts in the tables, are ordered like it.
    [RequestInput] and [ExecutionContext] belong to the agent core package: the former is a
    class of the attributes that are read, the latter a test whether it can be built. *)

From S2P Require Import Prelude OrderedDict PyJson ToolCapabilities Tables.

(** ** Exceptions *)

Inductive mate_error :=
| PersistentAgentError (code : string)
| PersistentContractError (code : string)
| IntegrityError
| OperationalError
| PyValueError
| PyKeyError
| PyTypeError
| PyAttributeError.

Definition BAD_REQUEST : mate_error := PersistentAgentError "BAD_REQUEST".
Definition NOT_FOUND : mate_error := PersistentAgentError "NOT_FOUND".
Definition FORBIDDEN : mate_error := PersistentAgentError "FORBIDDEN".
Definition CONFLICT : mate_error := PersistentAgentError "CONFLICT".
Definition CONTRACT_INVALID : mate_error := PersistentContractError "PERSISTENT_CONTRACT_INVALID".

(** A call that neither reads nor changes the state *)
Definition py_pure {S A} (o : outcome mate_error A) : py S mate_error A := λ s, (o, s).

Lemma py_pure_inv {S A} (o : outcome mate_error A) a (s s' : S) : py_pure o s = (Ret a, s') → o = Ret a ∧ s' = s.
Proof. by intros [= -> <-]. Qed.

Lemma db_keeps_pure {DB A} (P : DB → Prop) (o : outcome mate_error A) : db_keeps P (py_pure o).
Proof. by intros w. Qed.
#[export] Hint Resolve db_keeps_pure : db_keeps.

Lemma reads_pure {DB A} (o : outcome mate_error A) : reads (DB := DB) (py_pure o).
Proof. done. Qed.
#[export] Hint Resolve reads_pure : atomic.

(** [if bad: raise e] *)
Definition reject (bad : bool) (e : mate_error) : outcome mate_error unit := if bad then Exc e else Ret tt.
Definition check {A} (o : outcome mate_error unit) (k : outcome mate_error A) : outcome mate_error A :=
  match o with Ret _ => k | Exc e => Exc e end.

Lemma check_ret {A} o (k : outcome mate_error A) a : check o k = Ret a ↔ o = Ret tt ∧ k = Ret a.
Proof. destruct o as [[]|e]; simpl; naive_solver. Qed.

Lemma reject_ret bad e : reject bad e = Ret tt ↔ bad = false.
Proof. by destruct bad. Qed.

(** [_IDENTIFIER.fullmatch] of [models.py] *)
Definition id_char (c : Ascii.ascii) : bool :=
  negb (py_isspace c) && negb (Nat.ltb (Ascii.nat_of_ascii c) 32) && negb (Nat.eqb (Ascii.nat_of_ascii c) 127).
Fixpoint all_chars (p : Ascii.ascii → bool) (s : string) : bool :=
  match s with EmptyString => true | String c s' => p c && all_chars p s' end.
Definition require_identifier (value : string) : outcome mate_error unit :=
  reject (negb (all_chars id_char value && Nat.leb 1 (String.length value) && Nat.leb (String.length value) 512))
    BAD_REQUEST.

(** [_require_text] *)
Definition blank (s : string) : bool := negb (str_true (py_strip s)).
Definition _require_text (value : string) : outcome mate_error unit := reject (blank value) CONTRACT_INVALID.

Fixpoint require_texts (l : list string) : outcome mate_error unit :=
  match l with [] => Ret tt | x :: l' => check (_require_text x) (require_texts l') end.

Lemma require_texts_ret l : require_texts l = Ret tt ↔ Forall (λ x, blank x = false) l.
Proof.
  induction l as [|x l IH]; simpl; [by split|].
  by rewrite check_ret, IH, Forall_cons; unfold _require_text; rewrite reject_ret.
Qed.

(** ** Conversations and routes *)

Record ConversationRef := { c_kind : string; c_channel : string; c_key : string }.
#[export] Instance ConversationRef_eq : EqDecision ConversationRef.
Proof. solve_decision. Defined.

Definition _REQUEST_KINDS (kind : string) : option (list string) :=
  if kind =s "web_direct" then Some ["direct_message"; "scheduled"]
  else if kind =s "im_direct" then Some ["direct_message"; "scheduled"]
  else if kind =s "group" then Some ["group_message"; "scheduled"]
  else None.

Definition new_conversation_ref (kind channel key : string) : outcome mate_error ConversationRef :=
  check (reject (bool_decide (_REQUEST_KINDS kind = None)) CONTRACT_INVALID)
  (check (require_texts [channel; key])
  (check (reject ((kind =s "web_direct") && negb (channel =s "web")) CONTRACT_INVALID)
  (check (reject ((kind =s "group") && negb (channel =s "group")) CONTRACT_INVALID)
  (check (reject ((kind =s "im_direct") && ((channel =s "web") || (channel =s "group"))) CONTRACT_INVALID)
  (Ret {| c_kind := kind; c_channel := channel; c_key := key |}))))).

Definition web (conversation_id : string) := new_conversation_ref "web_direct" "web" conversation_id.
Definition im_direct (platform chat_id : string) := new_conversation_ref "im_direct" platform chat_id.
Definition group (group_chat_id : string) := new_conversation_ref "group" "group" group_chat_id.

Definition accepts (c : ConversationRef) (request_kind : string) : bool :=
  bool_decide (request_kind ∈ default [] (_REQUEST_KINDS (c_kind c))).

Record RequestRouteSnapshot := {
  rt_channel : string; rt_target_id : string;
  rt_app_id : option string; rt_source_message_id : option string; rt_source_reply_to : option string;
}.
#[export] Instance RequestRouteSnapshot_eq : EqDecision RequestRouteSnapshot.
Proof. solve_decision. Defined.

Definition new_route (channel target_id : string) (app_id source_message_id source_reply_to : option string)
    : outcome mate_error RequestRouteSnapshot :=
  check (reject (negb (bool_decide (channel ∈ ["web"; "feishu"; "dingtalk"; "welink"]))) CONTRACT_INVALID)
  (check (_require_text target_id)
  (check (require_texts (omap id [app_id; source_message_id; source_reply_to]))
  (check (reject (bool_decide (channel ∈ ["feishu"; "dingtalk"; "welink"])
                  && (bool_decide (app_id = None) || bool_decide (source_message_id = None))) CONTRACT_INVALID)
  (check (reject ((channel =s "web") && negb (bool_decide (app_id = None))) CONTRACT_INVALID)
  (Ret {| rt_channel := channel; rt_target_id := target_id; rt_app_id := app_id;
          rt_source_message_id := source_message_id; rt_source_reply_to := source_reply_to |}))))).

(** ** Requests *)

Record AccessSnapshot := {
  principal_ref : string; startup_scope : gset string; source_scope : gset string; policy_revision : string;
}.
Definition new_access (principal : string) (startup source : gset string) (revision : string)
    : outcome mate_error AccessSnapshot :=
  check (require_texts [principal; revision])
  (Ret {| principal_ref := principal; startup_scope := startup; source_scope := source; policy_revision := revision |}).

Record PermissionOrigin := {
  po_principal_ref : string; po_agent_id : string; po_request_id : string; po_route : RequestRouteSnapshot;
}.
Definition new_origin (principal agent request : string) (route : RequestRouteSnapshot)
    : outcome mate_error PermissionOrigin :=
  check (require_texts [principal; agent; request])
  (Ret {| po_principal_ref := principal; po_agent_id := agent; po_request_id := request; po_route := route |}).

(** What is read of the package's [RequestInput]: [kind], the [sender_kind] and
    [message_id] of [source] with its [sender_id] when it has one, whether
    [continue_instruction] is given, and [RequestInput.model_validate] *)
Class RequestInputs (I : Type) := {
  in_kind : I → string;
  in_source : I → option (string * string);
  in_sender_id : I → option string;
  in_continues : I → bool;
  model_validate : I → option I;
}.

(** A [datetime]: its instant, and whether it has a time zone *)
Record datetime := { instant : Z; aware : bool }.

Section records.
Context {I : Type} `{!RequestInputs I}.

Record RequestRecord := {
  namespace_id : string; agent_id : string; session_id : string; request_id : string; source_ref : string;
  config_version : string; config_fingerprint : string;
  access : AccessSnapshot; request_input : I; received_at : Z;
  route_snapshot : option RequestRouteSnapshot; permission_origin : option PermissionOrigin;
}.

Definition new_request_record (ns agent session request source version fingerprint : string)
    (acc : AccessSnapshot) (input : I) (received : datetime) (route : option RequestRouteSnapshot)
    (origin : option PermissionOrigin) : outcome mate_error RequestRecord :=
  check (require_texts [ns; agent; session; request; source; version; fingerprint])
  (match model_validate input with
   | None => Exc CONTRACT_INVALID
   | Some input =>
       check (reject (in_continues input) CONTRACT_INVALID)
       (check (reject (negb (aware received)) CONTRACT_INVALID)
       (Ret {| namespace_id := ns; agent_id := agent; session_id := session; request_id := request;
               source_ref := source; config_version := version; config_fingerprint := fingerprint;
               access := acc; request_input := input; received_at := instant received;
               route_snapshot := route; permission_origin := origin |}))
   end).

Record ExecutionRecord := { ex_request_id : string; execution_id : string; recovery_ref : option string }.

Definition new_execution_record (request execution : string) (recovery : option string)
    : outcome mate_error ExecutionRecord :=
  check (require_texts [request; execution])
  (check (match recovery with
          | Some r => check (_require_text r) (reject (r =s execution) CONTRACT_INVALID)
          | None => Ret tt
          end)
  (Ret {| ex_request_id := request; execution_id := execution; recovery_ref := recovery |})).

Record SessionRecord := {
  sn_namespace_id : string; sn_agent_id : string; sn_session_id : string;
  conversation : ConversationRef; sn_created_at : Z;
}.

Inductive RequestStatus := queued | dispatched | ended.
#[export] Instance RequestStatus_eq : EqDecision RequestStatus.
Proof. solve_decision. Defined.

Definition ENDED_OUTCOMES : list string :=
  ["completed"; "ignored"; "paused"; "failed"; "cancelled"; "stopped"].

Record RequestState := {
  record : RequestRecord; seq : Z; status : RequestStatus; outcome_ : option string; updated_at : Z;
}.

(** ** [build_execution_context] *)

Record ExecutionContext := {
  cx_namespace_id : string; cx_agent_id : string; cx_session_id : string; cx_request_id : string;
  cx_execution_id : string; cx_source_ref : string; cx_config_version : string; cx_config_fingerprint : string;
  cx_principal_ref : string; cx_startup_scope : gset string; cx_source_scope : gset string;
  cx_policy_revision : string; cx_capability_snapshot : gset string; cx_recovery_ref : option string;
}.

(** [accepted]: the package's constructor does not raise. *)
Definition build_execution_context (accepted : ExecutionContext → bool) (request : RequestRecord)
    (execution : ExecutionRecord) (capability_snapshot : gset string) : outcome mate_error ExecutionContext :=
  check (reject (negb (ex_request_id execution =s request_id request)) CONTRACT_INVALID)
  (let startup := startup_scope (access request) in
   let source := source_scope (access request) in
   let legacy_feishu_direct_message :=
     (in_kind (request_input request) =s "direct_message")
     && starts_with "feishu:" (principal_ref (access request))
     && (policy_revision (access request) =s "jm08-feishu-v1") in
   let widen := legacy_feishu_direct_message && bool_decide ("chat" ∈ startup) && bool_decide ("chat" ∈ source) in
   let read := {["workspace_knowledge_read"]} in
   let context :=
     {| cx_namespace_id := namespace_id request; cx_agent_id := agent_id request;
        cx_session_id := session_id request; cx_request_id := request_id request;
        cx_execution_id := execution_id execution; cx_source_ref := source_ref request;
        cx_config_version := config_version request; cx_config_fingerprint := config_fingerprint request;
        cx_principal_ref := principal_ref (access request);
        cx_startup_scope := if widen then startup ∪ read else startup;
        cx_source_scope := if widen then source ∪ read else source;
        cx_policy_revision := policy_revision (access request);
        cx_capability_snapshot := capability_snapshot; cx_recovery_ref := recovery_ref execution |} in
   check (reject (negb (accepted context)) CONTRACT_INVALID) (Ret context)).

End records.
Arguments RequestRecord I : clear implicits.
Arguments RequestState I : clear implicits.
