(* ===== verification/RequestStore.v ===== *)
(** * Sessions, Requests and Executions of JiuwenMate

    Source: [server/jiuwenmate/execution_repository.py], the Request queue of
    [ExecutionRepository]; its deliveries are in [DeliveryStore].

    [DB] has the tables of the file, with those that [recovery_service.py] and
    [execution_control_service.py] keep in it.  A row holds the record whose fields its
    columns are, so that [record_json] is the [RequestRecord] itself and [payload_json] the
    JSON value.  [AgentEvent] has what is read of the package's events, [digest] being
    [proposal_digest()].  Random identifiers are drawn from [uuid].

    Not modelled: [_index_session_artifacts] and the searches over [session_artifacts], a
    table that nothing else reads; the text of a failure notice is [notice_text]. *)

From S2P Require Import Prelude OrderedDict PyJson ToolCapabilities Tables MateModels.

(** ** Events *)

(** An [output.proposed]; [o_body] is what [payload_json] holds. *)
Record Output := { output_id : string; target_ref : string; share_mode : string; o_body : jdict }.
#[export] Instance Output_eq : EqDecision Output.
Proof. solve_decision. Defined.

(** A tool call that waits for a confirmation: what is read of it; [call_rest] is all the rest *)
Record InterceptedCall := {
  tool_call_id : string; tool_name : string; approval_ref : option string; call_rest : string;
}.
#[export] Instance InterceptedCall_eq : EqDecision InterceptedCall.
Proof. solve_decision. Defined.

Inductive EventPayload :=
| OUTPUT_PROPOSED (o : Output)
| TOOL_INTENT (call_id : string)
| TOOL_COMPLETED (call_id : string)
| EXECUTION_PAUSED (output_refs : list string) (reason : string) (detail : option string)
    (intercepted : list InterceptedCall)
| EXECUTION_FINAL (output_refs : list string) (status : string) (reason : option string)
| OTHER_EVENT (event_type : string).
#[export] Instance EventPayload_eq : EqDecision EventPayload.
Proof. solve_decision. Defined.

Record AgentEvent := {
  ev_namespace_id : string; ev_agent_id : string; ev_session_id : string; ev_source_ref : string;
  ev_request_id : string; ev_execution_id : string; event_id : string; local_seq : Z;
  occurred_at : Z; payload : EventPayload; digest : string;
}.
#[export] Instance AgentEvent_eq : EqDecision AgentEvent.
Proof. solve_decision. Defined.

Definition terminal_event (p : EventPayload) : bool :=
  match p with EXECUTION_PAUSED _ _ _ _ | EXECUTION_FINAL _ _ _ => true | _ => false end.

Definition output_refs (p : EventPayload) : list string :=
  match p with EXECUTION_PAUSED l _ _ _ | EXECUTION_FINAL l _ _ => l | _ => [] end.

(** [_failure_of] *)
Definition _failure_of (p : EventPayload) : option (string * option string) :=
  match p with
  | EXECUTION_PAUSED _ reason detail _ =>
      if bool_decide (reason ∈ ["error"; "context_unfit"; "budget_denied"]) then Some (reason, detail) else None
  | EXECUTION_FINAL _ status reason => if status =s "failed" then Some ("error", reason) else None
  | _ => None
  end.

Definition FILE_SHARE_MODES : list string := ["upload"; "attachment"].

(** [_deliverable] *)
Definition _deliverable (share_mode : string) (body : jdict) : bool :=
  if share_mode =s "message" then
    match j_get body "text" with JStr text => negb (blank text) | _ => false end
  else
    bool_decide (share_mode ∈ FILE_SHARE_MODES)
    && match j_get body "file_ref", j_get body "file_path" with
       | JStr _, JStr path => str_true path
       | _, _ => false
       end.

(** ** Tables *)

Record SessionRow := { session_of : SessionRecord; next_seq : Z }.
Record ExecutionRow := { x_namespace_id : string; execution_of : ExecutionRecord; started_at : Z }.
Record LinkRow := {
  l_namespace_id : string; l_agent_id : string; l_session_id : string; l_request_id : string;
  l_execution_id : string; predecessor_id : option string; relation_ : string;
}.
Record EventRow := { event : AgentEvent; e_recorded_at : Z }.
Record OutputRow := {
  o_namespace_id : string; output : Output; o_request_id : string; o_execution_id : string; o_event_id : string;
  o_recorded_at : Z;
}.

Inductive DeliveryStatus := available | pending | sending | unknown | delivered | failed.
#[export] Instance DeliveryStatus_eq : EqDecision DeliveryStatus.
Proof. solve_decision. Defined.

Record DeliveryRow := {
  d_namespace_id : string; delivery_id : string; d_request_id : string; d_execution_id : string;
  d_output_id : string; d_channel : string; d_target_id : string; d_status : DeliveryStatus;
  idempotency_key : string; attempt_count : Z; external_message_id : option string; error_code : option string;
  d_created_at : Z; d_updated_at : Z;
  file_key : option string; notice : option string; job_json : option jdict; handoff_done : bool;
}.

Record RecoveryRow := {
  r_namespace_id : string; r_request_id : string; r_execution_id : string; decision : string;
  r_outcome : string; unverified : list string; decided_at : Z;
}.
Record ControlRow := {
  k_namespace_id : string; k_request_id : string; k_reason : string; k_principal_ref : string;
  k_status : string; k_detail : option string; requested_at : Z; k_updated_at : Z;
}.

Section store.
Context {I : Type} `{!RequestInputs I}.
Context (uuid : nat → string) (notice_text : string → string → option string → string).

(** [request_recoveries] is [None] when the file has no such table. *)
Record DB := mk_db {
  sessions : list SessionRow;
  requests : list (RequestState I);
  executions : list ExecutionRow;
  links : list LinkRow;
  events : list EventRow;
  outputs : list OutputRow;
  deliveries : list DeliveryRow;
  archives : list (string * string);
  request_recoveries : option (list RecoveryRow);
  request_controls : list ControlRow;
}.

Definition with_sessions t d := mk_db t (requests d) (executions d) (links d) (events d) (outputs d)
  (deliveries d) (archives d) (request_recoveries d) (request_controls d).
Definition with_requests t d := mk_db (sessions d) t (executions d) (links d) (events d) (outputs d)
  (deliveries d) (archives d) (request_recoveries d) (request_controls d).
Definition with_executions t d := mk_db (sessions d) (requests d) t (links d) (events d) (outputs d)
  (deliveries d) (archives d) (request_recoveries d) (request_controls d).
Definition with_links t d := mk_db (sessions d) (requests d) (executions d) t (events d) (outputs d)
  (deliveries d) (archives d) (request_recoveries d) (request_controls d).
Definition with_events t d := mk_db (sessions d) (requests d) (executions d) (links d) t (outputs d)
  (deliveries d) (archives d) (request_recoveries d) (request_controls d).
Definition with_outputs t d := mk_db (sessions d) (requests d) (executions d) (links d) (events d) t
  (deliveries d) (archives d) (request_recoveries d) (request_controls d).
Definition with_deliveries t d := mk_db (sessions d) (requests d) (executions d) (links d) (events d) (outputs d)
  t (archives d) (request_recoveries d) (request_controls d).
Definition with_archives t d := mk_db (sessions d) (requests d) (executions d) (links d) (events d) (outputs d)
  (deliveries d) t (request_recoveries d) (request_controls d).
Definition with_recoveries t d := mk_db (sessions d) (requests d) (executions d) (links d) (events d) (outputs d)
  (deliveries d) (archives d) t (request_controls d).
Definition with_controls t d := mk_db (sessions d) (requests d) (executions d) (links d) (events d) (outputs d)
  (deliveries d) (archives d) (request_recoveries d) t.

(** The columns of the keys and of the [UNIQUE] constraints *)
Definition session_key (r : SessionRow) := (sn_namespace_id (session_of r), sn_session_id (session_of r)).
Definition conversation_key (r : SessionRow) :=
  (sn_namespace_id (session_of r), sn_agent_id (session_of r), conversation (session_of r)).
Definition request_key (r : RequestState I) := (namespace_id (record r), request_id (record r)).
Definition source_key (r : RequestState I) :=
  (namespace_id (record r), agent_id (record r), source_ref (record r)).
Definition queue_key (r : RequestState I) := (namespace_id (record r), session_id (record r)).
Definition seq_key (r : RequestState I) := (queue_key r, seq r).
Definition execution_key (r : ExecutionRow) := (x_namespace_id r, execution_id (execution_of r)).
Definition link_key (r : LinkRow) := (l_namespace_id r, l_execution_id r).
Definition event_key (r : EventRow) := (ev_namespace_id (event r), event_id (event r)).
Definition local_key (r : EventRow) := (ev_namespace_id (event r), ev_execution_id (event r), local_seq (event r)).
Definition output_key (r : OutputRow) := (o_namespace_id r, output_id (output r)).
Definition delivery_key (r : DeliveryRow) := (d_namespace_id r, delivery_id r).
Definition route_key (r : DeliveryRow) :=
  (d_namespace_id r, d_request_id r, d_output_id r, d_channel r, d_target_id r).

Definition session_clash r r' : bool :=
  bool_decide (session_key r = session_key r') || bool_decide (conversation_key r = conversation_key r').
Definition request_clash r r' : bool :=
  bool_decide (request_key r = request_key r') || bool_decide (source_key r = source_key r')
  || bool_decide (seq_key r = seq_key r').
Definition execution_clash r r' : bool := bool_decide (execution_key r = execution_key r').
Definition link_clash r r' : bool := bool_decide (link_key r = link_key r').
Definition event_clash r r' : bool :=
  bool_decide (event_key r = event_key r') || bool_decide (local_key r = local_key r').
Definition output_clash r r' : bool := bool_decide (output_key r = output_key r').
Definition delivery_clash r r' : bool :=
  bool_decide (delivery_key r = delivery_key r') || bool_decide (route_key r = route_key r').

Abbreviation call := (py (World DB) mate_error) (only parsing).

(** [INSERT INTO] a table of the file *)
Definition insert_into {R} (get : DB → list R) (set : list R → DB → DB) (clash : R → R → bool) (r : R) : call unit :=
  d <- get_db ;;
  match insert_row clash r (get d) with
  | Some t => with_db (set t)
  | None => py_raise IntegrityError
  end.

Lemma insert_into_inv {R} (get : DB → list R) set clash r w u w' :
  insert_into get set clash r w = (Ret u, w') →
  ∃ t, insert_row clash r (get (db w)) = Some t ∧ w' = mk_world (set t (db w)) (drawn w).
Proof.
  unfold insert_into. intros H. call_inv. destruct (insert_row clash r (get (db w))) as [t|] eqn:E; [|by call_inv].
  call_inv. eauto.
Qed.

Lemma db_keeps_insert {R} (P : DB → Prop) (get : DB → list R) set clash r :
  (∀ d t, insert_row clash r (get d) = Some t → P d → P (set t d)) → db_keeps P (insert_into get set clash r).
Proof.
  intros H w Hw. unfold insert_into, py_bind, get_db. destruct (insert_row clash r (get (db w))) as [t|] eqn:E; [|done].
  by apply H.
Qed.

Lemma insert_into_run {R} (get : DB → list R) set clash r w :
  (∀ r', r' ∈ get (db w) → clash r r' = false) →
  insert_into get set clash r w = (Ret tt, mk_world (set (get (db w) ++ [r]) (db w)) (drawn w)).
Proof.
  intros H. unfold insert_into, py_bind, get_db, insert_row.
  destruct (existsb (clash r) (get (db w))) eqn:E; [|done].
  apply existsb_exists in E as (r' & Hr' & Hc). rewrite <- list_elem_of_In in Hr'. by rewrite H in Hc.
Qed.

(** ** Sessions *)

Definition resolve_session (ns agent : string) (conv : ConversationRef) (now : Z) : call SessionRecord :=
  py_pure (require_identifier ns) ;;
  py_pure (require_identifier agent) ;;
  let query r := bool_decide (conversation_key r = (ns, agent, conv)) in
  transaction (
    d <- get_db ;;
    match fetchone query (sessions d) with
    | Some row => py_ret (session_of row)
    | None =>
        sid <- draw (λ n, "sess_" +:+ uuid n) ;;
        let session := {| sn_namespace_id := ns; sn_agent_id := agent; sn_session_id := sid;
                          conversation := conv; sn_created_at := now |} in
        insert_into sessions with_sessions session_clash {| session_of := session; next_seq := 1 |} ;;
        py_ret session
    end).

Definition find_session (ns agent : string) (conv : ConversationRef) (d : DB) : option SessionRecord :=
  session_of <$> fetchone (λ r, bool_decide (conversation_key r = (ns, agent, conv))) (sessions d).

Definition get_session (ns sid : string) : call SessionRecord :=
  d <- get_db ;;
  row <- py_some (fetchone (λ r, bool_decide (session_key r = (ns, sid))) (sessions d)) NOT_FOUND ;;
  py_ret (session_of row).

(** ** Requests *)

(** [for row in rows: ... origins.append(origin)] *)
Fixpoint concat_outcomes {A} (l : list (outcome mate_error (list A))) : outcome mate_error (list A) :=
  match l with
  | [] => Ret []
  | Exc e :: _ => Exc e
  | Ret x :: l' => match concat_outcomes l' with Ret y => Ret (x ++ y) | Exc e => Exc e end
  end.

Definition same_route (a b : RequestRouteSnapshot) : bool :=
  bool_decide ((rt_channel a, rt_target_id a) = (rt_channel b, rt_target_id b)).

(** One row of the loop of [_handoff_permission_origin] *)
Definition row_origin (agent : string) (route : RequestRouteSnapshot) (parent : RequestRecord I) (body : jdict)
    : outcome mate_error (list PermissionOrigin) :=
  let keep (o : PermissionOrigin) :=
    if starts_with "feishu:user:" (po_principal_ref o) && same_route (po_route o) route then [o] else [] in
  match route_snapshot parent, j_get body "text" with
  | Some parent_route, JStr text =>
      if negb (in_kind (request_input parent) =s "group_message") || negb (same_route parent_route route)
         || negb (py_contains ("[[agent:" +:+ agent +:+ "]]") text) then Ret []
      else
        match permission_origin parent with
        | Some origin => Ret (keep origin)
        | None =>
            match in_source (request_input parent) with
            | None => Exc PyAttributeError
            | Some (sender_kind, _) =>
                if negb (sender_kind =s "human")
                   || negb (starts_with "feishu:user:" (principal_ref (access parent))) then Ret []
                else match new_origin (principal_ref (access parent)) (agent_id parent) (request_id parent)
                           parent_route with
                     | Ret origin => Ret (keep origin)
                     | Exc e => Exc e
                     end
            end
        end
  | _, _ => Ret []
  end.

(** The rows of its [SELECT] *)
Definition handoff_rows (ns : string) (route : RequestRouteSnapshot) (message_id : string) (d : DB)
    : list (RequestRecord I * jdict) :=
  flat_map (λ dl, flat_map (λ r, flat_map (λ o,
    if bool_decide (namespace_id (record r) = d_namespace_id dl ∧ request_id (record r) = d_request_id dl ∧
         o_namespace_id o = d_namespace_id dl ∧ output_id (output o) = d_output_id dl ∧
         o_request_id o = d_request_id dl ∧ o_execution_id o = d_execution_id dl ∧
         d_namespace_id dl = ns ∧ d_channel dl = rt_channel route ∧ d_target_id dl = rt_target_id route ∧
         external_message_id dl = Some message_id ∧ d_status dl = delivered ∧ notice dl = None ∧
         share_mode (output o) = "message")
    then [(record r, o_body (output o))] else [])
    (outputs d)) (requests d)) (deliveries d).

Definition _handoff_permission_origin (session : SessionRecord) (input : I) (route : option RequestRouteSnapshot)
    (d : DB) : outcome mate_error (option PermissionOrigin) :=
  if negb (in_kind input =s "group_message") then Ret None
  else match in_source input with
       | None => Exc PyAttributeError
       | Some (sender_kind, message_id) =>
           match route with
           | Some route =>
               if negb (sender_kind =s "agent") || negb (rt_channel route =s "feishu") then Ret None
               else match concat_outcomes (map (λ row, row_origin (sn_agent_id session) route row.1 row.2)
                            (handoff_rows (sn_namespace_id session) route message_id d)) with
                    | Ret [origin] => Ret (Some origin)
                    | Ret _ => Ret None
                    | Exc e => Exc e
                    end
           | None => Ret None
           end
       end.

(** [ConfigSnapshot]: the fields that are read *)
Record ConfigSnapshot := { cf_agent_id : string; cf_config_version : string; fingerprint : string }.

Definition accept_request (session : SessionRecord) (snapshot : ConfigSnapshot) (source : string)
    (acc : AccessSnapshot) (input : I) (received : datetime) (route : option RequestRouteSnapshot)
    : call (RequestState I * bool) :=
  let ns := sn_namespace_id session in let agent := sn_agent_id session in let sid := sn_session_id session in
  py_pure (require_identifier source) ;;
  py_guard (cf_agent_id snapshot =s agent) CONTRACT_INVALID ;;
  py_guard (accepts (conversation session) (in_kind input)) (PersistentContractError "REQUEST_SOURCE_MISMATCH") ;;
  transaction (
    d <- get_db ;;
    match fetchone (λ r, bool_decide (source_key r = (ns, agent, source))) (requests d) with
    | Some existing =>
        py_guard (session_id (record existing) =s sid) CONFLICT ;;
        py_ret (existing, false)
    | None =>
        let this r := bool_decide (session_key r = (ns, sid) ∧ sn_agent_id (session_of r) = agent) in
        row <- py_some (fetchone this (sessions d)) NOT_FOUND ;;
        rid <- draw (λ n, "req_" +:+ uuid n) ;;
        origin <- py_pure (_handoff_permission_origin session input route d) ;;
        rec <- py_pure (new_request_record ns agent sid rid source (cf_config_version snapshot)
                          (fingerprint snapshot) acc input received route origin) ;;
        with_db (λ d, with_sessions (update_where (λ r, bool_decide (session_key r = (ns, sid)))
                   (λ r, {| session_of := session_of r; next_seq := next_seq row + 1 |}) (sessions d)) d) ;;
        let state := {| record := rec; seq := next_seq row; status := queued; outcome_ := None;
                        updated_at := received_at rec |} in
        insert_into requests with_requests request_clash state ;;
        py_ret (state, true)
    end).

Definition _require_request (ns rid : string) : call (RequestState I) :=
  d <- get_db ;;
  py_some (fetchone (λ r, bool_decide (request_key r = (ns, rid))) (requests d)) NOT_FOUND.

Lemma require_request_inv ns rid w row w' :
  _require_request ns rid w = (Ret row, w') → row ∈ requests (db w) ∧ request_key row = (ns, rid) ∧ w' = w.
Proof. unfold _require_request. intros H. call_inv. by apply fetchone_dec in H as [? ?]. Qed.

Lemma db_keeps_require (P : DB → Prop) ns rid : db_keeps P (_require_request ns rid).
Proof. unfold _require_request. auto with db_keeps. Qed.

Definition get_request (ns rid : string) : call (RequestState I) := _require_request ns rid.

Definition set_status (s : RequestStatus) (o : option string) (now : Z) (r : RequestState I) : RequestState I :=
  {| record := record r; seq := seq r; status := s; outcome_ := o; updated_at := now |}.

(** [UPDATE requests SET status, outcome, updated_at WHERE] *)
Definition update_requests (P : RequestState I → bool) (f : RequestState I → RequestState I) : call unit :=
  with_db (λ d, with_requests (update_where P f (requests d)) d).

(** [_pending_continuation]; the latest judgment is the last row with the greatest time. *)
Definition latest_recovery (P : RecoveryRow → bool) (t : list RecoveryRow) : option RecoveryRow :=
  last (py_sorted decided_at (select P t)).

Definition _pending_continuation (ns rid : string) (d : DB) : option string :=
  t ← request_recoveries d;
  row ← latest_recovery (λ r, bool_decide (r_namespace_id r = ns ∧ r_request_id r = rid ∧
          decision r = "awaiting_continuation")) t;
  match fetchone (λ x, bool_decide (x_namespace_id x = ns ∧ ex_request_id (execution_of x) = rid ∧
                    recovery_ref (execution_of x) = Some (r_execution_id row))) (executions d) with
  | Some _ => None
  | None => Some (r_execution_id row)
  end.

Definition link_of (row : RequestState I) (x : ExecutionRecord) : LinkRow :=
    {| l_namespace_id := namespace_id (record row); l_agent_id := agent_id (record row);
       l_session_id := session_id (record row); l_request_id := ex_request_id x;
       l_execution_id := execution_id x; predecessor_id := recovery_ref x;
       relation_ := match recovery_ref x with Some _ => "continuation" | None => "first" end |}.
Definition _save_link (row : RequestState I) (x : ExecutionRecord) : call unit :=
  insert_into links with_links link_clash (link_of row x).

Definition start_execution (ns rid : string) (now : Z) : call ExecutionRecord :=
  transaction (
    row <- _require_request ns rid ;;
    py_guard (bool_decide (status row = queued)) CONFLICT ;;
    d <- get_db ;;
    let busy r := bool_decide (namespace_id (record r) = ns ∧ session_id (record r) = session_id (record row) ∧
                    status r = dispatched) in
    py_guard (bool_decide (fetchone busy (requests d) = None)) (PersistentAgentError "SESSION_BUSY") ;;
    xid <- draw (λ n, "exe_" +:+ uuid n) ;;
    x <- py_pure (new_execution_record rid xid (_pending_continuation ns rid d)) ;;
    insert_into executions with_executions execution_clash
      {| x_namespace_id := ns; execution_of := x; started_at := now |} ;;
    _save_link row x ;;
    update_requests (λ r, bool_decide (request_key r = (ns, rid)))
      (λ r, set_status dispatched (outcome_ r) now r) ;;
    py_ret x).

Definition reopen_for_continuation (ns rid : string) (now : Z) (expected : option string) : call bool :=
  transaction (
    row <- _require_request ns rid ;;
    if negb (bool_decide (status row = ended ∧ outcome_ row = Some "paused")) then py_ret false
    else
      d <- get_db ;;
      match _pending_continuation ns rid d with
      | None => py_ret false
      | Some predecessor =>
          if negb (bool_decide (expected = None)) && negb (bool_decide (expected = Some predecessor))
          then py_ret false
          else
            update_requests (λ r, bool_decide (request_key r = (ns, rid) ∧ status r = ended))
              (set_status queued None now) ;;
            py_ret true
      end).

Definition execution_link (ns rid xid : string) (d : DB) : option LinkRow :=
  row ← fetchone (λ l, bool_decide (link_key l = (ns, xid))) (links d);
  if l_request_id row =s rid then Some row else None.

Definition finish_request (ns rid outcome : string) (now : Z) : call (RequestState I) :=
  py_guard (bool_decide (outcome ∈ ENDED_OUTCOMES)) BAD_REQUEST ;;
  transaction (
    row <- _require_request ns rid ;;
    if bool_decide (status row = ended) then
      py_guard (bool_decide (outcome_ row = Some outcome)) CONFLICT ;;
      py_ret row
    else
      update_requests (λ r, bool_decide (request_key r = (ns, rid))) (set_status ended (Some outcome) now) ;;
      _require_request ns rid).

Definition executions_of (ns rid : string) (d : DB) : list ExecutionRecord :=
  execution_of <$> py_sorted started_at
    (select (λ x, bool_decide (x_namespace_id x = ns ∧ ex_request_id (execution_of x) = rid)) (executions d)).

Definition session_requests (ns sid : string) (d : DB) : list (RequestState I) :=
  py_sorted seq (select (λ r, bool_decide (queue_key r = (ns, sid))) (requests d)).

Definition latest_session_request (ns sid : string) (d : DB) : option (RequestState I) :=
  last (session_requests ns sid d).

Definition pending_requests (ns : string) (d : DB) : list (RequestState I) :=
  order_by_text (λ r, session_id (record r)) (py_sorted seq
    (select (λ r, bool_decide (namespace_id (record r) = ns ∧ status r ∈ [queued; dispatched])) (requests d))).

(** ** Events and outputs *)

(** A delivery as an [INSERT] makes it *)
Definition new_delivery (ns id rid xid oid channel target key : string) (now : Z) (text : option string) : DeliveryRow :=
  {| d_namespace_id := ns; delivery_id := id; d_request_id := rid; d_execution_id := xid; d_output_id := oid;
     d_channel := channel; d_target_id := target;
     d_status := if channel =s "web" then available else pending;
     idempotency_key := key; attempt_count := 0; external_message_id := None; error_code := None;
     d_created_at := now; d_updated_at := now; file_key := None; notice := text; job_json := None;
     handoff_done := false |}.

Definition add_delivery (r : DeliveryRow) : call unit :=
  with_db (λ d, with_deliveries (insert_or_ignore delivery_clash r (deliveries d)) d).

Definition _enqueue_failure_notice (rec : RequestRecord I) (xid reason : string) (detail : option string) (now : Z)
    : call unit :=
  let channel := match route_snapshot rec with Some route => rt_channel route | None => "web" end in
  let target := match route_snapshot rec with Some route => rt_target_id route | None => session_id rec end in
  oid <- draw (λ n, "notice_" +:+ uuid n) ;;
  key <- draw uuid ;;
  add_delivery (new_delivery (namespace_id rec) ("del_failure_" +:+ xid) (request_id rec) xid oid channel target key
                  now (Some (notice_text (request_id rec) reason detail))).

(** The loop over [output_refs] *)
Fixpoint deliver_outputs (ev : AgentEvent) (route : RequestRouteSnapshot) (now : Z) (refs : list string) : call unit :=
  match refs with
  | [] => py_ret tt
  | oid :: refs' =>
      d <- get_db ;;
      (match fetchone (λ o, bool_decide (o_namespace_id o = ev_namespace_id ev ∧ o_request_id o = ev_request_id ev ∧
                        output_id (output o) = oid)) (outputs d) with
       | Some o =>
           if _deliverable (share_mode (output o)) (o_body (output o)) then
             id <- draw (λ n, "del_" +:+ uuid n) ;;
             key <- draw uuid ;;
             add_delivery (new_delivery (ev_namespace_id ev) id (ev_request_id ev) (ev_execution_id ev) oid
                             (rt_channel route) (rt_target_id route) key now None)
           else py_ret tt
       | None => py_ret tt
       end) ;;
      deliver_outputs ev route now refs'
  end.

Definition _ensure_result_deliveries (ev : AgentEvent) (now : Z) : call unit :=
  request <- _require_request (ev_namespace_id ev) (ev_request_id ev) ;;
  (match route_snapshot (record request) with
   | Some route => deliver_outputs ev route now (output_refs (payload ev))
   | None => py_ret tt
   end) ;;
  match _failure_of (payload ev) with
  | Some (reason, detail) => _enqueue_failure_notice (record request) (ev_execution_id ev) reason detail now
  | None => py_ret tt
  end.

Definition record_execution_failure (ns rid xid reason : string) (detail : option string) (now : Z) : call unit :=
  transaction (
    row <- _require_request ns rid ;;
    d <- get_db ;;
    py_guard (bool_decide (fetchone (λ x, bool_decide (x_namespace_id x = ns ∧
                ex_request_id (execution_of x) = rid ∧ execution_id (execution_of x) = xid)) (executions d) ≠ None))
      NOT_FOUND ;;
    _enqueue_failure_notice (record row) xid reason detail now ;;
    update_requests (λ r, bool_decide (request_key r = (ns, rid) ∧ status r = dispatched))
      (set_status ended (Some "failed") now)).

Definition _insert_output (ev : AgentEvent) (o : Output) (now : Z) : call unit :=
  d <- get_db ;;
  match fetchone (λ r, bool_decide (output_key r = (ev_namespace_id ev, output_id o))) (outputs d) with
  | Some existing =>
      py_guard (bool_decide (o_request_id existing = ev_request_id ev ∧ o_body (output existing) = o_body o)) CONFLICT
  | None =>
      insert_into outputs with_outputs output_clash
        {| o_namespace_id := ev_namespace_id ev; output := o; o_request_id := ev_request_id ev;
           o_execution_id := ev_execution_id ev; o_event_id := event_id ev; o_recorded_at := now |}
  end.

(** [_require_outputs] *)
Fixpoint _require_outputs (ev : AgentEvent) (refs : list string) : call unit :=
  match refs with
  | [] => py_ret tt
  | oid :: refs' =>
      d <- get_db ;;
      py_guard (bool_decide (fetchone (λ o, bool_decide (o_namespace_id o = ev_namespace_id ev ∧
                  output_id (output o) = oid ∧ o_request_id o = ev_request_id ev)) (outputs d) ≠ None))
        (PersistentAgentError "OUTPUT_MISSING") ;;
      _require_outputs ev refs'
  end.

(** The Request that owns the event's Execution *)
Definition event_owner (ev : AgentEvent) (d : DB) : option (RequestState I) :=
  _ ← fetchone (λ x, bool_decide (execution_key x = (ev_namespace_id ev, ev_execution_id ev) ∧
        ex_request_id (execution_of x) = ev_request_id ev)) (executions d);
  fetchone (λ r, bool_decide (request_key r = (ev_namespace_id ev, ev_request_id ev))) (requests d).

Definition _insert_event (ev : AgentEvent) (now : Z) : call unit :=
  d <- get_db ;;
  owner <- py_some (event_owner ev d) NOT_FOUND ;;
  py_guard (bool_decide ((agent_id (record owner), session_id (record owner), source_ref (record owner))
                         = (ev_agent_id ev, ev_session_id ev, ev_source_ref ev))) NOT_FOUND ;;
  match fetchone (λ e, bool_decide (event_key e = (ev_namespace_id ev, event_id ev))) (events d) with
  | Some stored =>
      py_guard (digest (event stored) =s digest ev) CONFLICT ;;
      if terminal_event (payload ev) then _ensure_result_deliveries ev now else py_ret tt
  | None =>
      (if terminal_event (payload ev) then
         py_guard (bool_decide (fetchone (λ e, bool_decide (ev_namespace_id (event e) = ev_namespace_id ev ∧
                     ev_execution_id (event e) = ev_execution_id ev ∧ terminal_event (payload (event e)) = true))
                     (events d) = None)) CONFLICT ;;
         _require_outputs ev (output_refs (payload ev))
       else py_ret tt) ;;
      (match payload ev with OUTPUT_PROPOSED o => _insert_output ev o now | _ => py_ret tt end) ;;
      insert_into events with_events event_clash {| event := ev; e_recorded_at := now |} ;;
      if terminal_event (payload ev) then _ensure_result_deliveries ev now else py_ret tt
  end.

Fixpoint insert_events (evs : list AgentEvent) (now : Z) : call unit :=
  match evs with [] => py_ret tt | ev :: evs' => _insert_event ev now ;; insert_events evs' now end.

Definition record_events (evs : list AgentEvent) (now : Z) : call unit :=
  match evs with [] => py_ret tt | _ => transaction (insert_events evs now) end.

Definition read_execution_log (ns sid rid xid : string) : call (list AgentEvent) :=
  d <- get_db ;;
  py_guard (bool_decide (fetchone (λ x, bool_decide (x_namespace_id x = ns ∧
              execution_id (execution_of x) = xid ∧ ex_request_id (execution_of x) = rid)) (executions d) ≠ None)
            && bool_decide (fetchone (λ r, bool_decide (request_key r = (ns, rid) ∧ session_id (record r) = sid))
                 (requests d) ≠ None)) NOT_FOUND ;;
  py_ret (event <$> py_sorted (λ e, local_seq (event e))
    (select (λ e, bool_decide (ev_namespace_id (event e) = ns ∧ ev_execution_id (event e) = xid)) (events d))).

Definition candidate_output (ns oid : string) (d : DB) : option AgentEvent :=
  c ← fetchone (λ c, bool_decide (output_key c = (ns, oid))) (outputs d);
  event <$> fetchone (λ e, bool_decide (event_key e = (ns, o_event_id c))) (events d).

End store.
Arguments DB I : clear implicits.
#[export] Hint Resolve db_keeps_require : db_keeps.
