(* ===== verification/DeliveryStore.v ===== *)
(** * Deliveries of results

    Source: the deliveries of [ExecutionRepository]
    ([server/jiuwenmate/execution_repository.py]), the names of shared files
    ([output_files.py]) and how [ResultDeliveryService] reads an acknowledgement
    ([delivery_service.py]).

    A delivery is claimed by one poll, which sends it and stores the outcome that the
    Gateway acknowledged.  A job is the dictionary that is sent.  The poll itself is in
    [DeliveryService]. *)

From S2P Require Import Prelude OrderedDict PyJson ToolCapabilities Tables MateModels RequestStore.

(** ** Names of shared files *)

(** [s.split(sep)] for one character *)
Fixpoint split_char (sep : nat) (s : string) : list string :=
  match s with
  | EmptyString => [EmptyString]
  | String c s' =>
      if Nat.eqb (Ascii.nat_of_ascii c) sep then EmptyString :: split_char sep s'
      else match split_char sep s' with x :: l => String c x :: l | [] => [String c EmptyString] end
  end.

Definition is_digit (n : nat) : bool := Nat.leb 48 n && Nat.leb n 57.
Definition file_id_char (c : Ascii.ascii) : bool :=
  let n := Ascii.nat_of_ascii c in
  is_digit n || (Nat.leb 65 n && Nat.leb n 90) || (Nat.leb 97 n && Nat.leb n 122) || Nat.eqb n 95 || Nat.eqb n 45.
(** [_IDENTIFIER.fullmatch] and [_DIGEST.fullmatch] of [output_files.py] *)
Definition file_identifier (s : string) : bool :=
  all_chars file_id_char s && Nat.leb 1 (String.length s) && Nat.leb (String.length s) 128.
Definition hex_char (c : Ascii.ascii) : bool :=
  let n := Ascii.nat_of_ascii c in is_digit n || (Nat.leb 97 n && Nat.leb n 102).
Definition sha256_ref (s : string) : bool :=
  starts_with "sha256:" s && Nat.eqb (String.length (remove_prefix "sha256:" s)) 64
  && all_chars hex_char (remove_prefix "sha256:" s).

Definition OUTPUT_FILE_INVALID : mate_error := PersistentAgentError "OUTPUT_FILE_INVALID".

Definition shared_output_file_name (file_path file_ref file_size : json) : outcome mate_error string :=
  let parts := match file_path with JStr s => split_char 47 s | _ => [] end in
  match parts with
  | [a; sid; b; name] =>
      if negb (a =s "sessions") || negb (file_identifier sid) || negb (b =s "output")
         || bool_decide (name ∈ [""; "."; ".."]) || has_char 92 name || has_char 58 name || has_char 0 name
      then Exc OUTPUT_FILE_INVALID
      else match file_ref with
           | JStr ref =>
               if negb (sha256_ref ref) then Exc OUTPUT_FILE_INVALID
               else match file_size with
                    | JNum n => if Z.ltb n 0 then Exc OUTPUT_FILE_INVALID else Ret name
                    | _ => Exc OUTPUT_FILE_INVALID
                    end
           | _ => Exc OUTPUT_FILE_INVALID
           end
  | _ => Exc OUTPUT_FILE_INVALID
  end.

Definition _output_session_id (file_path : json) : option string :=
  match file_path with
  | JStr s =>
      match split_char 47 s with
      | [a; sid; b; _] =>
          if negb (a =s "sessions") || negb (b =s "output") then None
          else if file_identifier sid then Some sid else None
      | _ => None
      end
  | _ => None
  end.

Definition workspace_output_key (ns agent : string) (file_path file_ref file_size : json) : outcome mate_error string :=
  check (reject (negb (file_identifier ns)) OUTPUT_FILE_INVALID)
  (check (reject (negb (file_identifier agent)) OUTPUT_FILE_INVALID)
  (match shared_output_file_name file_path file_ref file_size with
   | Ret _ => Ret (ns +:+ "/" +:+ agent +:+ "/" +:+ match file_path with JStr s => s | _ => EmptyString end)
   | Exc e => Exc e
   end)).

(** ** Jobs *)

Definition opt_str (o : option string) : json := match o with Some s => JStr s | None => JNull end.

Definition notice_fields : list string :=
  ["delivery_id"; "namespace_id"; "agent_id"; "session_id"; "request_kind";
   "request_id"; "execution_id"; "output_id"; "channel"; "target_id"; "app_id";
   "source_message_id"; "source_reply_to"; "is_direct_message"; "idempotency_key";
   "attempt_count"; "operation"; "external_message_id"].

Definition _notice_delivery_job (job : jdict) (text : string) : jdict :=
  od_set (omap (λ k, pair k <$> od_get job k) notice_fields) "text" (JStr text).

Section deliveries.
Context {I : Type} `{!RequestInputs I}.
Abbreviation call := (py (World (DB I)) mate_error) (only parsing).

Definition update_deliveries (P : DeliveryRow → bool) (f : DeliveryRow → DeliveryRow) : call unit :=
  with_db (λ d, with_deliveries (update_where P f (deliveries d)) d).

(** The columns that the statements set *)
Definition set_delivery (s : DeliveryStatus) (attempts : Z) (external error : option string) (key : option string)
    (now : Z) (r : DeliveryRow) : DeliveryRow :=
  {| d_namespace_id := d_namespace_id r; delivery_id := delivery_id r; d_request_id := d_request_id r;
     d_execution_id := d_execution_id r; d_output_id := d_output_id r; d_channel := d_channel r;
     d_target_id := d_target_id r; d_status := s; idempotency_key := idempotency_key r; attempt_count := attempts;
     external_message_id := external; error_code := error; d_created_at := d_created_at r; d_updated_at := now;
     file_key := key; notice := notice r; job_json := job_json r; handoff_done := handoff_done r |}.
Definition set_public (text : option string) (key : option string) (job : option jdict) (done : bool) (now : Z)
    (r : DeliveryRow) : DeliveryRow :=
  {| d_namespace_id := d_namespace_id r; delivery_id := delivery_id r; d_request_id := d_request_id r;
     d_execution_id := d_execution_id r; d_output_id := d_output_id r; d_channel := d_channel r;
     d_target_id := d_target_id r; d_status := d_status r; idempotency_key := idempotency_key r;
     attempt_count := attempt_count r; external_message_id := external_message_id r; error_code := error_code r;
     d_created_at := d_created_at r; d_updated_at := now;
     file_key := key; notice := text; job_json := job; handoff_done := done |}.

Definition fail_row (code : string) (now : Z) (r : DeliveryRow) : DeliveryRow :=
  set_delivery failed (attempt_count r) (external_message_id r) (Some code) (file_key r) now r.
Definition send_row (now : Z) (r : DeliveryRow) : DeliveryRow :=
  set_delivery sending (attempt_count r + 1) (external_message_id r) (error_code r) (file_key r) now r.

(** The job of a claimed row, before what is stored for it *)
Definition base_job (row : DeliveryRow) (rec : RequestRecord I) (route : RequestRouteSnapshot) (text : json) : jdict :=
  [("delivery_id", JStr (delivery_id row)); ("namespace_id", JStr (namespace_id rec));
   ("agent_id", JStr (agent_id rec)); ("session_id", JStr (session_id rec));
   ("request_kind", JStr (in_kind (request_input rec))); ("request_id", JStr (d_request_id row));
   ("execution_id", JStr (d_execution_id row)); ("output_id", JStr (d_output_id row));
   ("channel", JStr (d_channel row)); ("target_id", JStr (rt_target_id route));
   ("app_id", opt_str (rt_app_id route));
   ("source_message_id",
      if (rt_channel route =s "welink") || negb (in_kind (request_input rec) =s "direct_message")
      then opt_str (rt_source_message_id route) else JNull);
   ("source_reply_to", opt_str (rt_source_reply_to route));
   ("is_direct_message", JBool (in_kind (request_input rec) =s "direct_message"));
   ("text", text); ("idempotency_key", JStr (idempotency_key row));
   ("attempt_count", JNum (attempt_count row + 1))].

Definition with_sender (row : DeliveryRow) (rec : RequestRecord I) (job : jdict) : jdict :=
  if (d_channel row =s "dingtalk") && (in_kind (request_input rec) =s "group_message") then
    match in_sender_id (request_input rec) with
    | Some sender => if blank sender then job else od_set job "sender_staff_id" (JStr sender)
    | None => job
    end
  else job.

(** [job["file"]] *)
Definition with_file (ns : string) (row : DeliveryRow) (rec : RequestRecord I) (mode : string) (body job : jdict)
    : outcome mate_error jdict :=
  if bool_decide (mode ∈ FILE_SHARE_MODES) then
    let path := j_get body "file_path" in let ref := j_get body "file_ref" in let size := j_get body "file_size" in
    match workspace_output_key ns (agent_id rec) path ref size, shared_output_file_name path ref size with
    | Ret key, Ret name =>
        Ret (od_set job "file" (JObj [("key", JStr key); ("name", JStr name); ("size", size); ("file_ref", ref);
               ("file_key", opt_str (file_key row)); ("share_mode", JStr mode)]))
    | Exc e, _ | _, Exc e => Exc e
    end
  else Ret job.

(** What is stored for the row: the job of an earlier attempt, or the notice that replaces it *)
Definition stored_job (row : DeliveryRow) (job : jdict) : jdict :=
  let job := match job_json row, notice row with Some saved, None => j_merge job saved | _, _ => job end in
  match notice row with Some text => _notice_delivery_job job text | None => job end.

(** ** Operations *)

Definition pending_row (ns : string) (row : DeliveryRow) (r : DeliveryRow) : bool :=
  bool_decide (delivery_key r = (ns, delivery_id row) ∧ d_status r = pending).

(** One row of the loop of [claim_pending_result_deliveries] *)
Definition claim_row (ns : string) (now : Z) (row : DeliveryRow) (rec : RequestRecord I) (body : option jdict)
    : call (list jdict) :=
  let refuse code := update_deliveries (pending_row ns row) (fail_row code now) ;; py_ret [] in
  match route_snapshot rec with
  | Some route =>
      if negb (rt_channel route =s d_channel row) || bool_decide (rt_app_id route = None) then refuse "ROUTE_MISSING"
      else
        let payload := default [("share_mode", JStr "message"); ("text", opt_str (notice row))] body in
        match j_get payload "share_mode" with
        | JStr mode =>
            if negb (_deliverable mode payload) then refuse "OUTPUT_EMPTY"
            else
              d <- get_db ;;
              let changed := length (select (pending_row ns row) (deliveries d)) in
              update_deliveries (pending_row ns row) (send_row now) ;;
              if negb (Nat.eqb changed 1) then py_ret []
              else
                match with_file ns row rec mode payload
                        (with_sender row rec (base_job row rec route (j_get payload "text"))) with
                | Ret job => py_ret [stored_job row job]
                | Exc _ =>
                    update_deliveries (λ r, bool_decide (delivery_key r = (ns, delivery_id row)))
                      (fail_row "OUTPUT_FILE_INVALID" now) ;;
                    py_ret []
                end
        | _ => refuse "OUTPUT_EMPTY"
        end
  | None => refuse "ROUTE_MISSING"
  end.

Fixpoint claim_rows (ns : string) (now : Z) (rows : list (DeliveryRow * (RequestRecord I * option jdict)))
    : call (list jdict) :=
  match rows with
  | [] => py_ret []
  | (row, (rec, body)) :: rows' =>
      jobs <- claim_row ns now row rec body ;;
      more <- claim_rows ns now rows' ;;
      py_ret (jobs ++ more)
  end.

(** The rows of the [SELECT]: requests and outputs are found by their keys. *)
Definition claimable (ns : string) (channels exclude : list string) (d : DB I)
    : list (DeliveryRow * (RequestRecord I * option jdict)) :=
  omap (λ row,
    r ← fetchone (λ r, bool_decide (request_key r = (d_namespace_id row, d_request_id row))) (requests d);
    let body := match notice row with
                | Some _ => None
                | None => o_body ∘ output <$> fetchone (λ o, bool_decide (
                    output_key o = (d_namespace_id row, d_output_id row) ∧ o_request_id o = d_request_id row)) (outputs d)
                end in
    Some (row, (record r, body)))
  (py_sorted d_created_at (select (λ row, bool_decide (d_namespace_id row = ns ∧ d_channel row ∈ channels ∧
     d_status row = pending ∧ delivery_id row ∉ exclude)) (deliveries d))).

Definition im_channels : list string := ["feishu"; "dingtalk"; "welink"].

Definition claim_pending_result_deliveries (ns : string) (channels : list string) (limit : Z) (exclude : list string)
    (now : Z) : call (list jdict) :=
  py_guard (Z.ltb 0 limit) PyValueError ;;
  match channels with
  | [] => py_ret []
  | _ =>
      py_guard (bool_decide (channels ⊆ im_channels)) PyValueError ;;
      transaction (d <- get_db ;; claim_rows ns now (take (Z.to_nat limit) (claimable ns channels exclude d)))
  end.

Definition _require_delivery (ns id : string) : call DeliveryRow :=
  d <- get_db ;;
  py_some (fetchone (λ r, bool_decide (delivery_key r = (ns, id))) (deliveries d)) NOT_FOUND.

Definition save_result_delivery_job (ns : string) (job : jdict) : call unit :=
  match od_get job "delivery_id" with
  | Some (JStr id) =>
      transaction (
        d <- get_db ;;
        let stored := fetchone (λ r, bool_decide (delivery_key r = (ns, id))) (deliveries d) in
        let job := match r ← stored; notice r with Some text => _notice_delivery_job job text | None => job end in
        update_deliveries (λ r, bool_decide (delivery_key r = (ns, id) ∧ d_status r = sending))
          (λ r, set_public (notice r) (file_key r) (Some job) (negb (j_truth (j_get job "mention_targets")))
                  (d_updated_at r) r))
  | Some _ => py_ret tt
  | None => py_raise PyKeyError
  end.

Definition mark_welink_handoff_done (ns id : string) : call unit :=
  transaction (update_deliveries (λ r, bool_decide (delivery_key r = (ns, id) ∧ d_status r = delivered))
    (λ r, set_public (notice r) (file_key r) (job_json r) true (d_updated_at r) r)).

Definition replace_result_delivery_with_notice (ns id text : string) (now : Z) : call unit :=
  py_guard (negb (blank text)) PyValueError ;;
  transaction (
    row <- _require_delivery ns id ;;
    py_guard (bool_decide (d_status row ∈ [pending; sending; unknown; delivered])) CONFLICT ;;
    update_deliveries (λ r, bool_decide (delivery_key r = (ns, id)))
      (set_public (Some text) None ((λ job, _notice_delivery_job job text) <$> job_json row) true now)).

(** The outcomes that can be stored *)
Definition outcome_status (outcome : string) : option DeliveryStatus :=
  if outcome =s "pending" then Some pending
  else if outcome =s "delivered" then Some delivered
  else if outcome =s "failed" then Some failed
  else if outcome =s "unknown" then Some unknown
  else None.

Definition update_result_delivery (ns id outcome : string) (external error : option string) (now : Z)
    (key : option string) : call DeliveryRow :=
  s <- py_some (outcome_status outcome) PyValueError ;;
  py_guard (negb (bool_decide (s = delivered)) || match external with Some m => negb (blank m) | None => false end)
    PyValueError ;;
  transaction (
    row <- _require_delivery ns id ;;
    if bool_decide (d_status row ∈ [delivered; failed]) then
      py_guard (bool_decide (d_status row = s ∧ external_message_id row = external ∧ error_code row = error)) CONFLICT ;;
      py_ret row
    else if bool_decide (d_status row = pending ∧ s = pending ∧ external_message_id row = external ∧
                         error_code row = error) then py_ret row
    else
      py_guard (bool_decide (d_status row ∈ [sending; unknown])) CONFLICT ;;
      py_guard (negb (bool_decide (d_status row = unknown ∧ s = pending))) CONFLICT ;;
      let key := match key with Some k => if blank k then None else Some k | None => None end in
      update_deliveries (λ r, bool_decide (delivery_key r = (ns, id)))
        (λ r, set_delivery s (attempt_count r) external error
                (match notice r with
                 | None => match key with Some k => Some k | None => file_key r end
                 | Some _ => None
                 end) now r) ;;
      _require_delivery ns id).

Definition recover_sending_result_deliveries (ns : string) (channels : list string) (now : Z) : call Z :=
  match channels with
  | [] => py_ret 0%Z
  | _ =>
      py_guard (bool_decide (channels ⊆ im_channels)) PyValueError ;;
      let interrupted r := bool_decide (d_namespace_id r = ns ∧ d_channel r ∈ channels ∧ d_status r = sending) in
      transaction (
        d <- get_db ;;
        update_deliveries interrupted (λ r, set_delivery unknown (attempt_count r) (external_message_id r)
                                              (Some "ACK_UNKNOWN") (file_key r) now r) ;;
        py_ret (Z.of_nat (length (select interrupted (deliveries d)))))
  end.

Definition mark_delivery_archived (ns id : string) : call unit :=
  transaction (with_db (λ d, with_archives
    (insert_or_ignore (λ a b, bool_decide (a = b)) (ns, id) (archives d)) d)).

Definition result_deliveries (ns rid : string) (d : DB I) : list DeliveryRow :=
  select (λ r, bool_decide (d_namespace_id r = ns ∧ d_request_id r = rid)) (deliveries d).

(** [ORDER BY d.delivery_id LIMIT], after [after] *)
Definition page_after (after : string) (limit : nat) (P : DeliveryRow → bool) (d : DB I) : list DeliveryRow :=
  take limit (order_by_text delivery_id
    (select (λ r, P r && negb (String.leb (delivery_id r) after)) (deliveries d))).

Definition pending_welink_handoffs (ns after : string) (limit : nat) (d : DB I) : list jdict :=
  omap (λ r, job ← job_json r;
             if j_truth (j_get job "mention_targets")
             then Some (od_set job "external_message_id" (opt_str (external_message_id r))) else None)
    (page_after after limit (λ r, bool_decide (d_namespace_id r = ns ∧ d_channel r = "welink" ∧
       d_status r = delivered ∧ handoff_done r = false ∧ job_json r ≠ None ∧ notice r = None)) d).

Definition reconcile_job (ns : string) (row : DeliveryRow) (rec : RequestRecord I) (route : RequestRouteSnapshot)
    : jdict :=
  let job := j_merge (default [] (job_json row))
    [("delivery_id", JStr (delivery_id row)); ("namespace_id", JStr ns);
     ("agent_id", JStr (agent_id rec)); ("session_id", JStr (session_id rec));
     ("request_id", JStr (d_request_id row)); ("execution_id", JStr (d_execution_id row));
     ("output_id", JStr (d_output_id row)); ("channel", JStr "welink"); ("operation", JStr "reconcile");
     ("app_id", opt_str (rt_app_id route)); ("target_id", JStr (rt_target_id route));
     ("idempotency_key", JStr (idempotency_key row))] in
  match notice row with Some text => _notice_delivery_job job text | None => job end.

Definition unknown_welink_result_deliveries (ns after : string) (limit : nat) (d : DB I) : list jdict :=
  omap (λ row,
    r ← fetchone (λ r, bool_decide (request_key r = (d_namespace_id row, d_request_id row))) (requests d);
    route ← route_snapshot (record r);
    if rt_channel route =s "welink" then Some (reconcile_job ns row (record r) route) else None)
    (page_after after limit (λ r, bool_decide (d_namespace_id r = ns ∧ d_channel r = "welink" ∧ d_status r = unknown ∧
       is_Some (fetchone (λ q, bool_decide (request_key q = (d_namespace_id r, d_request_id r))) (requests d)))) d).

End deliveries.

(** ** Acknowledgements *)

(** [_classify_ack]: the outcome, the message id and the error code *)
Definition _classify_ack (job : jdict) (ack : option jdict) : string * option string * option string :=
  match ack with
  | None => ("pending", None, Some "GATEWAY_UNAVAILABLE")
  | Some ack =>
      if negb (bool_decide (j_get ack "delivery_id" = j_get job "delivery_id"))
         || negb (bool_decide (j_get ack "stage" = JStr "send")) then ("unknown", None, Some "ACK_MISMATCH")
      else
        let outcome := j_get ack "outcome" in
        let error d := match j_get ack "error_code" with JStr e => Some e | _ => Some d end in
        let message := match j_get ack "external_message_id" with
                       | JStr m => if blank m then None else Some m | _ => None end in
        if bool_decide (outcome = JStr "delivered") && bool_decide (message ≠ None) then ("delivered", message, None)
        else if bool_decide (outcome = JStr "failed") then ("failed", None, error "FEISHU_REJECTED")
        else if bool_decide (outcome = JStr "pending") then ("pending", None, error "GATEWAY_UNAVAILABLE")
        else ("unknown", None, error "ACK_UNKNOWN")
  end.

(** [_file_key] *)
Definition _file_key (job : jdict) (ack : option jdict) : option string :=
  ack ← ack;
  if negb (bool_decide (j_get ack "delivery_id" = j_get job "delivery_id")) then None
  else match j_get ack "file_key" with JStr k => if blank k then None else Some k | _ => None end.
