(* ===== verification/Recovery.v ===== *)
(** * Controls and recovery of Requests

    Source: [server/jiuwenmate/execution_control_service.py],
    [recovery_service.py] and [outcome_of] of [execution_driver.py].

    [ControlStore] and [RecoveryStore] keep their tables in the file of
    [RequestStore.DB].  The services call them one transaction after another; the
    scheduler's [abort] is an argument of [control]. *)

From S2P Require Import Prelude OrderedDict PyJson ToolCapabilities Tables MateModels RequestStore.

(** [outcome_of], of the event's payload *)
Definition outcome_of (terminal : option EventPayload) : string :=
  match terminal with
  | Some (EXECUTION_FINAL _ status _) => status
  | Some (EXECUTION_PAUSED _ reason _ _) => if reason =s "stopped" then "stopped" else "paused"
  | _ => "failed"
  end.

(** [unverified_tool_calls] *)
Definition completed_calls (log : list AgentEvent) : list string :=
  omap (λ e, match payload e with TOOL_COMPLETED id => Some id | _ => None end) log.
Definition unverified_tool_calls (log : list AgentEvent) : list string :=
  omap (λ e, match payload e with
             | TOOL_INTENT id => if bool_decide (id ∈ completed_calls log) then None else Some id
             | _ => None
             end) log.

Definition control_outcome (reason : string) : string := if reason =s "stop" then "stopped" else "cancelled".

Section recovery.
Context {I : Type} `{!RequestInputs I}.
Abbreviation call := (py (World (DB I)) mate_error) (only parsing).

(** ** [ControlStore] *)

Definition control_key (r : ControlRow) := (k_namespace_id r, k_request_id r).
Definition control_get (ns rid : string) (d : DB I) : option ControlRow :=
  fetchone (λ r, bool_decide (control_key r = (ns, rid))) (request_controls d).

Definition new_control (ns rid reason principal : string) (now : Z) : ControlRow :=
  {| k_namespace_id := ns; k_request_id := rid; k_reason := reason; k_principal_ref := principal;
     k_status := "accepted"; k_detail := None; requested_at := now; k_updated_at := now |}.

Definition control_claim (ns rid reason principal : string) (now : Z) : call (option ControlRow * bool) :=
  transaction (
    d <- get_db ;;
    let created := bool_decide (control_get ns rid d = None) in
    with_db (λ d, with_controls (insert_or_ignore (λ a b, bool_decide (control_key a = control_key b))
                                   (new_control ns rid reason principal now) (request_controls d)) d) ;;
    d <- get_db ;;
    py_ret (control_get ns rid d, created)).

Definition control_fail (ns rid detail : string) (now : Z) : call (option ControlRow) :=
  transaction (
    with_db (λ d, with_controls (update_where (λ r, bool_decide (control_key r = (ns, rid)))
      (λ r, {| k_namespace_id := k_namespace_id r; k_request_id := k_request_id r; k_reason := k_reason r;
               k_principal_ref := k_principal_ref r; k_status := "failed"; k_detail := Some (String.substring 0 500 detail);
               requested_at := requested_at r; k_updated_at := now |}) (request_controls d)) d) ;;
    d <- get_db ;;
    py_ret (control_get ns rid d)).

(** [ExecutionControlService.control]; [abort] returns the text of the exception it raises. *)
Definition control (abort : string → string → string → call (option string)) (ns rid reason principal : string) (now : Z)
    : call (option ControlRow) :=
  py_pure (require_identifier rid) ;;
  py_guard (bool_decide (reason ∈ ["stop"; "cancel"])) BAD_REQUEST ;;
  state <- get_request ns rid ;;
  py_guard (principal =s principal_ref (access (record state))) (PersistentAgentError "FORBIDDEN") ;;
  d <- get_db ;;
  match control_get ns rid d with
  | Some existing => py_ret (Some existing)
  | None =>
      py_guard (negb (bool_decide (status state = ended))) CONFLICT ;;
      claimed <- control_claim ns rid reason principal now ;;
      if negb claimed.2 then py_ret claimed.1
      else
        raised <- abort ns rid reason ;;
        match raised with
        | Some detail => control_fail ns rid detail now
        | None => py_ret claimed.1
        end
  end.

(** ** [RecoveryStore] *)

Definition recovery_key (r : RecoveryRow) := (r_namespace_id r, r_request_id r, r_execution_id r).

Definition recovery_claim (r : RecoveryRow) : call RecoveryRow :=
  transaction (
    d <- get_db ;;
    t <- py_some (request_recoveries d) OperationalError ;;
    let t' := insert_or_ignore (λ a b, bool_decide (recovery_key a = recovery_key b)) r t in
    with_db (with_recoveries (Some t')) ;;
    py_some (fetchone (λ a, bool_decide (recovery_key a = recovery_key r)) t') OperationalError).

Definition recovery_latest (ns rid : string) (d : DB I) : option RecoveryRow :=
  t ← request_recoveries d;
  latest_recovery (λ r, bool_decide (r_namespace_id r = ns ∧ r_request_id r = rid)) t.

(** ** [RecoveryService] *)

Definition recovery_of (ns rid : string) (d : DB I) : option RecoveryRow :=
  r ← recovery_latest ns rid d;
  if negb (decision r =s "awaiting_continuation") then Some r
  else if bool_decide (_pending_continuation ns rid d = Some (r_execution_id r)) then Some r else None.

Definition _judge (ns rid xid : string) (log : list AgentEvent) (control : option ControlRow) (now : Z) : RecoveryRow :=
  let verdict :=
    match head (filter (λ e, terminal_event (payload e) = true) log), control with
    | Some terminal, _ => ("closed_from_log", outcome_of (Some (payload terminal)))
    | None, Some k => ("closed_by_control", control_outcome (k_reason k))
    | None, None => ("awaiting_continuation", "paused")
    end in
  {| r_namespace_id := ns; r_request_id := rid; r_execution_id := xid; decision := verdict.1; r_outcome := verdict.2;
     unverified := unverified_tool_calls log; decided_at := now |}.

Definition _close (ns : string) (state : RequestState I) (now : Z) : call (option RecoveryRow) :=
  let rid := request_id (record state) in
  d <- get_db ;;
  match last (executions_of ns rid d) with
  | None => finish_request ns rid "failed" now ;; py_ret None
  | Some latest =>
      log <- read_execution_log ns (session_id (record state)) rid (execution_id latest) ;;
      d <- get_db ;;
      r <- recovery_claim (_judge ns rid (execution_id latest) log (control_get ns rid d) now) ;;
      finish_request ns rid (r_outcome r) now ;;
      (if decision r =s "awaiting_continuation" then reopen_for_continuation ns rid now None ;; py_ret tt
       else py_ret tt) ;;
      py_ret (Some r)
  end.

End recovery.
