(* ===== verification/StoreInv.v ===== *)
(** * What the stores of JiuwenMate keep

    The operations of [RequestStore], [DeliveryStore] and [Recovery] as one step
    relation on the tables, the invariant that every interleaving of them keeps, and
    what it makes of the Request queue: a source event is queued once, a Session runs one
    Request at a time, an interrupted Execution is continued once, an ended Request stays
    ended. *)

From S2P Require Import Prelude OrderedDict PyJson Tables MateModels RequestStore DeliveryStore Recovery.

(** Takes apart a call of the stores that has returned *)
Ltac store_step :=
  match goal with
  | H : _require_request _ _ _ = (Ret _, _) |- _ => apply require_request_inv in H as (? & ? & ->)
  | H : insert_into _ _ _ _ _ = (Ret _, _) |- _ => apply insert_into_inv in H as (? & ? & ->)
  | H : py_pure _ _ = (Ret _, _) |- _ => apply py_pure_inv in H as [? ->]
  | H : update_requests _ _ _ = (Ret _, _) |- _ => unfold update_requests in H
  | H : _save_link _ _ _ = (Ret _, _) |- _ => unfold _save_link in H
  | H : bool_decide _ = true |- _ => apply bool_decide_eq_true in H
  | H : negb _ = true |- _ => apply negb_true_iff in H
  | H : negb _ = false |- _ => apply negb_false_iff in H
  | H : bool_decide _ = false |- _ => apply bool_decide_eq_false in H
  | H : (_ =s _) = true |- _ => apply eqs_true in H
  | H : fetchone (λ r, bool_decide _) _ = Some _ |- _ => apply fetchone_dec in H as [? ?]
  | H : fetchone (λ r, bool_decide _) _ = None |- _ => rewrite fetchone_dec_none in H
  end.
Ltac store_inv := repeat (first [call_step | store_step]; cbn beta iota zeta in *; cbn [db drawn] in * ).

Section inv.
Context {I : Type} `{!RequestInputs I}.
Context (uuid : nat → string) (notice_text : string → string → option string → string).
Implicit Types (d : DB I) (w : World (DB I)) (r : RequestState I).

(** ** The queue's part *)

(** A row of [executions] and its row of [execution_links] *)
Definition linked (rows : list (RequestState I)) (x : ExecutionRow) (l : LinkRow) : Prop :=
  ∃ r, r ∈ rows ∧ request_key r = (x_namespace_id x, ex_request_id (execution_of x)) ∧
       l = link_of r (execution_of x).

Definition outcome_ok (r : RequestState I) : Prop :=
  match outcome_ r with Some o => status r = ended ∧ o ∈ ENDED_OUTCOMES | None => status r ≠ ended end.

Record queue_ok (d : DB I) : Prop := mk_queue_ok {
  qk_sessions : unique session_key (sessions d);
  qk_conversations : unique conversation_key (sessions d);
  qk_requests : unique request_key (requests d);
  qk_sources : unique source_key (requests d);
  qk_seqs : unique seq_key (requests d);
  qk_session : ∀ r, r ∈ requests d → ∃ s, s ∈ sessions d ∧ session_key s = queue_key r ∧
    sn_agent_id (session_of s) = agent_id (record r) ∧ (1 ≤ seq r < next_seq s)%Z;
  qk_next : ∀ s, s ∈ sessions d → (1 ≤ next_seq s)%Z;
  qk_outcome : ∀ r, r ∈ requests d → outcome_ok r;
  qk_busy : ∀ r r', r ∈ requests d → r' ∈ requests d → queue_key r = queue_key r' →
    status r = dispatched → status r' = dispatched → r = r';
  qk_executions : unique execution_key (executions d);
  qk_links : Forall2 (linked (requests d)) (executions d) (links d);
  qk_once : ∀ x x', x ∈ executions d → x' ∈ executions d → x_namespace_id x = x_namespace_id x' →
    ex_request_id (execution_of x) = ex_request_id (execution_of x') →
    recovery_ref (execution_of x) = recovery_ref (execution_of x') → recovery_ref (execution_of x) ≠ None → x = x';
  qk_started : ∀ r, r ∈ requests d → status r = dispatched →
    ∃ x, x ∈ executions d ∧ request_key r = (x_namespace_id x, ex_request_id (execution_of x));
}.

(** The queue's tables are those of [d0]. *)
Definition same_queue (d0 d : DB I) : Prop :=
  sessions d = sessions d0 ∧ requests d = requests d0 ∧ executions d = executions d0 ∧ links d = links d0.

Lemma queue_ok_same d0 d : same_queue d0 d → queue_ok d0 → queue_ok d.
Proof. intros (E1 & E2 & E3 & E4) []. split; rewrite ?E1, ?E2, ?E3, ?E4; done. Qed.

Lemma keeps_queue {A} (m : py (World (DB I)) mate_error A) :
  (∀ d0, db_keeps (same_queue d0) m) → db_keeps queue_ok m.
Proof. intros H w Hw. eapply queue_ok_same; [|done]. apply H. by split_and!. Qed.

(** *** Statements on requests *)

(** What an [UPDATE] of requests leaves *)
Definition ident (r : RequestState I) := (record r, seq r).

Lemma set_status_ident s o now r : ident (set_status s o now r) = ident r.
Proof. done. Qed.

Lemma ident_request_key r r' : ident r = ident r' → request_key r = request_key r'.
Proof. unfold ident, request_key. by intros [= -> _]. Qed.

Lemma linked_ident rows rows' x l :
  (∀ r, r ∈ rows → ∃ r', r' ∈ rows' ∧ ident r' = ident r) → linked rows x l → linked rows' x l.
Proof.
  intros H (r & Hr & Hk & ->). destruct (H r Hr) as (r' & Hr' & Hi). exists r'. split; [done|].
  split; [by rewrite (ident_request_key _ _ Hi)|]. unfold link_of. by injection Hi as -> _.
Qed.

Lemma queue_ok_update d P f :
  queue_ok d → (∀ r, P r = true → ident (f r) = ident r) →
  (∀ r, r ∈ requests d → P r = true → outcome_ok (f r)) →
  (∀ r r', r ∈ requests d → r' ∈ requests d → P r = true → status (f r) = dispatched → queue_key r = queue_key r' →
     r = r' ∨ (P r' = false ∧ status r' ≠ dispatched)) →
  (∀ r, r ∈ requests d → P r = true → status (f r) = dispatched →
     ∃ x, x ∈ executions d ∧ request_key r = (x_namespace_id x, ex_request_id (execution_of x))) →
  queue_ok (with_requests (update_where P f (requests d)) d).
Proof.
  intros Hd Hf Ho Hb Hx. set (rows := update_where P f (requests d)).
  assert (Hid : ∀ r, r ∈ rows → ∃ r0, r0 ∈ requests d ∧ ident r = ident r0 ∧
                  (r = r0 ∧ P r0 = false ∨ r = f r0 ∧ P r0 = true)).
  { intros r [[Hr HP]|(r0 & Hr0 & HP & ->)]%elem_of_update_where; [exists r; eauto|exists r0; eauto 6]. }
  assert (Hfw : ∀ r, r ∈ requests d → ∃ r', r' ∈ rows ∧ ident r' = ident r).
  { intros r Hr. destruct (P r) eqn:HP.
    - exists (f r). split; [apply elem_of_update_where; eauto|by apply Hf].
    - exists r. split; [apply elem_of_update_where; eauto|done]. }
  assert (Hu : ∀ K (key : RequestState I → K), (∀ r r', ident r = ident r' → key r = key r') →
    unique key (requests d) → unique key rows).
  { intros K key Hkey. apply update_unique. intros r _ HP. by apply Hkey, Hf. }
  destruct Hd. split; simpl; fold rows; try done.
  - apply Hu; [|done]. intros r r' Hi. by apply ident_request_key.
  - apply Hu; [|done]. unfold ident, source_key. by intros r r' [= -> _].
  - apply Hu; [|done]. unfold ident, seq_key, queue_key. by intros r r' [= -> ->].
  - intros r (r0 & Hr0 & Hi & _)%Hid. destruct (qk_session0 r0 Hr0) as (s & ?). exists s.
    unfold ident, queue_key in *. by injection Hi as -> ->.
  - intros r (r0 & Hr0 & _ & [[-> _]|[-> HP]])%Hid; [by apply qk_outcome0|by apply Ho].
  - intros r r' (r0 & Hr0 & Hi & Hc)%Hid (r1 & Hr1 & Hi' & Hc')%Hid Hk Hs Hs'.
    assert (queue_key r0 = queue_key r1) as Hk01.
    { unfold ident, queue_key in *. injection Hi as <- _. by injection Hi' as <- _. }
    destruct Hc as [[-> HP]|[-> HP]], Hc' as [[-> HP']|[-> HP']].
    + by apply qk_busy0.
    + destruct (Hb r1 r0) as [->|[? ?]]; congruence.
    + destruct (Hb r0 r1) as [->|[? ?]]; congruence.
    + destruct (Hb r0 r1) as [->|[? ?]]; congruence.
  - eapply Forall2_impl; [done|]. intros x l. by apply linked_ident.
  - intros r (r0 & Hr0 & Hi & [[-> HP]|[-> HP]])%Hid Hs; [by apply qk_started0|].
    rewrite (ident_request_key _ _ Hi). by apply Hx.
Qed.

(** An [UPDATE] that dispatches nothing *)
Lemma queue_ok_close d P s o now :
  queue_ok d → s ≠ dispatched → match o with Some x => s = ended ∧ x ∈ ENDED_OUTCOMES | None => s ≠ ended end →
  queue_ok (with_requests (update_where P (set_status s o now) (requests d)) d).
Proof. intros Hd Hs Ho. apply queue_ok_update; try done; simpl; congruence. Qed.

Lemma queue_ok_execution d r x t t' now :
  let row := {| x_namespace_id := namespace_id (record r); execution_of := x; started_at := now |} in
  queue_ok d → r ∈ requests d → ex_request_id x = request_id (record r) →
  (∀ y, y ∈ executions d → x_namespace_id y = namespace_id (record r) → ex_request_id (execution_of y) = ex_request_id x →
     recovery_ref x ≠ None → recovery_ref (execution_of y) ≠ recovery_ref x) →
  insert_row execution_clash row (executions d) = Some t → insert_row link_clash (link_of r x) (links d) = Some t' →
  queue_ok (with_links t' (with_executions t d)).
Proof.
  intros row [] Hr Hx Hone Ht Ht'.
  pose proof (insert_row_some _ _ _ _ Ht) as [Et _]. pose proof (insert_row_some _ _ _ _ Ht') as [Et' _].
  split; simpl; try done.
  - eapply insert_unique; [exact Ht| |done]. intros y Hk. by apply bool_decide_eq_true.
  - rewrite Et, Et'. apply Forall2_app; [done|]. constructor; [|done]. exists r. split; [done|]. unfold request_key. simpl. by rewrite Hx.
  - rewrite Et. intros y y'. rewrite !elem_of_app, !list_elem_of_singleton.
    intros [Hy| ->] [Hy'| ->] Hn Hq Hp Hs; [by apply qk_once0| | |done].
    + destruct (Hone y); [done|done|done|by simpl in *; congruence|done].
    + destruct (Hone y'); [done|done|done|done|done].
  - intros r' Hr' Hs. destruct (qk_started0 r' Hr' Hs) as (y & Hy & ?). exists y. split; [|done].
    rewrite Et. apply elem_of_app. by left.
Qed.

Lemma queue_ok_session d row t :
  queue_ok d → next_seq row = 1%Z → insert_row session_clash row (sessions d) = Some t →
  queue_ok (with_sessions t d).
Proof.
  intros [] Hn Ht. pose proof (insert_row_some _ _ _ _ Ht) as [Et _]. split; simpl; try done.
  - eapply insert_unique; [exact Ht| |done]. intros r' Hk. unfold session_clash. by rewrite bool_decide_true.
  - eapply insert_unique; [exact Ht| |done]. intros r' Hk. unfold session_clash.
    by rewrite orb_comm, bool_decide_true.
  - intros r Hr. destruct (qk_session0 r Hr) as (s & Hs & ?). exists s. split; [|done].
    rewrite Et. apply elem_of_app. by left.
  - rewrite Et. intros s [Hs|Hs]%elem_of_app; [by apply qk_next0|].
    apply list_elem_of_singleton in Hs as ->. by rewrite Hn.
Qed.

Lemma queue_ok_request d s (rec : RequestRecord I) t :
  let row := {| record := rec; seq := next_seq s; status := queued; outcome_ := None; updated_at := received_at rec |} in
  let bump s0 := {| session_of := session_of s0; next_seq := next_seq s + 1 |} in
  queue_ok d → s ∈ sessions d → session_key s = (namespace_id rec, session_id rec) →
  sn_agent_id (session_of s) = agent_id rec →
  insert_row request_clash row (requests d) = Some t →
  queue_ok (with_requests t
    (with_sessions (update_where (λ s0, bool_decide (session_key s0 = session_key s)) bump (sessions d)) d)).
Proof.
  intros row bump [] Hs Hk Ha Ht. pose proof (insert_row_some _ _ _ _ Ht) as [Et _].
  set (P := λ s0, bool_decide (session_key s0 = session_key s)).
  assert (Hss : ∀ s0, s0 ∈ sessions d → ∃ s1, s1 ∈ update_where P bump (sessions d) ∧
            session_of s1 = session_of s0 ∧ (next_seq s0 ≤ next_seq s1)%Z ∧ (s0 = s → next_seq s1 = next_seq s + 1)%Z).
  { intros s0 Hs0. destruct (P s0) eqn:HP.
    - exists (bump s0). split; [apply elem_of_update_where; eauto|].
      apply bool_decide_eq_true in HP. pose proof (unique_eq session_key _ _ _ qk_sessions0 Hs0 Hs HP) as ->.
      split; [done|]. simpl. split; [lia|done].
    - exists s0. split; [apply elem_of_update_where; eauto|]. split; [done|]. split; [done|].
      intros ->. unfold P in HP. by rewrite bool_decide_true in HP. }
  assert (Hcl : ∀ r', request_key row = request_key r' ∨ source_key row = source_key r' ∨ seq_key row = seq_key r' →
            request_clash row r' = true).
  { intros r' H. unfold request_clash. rewrite !orb_true_iff, !bool_decide_eq_true. tauto. }
  split; simpl; try done.
  - by apply update_unique.
  - by apply update_unique.
  - eapply insert_unique; eauto.
  - eapply insert_unique; eauto.
  - eapply insert_unique; eauto.
  - rewrite Et. intros r [Hr|Hr]%elem_of_app.
    + destruct (qk_session0 r Hr) as (s0 & Hs0 & H1 & H2 & H3).
      destruct (Hss s0 Hs0) as (s1 & ? & Hof & Hle & _). exists s1. unfold session_key in *. rewrite Hof.
      split_and!; [done|done|done|lia|lia].
    + apply list_elem_of_singleton in Hr as ->. destruct (Hss s Hs) as (s1 & ? & Hof & _ & Hn). exists s1.
      unfold session_key in *. rewrite Hof, Hn by done. specialize (qk_next0 s Hs). simpl.
      split_and!; [done|done|done|lia|lia].
  - intros s1 [[Hs1 _]|(s0 & Hs0 & _ & ->)]%elem_of_update_where; [by apply qk_next0|].
    specialize (qk_next0 s Hs). simpl. lia.
  - rewrite Et. intros r [Hr|Hr]%elem_of_app; [by apply qk_outcome0|]. by apply list_elem_of_singleton in Hr as ->.
  - rewrite Et. intros r r' [Hr|Hr]%elem_of_app [Hr'|Hr']%elem_of_app;
      try apply list_elem_of_singleton in Hr as ->; try apply list_elem_of_singleton in Hr' as ->;
      try done. by apply qk_busy0.
  - eapply Forall2_impl; [done|]. intros x l. apply linked_ident. intros r Hr. exists r. split; [|done].
    rewrite Et. apply elem_of_app. by left.
  - rewrite Et. intros r [Hr|Hr]%elem_of_app; [by apply qk_started0|]. by apply list_elem_of_singleton in Hr as ->.
Qed.

(** *** Operations *)

Lemma pending_continuation_free ns rid d p x :
  _pending_continuation ns rid d = Some p → x ∈ executions d → x_namespace_id x = ns →
  ex_request_id (execution_of x) = rid → recovery_ref (execution_of x) ≠ Some p.
Proof.
  unfold _pending_continuation. destruct (request_recoveries d) as [t|]; [|done]. simpl.
  destruct (latest_recovery _ t) as [row|]; [|done]. simpl.
  destruct (fetchone _ (executions d)) as [y|] eqn:E; [done|]. intros [= <-] Hx Hn Hr Hp.
  rewrite fetchone_dec_none in E. by apply (E x Hx).
Qed.

Lemma new_execution_record_ret rid xid p x :
  new_execution_record rid xid p = Ret x → x = {| ex_request_id := rid; execution_id := xid; recovery_ref := p |}.
Proof. unfold new_execution_record. rewrite !check_ret. intros (_&_&[= <-]). done. Qed.

(** What [start_execution] does when it returns *)
Lemma start_execution_inv ns rid now w x w' :
  start_execution uuid ns rid now w = (Ret x, w') →
  ∃ row t t', row ∈ requests (db w) ∧ request_key row = (ns, rid) ∧ status row = queued ∧
    (∀ r, r ∈ requests (db w) → queue_key r = queue_key row → status r ≠ dispatched) ∧
    ex_request_id x = rid ∧ recovery_ref x = _pending_continuation ns rid (db w) ∧
    insert_row execution_clash {| x_namespace_id := ns; execution_of := x; started_at := now |} (executions (db w)) = Some t ∧
    insert_row link_clash (link_of row x) (links (db w)) = Some t' ∧
    db w' = with_requests (update_where (λ r, bool_decide (request_key r = (ns, rid)))
              (λ r, set_status dispatched (outcome_ r) now r) (requests (db w)))
              (with_links t' (with_executions t (db w))).
Proof.
  unfold start_execution. intros H. store_inv.
  match goal with H : new_execution_record _ _ _ = Ret _ |- _ => apply new_execution_record_ret in H as -> end.
  match goal with H : request_key ?r = _ |- _ => rename r into row, H into Hk end.
  do 3 eexists. split_and!; try done. intros r Hr Hq Hs.
  match goal with H : ∀ r, r ∈ requests _ → ¬ _ |- _ => apply (H r Hr) end.
  injection Hk as Hns _. injection Hq as H1' H2'. split_and!; congruence.
Qed.

Lemma keeps_start_execution ns rid now : db_keeps queue_ok (start_execution uuid ns rid now).
Proof.
  apply db_keeps_returned. intros w x w' H Hd.
  apply (proj2 (transaction_ret _ _ _ _)), start_execution_inv in H
    as (row & t & t' & Hrow & [= Hns Hrid] & Hs & Hfree & Hx & Hp & Ht & Ht' & ->).
  eapply queue_ok_execution in Ht'; [|done|done|congruence| |by rewrite Hns].
  - apply (queue_ok_update (with_links t' (with_executions t (db w)))); try done; simpl.
    + intros r Hr HP. apply bool_decide_eq_true in HP. pose proof (qk_outcome _ Hd r Hr) as Ho.
      assert (r = row) as -> by (eapply (unique_eq request_key); eauto using qk_requests; by rewrite HP, <- Hns, <- Hrid).
      unfold outcome_ok in *. simpl. destruct (outcome_ row); [by destruct Ho as [Ho _]; rewrite Hs in Ho|done].
    + intros r r' Hr Hr' HP _ Hq. apply bool_decide_eq_true in HP.
      assert (r = row) as -> by (eapply (unique_eq request_key); eauto using qk_requests; by rewrite HP, <- Hns, <- Hrid).
      destruct (decide (request_key r' = (ns, rid))) as [HP'|Hne].
      * left. eapply (unique_eq request_key); eauto using qk_requests. congruence.
      * right. split; [by apply bool_decide_eq_false|]. by apply Hfree.
    + intros r Hr HP _. apply bool_decide_eq_true in HP. apply insert_row_some in Ht as [-> _].
      eexists. split; [apply elem_of_app; right; by apply list_elem_of_singleton|]. simpl. by rewrite HP, Hx.
  - intros y Hy Hyn Hyr Hnone. rewrite Hp in *. destruct (_pending_continuation ns rid (db w)) as [p|] eqn:E; [|done].
    eapply pending_continuation_free; [exact E|done|congruence|congruence].
Qed.

Lemma keeps_close P s o now :
  s ≠ dispatched → match o with Some x => s = ended ∧ x ∈ ENDED_OUTCOMES | None => s ≠ ended end →
  db_keeps queue_ok (update_requests P (set_status s o now)).
Proof. intros Hs Ho. apply db_keeps_with. intros d Hd. by apply queue_ok_close. Qed.

Lemma keeps_finish_request ns rid o now : db_keeps queue_ok (finish_request ns rid o now).
Proof.
  apply db_keeps_guarded. intros Ho. apply bool_decide_eq_true in Ho.
  assert (db_keeps queue_ok (update_requests (λ r, bool_decide (request_key r = (ns, rid)))
            (set_status ended (Some o) now))) by by apply keeps_close.
  eauto 10 with db_keeps.
Qed.

Lemma keeps_reopen ns rid now e : db_keeps queue_ok (reopen_for_continuation ns rid now e).
Proof.
  unfold reopen_for_continuation.
  assert (∀ P, db_keeps queue_ok (update_requests P (set_status queued None now))) by (intros; by apply keeps_close).
  eauto 12 with db_keeps.
Qed.

(** *** Calls that leave the queue's tables alone *)

Lemma same_queue_refl d : same_queue d d.
Proof. by split_and!. Qed.

(** A call of which every step leaves the queue alone *)
#[local] Abbreviation off_queue m := (∀ d0, db_keeps (same_queue d0) m) (only parsing).

#[local] Hint Extern 2 (db_keeps (same_queue _) (with_db _)) => (by apply db_keeps_with; intros ? ?; assumption) : db_keeps.

Lemma off_queue_add_delivery row : off_queue (add_delivery row).
Proof. intros d0. by apply db_keeps_with. Qed.
Lemma off_queue_update_deliveries P f : off_queue (update_deliveries P f).
Proof. intros d0. by apply db_keeps_with. Qed.
#[local] Hint Resolve off_queue_add_delivery off_queue_update_deliveries : db_keeps.

Lemma off_queue_notice rec xid reason detail now : off_queue (_enqueue_failure_notice uuid notice_text rec xid reason detail now).
Proof. intros d0. unfold _enqueue_failure_notice. eauto 10 with db_keeps. Qed.
#[local] Hint Resolve off_queue_notice : db_keeps.

Lemma off_queue_deliver ev route now refs : off_queue (deliver_outputs uuid ev route now refs).
Proof. intros d0. induction refs as [|x refs IH]; simpl; eauto 12 with db_keeps. Qed.
#[local] Hint Resolve off_queue_deliver : db_keeps.

Lemma off_queue_ensure ev now : off_queue (_ensure_result_deliveries uuid notice_text ev now).
Proof. intros d0. unfold _ensure_result_deliveries. eauto 12 with db_keeps. Qed.
#[local] Hint Resolve off_queue_ensure : db_keeps.

Lemma off_queue_require_outputs ev refs : off_queue (_require_outputs ev refs).
Proof. intros d0. induction refs as [|x refs IH]; simpl; eauto 12 with db_keeps. Qed.
#[local] Hint Resolve off_queue_require_outputs : db_keeps.

Lemma off_queue_insert_event ev now : off_queue (_insert_event uuid notice_text ev now).
Proof. intros d0. unfold _insert_event, _insert_output, insert_into. eauto 20 with db_keeps. Qed.

Lemma off_queue_record_events evs now : off_queue (record_events uuid notice_text evs now).
Proof.
  intros d0. assert (∀ evs, db_keeps (same_queue d0) (insert_events uuid notice_text evs now)).
  { induction evs0 as [|ev evs0 IH]; simpl; [auto with db_keeps|].
    apply db_keeps_bind; [apply off_queue_insert_event|done]. }
  unfold record_events. destruct evs; [auto with db_keeps|]. by apply db_keeps_transaction.
Qed.

Lemma off_queue_claim_rows ns now rows : off_queue (claim_rows ns now rows).
Proof.
  intros d0. assert (∀ row rec body, db_keeps (same_queue d0) (claim_row (I := I) ns now row rec body)).
  { intros. unfold claim_row. eauto 20 with db_keeps. }
  induction rows as [|[row [rec body]] rows IH]; simpl; eauto 12 with db_keeps.
Qed.

Lemma off_queue_delivery_ops ns :
  (∀ ch lim ex now, off_queue (claim_pending_result_deliveries ns ch lim ex now)) ∧
  (∀ job, off_queue (save_result_delivery_job ns job)) ∧
  (∀ id, off_queue (mark_welink_handoff_done ns id)) ∧
  (∀ id text now, off_queue (replace_result_delivery_with_notice ns id text now)) ∧
  (∀ id o ext err now key, off_queue (update_result_delivery ns id o ext err now key)) ∧
  (∀ ch now, off_queue (recover_sending_result_deliveries ns ch now)) ∧
  (∀ id, off_queue (mark_delivery_archived ns id)).
Proof.
  split_and!; intros.
  - unfold claim_pending_result_deliveries. pose proof off_queue_claim_rows. eauto 20 with db_keeps.
  - unfold save_result_delivery_job. eauto 12 with db_keeps.
  - unfold mark_welink_handoff_done. eauto 12 with db_keeps.
  - unfold replace_result_delivery_with_notice, _require_delivery. eauto 12 with db_keeps.
  - unfold update_result_delivery, _require_delivery. eauto 20 with db_keeps.
  - unfold recover_sending_result_deliveries. eauto 12 with db_keeps.
  - unfold mark_delivery_archived. eauto 12 with db_keeps.
Qed.

Lemma off_queue_recovery_ops ns rid :
  (∀ reason principal now, off_queue (control_claim ns rid reason principal now)) ∧
  (∀ detail now, off_queue (control_fail ns rid detail now)) ∧ (∀ row, off_queue (recovery_claim row)).
Proof.
  split_and!; intros.
  - unfold control_claim. eauto 12 with db_keeps.
  - unfold control_fail. eauto 12 with db_keeps.
  - unfold recovery_claim. eauto 12 with db_keeps.
Qed.

(** *** Requests and Sessions *)

Lemma keeps_record_failure ns rid xid reason detail now :
  db_keeps queue_ok (record_execution_failure uuid notice_text ns rid xid reason detail now).
Proof.
  unfold record_execution_failure.
  assert (∀ P, db_keeps queue_ok (update_requests P (set_status ended (Some "failed") now))).
  { intros. apply keeps_close; [done|]. split; [done|]. by apply (bool_decide_unpack _). }
  assert (∀ rec, db_keeps queue_ok (_enqueue_failure_notice uuid notice_text rec xid reason detail now)).
  { intros rec. apply keeps_queue, off_queue_notice. }
  eauto 12 with db_keeps.
Qed.

Lemma keeps_resolve_session ns agent conv now : db_keeps queue_ok (resolve_session uuid ns agent conv now).
Proof.
  unfold resolve_session. apply db_keeps_bind; [auto with db_keeps|intros _].
  apply db_keeps_bind; [auto with db_keeps|intros _]. cbn zeta.
  apply db_keeps_returned. intros w x w' H Hd. store_inv.
  case_match; store_inv; [done|]. eapply queue_ok_session; [done| |done]. done.
Qed.

Lemma new_request_record_ret ns agent sid rid source version fp acc input received route origin rec :
  new_request_record ns agent sid rid source version fp acc input received route origin = Ret rec →
  ∃ input', model_validate input = Some input' ∧
  rec = {| namespace_id := ns; agent_id := agent; session_id := sid; request_id := rid;
           source_ref := source; config_version := version; config_fingerprint := fp;
           access := acc; request_input := input'; received_at := instant received;
           route_snapshot := route; permission_origin := origin |}.
Proof.
  unfold new_request_record. rewrite check_ret. intros [_ H].
  destruct (model_validate input) as [input'|]; [|done]. rewrite !check_ret in H. destruct H as (_&_&[= <-]). eauto.
Qed.

(** What [accept_request] does when it returns *)
Lemma accept_request_inv session snapshot source acc input received route w st b w' :
  let ns := sn_namespace_id session in let agent := sn_agent_id session in let sid := sn_session_id session in
  accept_request uuid session snapshot source acc input received route w = (Ret (st, b), w') →
  if b then
    (∀ r, r ∈ requests (db w) → source_key r ≠ (ns, agent, source)) ∧
    (∃ s t, s ∈ sessions (db w) ∧ session_key s = (ns, sid) ∧ sn_agent_id (session_of s) = agent ∧
      queue_key st = (ns, sid) ∧ source_key st = (ns, agent, source) ∧
      st = {| record := record st; seq := next_seq s; status := queued; outcome_ := None;
              updated_at := received_at (record st) |} ∧
      insert_row request_clash st (requests (db w)) = Some t ∧
      db w' = with_requests t (with_sessions (update_where (λ s0, bool_decide (session_key s0 = (ns, sid)))
               (λ s0, {| session_of := session_of s0; next_seq := next_seq s + 1 |}) (sessions (db w))) (db w)))
  else st ∈ requests (db w) ∧ source_key st = (ns, agent, source) ∧ session_id (record st) = sid ∧ db w' = db w.
Proof.
  intros ns agent sid H. unfold accept_request in H. fold ns agent sid in H. store_inv. case_match.
  - store_inv. injection H as -> ->. by split_and!.
  - store_inv. injection H as -> ->.
    match goal with H : new_request_record _ _ _ _ _ _ _ _ _ _ _ _ = Ret _ |- _ =>
      apply new_request_record_ret in H as (? & _ & ->) end.
    split; [done|]. do 2 eexists. split_and!; try done; naive_solver.
Qed.

Lemma keeps_accept_request session snapshot source acc input received route :
  db_keeps queue_ok (accept_request uuid session snapshot source acc input received route).
Proof.
  apply db_keeps_atomic.
  - change (atomic (accept_request uuid session snapshot source acc input received route)).
    unfold accept_request. auto with atomic.
  - intros w [st b] w' E Hd. apply accept_request_inv in E. destruct b; [|by destruct E as (_&_&_&->)].
    destruct E as (_ & s & t & Hs & Hk & Ha & Hq & Hsrc & Hst & Ht & ->). rewrite <- Hk.
    rewrite Hst in Ht. injection Hq as Hn Hi. injection Hsrc as _ Hag _.
    refine (queue_ok_request _ s (record st) _ Hd Hs _ _ Ht); [by rewrite Hk, Hn, Hi|by rewrite Ha, Hag].
Qed.

(** ** The operations *)

Inductive store_op :=
| OpResolve (ns agent : string) (conv : ConversationRef) (now : Z)
| OpAccept (session : SessionRecord) (snapshot : ConfigSnapshot) (source : string) (acc : AccessSnapshot) (input : I)
    (received : datetime) (route : option RequestRouteSnapshot)
| OpStart (ns rid : string) (now : Z)
| OpReopen (ns rid : string) (now : Z) (expected : option string)
| OpFinish (ns rid o : string) (now : Z)
| OpFailure (ns rid xid reason : string) (detail : option string) (now : Z)
| OpEvents (evs : list AgentEvent) (now : Z)
| OpClaim (ns : string) (channels : list string) (limit : Z) (exclude : list string) (now : Z)
| OpSaveJob (ns : string) (job : jdict)
| OpHandoffDone (ns id : string)
| OpNotice (ns id text : string) (now : Z)
| OpAck (ns id o : string) (external error : option string) (now : Z) (key : option string)
| OpInterrupted (ns : string) (channels : list string) (now : Z)
| OpArchived (ns id : string)
| OpControl (ns rid reason principal : string) (now : Z)
| OpControlFail (ns rid detail : string) (now : Z)
| OpRecovery (row : RecoveryRow).

Definition drop {A} (m : py (World (DB I)) mate_error A) : py (World (DB I)) mate_error unit := m ;; py_ret tt.

Definition run_op (o : store_op) : py (World (DB I)) mate_error unit :=
  match o with
  | OpResolve ns agent conv now => drop (resolve_session uuid ns agent conv now)
  | OpAccept session snapshot source acc input received route =>
      drop (accept_request uuid session snapshot source acc input received route)
  | OpStart ns rid now => drop (start_execution uuid ns rid now)
  | OpReopen ns rid now expected => drop (reopen_for_continuation ns rid now expected)
  | OpFinish ns rid o now => drop (finish_request ns rid o now)
  | OpFailure ns rid xid reason detail now =>
      drop (record_execution_failure uuid notice_text ns rid xid reason detail now)
  | OpEvents evs now => drop (record_events uuid notice_text evs now)
  | OpClaim ns channels limit exclude now => drop (claim_pending_result_deliveries ns channels limit exclude now)
  | OpSaveJob ns job => drop (save_result_delivery_job ns job)
  | OpHandoffDone ns id => drop (mark_welink_handoff_done ns id)
  | OpNotice ns id text now => drop (replace_result_delivery_with_notice ns id text now)
  | OpAck ns id o external error now key => drop (update_result_delivery ns id o external error now key)
  | OpInterrupted ns channels now => drop (recover_sending_result_deliveries ns channels now)
  | OpArchived ns id => drop (mark_delivery_archived ns id)
  | OpControl ns rid reason principal now => drop (control_claim ns rid reason principal now)
  | OpControlFail ns rid detail now => drop (control_fail ns rid detail now)
  | OpRecovery row => drop (recovery_claim row)
  end.

(** One call of the stores, by whichever part of the server *)
Definition store_step (w w' : World (DB I)) : Prop := ∃ o, w' = (run_op o w).2.

(** A file as [ExecutionRepository], [RecoveryStore] and [ControlStore] create it *)
Definition empty_db : DB I := mk_db [] [] [] [] [] [] [] [] (Some []) [].
Definition empty_store : World (DB I) := mk_world empty_db 0.

Lemma keeps_drop {A} (P : DB I → Prop) (m : py (World (DB I)) mate_error A) : db_keeps P m → db_keeps P (drop m).
Proof. intros H. unfold drop. auto with db_keeps. Qed.

Definition queue_op (o : store_op) : bool :=
  match o with
  | OpResolve _ _ _ _ | OpAccept _ _ _ _ _ _ _ | OpStart _ _ _ | OpReopen _ _ _ _ | OpFinish _ _ _ _
  | OpFailure _ _ _ _ _ _ => true
  | _ => false
  end.

Lemma off_queue_op o : queue_op o = false → off_queue (run_op o).
Proof.
  intros Ho d0. destruct o; try done; simpl; apply keeps_drop;
    first [apply off_queue_record_events | apply (off_queue_delivery_ops ns) | apply (off_queue_recovery_ops ns rid)
          | apply (off_queue_recovery_ops EmptyString EmptyString)].
Qed.

Lemma run_op_queue_ok o : db_keeps queue_ok (run_op o).
Proof.
  destruct (queue_op o) eqn:Ho; [|by apply keeps_queue; intros; apply off_queue_op].
  destruct o; try done; simpl; apply keeps_drop;
    auto using keeps_resolve_session, keeps_accept_request, keeps_start_execution, keeps_reopen, keeps_finish_request,
      keeps_record_failure.
Qed.

Lemma empty_queue_ok : queue_ok empty_db.
Proof. split; simpl; try constructor; intros; by (exfalso; eapply elem_of_nil). Qed.

Lemma store_run_queue_ok w w' : rtc store_step w w' → queue_ok (db w) → queue_ok (db w').
Proof. induction 1 as [|w1 w2 w3 [o ->] _ IH]; [done|]. intros H. by apply IH, run_op_queue_ok. Qed.

Lemma store_reachable_ok w : rtc store_step empty_store w → queue_ok (db w).
Proof. intros H. exact (store_run_queue_ok _ _ H empty_queue_ok). Qed.

Lemma run_op_atomic o : atomic (run_op o).
Proof.
  destruct o; apply atomic_drop.
  - unfold resolve_session. auto with atomic.
  - unfold accept_request. auto with atomic.
  - apply atomic_transaction.
  - apply atomic_transaction.
  - unfold finish_request. auto with atomic.
  - apply atomic_transaction.
  - unfold record_events. auto with atomic.
  - unfold claim_pending_result_deliveries. auto with atomic.
  - unfold save_result_delivery_job. destruct (od_get job "delivery_id") as [[]|]; auto using atomic_reads with atomic.
  - apply atomic_transaction.
  - unfold replace_result_delivery_with_notice. auto with atomic.
  - unfold update_result_delivery. auto with atomic.
  - unfold recover_sending_result_deliveries. cbn zeta. auto with atomic.
  - apply atomic_transaction.
  - apply atomic_transaction.
  - apply atomic_transaction.
  - apply atomic_transaction.
Qed.

(** ** How a Request moves *)

(** A change of a Request's status *)
Inductive request_step (r : RequestState I) : RequestState I → Prop :=
| rq_dispatch now : status r = queued → request_step r (set_status dispatched (outcome_ r) now r)
| rq_end o now : status r ≠ ended → o ∈ ENDED_OUTCOMES → request_step r (set_status ended (Some o) now r)
| rq_reopen now : status r = ended → outcome_ r = Some "paused" → request_step r (set_status queued None now r).

(** Every Request of [d0] is still there in [d], in its place, moved by such changes. *)
Definition advances (d0 d : DB I) : Prop := evolves request_step (λ _, True) (requests d0) (requests d).

Lemma advances_same d0 d : requests d = requests d0 → advances d0 d.
Proof. unfold advances. intros ->. apply evolves_refl. Qed.

Lemma advances_trans d0 d1 d2 : advances d0 d1 → advances d1 d2 → advances d0 d2.
Proof. apply evolves_trans. Qed.

Lemma advances_update d P f :
  (∀ r, r ∈ requests d → P r = true → rtc request_step r (f r)) →
  advances d (with_requests (update_where P f (requests d)) d).
Proof. apply evolves_update. Qed.

Lemma advances_append d t r :
  insert_row request_clash r (requests d) = Some t → ∀ d', requests d' = t → advances d d'.
Proof. intros H d' E. unfold advances. rewrite E. by eapply evolves_insert. Qed.

Lemma advances_returned {A} (m : py (World (DB I)) mate_error A) w :
  atomic m → (∀ a w', m w = (Ret a, w') → advances (db w) (db w')) → advances (db w) (db (m w).2).
Proof.
  intros Hm H. destruct (m w) as [[a|e] w'] eqn:E; simpl; [by eapply H|].
  apply advances_same. by rewrite (Hm _ _ _ E).
Qed.

Lemma advances_drop {A} (m : py (World (DB I)) mate_error A) w :
  advances (db w) (db (m w).2) → advances (db w) (db (drop m w).2).
Proof. unfold drop, py_bind. by destruct (m w) as [[a|e] w']. Qed.

(** The row of a key is the only one that a statement on the key updates. *)
Lemma request_of_key d r row key :
  queue_ok d → row ∈ requests d → request_key row = key → r ∈ requests d →
  bool_decide (request_key r = key) = true → r = row.
Proof. intros Hd Hrow Hk Hr H. apply bool_decide_eq_true in H. eapply (unique_eq request_key); eauto using qk_requests. congruence. Qed.

Lemma start_advances ns rid now w :
  queue_ok (db w) → advances (db w) (db (start_execution uuid ns rid now w).2).
Proof.
  intros Hd. apply advances_returned; [apply atomic_transaction|]. intros x w' H.
  apply start_execution_inv in H
    as (row & t & t' & Hrow & Hk & Hs & _ & _ & _ & _ & _ & ->).
  refine (advances_trans _ _ _ (advances_same _ _ _) (advances_update _ _ _ _)); [done|]. intros r Hr HP.
  rewrite (request_of_key _ _ _ _ Hd Hrow Hk Hr HP). by apply rtc_once, rq_dispatch.
Qed.

Lemma finish_advances ns rid o now w :
  queue_ok (db w) → advances (db w) (db (finish_request ns rid o now w).2).
Proof.
  intros Hd. apply advances_returned; [unfold finish_request; auto with atomic|].
  intros r w' H. unfold finish_request in H. store_inv.
  match goal with H : request_key ?r = _, H' : ?r ∈ _ |- _ => rename r into row, H into Hk, H' into Hrow end.
  destruct (decide (status row = ended)) as [Hs|Hs]; [rewrite (bool_decide_true _ Hs) in H|rewrite (bool_decide_false _ Hs) in H];
    store_inv; [by apply advances_same|].
  apply advances_update. intros r' Hr' HP. rewrite (request_of_key _ _ _ _ Hd Hrow Hk Hr' HP).
  by apply rtc_once, rq_end.
Qed.

Lemma reopen_advances ns rid now e w :
  queue_ok (db w) → advances (db w) (db (reopen_for_continuation ns rid now e w).2).
Proof.
  intros Hd. apply advances_returned; [apply atomic_transaction|]. intros b w' H.
  unfold reopen_for_continuation in H. store_inv.
  match goal with H : request_key ?r = _, H' : ?r ∈ _ |- _ => rename H into Hk, H' into Hrow end.
  destruct (negb _) eqn:E in H; store_inv; [by apply advances_same|].
  destruct (_pending_continuation ns rid (db w)); [|store_inv; by apply advances_same].
  destruct (_ && _) in H; store_inv; [by apply advances_same|].
  apply advances_update. intros r' Hr' HP. apply bool_decide_eq_true in HP as [HP _].
  rewrite (request_of_key _ _ _ _ Hd Hrow Hk Hr' (bool_decide_eq_true_2 _ HP)).
  destruct E. by apply rtc_once, rq_reopen.
Qed.

Lemma failure_advances ns rid xid reason detail now w :
  advances (db w) (db (record_execution_failure uuid notice_text ns rid xid reason detail now w).2).
Proof.
  apply advances_returned; [apply atomic_transaction|]. intros u w' H.
  unfold record_execution_failure in H. store_inv.
  match goal with H : _enqueue_failure_notice _ _ _ _ _ _ _ _ = _ |- _ =>
    pose proof (db_keeps_ret_inv _ _ _ _ _ (off_queue_notice _ _ _ _ _ (db w)) H (same_queue_refl _)) as (_ & E & _) end.
  refine (advances_trans _ _ _ (advances_same _ _ E) (advances_update _ _ _ _)). intros r _ HP.
  apply bool_decide_eq_true in HP as [_ HP]. apply rtc_once, rq_end; [congruence|by apply (bool_decide_unpack _)].
Qed.

Lemma run_op_advances o w : queue_ok (db w) → advances (db w) (db (run_op o w).2).
Proof.
  intros Hd. destruct (queue_op o) eqn:Ho.
  2: { apply advances_same. apply (off_queue_op o Ho (db w) w). apply same_queue_refl. }
  destruct o; try done; apply advances_drop;
    auto using start_advances, finish_advances, reopen_advances, failure_advances.
  - assert (∀ d, db_keeps (λ d', requests d' = requests d) (resolve_session uuid ns agent conv now)) as H.
    { intros d. unfold resolve_session, insert_into. cbn zeta.
      assert (∀ t, db_keeps (E := mate_error) (λ d', requests d' = requests d) (with_db (with_sessions t))) by
        (intros t; by apply db_keeps_with). eauto 20 with db_keeps. }
    apply advances_same. by apply H.
  - apply advances_returned; [unfold accept_request; auto with atomic|]. intros [st b] w' E.
    apply accept_request_inv in E. destruct b; [|destruct E as (_&_&_&->); by apply advances_same].
    destruct E as (_ & s & t & _ & _ & _ & _ & _ & _ & Ht & ->). by eapply advances_append.
Qed.

Lemma store_run_advances w w' : rtc store_step w w' → queue_ok (db w) → advances (db w) (db w').
Proof.
  induction 1 as [|w1 w2 w3 [o ->] _ IH]; [by intros; apply advances_same|]. intros H.
  eapply advances_trans; [by apply run_op_advances|]. by apply IH, run_op_queue_ok.
Qed.

End inv.
