(* ===== verification/StoreProps.v ===== *)
(** * The Request queue of JiuwenMate: theorems

    What [StoreInv] makes of the calls of [RequestStore] and [Recovery]: from any state that
    calls of the stores reach, by whatever part of the server and in whatever order. *)

From S2P Require Import Prelude OrderedDict PyJson Tables MateModels RequestStore DeliveryStore Recovery StoreInv.

Section props.
Context {I : Type} `{!RequestInputs I}.
Context (uuid : nat → string) (notice_text : string → string → option string → string).
Implicit Types (d : DB I) (w : World (DB I)) (r : RequestState I).

#[local] Abbreviation step := (store_step uuid notice_text) (only parsing).
#[local] Abbreviation reachable w := (rtc (store_step uuid notice_text) (empty_store (I := I)) w) (only parsing).

Lemma request_steps_ident r r' : rtc request_step r r' → ident r' = ident r.
Proof. induction 1 as [|r1 r2 r3 H _ IH]; [done|]. rewrite IH. by destruct H. Qed.

Lemma request_steps_final r r' :
  rtc request_step r r' → status r = ended → outcome_ r ≠ Some "paused" → r' = r.
Proof. destruct 1 as [|r1 r2 r3 H _]; [done|]. destruct H; congruence. Qed.

Lemma advances_request d0 d r : advances d0 d → r ∈ requests d0 → ∃ r', r' ∈ requests d ∧ rtc request_step r r'.
Proof. apply evolves_row. Qed.

(** C26: whatever calls the stores have served, a Session has at most one dispatched Request, which
    has an Execution; a source event is queued at most once and the places in a Session's
    queue are distinct and below its next number; a Request has an outcome just when it has
    ended; Executions are linked one by one to Requests that exist, and no two of a Request
    continue the same Execution. *)
Theorem store_invariant w : reachable w → queue_ok (db w).
Proof. apply store_reachable_ok. Qed.

(** a call of the stores that raises leaves every table as it was. *)
Theorem operations_atomic o w e w' : run_op uuid notice_text o w = (Exc e, w') → db w' = db w.
Proof. apply run_op_atomic. Qed.

(** C16: a Request that has been accepted stays in its place with what was asked, and moves only
    from queued to dispatched, from either to ended, and from a pause back to queued; one
    that has ended otherwise stays as it is. *)
Theorem request_lifecycle w w' r :
  reachable w → rtc step w w' → r ∈ requests (db w) →
  ∃ r', r' ∈ requests (db w') ∧ record r' = record r ∧ seq r' = seq r ∧ rtc request_step r r' ∧
        (status r = ended → outcome_ r ≠ Some "paused" → r' = r).
Proof.
  intros Hr Hs Hin. pose proof (store_run_advances _ _ _ _ Hs (store_reachable_ok _ _ _ Hr)) as Ha.
  destruct (advances_request _ _ _ Ha Hin) as (r' & Hr' & Hm). exists r'.
  pose proof (request_steps_ident _ _ Hm) as [= ? ?]. split_and!; try done. by apply request_steps_final.
Qed.

(** ** Accepting *)

Lemma accept_known session snapshot source acc input received route w row :
  row ∈ requests (db w) → unique source_key (requests (db w)) →
  source_key row = (sn_namespace_id session, sn_agent_id session, source) →
  session_id (record row) = sn_session_id session →
  require_identifier source = Ret tt → cf_agent_id snapshot = sn_agent_id session →
  accepts (conversation session) (in_kind input) = true →
  accept_request uuid session snapshot source acc input received route w = (Ret (row, false), w).
Proof.
  intros Hrow Hu Hk Hsid Hid Hc Ha. unfold accept_request, py_bind, py_pure, py_guard, transaction, get_db.
  rewrite Hid, Hc, eqs_refl, Ha. cbn [negb py_ret].
  rewrite (fetchone_dec_unique source_key _ _ row Hu Hrow Hk) by (intros; congruence).
  rewrite Hsid, eqs_refl. done.
Qed.

(** C17: a source event is accepted once: when it comes again, at any later time, with whatever
    snapshot, input and route, the Request that the first call made is returned with
    [false], and nothing is stored. *)
Theorem accepted_once session snapshot snapshot' source acc acc' input input' received received' route route'
    w st w1 w2 :
  reachable w → accept_request uuid session snapshot source acc input received route w = (Ret (st, true), w1) →
  rtc step w1 w2 → cf_agent_id snapshot' = sn_agent_id session →
  accepts (conversation session) (in_kind input') = true →
  ∃ st', accept_request uuid session snapshot' source acc' input' received' route' w2 = (Ret (st', false), w2) ∧
         record st' = record st ∧ seq st' = seq st.
Proof.
  intros Hr Hacc Hs Hc Ha. pose proof (store_reachable_ok _ _ _ Hr) as Hd.
  assert (queue_ok (db w1)) as Hd1.
  { eapply db_keeps_ret_inv; [|exact Hacc|done]. apply keeps_accept_request. }
  assert (require_identifier source = Ret tt) as Hid.
  { unfold accept_request in Hacc. store_inv. by destruct a. }
  apply accept_request_inv in Hacc as (_ & s & t & _ & _ & _ & Hq & Hk & _ & Ht & Hw1).
  assert (st ∈ requests (db w1)) as Hin.
  { rewrite Hw1. simpl. apply insert_row_some in Ht as [-> _]. apply elem_of_app. right. by apply list_elem_of_singleton. }
  destruct (advances_request _ _ _ (store_run_advances _ _ _ _ Hs Hd1) Hin) as (st' & Hst' & Hm).
  pose proof (request_steps_ident _ _ Hm) as [= Hrec Hseq]. exists st'. split; [|done].
  pose proof (store_run_queue_ok _ _ _ _ Hs Hd1) as Hd2. injection Hq as _ Hsid.
  apply accept_known; auto using qk_sources; unfold source_key in *; congruence.
Qed.

Lemma session_queue_sorted ns sid d :
  queue_ok d → StronglySorted (λ a b, (seq a < seq b)%Z) (session_requests ns sid d).
Proof.
  intros Hd. apply py_sorted_strict. pose proof (qk_seqs _ Hd) as Hu. revert Hu. unfold unique, select.
  induction (requests d) as [|r l IH]; [intros _; constructor|]. rewrite fmap_cons. intros [Hr Hn]%NoDup_cons. rewrite filter_cons.
  destruct (decide (bool_decide (queue_key r = (ns, sid)) = true)) as [Hq|_]; [|by apply IH].
  rewrite fmap_cons. apply NoDup_cons. split; [|by apply IH].
  intros (r' & He & [Hq' Hr']%list_elem_of_filter)%list_elem_of_fmap. apply Hr.
  apply bool_decide_eq_true in Hq, Hq'. apply list_elem_of_fmap. exists r'. split; [|done].
  unfold seq_key. congruence.
Qed.

(** C: an accepted Request goes to the end of its Session's queue, which is in the order of
    acceptance, and the queues of the other Sessions stay as they are. *)
Theorem accepted_last session snapshot source acc input received route w st w' :
  reachable w → accept_request uuid session snapshot source acc input received route w = (Ret (st, true), w') →
  session_requests (sn_namespace_id session) (sn_session_id session) (db w')
    = session_requests (sn_namespace_id session) (sn_session_id session) (db w) ++ [st] ∧
  StronglySorted (λ a b, (seq a < seq b)%Z)
    (session_requests (sn_namespace_id session) (sn_session_id session) (db w')) ∧
  ∀ ns sid, (ns, sid) ≠ (sn_namespace_id session, sn_session_id session) →
    session_requests ns sid (db w') = session_requests ns sid (db w).
Proof.
  intros Hr Hacc. pose proof (store_reachable_ok _ _ _ Hr) as Hd.
  split_and!.
  - apply accept_request_inv in Hacc as (_ & s & t & Hs & Hk & _ & Hq & _ & Hst & Ht & ->).
    apply insert_row_some in Ht as [-> _]. unfold session_requests. simpl.
    rewrite select_app. unfold select at 2. rewrite filter_cons_True by (by apply bool_decide_eq_true).
    rewrite filter_nil. apply py_sorted_snoc. intros r [Hrq Hrin]%elem_of_rows. apply bool_decide_eq_true in Hrq.
    destruct (qk_session _ Hd r Hrin) as (s' & Hs' & Hk' & _ & Hlt).
    assert (s' = s) as -> by (eapply (unique_eq session_key); eauto using qk_sessions; congruence).
    rewrite Hst. simpl. lia.
  - apply session_queue_sorted. eapply db_keeps_ret_inv; [|exact Hacc|done]. apply keeps_accept_request.
  - intros ns sid Hne.
    apply accept_request_inv in Hacc as (_ & s & t & _ & _ & _ & Hq & _ & _ & Ht & ->).
    apply insert_row_some in Ht as [-> _]. unfold session_requests. simpl. f_equal.
    rewrite select_app. unfold select at 2. rewrite filter_cons_False, filter_nil, app_nil_r; [done|].
    rewrite bool_decide_eq_true. congruence.
Qed.

(** ** Executions *)

#[local] Hint Extern 2 (db_keeps (λ d, _ ∈ executions d) (with_db _)) =>
  (by apply db_keeps_with; intros ? ?; assumption) : db_keeps.
#[local] Hint Extern 2 (db_keeps (λ d, _ ∈ executions d) (insert_into _ _ _ _)) =>
  (by apply db_keeps_insert; intros ? ? ? ?; assumption) : db_keeps.

Lemma executions_kept o (x : ExecutionRow) : db_keeps (λ d, x ∈ executions d) (run_op uuid notice_text o).
Proof.
  destruct (queue_op o) eqn:Ho.
  2: { intros w Hx. destruct (off_queue_op uuid notice_text o Ho (db w) w (same_queue_refl _)) as (_&_&E&_). by rewrite E. }
  destruct o; try done; apply keeps_drop.
  - unfold resolve_session. cbn zeta. eauto 20 with db_keeps.
  - unfold accept_request. cbn zeta. eauto 30 with db_keeps.
  - unfold start_execution, _save_link, update_requests. cbn zeta.
    assert (∀ y, db_keeps (λ d, x ∈ executions d) (insert_into executions (with_executions (I := I)) execution_clash y)).
    { intros y. apply db_keeps_insert. intros d t [-> _]%insert_row_some Hx. apply elem_of_app. by left. }
    eauto 30 with db_keeps.
  - unfold reopen_for_continuation, update_requests. eauto 20 with db_keeps.
  - unfold finish_request, update_requests. eauto 20 with db_keeps.
  - unfold record_execution_failure, _enqueue_failure_notice, add_delivery, update_requests. cbn zeta. eauto 20 with db_keeps.
Qed.

Lemma executions_stay w w' (x : ExecutionRow) : rtc step w w' → x ∈ executions (db w) → x ∈ executions (db w').
Proof. induction 1 as [|w1 w2 w3 [o ->] _ IH]; [done|]. intros H. by apply IH, executions_kept. Qed.

Lemma pending_continuation_judged ns rid d p :
  _pending_continuation ns rid d = Some p →
  ∃ t row, request_recoveries d = Some t ∧ row ∈ t ∧ r_namespace_id row = ns ∧ r_request_id row = rid ∧
           decision row = "awaiting_continuation" ∧ r_execution_id row = p.
Proof.
  unfold _pending_continuation. destruct (request_recoveries d) as [t|]; [|done]. simpl.
  destruct (latest_recovery _ t) as [row|] eqn:E; [|done]. simpl. destruct (fetchone _ _); [done|]. intros [= <-].
  exists t, row. apply last_Some_elem_of in E. rewrite py_sorted_perm in E.
  apply elem_of_rows in E as [(?&?&?)%bool_decide_eq_true ?]. by split_and!.
Qed.

(** an Execution that is started names as the one it continues just what the latest judgment
    leaves to be continued, and whatever is called afterwards, no other Execution of the
    Request ever continues the same one. *)
Theorem continued_once ns rid now w x w1 w2 p :
  reachable w → start_execution uuid ns rid now w = (Ret x, w1) → recovery_ref x = Some p → rtc step w1 w2 →
  (∃ t row, request_recoveries (db w) = Some t ∧ row ∈ t ∧ r_namespace_id row = ns ∧ r_request_id row = rid ∧
            decision row = "awaiting_continuation" ∧ r_execution_id row = p) ∧
  (∃ y, y ∈ executions (db w2) ∧ execution_of y = x) ∧
  ∀ y, y ∈ executions (db w2) → x_namespace_id y = ns → ex_request_id (execution_of y) = rid →
       recovery_ref (execution_of y) = Some p → execution_of y = x.
Proof.
  intros Hr Hst Hp Hs. pose proof (store_reachable_ok _ _ _ Hr) as Hd.
  assert (queue_ok (db w1)) as Hd1.
  { eapply db_keeps_ret_inv; [|exact Hst|done]. apply keeps_start_execution. }
  apply start_execution_inv in Hst as (row & t & t' & _ & _ & _ & _ & Hx & Hpend & Ht & _ & Hw1).
  set (xr := {| x_namespace_id := ns; execution_of := x; started_at := now |}) in *.
  assert (xr ∈ executions (db w2)) as Hin.
  { eapply executions_stay; [exact Hs|]. rewrite Hw1. simpl. apply insert_row_some in Ht as [-> _].
    apply elem_of_app. right. by apply list_elem_of_singleton. }
  pose proof (store_run_queue_ok _ _ _ _ Hs Hd1) as Hd2.
  split; [apply pending_continuation_judged; congruence|]. split; [by exists xr|].
  intros y Hy Hn Hrid Hpy. assert (y = xr) as ->; [|done].
  eapply (qk_once _ Hd2); simpl; congruence.
Qed.

Lemma links_fresh d key :
  queue_ok d → (∀ x, x ∈ executions d → execution_key x ≠ key) → ∀ l, l ∈ links d → link_key l ≠ key.
Proof.
  intros Hd Hx l [i Hi]%list_elem_of_lookup He.
  destruct (Forall2_lookup_r _ _ _ _ _ (qk_links _ Hd) Hi) as (x & Hxi & r & _ & Hk & ->).
  apply (Hx x); [by eapply list_elem_of_lookup_2|]. rewrite <- He. unfold execution_key, link_key. simpl. by injection Hk as ->.
Qed.

Lemma require_request_run ns rid w row :
  queue_ok (db w) → row ∈ requests (db w) → request_key row = (ns, rid) → _require_request ns rid w = (Ret row, w).
Proof.
  intros Hd Hrow Hk. unfold _require_request, py_bind, get_db.
  by rewrite (fetchone_dec_unique request_key _ _ row (qk_requests _ Hd) Hrow Hk) by (intros; congruence).
Qed.

(** C: [start_execution] refuses a Request that is not there, one that is not queued and one
    whose Session is busy, each with its own code and without storing anything; otherwise,
    when the new identifier is not in use, it returns the Execution, stores it last with its
    link, and dispatches the Request. *)
Theorem start_execution_correct ns rid now w :
  reachable w →
  ((∀ r, r ∈ requests (db w) → request_key r ≠ (ns, rid)) →
     start_execution uuid ns rid now w = (Exc NOT_FOUND, w)) ∧
  ∀ row, row ∈ requests (db w) → request_key row = (ns, rid) →
    (status row ≠ queued → start_execution uuid ns rid now w = (Exc CONFLICT, w)) ∧
    (status row = queued → (∃ r, r ∈ requests (db w) ∧ queue_key r = queue_key row ∧ status r = dispatched) →
       start_execution uuid ns rid now w = (Exc (PersistentAgentError "SESSION_BUSY"), w)) ∧
    (∀ x, status row = queued → (∀ r, r ∈ requests (db w) → queue_key r = queue_key row → status r ≠ dispatched) →
       new_execution_record rid ("exe_" +:+ uuid (drawn w)) (_pending_continuation ns rid (db w)) = Ret x →
       (∀ y, y ∈ executions (db w) → execution_key y ≠ (ns, execution_id x)) →
       ∃ w', start_execution uuid ns rid now w = (Ret x, w') ∧ drawn w' = S (drawn w) ∧
         executions (db w') = executions (db w) ++ [{| x_namespace_id := ns; execution_of := x; started_at := now |}] ∧
         links (db w') = links (db w) ++ [link_of row x] ∧
         requests (db w') = update_where (λ r, bool_decide (request_key r = (ns, rid)))
                              (λ r, set_status dispatched (outcome_ r) now r) (requests (db w))).
Proof.
  intros Hr. pose proof (store_reachable_ok _ _ _ Hr) as Hd. destruct w as [d n]. split.
  - intros Hno. unfold start_execution, transaction, _require_request, py_bind, get_db.
    by rewrite (proj2 (fetchone_dec_none _ _) Hno).
  - intros row Hrow Hk. pose proof (require_request_run _ _ _ _ Hd Hrow Hk) as Hreq.
    split_and!.
    + intros Hs. unfold start_execution, transaction, py_guard, py_bind. rewrite Hreq. by rewrite bool_decide_false.
    + intros Hs (r & Hrin & Hq & Hrs). unfold start_execution, transaction, py_guard, py_bind. rewrite Hreq.
      rewrite bool_decide_true by done. simpl. rewrite bool_decide_false; [done|].
      rewrite fetchone_dec_none. intros Hfree. apply (Hfree r Hrin). injection Hq as ? ?. injection Hk as ? ?.
      split_and!; congruence.
    + intros x Hs Hfree Hx Hfresh. unfold start_execution, transaction. unfold py_bind at 1. rewrite Hreq.
      unfold py_bind at 1, py_guard at 1. rewrite bool_decide_true by done. cbn [py_ret].
      pose proof (new_execution_record_ret _ _ _ _ Hx) as Ex. 
      unfold py_bind at 1, get_db. cbn [db]. unfold py_bind at 1, py_guard.
      rewrite bool_decide_true.
      2: { rewrite fetchone_dec_none. intros r Hrin (? & ? & Hrs). apply (Hfree r Hrin); [|done].
           injection Hk as ? ?. unfold queue_key. congruence. }
      cbn [py_ret]. unfold py_bind at 1, draw. cbn [db drawn]. unfold py_bind at 1, py_pure. cbn [db drawn] in Hx. rewrite Hx.
      unfold py_bind at 1. rewrite insert_into_run by (intros y Hy; apply bool_decide_eq_false; intros He; by apply (Hfresh y Hy)).
      unfold py_bind at 1, _save_link. rewrite insert_into_run.
      2: { intros l Hl. apply bool_decide_eq_false. intros He. apply (links_fresh _ _ Hd Hfresh l Hl).
           rewrite <- He. unfold link_key. simpl. by injection Hk as ->. }
      eexists. by split_and!.
Qed.

End props.
