(* ===== verification/RecoveryProps.v ===== *)
(** * Recovery and control of Requests: theorems

    What a restart does with a Request that it finds dispatched ([Recovery._close]), and who
    controls a Request. *)

From S2P Require Import Prelude OrderedDict PyJson Tables MateModels RequestStore DeliveryStore Recovery StoreInv StoreProps.

Section recovery_props.
Context {I : Type} `{!RequestInputs I}.
Context (uuid : nat → string) (notice_text : string → string → option string → string).
Implicit Types (d : DB I) (w : World (DB I)).

(** ** Calls that return *)

Lemma finish_request_run ns rid o now w row :
  queue_ok (db w) → row ∈ requests (db w) → request_key row = (ns, rid) → status row ≠ ended → o ∈ ENDED_OUTCOMES →
  finish_request ns rid o now w =
    (Ret (set_status ended (Some o) now row),
     mk_world (with_requests (update_where (λ r, bool_decide (request_key r = (ns, rid)))
                                (set_status ended (Some o) now) (requests (db w))) (db w)) (drawn w)).
Proof.
  intros Hd Hrow Hk Hs Ho. unfold finish_request. unfold py_bind at 1, py_guard. rewrite bool_decide_true by done.
  cbn [py_ret]. unfold transaction. unfold py_bind at 1. rewrite (require_request_run _ _ _ _ Hd Hrow Hk).
  rewrite bool_decide_false by done. unfold py_bind, update_requests, with_db, py_modify. 
  erewrite require_request_run; [done|by apply queue_ok_close| |done].
  simpl. apply elem_of_update_where. right. exists row. split_and!; [done|by apply bool_decide_eq_true|done].
Qed.

Lemma reopen_run ns rid now w row p :
  queue_ok (db w) → row ∈ requests (db w) → request_key row = (ns, rid) → status row = ended →
  outcome_ row = Some "paused" → _pending_continuation ns rid (db w) = Some p →
  reopen_for_continuation ns rid now None w =
    (Ret true, mk_world (with_requests (update_where (λ r, bool_decide (request_key r = (ns, rid) ∧ status r = ended))
                                          (set_status queued None now) (requests (db w))) (db w)) (drawn w)).
Proof.
  intros Hd Hrow Hk Hs Ho Hp. unfold reopen_for_continuation, transaction. unfold py_bind at 1.
  rewrite (require_request_run _ _ _ _ Hd Hrow Hk). rewrite bool_decide_true by done. simpl.
  unfold py_bind, get_db. by rewrite Hp.
Qed.

Lemma recovery_claim_run w t row :
  request_recoveries (db w) = Some t → (∀ r, r ∈ t → recovery_key r ≠ recovery_key row) →
  recovery_claim (I := I) row w = (Ret row, mk_world (with_recoveries (Some (t ++ [row])) (db w)) (drawn w)).
Proof.
  intros Ht Hno. unfold recovery_claim, transaction, py_bind, get_db, py_some. rewrite Ht. simpl.
  assert (insert_or_ignore (λ a b, bool_decide (recovery_key a = recovery_key b)) row t = t ++ [row]) as ->.
  { destruct (insert_or_ignore_cases (λ a b, bool_decide (recovery_key a = recovery_key b)) row t)
      as [(_ & r & Hr & Hk)|H]; [|by apply insert_row_some in H as [? _]].
    apply bool_decide_eq_true in Hk. by destruct (Hno r Hr). }
  rewrite fetchone_snoc; [done| |by apply bool_decide_eq_true]. intros r Hr. apply bool_decide_eq_false. by apply Hno.
Qed.

Lemma read_log_run ns sid rid xid w row x :
  row ∈ requests (db w) → request_key row = (ns, rid) → session_id (record row) = sid →
  x ∈ executions (db w) → x_namespace_id x = ns → execution_id (execution_of x) = xid →
  ex_request_id (execution_of x) = rid →
  ∃ log, read_execution_log ns sid rid xid w = (Ret log, w).
Proof.
  intros Hrow Hk Hsid Hx Hn Hxid Hxr. unfold read_execution_log. eexists. unfold py_bind, get_db, py_guard.
  rewrite bool_decide_true; [rewrite bool_decide_true; [done|]|].
  - rewrite fetchone_dec_none. intros H. by apply (H row Hrow).
  - rewrite fetchone_dec_none. intros H. by apply (H x Hx).
Qed.

Lemma latest_execution ns rid d latest :
  last (executions_of ns rid d) = Some latest →
  ∃ x, x ∈ executions d ∧ x_namespace_id x = ns ∧ ex_request_id (execution_of x) = rid ∧ execution_of x = latest.
Proof.
  unfold executions_of. rewrite fmap_last. destruct (last _) as [x|] eqn:E; [|done]. intros [= <-].
  apply last_Some_elem_of in E. rewrite py_sorted_perm in E. apply elem_of_rows in E as [[??]%bool_decide_eq_true ?].
  by exists x.
Qed.

Lemma latest_recovery_snoc P t (row : RecoveryRow) :
  P row = true → (∀ r, r ∈ t → P r = true → (decided_at r ≤ decided_at row)%Z) → latest_recovery P (t ++ [row]) = Some row.
Proof.
  intros HP Ht. unfold latest_recovery. rewrite select_app. unfold select at 2. rewrite filter_cons_True by done.
  rewrite filter_nil, py_sorted_snoc, last_snoc; [done|]. intros r [? ?]%elem_of_rows. by apply Ht.
Qed.

(** The first event of a log that ends its Execution *)
Definition ends_with (log : list AgentEvent) (p : EventPayload) : Prop :=
  ∃ before e after, log = before ++ e :: after ∧ payload e = p ∧ Forall (λ e, terminal_event (payload e) = false) before.

(** What a Request whose Execution was interrupted is to become, from the log of the Execution and
    the control its sender gave *)
Inductive verdict (log : list AgentEvent) (control : option ControlRow) : string → string → Prop :=
| verdict_final refs status why : ends_with log (EXECUTION_FINAL refs status why) →
    verdict log control "closed_from_log" status
| verdict_stopped_in_log refs detail calls : ends_with log (EXECUTION_PAUSED refs "stopped" detail calls) →
    verdict log control "closed_from_log" "stopped"
| verdict_paused_in_log refs why detail calls : ends_with log (EXECUTION_PAUSED refs why detail calls) → why ≠ "stopped" →
    verdict log control "closed_from_log" "paused"
| verdict_stop k : Forall (λ e, terminal_event (payload e) = false) log → control = Some k → k_reason k = "stop" →
    verdict log control "closed_by_control" "stopped"
| verdict_cancel k : Forall (λ e, terminal_event (payload e) = false) log → control = Some k → k_reason k ≠ "stop" →
    verdict log control "closed_by_control" "cancelled"
| verdict_continue : Forall (λ e, terminal_event (payload e) = false) log → control = None →
    verdict log control "awaiting_continuation" "paused".

(** The first element that a filter keeps *)
Lemma filter_first {A} (f : A → bool) (l : list A) :
  match filter (λ x, f x = true) l with
  | [] => Forall (λ x, f x = false) l
  | x :: _ => ∃ before after, l = before ++ x :: after ∧ f x = true ∧ Forall (λ x, f x = false) before
  end.
Proof.
  induction l as [|y l IH]; [constructor|]. destruct (f y) eqn:E.
  - rewrite filter_cons_True by done. by exists [], l.
  - rewrite filter_cons_False by (by rewrite E). destruct (filter _ l) as [|x l']; [by constructor|].
    destruct IH as (before & after & -> & Hx & Hb). exists (y :: before), after. split; [done|]. split; [done|by constructor].
Qed.

Lemma judge_verdict ns rid xid log control now :
  let r := _judge ns rid xid log control now in verdict log control (decision r) (r_outcome r).
Proof.
  unfold _judge. pose proof (filter_first (λ e, terminal_event (payload e)) log) as H.
  destruct (filter _ log) as [|e l]; cbn [head decision r_outcome fst snd].
  - destruct control as [k|]; cbn [fst snd]; [|by constructor]. unfold control_outcome.
    destruct (k_reason k =s "stop") eqn:Ek; [apply eqs_true in Ek; by econstructor|].
    eapply verdict_cancel; [done..|]. intros Hk. rewrite Hk, eqs_refl in Ek. done.
  - destruct H as (before & after & Hl & He & Hb).
    assert (ends_with log (payload e)) as Hends by (by exists before, e, after).
    destruct (payload e) as [| | |refs why detail calls|refs status why|] eqn:Ep; try done; cbn [outcome_of fst snd]; [|by econstructor].
    destruct (why =s "stopped") eqn:Ew; [apply eqs_true in Ew; subst; by econstructor|].
    eapply verdict_paused_in_log; [done|]. intros ->. by rewrite eqs_refl in Ew.
Qed.

Lemma elem_of_unverified id log : id ∈ unverified_tool_calls log ↔
  (∃ e, e ∈ log ∧ payload e = TOOL_INTENT id) ∧ ∀ e, e ∈ log → payload e ≠ TOOL_COMPLETED id.
Proof.
  assert (∀ x, x ∈ completed_calls log ↔ ∃ e, e ∈ log ∧ payload e = TOOL_COMPLETED x) as Hc.
  { intros x. unfold completed_calls. rewrite list_elem_of_omap. split.
    - intros (e & He & Hx). exists e. destruct (payload e); simplify_eq. done.
    - intros (e & He & Hx). exists e. by rewrite Hx. }
  unfold unverified_tool_calls. rewrite list_elem_of_omap. split.
  - intros (e & He & Hx). destruct (payload e) as [|x| | | |] eqn:Ep; try done. case_bool_decide as Hid; [done|]. injection Hx as ->.
    split; [by exists e|]. intros e' He' Hp. apply Hid, Hc. by exists e'.
  - intros [(e & He & Hp) Hno]. exists e. split; [done|]. rewrite Hp, bool_decide_false; [done|]. rewrite Hc.
    intros (e' & He' & Hp'). by eapply Hno.
Qed.

(** C18: a Request found dispatched is judged by the log of its latest Execution: the first ending saved in it
    decides the outcome; else the control its sender gave ends it, as stopped or cancelled; only when there is
    neither it is queued again, and its next Execution continues the interrupted one.  The
    judgment is stored, with the tool calls that were begun and are not known to have ended. *)
Theorem close_correct state latest t now w :
  let ns := namespace_id (record state) in let rid := request_id (record state) in
  rtc (store_step uuid notice_text) empty_store w → state ∈ requests (db w) → status state = dispatched →
  last (executions_of ns rid (db w)) = Some latest → request_recoveries (db w) = Some t →
  (∀ r, r ∈ t → recovery_key r ≠ (ns, rid, execution_id latest)) →
  (∀ r, r ∈ t → r_namespace_id r = ns → r_request_id r = rid → (decided_at r ≤ now)%Z) →
  (∀ x, x ∈ executions (db w) → x_namespace_id x = ns → ex_request_id (execution_of x) = rid →
     recovery_ref (execution_of x) ≠ Some (execution_id latest)) →
  ∃ log r, read_execution_log ns (session_id (record state)) rid (execution_id latest) w = (Ret log, w) ∧
  verdict log (control_get ns rid (db w)) (decision r) (r_outcome r) ∧
  recovery_key r = (ns, rid, execution_id latest) ∧ decided_at r = now ∧
  (∀ id, id ∈ unverified r ↔ (∃ e, e ∈ log ∧ payload e = TOOL_INTENT id) ∧ ∀ e, e ∈ log → payload e ≠ TOOL_COMPLETED id) ∧
  (r_outcome r ∈ ENDED_OUTCOMES →
   ∃ w', _close ns state now w = (Ret (Some r), w') ∧ request_recoveries (db w') = Some (t ++ [r]) ∧
     if bool_decide (decision r = "awaiting_continuation")
     then set_status queued None now state ∈ requests (db w') ∧
          _pending_continuation ns rid (db w') = Some (execution_id latest)
     else set_status ended (Some (r_outcome r)) now state ∈ requests (db w')).
Proof.
  intros ns rid Hr Hin Hs Hl Ht Hno Hclock Hfree. pose proof (store_reachable_ok _ _ _ Hr) as Hd.
  destruct (latest_execution _ _ _ _ Hl) as (x & Hx & Hxn & Hxr & Hxl).
  destruct (read_log_run ns (session_id (record state)) rid (execution_id latest) w state x) as [log Hlog]; try done; [congruence|].
  set (r := _judge ns rid (execution_id latest) log (control_get ns rid (db w)) now).
  assert (verdict log (control_get ns rid (db w)) (decision r) (r_outcome r)) as Hv by apply judge_verdict.
  exists log, r. split; [done|]. split; [done|]. split; [done|]. split; [done|]. split; [intros id; apply elem_of_unverified|]. intros Ho.
  set (d1 := with_recoveries (Some (t ++ [r])) (db w)).
  assert (queue_ok d1) as Hd1 by (apply (queue_ok_same (db w)); [by split_and!|done]).
  assert (Hpend : ∀ rows, decision r = "awaiting_continuation" →
            _pending_continuation ns rid (with_requests rows d1) = Some (execution_id latest)).
  { intros rows Hdec. unfold _pending_continuation. simpl. rewrite latest_recovery_snoc.
    - simpl. rewrite (proj2 (fetchone_dec_none _ _)); [done|]. intros y Hy (?&?&?). by eapply Hfree.
    - by apply bool_decide_eq_true.
    - intros r' Hr' (?&?&?)%bool_decide_eq_true. by apply Hclock. }
  assert (Hfin : finish_request ns rid (r_outcome r) now (mk_world d1 (drawn w)) = _) by
    (apply (finish_request_run ns rid _ now (mk_world d1 (drawn w)) state Hd1 Hin); [done|congruence|done]).
  cbn [db drawn] in Hfin.
  unfold _close. fold rid. unfold py_bind, get_db. rewrite Hl, Hlog. fold r.
  rewrite (recovery_claim_run w t r Ht) by (intros r' Hr'; by apply Hno). fold d1. rewrite Hfin.
  destruct (decide (decision r = "awaiting_continuation")) as [Hdec|Hdec].
  - rewrite (bool_decide_true _ Hdec), Hdec, eqs_refl. set (rows := update_where _ _ _) in *.
    set (ended_state := set_status ended (Some (r_outcome r)) now state) in *.
    assert (ended_state ∈ rows) as Hrow.
    { apply elem_of_update_where. right. exists state. split_and!; [done|by apply bool_decide_eq_true|done]. }
    assert (r_outcome r = "paused") as Hpaused.
    { clear -Hv Hdec. rewrite Hdec in Hv. by inversion Hv. }
    rewrite (reopen_run ns rid now (mk_world (with_requests rows d1) (drawn w)) ended_state (execution_id latest));
      [|by apply queue_ok_close|done|done|done|change (Some (r_outcome r) = Some "paused"); by rewrite Hpaused|by apply Hpend].
    eexists. split; [done|]. split; [done|]. split; [|by apply Hpend].
    simpl. apply elem_of_update_where. right. exists ended_state. split_and!; [done|by apply bool_decide_eq_true|done].
  - rewrite (bool_decide_false _ Hdec). assert ((decision r =s "awaiting_continuation") = false) as ->.
    { destruct (decision r =s "awaiting_continuation") eqn:E; [|done]. by apply eqs_true in E. }
    eexists. split; [done|]. split; [done|]. simpl. apply elem_of_update_where. right. exists state.
    split_and!; [done|by apply bool_decide_eq_true|done].
Qed.

End recovery_props.
