(* ===== verification/DeliveryProps.v ===== *)
(** * Deliveries of results: theorems

    How a delivery moves under the calls of the stores, what a poll claims, and what an
    acknowledgement says. *)

From S2P Require Import Prelude OrderedDict PyJson Tables MateModels RequestStore DeliveryStore Recovery StoreInv.

Section delivery_props.
Context {I : Type} `{!RequestInputs I}.
Context (uuid : nat → string) (notice_text : string → string → option string → string).
Implicit Types (d : DB I) (w : World (DB I)) (r : DeliveryRow).

#[local] Abbreviation step := (store_step uuid notice_text) (only parsing).
#[local] Abbreviation reachable w := (rtc (store_step uuid notice_text) (empty_store (I := I)) w) (only parsing).

(** ** The calls that only add deliveries *)

Definition delivery_op (o : store_op (I := I)) : bool :=
  match o with
  | OpClaim _ _ _ _ _ | OpSaveJob _ _ | OpHandoffDone _ _ | OpNotice _ _ _ _ | OpAck _ _ _ _ _ _ _
  | OpInterrupted _ _ _ => true
  | _ => false
  end.

Section adding.
Context (P : DB I → Prop).
Context (Hsame : ∀ d d', deliveries d' = deliveries d → P d → P d').
Context (Hadd : ∀ ns id rid xid oid channel target key now text,
  db_keeps P (add_delivery (I := I) (new_delivery ns id rid xid oid channel target key now text))).

#[local] Hint Extern 2 (db_keeps P (with_db _)) => (by apply db_keeps_with; intros ? ?; (eapply Hsame; [|eassumption])) : db_keeps.
#[local] Hint Extern 2 (db_keeps P (insert_into _ _ _ _)) =>
  (by apply db_keeps_insert; intros ? ? ? ?; (eapply Hsame; [|eassumption])) : db_keeps.
#[local] Hint Extern 2 (db_keeps P (add_delivery _)) => (apply Hadd) : db_keeps.

Lemma adding_events evs now : db_keeps P (record_events uuid notice_text evs now).
Proof.
  assert (∀ rec xid reason detail, db_keeps P (_enqueue_failure_notice uuid notice_text (I := I) rec xid reason detail now)).
  { intros. unfold _enqueue_failure_notice. cbn zeta. eauto 10 with db_keeps. }
  assert (∀ ev route refs, db_keeps P (deliver_outputs uuid (I := I) ev route now refs)).
  { intros ev route refs. induction refs as [|x refs IH]; simpl; eauto 12 with db_keeps. }
  assert (∀ ev refs, db_keeps P (_require_outputs (I := I) ev refs)).
  { intros ev refs. induction refs as [|x refs IH]; simpl; eauto 12 with db_keeps. }
  assert (∀ ev, db_keeps P (_ensure_result_deliveries uuid notice_text (I := I) ev now)).
  { intros ev. unfold _ensure_result_deliveries. eauto 12 with db_keeps. }
  assert (∀ ev, db_keeps P (_insert_event uuid notice_text (I := I) ev now)).
  { intros ev. unfold _insert_event, _insert_output. eauto 20 with db_keeps. }
  assert (∀ evs, db_keeps P (insert_events uuid notice_text (I := I) evs now)).
  { intros evs'. induction evs' as [|ev evs' IH]; simpl; eauto with db_keeps. }
  unfold record_events. destruct evs; auto with db_keeps.
Qed.

Lemma adding_op o : delivery_op o = false → db_keeps P (run_op uuid notice_text o).
Proof.
  intros Ho. destruct o; try done; apply keeps_drop; auto using adding_events.
  - unfold resolve_session. cbn zeta. eauto 20 with db_keeps.
  - unfold accept_request. cbn zeta. eauto 30 with db_keeps.
  - unfold start_execution, _save_link, update_requests. cbn zeta. eauto 30 with db_keeps.
  - unfold reopen_for_continuation, update_requests. eauto 20 with db_keeps.
  - unfold finish_request, update_requests. eauto 20 with db_keeps.
  - unfold record_execution_failure, _enqueue_failure_notice, update_requests. cbn zeta. eauto 20 with db_keeps.
  - unfold mark_delivery_archived. eauto 12 with db_keeps.
  - unfold control_claim. eauto 12 with db_keeps.
  - unfold control_fail. eauto 12 with db_keeps.
  - unfold recovery_claim. eauto 12 with db_keeps.
Qed.
End adding.

(** ** How a delivery moves *)

Inductive delivery_step (r : DeliveryRow) : DeliveryRow → Prop :=
| dv_refuse code now : d_status r = pending → delivery_step r (fail_row code now r)
| dv_claim now : d_status r = pending → delivery_step r (send_row now r)
| dv_bad_file now : d_status r = sending → delivery_step r (fail_row "OUTPUT_FILE_INVALID" now r)
| dv_ack s external error key now : d_status r = sending ∨ (d_status r = unknown ∧ s ≠ pending) →
    s ∈ [pending; delivered; failed; unknown] → (s = delivered → ∃ m, external = Some m ∧ blank m = false) →
    (notice r ≠ None → key = None) → delivery_step r (set_delivery s (attempt_count r) external error key now r)
| dv_interrupted now : d_status r = sending →
    delivery_step r (set_delivery unknown (attempt_count r) (external_message_id r) (Some "ACK_UNKNOWN") (file_key r) now r)
| dv_save job done : d_status r = sending →
    delivery_step r (set_public (notice r) (file_key r) (Some job) done (d_updated_at r) r)
| dv_handoff : d_status r = delivered →
    delivery_step r (set_public (notice r) (file_key r) (job_json r) true (d_updated_at r) r)
| dv_notice text job now : d_status r ∈ [pending; sending; unknown; delivered] →
    delivery_step r (set_public (Some text) None job true now r).

(** A delivery as it is made *)
Definition fresh_delivery (r : DeliveryRow) : Prop :=
  d_status r ∈ [available; pending] ∧ attempt_count r = 0%Z ∧ external_message_id r = None ∧ file_key r = None.

Lemma delivery_step_keys r r' :
  delivery_step r r' → delivery_key r' = delivery_key r ∧ route_key r' = route_key r ∧
  idempotency_key r' = idempotency_key r ∧ d_execution_id r' = d_execution_id r.
Proof. by destruct 1. Qed.

(** The deliveries have grown from [t0], and their keys are unique. *)
Definition deliveries_ok (t0 : list DeliveryRow) (d : DB I) : Prop :=
  unique delivery_key (deliveries d) ∧ unique route_key (deliveries d) ∧
  evolves delivery_step fresh_delivery t0 (deliveries d).

Lemma deliveries_ok_update t0 d P f :
  (∀ r, r ∈ deliveries d → P r = true → rtc delivery_step r (f r)) → deliveries_ok t0 d →
  deliveries_ok t0 (with_deliveries (update_where P f (deliveries d)) d).
Proof.
  intros H (Hu & Hr & He).
  assert (∀ K (key : DeliveryRow → K), (∀ r r', delivery_step r r' → key r' = key r) →
            unique key (deliveries d) → unique key (update_where P f (deliveries d))) as Hk.
  { intros K key Hkey. apply update_unique. intros r Hin HP. by eapply changes_key, H. }
  split_and!.
  - apply Hk; [|done]. by intros r r' (?&?&_)%delivery_step_keys.
  - apply Hk; [|done]. by intros r r' (?&?&_)%delivery_step_keys.
  - eapply evolves_trans; [done|]. by apply evolves_update.
Qed.

Lemma keeps_update_deliveries t0 P f :
  (∀ r, P r = true → rtc delivery_step r (f r)) → db_keeps (deliveries_ok t0) (update_deliveries (I := I) P f).
Proof. intros H. apply db_keeps_with. intros d Hd. apply deliveries_ok_update; auto. Qed.

Lemma keeps_add_delivery t0 r : fresh_delivery r → db_keeps (deliveries_ok t0) (add_delivery (I := I) r).
Proof.
  intros Hr. apply db_keeps_with. intros d (Hu & Hro & He).
  assert (∀ r', delivery_key r = delivery_key r' ∨ route_key r = route_key r' → delivery_clash r r' = true).
  { intros r' Hk. unfold delivery_clash. by rewrite orb_true_iff, !bool_decide_eq_true. }
  split_and!; simpl.
  - apply insert_or_ignore_unique; auto.
  - apply insert_or_ignore_unique; auto.
  - eapply evolves_trans; [done|]. by apply evolves_insert_or_ignore.
Qed.

Lemma new_delivery_fresh ns id rid xid oid channel target key now text :
  fresh_delivery (new_delivery ns id rid xid oid channel target key now text).
Proof.
  split_and!; try done. simpl. destruct (channel =s "web"); by apply (bool_decide_unpack _).
Qed.

(** *** Claims *)

Lemma pending_row_true ns row r : pending_row ns row r = true ↔ delivery_key r = (ns, delivery_id row) ∧ d_status r = pending.
Proof. apply bool_decide_eq_true. Qed.

Lemma keeps_claim_row t0 ns now row rec body : db_keeps (deliveries_ok t0) (claim_row (I := I) ns now row rec body).
Proof.
  assert (Hgive : ∀ code, db_keeps (deliveries_ok t0)
    (update_deliveries (pending_row ns row) (fail_row code now) ;; py_ret (A := list jdict) [])).
  { intros code. apply db_keeps_bind; [|auto with db_keeps]. apply keeps_update_deliveries.
    intros r [_ Hs]%pending_row_true. by apply rtc_once, dv_refuse. }
  unfold claim_row. cbn zeta. destruct (route_snapshot rec) as [route|]; [|done].
  destruct (_ || _); [done|]. destruct (j_get _ "share_mode") as [| | |mode| |]; try done.
  destruct (negb _); [done|]. intros w Hw. unfold py_bind at 1, get_db. unfold py_bind at 1, update_deliveries at 1, with_db, py_modify.
  assert (Hsent : deliveries_ok t0 (with_deliveries (update_where (pending_row ns row) (send_row now) (deliveries (db w))) (db w))).
  { apply deliveries_ok_update; [|done]. intros r _ [_ Hs]%pending_row_true. by apply rtc_once, dv_claim. }
  destruct (Nat.eqb_spec (length (select (pending_row ns row) (deliveries (db w)))) 1) as [H1|H1]; [|done].
  cbn [negb]. destruct (with_file _ _ _ _ _ _) as [job|e]; [done|].
  unfold py_bind, update_deliveries, with_db, py_modify. cbn [snd db py_ret].
  apply (deliveries_ok_update t0 (with_deliveries _ (db w))); [|done]. simpl.
  intros r Hr HP. apply bool_decide_eq_true in HP.
  assert (d_status r = sending) as Hs; [|by apply rtc_once, dv_bad_file].
  destruct (select (pending_row ns row) (deliveries (db w))) as [|r0 l] eqn:Hsel; [done|].
  assert (r0 ∈ select (pending_row ns row) (deliveries (db w))) as [HP0 Hr0]%elem_of_rows by (rewrite Hsel; left).
  assert (send_row now r0 ∈ update_where (pending_row ns row) (send_row now) (deliveries (db w))) as Hin.
  { apply elem_of_update_where. right. by exists r0. }
  apply pending_row_true in HP0 as [HK0 _].
  destruct Hsent as (Hu & _ & _). simpl in Hu. by rewrite (unique_eq delivery_key _ _ _ Hu Hr Hin) by (rewrite HP; done).
Qed.

Lemma keeps_claim t0 ns channels limit exclude now :
  db_keeps (deliveries_ok t0) (claim_pending_result_deliveries (I := I) ns channels limit exclude now).
Proof.
  assert (∀ rows, db_keeps (deliveries_ok t0) (claim_rows (I := I) ns now rows)).
  { intros rows. induction rows as [|[row [rec body]] rows IH]; simpl; [auto with db_keeps|].
    apply db_keeps_bind; [apply keeps_claim_row|eauto with db_keeps]. }
  unfold claim_pending_result_deliveries. eauto 12 with db_keeps.
Qed.

(** *** Acknowledgements and notices *)

Lemma require_delivery_inv ns id w row w' :
  _require_delivery (I := I) ns id w = (Ret row, w') → row ∈ deliveries (db w) ∧ delivery_key row = (ns, id) ∧ w' = w.
Proof. unfold _require_delivery. intros H. store_inv. by split_and!. Qed.

(** The row of a key is the only one that a statement on the key updates. *)
Lemma delivery_of_key t0 d r row key :
  deliveries_ok t0 d → row ∈ deliveries d → delivery_key row = key → r ∈ deliveries d →
  bool_decide (delivery_key r = key) = true → r = row.
Proof.
  intros (Hu & _ & _) Hrow Hk Hr H. apply bool_decide_eq_true in H.
  eapply (unique_eq delivery_key); eauto. congruence.
Qed.

Lemma keeps_notice t0 ns id text now :
  db_keeps (deliveries_ok t0) (replace_result_delivery_with_notice (I := I) ns id text now).
Proof.
  unfold replace_result_delivery_with_notice. apply db_keeps_bind; [auto with db_keeps|intros _].
  apply db_keeps_returned. intros w u w' H Hw. store_inv.
  match goal with H : _require_delivery _ _ _ = _ |- _ => apply require_delivery_inv in H as (Hrow & Hk & ->) end.
  unfold update_deliveries in H. store_inv. apply deliveries_ok_update; [|done]. intros r Hr HP.
  rewrite (delivery_of_key _ _ _ _ _ Hw Hrow Hk Hr HP). by apply rtc_once, dv_notice.
Qed.

Lemma outcome_status_range o s : outcome_status o = Some s → s ∈ [pending; delivered; failed; unknown].
Proof. unfold outcome_status. repeat case_match; intros; simplify_eq; by apply (bool_decide_unpack _). Qed.

Lemma keeps_ack t0 ns id o external error now key :
  db_keeps (deliveries_ok t0) (update_result_delivery (I := I) ns id o external error now key).
Proof.
  apply db_keeps_atomic.
  { change (atomic (update_result_delivery (I := I) ns id o external error now key)). unfold update_result_delivery.
    auto with atomic. }
  intros w out w' H Hw. unfold update_result_delivery in H. store_inv.
  match goal with H : _require_delivery _ _ _ = _ |- _ => apply require_delivery_inv in H as (Hrow & Hk & ->) end.
  match goal with H : outcome_status o = Some ?x |- _ => rename x into s, H into Hs end.
  match goal with H : delivery_key ?x = _ |- _ => rename x into row end.
  destruct (bool_decide (d_status row ∈ [delivered; failed])); store_inv; [done|].
  destruct (bool_decide (d_status row = pending ∧ _)); store_inv; [done|].
  match goal with H : _require_delivery _ _ _ = _ |- _ => apply require_delivery_inv in H as (_ & _ & ->) end.
  match goal with H : update_deliveries _ _ _ = _ |- _ => unfold update_deliveries in H end. store_inv.
  apply deliveries_ok_update; [|done]. intros r Hr HP. rewrite (delivery_of_key _ _ _ _ _ Hw Hrow Hk Hr HP).
  apply rtc_once, dv_ack; [|by eapply outcome_status_range| |by destruct (notice row)].
  - match goal with H : d_status row ∈ _, H' : ¬ (_ ∧ _) |- _ => rename H into Hin, H' into Hnot end.
    rewrite !elem_of_cons, elem_of_nil in Hin. destruct Hin as [?|[?|[]]]; [by left|right]. split; [done|].
    intros ->. by apply Hnot.
  - intros ->. match goal with H : _ || _ = true |- _ => rewrite bool_decide_true in H by done; simpl in H end.
    destruct external as [m|]; [|done]. exists m. split; [done|].
    match goal with H : negb _ = true |- _ => by apply negb_true_iff in H end.
Qed.

Lemma keeps_save t0 ns job : db_keeps (deliveries_ok t0) (save_result_delivery_job (I := I) ns job).
Proof.
  unfold save_result_delivery_job. cbn zeta.
  assert (∀ P f, (∀ r, P r = true → rtc delivery_step r (f r)) → db_keeps (deliveries_ok t0) (update_deliveries (I := I) P f))
    by (intros; by apply keeps_update_deliveries).
  destruct (od_get job "delivery_id") as [[| | |id| |]|]; auto with db_keeps.
  apply db_keeps_transaction, db_keeps_bind; [auto with db_keeps|]. intros d. apply keeps_update_deliveries.
  intros r [_ Hs]%bool_decide_eq_true. by apply rtc_once, dv_save.
Qed.

Lemma keeps_interrupted t0 ns channels now :
  db_keeps (deliveries_ok t0) (recover_sending_result_deliveries (I := I) ns channels now).
Proof.
  unfold recover_sending_result_deliveries. cbn zeta.
  assert (db_keeps (deliveries_ok t0) (update_deliveries (I := I)
    (λ r, bool_decide (d_namespace_id r = ns ∧ d_channel r ∈ channels ∧ d_status r = sending))
    (λ r, set_delivery unknown (attempt_count r) (external_message_id r) (Some "ACK_UNKNOWN") (file_key r) now r))).
  { apply keeps_update_deliveries. intros r (_ & _ & Hs)%bool_decide_eq_true. by apply rtc_once, dv_interrupted. }
  eauto 12 with db_keeps.
Qed.

Lemma run_op_deliveries t0 o : db_keeps (deliveries_ok t0) (run_op uuid notice_text o).
Proof.
  destruct (delivery_op o) eqn:Ho.
  2: { apply adding_op; [|intros; apply keeps_add_delivery, new_delivery_fresh|done].
       intros d d' E. unfold deliveries_ok. by rewrite E. }
  destruct o; try done; apply keeps_drop; auto using keeps_claim, keeps_notice, keeps_ack, keeps_save, keeps_interrupted.
  apply db_keeps_transaction, keeps_update_deliveries. intros r [_ Hs]%bool_decide_eq_true. by apply rtc_once, dv_handoff.
Qed.

Lemma store_run_deliveries t0 w w' : rtc step w w' → deliveries_ok t0 (db w) → deliveries_ok t0 (db w').
Proof. induction 1 as [|w1 w2 w3 [o ->] _ IH]; [done|]. intros H. by apply IH, run_op_deliveries. Qed.

Lemma reachable_deliveries w : reachable w → deliveries_ok [] (db w).
Proof.
  intros H. apply (store_run_deliveries [] _ _ H). split_and!; [constructor|constructor|apply evolves_refl].
Qed.

Lemma reachable_deliveries_ok w w' : reachable w → rtc step w w' → deliveries_ok (deliveries (db w)) (db w').
Proof.
  intros Hr Hs. apply (store_run_deliveries _ _ _ Hs). destruct (reachable_deliveries _ Hr) as (?&?&_).
  split_and!; [done|done|apply evolves_refl].
Qed.

(** *** Where a delivery can get to *)

Lemma delivery_steps_final r r' :
  rtc delivery_step r r' → d_status r ∈ [delivered; failed] →
  d_status r' = d_status r ∧ external_message_id r' = external_message_id r ∧ error_code r' = error_code r ∧
  attempt_count r' = attempt_count r.
Proof.
  induction 1 as [|r1 r2 r3 H _ IH]; [done|]. intros Hs.
  assert (d_status r2 = d_status r1 ∧ external_message_id r2 = external_message_id r1 ∧ error_code r2 = error_code r1 ∧
    attempt_count r2 = attempt_count r1) as (E1 & E2 & E3 & E4).
  { rewrite !elem_of_cons, elem_of_nil in Hs. destruct H; simpl; try done; naive_solver congruence. }
  rewrite <- E1, <- E2, <- E3, <- E4. apply IH. by rewrite E1.
Qed.

Lemma delivery_steps_unknown r r' :
  rtc delivery_step r r' → d_status r ∈ [unknown; delivered; failed] →
  d_status r' ∈ [unknown; delivered; failed] ∧ attempt_count r' = attempt_count r.
Proof.
  induction 1 as [|r1 r2 r3 H _ IH]; [done|]. intros Hs.
  assert (d_status r2 ∈ [unknown; delivered; failed] ∧ attempt_count r2 = attempt_count r1) as [E1 <-]; [|by apply IH].
  rewrite !elem_of_cons, elem_of_nil in Hs.
  assert (d_status r1 = unknown ∨ d_status r1 = delivered ∨ d_status r1 = failed) as E by tauto. clear Hs.
  destruct H as [? ? Hp|? Hp|? Hp|s ? ? ? ? Ha Hr _ _|? Hp|? ? Hp|Hp|? ? ? Hp]; simpl;
    try (exfalso; destruct E as [E|[E|E]]; congruence).
  - split; [|done]. rewrite !elem_of_cons, elem_of_nil in *. destruct Ha as [Ha|[_ Hne]]; [destruct E as [E|[E|E]]; congruence|].
    destruct Hr as [?|Hr]; [done|tauto].
  - rewrite Hp. split; [by apply (bool_decide_unpack _)|done].
  - split; [|done]. rewrite !elem_of_cons, elem_of_nil. tauto.
Qed.

Lemma delivery_steps_notice r r' :
  rtc delivery_step r r' → notice r ≠ None → file_key r = None → notice r' ≠ None ∧ file_key r' = None.
Proof. induction 1 as [|r1 r2 r3 H _ IH]; [done|]. intros Hn Hf. apply IH; destruct H; simpl; auto. Qed.

(** a delivery is never lost and keeps its route and its idempotency key.  Once the platform
    is known to have taken or refused it, its outcome, message and error stay; once it
    is unknown whether it was sent, it is not sent again; and once it is replaced by a notice,
    no uploaded file comes back. *)
Theorem delivery_lifecycle w w' r :
  reachable w → rtc step w w' → r ∈ deliveries (db w) →
  ∃ r', r' ∈ deliveries (db w') ∧ rtc delivery_step r r' ∧ delivery_key r' = delivery_key r ∧
    route_key r' = route_key r ∧ idempotency_key r' = idempotency_key r ∧
    (d_status r ∈ [delivered; failed] → d_status r' = d_status r ∧
       external_message_id r' = external_message_id r ∧ error_code r' = error_code r) ∧
    (d_status r ∈ [unknown; delivered; failed] →
       d_status r' ∈ [unknown; delivered; failed] ∧ attempt_count r' = attempt_count r) ∧
    (notice r ≠ None → file_key r = None → notice r' ≠ None ∧ file_key r' = None).
Proof.
  intros Hr Hs Hin. destruct (reachable_deliveries_ok _ _ Hr Hs) as (_ & _ & He).
  destruct (evolves_row _ _ _ _ _ He Hin) as (r' & Hr' & Hm). exists r'.
  split_and!; try done; try (by apply (changes_key delivery_step); [|done]; intros ?? (?&?&?&?)%delivery_step_keys).
  - intros Hf. by destruct (delivery_steps_final _ _ Hm Hf) as (?&?&?&_).
  - by apply delivery_steps_unknown.
  - by apply delivery_steps_notice.
Qed.

(** ** Claiming *)

Definition is_sending (r : DeliveryRow) : bool := bool_decide (d_status r = sending).
(** How many deliveries are being sent *)
Definition sending_count (d : DB I) : nat := length (select is_sending (deliveries d)).

Lemma untouched_rows P f (t : list DeliveryRow) r : r ∈ t → P r = false → r ∈ update_where P f t.
Proof. intros. apply elem_of_update_where. by left. Qed.

(** What a claim of one row has done *)
Definition claimed (ns : string) (row : DeliveryRow) (d : DB I) (jobs : list jdict) (d' : DB I) : Prop :=
  sending_count d' = sending_count d + length jobs ∧ length jobs ≤ 1 ∧
  ∀ r, r ∈ deliveries d → delivery_key r ≠ (ns, delivery_id row) ∨ d_status r ≠ pending → r ∈ deliveries d'.

Lemma refuse_claimed ns row code now (d : DB I) :
  claimed ns row d [] (with_deliveries (update_where (pending_row ns row) (fail_row code now) (deliveries d)) d).
Proof.
  split; [|split; [simpl; lia|]].
  - unfold sending_count. simpl. rewrite count_update_same; [lia|]. intros r _ [_ Hs]%pending_row_true.
    unfold is_sending. simpl. by rewrite Hs.
  - intros r Hr Hk. apply untouched_rows; [done|]. apply bool_decide_eq_false. tauto.
Qed.

Lemma sent_claimed ns row now (d : DB I) :
  let d' := with_deliveries (update_where (pending_row ns row) (send_row now) (deliveries d)) d in
  sending_count d' = sending_count d + length (select (pending_row ns row) (deliveries d)) ∧
  ∀ r, r ∈ deliveries d → delivery_key r ≠ (ns, delivery_id row) ∨ d_status r ≠ pending → r ∈ deliveries d'.
Proof.
  split.
  - unfold sending_count. simpl. rewrite (count_update_in (pending_row ns row)); [done|].
    intros r _ [_ Hs]%pending_row_true. unfold is_sending. simpl. by rewrite Hs.
  - intros r Hr Hk. apply untouched_rows; [done|]. apply bool_decide_eq_false. tauto.
Qed.

Lemma claim_row_claimed ns now row rec body w t0 :
  deliveries_ok t0 (db w) →
  ∃ jobs w', claim_row (I := I) ns now row rec body w = (Ret jobs, w') ∧ claimed ns row (db w) jobs (db w').
Proof.
  intros Hok. unfold claim_row. cbn zeta.
  assert (Hgive : ∀ code, ∃ jobs w', (update_deliveries (pending_row ns row) (fail_row code now) ;; py_ret (A := list jdict) []) w
     = (Ret jobs, w') ∧ claimed ns row (db w) jobs (db w')).
  { intros code. eexists _, _. split; [reflexivity|]. apply refuse_claimed. }
  destruct (route_snapshot rec) as [route|]; [|done].
  destruct (_ || _); [done|]. destruct (j_get _ "share_mode") as [| | |mode| |]; try done.
  destruct (negb _); [done|]. unfold py_bind at 1, get_db. unfold py_bind at 1, update_deliveries at 1, with_db, py_modify.
  pose proof (sent_claimed ns row now (db w)) as [Hcount Hrows]. cbn zeta in Hcount, Hrows.
  set (d1 := with_deliveries _ (db w)) in *. set (sel := select (pending_row ns row) (deliveries (db w))) in *.
  assert (Hle : length sel ≤ 1).
  { destruct sel as [|r l] eqn:Hsel; simpl; [lia|]. unfold sel in Hsel.
    assert (r ∈ select (pending_row ns row) (deliveries (db w))) as [HP Hr]%elem_of_rows by (rewrite Hsel; left).
    rewrite <- (count_unique delivery_key (pending_row ns row) (deliveries (db w)) r (proj1 Hok) Hr HP); [by rewrite Hsel|].
    intros r' _ [E' _]%pending_row_true. apply pending_row_true in HP as [E _]. congruence. }
  destruct (Nat.eqb_spec (length sel) 1) as [H1|H1]; cbn [negb].
  2: { eexists _, _. split; [reflexivity|]. split; [|split; [simpl; lia|done]]. simpl. rewrite Hcount. lia. }
  destruct (with_file _ _ _ _ _ _) as [job|e].
  { eexists _, _. split; [reflexivity|]. split; [|split; [simpl; lia|done]]. simpl. rewrite Hcount. lia. }
  eexists _, _. split; [reflexivity|]. cbn [db]. set (K := λ r, bool_decide (delivery_key r = (ns, delivery_id row))).
  assert (Hu1 : unique delivery_key (deliveries d1)) by (apply update_unique; [done|apply Hok]).
  destruct sel as [|r0 l] eqn:Hsel; [done|]. unfold sel in Hsel.
  assert (r0 ∈ select (pending_row ns row) (deliveries (db w))) as [HP0 Hr0]%elem_of_rows by (rewrite Hsel; left).
  assert (Hin : send_row now r0 ∈ deliveries d1) by (apply elem_of_update_where; right; by exists r0).
  apply pending_row_true in HP0 as [HK0 Hs0].
  assert (Hsame : ∀ r, r ∈ deliveries d1 → K r = true → r = send_row now r0).
  { intros r Hr HK. apply bool_decide_eq_true in HK. eapply (unique_eq delivery_key); eauto. by rewrite HK. }
  split; [|split; [simpl; lia|]].
  - assert (length (select K (deliveries d1)) = 1) as H1'.
    { apply (count_unique delivery_key K _ (send_row now r0)); auto; [by apply bool_decide_eq_true|].
      intros r Hr HK. by rewrite (Hsame r Hr HK). }
    pose proof (count_update_out K is_sending (fail_row "OUTPUT_FILE_INVALID" now) (deliveries d1)) as Ho.
    unfold sending_count in *. simpl in *. rewrite <- Ho in Hcount; [lia|]. intros r Hr HK. by rewrite (Hsame r Hr HK).
  - intros r Hr Hk. specialize (Hrows r Hr Hk). apply untouched_rows; [done|].
    destruct (K r) eqn:HK; [|done]. pose proof (Hsame r Hrows HK) as Er. subst r.
    assert (r0 = send_row now r0) as E by (eapply (unique_eq delivery_key _ _ _ (proj1 Hok) Hr0 Hr); done).
    by rewrite E in Hs0.
Qed.

Lemma claim_rows_claimed ns now rows w jobs w' t0 :
  claim_rows (I := I) ns now rows w = (Ret jobs, w') → deliveries_ok t0 (db w) →
  sending_count (db w') = sending_count (db w) + length jobs ∧ length jobs ≤ length rows ∧
  ∀ r, r ∈ deliveries (db w) → (∀ x, x ∈ rows → delivery_key r ≠ (ns, delivery_id x.1)) ∨ d_status r ≠ pending →
    r ∈ deliveries (db w').
Proof.
  revert w jobs w'. induction rows as [|[row [rec body]] rows IH]; intros w jobs w' H Hok; simpl in H.
  { store_inv. simpl. split_and!; [lia|lia|done]. }
  destruct (claim_row_claimed ns now row rec body w _ Hok) as (j1 & w1 & E1 & Hc1 & Hl1 & Hk1).
  pose proof (db_keeps_ret_inv _ _ _ _ _ (keeps_claim_row t0 ns now row rec body) E1 Hok) as Hok1.
  unfold py_bind in H. rewrite E1 in H. destruct (claim_rows ns now rows w1) as [[j2|e] w2] eqn:E2; [|done].
  injection H as <- <-. destruct (IH _ _ _ E2 Hok1) as (Hc & Hl & Hk).
  rewrite length_app. simpl. split_and!; [lia|lia|]. intros r Hin Hr. apply Hk.
  - apply Hk1; [done|]. destruct Hr as [Hr|]; [left|by right]. by apply (Hr (row, (rec, body))); left.
  - destruct Hr as [Hr|]; [left|by right]. intros x Hx. apply Hr. by right.
Qed.

Lemma elem_of_claimable ns channels exclude d x :
  x ∈ claimable (I := I) ns channels exclude d →
  x.1 ∈ deliveries d ∧ d_namespace_id x.1 = ns ∧ d_channel x.1 ∈ channels ∧ delivery_id x.1 ∉ exclude.
Proof.
  unfold claimable. intros (row & Hrow & Hx)%list_elem_of_omap.
  rewrite py_sorted_perm in Hrow. apply elem_of_rows in Hrow as [(?&?&?&?)%bool_decide_eq_true ?].
  destruct (fetchone _ (requests d)); [|done]. simpl in Hx. by injection Hx as <-.
Qed.

(** a claim returns a job for each delivery it leaves to be sent, at most [limit] of them, and
    touches only pending deliveries of the channels asked for that are not excluded: what
    another poll has claimed, or what has an outcome, stays as it is. *)
Theorem claim_correct ns channels limit exclude now w jobs w' :
  reachable w → claim_pending_result_deliveries ns channels limit exclude now w = (Ret jobs, w') →
  sending_count (db w') = sending_count (db w) + length jobs ∧ length jobs ≤ Z.to_nat limit ∧
  ∀ r, r ∈ deliveries (db w) →
    ¬ (d_namespace_id r = ns ∧ d_channel r ∈ channels ∧ d_status r = pending ∧ delivery_id r ∉ exclude) →
    r ∈ deliveries (db w').
Proof.
  intros Hr H. apply reachable_deliveries in Hr as Hok. unfold claim_pending_result_deliveries in H. store_inv.
  destruct channels as [|c channels]; store_inv; [simpl; split_and!; [lia|lia|done]|].
  destruct (claim_rows_claimed _ _ _ _ _ _ _ H Hok) as (Hc & Hl & Hk). rewrite length_take in Hl.
  split_and!; [done|lia|]. intros r Hin Hnot. apply Hk; [done|].
  destruct (decide (d_status r = pending)) as [Hp|]; [left|by right]. intros x Hx Hkey. apply Hnot.
  apply elem_of_take in Hx as (i & Hx & _). apply list_elem_of_lookup_2, elem_of_claimable in Hx as (Hx & Hn & Hch & Hex).
  assert (r = x.1) as -> by (eapply (unique_eq delivery_key _ _ _ (proj1 Hok) Hin Hx); by rewrite Hkey; unfold delivery_key; rewrite Hn).
  done.
Qed.

(** ** Acknowledgements *)

(** C: an acknowledgement counts as delivered only when it names the job's delivery and the
    send, says so and has a message id; as pending, so that the delivery is sent again, only
    when there is none or it says so itself; the outcomes are the four that can be
    stored, and a delivered one always can. *)
Theorem ack_classified job ack o external error :
  _classify_ack job ack = (o, external, error) →
  (o = "delivered" → ∃ a m, ack = Some a ∧ j_get a "delivery_id" = j_get job "delivery_id" ∧
     j_get a "stage" = JStr "send" ∧ j_get a "outcome" = JStr "delivered" ∧ external = Some m ∧
     j_get a "external_message_id" = JStr m ∧ blank m = false) ∧
  (o = "pending" → ack = None ∨ ∃ a, ack = Some a ∧ j_get a "delivery_id" = j_get job "delivery_id" ∧
     j_get a "stage" = JStr "send" ∧ j_get a "outcome" = JStr "pending") ∧
  outcome_status o ≠ None.
Proof.
  unfold _classify_ack. destruct ack as [a|]; [|intros [= <- <- <-]; naive_solver].
  destruct (_ || _) eqn:E; [by intros [= <- <- <-]|].
  apply orb_false_iff in E as [E1%negb_false_iff%bool_decide_eq_true E2%negb_false_iff%bool_decide_eq_true]. cbn zeta.
  destruct (bool_decide (j_get a "outcome" = JStr "delivered") && _) eqn:Ed.
  - apply andb_true_iff in Ed as [Ed1%bool_decide_eq_true Ed2%bool_decide_eq_true].
    intros [= <- <- <-]. split_and!; try done. intros _.
    destruct (j_get a "external_message_id") as [| | |m| |] eqn:Em; try done.
    destruct (blank m) eqn:Hb; [done|]. by exists a, m.
  - destruct (bool_decide (j_get a "outcome" = JStr "failed")); [by intros [= <- <- <-]|].
    destruct (bool_decide (j_get a "outcome" = JStr "pending")) eqn:Ep; [|by intros [= <- <- <-]].
    intros [= <- <- <-]. split_and!; try done. intros _. right. apply bool_decide_eq_true in Ep. by exists a.
Qed.

End delivery_props.
