(* ===== verification/ResultProps.v ===== *)
(** * Results are handed off: theorems

    When the event that ends an Execution is stored, the outputs it names are stored and
    have their deliveries in the same transaction.  [INSERT OR IGNORE] gives a
    delivery up when its identifier is taken, so that the theorem rests on random
    identifiers that do not repeat and do not read like a failure's ([uuid4().hex] is hexadecimal). *)

From S2P Require Import Prelude OrderedDict PyJson Tables MateModels RequestStore DeliveryStore Recovery StoreInv StoreProps DeliveryProps.

Section results.
Context {I : Type} `{!RequestInputs I}.
Context (uuid : nat → string) (notice_text : string → string → option string → string).
Implicit Types (d : DB I) (w : World (DB I)).

#[local] Abbreviation step := (store_step uuid notice_text) (only parsing).
#[local] Abbreviation reachable w := (rtc (store_step uuid notice_text) (empty_store (I := I)) w) (only parsing).
#[local] Abbreviation call := (py (World (DB I)) mate_error) (only parsing).

(** ** Identifiers *)

Definition id_ok (n : nat) (r : DeliveryRow) : Prop :=
  (∃ m, m < n ∧ delivery_id r = "del_" +:+ uuid m) ∨ ∃ x, delivery_id r = "del_failure_" +:+ x.

(** Deliveries have identifiers that have been drawn; [n] had been drawn before. *)
Definition ids_ok (n : nat) (w : World (DB I)) : Prop :=
  n ≤ drawn w ∧ ∀ r, r ∈ deliveries (db w) → id_ok (drawn w) r.

#[local] Abbreviation keeps_ids m := (∀ n, preserves (ids_ok n) m) (only parsing).

Lemma id_ok_mono n m r : id_ok n r → n ≤ m → id_ok m r.
Proof. intros [(k & ? & ?)|?] Hle; [left; exists k; split; [lia|done]|by right]. Qed.

Lemma ids_transaction {A} (m : call A) : keeps_ids m → keeps_ids (transaction m).
Proof.
  intros H n w [Hn Hw]. unfold transaction. pose proof (H n w (conj Hn Hw)) as H1. pose proof (H (drawn w) w (conj (le_n _) Hw)) as H2.
  destruct (m w) as [[a|e] w']; simpl in *; [done|]. destruct H1 as [? _], H2 as [Hle _].
  split; [done|]. intros r Hr. eapply id_ok_mono; [by apply Hw|done].
Qed.

Lemma ids_draw f : keeps_ids (draw (E := mate_error) f).
Proof. intros n w [Hn Hw]. split; simpl; [lia|]. intros r Hr. eapply id_ok_mono; [by apply Hw|simpl; lia]. Qed.

Lemma ids_with (f : DB I → DB I) :
  (∀ d r, r ∈ deliveries (f d) → ∃ r', r' ∈ deliveries d ∧ delivery_id r' = delivery_id r) →
  keeps_ids (with_db (E := mate_error) f).
Proof.
  intros H n w [Hn Hw]. split; [done|]. intros r Hr. destruct (H _ _ Hr) as (r' & Hr' & E).
  specialize (Hw r' Hr'). unfold id_ok in *. by rewrite <- E.
Qed.

Lemma ids_with_same (f : DB I → DB I) :
  (∀ d, deliveries (f d) = deliveries d) → keeps_ids (with_db (E := mate_error) f).
Proof. intros H. apply ids_with. intros d r Hr. rewrite H in Hr. by exists r. Qed.

Lemma ids_update P f :
  (∀ r, delivery_id (f r) = delivery_id r) → keeps_ids (update_deliveries (I := I) P f).
Proof.
  intros H. apply ids_with. intros d r [[Hr _]|(r0 & Hr0 & _ & ->)]%elem_of_update_where; [by exists r|].
  exists r0. by rewrite H.
Qed.

Lemma ids_insert {R} (get : DB I → list R) set clash x :
  (∀ t d, deliveries (set t d) = deliveries d) → keeps_ids (insert_into get set clash x).
Proof.
  intros H n w Hw. unfold insert_into, py_bind, get_db. destruct (insert_row clash x (get (db w))); [|done].
  by apply ids_with_same.
Qed.

Lemma ids_pure {A} (o : outcome mate_error A) : keeps_ids (py_pure o).
Proof. by intros n w. Qed.

Lemma ids_get_db : keeps_ids (get_db (E := mate_error)).
Proof. by intros n w. Qed.

Lemma elem_of_insert_or_ignore {R} (clash : R → R → bool) x t y : y ∈ insert_or_ignore clash x t → y ∈ t ∨ y = x.
Proof.
  unfold insert_or_ignore. destruct (existsb _ _); [by left|]. rewrite elem_of_app, list_elem_of_singleton. done.
Qed.

Lemma ids_add_failure ns xid rid oid channel target key now text :
  keeps_ids (add_delivery (I := I) (new_delivery ns ("del_failure_" +:+ xid) rid xid oid channel target key now text)).
Proof.
  intros n w [Hn Hw]. split; [done|]. simpl. intros r [Hr| ->]%elem_of_insert_or_ignore; [by apply Hw|].
  right. by exists xid.
Qed.

#[local] Hint Resolve ids_transaction ids_draw ids_pure ids_get_db ids_add_failure : preserves.
#[local] Hint Extern 2 (preserves (ids_ok _) (with_db _)) => (by apply ids_with_same) : preserves.
#[local] Hint Extern 2 (preserves (ids_ok _) (update_requests _ _)) => (by apply ids_with_same) : preserves.
#[local] Hint Extern 2 (preserves (ids_ok _) (update_deliveries _ _)) => (by apply ids_update) : preserves.
#[local] Hint Extern 2 (preserves (ids_ok _) (insert_into _ _ _ _)) => (by apply ids_insert) : preserves.

Lemma ids_require ns rid : keeps_ids (_require_request (I := I) ns rid).
Proof. intros n. unfold _require_request. auto with preserves. Qed.
Lemma ids_require_delivery ns id : keeps_ids (_require_delivery (I := I) ns id).
Proof. intros n. unfold _require_delivery. auto with preserves. Qed.
#[local] Hint Resolve ids_require ids_require_delivery : preserves.

Lemma ids_notice rec xid reason detail now : keeps_ids (_enqueue_failure_notice uuid notice_text (I := I) rec xid reason detail now).
Proof. intros n. unfold _enqueue_failure_notice. cbn zeta. auto 12 with preserves. Qed.
#[local] Hint Resolve ids_notice : preserves.

Lemma ids_deliver ev route now refs : keeps_ids (deliver_outputs uuid (I := I) ev route now refs).
Proof.
  intros n. induction refs as [|oid refs IH]; simpl; [auto with preserves|].
  apply preserves_bind; [auto with preserves|]. intros d. apply preserves_bind; [|done].
  destruct (fetchone _ _) as [o|]; [|auto with preserves]. destruct (_deliverable _ _); [|auto with preserves].
  intros w [Hn Hw]. unfold py_bind, draw, add_delivery, with_db, py_modify. simpl. split; simpl; [lia|].
  intros r [Hr| ->]%elem_of_insert_or_ignore; [eapply id_ok_mono; [by apply Hw|lia]|].
  left. exists (drawn w). split; [lia|done].
Qed.
#[local] Hint Resolve ids_deliver : preserves.

Lemma ids_ensure ev now : keeps_ids (_ensure_result_deliveries uuid notice_text (I := I) ev now).
Proof. intros n. unfold _ensure_result_deliveries. eauto 12 with preserves. Qed.
#[local] Hint Resolve ids_ensure : preserves.

Lemma ids_insert_event ev now : keeps_ids (_insert_event uuid notice_text (I := I) ev now).
Proof.
  intros n. assert (∀ refs, preserves (ids_ok n) (_require_outputs (I := I) ev refs)).
  { intros refs. induction refs as [|x refs IH]; simpl; auto 12 with preserves. }
  unfold _insert_event, _insert_output. eauto 20 with preserves.
Qed.

Lemma ids_insert_events evs now : keeps_ids (insert_events uuid notice_text (I := I) evs now).
Proof.
  intros n. induction evs as [|ev evs IH]; simpl; [auto with preserves|].
  apply preserves_bind; [apply ids_insert_event|done].
Qed.

Lemma ids_claim_rows ns now rows : keeps_ids (claim_rows (I := I) ns now rows).
Proof.
  intros n. assert (∀ row rec body, preserves (ids_ok n) (claim_row (I := I) ns now row rec body)).
  { intros. unfold claim_row. cbn zeta. eauto 20 with preserves. }
  induction rows as [|[row [rec body]] rows IH]; simpl; eauto 12 with preserves.
Qed.

Lemma run_op_ids o : keeps_ids (run_op uuid notice_text o).
Proof.
  intros n. destruct o; simpl; unfold drop; (apply preserves_bind; [|auto with preserves]).
  - unfold resolve_session. cbn zeta. auto 20 with preserves.
  - unfold accept_request. cbn zeta. auto 30 with preserves.
  - apply ids_transaction. clear n. intros n. unfold _save_link. auto 20 with preserves.
  - apply ids_transaction. clear n. intros n. auto 20 with preserves.
  - unfold finish_request. apply preserves_bind; [auto with preserves|]. intros _. apply ids_transaction. auto 20 with preserves.
  - apply ids_transaction. clear n. intros n. auto 20 with preserves.
  - unfold record_events. destruct evs; [auto with preserves|]. apply ids_transaction, ids_insert_events.
  - unfold claim_pending_result_deliveries. pose proof ids_claim_rows. auto 20 with preserves.
  - unfold save_result_delivery_job. cbn zeta. auto 20 with preserves.
  - apply ids_transaction. auto with preserves.
  - unfold replace_result_delivery_with_notice. auto 20 with preserves.
  - unfold update_result_delivery. cbn zeta. auto 20 with preserves.
  - unfold recover_sending_result_deliveries. cbn zeta. auto 20 with preserves.
  - unfold mark_delivery_archived. auto with preserves.
  - unfold control_claim. cbn zeta. auto 20 with preserves.
  - unfold control_fail. auto 20 with preserves.
  - unfold recovery_claim. cbn zeta. auto 20 with preserves.
Qed.

Lemma reachable_ids w : reachable w → ids_ok 0 w.
Proof.
  intros Hr. assert (∀ w1, rtc step w1 w → ids_ok 0 w1 → ids_ok 0 w) as G.
  { intros w1. induction 1 as [|w1 w2 w3 [o ->] _ IH]; [done|]. intros H. by apply IH, run_op_ids. }
  apply (G _ Hr). split; [simpl; lia|]. by intros r ?%elem_of_nil.
Qed.

(** ** Outputs *)

(** Outputs have unique keys, and those of [d0] stay, as its deliveries do. *)
Definition grows (d0 d : DB I) : Prop :=
  unique output_key (outputs d) ∧ (∀ o, o ∈ outputs d0 → o ∈ outputs d) ∧
  ∀ r, r ∈ deliveries d0 → r ∈ deliveries d.

#[local] Hint Extern 2 (db_keeps (grows _) (with_db _)) => (by apply db_keeps_with; intros ? ?; assumption) : db_keeps.

Lemma grows_add d0 r : db_keeps (grows d0) (add_delivery (I := I) r).
Proof.
  apply db_keeps_with. intros d (Hu & Ho & Hd). split_and!; [done|done|]. intros r' Hr'. simpl.
  unfold insert_or_ignore. destruct (existsb _ _); [by apply Hd|]. apply elem_of_app. left. by apply Hd.
Qed.
#[local] Hint Resolve grows_add : db_keeps.

Lemma grows_insert_output d0 x : db_keeps (grows d0) (insert_into outputs (with_outputs (I := I)) output_clash x).
Proof.
  apply db_keeps_insert. intros d t Ht (Hu & Ho & Hd). split_and!; [|intros o Hin|done]; simpl.
  - eapply insert_unique; [exact Ht| |done]. intros r' Hk. by apply bool_decide_eq_true.
  - apply insert_row_some in Ht as [-> _]. apply elem_of_app. left. by apply Ho.
Qed.

Lemma grows_insert_event_row d0 x : db_keeps (grows d0) (insert_into events (with_events (I := I)) event_clash x).
Proof. apply db_keeps_insert. by intros d t _ H. Qed.
#[local] Hint Resolve grows_insert_output grows_insert_event_row : db_keeps.

Lemma grows_ensure d0 ev now : db_keeps (grows d0) (_ensure_result_deliveries uuid notice_text (I := I) ev now).
Proof.
  assert (∀ route refs, db_keeps (grows d0) (deliver_outputs uuid (I := I) ev route now refs)).
  { intros route refs. induction refs as [|x refs IH]; simpl; eauto 12 with db_keeps. }
  unfold _ensure_result_deliveries, _enqueue_failure_notice. cbn zeta. eauto 12 with db_keeps.
Qed.
#[local] Hint Resolve grows_ensure : db_keeps.

Lemma grows_insert_event d0 ev now : db_keeps (grows d0) (_insert_event uuid notice_text (I := I) ev now).
Proof.
  assert (∀ refs, db_keeps (grows d0) (_require_outputs (I := I) ev refs)).
  { intros refs. induction refs as [|x refs IH]; simpl; eauto 12 with db_keeps. }
  unfold _insert_event, _insert_output. eauto 20 with db_keeps.
Qed.

Lemma grows_insert_events d0 evs now : db_keeps (grows d0) (insert_events uuid notice_text (I := I) evs now).
Proof.
  induction evs as [|ev evs IH]; simpl; [auto with db_keeps|]. apply db_keeps_bind; [apply grows_insert_event|done].
Qed.

(** Only events put outputs in. *)
Definition same_outputs (d0 d : DB I) : Prop := outputs d = outputs d0.
#[local] Hint Extern 2 (db_keeps (same_outputs _) (with_db _)) => (by apply db_keeps_with; intros ? ?; assumption) : db_keeps.
#[local] Hint Extern 2 (db_keeps (same_outputs _) (insert_into _ _ _ _)) =>
  (by apply db_keeps_insert; intros ? ? ? ?; assumption) : db_keeps.
#[local] Hint Extern 2 (db_keeps (same_outputs _) (update_deliveries _ _)) =>
  (by apply db_keeps_with; intros ? ?; assumption) : db_keeps.
#[local] Hint Extern 2 (db_keeps (same_outputs _) (update_requests _ _)) =>
  (by apply db_keeps_with; intros ? ?; assumption) : db_keeps.

Lemma run_op_outputs o : db_keeps (λ d, unique output_key (outputs d)) (run_op uuid notice_text o).
Proof.
  assert (∀ A (m : call A), (∀ d0, db_keeps (same_outputs d0) m) → db_keeps (λ d, unique output_key (outputs d)) m) as Hs.
  { intros A m H w Hw. pose proof (H (db w) w eq_refl) as E. simpl in E. unfold same_outputs in E. by rewrite E. }
  destruct o; apply keeps_drop.
  7: { intros w Hw. assert (db_keeps (grows (db w)) (record_events uuid notice_text evs now)) as H.
       { unfold record_events. destruct evs; [auto with db_keeps|]. apply db_keeps_transaction, grows_insert_events. }
       by apply (H w). }
  all: apply Hs; intros d0.
  - unfold resolve_session. cbn zeta. eauto 20 with db_keeps.
  - unfold accept_request. cbn zeta. eauto 30 with db_keeps.
  - unfold start_execution, _save_link. cbn zeta. eauto 30 with db_keeps.
  - unfold reopen_for_continuation. eauto 20 with db_keeps.
  - unfold finish_request. eauto 20 with db_keeps.
  - unfold record_execution_failure, _enqueue_failure_notice, add_delivery. cbn zeta. eauto 20 with db_keeps.
  - assert (∀ rows, db_keeps (same_outputs d0) (claim_rows (I := I) ns now rows)).
    { assert (∀ row rec body, db_keeps (same_outputs d0) (claim_row (I := I) ns now row rec body)).
      { intros. unfold claim_row. cbn zeta. eauto 20 with db_keeps. }
      intros rows. induction rows as [|[row [rec body]] rows IH]; simpl; eauto 12 with db_keeps. }
    unfold claim_pending_result_deliveries. eauto 12 with db_keeps.
  - unfold save_result_delivery_job. cbn zeta. eauto 20 with db_keeps.
  - unfold mark_welink_handoff_done. eauto 20 with db_keeps.
  - unfold replace_result_delivery_with_notice, _require_delivery. eauto 20 with db_keeps.
  - unfold update_result_delivery, _require_delivery. cbn zeta. eauto 20 with db_keeps.
  - unfold recover_sending_result_deliveries. cbn zeta. eauto 20 with db_keeps.
  - unfold mark_delivery_archived. eauto 12 with db_keeps.
  - unfold control_claim. cbn zeta. eauto 12 with db_keeps.
  - unfold control_fail. eauto 12 with db_keeps.
  - unfold recovery_claim. cbn zeta. eauto 12 with db_keeps.
Qed.

Lemma reachable_outputs w : reachable w → unique output_key (outputs (db w)).
Proof.
  intros Hr. assert (∀ w1, rtc step w1 w → unique output_key (outputs (db w1)) → unique output_key (outputs (db w))) as G.
  { intros w1. induction 1 as [|w1 w2 w3 [o ->] _ IH]; [done|]. intros H. by apply IH, run_op_outputs. }
  apply (G _ Hr). constructor.
Qed.

(** ** An ending and its outputs *)

Section fresh.
Context (uuid_inj : ∀ n m, uuid n = uuid m → n = m) (uuid_plain : ∀ n x, uuid n ≠ "failure_" +:+ x).

(** The delivery of an output is added, or its route has one. *)
Lemma add_delivery_present ns n oid rid xid channel target key now text w w' :
  (∀ r, r ∈ deliveries (db w) → id_ok n r) →
  add_delivery (I := I) (new_delivery ns ("del_" +:+ uuid n) rid xid oid channel target key now text) w = (Ret tt, w') →
  ∃ r, r ∈ deliveries (db w') ∧ route_key r = (ns, rid, oid, channel, target).
Proof.
  intros Hids [= <-]. set (x := new_delivery _ _ _ _ _ _ _ _ _ _). cbn [db deliveries with_deliveries].
  destruct (insert_or_ignore_cases delivery_clash x (deliveries (db w))) as [[E (r & Hr & Hc)]|H].
  - rewrite E. unfold delivery_clash in Hc. rewrite orb_true_iff, !bool_decide_eq_true in Hc.
    destruct Hc as [Hc|Hc]; [exfalso|by exists r].
    injection Hc as _ Hid. destruct (Hids r Hr) as [(m & Hm & E2)|(y & E2)]; rewrite E2 in Hid.
    + injection Hid as Hid. apply uuid_inj in Hid. lia.
    + injection Hid as Hid. by apply (uuid_plain n y).
  - apply insert_row_some in H as [E _]. rewrite E. exists x. split; [|done].
    apply elem_of_app. right. by apply list_elem_of_singleton.
Qed.

Lemma deliver_outputs_present ev route now refs w u w' :
  ids_ok 0 w → unique output_key (outputs (db w)) → deliver_outputs uuid ev route now refs w = (Ret u, w') →
  ∀ o, o ∈ outputs (db w) → o_namespace_id o = ev_namespace_id ev → o_request_id o = ev_request_id ev →
    output_id (output o) ∈ refs → _deliverable (share_mode (output o)) (o_body (output o)) = true →
    ∃ r, r ∈ deliveries (db w') ∧
      route_key r = (ev_namespace_id ev, ev_request_id ev, output_id (output o), rt_channel route, rt_target_id route).
Proof.
  revert w u. induction refs as [|oid refs IH]; intros w u Hids Hu H o Ho Hn Hq Hin Hdel; [by apply elem_of_nil in Hin|].
  simpl in H. unfold py_bind at 1, get_db in H. cbn iota in H.
  apply py_bind_ret_inv in H as (u1 & w1 & H1 & H2).
  assert (outputs (db w1) = outputs (db w)) as Eo.
  { destruct (fetchone _ _) as [o'|]; [|by call_inv]. destruct (_deliverable _ _) in H1; [|by call_inv].
    unfold add_delivery in H1. by call_inv. }
  assert (ids_ok 0 w1) as Hids1.
  { pose proof (ids_deliver ev route now [oid] 0 w Hids) as G. simpl in G. unfold py_bind at 1, get_db in G.
    unfold py_bind at 1 in G. by rewrite H1 in G. }
  destruct (decide (output_id (output o) = oid)) as [Eoid|Hne].
  - assert (fetchone (λ o, bool_decide (o_namespace_id o = ev_namespace_id ev ∧ o_request_id o = ev_request_id ev ∧
              output_id (output o) = oid)) (outputs (db w)) = Some o) as Ef.
    { apply (fetchone_dec_unique output_key); try done. intros o' _ (?&?&?). unfold output_key. congruence. }
    rewrite Ef, Hdel in H1. apply py_bind_ret_inv in H1 as (id & wa & Ha & H1). injection Ha as <- <-.
    apply py_bind_ret_inv in H1 as (key & wb & Hb & H1). injection Hb as <- <-. destruct u1.
    apply add_delivery_present in H1 as (r & Hr & Hk); [|simpl; apply Hids].
    exists r. rewrite Eoid. split; [|done].
    assert (db_keeps (grows (db w1)) (deliver_outputs uuid ev route now refs)) as Hg.
    { clear. induction refs as [|x refs IH]; simpl; eauto 12 with db_keeps. }
    destruct (db_keeps_ret_inv _ _ _ _ _ Hg H2) as (_ & _ & Hd); [by split_and!; [rewrite Eo| |]|by apply Hd].
  - apply (IH w1 u); try done; [by rewrite Eo|by rewrite Eo|]. apply elem_of_cons in Hin as [?|?]; congruence.
Qed.

Lemma require_outputs_inv ev refs w u w' :
  _require_outputs (I := I) ev refs w = (Ret u, w') →
  w' = w ∧ ∀ oid, oid ∈ refs → ∃ o, o ∈ outputs (db w) ∧ output_key o = (ev_namespace_id ev, oid) ∧
             o_request_id o = ev_request_id ev.
Proof.
  revert u. induction refs as [|x refs IH]; intros u H; simpl in H.
  - store_inv. split; [done|]. by intros ? ?%elem_of_nil.
  - unfold py_bind at 1, get_db in H. cbn iota in H. apply py_bind_ret_inv in H as (u1 & w1 & H1 & H2).
    apply py_guard_inv in H1 as [H1 ->]. apply bool_decide_eq_true in H1.
    destruct (IH _ H2) as [-> Hrest]. split; [done|]. intros oid [->|Hin]%elem_of_cons; [|by apply Hrest].
    destruct (fetchone _ _) as [o|] eqn:E; [|done]. apply fetchone_dec in E as [(?&?&?) ?].
    exists o. split_and!; [done|unfold output_key; congruence|done].
Qed.

Lemma events_only o ev now w u w' :
  (ev_namespace_id ev, event_id ev) ≠ o → _insert_event uuid notice_text ev now w = (Ret u, w') →
  (∀ e, e ∈ events (db w) → event_key e ≠ o) → ∀ e, e ∈ events (db w') → event_key e ≠ o.
Proof.
  intros Hne H. assert (db_keeps (λ d, ∀ e, e ∈ events d → event_key e ≠ o) (_insert_event uuid notice_text (I := I) ev now)) as Hk.
  { assert (∀ x, event_key x ≠ o → db_keeps (λ d, ∀ e, e ∈ events d → event_key e ≠ o)
              (insert_into events (with_events (I := I)) event_clash x)) as Hi.
    { intros x Hx. apply db_keeps_insert. intros d t [-> _]%insert_row_some Hd e [He|He]%elem_of_app; [by apply Hd|].
      by apply list_elem_of_singleton in He as ->. }
    assert (Ho : ∀ x, db_keeps (λ d, ∀ e, e ∈ events d → event_key e ≠ o)
              (insert_into outputs (with_outputs (I := I)) output_clash x)) by (intros x; by apply db_keeps_insert).
    assert (Ha : ∀ x, db_keeps (λ d, ∀ e, e ∈ events d → event_key e ≠ o) (add_delivery (I := I) x)) by (intros x; by apply db_keeps_with).
    assert (∀ refs, db_keeps (λ d, ∀ e, e ∈ events d → event_key e ≠ o) (_require_outputs (I := I) ev refs)).
    { intros refs. induction refs as [|x refs IH]; simpl; eauto 12 with db_keeps. }
    assert (∀ route refs, db_keeps (λ d, ∀ e, e ∈ events d → event_key e ≠ o) (deliver_outputs uuid (I := I) ev route now refs)).
    { intros route refs. induction refs as [|x refs IH]; simpl; eauto 12 with db_keeps. }
    assert (db_keeps (λ d, ∀ e, e ∈ events d → event_key e ≠ o) (_ensure_result_deliveries uuid notice_text (I := I) ev now)).
    { unfold _ensure_result_deliveries, _enqueue_failure_notice. cbn zeta. eauto 12 with db_keeps. }
    unfold _insert_event, _insert_output. eauto 20 with db_keeps. }
  exact (db_keeps_ret_inv _ _ _ _ _ Hk H).
Qed.

(** An ending that is new, at the moment it is stored *)
Lemma ending_inv ev now w u w' :
  _insert_event uuid notice_text ev now w = (Ret u, w') → terminal_event (payload ev) = true →
  (∀ e, e ∈ events (db w) → event_key e ≠ (ev_namespace_id ev, event_id ev)) →
  ids_ok 0 w → unique output_key (outputs (db w)) → queue_ok (db w) →
  ∀ oid, oid ∈ output_refs (payload ev) → ∃ o, o ∈ outputs (db w') ∧ output_key o = (ev_namespace_id ev, oid) ∧
    o_request_id o = ev_request_id ev ∧
    ∀ row route, row ∈ requests (db w') → request_key row = (ev_namespace_id ev, ev_request_id ev) →
      route_snapshot (record row) = Some route → _deliverable (share_mode (output o)) (o_body (output o)) = true →
      ∃ r, r ∈ deliveries (db w') ∧
        route_key r = (ev_namespace_id ev, ev_request_id ev, oid, rt_channel route, rt_target_id route).
Proof.
  intros H Hterm Hnew Hids Hu Hq oid Hoid. unfold _insert_event in H. store_inv.
  rewrite (proj2 (fetchone_dec_none _ _)) in H by done. rewrite Hterm in H. store_inv.
  match goal with H : _require_outputs _ _ _ = _ |- _ => apply require_outputs_inv in H as [-> Hreq] end.
  destruct (Hreq oid Hoid) as (o & Ho & Hk & Hrq).
  assert (w1 = w) as -> by (revert H3; destruct (payload ev); intros; by call_inv).
  set (w2 := mk_world (with_events x (db w)) (drawn w)) in H.
  assert (Hq2 : queue_ok (db w2)) by (apply (queue_ok_same (db w)); [by split_and!|done]).
  destruct (off_queue_ensure uuid notice_text ev now (db w) w2) as (_ & Ereq & _ & _); [by split_and!|].
  rewrite H in Ereq. simpl in Ereq.
  destruct (db_keeps_ret_inv _ _ _ _ _ (grows_ensure (db w2) ev now) H) as (_ & Hout & _); [by split_and!|].
  exists o. split; [by apply Hout|]. split; [done|]. split; [done|]. intros row route Hrow Hrk Hroute Hdel.
  rewrite Ereq in Hrow. unfold _ensure_result_deliveries in H. unfold py_bind at 1 in H.
  rewrite (require_request_run _ _ w2 row Hq2 Hrow Hrk), Hroute in H.
  apply py_bind_ret_inv in H as (u1 & w3 & H & Hfail). injection Hk as Hkn Hko. subst oid.
  destruct (deliver_outputs_present ev route now _ w2 u1 w3 Hids Hu H o Ho Hkn Hrq Hoid Hdel) as (r & Hr & Hrk').
  exists r. split; [|done].
  assert (db_keeps (grows (db w3)) (match _failure_of (payload ev) with
    | Some (reason, detail) => _enqueue_failure_notice uuid notice_text (record row) (ev_execution_id ev) reason detail now
    | None => py_ret tt end)) as Hg by (unfold _enqueue_failure_notice; cbn zeta; eauto 12 with db_keeps).
  assert (db_keeps (grows (db w2)) (deliver_outputs uuid ev route now (output_refs (payload ev)))) as Hg2.
  { clear. induction (output_refs (payload ev)) as [|y refs IH]; simpl; eauto 12 with db_keeps. }
  destruct (db_keeps_ret_inv _ _ _ _ _ Hg2 H) as (Hu3 & _ & _); [by split_and!|].
  destruct (db_keeps_ret_inv _ _ _ _ _ Hg Hfail) as (_ & _ & Hd); [by split_and!|by apply Hd].
Qed.

Lemma insert_events_app l l' now w :
  insert_events uuid notice_text (I := I) (l ++ l') now w
    = (insert_events uuid notice_text l now ;; insert_events uuid notice_text l' now) w.
Proof.
  revert w. induction l as [|ev l IH]; intros w; [done|]. simpl. unfold py_bind at 1 2.
  destruct (_insert_event _ _ ev now w) as [[a|e] w1] eqn:E; [|unfold py_bind; by rewrite E].
  rewrite IH. unfold py_bind. by rewrite E.
Qed.

Lemma same_queue_events l now d0 : db_keeps (same_queue d0) (insert_events uuid notice_text (I := I) l now).
Proof.
  induction l as [|ev l IH]; simpl; [auto with db_keeps|]. apply db_keeps_bind; [apply off_queue_insert_event|done].
Qed.

Lemma events_only_all o l now w u w' :
  (∀ ev, ev ∈ l → (ev_namespace_id ev, event_id ev) ≠ o) → insert_events uuid notice_text l now w = (Ret u, w') →
  (∀ e, e ∈ events (db w) → event_key e ≠ o) → ∀ e, e ∈ events (db w') → event_key e ≠ o.
Proof.
  revert w. induction l as [|ev l IH]; intros w Hl H Hw; simpl in H; [by call_inv|].
  apply py_bind_ret_inv in H as (u1 & w1 & H1 & H2). eapply IH; [|exact H2|].
  - intros ev' Hev'. apply Hl. by right.
  - eapply events_only; [apply Hl; left|exact H1|done].
Qed.

(** C19: when a batch with a new ending is stored, every output that the ending names is stored for
    its Request, and each that can be sent has a delivery on the route of the Request: no
    result is lost between the end of an Execution and its delivery. *)
Theorem results_handed_off pre ev post now w w' :
  reachable w → record_events uuid notice_text (pre ++ ev :: post) now w = (Ret tt, w') →
  terminal_event (payload ev) = true →
  (∀ e, e ∈ events (db w) → event_key e ≠ (ev_namespace_id ev, event_id ev)) →
  (∀ e, e ∈ pre → (ev_namespace_id e, event_id e) ≠ (ev_namespace_id ev, event_id ev)) →
  ∀ oid, oid ∈ output_refs (payload ev) → ∃ o, o ∈ outputs (db w') ∧ output_key o = (ev_namespace_id ev, oid) ∧
    o_request_id o = ev_request_id ev ∧
    ∀ row route, row ∈ requests (db w') → request_key row = (ev_namespace_id ev, ev_request_id ev) →
      route_snapshot (record row) = Some route → _deliverable (share_mode (output o)) (o_body (output o)) = true →
      ∃ r, r ∈ deliveries (db w') ∧
        route_key r = (ev_namespace_id ev, ev_request_id ev, oid, rt_channel route, rt_target_id route).
Proof.
  intros Hr H Hterm Hnew Hpre oid Hoid.
  assert (transaction (insert_events uuid notice_text (pre ++ ev :: post) now) w = (Ret tt, w')) as Ht.
  { unfold record_events in H. by destruct pre. }
  apply transaction_inv in Ht. rewrite insert_events_app in Ht.
  apply py_bind_ret_inv in Ht as (u1 & w1 & H1 & Ht). simpl in Ht. apply py_bind_ret_inv in Ht as (u2 & w2 & H2 & H3).
  pose proof (db_keeps_ret_inv _ _ _ _ _ (same_queue_events pre now (db w)) H1 (same_queue_refl _)) as Hq1.
  pose proof (db_keeps_ret_inv _ _ _ _ _ (same_queue_events post now (db w2)) H3 (same_queue_refl _)) as (_ & Ereq & _).
  destruct (db_keeps_ret_inv _ _ _ _ _ (grows_insert_events (db w) pre now) H1) as (Hu1 & _ & _).
  { split_and!; [by apply reachable_outputs|done|done]. }
  assert (ids_ok 0 w1) as Hids1.
  { pose proof (ids_insert_events pre now 0 w (reachable_ids _ Hr)) as G. by rewrite H1 in G. }
  destruct (ending_inv ev now w1 u2 w2 H2 Hterm) with (oid := oid) as (o & Ho & Hk & Hrq & Hall); try done.
  { by eapply events_only_all. }
  { eapply queue_ok_same; [exact Hq1|]. by eapply store_reachable_ok. }
  destruct (db_keeps_ret_inv _ _ _ _ _ (grows_insert_event (db w1) ev now) H2) as (Hu2 & _ & _); [by split_and!|].
  destruct (db_keeps_ret_inv _ _ _ _ _ (grows_insert_events (db w2) post now) H3) as (_ & Hout & Hd); [by split_and!|].
  exists o. split; [by apply Hout|]. split; [done|]. split; [done|]. intros row route Hrow Hrk Hroute Hdel.
  rewrite Ereq in Hrow. destruct (Hall row route Hrow Hrk Hroute Hdel) as (r & Hrin & Hrkey).
  exists r. split; [by apply Hd|done].
Qed.

End fresh.

End results.
