(* ===== verification/StoreRun.v ===== *)
(** * A run of the stores of JiuwenMate

    A colleague that is asked something in a Feishu chat: its Session is resolved, the
    Request is accepted, dispatched, answered with one output and ended, and the output is
    claimed and delivered; and a Request whose Execution was interrupted and continued. *)

From S2P Require Import Prelude OrderedDict PyJson Tables MateModels RequestStore DeliveryStore Recovery StoreInv StoreProps RecoveryProps DeliveryProps ResultProps.

(** An input is a text that a user sent. *)
#[export] Instance text_inputs : RequestInputs string := {
  in_kind _ := "direct_message"; in_source _ := Some ("human", "m1"); in_sender_id _ := Some "u1";
  in_continues _ := false; model_validate text := if blank text then None else Some text;
}.

Fixpoint ticks (n : nat) : string := match n with O => "a" | S n => "a" +:+ ticks n end.
Definition plain_notice (rid reason : string) (detail : option string) : string := "failed: " +:+ reason.

Lemma ticks_inj n m : ticks n = ticks m → n = m.
Proof.
  revert m. induction n as [|n IH]; intros [|m] H; [done| | |f_equal; apply IH; by injection H];
    [destruct m|destruct n]; done.
Qed.

#[local] Abbreviation op := (store_op (I := string)) (only parsing).

Definition runs (ops : list op) (w : World (DB string)) : World (DB string) :=
  foldl (λ w o, (run_op ticks plain_notice o w).2) w ops.

Lemma runs_reach ops w : rtc (store_step ticks plain_notice) w (runs ops w).
Proof.
  revert w. induction ops as [|o ops IH]; intros w; [done|].
  eapply rtc_l; [by exists o|]. apply IH.
Qed.

(** ** The parts *)

Definition chat : ConversationRef := {| c_kind := "im_direct"; c_channel := "feishu"; c_key := "oc_1" |}.
Definition chat_session : SessionRecord :=
  {| sn_namespace_id := "ns"; sn_agent_id := "bot"; sn_session_id := "sess_a"; conversation := chat; sn_created_at := 1 |}.
Definition bot : ConfigSnapshot := {| cf_agent_id := "bot"; cf_config_version := "v1"; fingerprint := "f1" |}.
Definition user_access : AccessSnapshot :=
  {| principal_ref := "feishu:user:u1"; startup_scope := {["chat"]}; source_scope := {["chat"]}; policy_revision := "p1" |}.
Definition chat_route : RequestRouteSnapshot :=
  {| rt_channel := "feishu"; rt_target_id := "oc_1"; rt_app_id := Some "app"; rt_source_message_id := Some "m1";
     rt_source_reply_to := None |}.
Definition at_ (n : Z) : datetime := {| instant := n; aware := true |}.

Definition the_event (id : string) (n : Z) (p : EventPayload) : AgentEvent :=
  {| ev_namespace_id := "ns"; ev_agent_id := "bot"; ev_session_id := "sess_a"; ev_source_ref := "src1";
     ev_request_id := "req_aa"; ev_execution_id := "exe_aaa"; event_id := id; local_seq := n; occurred_at := n; payload := p; digest := id |}.
Definition answer : Output :=
  {| output_id := "out1"; target_ref := "t"; share_mode := "message"; o_body := [("share_mode", JStr "message"); ("text", JStr "done")] |}.
Definition proposed : AgentEvent := the_event "ev1" 1 (OUTPUT_PROPOSED answer).
Definition ending : AgentEvent := the_event "ev2" 2 (EXECUTION_FINAL ["out1"] "completed" None).

(** ** The run *)

Definition asked : list op :=
  [OpResolve "ns" "bot" chat 1; OpAccept chat_session bot "src1" user_access "what now" (at_ 2) (Some chat_route)].
Definition started : list op := asked ++ [OpStart "ns" "req_aa" 3].
Definition answered : list op := started ++ [OpEvents [proposed; ending] 4; OpFinish "ns" "req_aa" "completed" 5].
Definition sent : list op := answered ++ [OpClaim "ns" ["feishu"] 10 [] 6].
Definition acknowledged : list op := sent ++ [OpAck "ns" "del_aaaa" "delivered" (Some "om_1") None 7 None].

Definition at_ops (ops : list op) : World (DB string) := runs ops empty_store.

Lemma at_reach ops : rtc (store_step ticks plain_notice) empty_store (at_ops ops).
Proof. apply runs_reach. Qed.

Lemma at_more ops ops' : rtc (store_step ticks plain_notice) (at_ops ops) (at_ops (ops ++ ops')).
Proof. unfold at_ops, runs. rewrite foldl_app. apply runs_reach. Qed.

Example run_ends :
  (λ r, (request_id (record r), status r, outcome_ r)) <$> requests (db (at_ops acknowledged))
    = [("req_aa", ended, Some "completed")] ∧
  (λ r, (delivery_id r, d_status r, external_message_id r)) <$> deliveries (db (at_ops acknowledged))
    = [("del_aaaa", delivered, Some "om_1")].
Proof. by vm_compute. Qed.

Definition asked_record : RequestRecord string :=
  {| namespace_id := "ns"; agent_id := "bot"; session_id := "sess_a"; request_id := "req_aa"; source_ref := "src1";
     config_version := "v1"; config_fingerprint := "f1"; access := user_access; request_input := "what now"; received_at := 2;
     route_snapshot := Some chat_route; permission_origin := None |}.
Definition asked_state : RequestState string :=
  {| record := asked_record; seq := 1; status := queued; outcome_ := None; updated_at := 2 |}.
Definition started_state : RequestState string := set_status dispatched None 3 asked_state.
Definition ended_state : RequestState string := set_status ended (Some "completed") 5 started_state.
Definition asked_delivery : DeliveryRow :=
  new_delivery "ns" "del_aaaa" "req_aa" "exe_aaa" "out1" "feishu" "oc_1" "aaaaa" 4 None.

Lemma asked_requests : requests (db (at_ops asked)) = [asked_state].
Proof. by vm_compute. Qed.
Lemma started_requests : requests (db (at_ops started)) = [started_state].
Proof. by vm_compute. Qed.
Lemma answered_requests : requests (db (at_ops answered)) = [ended_state].
Proof. by vm_compute. Qed.
Lemma answered_deliveries : deliveries (db (at_ops answered)) = [asked_delivery].
Proof. by vm_compute. Qed.

(** An interrupted Execution: a restart judges it, ends the Request as paused and queues it again. *)
Definition judged : RecoveryRow := _judge "ns" "req_aa" "exe_aaa" [] None 4.
Definition interrupted : list op :=
  started ++ [OpRecovery judged; OpFinish "ns" "req_aa" "paused" 4; OpReopen "ns" "req_aa" 4 None].

(** ** The theorems at the run *)

#[local] Abbreviation reached := (rtc (store_step ticks plain_notice) (empty_store (I := string))) (only parsing).

Lemma store_invariant_witness : queue_ok (db (at_ops acknowledged)).
Proof. apply (store_invariant ticks plain_notice), at_reach. Defined.

(** A Request that does not exist is not started. *)
Lemma operations_atomic_witness : ∃ e w', run_op ticks plain_notice (OpStart "ns" "req_zz" 9) (at_ops started) = (Exc e, w') ∧
  db w' = db (at_ops started).
Proof.
  exists NOT_FOUND, (run_op ticks plain_notice (OpStart "ns" "req_zz" 9) (at_ops started)).2. split; [by vm_compute|].
  apply (operations_atomic ticks plain_notice (OpStart "ns" "req_zz" 9) (at_ops started) NOT_FOUND). by vm_compute.
Defined.

Lemma request_lifecycle_witness :
  reached (at_ops answered) ∧ rtc (store_step ticks plain_notice) (at_ops answered) (at_ops acknowledged) ∧
  ∃ r', r' ∈ requests (db (at_ops acknowledged)) ∧ record r' = asked_record ∧ r' = ended_state.
Proof.
  assert (Hr : reached (at_ops answered)) by apply at_reach.
  assert (Hs : rtc (store_step ticks plain_notice) (at_ops answered) (at_ops acknowledged)).
  { unfold acknowledged, sent. rewrite <-app_assoc. apply at_more. }
  split_and!; [done|done|].
  destruct (request_lifecycle ticks plain_notice (at_ops answered) (at_ops acknowledged) ended_state Hr Hs) as (r' & Hr' & Hrec & _ & _ & Hfin).
  { rewrite answered_requests. by left. }
  exists r'. split_and!; [done|done|by apply Hfin].
Defined.

(** The same source event comes again, after the Request has ended. *)
Lemma accepted_once_witness : ∃ st,
  accept_request ticks chat_session bot "src1" user_access "again" (at_ 9) None (at_ops acknowledged) = (Ret (st, false), at_ops acknowledged) ∧
  record st = asked_record ∧ seq st = 1%Z.
Proof.
  eapply (accepted_once ticks plain_notice chat_session bot bot "src1" user_access user_access "what now" "again" (at_ 2) (at_ 9)
    (Some chat_route) None (at_ops [OpResolve "ns" "bot" chat 1]) asked_state (at_ops asked) (at_ops acknowledged)).
  - apply at_reach.
  - by vm_compute.
  - unfold acknowledged, sent, answered, started. rewrite <-!app_assoc. apply at_more.
  - done.
  - by vm_compute.
Defined.

Lemma continued_once_witness : ∃ x w1, start_execution ticks "ns" "req_aa" 5 (at_ops interrupted) = (Ret x, w1) ∧
  recovery_ref x = Some "exe_aaa" ∧ ∃ y, y ∈ executions (db w1) ∧ execution_of y = x.
Proof.
  set (x := {| ex_request_id := "req_aa"; execution_id := "exe_aaaa"; recovery_ref := Some "exe_aaa" |}).
  set (w1 := (start_execution ticks "ns" "req_aa" 5 (at_ops interrupted)).2).
  assert (Hst : start_execution ticks "ns" "req_aa" 5 (at_ops interrupted) = (Ret x, w1)) by by vm_compute.
  exists x, w1. split_and!; [done|done|].
  by destruct (continued_once ticks plain_notice "ns" "req_aa" 5 (at_ops interrupted) x w1 w1 "exe_aaa" (at_reach _) Hst eq_refl (rtc_refl _ _))
    as (_ & Hy & _).
Defined.

(** A restart that finds the Request dispatched with nothing in its log *)
Definition first_execution : ExecutionRecord := {| ex_request_id := "req_aa"; execution_id := "exe_aaa"; recovery_ref := None |}.

Lemma nothing_saved : read_execution_log "ns" "sess_a" "req_aa" "exe_aaa" (at_ops started) = (Ret [], at_ops started).
Proof. by vm_compute. Qed.
Lemma no_control : control_get "ns" "req_aa" (db (at_ops started)) = None.
Proof. by vm_compute. Qed.

(** Nothing is known of the interrupted Execution: the Request is continued. *)
Lemma verdict_nothing decided outcome : verdict [] None decided outcome → decided = "awaiting_continuation" ∧ outcome = "paused".
Proof.
  assert (∀ p, ¬ ends_with [] p) as Hno by (intros p ([|] & e & after & H & _); done).
  by intros [? ? ? ?%Hno|? ? ? ?%Hno|? ? ? ? ?%Hno|? ? ?|? ? ?|].
Qed.

Lemma close_correct_witness : ∃ r w',
  _close "ns" started_state 4 (at_ops started) = (Ret (Some r), w') ∧ r_outcome r = "paused" ∧
  set_status queued None 4 started_state ∈ requests (db w') ∧ _pending_continuation "ns" "req_aa" (db w') = Some "exe_aaa".
Proof.
  destruct (close_correct ticks plain_notice started_state first_execution [] 4 (at_ops started)) as (log & r & Hlog & Hv & _ & _ & _ & Hc).
  - apply at_reach.
  - rewrite started_requests. by left.
  - done.
  - by vm_compute.
  - by vm_compute.
  - by intros r H%elem_of_nil.
  - by intros r H%elem_of_nil.
  - assert (E : executions (db (at_ops started)) = [{| x_namespace_id := "ns"; execution_of := first_execution; started_at := 3 |}])
      by by vm_compute.
    intros x Hx _ _. rewrite E in Hx. by apply list_elem_of_singleton in Hx as ->.
  - change (namespace_id (record started_state)) with "ns" in *. change (request_id (record started_state)) with "req_aa" in *.
    change (execution_id first_execution) with "exe_aaa" in *. change (session_id (record started_state)) with "sess_a" in *.
    rewrite nothing_saved in Hlog. injection Hlog as <-. rewrite no_control in Hv. apply verdict_nothing in Hv as [Hd Ho].
    rewrite Ho in Hc. destruct Hc as (w' & Hw' & _ & H); [by apply (bool_decide_unpack _)|].
    exists r, w'. rewrite bool_decide_true in H by done. by split_and!; destruct H.
Defined.

Lemma delivery_lifecycle_witness : ∃ r', r' ∈ deliveries (db (at_ops acknowledged)) ∧
  delivery_key r' = ("ns", "del_aaaa") ∧ idempotency_key r' = "aaaaa".
Proof.
  destruct (delivery_lifecycle ticks plain_notice (at_ops answered) (at_ops acknowledged) asked_delivery)
    as (r' & Hr' & _ & Hk & _ & Hi & _).
  - apply at_reach.
  - unfold acknowledged, sent. rewrite <-app_assoc. apply at_more.
  - rewrite answered_deliveries. by left.
  - by exists r'.
Defined.

Lemma claim_correct_witness : ∃ jobs w',
  claim_pending_result_deliveries "ns" ["feishu"] 10 [] 6 (at_ops answered) = (Ret jobs, w') ∧
  length jobs = 1 ∧ sending_count (db w') = sending_count (db (at_ops answered)) + length jobs.
Proof.
  destruct (claim_pending_result_deliveries (I := string) "ns" ["feishu"] 10 [] 6 (at_ops answered)) as [[jobs|e] w'] eqn:E.
  - exists jobs, w'. split_and!; [done| |].
    + assert (match (claim_pending_result_deliveries (I := string) "ns" ["feishu"] 10 [] 6 (at_ops answered)).1 with
              | Ret l => length l = 1 | Exc _ => False end) as Hl by by vm_compute.
      by rewrite E in Hl.
    + by destruct (claim_correct ticks plain_notice "ns" ["feishu"] 10 [] 6 (at_ops answered) jobs w' (at_reach _) E).
  - exfalso. assert (match (claim_pending_result_deliveries (I := string) "ns" ["feishu"] 10 [] 6 (at_ops answered)).1 with
              | Ret _ => True | Exc _ => False end) as Hl by by vm_compute.
    by rewrite E in Hl.
Defined.

Lemma results_handed_off_witness : ∃ r, r ∈ deliveries (db (record_events ticks plain_notice [proposed; ending] 4 (at_ops started)).2) ∧
  route_key r = ("ns", "req_aa", "out1", "feishu", "oc_1").
Proof.
  set (w' := (record_events ticks plain_notice [proposed; ending] 4 (at_ops started)).2).
  assert (Hplain : ∀ n x, ticks n ≠ "failure_" +:+ x) by (by intros [|n] x).
  destruct (results_handed_off ticks plain_notice ticks_inj Hplain [proposed] ending [] 4 (at_ops started) w')
    with (oid := "out1") as (o & Ho & _ & _ & Hd).
  - apply at_reach.
  - by vm_compute.
  - done.
  - assert (E : events (db (at_ops started)) = []) by by vm_compute. rewrite E. by intros e H%elem_of_nil.
  - by intros e ->%list_elem_of_singleton.
  - by left.
  - assert (Ew : requests (db w') = [started_state]) by by vm_compute.
    assert (Eo : output <$> outputs (db w') = [answer]) by by vm_compute.
    apply (Hd started_state chat_route); [rewrite Ew; by left|done|done|].
    assert (output o = answer) as ->; [|by vm_compute].
    apply list_elem_of_singleton. rewrite <-Eo. by apply list_elem_of_fmap_2.
Defined.
