(* ===== verification/ApprovalStore.v ===== *)
(** * Permission approvals

    Source: [server/jiuwenmate/permission_approval_repository.py].

    An Execution that meets a tool call which needs a confirmation pauses; the pause is
    recorded as an approval, which the person who asked answers once, on the route the
    question came from.  The approvals are in the file of the Requests: [Host] has the tables of
    [RequestStore], when that store has been opened on the file, and the two of this one.

    [confirm_ok] says whether the agent core's [ConfirmReply] takes the responses; it keeps
    them.  Columns that hold JSON hold the value, as in [RequestStore].  Instants are
    integers, so that the comparison of ISO texts in [expire_pending] is theirs.  [decide] is
    [decide_once] without its flag; the view for the web is not modelled. *)

From S2P Require Import Prelude OrderedDict PyJson ToolCapabilities Tables MateModels RequestStore.

Inductive choice := Approve | Reject.
#[export] Instance choice_eq : EqDecision choice.
Proof. solve_decision. Defined.

Inductive ApprovalStatus := Pending | Approved | Rejected | Expired | Consumed.
#[export] Instance ApprovalStatus_eq : EqDecision ApprovalStatus.
Proof. solve_decision. Defined.

(** A response to one call; [None] is no feedback *)
Record response := { rs_call : string; rs_choice : choice; rs_feedback : option string }.
#[export] Instance response_eq : EqDecision response.
Proof. solve_decision. Defined.

(** [permission_approvals] *)
Record ApprovalRow := {
  approval_id : string; a_namespace_id : string; a_agent_id : string; a_session_id : string;
  a_request_id : string; a_execution_id : string; a_config_version : string; a_config_fingerprint : string;
  a_principal_ref : string; a_route : option RequestRouteSnapshot; intercepted : list InterceptedCall;
  a_created_at : Z; expires_at : Z; a_status : ApprovalStatus; a_decision : option choice;
  reply : option (list response); approver_agent_id : string;
}.

(** [permission_reply_messages]: the columns of its key, and the approval *)
Record ReplyKey := {
  rk_namespace_id : string; rk_agent_id : string; rk_channel : string; rk_app_id : string;
  rk_target_id : string; rk_principal_ref : string; rk_message_id : string;
}.
#[export] Instance ReplyKey_eq : EqDecision ReplyKey.
Proof. solve_decision. Defined.
Record ReplyRow := { reply_key : ReplyKey; bound_id : string }.

(** [timedelta(minutes=15)], in microseconds like all instants *)
Definition APPROVAL_TIMEOUT : Z := 15 * 60 * 1000000.

Definition decided_statuses : list ApprovalStatus := [Approved; Rejected; Expired].
Definition open_statuses : list ApprovalStatus := [Pending; Approved; Rejected; Expired].

(** The columns of the key and of [UNIQUE] *)
Definition pause_key (r : ApprovalRow) := (a_namespace_id r, a_execution_id r).
Definition approval_clash (r r' : ApprovalRow) : bool :=
  (approval_id r =s approval_id r') || bool_decide (pause_key r = pause_key r').
Definition reply_clash (r r' : ReplyRow) : bool := bool_decide (reply_key r = reply_key r').

(** [_approval]: an old row's approver is its agent *)
Definition approver (r : ApprovalRow) : string :=
  if str_true (approver_agent_id r) then approver_agent_id r else a_agent_id r.

Definition is_sharing (c : InterceptedCall) : bool :=
  match approval_ref c with Some ref => str_true ref | None => false end.

(** What the statements set *)
Definition set_answer (s : ApprovalStatus) (d : choice) (responses : list response) (r : ApprovalRow) : ApprovalRow :=
  {| approval_id := approval_id r; a_namespace_id := a_namespace_id r; a_agent_id := a_agent_id r;
     a_session_id := a_session_id r; a_request_id := a_request_id r; a_execution_id := a_execution_id r;
     a_config_version := a_config_version r; a_config_fingerprint := a_config_fingerprint r;
     a_principal_ref := a_principal_ref r; a_route := a_route r; intercepted := intercepted r;
     a_created_at := a_created_at r; expires_at := expires_at r; a_status := s; a_decision := Some d;
     reply := Some responses; approver_agent_id := approver_agent_id r |}.
Definition set_consumed (r : ApprovalRow) : ApprovalRow :=
  {| approval_id := approval_id r; a_namespace_id := a_namespace_id r; a_agent_id := a_agent_id r;
     a_session_id := a_session_id r; a_request_id := a_request_id r; a_execution_id := a_execution_id r;
     a_config_version := a_config_version r; a_config_fingerprint := a_config_fingerprint r;
     a_principal_ref := a_principal_ref r; a_route := a_route r; intercepted := intercepted r;
     a_created_at := a_created_at r; expires_at := expires_at r; a_status := Consumed; a_decision := a_decision r;
     reply := reply r; approver_agent_id := approver_agent_id r |}.

(** The responses of [_reply] and of [decide_sharing] *)
Definition responses (calls : list InterceptedCall) (d : choice) (feedback : string) (approved : option string)
    : list response :=
  map (λ c, {| rs_call := tool_call_id c;
               rs_choice := if bool_decide (d = Approve) && bool_decide (approved = Some (tool_call_id c)) then Approve else Reject;
               rs_feedback := if str_true feedback then Some feedback else None |}) calls.
Definition sharing_responses (calls : list InterceptedCall) (allowed : list string) : list response :=
  map (λ c, let ok := bool_decide (tool_call_id c ∈ allowed) in
            {| rs_call := tool_call_id c; rs_choice := if ok then Approve else Reject;
               rs_feedback := if ok then None else Some "Cross-group sharing was not approved." |}) calls.

Definition EXPIRED_FEEDBACK : string := "Permission approval expired; the tool call was denied.".
Definition UNROUTED_FEEDBACK : string := "Interactive approval is unavailable for this Request.".

Definition SHARING_TOOLS : list string :=
  ["search_group_messages"; "bash"; "share_file"; "read_file"; "list_files"; "list_dir"].

Section approvals.
Context {I : Type} `{!RequestInputs I}.
Context (token : nat → string) (confirm_ok : list response → bool).

Record Host := mk_host {
  tables_of : option (DB I);
  approvals : list ApprovalRow;
  reply_messages : list ReplyRow;
}.
Definition with_approvals t h := mk_host (tables_of h) t (reply_messages h).
Definition with_replies t h := mk_host (tables_of h) (approvals h) t.

Abbreviation call := (py (World Host) mate_error) (only parsing).

Definition update_approvals (P : ApprovalRow → bool) (f : ApprovalRow → ApprovalRow) : call unit :=
  with_db (λ h, with_approvals (update_where P f (approvals h)) h).
Definition by_id (id : string) (r : ApprovalRow) : bool := approval_id r =s id.
Definition find_approval (id : string) (h : Host) : option ApprovalRow := fetchone (by_id id) (approvals h).

(** ** The pause in the log of the host *)

(** [e.rowid = (SELECT ... ORDER BY started_at DESC, rowid DESC LIMIT 1)] *)
Definition latest_execution (ns rid : string) (d : DB I) : option ExecutionRow :=
  last (py_sorted started_at
    (select (λ x, bool_decide (x_namespace_id x = ns ∧ ex_request_id (execution_of x) = rid)) (executions d))).

Definition execution_events (ns rid xid : string) (d : DB I) : list AgentEvent :=
  event <$> select (λ e, bool_decide (ev_namespace_id (event e) = ns ∧ ev_request_id (event e) = rid ∧
                                      ev_execution_id (event e) = xid)) (events d).

Definition live_request (r : RequestState I) : bool :=
  bool_decide (status r = dispatched ∨ (status r = ended ∧ outcome_ r = Some "paused")).

(** [payload.reason] of a pause, and what it waits for *)
Definition confirmation (p : EventPayload) : option (list InterceptedCall) :=
  match p with
  | EXECUTION_PAUSED _ reason _ calls => if reason =s "awaiting_confirmation" then Some calls else None
  | _ => None
  end.

(** The event is the last of its Execution. *)
Definition is_tail (d : DB I) (e : AgentEvent) : bool :=
  forallb (λ x, negb (bool_decide (ev_namespace_id (event x) = ev_namespace_id e ∧
                                   ev_execution_id (event x) = ev_execution_id e))
                || Z.leb (local_seq (event x)) (local_seq e)) (events d).

Definition _unregistered_pauses (ns : string) (sid : option string) (h : Host) : list AgentEvent :=
  match tables_of h with
  | None => []
  | Some d =>
      filter (λ e,
        existsb (λ r, bool_decide (namespace_id (record r) = ns ∧ request_id (record r) = ev_request_id e) &&
                      match sid with Some sid => session_id (record r) =s sid | None => true end &&
                      live_request r &&
                      match latest_execution ns (ev_request_id e) d with
                      | Some x => ev_execution_id e =s execution_id (execution_of x)
                      | None => false
                      end) (requests d)
        && is_tail d e
        && negb (bool_decide (confirmation (payload e) = None))
        && negb (existsb (λ a, bool_decide (pause_key a = (ns, ev_execution_id e))) (approvals h)) = true)
      (event <$> select (λ e, ev_namespace_id (event e) =s ns) (events d))
  end.

(** [_require_current_pause], which reads the host's tables *)
Definition current_pause (a : ApprovalRow) (h : Host) : bool :=
  match tables_of h with
  | None => true
  | Some d =>
      negb (existsb (λ k, bool_decide (k_namespace_id k = a_namespace_id a ∧ k_request_id k = a_request_id a ∧
                                       k_status k = "accepted")) (request_controls d))
      && existsb (λ r, bool_decide (namespace_id (record r) = a_namespace_id a ∧
                          request_id (record r) = a_request_id a ∧ session_id (record r) = a_session_id a ∧
                          agent_id (record r) = a_agent_id a) && live_request r) (requests d)
      && match latest_execution (a_namespace_id a) (a_request_id a) d with
         | Some x => execution_id (execution_of x) =s a_execution_id a
         | None => false
         end
      && match last (py_sorted local_seq (execution_events (a_namespace_id a) (a_request_id a) (a_execution_id a) d)) with
         | Some e => bool_decide (confirmation (payload e) = Some (intercepted a))
         | None => false
         end
  end.
Definition _require_current_pause (a : ApprovalRow) : call unit :=
  h <- get_db ;; py_guard (current_pause a h) CONFLICT.

(** [ConfirmReply.model_validate(...).model_dump()] *)
Definition confirm_reply (l : list response) : call (list response) :=
  py_guard (confirm_ok l) PyValueError ;; py_ret l.

(** ** Operations *)

(** The checks of [create] before its transaction *)
Definition check_pause (rec : RequestRecord I) (ev : AgentEvent) : outcome mate_error (list InterceptedCall) :=
  match payload ev with
  | EXECUTION_PAUSED _ reason _ calls =>
      let ids := tool_call_id <$> calls in
      check (reject (negb (bool_decide ((ev_namespace_id ev, ev_agent_id ev, ev_session_id ev, ev_request_id ev, ev_source_ref ev)
                           = (namespace_id rec, agent_id rec, session_id rec, request_id rec, source_ref rec)))
                     || negb (bool_decide (NoDup ids)) || negb (forallb str_true ids)) CONFLICT)
      (check (reject (bool_decide (calls = []) || negb (reason =s "awaiting_confirmation")) BAD_REQUEST)
      (Ret calls))
  | _ => Exc PyAttributeError
  end.

(** Who is asked, where and at which agent *)
Definition asked_of (rec : RequestRecord I) (calls : list InterceptedCall)
    : outcome mate_error (string * option RequestRouteSnapshot * string) :=
  let own := (principal_ref (access rec), route_snapshot rec, agent_id rec) in
  if existsb is_sharing calls then Ret own
  else match permission_origin rec with
       | Some origin => Ret (po_principal_ref origin, Some (po_route origin), po_agent_id origin)
       | None =>
           if negb (in_kind (request_input rec) =s "group_message") then Ret own
           else match in_source (request_input rec) with
                | None => Exc PyAttributeError
                | Some (sender_kind, _) =>
                    if sender_kind =s "agent" then Ret (principal_ref (access rec), None, agent_id rec) else Ret own
                end
       end.

(** The row of the [INSERT] *)
Definition new_approval (id : string) (rec : RequestRecord I) (ev : AgentEvent) (calls : list InterceptedCall)
    (asked : string * option RequestRouteSnapshot * string) (created : Z) : ApprovalRow :=
  {| approval_id := id; a_namespace_id := namespace_id rec; a_agent_id := agent_id rec;
     a_session_id := session_id rec; a_request_id := request_id rec; a_execution_id := ev_execution_id ev;
     a_config_version := config_version rec; a_config_fingerprint := config_fingerprint rec;
     a_principal_ref := asked.1.1; a_route := asked.1.2; intercepted := calls; a_created_at := created;
     expires_at := created + APPROVAL_TIMEOUT; a_status := Pending; a_decision := None; reply := None;
     approver_agent_id := asked.2 |}.

Definition create (rec : RequestRecord I) (ev : AgentEvent) (now : Z) (recovered : bool) : call ApprovalRow :=
  calls <- py_pure (check_pause rec ev) ;;
  asked <- py_pure (asked_of rec calls) ;;
  id <- draw token ;;
  transaction (
    h <- get_db ;;
    match fetchone (λ r, bool_decide (pause_key r = (namespace_id rec, ev_execution_id ev))) (approvals h) with
    | Some existing => py_ret existing
    | None =>
        py_guard (negb (recovered || match tables_of h with Some _ => true | None => false end)
                  || existsb (λ e, bool_decide (e = ev))
                       (_unregistered_pauses (namespace_id rec) (Some (session_id rec)) h)) CONFLICT ;;
        update_approvals (λ r, bool_decide (a_namespace_id r = namespace_id rec ∧ a_request_id r = request_id rec ∧
                                            a_status r ∈ open_statuses)) set_consumed ;;
        h <- get_db ;;
        let row := new_approval id rec ev calls asked (if recovered then occurred_at ev else now) in
        match insert_row approval_clash row (approvals h) with
        | Some t => with_db (with_approvals t) ;; py_ret row
        | None => py_raise IntegrityError
        end
    end).

(** [UPDATE ... WHERE approval_id = ? AND status = 'pending'], and the row that it leaves *)
Definition answer (id : string) (s : ApprovalStatus) (d : choice) (l : list response) : call ApprovalRow :=
  update_approvals (λ r, by_id id r && bool_decide (a_status r = Pending)) (set_answer s d l) ;;
  h <- get_db ;;
  py_some (find_approval id h) PyAttributeError.

Definition reject_unrouted (id : string) : call ApprovalRow :=
  transaction (
    h <- get_db ;;
    row <- py_some (find_approval id h) NOT_FOUND ;;
    if negb (bool_decide (a_route row = None)) || negb (bool_decide (a_status row = Pending)) then py_ret row
    else
      l <- confirm_reply (responses (intercepted row) Reject UNROUTED_FEEDBACK None) ;;
      answer id Rejected Reject l).

(** [next(... if item["choice"] == "approve")] *)
Definition approved_call (row : ApprovalRow) : option string :=
  rs_call <$> head (filter (λ x, rs_choice x = Approve) (default [] (reply row))).

Definition the_choice (decision : string) : option choice :=
  if decision =s "approve" then Some Approve else if decision =s "reject" then Some Reject else None.

Definition decide_once (id decision principal channel target : string) (app tool : option string) (now : Z)
    (agent : option string) : call (ApprovalRow * bool) :=
  d <- py_some (the_choice decision) BAD_REQUEST ;;
  transaction (
    h <- get_db ;;
    row <- py_some (find_approval id h) NOT_FOUND ;;
    py_guard (a_principal_ref row =s principal) FORBIDDEN ;;
    route <- py_some (a_route row) FORBIDDEN ;;
    py_guard (approver row =s match agent with Some a => if str_true a then a else a_agent_id row | None => a_agent_id row end)
      FORBIDDEN ;;
    py_guard (bool_decide ((rt_channel route, rt_target_id route, rt_app_id route) = (channel, target, app))) FORBIDDEN ;;
    if negb (bool_decide (a_status row = Pending)) then
      py_guard (bool_decide (a_decision row = Some d ∧ approved_call row = tool)) CONFLICT ;;
      py_ret (row, false)
    else
      py_guard (negb (bool_decide (d = Approve)) || bool_decide (tool ∈ Some ∘ tool_call_id <$> intercepted row)) BAD_REQUEST ;;
      py_guard (negb (bool_decide (d = Reject)) || bool_decide (tool = None)) BAD_REQUEST ;;
      _require_current_pause row ;;
      let expired := Z.leb (expires_at row) now in
      let effective := if expired then Reject else d in
      l <- confirm_reply (responses (intercepted row) effective (if expired then EXPIRED_FEEDBACK else EmptyString)
                            (if bool_decide (effective = Approve) then tool else None)) ;;
      row <- answer id (if expired then Expired else if bool_decide (effective = Approve) then Approved else Rejected) effective l ;;
      py_ret (row, true)).

(** The loop of [expire_pending] *)
Fixpoint expire_rows (rows : list ApprovalRow) : call (list ApprovalRow) :=
  match rows with
  | [] => py_ret []
  | row :: rows' =>
      l <- confirm_reply (responses (intercepted row) Reject EXPIRED_FEEDBACK None) ;;
      updated <- answer (approval_id row) Expired Reject l ;;
      more <- expire_rows rows' ;;
      py_ret (updated :: more)
  end.
Definition expire_pending (now : Z) : call (list ApprovalRow) :=
  transaction (
    h <- get_db ;;
    expire_rows (select (λ r, bool_decide (a_status r = Pending) && Z.leb (expires_at r) now) (approvals h))).

(** A decision that names a call of business sharing; [calls] is a dictionary by id *)
Definition sharing_call (row : ApprovalRow) (id : string) : bool :=
  match last (filter (λ c, tool_call_id c = id) (intercepted row)) with
  | Some c => bool_decide (tool_name c ∈ SHARING_TOOLS) && is_sharing c
  | None => false
  end.

Definition decide_sharing (id : string) (decisions : odict string bool) (now : Z) : call ApprovalRow :=
  transaction (
    h <- get_db ;;
    row <- py_some (find_approval id h) NOT_FOUND ;;
    (if bool_decide (a_status row = Consumed) then py_ret tt else _require_current_pause row) ;;
    if negb (bool_decide (a_status row = Pending)) then py_ret row
    else
      py_guard (negb (bool_decide (decisions = [])) && forallb (λ kv, sharing_call row kv.1) decisions) FORBIDDEN ;;
      let expired := Z.leb (expires_at row) now in
      let allowed := if expired then [] else fst <$> filter (λ kv, kv.2 = true) decisions in
      l <- confirm_reply (sharing_responses (intercepted row) allowed) ;;
      answer id (if expired then Expired else if bool_decide (allowed = []) then Rejected else Approved)
        (if bool_decide (allowed = []) then Reject else Approve) l).

Definition consume (id : string) : call unit :=
  transaction (update_approvals (λ r, by_id id r && bool_decide (a_status r ∈ decided_statuses)) set_consumed).

(** [reply_approval]: binds the message when an approval is given *)
Definition reply_approval (key : ReplyKey) (id : option string) : call (option string) :=
  transaction (
    (match id with
     | Some id => with_db (λ h, with_replies (insert_or_ignore reply_clash {| reply_key := key; bound_id := id |} (reply_messages h)) h)
     | None => py_ret tt
     end) ;;
    h <- get_db ;;
    py_ret (bound_id <$> fetchone (λ r, bool_decide (reply_key r = key)) (reply_messages h))).

(** ** Queries *)

Definition of_request (ns rid : string) (l : list ApprovalStatus) (r : ApprovalRow) : bool :=
  bool_decide (a_namespace_id r = ns ∧ a_request_id r = rid ∧ a_status r ∈ l).
(** [ORDER BY created_at DESC LIMIT 1] *)
Definition newest (P : ApprovalRow → bool) (h : Host) : option ApprovalRow :=
  last (py_sorted a_created_at (select P (approvals h))).

Definition pending_for_request (ns rid : string) (h : Host) : option ApprovalRow := newest (of_request ns rid open_statuses) h.
Definition has_reply (r : ApprovalRow) : bool := negb (bool_decide (reply r = None)).
Definition resume_reply (ns rid : string) (h : Host) : option ApprovalRow :=
  newest (λ r, of_request ns rid decided_statuses r && has_reply r) h.
Definition of_namespace (ns : option string) (r : ApprovalRow) : bool :=
  match ns with Some ns => a_namespace_id r =s ns | None => true end.
Definition pending_approvals (ns : option string) (h : Host) : list ApprovalRow :=
  py_sorted a_created_at (select (λ r, bool_decide (a_status r = Pending) && of_namespace ns r) (approvals h)).
Definition ready (ns : option string) (h : Host) : list ApprovalRow :=
  py_sorted a_created_at (select (λ r, bool_decide (a_status r ∈ decided_statuses) && has_reply r && of_namespace ns r) (approvals h)).
Definition for_route (ns agent : string) (principal : option string) (channel app target : string) (h : Host) : list ApprovalRow :=
  select (λ r, match a_route r with
               | Some route => bool_decide ((rt_channel route, rt_app_id route, rt_target_id route) = (channel, Some app, target))
               | None => false
               end)
    (py_sorted a_created_at (select (λ r, (a_namespace_id r =s ns) && (approver r =s agent) && bool_decide (a_status r = Pending)
       && match principal with Some p => a_principal_ref r =s p | None => true end) (approvals h))).
Definition has_pending_session (ns sid : string) (h : Host) : bool :=
  existsb (λ r, bool_decide (a_namespace_id r = ns ∧ a_session_id r = sid ∧ a_status r ∈ open_statuses)) (approvals h)
  || negb (bool_decide (_unregistered_pauses ns (Some sid) h = [])).
Definition is_ready_for_request (ns sid rid : string) (h : Host) : bool :=
  existsb (λ r, of_request ns rid decided_statuses r && (a_session_id r =s sid) && has_reply r) (approvals h).
End approvals.
Arguments Host I : clear implicits.
