(* ===== verification/ApprovalInv.v ===== *)
(** * Permission approvals: how they move

    The calls of the approvals interleaved with those of [RequestStore], the steps of one
    approval, and the invariant that every call keeps. *)

From S2P Require Import Prelude OrderedDict PyJson Tables MateModels RequestStore DeliveryStore Recovery StoreInv ApprovalStore.

(** The calls that a reply approves *)
Definition approved_in (l : list response) : list string := rs_call <$> filter (λ x, rs_choice x = Approve) l.
Definition approved_calls (r : ApprovalRow) : list string := approved_in (default [] (reply r)).

(** An answer to the whole of what an approval asks *)
Definition answer_ok (r : ApprovalRow) (s : ApprovalStatus) (d : choice) (l : list response) : Prop :=
  s ∈ decided_statuses ∧ rs_call <$> l = tool_call_id <$> intercepted r ∧ (s = Approved ↔ d = Approve) ∧
  (d = Reject → approved_in l = []).

(** What an approval is about, which stays as it is *)
Definition about (r : ApprovalRow) :=
  (approval_id r, (a_namespace_id r, a_agent_id r, a_session_id r, a_request_id r, a_execution_id r),
   (a_principal_ref r, a_route r, approver_agent_id r), intercepted r, (a_created_at r, expires_at r)).

Lemma consumed_closed : Consumed ∉ open_statuses.
Proof. by apply (bool_decide_unpack _). Qed.

Lemma elem_of_approved c l : c ∈ approved_in l ↔ ∃ x, x ∈ l ∧ rs_choice x = Approve ∧ rs_call x = c.
Proof.
  unfold approved_in. rewrite list_elem_of_fmap. split.
  - intros (x & -> & [Hx Hin]%list_elem_of_filter). by exists x.
  - intros (x & Hin & Hx & <-). exists x. split; [done|]. by apply list_elem_of_filter.
Qed.

Lemma responses_calls calls d feedback approved :
  rs_call <$> responses calls d feedback approved = tool_call_id <$> calls.
Proof. unfold responses. rewrite <- list_fmap_compose. by apply list_fmap_ext. Qed.

Lemma responses_approved calls d feedback approved c :
  c ∈ approved_in (responses calls d feedback approved) → d = Approve ∧ approved = Some c ∧ c ∈ tool_call_id <$> calls.
Proof.
  intros (x & (i & -> & Hi)%list_elem_of_fmap & Hx & <-)%elem_of_approved. cbn in *.
  destruct (bool_decide (d = Approve)) eqn:E1, (bool_decide (approved = Some (tool_call_id i))) eqn:E2; try done.
  apply bool_decide_eq_true in E1, E2. split_and!; [done|done|by apply list_elem_of_fmap_2].
Qed.

Lemma sharing_calls calls allowed : rs_call <$> sharing_responses calls allowed = tool_call_id <$> calls.
Proof. unfold sharing_responses. rewrite <- list_fmap_compose. by apply list_fmap_ext. Qed.

Lemma sharing_approved calls allowed c :
  c ∈ approved_in (sharing_responses calls allowed) → c ∈ allowed ∧ c ∈ tool_call_id <$> calls.
Proof.
  intros (x & (i & -> & Hi)%list_elem_of_fmap & Hx & <-)%elem_of_approved. cbn in *.
  case_bool_decide; [|done]. split; [done|by apply list_elem_of_fmap_2].
Qed.

Lemma rejecting calls feedback approved : approved_in (responses calls Reject feedback approved) = [].
Proof.
  destruct (approved_in _) as [|c l] eqn:E; [done|].
  destruct (responses_approved calls Reject feedback approved c) as [? _]; [rewrite E; left|done].
Qed.

Lemma reject_ok r s feedback : s ∈ [Rejected; Expired] → answer_ok r s Reject (responses (intercepted r) Reject feedback None).
Proof.
  intros Hs. split_and!; [by right|apply responses_calls| |by rewrite rejecting].
  split; [|done]. intros ->. rewrite !elem_of_cons, elem_of_nil in Hs; by destruct Hs as [?|[?|?]].
Qed.

Lemma approve_ok r feedback approved :
  answer_ok r Approved Approve (responses (intercepted r) Approve feedback approved).
Proof. split_and!; [by left|apply responses_calls|done|done]. Qed.

Lemma sharing_ok r allowed s d : s = (if bool_decide (allowed = []) then Rejected else Approved) ∨ (s = Expired ∧ allowed = []) →
  d = (if bool_decide (allowed = []) then Reject else Approve) →
  answer_ok r s d (sharing_responses (intercepted r) allowed).
Proof.
  intros Hs ->. split_and!; [|apply sharing_calls| |].
  - destruct Hs as [->|[-> _]]; [case_bool_decide|]; by apply (bool_decide_unpack _).
  - destruct Hs as [->|[-> ->]]; [by case_bool_decide|done].
  - case_bool_decide as E; [|done]. intros _. destruct (approved_in _) as [|c l] eqn:El; [done|].
    destruct (sharing_approved (intercepted r) allowed c) as [Hc _]; [rewrite El; left|]. by rewrite E in Hc; apply elem_of_nil in Hc.
Qed.

Section change.
(** [C r c]: the call [c] of [r] may be approved. *)
Context (C : ApprovalRow → string → Prop).

Inductive approval_change (r : ApprovalRow) : ApprovalRow → Prop :=
| ac_answer s d l : a_status r = Pending → answer_ok r s d l → (∀ c, c ∈ approved_in l → C r c) →
    approval_change r (set_answer s d l r)
| ac_consume : a_status r ∈ open_statuses → approval_change r (set_consumed r).

Definition fresh_approval (r : ApprovalRow) : Prop :=
  a_status r = Pending ∧ a_decision r = None ∧ reply r = None ∧ intercepted r ≠ [] ∧
  NoDup (tool_call_id <$> intercepted r) ∧ expires_at r = (a_created_at r + APPROVAL_TIMEOUT)%Z.

Lemma change_about r r' : approval_change r r' → about r' = about r.
Proof. by destruct 1. Qed.

Lemma change_open r r' : approval_change r r' → a_status r' ∈ open_statuses → a_status r ∈ open_statuses.
Proof. destruct 1 as [s d l Hp _ _|]; [by rewrite Hp; left|done]. Qed.

Lemma changes_about r r' : rtc approval_change r r' → about r' = about r.
Proof. apply changes_key, change_about. Qed.

Lemma changes_open r r' : rtc approval_change r r' → a_status r' ∈ open_statuses → a_status r ∈ open_statuses.
Proof. induction 1; eauto using change_open. Qed.
End change.

Lemma change_mono (C C' : ApprovalRow → string → Prop) r r' :
  (∀ r c, C r c → C' r c) → approval_change C r r' → approval_change C' r r'.
Proof. intros H. destruct 1; [eapply ac_answer; eauto|by apply ac_consume]. Qed.

(** ** The invariant *)

Section inv.
Context {I : Type} `{!RequestInputs I}.
Context (uuid : nat → string) (notice_text : string → string → option string → string).
Context (token : nat → string) (confirm_ok : list response → bool).
Implicit Types (h : Host I) (w : World (Host I)) (r : ApprovalRow).

Definition request_of (r : ApprovalRow) := (a_namespace_id r, a_request_id r).

Record approvals_ok (C : ApprovalRow → string → Prop) (t0 : list ApprovalRow) (h : Host I) : Prop := mk_approvals_ok {
  ao_ids : unique approval_id (approvals h);
  ao_pauses : unique pause_key (approvals h);
  ao_open : ∀ r r', r ∈ approvals h → r' ∈ approvals h → request_of r = request_of r' →
    a_status r ∈ open_statuses → a_status r' ∈ open_statuses → r = r';
  ao_born : evolves (approval_change C) fresh_approval t0 (approvals h);
}.

Lemma ok_same C t0 h h' : approvals h' = approvals h → approvals_ok C t0 h → approvals_ok C t0 h'.
Proof. intros E [? ? ? ?]. by split; rewrite E. Qed.

Lemma ok_mono (C C' : ApprovalRow → string → Prop) t0 h : (∀ r c, C r c → C' r c) → approvals_ok C t0 h → approvals_ok C' t0 h.
Proof.
  intros HC [? ? ? (moved & more & E & Hmo & Hm)]. split; try done. exists moved, more.
  assert (∀ r r', rtc (approval_change C) r r' → rtc (approval_change C') r r') as Hs.
  { induction 1 as [|? ? ? ? _ IH]; [done|]. eapply rtc_l; [by eapply change_mono|done]. }
  split; [done|]. split.
  - eapply Forall2_impl; [done|]. auto.
  - eapply Forall_impl; [done|]. intros r (r0 & Hf & Hr). exists r0. auto.
Qed.

Lemma about_eq r r' : about r' = about r → approval_id r' = approval_id r ∧ pause_key r' = pause_key r ∧ request_of r' = request_of r.
Proof. unfold about, pause_key, request_of. intros [=]. split_and!; congruence. Qed.

(** The rows of an update move. *)
Lemma ok_update C t0 P f h : (∀ r, r ∈ approvals h → P r = true → approval_change C r (f r)) → approvals_ok C t0 h →
  approvals_ok C t0 (with_approvals (update_where P f (approvals h)) h).
Proof.
  intros H [Hi Hp Ho Hb].
  assert (∀ r, r ∈ approvals h → P r = true → about (f r) = about r) as Ha by (intros; eapply change_about; eauto).
  split; simpl.
  - apply update_unique; [|done]. intros r Hr HP. by destruct (about_eq _ _ (Ha r Hr HP)) as (?&?&?).
  - apply update_unique; [|done]. intros r Hr HP. by destruct (about_eq _ _ (Ha r Hr HP)) as (?&?&?).
  - intros r r' Hr Hr' E Hs Hs'.
    assert (∀ x, x ∈ update_where P f (approvals h) → a_status x ∈ open_statuses →
      ∃ x0, x0 ∈ approvals h ∧ request_of x = request_of x0 ∧ a_status x0 ∈ open_statuses ∧ x = (if P x0 then f x0 else x0)) as Hx.
    { intros x [[Hx HP]|(x0 & Hx & HP & ->)]%elem_of_update_where Hsx; [exists x; by rewrite HP|].
      exists x0. rewrite HP. destruct (about_eq _ _ (Ha x0 Hx HP)) as (_ & _ & ?). split_and!; try done.
      by eapply change_open; [eapply H|]. }
    destruct (Hx r Hr Hs) as (r0 & Hr0 & E0 & Hs0 & ->). destruct (Hx r' Hr' Hs') as (r1 & Hr1 & E1 & Hs1 & ->).
    assert (r0 = r1) as ->; [|done]. apply Ho; try done. congruence.
  - eapply evolves_trans; [done|]. apply evolves_update. intros r Hr HP. by apply rtc_once, H.
Qed.

Lemma find_approval_inv id h r : find_approval id h = Some r → r ∈ approvals h ∧ approval_id r = id.
Proof. unfold find_approval, by_id. intros [H Hr]%fetchone_some. by apply eqs_true in H. Qed.

Lemma ok_answers C t0 h id s d l : approvals_ok C t0 h →
  (∀ r, r ∈ approvals h → approval_id r = id → answer_ok r s d l ∧ ∀ c, c ∈ approved_in l → C r c) →
  approvals_ok C t0 (with_approvals (update_where (λ r, by_id id r && bool_decide (a_status r = Pending)) (set_answer s d l) (approvals h)) h).
Proof.
  intros Hok Ha. apply ok_update; [|done].
  intros r Hr [Hk Hp%bool_decide_eq_true]%andb_true_iff. unfold by_id in Hk. apply eqs_true in Hk.
  destruct (Ha r Hr Hk). by apply ac_answer.
Qed.

(** The row of an id is the only one that a statement on the id updates. *)
Lemma ok_answer C t0 h r id s d l : approvals_ok C t0 h → find_approval id h = Some r → answer_ok r s d l →
  (∀ c, c ∈ approved_in l → C r c) →
  approvals_ok C t0 (with_approvals (update_where (λ r, by_id id r && bool_decide (a_status r = Pending)) (set_answer s d l) (approvals h)) h).
Proof.
  intros Hok [Hr Hid]%find_approval_inv Ha HC. apply ok_answers; [done|]. intros r' Hr' Hk.
  assert (r' = r) as -> by (eapply (unique_eq approval_id); [apply Hok|done|done|congruence]). done.
Qed.

Lemma answer_inv id s d l w row w' : answer id s d l w = (Ret row, w') →
  w' = mk_world (with_approvals (update_where (λ r, by_id id r && bool_decide (a_status r = Pending)) (set_answer s d l)
         (approvals (db w))) (db w)) (drawn w) ∧ find_approval id (db w') = Some row.
Proof. intros H. unfold answer, update_approvals in H. call_inv. by split. Qed.

Lemma confirm_reply_inv l w l' w' : confirm_reply confirm_ok l w = (Ret l', w') → l' = l ∧ w' = w ∧ confirm_ok l = true.
Proof. intros H. unfold confirm_reply in H. call_inv. by split_and!. Qed.

Lemma current_pause_inv r w u w' : _require_current_pause r w = (Ret u, w') → current_pause r (db w) = true ∧ w' = w.
Proof. intros H. unfold _require_current_pause in H. call_inv. by split. Qed.

(** ** The calls *)

Inductive approval_op :=
| OpHost (o : store_op (I := I))
| OpCreate (rec : RequestRecord I) (ev : AgentEvent) (now : Z) (recovered : bool)
| OpUnrouted (id : string)
| OpDecide (id decision principal channel target : string) (app tool : option string) (now : Z) (agent : option string)
| OpExpire (now : Z)
| OpSharing (id : string) (decisions : odict string bool) (now : Z)
| OpConsume (id : string)
| OpBind (key : ReplyKey) (id : option string).

(** A call of [RequestStore] on the file *)
Definition host_call (o : store_op (I := I)) w : World (Host I) :=
  match tables_of (db w) with
  | Some d =>
      let w' := (run_op uuid notice_text o (mk_world d (drawn w))).2 in
      mk_world (mk_host (Some (db w')) (approvals (db w)) (reply_messages (db w))) (drawn w')
  | None => w
  end.

Definition perform (o : approval_op) w : World (Host I) :=
  match o with
  | OpHost o => host_call o w
  | OpCreate rec ev now recovered => (create token rec ev now recovered w).2
  | OpUnrouted id => (reject_unrouted confirm_ok id w).2
  | OpDecide id decision principal channel target app tool now agent =>
      (decide_once confirm_ok id decision principal channel target app tool now agent w).2
  | OpExpire now => (expire_pending confirm_ok now w).2
  | OpSharing id decisions now => (decide_sharing confirm_ok id decisions now w).2
  | OpConsume id => (consume id w).2
  | OpBind key id => (reply_approval key id w).2
  end.

Definition performs (ops : list approval_op) w : World (Host I) := foldl (λ w o, perform o w) w ops.

(** A call that approves the call [c] of [r], by who may *)
Definition consents (o : approval_op) (r : ApprovalRow) (c : string) : Prop :=
  match o with
  | OpDecide id decision principal channel target app tool now agent =>
      id = approval_id r ∧ decision = "approve" ∧ tool = Some c ∧ principal = a_principal_ref r ∧
      (∃ route, a_route r = Some route ∧ (rt_channel route, rt_target_id route, rt_app_id route) = (channel, target, app)) ∧
      approver r = (match agent with Some a => if str_true a then a else a_agent_id r | None => a_agent_id r end) ∧
      (now < expires_at r)%Z
  | OpSharing id decisions now =>
      id = approval_id r ∧ (c, true) ∈ decisions ∧ sharing_call r c = true ∧ (now < expires_at r)%Z
  | _ => False
  end.

Section keeps.
Context (C : ApprovalRow → string → Prop) (t0 : list ApprovalRow).
Implicit Types o : approval_op.

Lemma keeps_bind_op key id : db_keeps (approvals_ok C t0) (reply_approval key id).
Proof.
  apply db_keeps_transaction, db_keeps_bind; [|intros; auto with db_keeps].
  destruct id; [|auto with db_keeps]. apply db_keeps_with. intros h. by apply ok_same.
Qed.

Lemma keeps_consume id : db_keeps (approvals_ok C t0) (consume id).
Proof.
  apply db_keeps_transaction, db_keeps_with. intros h Hok. apply ok_update; [|done].
  intros r _ [_ Hs%bool_decide_eq_true]%andb_true_iff. apply ac_consume. by right.
Qed.

Lemma check_pause_inv (rec : RequestRecord I) ev calls : check_pause rec ev = Ret calls →
  ev_namespace_id ev = namespace_id rec ∧ calls ≠ [] ∧ NoDup (tool_call_id <$> calls).
Proof.
  unfold check_pause. destruct (payload ev); try done. intros (H1 & H2)%check_ret. apply check_ret in H2 as [H2 [= <-]].
  apply reject_ret in H1, H2. rewrite !orb_false_iff, !negb_false_iff, !bool_decide_eq_true in H1.
  destruct H1 as [[[= E _ _ _ _] Hnd] _]. apply orb_false_iff in H2 as [Hne%bool_decide_eq_false _]. done.
Qed.

Lemma ok_insert h r t : fresh_approval r →
  (∀ r', r' ∈ approvals h → request_of r' = request_of r → a_status r' ∉ open_statuses) →
  insert_row approval_clash r (approvals h) = Some t → approvals_ok C t0 h → approvals_ok C t0 (with_approvals t h).
Proof.
  intros Hf Hno Hi [Hid Hp Ho Hb].
  assert (∀ r', approval_id r = approval_id r' ∨ pause_key r = pause_key r' → approval_clash r r' = true) as Hc.
  { intros r' Hk. unfold approval_clash. by rewrite orb_true_iff, eqs_true, bool_decide_eq_true. }
  assert (t = approvals h ++ [r]) as Et by (by apply insert_row_some in Hi as [-> _]).
  split; simpl.
  - eapply insert_unique; [exact Hi| |done]. auto.
  - eapply insert_unique; [exact Hi| |done]. auto.
  - rewrite Et. intros x y [Hx| ->%list_elem_of_singleton]%elem_of_app [Hy| ->%list_elem_of_singleton]%elem_of_app E Hsx Hsy;
      [by apply Ho|by destruct (Hno x Hx E)| |done].
    by destruct (Hno y Hy (eq_sym E)).
  - eapply evolves_trans; [done|]. by eapply evolves_insert.
Qed.

Lemma create_atomic rec ev now recovered : atomic (create (I := I) token rec ev now recovered).
Proof.
  unfold create. apply atomic_bind; [done|intros calls]. apply atomic_bind; [done|intros asked].
  apply atomic_bind; [done|intros id]. apply atomic_transaction.
Qed.

Lemma keeps_create rec ev now recovered : db_keeps (approvals_ok C t0) (create token rec ev now recovered).
Proof.
  apply db_keeps_atomic; [exact (create_atomic rec ev now recovered)|]. intros w row w' E Hok.
  unfold create in E. store_inv. rename a into calls, a0 into asked.
  match goal with H : check_pause _ _ = Ret _ |- _ => apply check_pause_inv in H as (Hns & Hne & Hnd) end.
  destruct (fetchone _ (approvals (db w))) as [existing|]; [by store_inv|]. unfold update_approvals in E. store_inv.
  destruct (insert_row _ _ _) as [t|] eqn:Ei; [|by store_inv]. store_inv.
  eapply ok_insert; [| |exact Ei|].
  - by split_and!.
  - intros r [[Hr HP]|(r0 & Hr & HP & ->)]%elem_of_update_where Hreq Hs; [|by destruct (consumed_closed Hs)].
    apply bool_decide_eq_false in HP. apply HP. unfold request_of in Hreq. injection Hreq as -> ->. done.
  - apply ok_update; [|done]. intros r Hr (_ & _ & Hs)%bool_decide_eq_true. by apply ac_consume.
Qed.

(** A transaction that answers the row of an id, or leaves the tables *)
Lemma keeps_unrouted id : db_keeps (approvals_ok C t0) (reject_unrouted (I := I) confirm_ok id).
Proof.
  apply db_keeps_returned. intros w row w' E Hok. store_inv. destruct (_ || _); store_inv; [done|].
  match goal with H : confirm_reply _ _ _ = _ |- _ => apply confirm_reply_inv in H as (-> & -> & _) end.
  apply answer_inv in E as [-> _]. eapply ok_answer; [done|done| |].
  - apply reject_ok. by left.
  - intros c. rewrite rejecting. by intros ?%elem_of_nil.
Qed.

Lemma keeps_decide id decision principal channel target app tool now agent w :
  (∀ r c, consents (OpDecide id decision principal channel target app tool now agent) r c → current_pause r (db w) = true →
     c ∈ tool_call_id <$> intercepted r → C r c) →
  approvals_ok C t0 (db w) →
  approvals_ok C t0 (db (decide_once confirm_ok id decision principal channel target app tool now agent w).2).
Proof.
  intros HC Hok. destruct (decide_once _ _ _ _ _ _ _ _ _ _ w) as [[[row b]|e] w'] eqn:E; cbn [snd].
  2: { assert (db w' = db w) as ->; [|done]. unfold decide_once in E. revert E.
       destruct (the_choice decision); [|by intros [= _ <-]]. apply transaction_exc. }
  unfold decide_once in E. store_inv. rename a into d, a1 into r, a3 into route.
  destruct (bool_decide (a_status r = Pending)); cbn [negb] in E; store_inv; [|done].
  match goal with H : _require_current_pause _ _ = _ |- _ => apply current_pause_inv in H as [Hpause ->] end.
  match goal with H : confirm_reply _ _ _ = _ |- _ => apply confirm_reply_inv in H as (-> & -> & _) end.
  match goal with H : answer _ _ _ _ _ = _ |- _ => apply answer_inv in H as [-> _] end.
  apply find_approval_inv in H1 as Hr. eapply ok_answer; [done|done| |].
  - destruct (Z.leb _ _); [rewrite bool_decide_false by done; apply reject_ok; by right; left|].
    destruct d; [rewrite bool_decide_true by done; apply approve_ok|rewrite bool_decide_false by done; apply reject_ok; by left].
  - intros c (Hd & Ht & Hc)%responses_approved. destruct (Z.leb_spec (expires_at r) now) as [|Hlt]; [done|]. subst d.
    rewrite bool_decide_true in Ht by done. apply HC; [|done|done]. unfold consents. split_and!; try done.
    + by destruct Hr.
    + unfold the_choice in H. destruct (decision =s "approve") eqn:E'; [by apply eqs_true in E'|]. by destruct (decision =s "reject").
    + by exists route.
Qed.

Lemma keeps_sharing id decisions now w :
  (∀ r c, consents (OpSharing id decisions now) r c → current_pause r (db w) = true → c ∈ tool_call_id <$> intercepted r → C r c) →
  approvals_ok C t0 (db w) → approvals_ok C t0 (db (decide_sharing confirm_ok id decisions now w).2).
Proof.
  intros HC Hok. destruct (decide_sharing _ _ _ _ w) as [[row|e] w'] eqn:E; cbn [snd].
  2: by rewrite (transaction_exc _ _ _ _ E).
  unfold decide_sharing in E. store_inv. rename a0 into r, H0 into Hr.
  destruct (bool_decide (a_status r = Pending)) eqn:Hp; cbn [negb] in E.
  2: { store_inv. destruct (bool_decide (a_status r = Consumed)); store_inv; [done|]. by apply current_pause_inv in H1 as [_ ->]. }
  apply bool_decide_eq_true in Hp. rewrite bool_decide_false in H1 by (by rewrite Hp). apply current_pause_inv in H1 as [Hpause ->].
  store_inv. match goal with H : confirm_reply _ _ _ = _ |- _ => apply confirm_reply_inv in H as (-> & -> & _) end.
  apply answer_inv in E as [-> _]. match goal with H : _ && _ = true |- _ => apply andb_true_iff in H as [_ Hall] end.
  eapply ok_answer; [done|done| |].
  - apply sharing_ok; [|done]. destruct (Z.leb _ _); [by right|by left].
  - intros c [Hc Hin]%sharing_approved. destruct (Z.leb_spec (expires_at r) now) as [|Hlt]; [by apply elem_of_nil in Hc|].
    apply list_elem_of_fmap in Hc as ([c' b] & -> & [Hb Hc]%list_elem_of_filter). cbn in *. subst b.
    apply HC; [|done|done]. apply find_approval_inv in Hr as [_ Hid]. split_and!; try done.
    by apply (proj1 (forallb_forall _ _) Hall (c', true)), list_elem_of_In.
Qed.

(** The rows that are left to expire are about what they were about. *)
Definition same_calls (rows : list ApprovalRow) h : Prop :=
  ∀ row r, row ∈ rows → r ∈ approvals h → approval_id r = approval_id row → intercepted r = intercepted row.

Lemma expire_rows_ok rows w l w' : expire_rows confirm_ok rows w = (Ret l, w') → same_calls rows (db w) →
  approvals_ok C t0 (db w) → approvals_ok C t0 (db w').
Proof.
  revert w l w'. induction rows as [|row rows IH]; intros w l w' E Hs Hok; simpl in E; store_inv; [done|].
  match goal with H : confirm_reply _ _ _ = _ |- _ => apply confirm_reply_inv in H as (-> & -> & _) end.
  match goal with H : answer _ _ _ _ _ = _ |- _ => apply answer_inv in H as [-> _] end.
  eapply IH; [done| |].
  - intros row' r Hrow' [[Hr _]|(r0 & Hr & _ & ->)]%elem_of_update_where; [by apply Hs; [right|]|].
    intros Hid. apply (Hs row' r0); [by right|done|done].
  - apply ok_answers; [done|]. intros r Hr Hid. assert (intercepted r = intercepted row) as <- by (apply Hs; [left|done|done]).
    split; [apply reject_ok; by right; left|]. intros c. rewrite rejecting. by intros ?%elem_of_nil.
Qed.

Lemma keeps_expire now : db_keeps (approvals_ok C t0) (expire_pending (I := I) confirm_ok now).
Proof.
  apply db_keeps_returned. intros w l w' E Hok. store_inv. eapply expire_rows_ok; [done| |done].
  intros row r [_ Hrow]%elem_of_rows Hr Hid. f_equal. eapply (unique_eq approval_id); [apply Hok|done|done|done].
Qed.

Lemma keeps_op o w :
  (∀ r c, consents o r c → current_pause r (db w) = true → c ∈ tool_call_id <$> intercepted r → C r c) →
  approvals_ok C t0 (db w) → approvals_ok C t0 (db (perform o w)).
Proof.
  intros HC Hok. destruct o; cbn [perform].
  - unfold host_call. destruct (tables_of (db w)); [|done]. by apply (ok_same C t0 (db w)).
  - by apply keeps_create.
  - by apply keeps_unrouted.
  - by apply keeps_decide.
  - by apply keeps_expire.
  - by apply keeps_sharing.
  - by apply keeps_consume.
  - by apply keeps_bind_op.
Qed.
End keeps.
End inv.
