(* ===== verification/ApprovalProps.v ===== *)
(** * Permission approvals: theorems

    Whatever calls the file serves, a tool call is approved only by an answer of the person
    who was asked, in time and while the pause is still current; an approval is answered
    once; one is open per Request. *)

From S2P Require Import Prelude OrderedDict PyJson Tables MateModels RequestStore DeliveryStore Recovery StoreInv ApprovalStore ApprovalInv.

Section props.
Context {I : Type} `{!RequestInputs I}.
Context (uuid : nat → string) (notice_text : string → string → option string → string).
Context (token : nat → string) (confirm_ok : list response → bool).
Implicit Types (h : Host I) (w : World (Host I)) (r : ApprovalRow).

#[local] Abbreviation op := (approval_op (I := I)).
#[local] Abbreviation performs := (performs uuid notice_text token confirm_ok).
#[local] Abbreviation perform := (perform uuid notice_text token confirm_ok).

(** A file without approvals, with whatever else is in it *)
Definition opened (t : option (DB I)) (n : nat) : World (Host I) := mk_world (mk_host t [] []) n.

Lemma performs_app ops ops' w : performs (ops ++ ops') w = performs ops' (performs ops w).
Proof. apply foldl_app. Qed.

(** ** Consent *)

(** One of the calls approved [c] of [r], while the pause was the current one. *)
Definition consented w0 (ops : list op) (r : ApprovalRow) (c : string) : Prop :=
  ∃ before o after, ops = before ++ o :: after ∧ consents o r c ∧ current_pause r (db (performs before w0)) = true.

Lemma consented_more w0 ops ops' r c : consented w0 ops r c → consented w0 (ops ++ ops') r c.
Proof. intros (b & o & a & -> & H). exists b, o, (a ++ ops'). by rewrite <- app_assoc. Qed.

Lemma about_consented w0 ops r r' c : about r' = about r → consented w0 ops r c → consented w0 ops r' c.
Proof.
  unfold about. intros E (b & o & a & -> & Hc & Hp). exists b, o, a. split; [done|].
  injection E as E1 E2 E3 E4 E5 E6 E7 E8 E9 E10 E11 E12. split.
  - destruct o; try done; unfold consents, approver, sharing_call in *; rewrite ?E1, ?E3, ?E7, ?E8, ?E9, ?E10, ?E12; done.
  - unfold current_pause in *. by rewrite E2, E3, E4, E5, E6, E10.
Qed.

Lemma ok_start C C' t0 h : approvals_ok C t0 h → approvals_ok C' (approvals h) h.
Proof. intros [? ? ? _]. split; try done. apply evolves_refl. Qed.

Lemma performs_ok C t0 w0 (ops : list op) : approvals_ok C t0 (db w0) →
  approvals_ok (consented w0 ops) (approvals (db w0)) (db (performs ops w0)).
Proof.
  intros H0. induction ops as [|o ops IH] using rev_ind; [by eapply ok_start|].
  rewrite performs_app. apply keeps_op.
  - intros r c Hc Hp _. by exists ops, o, [].
  - eapply ok_mono; [|exact IH]. intros r c. apply consented_more.
Qed.

Lemma opened_ok C t n : approvals_ok (I := I) C [] (db (opened t n)).
Proof. split; [constructor|constructor|by intros ? ? ?%elem_of_nil|apply evolves_refl]. Qed.

(** What is approved may be. *)
Lemma approved_consented w0 ops r0 r : rtc (approval_change (consented w0 ops)) r0 r → reply r0 = None →
  ∀ c, c ∈ approved_calls r → consented w0 ops r c.
Proof.
  intros Hs H0. revert r Hs. apply (rtc_ind_r (λ r, ∀ c, c ∈ approved_calls r → consented w0 ops r c)).
  - intros c Hc. unfold approved_calls in Hc. rewrite H0 in Hc. by apply elem_of_nil in Hc.
  - intros r1 r2 _ Hstep IH c Hc. eapply about_consented; [by eapply change_about|].
    destruct Hstep as [s d l Hp Ha HC|Hs]; [by apply HC|by apply IH].
Qed.

(** C10: however the calls on the file are interleaved, a tool call of a pause is approved only if
    one of them approved it: the person who was asked, at the agent and on the route of the
    question, or the owner for a call of business sharing; before the approval
    expired, and while the Request was neither stopped nor cancelled nor past this pause. *)
Theorem approval_needs_consent t n (ops : list op) r c :
  r ∈ approvals (db (performs ops (opened t n))) → c ∈ approved_calls r → consented (opened t n) ops r c.
Proof.
  intros Hr Hc. pose proof (performs_ok _ _ _ ops (opened_ok (λ _ _, True) t n)) as [_ _ _ Hb].
  destruct (evolves_born _ _ _ _ Hb Hr) as (r0 & (_ & _ & H0 & _) & Hs). by eapply approved_consented.
Qed.

(** ** One answer *)

Definition answered_as (r r' : ApprovalRow) : Prop :=
  about r' = about r ∧ (a_status r ≠ Pending → reply r' = reply r ∧ a_decision r' = a_decision r ∧
    (a_status r' = a_status r ∨ a_status r' = Consumed)) ∧ (a_status r = Consumed → r' = r).

Lemma changes_answered C r r' : rtc (approval_change C) r r' → answered_as r r'.
Proof.
  induction 1 as [|r1 r2 r3 H _ (Ha & Hs & Hc)]; [by split_and!; auto|].
  destruct H as [s d l Hp Hok _|Hopen]; cbn in *.
  - split; [done|]. rewrite Hp. split; [done|done].
  - rewrite (Hc eq_refl). split_and!; [done|by auto|]. intros E. rewrite E in Hopen. by destruct (consumed_closed Hopen).
Qed.

(** an approval keeps what it asks, of whom, where and until when.  Once it is answered,
    approved, rejected or expired, its decision and its responses stay and it can only be
    consumed; a consumed one never changes. *)
Theorem approval_answered_once t n (ops ops' : list op) r : let w := performs ops (opened t n) in
  r ∈ approvals (db w) → ∃ r', r' ∈ approvals (db (performs ops' w)) ∧ answered_as r r'.
Proof.
  intros w Hr. pose proof (performs_ok _ _ _ ops (opened_ok (λ _ _, True) t n)) as Hok.
  destruct (performs_ok _ _ _ ops' Hok) as [_ _ _ Hb]. destruct (evolves_row _ _ _ _ _ Hb Hr) as (r' & Hr' & Hs).
  exists r'. split; [done|]. by eapply changes_answered.
Qed.

(** ** The invariant *)

(** The columns of an approval agree. *)
Definition approval_wf (r : ApprovalRow) : Prop :=
  intercepted r ≠ [] ∧ NoDup (tool_call_id <$> intercepted r) ∧ expires_at r = (a_created_at r + APPROVAL_TIMEOUT)%Z ∧
  (a_status r = Pending → reply r = None) ∧
  (a_status r ∈ decided_statuses → ∃ l, reply r = Some l ∧ rs_call <$> l = tool_call_id <$> intercepted r) ∧
  (a_status r = Rejected ∨ a_status r = Expired → approved_calls r = []).

Lemma changes_wf C r r' : rtc (approval_change C) r r' → approval_wf r → approval_wf r'.
Proof.
  induction 1 as [|r1 r2 r3 H _ IH]; [done|]. intros (Hi & Hn & He & _ & _ & _). apply IH.
  destruct H as [s d l _ (Hs & Hl & Ha & Hd) _|_]; split_and!; cbn; try done.
  - intros ->. set_solver.
  - intros _. by exists l.
  - intros Hrej. apply Hd. destruct d; [|done]. assert (s = Approved) by by apply Ha. subst s. by destruct Hrej.
  - intros H. set_solver.
  - by intros [|].
Qed.

Lemma approvals_ok_wf (ops : list op) t n r : r ∈ approvals (db (performs ops (opened t n))) →
  unique approval_id (approvals (db (performs ops (opened t n)))) ∧ approval_wf r.
Proof.
  intros Hr. destruct (performs_ok _ _ _ ops (opened_ok (λ _ _, True) t n)) as [Hi _ _ Hb]. split; [done|].
  destruct (evolves_born _ _ _ _ Hb Hr) as (r0 & (Hs0 & _ & H0 & Hne & Hnd & He) & Hs).
  eapply changes_wf; [done|]. split_and!; try done; rewrite Hs0; [set_solver|by intros [|]].
Qed.

(** C23: approvals have their own ids, one per Execution that paused, and at most one of a Request
    is open; each asks at least one call, none twice, and expires after fifteen minutes; an
    answered one has a response to every call it asks, and one that was rejected or that
    expired approves none. *)
Theorem approvals_invariant t n (ops : list op) : let h := db (performs ops (opened t n)) in
  unique approval_id (approvals h) ∧ unique pause_key (approvals h) ∧
  (∀ r r', r ∈ approvals h → r' ∈ approvals h → request_of r = request_of r' →
     a_status r ∈ open_statuses → a_status r' ∈ open_statuses → r = r') ∧
  ∀ r, r ∈ approvals h → approval_wf r.
Proof.
  intros h. destruct (performs_ok _ _ _ ops (opened_ok (λ _ _, True) t n)) as [Hi Hp Ho Hb]. split_and!; try done.
  intros r Hr. exact (proj2 (approvals_ok_wf ops t n r Hr)).
Qed.

(** ** A decision *)

(** Who may answer [r], and how: the caller's part of [decide_once] *)
Definition may_answer (r : ApprovalRow) (principal channel target : string) (app agent : option string) : Prop :=
  a_principal_ref r = principal ∧
  (∃ route, a_route r = Some route ∧ (rt_channel route, rt_target_id route, rt_app_id route) = (channel, target, app)) ∧
  approver r = match agent with Some a => if str_true a then a else a_agent_id r | None => a_agent_id r end.

Lemma approved_exactly calls c feedback : NoDup (tool_call_id <$> calls) → c ∈ tool_call_id <$> calls →
  approved_in (responses calls Approve feedback (Some c)) = [c].
Proof.
  induction calls as [|i calls IH]; cbn [fmap list_fmap]; [by intros _ ?%elem_of_nil|]. intros [Hi Hnd]%NoDup_cons Hc.
  unfold approved_in, responses in *. cbn [map]. rewrite filter_cons.
  destruct (decide (c = tool_call_id i)) as [->|Hne].
  - rewrite decide_True by (cbn; by rewrite !bool_decide_true). rewrite fmap_cons. cbn [rs_call]. f_equal.
    destruct (approved_in (responses calls Approve feedback (Some (tool_call_id i)))) as [|x l] eqn:E; [exact E|].
    destruct (responses_approved calls Approve feedback (Some (tool_call_id i)) x) as (_ & [= <-] & ?); [rewrite E; left|done].
  - rewrite decide_False by (cbn; rewrite (bool_decide_false (Some c = _)) by congruence; by rewrite andb_false_r).
    apply IH; [done|]. by apply elem_of_cons in Hc as [|].
Qed.

Lemma find_of_row id h r : unique approval_id (approvals h) → r ∈ approvals h → approval_id r = id → find_approval id h = Some r.
Proof.
  intros Hu Hr Hid. unfold find_approval, by_id. apply (fetchone_unique approval_id); [done|done|by apply eqs_true|].
  intros r' _ H%eqs_true. congruence.
Qed.

(** What [answer] does to the row of an id *)
Lemma answer_run id s d l w r : unique approval_id (approvals (db w)) → find_approval id (db w) = Some r → a_status r = Pending →
  ∃ w', answer id s d l w = (Ret (set_answer s d l r), w') ∧ find_approval id (db w') = Some (set_answer s d l r) ∧
    tables_of (db w') = tables_of (db w) ∧
    ∀ r', r' ∈ approvals (db w) → r' ≠ r → r' ∈ approvals (db w').
Proof.
  intros Hu Hf Hp. apply find_approval_inv in Hf as [Hr Hid].
  set (P := λ r, by_id id r && bool_decide (a_status r = Pending)).
  assert (find_approval id (with_approvals (update_where P (set_answer s d l) (approvals (db w))) (db w)) = Some (set_answer s d l r)) as E.
  { apply find_of_row; cbn; [by apply update_unique| |done]. apply elem_of_update_where. right. exists r.
    split; [done|]. split; [|done]. unfold P, by_id. by rewrite (proj2 (eqs_true _ _) Hid), bool_decide_true. }
  exists (mk_world (with_approvals (update_where P (set_answer s d l) (approvals (db w))) (db w)) (drawn w)).
  split; [|split; [exact E|split; [done|]]].
  - unfold answer, update_approvals, py_bind, with_db, py_modify, get_db. cbn [db]. fold P. by rewrite E.
  - intros r' Hr' Hne. apply elem_of_update_where. left. split; [done|]. unfold P, by_id.
    destruct (approval_id r' =s id) eqn:E'; [|done]. apply eqs_true in E'. destruct Hne.
    eapply (unique_eq approval_id); [done|done|done|congruence].
Qed.

Lemma approved_waits (r : ApprovalRow) c : c ∈ tool_call_id <$> intercepted r →
  if bool_decide (Approve = Approve) then Some c ∈ Some ∘ tool_call_id <$> intercepted r else Some c = None.
Proof. intros (i & -> & Hi)%list_elem_of_fmap. rewrite bool_decide_true by done. apply list_elem_of_fmap. by exists i. Qed.

(** What is made of an answer: the choice, the status and the responses that are stored *)
Definition effective_choice (r : ApprovalRow) (d : choice) (now : Z) : choice := if Z.leb (expires_at r) now then Reject else d.
Definition answer_status (r : ApprovalRow) (e : choice) (now : Z) : ApprovalStatus :=
  if Z.leb (expires_at r) now then Expired else if bool_decide (e = Approve) then Approved else Rejected.
Definition answer_replies (r : ApprovalRow) (e : choice) (tool : option string) (now : Z) : list response :=
  responses (intercepted r) e (if Z.leb (expires_at r) now then EXPIRED_FEEDBACK else EmptyString) (if bool_decide (e = Approve) then tool else None).

(** [decide_once] up to [ConfirmReply] *)
Lemma decide_to_reply id decision d principal channel target app tool now agent w r :
  the_choice decision = Some d → find_approval id (db w) = Some r → may_answer r principal channel target app agent →
  a_status r = Pending → current_pause r (db w) = true →
  (if bool_decide (d = Approve) then tool ∈ Some ∘ tool_call_id <$> intercepted r else tool = None) →
  let e := effective_choice r d now in
  decide_once confirm_ok id decision principal channel target app tool now agent w =
    transaction (l <- confirm_reply confirm_ok (answer_replies r e tool now) ;;
                 row <- answer id (answer_status r e now) e l ;; py_ret (row, true)) w.
Proof.
  intros Hd Hf (Hprin & (route & Hroute & Hto) & Hwho) Hp Hpause Htool e.
  unfold decide_once. rewrite (py_some_run _ _ _ d) by done. unfold transaction.
  rewrite (py_bind_run get_db _ w (db w) w) by done. rewrite (py_some_run _ _ _ r) by done.
  rewrite py_guard_run by (by apply eqs_true). rewrite (py_some_run _ _ _ route) by done.
  rewrite py_guard_run by (by apply eqs_true). rewrite py_guard_run by (by apply bool_decide_eq_true).
  rewrite (bool_decide_true (a_status r = Pending)) by done. cbn [negb].
  rewrite py_guard_run by (destruct d; [by rewrite orb_true_iff, !bool_decide_eq_true; right|done]).
  rewrite py_guard_run by (destruct d; [done|by apply bool_decide_eq_true]).
  by rewrite (py_bind_run (_require_current_pause r) _ w tt w) by (unfold _require_current_pause, py_bind, get_db; by rewrite Hpause).
Qed.

Lemma decide_run id decision d principal channel target app tool now agent w r :
  the_choice decision = Some d → find_approval id (db w) = Some r → may_answer r principal channel target app agent →
  a_status r = Pending → current_pause r (db w) = true → unique approval_id (approvals (db w)) →
  (if bool_decide (d = Approve) then tool ∈ Some ∘ tool_call_id <$> intercepted r else tool = None) →
  let e := effective_choice r d now in let l := answer_replies r e tool now in
  if confirm_ok l then
    let row := set_answer (answer_status r e now) e l r in
    ∃ w', decide_once confirm_ok id decision principal channel target app tool now agent w = (Ret (row, true), w') ∧
      find_approval id (db w') = Some row ∧ tables_of (db w') = tables_of (db w) ∧
      ∀ r', r' ∈ approvals (db w) → r' ≠ r → r' ∈ approvals (db w')
  else decide_once confirm_ok id decision principal channel target app tool now agent w = (Exc PyValueError, w).
Proof.
  intros Hd Hf Hwho Hp Hpause Hu Htool e l. rewrite (decide_to_reply _ _ d _ _ _ _ _ _ _ _ r) by done. fold e l.
  destruct (confirm_ok l) eqn:Hconf.
  - destruct (answer_run id (answer_status r e now) e l w r Hu Hf Hp) as (w' & Ha & Hrest).
    exists w'. split; [|exact Hrest]. apply transaction_ret. unfold confirm_reply.
    erewrite py_bind_run by (rewrite py_guard_run by exact Hconf; reflexivity). by rewrite (py_bind_run _ _ _ _ _ Ha).
  - unfold transaction, confirm_reply, py_bind, py_guard. rewrite Hconf. by destruct w.
Qed.

(** The responses to an approval of [c]: one to each call, in order; [c] is approved if it is in time,
    nothing else is. *)
Lemma answer_replies_of r c now : let l := answer_replies r (effective_choice r Approve now) (Some c) now in
  rs_call <$> l = tool_call_id <$> intercepted r ∧
  (∀ x, x ∈ l → rs_choice x = Approve ↔ (now < expires_at r)%Z ∧ rs_call x = c).
Proof.
  cbv zeta. unfold answer_replies, effective_choice, responses. split; [by rewrite <-list_fmap_compose|].
  intros x (i & -> & Hi)%list_elem_of_fmap. cbn [rs_choice rs_call].
  destruct (Z.leb_spec (expires_at r) now); cbn; [split; [done|lia]|].
  rewrite (bool_decide_true (Approve = Approve)) by done. cbn [andb].
  destruct (decide (c = tool_call_id i)) as [->|Hne]; [by rewrite bool_decide_true|].
  rewrite bool_decide_false by congruence. split; [done|]. intros [_ <-]. done.
Qed.

Lemma approved_head r : approved_call r = head (approved_calls r).
Proof. unfold approved_call, approved_calls, approved_in. by destruct (filter _ _). Qed.

(** An answer that is given again *)
Lemma decide_again id decision d principal channel target app tool now agent w r :
  the_choice decision = Some d → find_approval id (db w) = Some r → may_answer r principal channel target app agent →
  a_status r ≠ Pending → a_decision r = Some d → approved_call r = tool →
  decide_once confirm_ok id decision principal channel target app tool now agent w = (Ret (r, false), w).
Proof.
  intros Hd Hf (Hprin & (route & Hroute & Hto) & Hwho) Hp Hdec Hcall.
  unfold decide_once. rewrite (py_some_run _ _ _ d) by done. apply transaction_ret.
  rewrite (py_bind_run get_db _ w (db w) w) by done. rewrite (py_some_run _ _ _ r) by done.
  rewrite py_guard_run by (by apply eqs_true). rewrite (py_some_run _ _ _ route) by done.
  rewrite py_guard_run by (by apply eqs_true). rewrite py_guard_run by (by apply bool_decide_eq_true).
  rewrite (bool_decide_false (a_status r = Pending)) by done. cbn [negb].
  by rewrite py_guard_run by (by apply bool_decide_eq_true).
Qed.

(** C11: the person who was asked approves one of the calls that wait, while the pause is current.  If the
    agent core takes the responses that are made of it, they are stored: in time, just this call is approved, and
    the same answer given again returns the stored decision and changes nothing; an answer that comes
    too late rejects every call.  If it refuses them, [decide] raises and nothing changes. *)
Theorem decide_correct t n (ops : list op) r id c principal channel target app agent now :
  let w := performs ops (opened t n) in
  r ∈ approvals (db w) → approval_id r = id → a_status r = Pending → may_answer r principal channel target app agent →
  c ∈ tool_call_id <$> intercepted r → current_pause r (db w) = true →
  ∃ l, rs_call <$> l = tool_call_id <$> intercepted r ∧
    (∀ x, x ∈ l → rs_choice x = Approve ↔ (now < expires_at r)%Z ∧ rs_call x = c) ∧
    if confirm_ok l then
      ∃ row w', decide_once confirm_ok id "approve" principal channel target app (Some c) now agent w = (Ret (row, true), w') ∧
        about row = about r ∧ reply row = Some l ∧ row ∈ approvals (db w') ∧
        (∀ r', r' ∈ approvals (db w) → r' ≠ r → r' ∈ approvals (db w')) ∧
        if Z.ltb now (expires_at r) then
          a_status row = Approved ∧ approved_calls row = [c] ∧
          ∀ later, decide_once confirm_ok id "approve" principal channel target app (Some c) later agent w' = (Ret (row, false), w')
        else a_status row = Expired ∧ approved_calls row = []
    else decide_once confirm_ok id "approve" principal channel target app (Some c) now agent w = (Exc PyValueError, w).
Proof.
  intros w Hr Hid Hp Hwho Hc Hpause.
  destruct (approvals_ok_wf ops t n r Hr) as (Hu & _ & Hnd & _). fold w in Hu.
  set (l := answer_replies r (effective_choice r Approve now) (Some c) now). exists l.
  destruct (answer_replies_of r c now) as [Hl1 Hl2]. split; [exact Hl1|]. split; [exact Hl2|].
  pose proof (decide_run id "approve" Approve principal channel target app (Some c) now agent w r) as Hrun.
  cbv zeta in Hrun. fold l in Hrun. destruct (confirm_ok l); [|apply Hrun; try done; [by apply find_of_row|by apply approved_waits]].
  destruct Hrun as (w' & Hrun & Hf & _ & Hrest); try done; [by apply find_of_row|by apply approved_waits|].
  eexists _, w'. split; [exact Hrun|]. split; [by unfold answer_status; destruct (Z.leb _ _)|]. split; [done|].
  split; [by destruct (find_approval_inv _ _ _ Hf)|].
  split; [done|]. unfold l, answer_status, effective_choice, answer_replies in *. rewrite Z.ltb_antisym.
  destruct (Z.leb (expires_at r) now); cbn [negb].
  - split; [done|]. apply rejecting.
  - rewrite !bool_decide_true in * by done. split; [done|].
    assert (approved_in (responses (intercepted r) Approve EmptyString (Some c)) = [c]) as E by by apply approved_exactly.
    split; [exact E|]. intros later. eapply decide_again; [done|exact Hf|done|done|done|].
    rewrite approved_head. unfold approved_calls. cbn [reply set_answer default]. unfold Datatypes.id. by rewrite E.
Qed.

(** An approval that comes too late is stored as a rejection, so that the same answer given again, in
    [decide]'s words an identical replay, is a conflict. *)
Lemma late_answer_conflicts t n (ops : list op) r c principal channel target app agent now later :
  let w := performs ops (opened t n) in
  r ∈ approvals (db w) → a_status r = Pending → may_answer r principal channel target app agent →
  c ∈ tool_call_id <$> intercepted r → current_pause r (db w) = true → (expires_at r ≤ now)%Z →
  confirm_ok (responses (intercepted r) Reject EXPIRED_FEEDBACK None) = true →
  ∃ row w', decide_once confirm_ok (approval_id r) "approve" principal channel target app (Some c) now agent w = (Ret (row, true), w') ∧
    decide_once confirm_ok (approval_id r) "approve" principal channel target app (Some c) later agent w' = (Exc CONFLICT, w').
Proof.
  intros w Hr Hp Hwho Hc Hpause Hlate Hconf. destruct (approvals_ok_wf ops t n r Hr) as (Hu & _). fold w in Hu.
  pose proof (decide_run (approval_id r) "approve" Approve principal channel target app (Some c) now agent w r) as Hrun.
  cbv zeta in Hrun. unfold answer_replies, effective_choice, answer_status in Hrun. rewrite (proj2 (Z.leb_le _ _) Hlate) in Hrun.
  rewrite (bool_decide_false (Reject = Approve)) in Hrun by done. rewrite Hconf in Hrun.
  destruct Hrun as (w' & Hrun & Hf & _ & _); try done; [by apply find_of_row|by apply approved_waits|]. eexists _, w'. split; [exact Hrun|].
  destruct Hwho as (Hprin & (route & Hroute & Hto) & Hwho).
  unfold decide_once. rewrite (py_some_run _ _ _ Approve) by done.
  match goal with |- transaction ?m w' = _ => assert (m w' = (Exc CONFLICT, w')) as E end.
  2: { unfold transaction. rewrite E. by destruct w'. }
  rewrite (py_bind_run get_db _ w' (db w') w') by done. rewrite (py_some_run _ _ _ _ w' Hf). cbn [a_principal_ref a_route set_answer].
  rewrite py_guard_run by (by apply eqs_true). rewrite (py_some_run _ _ _ route) by done.
  rewrite py_guard_run by (by apply eqs_true). by rewrite py_guard_run by (by apply bool_decide_eq_true).
Qed.

(** anyone but the person who was asked, at the agent and on the route of the question, is
    refused, whatever the state of the approval, and nothing changes; so is everyone for
    an approval without a route. *)
Theorem strangers_refused id decision principal channel target app tool now agent w r :
  decision ∈ ["approve"; "reject"] → find_approval id (db w) = Some r →
  ¬ may_answer r principal channel target app agent →
  decide_once confirm_ok id decision principal channel target app tool now agent w = (Exc FORBIDDEN, w).
Proof.
  intros Hd Hf Hno. assert (∃ d, the_choice decision = Some d) as [d Hc].
  { rewrite !elem_of_cons, elem_of_nil in Hd. destruct Hd as [->|[->|[]]]; by eexists. }
  unfold decide_once. rewrite (py_some_run _ _ _ d) by done.
  match goal with |- transaction ?m w = _ => assert (m w = (Exc FORBIDDEN, w)) as E end.
  2: { unfold transaction. rewrite E. by destruct w. }
  rewrite (py_bind_run get_db _ w (db w) w) by done. rewrite (py_some_run _ _ _ r) by done.
  destruct (a_principal_ref r =s principal) eqn:Ep; [|by unfold py_bind]. rewrite py_guard_run by done.
  destruct (a_route r) as [route|] eqn:Er; [|by unfold py_bind]. rewrite (py_some_run _ _ _ route) by done.
  match goal with |- py_bind (py_guard ?b _) _ _ = _ => destruct b eqn:Ew end; [|by unfold py_bind]. rewrite py_guard_run by done.
  match goal with |- py_bind (py_guard ?b _) _ _ = _ => destruct b eqn:Et end; [|by unfold py_bind].
  destruct Hno. apply eqs_true in Ep, Ew. apply bool_decide_eq_true in Et. split_and!; [done| |done]. by exists route.
Qed.
End props.
