(* ===== verification/ApprovalReplies.v ===== *)
(** * Approvals by chat message

    Source: [IMPermissionReplies.handle] ([server/jiuwenmate/permission_replies.py]) and
    [decide_permission_approval] of [AgentManager] ([agent_manager.py]), which it calls.

    A handler is a call of [handle] for one message, split at its awaits: the calls of the
    file of approvals and the question to the store of shared content.  Handlers are
    interleaved with each other and with every other call on the file.  [decided] records the
    calls of [decide_once] that handlers have made.

    A command is what the regular expressions have found in the text: the word, in lower case,
    spelled in UTF-8, the approval and the call.  Not modelled: these expressions, the texts that
    are sent back, whose failure is ignored, and waking the scheduler, which changes
    nothing in the file. *)

From S2P Require Import Prelude OrderedDict PyJson Tables MateModels RequestStore DeliveryStore Recovery StoreInv ApprovalStore ApprovalInv ApprovalProps.

(** [_COMMAND.fullmatch(text)] *)
Record command := { c_word : string; c_id : option string; c_call : option string }.

Definition decision_of (c : command) : string :=
  if bool_decide (c_word c ∈ ["approve"; "批准"; "同意"]) then "approve" else "reject".

(** An ordinary agreement is no command. *)
Definition command_of (m : option command) : option command :=
  match m with
  | Some c => if (c_word c =s "同意") && bool_decide (c_id c = None) then None else Some c
  | None => None
  end.

(** [replay or match.group(2)] *)
Definition named_id (replay : option string) (c : command) : option string :=
  match replay with Some id => if str_true id then Some id else c_id c | None => c_id c end.

Section replies.
Context {I : Type} `{!RequestInputs I}.
Context (uuid : nat → string) (notice_text : string → string → option string → string).
Context (token : nat → string) (confirm_ok : list response → bool).

(** Where a handler is: before a call of the file, with the approval that it has read *)
Inductive handler_point :=
| ForRoute (key : ReplyKey) (m : option command)
| Replay (key : ReplyKey) (c : command) (waiting : list ApprovalRow)
| BindNothing (key : ReplyKey)
| Get (key : ReplyKey) (c : command) (id : string)
| Bind (key : ReplyKey) (c : command) (a : ApprovalRow)
| Native (key : ReplyKey) (a : ApprovalRow) (decision : string) (tool : option string)
| ForNative (key : ReplyKey) (a : ApprovalRow) (decision : string) (tool : option string) (native : option ApprovalRow)
| DecideOnce (key : ReplyKey) (a : ApprovalRow) (decision : string) (tool : option string).

(** A call of [decide_once] *)
Record decision_made := { dm_key : ReplyKey; dm_id : string; dm_decision : string; dm_call : option string }.

Record Chat := mk_chat { file : World (Host I); handlers : gmap nat handler_point; decided : list decision_made }.

Definition set_file w s := mk_chat w (handlers s) (decided s).
Definition move (k : nat) (p : handler_point) s := mk_chat (file s) (<[k := p]> (handlers s)) (decided s).
Definition finish (k : nat) s := mk_chat (file s) (delete k (handlers s)) (decided s).
Definition record_decision (d : decision_made) s := mk_chat (file s) (handlers s) (decided s ++ [d]).

(** [belongs] *)
Definition belongs (key : ReplyKey) (a : ApprovalRow) : bool :=
  bool_decide (a_namespace_id a = rk_namespace_id key ∧ approver a = rk_agent_id key ∧
               a_principal_ref a = rk_principal_ref key) &&
  match a_route a with
  | Some route => bool_decide ((rt_channel route, rt_app_id route, rt_target_id route)
                               = (rk_channel key, Some (rk_app_id key), rk_target_id key))
  | None => false
  end.

(** The call that an approval without one means *)
Definition chosen_call (c : command) (a : ApprovalRow) : option string :=
  match c_call c, intercepted a with
  | None, [i] => if decision_of c =s "approve" then Some (tool_call_id i) else None
  | call, _ => call
  end.

(** [handle] after its message has been bound to [a] *)
Definition after_bind (k : nat) (key : ReplyKey) (c : command) (a : ApprovalRow) (bound : option string) (s : Chat) : Chat :=
  if negb (bool_decide (bound = Some (approval_id a))) then finish k s
  else if negb (bool_decide (a_status a = Pending)) then finish k s
  else
    let call := chosen_call c a in
    if (decision_of c =s "approve") && negb (bool_decide (call ∈ Some ∘ tool_call_id <$> intercepted a))
       || (decision_of c =s "reject") && negb (bool_decide (call = None)) then finish k s
    else move k (Native key a (decision_of c) call) s.

(** A handler from one await to the next; [shared] is whether the store of shared content knows
    the approval. *)
Definition handler_step (k : nat) (shared : bool) (now : Z) (s : Chat) : Chat :=
  match handlers s !! k with
  | None => s
  | Some (ForRoute key m) =>
      let waiting := for_route (rk_namespace_id key) (rk_agent_id key) (Some (rk_principal_ref key)) (rk_channel key)
                       (rk_app_id key) (rk_target_id key) (db (file s)) in
      match command_of m with
      | Some c => move k (Replay key c waiting) s
      | None => finish k s
      end
  | Some (Replay key c waiting) =>
      match reply_approval key None (file s) with
      | (Ret replay, w) =>
          let s := set_file w s in
          if bool_decide (replay = Some EmptyString) then finish k s
          else match named_id replay c with
               | Some id => move k (Get key c id) s
               | None => match waiting with
                         | [a] => move k (Bind key c a) s
                         | _ => move k (BindNothing key) s
                         end
               end
      | (Exc _, w) => finish k (set_file w s)
      end
  | Some (BindNothing key) => finish k (set_file (reply_approval key (Some EmptyString) (file s)).2 s)
  | Some (Get key c id) =>
      match find_approval id (db (file s)) with
      | Some a => if belongs key a then move k (Bind key c a) s else finish k s
      | None => finish k s
      end
  | Some (Bind key c a) =>
      match reply_approval key (Some (approval_id a)) (file s) with
      | (Ret bound, w) => after_bind k key c a bound (set_file w s)
      | (Exc _, w) => finish k (set_file w s)
      end
  | Some (Native key a decision tool) =>
      move k (ForNative key a decision tool (find_approval (approval_id a) (db (file s)))) s
  | Some (ForNative key a decision tool native) =>
      if match native with Some r => existsb is_sharing (intercepted r) | None => false end || shared then finish k s
      else move k (DecideOnce key a decision tool) s
  | Some (DecideOnce key a decision tool) =>
      finish k (record_decision {| dm_key := key; dm_id := approval_id a; dm_decision := decision; dm_call := tool |}
        (set_file (perform uuid notice_text token confirm_ok
           (OpDecide (approval_id a) decision (rk_principal_ref key) (rk_channel key) (rk_target_id key)
              (Some (rk_app_id key)) tool now (Some (rk_agent_id key))) (file s)) s))
  end.

Inductive chat_event :=
| Message (handler : nat) (key : ReplyKey) (m : option command)
| Continue (handler : nat) (shared : bool) (now : Z)
| Cancelled (handler : nat)
| FileCall (o : approval_op (I := I)).

Definition chat (e : chat_event) (s : Chat) : Chat :=
  match e with
  | Message k key m => match handlers s !! k with None => move k (ForRoute key m) s | Some _ => s end
  | Continue k shared now => handler_step k shared now s
  | Cancelled k => finish k s
  | FileCall o => set_file (perform uuid notice_text token confirm_ok o (file s)) s
  end.
Definition chats (es : list chat_event) (s : Chat) : Chat := foldl (λ s e, chat e s) s es.
End replies.
Arguments Chat I : clear implicits.
Arguments chat_event I : clear implicits.
