(* ===== verification/ApprovalChat.v ===== *)
(** * Approvals by chat message: theorems

    A message decides at most the approval that it was bound to first, however often it is
    delivered, and no message decides what the owner of shared content has to. *)

From S2P Require Import Prelude OrderedDict PyJson Tables MateModels RequestStore DeliveryStore Recovery StoreInv ApprovalStore ApprovalInv ApprovalProps ApprovalReplies.

Section chat.
Context {I : Type} `{!RequestInputs I}.
Context (uuid : nat → string) (notice_text : string → string → option string → string).
Context (token : nat → string) (confirm_ok : list response → bool).
Implicit Types (h : Host I) (w : World (Host I)) (r a : ApprovalRow) (s : Chat I).

#[local] Abbreviation perform := (perform uuid notice_text token confirm_ok).
#[local] Abbreviation chat := (chat uuid notice_text token confirm_ok).
#[local] Abbreviation chats := (chats uuid notice_text token confirm_ok).

(** ** Bindings stay *)

Definition replies_are (l : list ReplyRow) h : Prop := reply_messages h = l.

#[local] Hint Extern 2 (db_keeps (replies_are _) (with_db _)) => (by apply db_keeps_with; intros ? ?; assumption) : db_keeps.
#[local] Hint Extern 2 (db_keeps (replies_are _) (update_approvals _ _)) => (by apply db_keeps_with; intros ? ?; assumption) : db_keeps.

Lemma keeps_replies l o : (∀ key id, o ≠ OpBind key id) → ∀ w, replies_are l (db w) → replies_are l (db (perform o w)).
Proof.
  intros Hno. assert (∀ row st d l', db_keeps (replies_are l) (answer (I := I) row st d l')) as Ha.
  { intros. unfold answer. eauto 10 with db_keeps. }
  assert (∀ l', db_keeps (replies_are l) (confirm_reply (I := I) confirm_ok l')) as Hc.
  { intros. unfold confirm_reply. auto with db_keeps. }
  destruct o as [o| | | | | | |key id]; cbn [ApprovalInv.perform].
  - intros w Hw. unfold host_call. by destruct (tables_of (db w)).
  - change (db_keeps (replies_are l) (create (I := I) token rec ev now recovered)). unfold create. cbn zeta. eauto 20 with db_keeps.
  - change (db_keeps (replies_are l) (reject_unrouted (I := I) confirm_ok id)). unfold reject_unrouted. eauto 20 with db_keeps.
  - change (db_keeps (replies_are l) (decide_once (I := I) confirm_ok id decision principal channel target app tool now agent)).
    unfold decide_once, _require_current_pause. cbn zeta. eauto 30 with db_keeps.
  - change (db_keeps (replies_are l) (expire_pending (I := I) confirm_ok now)). unfold expire_pending.
    assert (∀ rows, db_keeps (replies_are l) (expire_rows (I := I) confirm_ok rows)) by (induction rows; simpl; eauto 10 with db_keeps).
    eauto 10 with db_keeps.
  - change (db_keeps (replies_are l) (decide_sharing (I := I) confirm_ok id decisions now)).
    unfold decide_sharing, _require_current_pause. cbn zeta. eauto 30 with db_keeps.
  - change (db_keeps (replies_are l) (consume (I := I) id)). unfold consume. auto with db_keeps.
  - by destruct (Hno key id).
Qed.

Lemma bind_or_not (o : approval_op (I := I)) : (∃ key id, o = OpBind key id) ∨ ∀ key id, o ≠ OpBind key id.
Proof. destruct o; eauto. Qed.

(** The message is bound to the approval. *)
Definition bound (key : ReplyKey) (id : string) h : Prop :=
  ∃ row, row ∈ reply_messages h ∧ reply_key row = key ∧ bound_id row = id.
(** The approval is in the file, whatever has become of it. *)
Definition known a h : Prop := ∃ r, r ∈ approvals h ∧ about r = about a.

(** What a call on the file leaves true *)
Definition extends h h' : Prop :=
  (∀ key id, bound key id h → bound key id h') ∧ (∀ a, known a h → known a h').

Definition file_ok h : Prop := approvals_ok (λ _ _, True) [] h ∧ unique reply_key (reply_messages h).

Lemma bind_run key id w :
  reply_approval key id w =
    let t := match id with
             | Some id => insert_or_ignore reply_clash {| reply_key := key; bound_id := id |} (reply_messages (db w))
             | None => reply_messages (db w)
             end in
    (Ret (bound_id <$> fetchone (λ row, bool_decide (reply_key row = key)) t), mk_world (with_replies t (db w)) (drawn w)).
Proof. destruct id; [done|]. by destruct w as [[? ? ?] ?]. Qed.

Lemma perform_ok o w : file_ok (db w) → file_ok (db (perform o w)) ∧ extends (db w) (db (perform o w)).
Proof.
  intros [Hok Hu].
  assert (approvals_ok (λ _ _, True) [] (db (perform o w))) as Hok' by by apply keeps_op.
  assert (approvals_ok (λ _ _, True) (approvals (db w)) (db (perform o w))) as [_ _ _ Hb].
  { apply keeps_op; [done|]. by eapply ok_start. }
  assert (∀ a, known a (db w) → known a (db (perform o w))) as Hk.
  { intros a (r & Hr & Ha). destruct (evolves_row _ _ _ _ _ Hb Hr) as (r' & Hr' & Hs). exists r'.
    split; [done|]. rewrite <- Ha. by eapply changes_about. }
  assert (unique reply_key (reply_messages (db (perform o w))) ∧
    ∀ row, row ∈ reply_messages (db w) → row ∈ reply_messages (db (perform o w))) as [Hu' Hrows].
  { destruct (bind_or_not o) as [(key & id & ->)|Hno].
    2: { pose proof (keeps_replies (reply_messages (db w)) o Hno w eq_refl) as E. unfold replies_are in E. by rewrite E. }
    cbn [ApprovalInv.perform]. rewrite bind_run. cbn. destruct id as [id|]; [|done]. split.
    - apply insert_or_ignore_unique; [|done]. intros r' E. by apply bool_decide_eq_true.
    - intros row Hrow. destruct (insert_or_ignore_cases reply_clash {| reply_key := key; bound_id := id |} (reply_messages (db w)))
        as [[-> _]|[-> _]%insert_row_some]; [done|]. apply elem_of_app. by left. }
  split; [done|]. split; [|done]. intros key id (row & Hrow & Hr). exists row. auto.
Qed.

(** ** The invariant *)

(** What a handler knows where it is *)
Definition knows (p : handler_point) h : Prop :=
  match p with
  | ForRoute _ _ | BindNothing _ | Get _ _ _ => True
  | Replay _ _ waiting => ∀ a, a ∈ waiting → known a h
  | Bind _ _ a => known a h
  | Native key a _ _ => known a h ∧ bound key (approval_id a) h
  | ForNative key a _ _ native => known a h ∧ bound key (approval_id a) h ∧ ∃ r, native = Some r ∧ about r = about a
  | DecideOnce key a _ _ => known a h ∧ bound key (approval_id a) h ∧ existsb is_sharing (intercepted a) = false
  end.

(** What holds of a decision that was made *)
Definition made_ok (d : decision_made) h : Prop :=
  bound (dm_key d) (dm_id d) h ∧
  ∃ r, r ∈ approvals h ∧ approval_id r = dm_id d ∧ existsb is_sharing (intercepted r) = false.

Record chat_ok s : Prop := mk_chat_ok {
  co_file : file_ok (db (file s));
  co_handlers : ∀ k p, handlers s !! k = Some p → knows p (db (file s));
  co_decided : Forall (λ d, made_ok d (db (file s))) (decided s);
}.

Lemma extends_refl h : extends h h.
Proof. done. Qed.

Lemma knows_extends p h h' : extends h h' → knows p h → knows p h'.
Proof.
  intros [Hb Hk]. destruct p; cbn; try done; try (by intros H; auto); try (by intros (?&?); auto).
  - intros (?&?&?). auto.
  - intros (?&?&?). auto.
Qed.

Lemma made_extends d h h' : extends h h' → made_ok d h → made_ok d h'.
Proof.
  intros [Hb Hk] [Hd (r & Hr & Hid & Hs)]. split; [auto|].
  destruct (Hk r) as (r' & Hr' & Ha); [by exists r|]. exists r'. unfold about in Ha.
  injection Ha as E1 _ _ _ _ _ _ _ _ E10 _ _. split; [done|]. by rewrite E1, E10.
Qed.

(** The file goes on, and one handler with it. *)
Lemma file_moves s w : file_ok (db w) → extends (db (file s)) (db w) → chat_ok s → chat_ok (set_file w s).
Proof.
  intros Hf He [_ Hh Hd]. split; [done| |]; cbn.
  - intros k p Hp. by eapply knows_extends, Hh.
  - eapply Forall_impl; [done|]. intros d. by apply made_extends.
Qed.

Lemma move_ok k p s : chat_ok s → knows p (db (file s)) → chat_ok (move k p s).
Proof.
  intros [Hf Hh Hd] Hp. split; [done| |done]. cbn. intros k' p' [[<- <-]|[_ H]]%lookup_insert_Some; [done|by eapply Hh].
Qed.

Lemma finish_ok k s : chat_ok s → chat_ok (finish k s).
Proof. intros [Hf Hh Hd]. split; [done| |done]. cbn. intros k' p' [_ H]%lookup_delete_Some. by eapply Hh. Qed.

Lemma decision_ok d s : chat_ok s → made_ok d (db (file s)) → chat_ok (record_decision d s).
Proof. intros [Hf Hh Hd] H. split; [done|done|]. apply Forall_app. split; [done|by constructor]. Qed.

Lemma call_ok o s : chat_ok s → chat_ok (set_file (perform o (file s)) s).
Proof. intros Hs. destruct (perform_ok o (file s) (co_file s Hs)). by apply file_moves. Qed.

Lemma known_row a h : a ∈ approvals h → known a h.
Proof. by exists a. Qed.

Lemma bind_ok key id s : chat_ok s → chat_ok (set_file (reply_approval key id (file s)).2 s).
Proof. exact (call_ok (OpBind key id) s). Qed.

(** A message that is bound to an approval after it has been bound is bound to it. *)
Lemma bind_bound key id w : (reply_approval key (Some id) w).1 = Ret (Some id) → bound key id (db (reply_approval key (Some id) w).2).
Proof.
  rewrite bind_run. cbn. intros [= (row & Hrow & Hid)%fmap_Some]. apply fetchone_dec in Hrow as [Hkey Hin].
  by exists row.
Qed.

Lemma for_route_known ns agent principal channel app target h a :
  a ∈ for_route ns agent principal channel app target h → known a h.
Proof.
  unfold for_route. intros [_ Ha]%elem_of_rows. rewrite py_sorted_perm in Ha. apply elem_of_rows in Ha as [_ Ha]. by exists a.
Qed.

Lemma after_bind_ok k key c a b s : chat_ok s → known a (db (file s)) → (b = Some (approval_id a) → bound key (approval_id a) (db (file s))) →
  chat_ok (after_bind k key c a b s).
Proof.
  intros Hs Ha Hb. unfold after_bind. destruct (bool_decide (b = Some (approval_id a))) eqn:E; cbn [negb]; [|by apply finish_ok].
  apply bool_decide_eq_true in E. destruct (negb _); [by apply finish_ok|]. destruct (_ || _); [by apply finish_ok|].
  apply move_ok; [done|]. split; auto.
Qed.

Lemma handler_step_ok k shared now s : chat_ok s →
  chat_ok (handler_step uuid notice_text token confirm_ok k shared now s).
Proof.
  intros Hs. unfold handler_step. destruct (handlers s !! k) as [p|] eqn:Hk; [|done]. apply (co_handlers s Hs) in Hk as Hp.
  destruct p as [key m|key c waiting|key|key c id|key c a|key a decision tool|key a decision tool native|key a decision tool];
    cbn [knows] in Hp.
  - destruct (command_of m); [|by apply finish_ok]. apply move_ok; [done|]. intros a. apply for_route_known.
  - pose proof (bind_ok key None s Hs) as Hb. rewrite bind_run in *. cbn zeta iota beta in *.
    destruct (bool_decide _); [by apply finish_ok|]. destruct (named_id _ c) as [id|]; [by apply move_ok|].
    destruct waiting as [|a [|a' l]]; try (by apply move_ok). apply move_ok; [done|]. cbn.
    destruct (Hp a) as (r & Hr & Ha); [by left|]. by exists r.
  - by apply finish_ok, bind_ok.
  - destruct (find_approval id (db (file s))) as [a|] eqn:Ef; [|by apply finish_ok].
    destruct (belongs key a); [|by apply finish_ok]. apply move_ok; [done|]. apply known_row. by apply find_approval_inv in Ef as [? _].
  - pose proof (bind_ok key (Some (approval_id a)) s Hs) as Hb. pose proof (bind_bound key (approval_id a) (file s)) as Hbound.
    destruct (perform_ok (OpBind key (Some (approval_id a))) (file s) (co_file s Hs)) as [_ [_ He]]. cbn [ApprovalInv.perform] in He.
    destruct (reply_approval key (Some (approval_id a)) (file s)) as [[b|e] w]; [|by apply finish_ok].
    apply after_bind_ok; [done|by apply He|]. intros ->. by apply Hbound.
  - destruct Hp as [Ha Hb]. apply move_ok; [done|]. split; [done|]. split; [done|]. destruct Ha as (r & Hr & Ha). exists r.
    split; [|done]. apply find_of_row; [apply (co_file s Hs)|done|]. unfold about in Ha. congruence.
  - destruct Hp as (Ha & Hb & r & -> & Er). destruct (existsb is_sharing (intercepted r)) eqn:Esh; cbn [orb]; [by apply finish_ok|].
    destruct shared; [by apply finish_ok|]. apply move_ok; [done|]. split; [done|]. split; [done|].
    assert (intercepted a = intercepted r) as -> by (unfold about in Er; congruence). done.
  - destruct Hp as (Ha & Hb & Hsh). apply finish_ok, decision_ok; [by apply call_ok|].
    match goal with |- made_ok _ (db (file (set_file (perform ?o _) _))) => destruct (perform_ok o (file s) (co_file s Hs)) as [_ He] end.
    eapply made_extends; [exact He|]. split; [done|]. destruct Ha as (r & Hr & Ha). exists r. unfold about in Ha.
    injection Ha as E1 _ _ _ _ _ _ _ _ E10 _ _. split; [done|]. by rewrite E1, E10.
Qed.

Lemma chat_step_ok e s : chat_ok s → chat_ok (chat e s).
Proof.
  intros Hs. destruct e as [k key m|k shared now|k|o]; cbn [ApprovalReplies.chat].
  - destruct (handlers s !! k); [done|]. by apply move_ok.
  - by apply handler_step_ok.
  - by apply finish_ok.
  - by apply call_ok.
Qed.

Lemma chats_ok es s : chat_ok s → chat_ok (chats es s).
Proof. revert s. induction es as [|e es IH]; intros s Hs; [done|]. by apply IH, chat_step_ok. Qed.

(** A file without approvals and no message *)
Definition quiet (t : option (DB I)) (n : nat) : Chat I := mk_chat (opened t n) ∅ [].

Lemma quiet_chat_ok t n : chat_ok (quiet t n).
Proof. split; [split; [apply opened_ok|constructor]|done|constructor]. Qed.

Lemma bound_unique key id id' h : unique reply_key (reply_messages h) → bound key id h → bound key id' h → id = id'.
Proof.
  intros Hu (row & Hr & Hk & <-) (row' & Hr' & Hk' & <-). f_equal. eapply (unique_eq reply_key); [done|done|done|congruence].
Qed.

(** C12: however messages are handled, twice, at once, cancelled in between, and whatever else the
    file serves, the decisions made for one message of one person on one route are all of
    one approval, the one that the message is bound to; and no message decides an
    approval with a call of business sharing, which is its owner's. *)
Theorem message_decides_one t n es d : let s := chats es (quiet t n) in
  d ∈ decided s →
  (∀ d', d' ∈ decided s → dm_key d' = dm_key d → dm_id d' = dm_id d) ∧
  (∀ row, row ∈ reply_messages (db (file s)) → reply_key row = dm_key d → bound_id row = dm_id d) ∧
  ∃ r, r ∈ approvals (db (file s)) ∧ approval_id r = dm_id d ∧ existsb is_sharing (intercepted r) = false.
Proof.
  intros s Hd. destruct (chats_ok es _ (quiet_chat_ok t n)) as [[_ Hu] _ Hall]. fold s in Hu, Hall.
  rewrite Forall_forall in Hall. destruct (Hall d Hd) as [Hb Hr]. split_and!; [| |done].
  - intros d' Hd' Hk. destruct (Hall d' Hd') as [Hb' _]. rewrite Hk in Hb'. by eapply bound_unique.
  - intros row Hrow Hk. eapply bound_unique; [done| |exact Hb]. by exists row.
Qed.
End chat.
