(* ===== verification/ApprovalRun.v ===== *)
(** * A run of the approvals

    The colleague of [StoreRun] pauses for two tool calls; the person who asked approves one of
    them, through the file and with a chat message that is delivered twice. *)

From S2P Require Import Prelude OrderedDict PyJson Tables MateModels RequestStore DeliveryStore Recovery StoreInv StoreRun ApprovalStore ApprovalInv ApprovalProps ApprovalReplies ApprovalChat.

Definition app_token (n : nat) : string := "app_" +:+ ticks n.
Definition takes (l : list response) : bool := true.

#[local] Abbreviation host_op := (approval_op (I := string)) (only parsing).
#[local] Abbreviation performing := (performs ticks plain_notice app_token takes) (only parsing).
#[local] Abbreviation conversing := (chats ticks plain_notice app_token takes) (only parsing).

(** ** The parts *)

Definition shell : InterceptedCall := {| tool_call_id := "call1"; tool_name := "bash"; approval_ref := None; call_rest := "ls" |}.
Definition writes : InterceptedCall :=
  {| tool_call_id := "call2"; tool_name := "write_file"; approval_ref := None; call_rest := "a.txt" |}.
Definition pausing : AgentEvent := the_event "ev1" 1 (EXECUTION_PAUSED [] "awaiting_confirmation" None [shell; writes]).

Definition paused_ops : list host_op :=
  map OpHost started ++ [OpHost (OpEvents [pausing] 4); OpCreate asked_record pausing 5 false].
Definition pending_row : ApprovalRow :=
  new_approval (app_token 3) asked_record pausing [shell; writes] ("feishu:user:u1", Some chat_route, "bot") 5.
Definition approves (now : Z) : host_op :=
  OpDecide (app_token 3) "approve" "feishu:user:u1" "feishu" "oc_1" (Some "app") (Some "call1") now None.
Definition approved_row : ApprovalRow :=
  set_answer Approved Approve (responses [shell; writes] Approve EmptyString (Some "call1")) pending_row.

#[local] Abbreviation from_empty ops := (performing ops (opened (Some empty_db) 0)) (only parsing).

Example run_pauses : approvals (db (from_empty paused_ops)) = [pending_row].
Proof. by vm_compute. Qed.

Example run_approves : approvals (db (from_empty (paused_ops ++ [approves 6]))) = [approved_row].
Proof. by vm_compute. Qed.

Lemma pending_in_file : pending_row ∈ approvals (db (from_empty paused_ops)).
Proof. rewrite run_pauses. by left. Qed.
Lemma approved_in_file : approved_row ∈ approvals (db (from_empty (paused_ops ++ [approves 6]))).
Proof. rewrite run_approves. by left. Qed.

(** A message of the person who asked, answering in the chat *)
Definition reply_of (id : string) : ReplyKey :=
  {| rk_namespace_id := "ns"; rk_agent_id := "bot"; rk_channel := "feishu"; rk_app_id := "app"; rk_target_id := "oc_1";
     rk_principal_ref := "feishu:user:u1"; rk_message_id := id |}.
Definition says_yes : command := {| c_word := "approve"; c_id := None; c_call := Some "call1" |}.
Definition continues (k : nat) (n : nat) : list (chat_event string) := repeat (Continue k false 6) n.

(** The message is delivered twice, and the second handler overtakes the first. *)
Definition twice : list (chat_event string) :=
  [Message 0 (reply_of "om_1") (Some says_yes); Message 1 (reply_of "om_1") (Some says_yes)] ++
  continues 0 3 ++ continues 1 7 ++ continues 0 3.
#[local] Abbreviation chatted := (conversing (map FileCall paused_ops ++ twice) (quiet (Some empty_db) 0)) (only parsing).
Definition said_yes : decision_made :=
  {| dm_key := reply_of "om_1"; dm_id := app_token 3; dm_decision := "approve"; dm_call := Some "call1" |}.

Example run_chats : decided chatted = [said_yes; said_yes] ∧ approvals (db (file chatted)) = [approved_row].
Proof. by vm_compute. Qed.

(** ** The theorems at the run *)

Lemma approval_needs_consent_witness :
  consented ticks plain_notice app_token takes (opened (Some empty_db) 0) (paused_ops ++ [approves 6]) approved_row "call1".
Proof.
  apply (approval_needs_consent ticks plain_notice app_token takes (Some empty_db) 0 (paused_ops ++ [approves 6])).
  - exact approved_in_file.
  - assert (approved_calls approved_row = ["call1"]) as -> by by vm_compute. by left.
Defined.

Lemma approval_answered_once_witness : ∃ r', r' ∈ approvals (db (performing [approves 9; OpExpire 2000000000; OpConsume (app_token 3)]
    (from_empty (paused_ops ++ [approves 6])))) ∧ a_status r' = Consumed ∧ answered_as approved_row r'.
Proof.
  set (later := [approves 9; OpExpire 2000000000; OpConsume (app_token 3)]).
  destruct (approval_answered_once ticks plain_notice app_token takes (Some empty_db) 0 (paused_ops ++ [approves 6]) later approved_row)
    as (r' & Hr' & Ha).
  - exact approved_in_file.
  - exists r'. split; [exact Hr'|]. split; [|exact Ha].
    assert (approvals (db (performing later (from_empty (paused_ops ++ [approves 6])))) = [set_consumed approved_row]) as E by by vm_compute.
    rewrite E in Hr'. by apply list_elem_of_singleton in Hr' as ->.
Defined.

Lemma may_answer_witness : may_answer pending_row "feishu:user:u1" "feishu" "oc_1" (Some "app") None.
Proof. split_and!; [done| |done]. by exists chat_route. Qed.

Lemma decide_correct_witness : ∃ row w', (Z.ltb 6 (expires_at pending_row)) = true ∧
  decide_once takes (app_token 3) "approve" "feishu:user:u1" "feishu" "oc_1" (Some "app") (Some "call1") 6 None (from_empty paused_ops)
    = (Ret (row, true), w') ∧ approved_calls row = ["call1"].
Proof.
  destruct (decide_correct ticks plain_notice app_token takes (Some empty_db) 0 paused_ops pending_row (app_token 3) "call1"
    "feishu:user:u1" "feishu" "oc_1" (Some "app") None 6) as (l & _ & _ & row & w' & Hrun & _ & _ & _ & _ & Hd).
  - exact pending_in_file.
  - done.
  - done.
  - exact may_answer_witness.
  - by left.
  - by vm_compute.
  - exists row, w'. split; [by vm_compute|]. split; [exact Hrun|]. by destruct Hd as (_ & H & _).
Defined.

Lemma strangers_refused_witness :
  decide_once takes (app_token 3) "approve" "feishu:user:u2" "feishu" "oc_1" (Some "app") (Some "call1") 6 None (from_empty paused_ops)
    = (Exc FORBIDDEN, from_empty paused_ops).
Proof.
  apply (strangers_refused takes (app_token 3) "approve" "feishu:user:u2" "feishu" "oc_1" (Some "app") (Some "call1") 6 None
    (from_empty paused_ops) pending_row).
  - by left.
  - by vm_compute.
  - by intros [H _].
Defined.

Lemma said_twice : said_yes ∈ decided chatted.
Proof. rewrite (proj1 run_chats). by left. Qed.

Lemma message_decides_one_witness : said_yes ∈ decided chatted ∧
  ∀ row, row ∈ reply_messages (db (file chatted)) → reply_key row = dm_key said_yes → bound_id row = dm_id said_yes.
Proof.
  split; [exact said_twice|].
  exact (proj1 (proj2 (message_decides_one ticks plain_notice app_token takes (Some empty_db) 0 (map FileCall paused_ops ++ twice) said_yes
    said_twice))).
Defined.
