(* ===== verification/BudgetStore.v ===== *)
(** * Budgets of model calls

    Source: [server/jiuwenmate/budget_repository.py] and [ports/budget.py].

    Before a colleague calls its model, tokens are reserved on an account; afterwards the call
    is settled with what it used.  The sessions of a group share the account of the group, any
    other is charged to its colleague.

    [InvocationRef], [ModelUsage] and [ExecutionContext] belong to the agent core package:
    records of what is read of them, with all the rest.  Columns that hold JSON hold the value.
    Token counts are below the 64 bits of a column, so that their sums are exact. *)

From stdpp Require Import pretty.
From S2P Require Import Prelude OrderedDict PyJson Tables MateModels RequestStore.

(** [AccountKind], a [Literal] *)
Inductive AccountKind := KGroup | KAgent.
#[export] Instance AccountKind_eq : EqDecision AccountKind.
Proof. solve_decision. Defined.
Definition kind_text (k : AccountKind) : string := match k with KGroup => "group" | KAgent => "agent" end.

Record BudgetAccountRef := { kind : AccountKind; key : string }.
#[export] Instance BudgetAccountRef_eq : EqDecision BudgetAccountRef.
Proof. solve_decision. Defined.

Record InvocationRef := { iv_namespace_id : string; iv_execution_id : string; iv_rest : string }.
#[export] Instance InvocationRef_eq : EqDecision InvocationRef.
Proof. solve_decision. Defined.

Record ModelUsage := { us_status : string; input_tokens : option Z; output_tokens : option Z; us_reason : option string }.
#[export] Instance ModelUsage_eq : EqDecision ModelUsage.
Proof. solve_decision. Defined.

(** [budget_accounts] *)
Record AccountRow := {
  ba_namespace_id : string; ba_account : BudgetAccountRef; limit_tokens : option Z; used_tokens : Z;
  ba_reserved_tokens : Z; revision : Z; ba_updated_at : Z;
}.

Inductive CallStatus := Reserved | Denied | Settled.
#[export] Instance CallStatus_eq : EqDecision CallStatus.
Proof. solve_decision. Defined.

(** [budget_calls] *)
Record CallRow := {
  bc_namespace_id : string; model_call_id : string; bc_account : BudgetAccountRef; bc_ref : InvocationRef;
  bc_status : CallStatus; reserved_tokens : Z; account_revision : Z; bc_reason : option string;
  usage : option ModelUsage; charged_tokens : option Z; needs_reconciliation : bool; admitted_at : Z; settled_at : option Z;
}.

(** [budget_adjustments] *)
Record AdjustmentRow := {
  bj_namespace_id : string; bj_account : BudgetAccountRef; bj_revision : Z; bj_limit_tokens : option Z;
  bj_reason : string; actor_ref : string; adjusted_at : Z;
}.

Record BudgetDB := mk_budgets { accounts : list AccountRow; calls : list CallRow; adjustments : list AdjustmentRow }.
Definition with_accounts t d := mk_budgets t (calls d) (adjustments d).
Definition with_calls t d := mk_budgets (accounts d) t (adjustments d).
Definition with_adjustments t d := mk_budgets (accounts d) (calls d) t.

(** The columns of the keys *)
Definition account_key (r : AccountRow) := (ba_namespace_id r, ba_account r).
Definition call_key (r : CallRow) := (bc_namespace_id r, model_call_id r).
Definition adjustment_key (r : AdjustmentRow) := (bj_namespace_id r, bj_account r, bj_revision r).
Definition account_clash (r r' : AccountRow) : bool := bool_decide (account_key r = account_key r').
Definition budget_call_clash (r r' : CallRow) : bool := bool_decide (call_key r = call_key r').
Definition adjustment_clash (r r' : AdjustmentRow) : bool := bool_decide (adjustment_key r = adjustment_key r').

Record BudgetAccountView := {
  bv_account : BudgetAccountRef; bv_limit_tokens : option Z; bv_used_tokens : Z; bv_reserved_tokens : Z;
  bv_revision : Z; unreconciled_calls : Z;
}.

Inductive DecisionStatus := admitted | denied | confirmed | rejected.
#[export] Instance DecisionStatus_eq : EqDecision DecisionStatus.
Proof. solve_decision. Defined.
Record CallDecision := { cd_status : DecisionStatus; cd_reason : option string }.

Definition reservation_ref (call : string) : string := "res:" +:+ call.
Definition receipt_ref (call : string) : string := "rcpt:" +:+ call.

#[local] Abbreviation call := (py (World BudgetDB) mate_error) (only parsing).

(** ** Accounts *)

Definition of_account (ns : string) (a : BudgetAccountRef) (r : AccountRow) : bool := bool_decide (account_key r = (ns, a)).
Definition of_call (ns id : string) (r : CallRow) : bool := bool_decide (call_key r = (ns, id)).
Definition update_account (ns : string) (a : BudgetAccountRef) (f : AccountRow → AccountRow) : call unit :=
  with_db (λ d, with_accounts (update_where (of_account ns a) f (accounts d)) d).

Definition _ensure_account (ns : string) (a : BudgetAccountRef) (now : Z) : call AccountRow :=
  with_db (λ d, with_accounts (insert_or_ignore account_clash
    {| ba_namespace_id := ns; ba_account := a; limit_tokens := None; used_tokens := 0; ba_reserved_tokens := 0;
       revision := 0; ba_updated_at := now |} (accounts d)) d) ;;
  d <- get_db ;;
  py_some (fetchone (of_account ns a) (accounts d)) PyTypeError.

(** What the statements set *)
Definition add_tokens (used reserved now : Z) (r : AccountRow) : AccountRow :=
  {| ba_namespace_id := ba_namespace_id r; ba_account := ba_account r; limit_tokens := limit_tokens r;
     used_tokens := (used_tokens r + used)%Z; ba_reserved_tokens := (ba_reserved_tokens r + reserved)%Z;
     revision := revision r; ba_updated_at := now |}.
Definition set_limit (limit : option Z) (rev now : Z) (r : AccountRow) : AccountRow :=
  {| ba_namespace_id := ba_namespace_id r; ba_account := ba_account r; limit_tokens := limit;
     used_tokens := used_tokens r; ba_reserved_tokens := ba_reserved_tokens r; revision := rev; ba_updated_at := now |}.
Definition set_settled (u : ModelUsage) (charged : Z) (unknown : bool) (now : Z) (r : CallRow) : CallRow :=
  {| bc_namespace_id := bc_namespace_id r; model_call_id := model_call_id r; bc_account := bc_account r; bc_ref := bc_ref r;
     bc_status := Settled; reserved_tokens := reserved_tokens r; account_revision := account_revision r;
     bc_reason := bc_reason r; usage := Some u; charged_tokens := Some charged; needs_reconciliation := unknown;
     admitted_at := admitted_at r; settled_at := Some now |}.

(** ** Reservations *)

(** Whether [tokens] fit, given what is used and reserved *)
Definition fits (r : AccountRow) (tokens : Z) : bool :=
  match limit_tokens r with None => true | Some limit => Z.leb (used_tokens r + ba_reserved_tokens r + tokens)%Z limit end.

Definition exhausted (a : BudgetAccountRef) (r : AccountRow) : string :=
  kind_text (kind a) +:+ " budget exhausted: " +:+ pretty (used_tokens r + ba_reserved_tokens r)%Z +:+ "/" +:+
  match limit_tokens r with Some limit => pretty limit | None => "None" end +:+ " tokens".

(** The row of the [INSERT] *)
Definition new_call (ref : InvocationRef) (id : string) (a : BudgetAccountRef) (tokens : Z) (row : AccountRow) (now : Z) : CallRow :=
  {| bc_namespace_id := iv_namespace_id ref; model_call_id := id; bc_account := a; bc_ref := ref;
     bc_status := if fits row tokens then Reserved else Denied; reserved_tokens := if fits row tokens then tokens else 0;
     account_revision := revision row; bc_reason := if fits row tokens then None else Some (exhausted a row);
     usage := None; charged_tokens := None; needs_reconciliation := false; admitted_at := now; settled_at := None |}.

Definition reserve (ref : InvocationRef) (id : string) (a : BudgetAccountRef) (tokens now : Z) : call CallDecision :=
  py_pure (require_identifier id) ;;
  transaction (
    d <- get_db ;;
    match fetchone (of_call (iv_namespace_id ref) id) (calls d) with
    | Some existing =>
        py_guard (bool_decide (bc_ref existing = ref)) CONTRACT_INVALID ;;
        py_ret {| cd_status := if bool_decide (bc_status existing = Denied) then denied else admitted; cd_reason := bc_reason existing |}
    | None =>
        row <- _ensure_account (iv_namespace_id ref) a now ;;
        (if fits row tokens then update_account (iv_namespace_id ref) a (add_tokens 0 tokens now) else py_ret tt) ;;
        d <- get_db ;;
        match insert_row budget_call_clash (new_call ref id a tokens row now) (calls d) with
        | Some t =>
            with_db (with_calls t) ;;
            py_ret {| cd_status := if fits row tokens then admitted else denied;
                      cd_reason := if fits row tokens then None else Some (exhausted a row) |}
        | None => py_raise IntegrityError
        end
    end).

(** ** Settlements *)

(** The two statements that settle [row] *)
Definition settle_row (row : CallRow) (u : ModelUsage) (charged : Z) (unknown : bool) (now : Z) : call unit :=
  with_db (λ d, with_calls (update_where (of_call (bc_namespace_id row) (model_call_id row)) (set_settled u charged unknown now)
                              (calls d)) d) ;;
  update_account (bc_namespace_id row) (bc_account row) (add_tokens charged (- reserved_tokens row) now).

Definition is_unknown (u : ModelUsage) : bool := us_status u =s "unknown".
Definition reject_call (reason : string) : call CallDecision := py_ret {| cd_status := rejected; cd_reason := Some reason |}.

Definition settle (ref : InvocationRef) (id : string) (u : ModelUsage) (now : Z) : call CallDecision :=
  transaction (
    d <- get_db ;;
    match fetchone (of_call (iv_namespace_id ref) id) (calls d) with
    | None => reject_call "model call was not admitted for this Execution"
    | Some row =>
        if negb (bool_decide (bc_ref row = ref)) then reject_call "model call was not admitted for this Execution"
        else if bool_decide (bc_status row = Denied) then reject_call "model call was denied"
        else if bool_decide (bc_status row = Settled) then
          if bool_decide (usage row = Some u) then py_ret {| cd_status := confirmed; cd_reason := None |}
          else reject_call "model call was already settled with other usage"
        else
          charged <- (if is_unknown u then py_ret (reserved_tokens row)
                      else i <- py_some (input_tokens u) PyTypeError ;;
                           o <- py_some (output_tokens u) PyTypeError ;;
                           py_ret (i + o)%Z) ;;
          settle_row row u charged (is_unknown u) now ;;
          py_ret {| cd_status := confirmed; cd_reason := None |}
    end).

Definition unreported : ModelUsage :=
  {| us_status := "unknown"; input_tokens := None; output_tokens := None;
     us_reason := Some "no usage reported before the Execution ended" |}.

(** The loop of [settle_unreported] *)
Fixpoint settle_rows (rows : list CallRow) (now : Z) : call unit :=
  match rows with
  | [] => py_ret tt
  | row :: rows' => settle_row row unreported (reserved_tokens row) true now ;; settle_rows rows' now
  end.
Definition unsettled (ns xid : string) (r : CallRow) : bool :=
  bool_decide (bc_namespace_id r = ns ∧ bc_status r = Reserved ∧ iv_execution_id (bc_ref r) = xid).
Definition settle_unreported (ns xid : string) (now : Z) : call nat :=
  transaction (
    d <- get_db ;;
    let rows := select (unsettled ns xid) (calls d) in
    settle_rows rows now ;;
    py_ret (length rows)).

(** ** Limits and views *)

Definition adjust_limit (ns : string) (a : BudgetAccountRef) (limit : option Z) (reason actor : string) (now : Z) : call Z :=
  py_pure (check (require_identifier ns) (check (require_identifier actor)
    (check (reject (match limit with Some n => Z.ltb n 0 | None => false end) BAD_REQUEST)
    (reject (blank reason) BAD_REQUEST)))) ;;
  transaction (
    row <- _ensure_account ns a now ;;
    let rev := (revision row + 1)%Z in
    update_account ns a (set_limit limit rev now) ;;
    d <- get_db ;;
    match insert_row adjustment_clash
            {| bj_namespace_id := ns; bj_account := a; bj_revision := rev; bj_limit_tokens := limit; bj_reason := reason;
               actor_ref := actor; adjusted_at := now |} (adjustments d) with
    | Some t => with_db (with_adjustments t) ;; py_ret rev
    | None => py_raise IntegrityError
    end).

Definition account (ns : string) (a : BudgetAccountRef) (d : BudgetDB) : BudgetAccountView :=
  match fetchone (of_account ns a) (accounts d) with
  | None => {| bv_account := a; bv_limit_tokens := None; bv_used_tokens := 0; bv_reserved_tokens := 0; bv_revision := 0;
               unreconciled_calls := 0 |}
  | Some row =>
      {| bv_account := a; bv_limit_tokens := limit_tokens row; bv_used_tokens := used_tokens row;
         bv_reserved_tokens := ba_reserved_tokens row; bv_revision := revision row;
         unreconciled_calls := Z.of_nat (length (select (λ r, bool_decide (bc_namespace_id r = ns ∧ bc_account r = a) &&
                                                              needs_reconciliation r) (calls d))) |}
  end.

Definition adjustments_since_denial (ns id : string) (d : BudgetDB) : outcome mate_error (list AdjustmentRow) :=
  match fetchone (λ r, of_call ns id r && bool_decide (bc_status r = Denied)) (calls d) with
  | None => Exc NOT_FOUND
  | Some c => Ret (py_sorted bj_revision
      (select (λ r, bool_decide (bj_namespace_id r = ns ∧ bj_account r = bc_account c) && Z.ltb (account_revision c) (bj_revision r))
         (adjustments d)))
  end.

(** ** [HostBudgetPort]

    [from_execution] is the package's [InvocationRef.from_execution]; [d] has the tables of the
    sessions, which are read before the transaction of the budgets. *)

Record ExecutionContext := { ec_namespace_id : string; ec_agent_id : string; ec_session_id : string; ec_rest : string }.
Record BudgetAnswer := {
  an_ref : InvocationRef; an_call : string; an_status : DecisionStatus; an_stored_ref : option string; an_reason : option string;
}.

Definition DEFAULT_RESERVATION_TOKENS : Z := 4096.

Section port.
Context {I : Type} (from_execution : ExecutionContext → InvocationRef) (reservation_tokens : Z).

Definition _account (x : ExecutionContext) (d : DB I) : outcome mate_error BudgetAccountRef :=
  match (get_session (ec_namespace_id x) (ec_session_id x) (mk_world d 0)).1 with
  | Exc e => Exc e
  | Ret s =>
      check (reject (negb (sn_agent_id s =s ec_agent_id x)) CONTRACT_INVALID)
        (Ret (if c_kind (conversation s) =s "group" then {| kind := KGroup; key := c_key (conversation s) |}
              else {| kind := KAgent; key := ec_agent_id x |}))
  end.

Definition _admit (x : ExecutionContext) (id : string) (now : Z) (d : DB I) : call BudgetAnswer :=
  a <- py_pure (_account x d) ;;
  decision <- reserve (from_execution x) id a reservation_tokens now ;;
  py_ret {| an_ref := from_execution x; an_call := id; an_status := cd_status decision;
            an_stored_ref := if bool_decide (cd_status decision = admitted) then Some (reservation_ref id) else None;
            an_reason := cd_reason decision |}.

Definition _report (x : ExecutionContext) (id : string) (u : ModelUsage) (now : Z) : call BudgetAnswer :=
  decision <- settle (from_execution x) id u now ;;
  py_ret {| an_ref := from_execution x; an_call := id; an_status := cd_status decision;
            an_stored_ref := if bool_decide (cd_status decision = confirmed) then Some (receipt_ref id) else None;
            an_reason := cd_reason decision |}.
End port.
