(* ===== verification/BudgetProps.v ===== *)
(** * Budgets of model calls: theorems

    The totals of an account are those of its calls; admission never oversells a limit; a call
    is charged once. *)

From S2P Require Import Prelude OrderedDict PyJson Tables MateModels RequestStore BudgetStore.

#[local] Abbreviation call := (py (World BudgetDB) mate_error) (only parsing).
Implicit Types (d : BudgetDB) (w : World BudgetDB) (r : AccountRow) (c : CallRow).

(** ** The calls on the file *)

Inductive budget_op :=
| BReserve (ref : InvocationRef) (id : string) (a : BudgetAccountRef) (tokens now : Z)
| BSettle (ref : InvocationRef) (id : string) (u : ModelUsage) (now : Z)
| BUnreported (ns xid : string) (now : Z)
| BAdjust (ns : string) (a : BudgetAccountRef) (limit : option Z) (reason actor : string) (now : Z).

Definition spend (o : budget_op) w : World BudgetDB :=
  match o with
  | BReserve ref id a tokens now => (reserve ref id a tokens now w).2
  | BSettle ref id u now => (settle ref id u now w).2
  | BUnreported ns xid now => (settle_unreported ns xid now w).2
  | BAdjust ns a limit reason actor now => (adjust_limit ns a limit reason actor now w).2
  end.
Definition spends (ops : list budget_op) w : World BudgetDB := foldl (λ w o, spend o w) w ops.
Definition no_budgets : World BudgetDB := mk_world (mk_budgets [] [] []) 0.

Lemma spends_app ops ops' w : spends (ops ++ ops') w = spends ops' (spends ops w).
Proof. apply foldl_app. Qed.

(** ** The invariant *)

Definition charged_to c : string * BudgetAccountRef := (bc_namespace_id c, bc_account c).
#[local] Arguments select : simpl never.
#[local] Arguments sum_of : simpl never.
(** What a call adds to the totals of the account [k], and by how much it exceeds its reservation *)
Definition charge k c : Z := if bool_decide (charged_to c = k) then default 0%Z (charged_tokens c) else 0.
Definition held k c : Z := if bool_decide (charged_to c = k ∧ bc_status c = Reserved) then reserved_tokens c else 0.
Definition excess k c : Z :=
  match charged_tokens c with Some n => if bool_decide (charged_to c = k) then Z.max 0 (n - reserved_tokens c) else 0 | None => 0 end%Z.
Definition excesses k d : Z := sum_of (excess k) (calls d).

Definition adjusted k d : list AdjustmentRow :=
  select (λ j, bool_decide ((bj_namespace_id j, bj_account j) = k)) (adjustments d).
#[local] Arguments adjusted : simpl never.

Definition call_wf c : Prop :=
  (bc_status c = Settled → ∃ u n, usage c = Some u ∧ charged_tokens c = Some n) ∧
  (bc_status c ≠ Settled → usage c = None ∧ charged_tokens c = None ∧ needs_reconciliation c = false) ∧
  (bc_status c = Denied → reserved_tokens c = 0%Z) ∧ bc_namespace_id c = iv_namespace_id (bc_ref c).

(** The totals and the limit of an account *)
Record account_ok d r : Prop := {
  ao_used : used_tokens r = sum_of (charge (account_key r)) (calls d);
  ao_reserved : ba_reserved_tokens r = sum_of (held (account_key r)) (calls d);
  ao_revisions : (0 ≤ revision r)%Z ∧ bj_revision <$> adjusted (account_key r) d = seqZ 1 (revision r);
  ao_limit : limit_tokens r = last (bj_limit_tokens <$> adjusted (account_key r) d) ≫= id;
}.

Record budget_ok d : Prop := {
  bo_accounts : unique account_key (accounts d);
  bo_calls : unique call_key (calls d);
  bo_account : ∀ r, r ∈ accounts d → account_ok d r;
  bo_charged : ∀ c, c ∈ calls d → call_wf c ∧ ∃ r, r ∈ accounts d ∧ account_key r = charged_to c;
  bo_adjusted : ∀ j, j ∈ adjustments d → ∃ r, r ∈ accounts d ∧ account_key r = (bj_namespace_id j, bj_account j);
}.

Lemma no_budgets_ok : budget_ok (db no_budgets).
Proof. split; [constructor|constructor|by intros ? ?%elem_of_nil|by intros ? ?%elem_of_nil|by intros ? ?%elem_of_nil]. Qed.

Lemma of_account_eq ns a r : of_account ns a r = true ↔ account_key r = (ns, a).
Proof. apply bool_decide_eq_true. Qed.
Lemma of_call_eq ns id c : of_call ns id c = true ↔ call_key c = (ns, id).
Proof. apply bool_decide_eq_true. Qed.

(** ** Accounts *)

Definition new_account (ns : string) (a : BudgetAccountRef) (now : Z) : AccountRow :=
  {| ba_namespace_id := ns; ba_account := a; limit_tokens := None; used_tokens := 0; ba_reserved_tokens := 0;
     revision := 0; ba_updated_at := now |}.
Definition with_account ns a now d := with_accounts (insert_or_ignore account_clash (new_account ns a now) (accounts d)) d.

Lemma with_account_in ns a now d : ∃ r, r ∈ accounts (with_account ns a now d) ∧ account_key r = (ns, a).
Proof.
  cbn. destruct (insert_or_ignore_cases account_clash (new_account ns a now) (accounts d)) as [[-> (r & Hr & Hc)]|[-> _]%insert_row_some].
  - exists r. split; [done|]. apply bool_decide_eq_true in Hc. by rewrite <- Hc.
  - exists (new_account ns a now). split; [|done]. apply elem_of_app. right. by left.
Qed.

(** An account that does not exist has no calls. *)
Lemma ok_ensure ns a now d : budget_ok d → budget_ok (with_account ns a now d).
Proof.
  intros [Ha Hc Hr Hw Hj]. unfold with_account.
  destruct (insert_or_ignore_cases account_clash (new_account ns a now) (accounts d)) as [[-> _]|H]; [by destruct d|].
  pose proof H as [E Hno]%insert_row_some.
  assert (∀ r, r ∈ accounts d → account_key r ≠ (ns, a)) as Hnew.
  { intros r Hin E'. specialize (Hno r Hin). apply bool_decide_eq_false in Hno. by destruct Hno. }
  split; cbn.
  - eapply insert_unique; [exact H| |done]. intros r' E'. by apply bool_decide_eq_true.
  - done.
  - rewrite E. intros r [Hin| ->%list_elem_of_singleton]%elem_of_app; [by destruct (Hr r Hin)|].
    assert (∀ c, c ∈ calls d → charged_to c ≠ (ns, a)) as Hcalls.
    { intros c Hin Ec. destruct (Hw c Hin) as (_ & r & Hin' & Er). apply (Hnew r Hin'). by rewrite Er. }
    assert (adjusted (ns, a) d = []) as Hadj.
    { unfold adjusted. destruct (select _ _) as [|j l] eqn:El; [done|].
      assert (j ∈ select (λ j, bool_decide ((bj_namespace_id j, bj_account j) = (ns, a))) (adjustments d)) as [Hk Hin]%elem_of_rows
        by (rewrite El; left).
      apply bool_decide_eq_true in Hk. destruct (Hj j Hin) as (r & Hin' & Er). destruct (Hnew r Hin'). by rewrite Er. }
    split; cbn; change (adjusted (account_key (new_account ns a now)) _) with (adjusted (ns, a) d);
      change (account_key (new_account ns a now)) with (ns, a).
    + symmetry. apply sum_of_zero. intros c Hin. unfold charge. by rewrite bool_decide_false by by apply Hcalls.
    + symmetry. apply sum_of_zero. intros c Hin. unfold held. rewrite bool_decide_false; [done|]. intros [? _]. by apply (Hcalls c).
    + by rewrite Hadj.
    + by rewrite Hadj.
  - intros c Hin. destruct (Hw c Hin) as (? & r & ? & ?). split; [done|]. exists r. split; [|done]. rewrite E. set_solver.
  - intros j Hin. destruct (Hj j Hin) as (r & ? & ?). exists r. split; [|done]. rewrite E. set_solver.
Qed.

Lemma ensure_inv ns a now w row w' : _ensure_account ns a now w = (Ret row, w') →
  w' = mk_world (with_account ns a now (db w)) (drawn w) ∧ row ∈ accounts (db w') ∧ account_key row = (ns, a).
Proof.
  intros H. unfold _ensure_account in H. call_inv. match goal with H : fetchone _ _ = Some _ |- _ => apply fetchone_some in H as [Hk Hr] end.
  apply of_account_eq in Hk. by split_and!.
Qed.

(** [UPDATE] of an account: what it becomes, when its calls and adjustments have become those of [d'] *)
Lemma ok_account_update d d' k f r0 :
  accounts d' = update_where (λ r, bool_decide (account_key r = k)) f (accounts d) →
  (∀ r, account_key (f r) = account_key r) → budget_ok d → r0 ∈ accounts d → account_key r0 = k →
  unique call_key (calls d') → account_ok d' (f r0) →
  (∀ r, account_key r ≠ k → account_ok d r → account_ok d' r) →
  (∀ c, c ∈ calls d' → call_wf c ∧ (charged_to c = k ∨ ∃ c0, c0 ∈ calls d ∧ charged_to c0 = charged_to c)) →
  (∀ j, j ∈ adjustments d' → (bj_namespace_id j, bj_account j) = k ∨ j ∈ adjustments d) →
  budget_ok d'.
Proof.
  intros E Hf [Ha Hc Hr Hw Hj] Hr0 Hk Hcu Hok Hsame Hcalls Hadj.
  assert (∀ r, r ∈ accounts d → ∃ r', r' ∈ accounts d' ∧ account_key r' = account_key r) as Hkeep.
  { intros r Hin. rewrite E. destruct (bool_decide (account_key r = k)) eqn:Eb.
    - exists (f r). split; [|done]. apply elem_of_update_where. right. by exists r.
    - exists r. split; [|done]. apply elem_of_update_where. by left. }
  split; [| |rewrite E| |].
  - rewrite E. apply update_unique; [|done]. intros. apply Hf.
  - done.
  - intros r [[Hin Hk'%bool_decide_eq_false]|(r1 & Hin & Hk'%bool_decide_eq_true & ->)]%elem_of_update_where.
    + apply Hsame; [done|by apply Hr].
    + assert (r1 = r0) as -> by (eapply (unique_eq account_key); [exact Ha|done|done|congruence]). done.
  - intros c Hin. destruct (Hcalls c Hin) as [Hwf [Hck|(c0 & Hin0 & Hck)]]; split; try done.
    + destruct (Hkeep r0 Hr0) as (r' & Hr' & Ek). exists r'. split; [done|congruence].
    + destruct (Hw c0 Hin0) as (_ & r1 & Hr1 & Ek1). destruct (Hkeep r1 Hr1) as (r' & Hr' & Ek). exists r'. split; [done|congruence].
  - intros j Hin. destruct (Hadj j Hin) as [Hjk|Hin0].
    + destruct (Hkeep r0 Hr0) as (r' & Hr' & Ek). exists r'. split; [done|congruence].
    + destruct (Hj j Hin0) as (r1 & Hr1 & Ek1). destruct (Hkeep r1 Hr1) as (r' & Hr' & Ek). exists r'. split; [done|congruence].
Qed.

(** ** Settling a call *)

Definition settled_db c (u : ModelUsage) (charged : Z) (unknown : bool) (now : Z) d : BudgetDB :=
  mk_budgets
    (update_where (of_account (bc_namespace_id c) (bc_account c)) (add_tokens charged (- reserved_tokens c) now) (accounts d))
    (update_where (of_call (bc_namespace_id c) (model_call_id c)) (set_settled u charged unknown now) (calls d))
    (adjustments d).

Lemma settle_row_inv c u charged unknown now w x w' : settle_row c u charged unknown now w = (Ret x, w') →
  w' = mk_world (settled_db c u charged unknown now (db w)) (drawn w).
Proof. intros H. unfold settle_row, update_account in H. by call_inv. Qed.

(** A sum over the calls, after a call has been settled *)
Lemma sum_settled d c val u charged unknown now : unique call_key (calls d) → c ∈ calls d →
  sum_of val (calls (settled_db c u charged unknown now d)) =
    (sum_of val (calls d) + (val (set_settled u charged unknown now c) - val c))%Z.
Proof.
  intros Hu Hc. apply (sum_of_update call_key); [done|done|by apply of_call_eq|].
  intros c' _ H%of_call_eq. by rewrite H.
Qed.

Lemma ok_settle d c u charged unknown now : budget_ok d → c ∈ calls d → bc_status c = Reserved →
  budget_ok (settled_db c u charged unknown now d).
Proof.
  intros Hok Hc Hs. destruct (bo_charged _ Hok c Hc) as [(_ & Hnone & _ & Hns) (r0 & Hr0 & Hk)].
  destruct (Hnone ltac:(by rewrite Hs)) as (_ & Hch & _). pose proof (bo_calls _ Hok) as Hu.
  assert (∀ k, k ≠ charged_to c → charge k (set_settled u charged unknown now c) = charge k c ∧
    held k (set_settled u charged unknown now c) = held k c) as Hother.
  { intros k Hne. unfold charge, held. cbn. rewrite !bool_decide_false; [done| | | |]; try (by intros [? _]); done. }
  eapply (ok_account_update d _ (charged_to c) (add_tokens charged (- reserved_tokens c) now) r0); try done.
  - by apply update_unique.
  - destruct (bo_account _ Hok r0 Hr0) as [E1 E2 E3 E4]. change (account_ok (settled_db c u charged unknown now d) (add_tokens charged (- reserved_tokens c) now r0)).
    split; [| |exact E3|exact E4]; rewrite sum_settled by done;
      change (account_key (add_tokens charged (- reserved_tokens c) now r0)) with (account_key r0); rewrite Hk in *.
    + change (used_tokens (add_tokens charged (- reserved_tokens c) now r0)) with (used_tokens r0 + charged)%Z. rewrite E1.
      replace (charge (charged_to c) (set_settled u charged unknown now c)) with charged by (unfold charge; by rewrite bool_decide_true).
      replace (charge (charged_to c) c) with 0%Z by (unfold charge; rewrite Hch; by case_bool_decide). lia.
    + change (ba_reserved_tokens (add_tokens charged (- reserved_tokens c) now r0)) with (ba_reserved_tokens r0 + - reserved_tokens c)%Z.
      rewrite E2. replace (held (charged_to c) (set_settled u charged unknown now c)) with 0%Z
        by (unfold held; rewrite bool_decide_false; [done|by intros [_ ?]]).
      replace (held (charged_to c) c) with (reserved_tokens c) by (unfold held; by rewrite bool_decide_true). lia.
  - intros r Hne [E1 E2 E3 E4]. destruct (Hother (account_key r) Hne) as [H1 H2].
    split; [| |exact E3|exact E4]; rewrite sum_settled by done; [rewrite H1, E1|rewrite H2, E2]; lia.
  - intros c' [[Hin _]|(c0 & Hin & Hk0%of_call_eq & ->)]%elem_of_update_where.
    + destruct (bo_charged _ Hok c' Hin) as [? _]. split; [done|]. right. by exists c'.
    + assert (c0 = c) as -> by (eapply (unique_eq call_key); [exact Hu|done|done|exact Hk0]).
      split; [|by left]. split_and!; cbn; [intros _; by eexists _, _|done|done|exact Hns].
  - intros j Hj. by right.
Qed.

(** ** Admitting a call *)

Definition reserved_db (ref : InvocationRef) (id : string) (a : BudgetAccountRef) (tokens : Z) r (now : Z) d : BudgetDB :=
  mk_budgets
    (if fits r tokens then update_where (of_account (iv_namespace_id ref) a) (add_tokens 0 tokens now) (accounts d) else accounts d)
    (calls d ++ [new_call ref id a tokens r now]) (adjustments d).

Lemma ok_admit d ref id a tokens r now : budget_ok d → r ∈ accounts d → account_key r = (iv_namespace_id ref, a) →
  (∀ c, c ∈ calls d → call_key c ≠ (iv_namespace_id ref, id)) → budget_ok (reserved_db ref id a tokens r now d).
Proof.
  intros Hok Hr Hk Hnew. set (n := new_call ref id a tokens r now). set (f := if fits r tokens then add_tokens 0 tokens now else λ r, r).
  assert (∀ v, sum_of v (calls (reserved_db ref id a tokens r now d)) = (sum_of v (calls d) + v n)%Z) as Hsum.
  { intros v. cbn. rewrite sum_of_app. unfold sum_of at 2. simpl. fold n. lia. }
  assert (∀ k, charge k n = 0%Z) as Hcharge by (intros k; unfold charge; by case_bool_decide).
  assert (∀ k, k ≠ (iv_namespace_id ref, a) → held k n = 0%Z) as Hheld.
  { intros k Hne. unfold held. rewrite bool_decide_false; [done|]. by intros [? _]. }
  eapply (ok_account_update d _ (iv_namespace_id ref, a) f r); try done.
  - cbn. unfold f. destruct (fits r tokens); [done|]. unfold update_where. rewrite <- (list_fmap_id (accounts d)) at 1.
    apply list_fmap_ext. intros ? ? _. by case_match.
  - intros r'. unfold f. by destruct (fits r tokens).
  - cbn. unfold unique. rewrite fmap_app. apply NoDup_app. split_and!; [apply Hok| |apply NoDup_singleton].
    intros x (c & -> & Hc)%list_elem_of_fmap E%list_elem_of_singleton. by apply (Hnew c Hc).
  - destruct (bo_account _ Hok r Hr) as [E1 E2 E3 E4]. rewrite Hk in *.
    assert (held (iv_namespace_id ref, a) n = if fits r tokens then tokens else 0%Z) as Hn.
    { unfold held, n. cbn. destruct (fits r tokens); [by rewrite bool_decide_true|]. rewrite bool_decide_false; [done|]. by intros [_ ?]. }
    assert (account_key (f r) = (iv_namespace_id ref, a)) as Ek by (unfold f; by destruct (fits r tokens)).
    split; rewrite Ek, ?Hsum, ?Hcharge, ?Hn; unfold f; destruct (fits r tokens);
      [cbn; lia|lia|cbn; lia|lia|exact E3|exact E3|exact E4|exact E4].
  - intros r' Hne [E1 E2 E3 E4]. split; rewrite ?Hsum, ?Hcharge, ?Hheld by done; try exact E3; try exact E4; lia.
  - intros c [Hc| ->%list_elem_of_singleton]%elem_of_app.
    + destruct (bo_charged _ Hok c Hc). split; [done|]. right. by exists c.
    + split; [|by left]. unfold call_wf. cbn. destruct (fits r tokens); by split_and!.
  - intros j Hj. by right.
Qed.

(** ** Changing a limit *)

Definition new_adjustment ns a limit rev reason actor now : AdjustmentRow :=
  {| bj_namespace_id := ns; bj_account := a; bj_revision := rev; bj_limit_tokens := limit; bj_reason := reason;
     actor_ref := actor; adjusted_at := now |}.
Definition limited_db (ns : string) (a : BudgetAccountRef) limit rev reason actor now d : BudgetDB :=
  mk_budgets (update_where (of_account ns a) (set_limit limit rev now) (accounts d)) (calls d)
    (adjustments d ++ [new_adjustment ns a limit rev reason actor now]).

Lemma adjusted_limited k ns a limit rev reason actor now d :
  adjusted k (limited_db ns a limit rev reason actor now d) =
    adjusted k d ++ (if bool_decide ((ns, a) = k) then [new_adjustment ns a limit rev reason actor now] else []).
Proof.
  unfold adjusted. cbn. rewrite select_app. f_equal. unfold select. rewrite filter_cons. cbn.
  by case_bool_decide; [rewrite decide_True|rewrite decide_False].
Qed.

Lemma ok_limit d ns a limit reason actor now r : budget_ok d → r ∈ accounts d → account_key r = (ns, a) →
  budget_ok (limited_db ns a limit (revision r + 1) reason actor now d).
Proof.
  intros Hok Hr Hk. eapply (ok_account_update d _ (ns, a) (set_limit limit (revision r + 1) now) r); try done; try apply Hok.
  - destruct (bo_account _ Hok r Hr) as [E1 E2 [E0 E3] E4].
    split; change (account_key (set_limit limit (revision r + 1) now r)) with (account_key r); [exact E1|exact E2| |];
      rewrite adjusted_limited, Hk, bool_decide_true, fmap_app by done; rewrite Hk in *.
    + cbn. split; [lia|]. rewrite E3, (seqZ_app 1 (revision r) 1) by lia. by rewrite Z.add_comm.
    + csimpl. by rewrite last_snoc.
  - intros r' Hne [E1 E2 E3 E4].
    split; [exact E1|exact E2| |]; rewrite adjusted_limited, bool_decide_false, app_nil_r by done; done.
  - intros c Hc. destruct (bo_charged _ Hok c Hc). split; [done|]. right. by exists c.
  - intros j [Hj| ->%list_elem_of_singleton]%elem_of_app; [by right|by left].
Qed.

(** ** Every call is made of these *)

(** What a usage charges *)
Definition usage_charge (u : ModelUsage) c : option Z :=
  if is_unknown u then Some (reserved_tokens c)
  else match input_tokens u, output_tokens u with Some i, Some o => Some (i + o)%Z | _, _ => None end.

(** [Q]: which limits are set of which accounts *)
Inductive budget_step (Q : option Z → AccountRow → Prop) : relation BudgetDB :=
| bs_ensure ns a now d : budget_step Q d (with_account ns a now d)
| bs_reserve ref id a tokens r now d : r ∈ accounts d → account_key r = (iv_namespace_id ref, a) →
    (∀ c, c ∈ calls d → call_key c ≠ (iv_namespace_id ref, id)) → budget_step Q d (reserved_db ref id a tokens r now d)
| bs_settle c u charged now d : c ∈ calls d → bc_status c = Reserved → usage_charge u c = Some charged →
    budget_step Q d (settled_db c u charged (is_unknown u) now d)
| bs_limit ns a limit reason actor now r d : r ∈ accounts d → account_key r = (ns, a) → Q limit r →
    budget_step Q d (limited_db ns a limit (revision r + 1) reason actor now d).

Lemma step_ok Q d d' : budget_step Q d d' → budget_ok d → budget_ok d'.
Proof.
  destruct 1; intros Hok; [by apply ok_ensure|by apply ok_admit|by apply ok_settle|by apply ok_limit].
Qed.

Lemma steps_ok Q d d' : rtc (budget_step Q) d d' → budget_ok d → budget_ok d'.
Proof. induction 1 as [|d1 d2 d3 H _ IH]; [done|]. intros Hok. apply IH. by eapply step_ok. Qed.

Section steps.
Context (Q : option Z → AccountRow → Prop).
#[local] Abbreviation steps := (rtc (budget_step Q)).

Lemma reserve_steps ref id a tokens now w : steps (db w) (db (reserve ref id a tokens now w).2).
Proof.
  destruct (reserve ref id a tokens now w) as [[r|e] w'] eqn:E; cbn [snd].
  2: { unfold reserve in E. unfold py_bind, py_pure in E. destruct (require_identifier id); [|by injection E as _ <-].
       by rewrite (transaction_exc _ _ _ _ E). }
  unfold reserve in E. call_inv. apply py_pure_inv in H as [_ ->].
  destruct (fetchone _ _) as [c|] eqn:Ef; call_inv; [done|]. apply ensure_inv in H as (-> & Hr & Hk).
  eapply rtc_l; [apply (bs_ensure Q (iv_namespace_id ref) a now)|].
  assert (∀ c, c ∈ calls (db w) → call_key c ≠ (iv_namespace_id ref, id)) as Hnew.
  { intros c Hc Hkc. rewrite fetchone_none in Ef. specialize (Ef c Hc). by apply bool_decide_eq_false in Ef. }
  eapply rtc_l; [by eapply (bs_reserve Q ref id a tokens a1 now)|].
  assert (E0 : db w' = reserved_db ref id a tokens a1 now (with_account (iv_namespace_id ref) a now (db w))); [|by rewrite E0].
  unfold reserved_db. destruct (fits a1 tokens) eqn:Efit; unfold update_account in *; call_inv;
    (destruct (insert_row _ _ _) as [t|] eqn:Ei; call_inv; by apply insert_row_some in Ei as [-> _]).
Qed.

Lemma settle_steps ref id u now w : steps (db w) (db (settle ref id u now w).2).
Proof.
  destruct (settle ref id u now w) as [[r|e] w'] eqn:E; cbn [snd]; [|by rewrite (transaction_exc _ _ _ _ E)].
  unfold settle, reject_call in E. call_inv. destruct (fetchone _ _) as [c|] eqn:Ef; [|by call_inv].
  apply fetchone_some in Ef as [_ Hc]. case_bool_decide; cbn [negb] in E; [|by call_inv].
  case_bool_decide as Hd; [by call_inv|]. case_bool_decide as Hs; [case_bool_decide; by call_inv|].
  assert (bc_status c = Reserved) as Es by by destruct (bc_status c). call_inv. match goal with H : settle_row _ _ _ _ _ _ = _ |- _ => apply settle_row_inv in H as -> end.
  assert (usage_charge u c = Some a ∧ w0 = w) as [Hu ->].
  { unfold usage_charge. destruct (is_unknown u); call_inv; [done|]. match goal with H : input_tokens u = _, H' : output_tokens u = _ |- _ => by rewrite H, H' end. }
  apply rtc_once. by apply bs_settle.
Qed.

(** The rows that are left to settle are still reserved. *)
Lemma settle_rows_steps rows now w x w' : settle_rows rows now w = (Ret x, w') → NoDup (call_key <$> rows) →
  unique call_key (calls (db w)) → (∀ c, c ∈ rows → c ∈ calls (db w) ∧ bc_status c = Reserved) → steps (db w) (db w').
Proof.
  revert w. induction rows as [|c rows IH]; intros w E Hnd Hu Hrows; simpl in E; call_inv; [done|].
  rewrite fmap_cons in Hnd. apply NoDup_cons in Hnd as [Hc Hnd]. apply settle_row_inv in H as ->.
  destruct (Hrows c ltac:(left)) as [Hin Hs].
  eapply rtc_l; [by apply (bs_settle Q c unreported (reserved_tokens c) now)|]. apply IH in E; [exact E|done| |].
  - by apply update_unique.
  - intros c' Hc'. destruct (Hrows c') as [Hin' Hs']; [by right|]. split; [|done].
    apply elem_of_update_where. left. split; [done|]. apply bool_decide_eq_false. intros Ek. apply Hc.
    change (call_key c' = call_key c) in Ek. rewrite <- Ek. by apply list_elem_of_fmap_2.
Qed.

Lemma unreported_steps ns xid now w : unique call_key (calls (db w)) → steps (db w) (db (settle_unreported ns xid now w).2).
Proof.
  intros Hu. destruct (settle_unreported ns xid now w) as [[n|e] w'] eqn:E; cbn [snd]; [|by rewrite (transaction_exc _ _ _ _ E)].
  unfold settle_unreported in E. call_inv. eapply settle_rows_steps; [done| |done|].
  - unfold unique in Hu. apply (sublist_NoDup _ (call_key <$> calls (db w))); [done|]. unfold select. apply fmap_sublist, sublist_filter.
  - intros c [(_ & Hs & _)%bool_decide_eq_true Hc]%elem_of_rows. done.
Qed.

Lemma adjust_steps ns a limit reason actor now w :
  (∀ r, r ∈ accounts (with_account ns a now (db w)) → account_key r = (ns, a) → Q limit r) →
  steps (db w) (db (adjust_limit ns a limit reason actor now w).2).
Proof.
  intros HQ. destruct (adjust_limit ns a limit reason actor now w) as [[r|e] w'] eqn:E; cbn [snd].
  2: { unfold adjust_limit in E. unfold py_bind, py_pure in E. destruct (check _ _) as [|]; [|by injection E as _ <-].
       by rewrite (transaction_exc _ _ _ _ E). }
  unfold adjust_limit, update_account in E. call_inv. apply py_pure_inv in H as [_ ->]. apply ensure_inv in H0 as (-> & Hr & Hk).
  eapply rtc_l; [apply (bs_ensure Q ns a now)|]. destruct (insert_row _ _ _) as [t|] eqn:Ei; call_inv.
  apply insert_row_some in Ei as [-> _]. apply rtc_once.
  exact (bs_limit Q ns a limit reason actor now a1 (with_account ns a now (db w)) Hr Hk (HQ a1 Hr Hk)).
Qed.

Definition sets (o : budget_op) w : Prop :=
  match o with
  | BAdjust ns a limit _ _ now => ∀ r, r ∈ accounts (with_account ns a now (db w)) → account_key r = (ns, a) → Q limit r
  | _ => True
  end.

Lemma spend_steps o w : budget_ok (db w) → sets o w → steps (db w) (db (spend o w)).
Proof.
  intros Hok HQ. destruct o; cbn [spend]; [apply reserve_steps|apply settle_steps|apply unreported_steps, Hok|by apply adjust_steps].
Qed.

Lemma spends_steps ops w : budget_ok (db w) → (∀ before o after, ops = before ++ o :: after → sets o (spends before w)) →
  steps (db w) (db (spends ops w)) ∧ budget_ok (db (spends ops w)).
Proof.
  intros Hok HQ. induction ops as [|o ops IH] using rev_ind; [by split|].
  destruct IH as [Hs Hok']. { intros before o' after ->. apply (HQ before o' (after ++ [o])). by rewrite <- app_assoc. }
  rewrite spends_app. cbn. assert (steps (db (spends ops w)) (db (spend o (spends ops w)))) as H by by apply spend_steps, (HQ ops o []).
  split; [by etrans|by eapply steps_ok].
Qed.
End steps.

(** ** Totals *)

(** C25: however reservations, settlements and changes of limits are interleaved, an account's used
    tokens are what its calls were charged and its reserved tokens what its open calls hold;
    its revisions are numbered from one and its limit is the last that was set; a call has
    a usage and a charge exactly when it is settled, and a denied one holds nothing. *)
Theorem budget_invariant ops : let d := db (spends ops no_budgets) in
  unique account_key (accounts d) ∧ unique call_key (calls d) ∧
  (∀ r, r ∈ accounts d → account_ok d r) ∧
  ∀ c, c ∈ calls d → call_wf c ∧ ∃ r, r ∈ accounts d ∧ account_key r = charged_to c.
Proof.
  intros d. destruct (spends_steps (λ _ _, True) ops no_budgets no_budgets_ok) as [_ [Ha Hc Hr Hw _]]; [|done].
  intros before o after _. by destruct o.
Qed.

(** ** Limits *)

Definition not_below (limit : option Z) r : Prop :=
  match limit with Some n => used_tokens r + ba_reserved_tokens r ≤ n | None => True end%Z.
Definition within_limit d : Prop :=
  ∀ r n, r ∈ accounts d → limit_tokens r = Some n → (used_tokens r + ba_reserved_tokens r ≤ n + excesses (account_key r) d)%Z.

Lemma excess_nonneg k c : (0 ≤ excess k c)%Z.
Proof. unfold excess. destruct (charged_tokens c); [case_bool_decide; lia|done]. Qed.
Lemma excesses_nonneg k d : (0 ≤ excesses k d)%Z.
Proof. apply sum_of_nonneg. intros c _. apply excess_nonneg. Qed.

Lemma excesses_settled k d c u charged unknown now : unique call_key (calls d) → c ∈ calls d → charged_tokens c = None →
  excesses k (settled_db c u charged unknown now d) =
    (excesses k d + if bool_decide (charged_to c = k) then Z.max 0 (charged - reserved_tokens c) else 0)%Z.
Proof.
  intros Hu Hc Hn. unfold excesses. rewrite sum_settled by done.
  assert (excess k c = 0%Z) as -> by (unfold excess; by rewrite Hn).
  change (excess k (set_settled u charged unknown now c)) with
    (if bool_decide (charged_to c = k) then Z.max 0 (charged - reserved_tokens c) else 0)%Z. lia.
Qed.

Lemma step_within d d' : budget_step not_below d d' → budget_ok d → within_limit d → within_limit d'.
Proof.
  intros H Hok Hw. destruct H as [ns a now d|ref id a tokens r now d Hr Hk Hnew|c u charged now d Hc Hs Hch|ns a limit reason actor now r d Hr Hk HQ];
    intros r' n Hr' Hn.
  - cbn in Hr'. destruct (insert_or_ignore_cases account_clash (new_account ns a now) (accounts d)) as [[E _]|[E _]%insert_row_some];
      rewrite E in Hr'; [by apply Hw|]. apply elem_of_app in Hr' as [Hr'| ->%list_elem_of_singleton]; [by apply Hw|done].
  - assert (∀ k, excesses k (reserved_db ref id a tokens r now d) = excesses k d) as He.
    { intros k. unfold excesses. cbn. rewrite sum_of_app. unfold sum_of at 2. simpl.
      change (excess k (new_call ref id a tokens r now)) with 0%Z. lia. }
    rewrite He. cbn in Hr'. destruct (fits r tokens) eqn:Ef; [|by apply Hw].
    apply elem_of_update_where in Hr' as [[Hin _]|(r0 & Hin & Hk0%of_account_eq & ->)]; [by apply Hw|].
    assert (r0 = r) as -> by (eapply (unique_eq account_key); [apply Hok|done|done|congruence]).
    cbn in Hn |- *. unfold fits in Ef. rewrite Hn in Ef. apply Z.leb_le in Ef.
    pose proof (excesses_nonneg (account_key (add_tokens 0 tokens now r)) d). lia.
  - destruct (bo_charged _ Hok c Hc) as [(_ & Hnone & _) _]. destruct (Hnone ltac:(by rewrite Hs)) as (_ & Hc0 & _).
    rewrite excesses_settled by (done || apply Hok).
    apply elem_of_update_where in Hr' as [[Hin _]|(r0 & Hin & Hk0%of_account_eq & ->)].
    + specialize (Hw r' n Hin Hn). case_bool_decide; lia.
    + cbn in Hn |- *. specialize (Hw r0 n Hin Hn). change (account_key (add_tokens _ _ _ r0)) with (account_key r0).
      rewrite bool_decide_true by by rewrite Hk0. lia.
  - change (excesses _ _) with (excesses (account_key r') d).
    apply elem_of_update_where in Hr' as [[Hin _]|(r0 & Hin & Hk0%of_account_eq & ->)]; [by apply Hw|].
    assert (r0 = r) as -> by (eapply (unique_eq account_key); [apply Hok|done|done|congruence]).
    cbn in Hn |- *. subst limit. cbn in HQ. pose proof (excesses_nonneg (account_key (set_limit (Some n) (revision r + 1) now r)) d). lia.
Qed.

(** C24: as long as no limit is set below what is already used and reserved, an account never has
    more used and reserved than its limit allows, but for what calls turned out to use
    beyond their reservations: no interleaving of admissions oversells. *)
Theorem budget_within_limit ops r n : let d := db (spends ops no_budgets) in
  (∀ before o after, ops = before ++ o :: after → sets not_below o (spends before no_budgets)) →
  r ∈ accounts d → limit_tokens r = Some n →
  (used_tokens r + ba_reserved_tokens r ≤ n + excesses (account_key r) d)%Z.
Proof.
  intros d Hsets. destruct (spends_steps not_below ops no_budgets no_budgets_ok Hsets) as [Hs _].
  assert (within_limit d) as H; [|apply H].
  assert (within_limit (db no_budgets)) as H0 by by intros ? ? ?%elem_of_nil.
  pose proof no_budgets_ok as Hok0. revert Hs H0 Hok0. fold d. generalize (db no_budgets) d. clear. intros d0 d.
  induction 1 as [|d1 d2 d3 H _ IH]; [done|]. intros Hw Hok. apply IH; [by eapply step_within|by eapply step_ok].
Qed.

(** ** One charge *)

Inductive call_change : relation CallRow :=
| cc_settle c u charged now : bc_status c = Reserved → usage_charge u c = Some charged →
    call_change c (set_settled u charged (is_unknown u) now c).
Definition call_admitted c : Prop := bc_status c ≠ Settled.

Lemma step_calls Q d d' : budget_step Q d d' → budget_ok d → evolves call_change call_admitted (calls d) (calls d').
Proof.
  intros H Hok. destruct H as [| ref id a tokens r now d Hr Hk Hnew|c u charged now d Hc Hs Hch|]; [apply evolves_refl| | |apply evolves_refl].
  - exists (calls d), [new_call ref id a tokens r now]. split_and!; [done|done|]. apply Forall_singleton.
    eexists. split; [|apply rtc_refl]. unfold call_admitted. cbn. by destruct (fits r tokens).
  - apply evolves_update. intros c' Hc' Hk%of_call_eq.
    assert (c' = c) as -> by (eapply (unique_eq call_key); [apply Hok|done|done|exact Hk]). apply rtc_once. by apply cc_settle.
Qed.

Lemma calls_evolve ops w : budget_ok (db w) → evolves call_change call_admitted (calls (db w)) (calls (db (spends ops w))).
Proof.
  intros Hok. destruct (spends_steps (λ _ _, True) ops w Hok) as [Hs _]; [by intros ? [] ? _|].
  revert Hs Hok. generalize (db w) (db (spends ops w)). induction 1 as [|d1 d2 d3 H _ IH]; intros Hok; [apply evolves_refl|].
  eapply evolves_trans; [by eapply step_calls|]. apply IH. by eapply step_ok.
Qed.

Definition settled_from c c' : Prop :=
  c' = c ∨ bc_status c = Reserved ∧ ∃ u charged now, usage_charge u c = Some charged ∧ c' = set_settled u charged (is_unknown u) now c.

Lemma changes_settled c c' : rtc call_change c c' → settled_from c c'.
Proof.
  induction 1 as [|c1 c2 c3 [c u charged now Hs Hch] _ IH]; [by left|].
  destruct IH as [->|[Hs' _]]; [|done]. right. split; [done|]. by exists u, charged, now.
Qed.

(** C: a call that was admitted or denied stays, with its account, its Execution and its reservation.
    It is settled at most once, while it is reserved, with a charge that is its reservation
    when the usage is unknown and else the tokens reported; then nothing changes it. *)
Theorem call_settled_once ops ops' c : let w := spends ops no_budgets in
  c ∈ calls (db w) → ∃ c', c' ∈ calls (db (spends ops' w)) ∧ settled_from c c'.
Proof.
  intros w Hc. destruct (spends_steps (λ _ _, True) ops no_budgets no_budgets_ok) as [_ Hok]; [by intros ? [] ? _|].
  destruct (evolves_row _ _ _ _ _ (calls_evolve ops' w Hok) Hc) as (c' & Hc' & Hs). exists c'. split; [done|by apply changes_settled].
Qed.

(** ** Settlements *)

Lemma found_call d c : budget_ok d → c ∈ calls d → fetchone (of_call (bc_namespace_id c) (model_call_id c)) (calls d) = Some c.
Proof.
  intros Hok Hc. apply (fetchone_unique call_key); [apply Hok|done|by apply of_call_eq|]. intros c' _ H%of_call_eq. by rewrite H.
Qed.

Lemma settled_in d c u n unknown now : c ∈ calls d → set_settled u n unknown now c ∈ calls (settled_db c u n unknown now d).
Proof. intros Hc. apply elem_of_update_where. right. exists c. split_and!; [done|by apply of_call_eq|done]. Qed.

(** an open call is settled with what its usage charges: the charge moves from what is reserved on
    its account to what is used.  The same report again is confirmed, any other rejected, and
    neither changes anything; the call is not admitted again either. *)
Theorem settle_correct ops c u n now : let w := spends ops no_budgets in
  c ∈ calls (db w) → bc_status c = Reserved → usage_charge u c = Some n →
  ∃ w', settle (bc_ref c) (model_call_id c) u now w = (Ret {| cd_status := confirmed; cd_reason := None |}, w') ∧
    set_settled u n (is_unknown u) now c ∈ calls (db w') ∧
    (∀ r, r ∈ accounts (db w) → account_key r = charged_to c → add_tokens n (- reserved_tokens c) now r ∈ accounts (db w')) ∧
    (∀ u' later, ∃ reason, settle (bc_ref c) (model_call_id c) u' later w' =
       (Ret {| cd_status := if bool_decide (u' = u) then confirmed else rejected; cd_reason := reason |}, w')) ∧
    ∀ a tokens later, require_identifier (model_call_id c) = Ret tt →
      ∃ reason, reserve (bc_ref c) (model_call_id c) a tokens later w' = (Ret {| cd_status := admitted; cd_reason := reason |}, w').
Proof.
  intros w Hc Hs Hn. destruct (spends_steps (λ _ _, True) ops no_budgets no_budgets_ok) as [_ Hok]; [by intros ? [] ? _|]. fold w in Hok.
  destruct (bo_charged _ Hok c Hc) as [(_ & _ & _ & Hns) _]. pose proof (found_call _ c Hok Hc) as Hf. rewrite Hns in Hf.
  pose proof (ok_settle _ c u n (is_unknown u) now Hok Hc Hs) as Hok'.
  pose proof (found_call _ (set_settled u n (is_unknown u) now c) Hok' (settled_in _ c u n _ now Hc)) as Hf'.
  change (bc_namespace_id (set_settled u n (is_unknown u) now c)) with (bc_namespace_id c) in Hf'.
  change (model_call_id (set_settled u n (is_unknown u) now c)) with (model_call_id c) in Hf'. rewrite Hns in Hf'.
  exists (mk_world (settled_db c u n (is_unknown u) now (db w)) (drawn w)). split_and!.
  - unfold settle. apply transaction_ret. rewrite (py_bind_run get_db _ w (db w) w) by done. rewrite Hf.
    rewrite bool_decide_true by done. cbn [negb]. rewrite !bool_decide_false by by rewrite Hs.
    rewrite (py_bind_run _ _ w n w); [done|]. unfold usage_charge in Hn. destruct (is_unknown u); [by injection Hn as <-|].
    destruct (input_tokens u), (output_tokens u); try done. by injection Hn as <-.
  - by apply settled_in.
  - intros r Hr Hk. apply elem_of_update_where. right. exists r. split_and!; [done|by apply of_account_eq|done].
  - intros u' later. destruct (decide (u' = u)) as [->|Hne]; eexists; unfold settle; apply transaction_ret; erewrite py_bind_run by reflexivity; cbn [db]; rewrite Hf';
      rewrite (bool_decide_true (bc_ref _ = _)) by done; cbn [negb]; rewrite (bool_decide_false (_ = Denied)) by done;
      rewrite (bool_decide_true (bc_status _ = _)) by done; cbn [usage set_settled]; [by rewrite !bool_decide_true|].
    by rewrite !bool_decide_false by congruence.
  - intros a tokens later Hid. eexists. unfold reserve. rewrite (py_bind_run _ _ _ tt (mk_world (settled_db c u n (is_unknown u) now (db w)) (drawn w)))
      by (unfold py_pure; by rewrite Hid). apply transaction_ret. erewrite py_bind_run by reflexivity. cbn [db]. rewrite Hf'.
    by rewrite py_guard_run by by apply bool_decide_eq_true.
Qed.

(** ** The end of an Execution *)

Definition written_off now c : CallRow := set_settled unreported (reserved_tokens c) true now c.

Lemma settle_rows_run rows now w : NoDup (call_key <$> rows) → unique call_key (calls (db w)) →
  (∀ c, c ∈ rows → c ∈ calls (db w)) → ∃ w', settle_rows rows now w = (Ret tt, w') ∧
    ∀ c', c' ∈ calls (db w') ↔ (c' ∈ calls (db w) ∧ c' ∉ rows) ∨ ∃ c, c ∈ rows ∧ c' = written_off now c.
Proof.
  revert w. induction rows as [|c rows IH]; intros w Hnd Hu Hrows.
  { exists w. split; [done|]. set_solver. }
  rewrite fmap_cons in Hnd. apply NoDup_cons in Hnd as [Hc Hnd].
  set (w1 := mk_world (settled_db c unreported (reserved_tokens c) true now (db w)) (drawn w)).
  assert (∀ c', c' ∈ calls (db w1) ↔ (c' ∈ calls (db w) ∧ c' ≠ c) ∨ c' = written_off now c) as Hw1.
  { intros c'. cbn. rewrite elem_of_update_where. split.
    - intros [[Hin Hk%bool_decide_eq_false]|(c0 & Hin & Hk%of_call_eq & ->)]; [left; split; [done|by intros ->]|].
      assert (c0 = c) as -> by (apply (unique_eq call_key (calls (db w))); [done|done|by apply Hrows; left|done]). by right.
    - intros [[Hin Hne]| ->]; [left; split; [done|]|right; exists c; split_and!; [apply Hrows; left|by apply of_call_eq|done]].
      apply bool_decide_eq_false. intros Hk. apply Hne.
      apply (unique_eq call_key (calls (db w))); [done|done|by apply Hrows; left|done]. }
  assert (∀ c', c' ∈ rows → c' ≠ c) as Hne by (intros c' Hc' ->; apply Hc; by apply list_elem_of_fmap_2).
  assert (written_off now c ∉ rows) as Hwo.
  { intros Hin. apply Hc. change (call_key c) with (call_key (written_off now c)). by apply list_elem_of_fmap_2. }
  destruct (IH w1) as (w' & Hrun & Hw').
  - done.
  - by apply update_unique.
  - intros c' Hc'. apply Hw1. left. split; [by apply Hrows; right|by apply Hne].
  - exists w'. split; [exact Hrun|]. intros c'. rewrite Hw', Hw1. setoid_rewrite elem_of_cons. naive_solver.
Qed.

(** when an Execution has ended, settling what it did not report always succeeds: each of its open
    calls is charged what it reserved and marked for reconciliation, every other call is as
    it was, and no call of the Execution is left open. *)
Theorem execution_settled ops ns xid now : let w := spends ops no_budgets in
  ∃ w', settle_unreported ns xid now w = (Ret (length (select (unsettled ns xid) (calls (db w)))), w') ∧
    (∀ c, c ∈ calls (db w') → unsettled ns xid c = false) ∧
    ∀ c, c ∈ calls (db w) → (if unsettled ns xid c then written_off now c else c) ∈ calls (db w').
Proof.
  intros w. destruct (spends_steps (λ _ _, True) ops no_budgets no_budgets_ok) as [_ Hok]; [by intros ? [] ? _|]. fold w in Hok.
  set (rows := select (unsettled ns xid) (calls (db w))).
  assert (∀ c, c ∈ rows ↔ unsettled ns xid c = true ∧ c ∈ calls (db w)) as Hrows by (intros c; apply elem_of_rows).
  destruct (settle_rows_run rows now w) as (w' & Hrun & Hw').
  - apply (sublist_NoDup _ (call_key <$> calls (db w))); [apply Hok|]. unfold rows, select. apply fmap_sublist, sublist_filter.
  - apply Hok.
  - intros c Hc. by apply Hrows.
  - exists w'. split_and!.
    + unfold settle_unreported. apply transaction_ret. rewrite (py_bind_run get_db _ w (db w) w) by done.
      by rewrite (py_bind_run _ _ _ _ _ Hrun).
    + intros c [[Hc Hno]|(c0 & _ & ->)]%Hw'; [|apply bool_decide_eq_false; by intros (_ & ? & _)].
      destruct (unsettled ns xid c) eqn:E; [|done]. destruct Hno. by apply Hrows.
    + intros c Hc. apply Hw'. destruct (unsettled ns xid c) eqn:E; [right; exists c; by rewrite Hrows|left].
      split; [done|]. rewrite Hrows. by intros [? _]; congruence.
Qed.

(** ** The port *)

Section port.
Context {I : Type} (from_execution : ExecutionContext → InvocationRef) (tokens : Z).

(** What is admitted has its tokens reserved; what is denied has a limit that they do not fit. *)
Lemma admit_new ops x id a now (d : DB I) : let w := spends ops no_budgets in
  _account x d = Ret a → require_identifier id = Ret tt →
  (∀ c, c ∈ calls (db w) → call_key c ≠ (iv_namespace_id (from_execution x), id)) →
  ∃ r answer w', r ∈ accounts (with_account (iv_namespace_id (from_execution x)) a now (db w)) ∧
    account_key r = (iv_namespace_id (from_execution x), a) ∧
    _admit from_execution tokens x id now d w = (Ret answer, w') ∧
    db w' = reserved_db (from_execution x) id a tokens r now (with_account (iv_namespace_id (from_execution x)) a now (db w)) ∧
    an_status answer = (if fits r tokens then admitted else denied) ∧
    an_stored_ref answer = (if fits r tokens then Some (reservation_ref id) else None).
Proof.
  intros w Ha Hid Hnew. set (ns := iv_namespace_id (from_execution x)).
  destruct (spends_steps (λ _ _, True) ops no_budgets no_budgets_ok) as [_ Hok]; [by intros ? [] ? _|]. fold w in Hok.
  destruct (with_account_in ns a now (db w)) as (r & Hr & Hk). exists r.
  set (w1 := mk_world (with_account ns a now (db w)) (drawn w)).
  assert (_ensure_account ns a now w = (Ret r, w1)) as He.
  { unfold _ensure_account, py_bind, with_db, py_modify, get_db. cbn [db].
    change (with_accounts _ (db w)) with (with_account ns a now (db w)).
    assert (fetchone (of_account ns a) (accounts (with_account ns a now (db w))) = Some r) as E; [|by rewrite E].
    apply (fetchone_unique account_key); [by apply ok_ensure|done|by apply of_account_eq|]. intros r' _ H%of_account_eq. by rewrite H. }
  assert (insert_row budget_call_clash (new_call (from_execution x) id a tokens r now) (calls (db w)) =
    Some (calls (db w) ++ [new_call (from_execution x) id a tokens r now])) as Hi.
  { unfold insert_row. destruct (existsb _ _) eqn:Ex; [|done]. apply existsb_exists in Ex as (c & Hc & Hk').
    rewrite <- list_elem_of_In in Hc. apply bool_decide_eq_true in Hk'. destruct (Hnew c Hc). by rewrite <- Hk'. }
  assert (fetchone (of_call ns id) (calls (db w)) = None) as Hf.
  { apply fetchone_none. intros c Hc. by apply bool_decide_eq_false, Hnew. }
  eexists _, (mk_world (reserved_db (from_execution x) id a tokens r now (with_account ns a now (db w))) (drawn w)).
  split_and!; [done|done| |done| |].
  - unfold _admit. rewrite (py_bind_run _ _ _ a w) by (unfold py_pure; by rewrite Ha).
    rewrite (py_bind_run _ _ w {| cd_status := if fits r tokens then admitted else denied;
      cd_reason := if fits r tokens then None else Some (exhausted a r) |}
      (mk_world (reserved_db (from_execution x) id a tokens r now (with_account ns a now (db w))) (drawn w))); [reflexivity|].
    unfold reserve. rewrite (py_bind_run _ _ _ tt w) by (unfold py_pure; by rewrite Hid).
    apply transaction_ret. rewrite (py_bind_run get_db _ w (db w) w) by done. fold ns. rewrite Hf, (py_bind_run _ _ _ _ _ He).
    unfold reserved_db, update_account, py_bind, with_db, py_modify, get_db, py_ret. fold ns.
    destruct (fits r tokens); cbn [db drawn];
      change (insert_row budget_call_clash _ _) with
        (insert_row budget_call_clash (new_call (from_execution x) id a tokens r now) (calls (db w))); by rewrite Hi.
  - by destruct (fits r tokens).
  - by destruct (fits r tokens).
Qed.
End port.
