(* ===== verification/BudgetRun.v ===== *)
(** * A run of the budgets

    A group's account with a limit of 10000 tokens: two calls are admitted, a third denied; one
    is settled beyond its reservation. *)

From S2P Require Import Prelude OrderedDict PyJson Tables MateModels RequestStore BudgetStore BudgetProps.

Definition group_account : BudgetAccountRef := {| kind := KGroup; key := "oc_1" |}.
Definition invocation (execution : string) : InvocationRef :=
  {| iv_namespace_id := "ns"; iv_execution_id := execution; iv_rest := "bot" |}.
Definition measured (input output : Z) : ModelUsage :=
  {| us_status := "measured"; input_tokens := Some input; output_tokens := Some output; us_reason := None |}.

Definition budgeted : list budget_op :=
  [BAdjust "ns" group_account (Some 10000%Z) "start" "owner" 1;
   BReserve (invocation "exe_a") "call_1" group_account 4096 2; BReserve (invocation "exe_b") "call_2" group_account 4096 3;
   BReserve (invocation "exe_b") "call_3" group_account 4096 4].
Definition overrun : list budget_op := budgeted ++ [BSettle (invocation "exe_a") "call_1" (measured 6000 1000) 5].

Definition group_row (used reserved now : Z) : AccountRow :=
  {| ba_namespace_id := "ns"; ba_account := group_account; limit_tokens := Some 10000%Z; used_tokens := used;
     ba_reserved_tokens := reserved; revision := 1; ba_updated_at := now |}.
Definition first_call : CallRow :=
  {| bc_namespace_id := "ns"; model_call_id := "call_1"; bc_account := group_account; bc_ref := invocation "exe_a";
     bc_status := Reserved; reserved_tokens := 4096; account_revision := 1; bc_reason := None; usage := None;
     charged_tokens := None; needs_reconciliation := false; admitted_at := 2; settled_at := None |}.

Example run_budgets : accounts (db (spends budgeted no_budgets)) = [group_row 0 8192 3] ∧
  (λ c, (model_call_id c, bc_status c, bc_reason c)) <$> calls (db (spends budgeted no_budgets)) =
    [("call_1", Reserved, None); ("call_2", Reserved, None);
     ("call_3", Denied, Some "group budget exhausted: 8192/10000 tokens")].
Proof. by vm_compute. Qed.

Lemma overrun_in : group_row 7000 4096 5 ∈ accounts (db (spends overrun no_budgets)).
Proof. assert (accounts (db (spends overrun no_budgets)) = [group_row 7000 4096 5]) as -> by by vm_compute. by left. Qed.

Lemma first_in : first_call ∈ calls (db (spends budgeted no_budgets)).
Proof.
  assert (head (calls (db (spends budgeted no_budgets))) = Some first_call) as E by by vm_compute.
  destruct (calls _); [done|]. injection E as ->. by left.
Qed.

(** Only the first call sets a limit, of an account that is new. *)
Lemma overrun_sets before o after : overrun = before ++ o :: after → sets not_below o (spends before no_budgets).
Proof.
  intros E. destruct before as [|o1 before].
  - injection E as <- _. intros r Hr _. cbn in Hr. apply list_elem_of_singleton in Hr as ->. by vm_compute.
  - injection E as _ E. do 4 (destruct before as [|? before]; [by injection E as <- _|injection E as _ E]). by destruct before.
Qed.

Lemma budget_within_limit_witness : excesses (account_key (group_row 7000 4096 5)) (db (spends overrun no_budgets)) = 2904%Z ∧
  (7000 + 4096 ≤ 10000 + excesses (account_key (group_row 7000 4096 5)) (db (spends overrun no_budgets)))%Z.
Proof.
  split; [by vm_compute|].
  exact (budget_within_limit overrun (group_row 7000 4096 5) 10000 overrun_sets overrun_in eq_refl).
Defined.

Lemma settle_correct_witness : ∃ w', settle (invocation "exe_a") "call_1" (measured 6000 1000) 5 (spends budgeted no_budgets)
    = (Ret {| cd_status := confirmed; cd_reason := None |}, w') ∧
  set_settled (measured 6000 1000) 7000 false 5 first_call ∈ calls (db w').
Proof.
  destruct (settle_correct budgeted first_call (measured 6000 1000) 7000 5 first_in eq_refl eq_refl) as (w' & H & Hin & _).
  exists w'. split; [exact H|exact Hin].
Defined.
