(* ===== verification/GroupShare.v ===== *)
(** * Sharing between groups

    Source: [server/jiuwenmate/group_share_repository.py].

    What a colleague finds in one group and would answer in another conversation is frozen as a
    receipt, one for each source group, which the owner decides: once, permanently, which
    grants the source to the destination until the grant is revoked, or not at all.  A Request
    is bound to a window of private context, which a revocation retires.

    A row holds the record whose JSON its columns are.  [ShareScope] and [ShareResult] have what
    is read of the dictionaries, with all the rest; [valid] is what the validators of the agent
    core and the limits on the size of JSON texts say of a snapshot, [sha24] the digest of a
    window's boundaries.  The key of a grant is the list of its parts, whose text is within its
    limit since they are identifiers.  Old columns and the owner's views are not modelled. *)

From S2P Require Import Prelude OrderedDict PyJson Tables MateModels RequestStore.

Record ShareTarget := { tg_channel : string; tg_app_id : option string; tg_kind : string; tg_id : string; tg_name : string }.
#[export] Instance ShareTarget_eq : EqDecision ShareTarget.
Proof. solve_decision. Defined.

Record ShareScope := {
  sc_namespace_id : string; sc_config_id : string; sc_agent_id : string; sc_request_id : string; sc_principal_ref : string;
  requester_name : string; target : ShareTarget; search_digest : option string; sc_rest : string;
}.
#[export] Instance ShareScope_eq : EqDecision ShareScope.
Proof. solve_decision. Defined.

Record SourceGroup := { sg_group_id : string; sg_name : string }.

(** [hits]: group and text; [artifacts]: group, kind and snippet; [cli_types]: the [content_types] of a
    [CliReadSnapshot] *)
Record ShareResult := {
  sr_namespace_id : string; sr_agent_id : string; sr_request_id : string; sr_session_id : option string;
  cli_types : option (list string); hits : list (string * string); artifacts : list (string * string * string); sr_rest : string;
}.

Inductive ShareStatus := SPending | SOnce | SPermanent | SRejected | SExpired.
#[export] Instance ShareStatus_eq : EqDecision ShareStatus.
Proof. solve_decision. Defined.
Inductive ShareDecision := Once | Permanent | RejectShare.
#[export] Instance ShareDecision_eq : EqDecision ShareDecision.
Proof. solve_decision. Defined.

(** [group_share_approvals] *)
Record ShareRow := {
  sh_approval_id : string; sh_namespace_id : string; sh_config_id : string; sh_agent_id : string; sh_request_id : string;
  query_digest : string; scope : ShareScope; result : ShareResult; source_groups : list SourceGroup;
  native_approval_id : option string; sh_tool_call_id : option string; tool_call_ids : list string;
  sh_status : ShareStatus; sh_decision : option ShareDecision; sh_created_at : Z; sh_expires_at : Z; decided_at : option Z;
}.

(** [grant_key] *)
Record ShareKey := {
  ky_namespace_id : string; ky_config_id : string; ky_agent_id : string; ky_source_group_id : string;
  ky_channel : string; ky_app_id : option string; ky_kind : string; ky_id : string;
}.
#[export] Instance ShareKey_eq : EqDecision ShareKey.
Proof. solve_decision. Defined.

(** [group_share_grants]; [gr_active] is whether [status] is ['active'], else it is ['revoked'] *)
Record GrantRow := {
  grant_id : string; gr_namespace_id : string; gr_config_id : string; gr_agent_id : string; source_group_id : string;
  source_group_name : string; gr_target : ShareTarget; grant_key : ShareKey; content_types : list string;
  gr_approval_id : string; gr_active : bool; gr_created_at : Z; revoked_at : option Z;
}.

(** [group_share_request_windows] *)
Record WindowRow := { wd_namespace_id : string; wd_request_id : string; wd_agent_id : string; wd_session_id : string; generation : string }.

Record ShareDB := mk_shares { share_approvals : list ShareRow; share_grants : list GrantRow; share_windows : list WindowRow }.
Definition with_shares t d := mk_shares t (share_grants d) (share_windows d).
Definition with_grants t d := mk_shares (share_approvals d) t (share_windows d).
Definition with_windows t d := mk_shares (share_approvals d) (share_grants d) t.

(** The columns of the keys *)
Definition share_key (r : ShareRow) := (sh_namespace_id r, sh_agent_id r, sh_request_id r, query_digest r).
Definition window_key (r : WindowRow) := (wd_namespace_id r, wd_request_id r).
Definition share_clash (r r' : ShareRow) : bool := (sh_approval_id r =s sh_approval_id r') || bool_decide (share_key r = share_key r').
Definition grant_clash (g g' : GrantRow) : bool :=
  (grant_id g =s grant_id g') || gr_active g && gr_active g' && bool_decide (grant_key g = grant_key g').
Definition window_clash (r r' : WindowRow) : bool := bool_decide (window_key r = window_key r').

(** [timedelta(minutes=15)], in microseconds like all instants *)
Definition SHARE_TIMEOUT : Z := 15 * 60 * 1000000.
Definition MAX_PREVIEW_TEXT_BYTES : Z := 512 * 1024.

#[local] Abbreviation call := (py (World ShareDB) mate_error) (only parsing).

(** ** Scopes and snapshots *)

(** [_name] *)
Definition valid_name (s : string) : bool := negb (blank s) && Nat.leb (String.length s) 512.

(** What [_scope_json] checks, but for the query and the size *)
Definition check_scope (s : ShareScope) : outcome mate_error unit :=
  check (require_identifier (sc_namespace_id s)) (check (require_identifier (sc_config_id s))
  (check (require_identifier (sc_agent_id s)) (check (require_identifier (sc_request_id s))
  (check (require_identifier (sc_principal_ref s)) (check (reject (negb (valid_name (requester_name s))) BAD_REQUEST)
  (check (require_identifier (tg_channel (target s))) (check (require_identifier (tg_kind (target s)))
  (check (require_identifier (tg_id (target s)))
  (check (match tg_app_id (target s) with
          | None | Some EmptyString => Ret tt
          | Some app => require_identifier app
          end)
  (reject (negb (valid_name (tg_name (target s)))) BAD_REQUEST)))))))))).

Definition key_of (s : ShareScope) (group_id : string) : ShareKey :=
  {| ky_namespace_id := sc_namespace_id s; ky_config_id := sc_config_id s; ky_agent_id := sc_agent_id s;
     ky_source_group_id := group_id; ky_channel := tg_channel (target s); ky_app_id := tg_app_id (target s);
     ky_kind := tg_kind (target s); ky_id := tg_id (target s) |}.
Definition _grant_key (s : ShareScope) (group_id : string) : outcome mate_error ShareKey :=
  check (require_identifier group_id) (Ret (key_of s group_id)).

Definition _result_content_types (r : ShareResult) : list string :=
  match cli_types r with
  | Some types => types
  | None =>
      let kinds := (λ a, a.1.2) <$> artifacts r in
      (if bool_decide (hits r = []) then [] else ["messages"]) ++ (if bool_decide ("file" ∈ kinds) then ["files"] else []) ++
      (if bool_decide ("online_doc" ∈ kinds) then ["online_docs"] else [])
  end.

(** One of [snapshots] *)
Record Snapshot := { sn_scope : ShareScope; sn_digest : string; sn_result : ShareResult; sn_sources : list SourceGroup }.

Definition preview_bytes (r : ShareResult) : Z :=
  (foldr (λ h n, utf8_len h.2 + n) 0 (hits r) + foldr (λ a n, utf8_len a.2 + n) 0 (artifacts r))%Z.

Definition hex64 (s : string) : bool :=
  Nat.eqb (String.length s) 64 &&
  all_chars (λ c, let n := Ascii.nat_of_ascii c in Nat.leb 48 n && Nat.leb n 57 || Nat.leb 97 n && Nat.leb n 102) s.

Section repository.
Context {I : Type}.
Context (valid : Snapshot → bool) (sha24 : option Z → option (Z * string) → string) (token : nat → string).

(** The loop of [create_or_get_batch] over [snapshots] *)
Definition check_snapshot (s : Snapshot) (seen : list string) : outcome mate_error unit :=
  check (check_scope (sn_scope s))
  (check (reject (negb (hex64 (sn_digest s)) || bool_decide (sn_digest s ∈ seen) || negb (valid s)) BAD_REQUEST)
  (check (reject (negb (bool_decide ((sr_namespace_id (sn_result s), sr_agent_id (sn_result s), sr_request_id (sn_result s))
                                     = (sc_namespace_id (sn_scope s), sc_agent_id (sn_scope s), sc_request_id (sn_scope s)))))
            BAD_REQUEST)
  (match sn_sources s with
   | [g] =>
       check (require_identifier (sg_group_id g))
       (reject (negb (valid_name (sg_name g)) || bool_decide (hits (sn_result s) = [] ∧ artifacts (sn_result s) = []) ||
                negb (forallb (λ h, h.1 =s sg_group_id g) (hits (sn_result s)) && forallb (λ a, a.1.1 =s sg_group_id g) (artifacts (sn_result s)))
                || Z.ltb MAX_PREVIEW_TEXT_BYTES (preview_bytes (sn_result s))) BAD_REQUEST)
   | _ => Exc BAD_REQUEST
   end))).
Fixpoint prepare (l : list Snapshot) (seen : list string) : outcome mate_error unit :=
  match l with
  | [] => Ret tt
  | s :: l' => check (check_snapshot s seen) (prepare l' (sn_digest s :: seen))
  end.

Definition existing_share (s : Snapshot) (d : ShareDB) : option ShareRow :=
  fetchone (λ r, bool_decide (share_key r = (sc_namespace_id (sn_scope s), sc_agent_id (sn_scope s), sc_request_id (sn_scope s), sn_digest s)))
    (share_approvals d).
Fixpoint existing_shares (l : list Snapshot) (d : ShareDB) : outcome mate_error (list (option ShareRow)) :=
  match l with
  | [] => Ret []
  | s :: l' =>
      let row := existing_share s d in
      check (reject (match row with Some r => negb (bool_decide (scope r = sn_scope s)) | None => false end) CONFLICT)
        (match existing_shares l' d with Ret rows => Ret (row :: rows) | Exc e => Exc e end)
  end.

(** The row of the [INSERT] *)
Definition new_share (id : string) (s : Snapshot) (now : Z) : ShareRow :=
  {| sh_approval_id := id; sh_namespace_id := sc_namespace_id (sn_scope s); sh_config_id := sc_config_id (sn_scope s);
     sh_agent_id := sc_agent_id (sn_scope s); sh_request_id := sc_request_id (sn_scope s); query_digest := sn_digest s;
     scope := sn_scope s; result := sn_result s; source_groups := sn_sources s; native_approval_id := None;
     sh_tool_call_id := None; tool_call_ids := []; sh_status := SPending; sh_decision := None; sh_created_at := now;
     sh_expires_at := now + SHARE_TIMEOUT; decided_at := None |}.
Fixpoint insert_shares (l : list Snapshot) (now : Z) : call (list ShareRow) :=
  match l with
  | [] => py_ret []
  | s :: l' =>
      id <- draw token ;;
      d <- get_db ;;
      let row := new_share ("share_" +:+ id) s now in
      t <- py_some (insert_row share_clash row (share_approvals d)) IntegrityError ;;
      with_db (with_shares t) ;;
      rows <- insert_shares l' now ;;
      py_ret (row :: rows)
  end.

Definition create_or_get_batch (l : list Snapshot) (now : Z) : call (list ShareRow) :=
  py_guard (Nat.leb 1 (length l) && Nat.leb (length l) 128) BAD_REQUEST ;;
  py_pure (prepare l []) ;;
  transaction (
    d <- get_db ;;
    rows <- py_pure (existing_shares l d) ;;
    if existsb (λ r, negb (bool_decide (r = None))) (map (fmap sh_approval_id) rows) then
      py_guard (forallb (λ r, negb (bool_decide (r = None))) (map (fmap sh_approval_id) rows)) CONFLICT ;;
      py_ret (omap id rows)
    else insert_shares l now).

(** [create_or_get]; a batch of one has one row *)
Definition create_or_get (s : Snapshot) (now : Z) : call ShareRow :=
  rows <- create_or_get_batch [s] now ;;
  py_some (head rows) PyKeyError.

(** ** Receipts *)

Definition by_share (id : string) (r : ShareRow) : bool := sh_approval_id r =s id.
Definition find_share (id : string) (d : ShareDB) : option ShareRow := fetchone (by_share id) (share_approvals d).
Definition _required (id : string) : call ShareRow := d <- get_db ;; py_some (find_share id d) NOT_FOUND.
Definition update_shares (P : ShareRow → bool) (f : ShareRow → ShareRow) : call unit :=
  with_db (λ d, with_shares (update_where P f (share_approvals d)) d).

Definition set_share (s : ShareStatus) (d : option ShareDecision) (now : Z) (r : ShareRow) : ShareRow :=
  {| sh_approval_id := sh_approval_id r; sh_namespace_id := sh_namespace_id r; sh_config_id := sh_config_id r;
     sh_agent_id := sh_agent_id r; sh_request_id := sh_request_id r; query_digest := query_digest r; scope := scope r;
     result := result r; source_groups := source_groups r; native_approval_id := native_approval_id r;
     sh_tool_call_id := sh_tool_call_id r; tool_call_ids := tool_call_ids r; sh_status := s; sh_decision := d;
     sh_created_at := sh_created_at r; sh_expires_at := sh_expires_at r; decided_at := Some now |}.
Definition set_native (native : string) (call : option string) (ids : list string) (r : ShareRow) : ShareRow :=
  {| sh_approval_id := sh_approval_id r; sh_namespace_id := sh_namespace_id r; sh_config_id := sh_config_id r;
     sh_agent_id := sh_agent_id r; sh_request_id := sh_request_id r; query_digest := query_digest r; scope := scope r;
     result := result r; source_groups := source_groups r; native_approval_id := Some native;
     sh_tool_call_id := call; tool_call_ids := ids; sh_status := sh_status r; sh_decision := sh_decision r;
     sh_created_at := sh_created_at r; sh_expires_at := sh_expires_at r; decided_at := decided_at r |}.

Definition _transition (row : ShareRow) (s : ShareStatus) (now : Z) (d : option ShareDecision) : call ShareRow :=
  update_shares (λ r, by_share (sh_approval_id row) r && bool_decide (sh_status r = SPending)) (set_share s d now) ;;
  _required (sh_approval_id row).

Definition _native_request (native ns rid : string) : call unit :=
  d <- get_db ;;
  py_guard (negb (existsb (λ r, bool_decide (native_approval_id r = Some native) &&
                                 negb (bool_decide (sh_namespace_id r = ns ∧ sh_request_id r = rid))) (share_approvals d))) CONFLICT.

Definition bind_native (ns rid native : string) : call unit :=
  py_pure (require_identifier native) ;;
  transaction (
    _native_request native ns rid ;;
    update_shares (λ r, bool_decide (sh_namespace_id r = ns ∧ sh_request_id r = rid ∧ sh_status r = SPending ∧ native_approval_id r = None))
      (λ r, set_native native (sh_tool_call_id r) (tool_call_ids r) r)).

(** The loop of [bind_call] *)
Definition same_batch (id : string) (batch : option string) (r : ShareRow) : bool :=
  by_share id r || match batch with Some b => bool_decide (search_digest (scope r) = Some b) | None => false end.
Definition unbound (native : string) (r : ShareRow) : bool :=
  match native_approval_id r with Some n => n =s native | None => true end.
Fixpoint bind_rows (rows : list ShareRow) (native call : string) : py (World ShareDB) mate_error unit :=
  match rows with
  | [] => py_ret tt
  | r :: rows' =>
      py_guard (unbound native r) CONFLICT ;;
      let ids := if bool_decide (call ∈ tool_call_ids r) then tool_call_ids r else sorted_names (tool_call_ids r ++ [call]) in
      update_shares (by_share (sh_approval_id r))
        (λ r', set_native native (match sh_tool_call_id r' with Some c => Some c | None => Some call end) ids r') ;;
      bind_rows rows' native call
  end.
Definition bind_call (id native call : string) : py (World ShareDB) mate_error unit :=
  py_pure (require_identifier native) ;;
  py_pure (require_identifier call) ;;
  transaction (
    row <- _required id ;;
    _native_request native (sh_namespace_id row) (sh_request_id row) ;;
    py_guard (unbound native row) CONFLICT ;;
    d <- get_db ;;
    bind_rows (select (λ r, bool_decide (sh_namespace_id r = sh_namespace_id row ∧ sh_config_id r = sh_config_id row ∧
                                         sh_agent_id r = sh_agent_id row ∧ sh_request_id r = sh_request_id row) &&
                            same_batch id (search_digest (scope row)) r) (share_approvals d)) native call).

(** ** Grants *)

Definition active_of (k : ShareKey) (g : GrantRow) : bool := bool_decide (grant_key g = k) && gr_active g.
Definition find_grant (k : ShareKey) (d : ShareDB) : option GrantRow := fetchone (active_of k) (share_grants d).
Definition _has_grant (s : ShareScope) (group_id : string) (types : list string) (d : ShareDB) : outcome mate_error bool :=
  match _grant_key s group_id with
  | Exc e => Exc e
  | Ret k => Ret match find_grant k d with Some g => forallb (λ t, bool_decide (t ∈ content_types g)) types | None => false end
  end.

(** [all(self._has_grant(...) for group in sources)] *)
Fixpoint all_granted (s : ShareScope) (l : list SourceGroup) (types : list string) (d : ShareDB) : outcome mate_error bool :=
  match l with
  | [] => Ret true
  | g :: l' =>
      match _has_grant s (sg_group_id g) types d with
      | Ret true => all_granted s l' types d
      | other => other
      end
  end.

Definition authorize_from_grants (id : string) (now : Z) : call ShareRow :=
  transaction (
    row <- _required id ;;
    if negb (bool_decide (sh_status row = SPending)) then py_ret row
    else if Z.leb (sh_expires_at row) now then _transition row SExpired now None
    else
      let types := _result_content_types (result row) in
      if match source_groups row with [] => true | _ => false end || match types with [] => true | _ => false end then py_ret row
      else
        d <- get_db ;;
        granted <- py_pure (all_granted (scope row) (source_groups row) types d) ;;
        if granted then _transition row SPermanent now (Some Permanent) else py_ret row).

Definition _owner (principal : string) : call unit := py_guard (principal =s "local") FORBIDDEN.
Definition _owned (ns config : string) (owner : string * string) : call unit := py_guard (bool_decide (owner = (ns, config))) FORBIDDEN.

(** [_DECISIONS] *)
Definition decision_status (d : ShareDecision) : ShareStatus :=
  match d with Once => SOnce | Permanent => SPermanent | RejectShare => SRejected end.
Definition decision_of_text (s : string) : option ShareDecision :=
  if s =s "once" then Some Once else if s =s "permanent" then Some Permanent else if s =s "reject" then Some RejectShare else None.

Definition set_types (types : list string) (g : GrantRow) : GrantRow :=
  {| grant_id := grant_id g; gr_namespace_id := gr_namespace_id g; gr_config_id := gr_config_id g; gr_agent_id := gr_agent_id g;
     source_group_id := source_group_id g; source_group_name := source_group_name g; gr_target := gr_target g; grant_key := grant_key g;
     content_types := types; gr_approval_id := gr_approval_id g; gr_active := gr_active g; gr_created_at := gr_created_at g;
     revoked_at := revoked_at g |}.
Definition set_revoked (now : Z) (g : GrantRow) : GrantRow :=
  {| grant_id := grant_id g; gr_namespace_id := gr_namespace_id g; gr_config_id := gr_config_id g; gr_agent_id := gr_agent_id g;
     source_group_id := source_group_id g; source_group_name := source_group_name g; gr_target := gr_target g; grant_key := grant_key g;
     content_types := content_types g; gr_approval_id := gr_approval_id g; gr_active := false; gr_created_at := gr_created_at g;
     revoked_at := Some now |}.
(** The row of the [INSERT] *)
Definition new_grant (id : string) (row : ShareRow) (ns config : string) (g : SourceGroup) (types : list string) (now : Z) : GrantRow :=
  {| grant_id := id; gr_namespace_id := ns; gr_config_id := config; gr_agent_id := sc_agent_id (scope row);
     source_group_id := sg_group_id g; source_group_name := sg_name g; gr_target := target (scope row);
     grant_key := key_of (scope row) (sg_group_id g); content_types := types; gr_approval_id := sh_approval_id row;
     gr_active := true; gr_created_at := now; revoked_at := None |}.

(** The loop of [decide] over the source groups *)
Fixpoint issue_grants (l : list SourceGroup) (row : ShareRow) (ns config : string) (types : list string) (now : Z) : call unit :=
  match l with
  | [] => py_ret tt
  | g :: l' =>
      k <- py_pure (_grant_key (scope row) (sg_group_id g)) ;;
      d <- get_db ;;
      match find_grant k d with
      | Some existing =>
          with_db (λ d, with_grants (update_where (λ x, grant_id x =s grant_id existing)
            (set_types (sorted_names (remove_dups (content_types existing ++ types)))) (share_grants d)) d)
      | None =>
          id <- draw token ;;
          t <- py_some (insert_row grant_clash (new_grant ("share_grant_" +:+ id) row ns config g types now) (share_grants d)) IntegrityError ;;
          with_db (with_grants t)
      end ;;
      issue_grants l' row ns config types now
  end.

(** [decide] *)
Definition share_decide (id ns config principal decision : string) (now : Z) : call ShareRow :=
  _owner principal ;;
  choice <- py_some (decision_of_text decision) BAD_REQUEST ;;
  transaction (
    row <- _required id ;;
    _owned ns config (sh_namespace_id row, sh_config_id row) ;;
    py_guard (Nat.eqb (length (source_groups row)) 1) CONFLICT ;;
    if negb (bool_decide (sh_status row = SPending)) then
      py_guard (bool_decide (sh_decision row = Some choice)) CONFLICT ;; py_ret row
    else if Z.leb (sh_expires_at row) now then _transition row SExpired now None
    else
      py_guard (negb (bool_decide (native_approval_id row = None))) CONFLICT ;;
      (if bool_decide (choice = Permanent) then
         let types := _result_content_types (result row) in
         py_guard (negb (bool_decide (types = []))) BAD_REQUEST ;;
         issue_grants (source_groups row) row ns config types now
       else py_ret tt) ;;
      _transition row (decision_status choice) now (Some choice)).

Definition revoke (id ns config principal : string) (now : Z) : call GrantRow :=
  _owner principal ;;
  transaction (
    d <- get_db ;;
    row <- py_some (fetchone (λ g, grant_id g =s id) (share_grants d)) NOT_FOUND ;;
    _owned ns config (gr_namespace_id row, gr_config_id row) ;;
    with_db (λ d, with_grants (update_where (λ g, (grant_id g =s id) && gr_active g) (set_revoked now) (share_grants d)) d) ;;
    d <- get_db ;;
    py_some (fetchone (λ g, grant_id g =s id) (share_grants d)) PyTypeError).

(** The loop of [expire_pending] *)
Fixpoint expire_shares (rows : list ShareRow) (now : Z) : call (list ShareRow) :=
  match rows with
  | [] => py_ret []
  | row :: rows' =>
      if Z.leb (sh_expires_at row) now || negb (Nat.eqb (length (source_groups row)) 1) then
        updated <- _transition row SExpired now None ;;
        more <- expire_shares rows' now ;;
        py_ret (updated :: more)
      else expire_shares rows' now
  end.
Definition expire_pending_shares (now : Z) : call (list ShareRow) :=
  transaction (d <- get_db ;; expire_shares (select (λ r, bool_decide (sh_status r = SPending)) (share_approvals d)) now).

(** ** Windows *)

Definition approved_share (r : ShareRow) : bool := bool_decide (sh_status r = SOnce ∨ sh_status r = SPermanent).
Definition approvals_for_session (ns agent sid : string) (d : ShareDB) : list ShareRow :=
  py_sorted sh_created_at (select (λ r, bool_decide (sh_namespace_id r = ns ∧ sh_agent_id r = agent ∧
    sr_session_id (result r) = Some sid) && approved_share r) (share_approvals d)).

(** [_once_boundaries]: [None] is the empty text, which sorts before every other *)
Definition _once_boundaries (ns agent sid : string) (rid : option string) (d : ShareDB) : list (option (Z * string)) :=
  None :: ((λ r, Some (default 0%Z (decided_at r), sh_request_id r)) <$>
    filter (λ r, sh_status r = SOnce ∧ Some (sh_request_id r) ≠ rid) (approvals_for_session ns agent sid d)).

(** [max] of boundaries, which are texts [decided_at:request_id] *)
Definition boundary_leb (a b : option (Z * string)) : bool :=
  match a, b with
  | None, _ => true
  | Some _, None => false
  | Some (t, x), Some (u, y) => Z.ltb t u || Z.eqb t u && String.leb x y
  end.
Definition max_boundary (l : list (option (Z * string))) : option (Z * string) :=
  foldr (λ a b, if boundary_leb a b then b else a) None l.

(** [SELECT MAX(revoked_at)] for one source *)
Definition max_opt (l : list Z) : option Z := foldr (λ a b, Some match b with Some b => Z.max a b | None => a end) None l.
Definition revocation (k : ShareKey) (since : Z) (d : ShareDB) : option Z :=
  max_opt (omap (λ g, if bool_decide (grant_key g = k) && negb (gr_active g) then
                        match revoked_at g with Some t => if Z.leb since t then Some t else None | None => None end
                      else None) (share_grants d)).
Fixpoint source_revocations (r : ShareRow) (l : list SourceGroup) (d : ShareDB) : outcome mate_error (list Z) :=
  match l with
  | [] => Ret []
  | g :: l' =>
      match _grant_key (scope r) (sg_group_id g), source_revocations r l' d with
      | Ret k, Ret ts => Ret (match revocation k (default 0%Z (decided_at r)) d with Some t => t :: ts | None => ts end)
      | Exc e, _ | _, Exc e => Exc e
      end
  end.
Fixpoint revocations (l : list ShareRow) (d : ShareDB) : outcome mate_error (list Z) :=
  match l with
  | [] => Ret []
  | r :: l' =>
      match (if bool_decide (sh_status r = SPermanent) then source_revocations r (source_groups r) d else Ret []), revocations l' d with
      | Ret ts, Ret ts' => Ret (ts ++ ts')
      | Exc e, _ | _, Exc e => Exc e
      end
  end.
Definition window_revoked_at (ns agent sid : string) (d : ShareDB) : outcome mate_error (option Z) :=
  match revocations (approvals_for_session ns agent sid d) d with Ret ts => Ret (max_opt ts) | Exc e => Exc e end.

Definition _window_generation_digest (cutoff : option Z) (once : option (Z * string)) : string :=
  match cutoff, once with None, None => EmptyString | _, _ => sha24 cutoff once end.

Definition window_generation (ns agent sid : string) (rid : option string) (d : ShareDB) : outcome mate_error string :=
  match window_revoked_at ns agent sid d with
  | Ret cutoff => Ret (_window_generation_digest cutoff (max_boundary (_once_boundaries ns agent sid rid d)))
  | Exc e => Exc e
  end.

Definition find_window (ns rid : string) (d : ShareDB) : option WindowRow :=
  fetchone (λ r, bool_decide (window_key r = (ns, rid))) (share_windows d).

(** [requests]: the table of Requests, when the file has it *)
Definition request_window_is_current (requests : option (list (RequestState I))) (ns rid : string) (d : ShareDB) : outcome mate_error bool :=
  match find_window ns rid d with
  | Some row =>
      match window_revoked_at ns (wd_agent_id row) (wd_session_id row) d with
      | Ret cutoff => Ret (existsb (λ once, generation row =s _window_generation_digest cutoff once)
                             (_once_boundaries ns (wd_agent_id row) (wd_session_id row) (Some rid) d))
      | Exc e => Exc e
      end
  | None =>
      match fetchone (λ r, bool_decide (namespace_id (record r) = ns ∧ request_id (record r) = rid)) (default [] requests) with
      | Some legacy =>
          match window_revoked_at ns (agent_id (record legacy)) (session_id (record legacy)) d with
          | Ret (Some cutoff) => Ret (Z.ltb cutoff (received_at (record legacy)))
          | Ret None => Ret true
          | Exc e => Exc e
          end
      | None => Ret true
      end
  end.

(** [bind_request_window] from its last transaction on, with the generation computed before *)
Definition bind_window (ns agent sid rid gen : string) : call string :=
  transaction (
    with_db (λ d, with_windows (insert_or_ignore window_clash
      {| wd_namespace_id := ns; wd_request_id := rid; wd_agent_id := agent; wd_session_id := sid; generation := gen |} (share_windows d)) d) ;;
    d <- get_db ;;
    row <- py_some (find_window ns rid d) PyTypeError ;;
    py_guard (bool_decide ((wd_agent_id row, wd_session_id row) = (agent, sid))) FORBIDDEN ;;
    py_ret (generation row)).
(** [bind_request_window] when nothing happens between its transactions *)
Definition bind_request_window (requests : option (list (RequestState I))) (ns agent sid rid : string) : call string :=
  d <- get_db ;;
  gen <- py_pure (window_generation ns agent sid (Some rid) d) ;;
  current <- py_pure (request_window_is_current requests ns rid d) ;;
  py_guard current FORBIDDEN ;;
  bind_window ns agent sid rid gen.
Definition saved_request_window (ns rid : string) (d : ShareDB) : string :=
  match find_window ns rid d with Some row => generation row | None => EmptyString end.

(** ** Queries *)

Definition for_query (ns agent rid digest : string) (d : ShareDB) : option ShareRow :=
  fetchone (λ r, bool_decide (share_key r = (ns, agent, rid, digest))) (share_approvals d).
Definition for_batch (ns agent rid batch : string) (d : ShareDB) : list ShareRow :=
  select (λ r, bool_decide (sh_namespace_id r = ns ∧ sh_agent_id r = agent ∧ sh_request_id r = rid) &&
               bool_decide (search_digest (scope r) = Some batch)) (share_approvals d).
Definition _for_request (ns rid : string) (approved : bool) (d : ShareDB) : list ShareRow :=
  select (λ r, bool_decide (sh_namespace_id r = ns ∧ sh_request_id r = rid) &&
               if approved then approved_share r else bool_decide (sh_status r = SPending)) (share_approvals d).
Definition denied_groups (ns agent rid : string) (d : ShareDB) : list string :=
  (r ← select (λ r, bool_decide (sh_namespace_id r = ns ∧ sh_agent_id r = agent ∧ sh_request_id r = rid ∧
                                 (sh_status r = SRejected ∨ sh_status r = SExpired))) (share_approvals d);
   sg_group_id <$> source_groups r).
Definition for_native_all (native : string) (d : ShareDB) : list ShareRow :=
  select (λ r, bool_decide (native_approval_id r = Some native)) (share_approvals d).
Definition for_native (native : string) (d : ShareDB) : option ShareRow := head (for_native_all native d).
End repository.
