(* ===== verification/GroupShareProps.v ===== *)
(** * Sharing between groups: theorems

    Nothing is shared that the owner has not decided, for the content and the destination that
    were decided, and no grant that was revoked comes back by itself. *)

From S2P Require Import Prelude OrderedDict PyJson Tables MateModels RequestStore GroupShare.

Section props.
Context (valid : Snapshot → bool) (token : nat → string).
Implicit Types (d : ShareDB) (w : World ShareDB) (r : ShareRow) (g : GrantRow).

Inductive share_op :=
| SCreate (l : list Snapshot) (now : Z)
| SBindNative (ns rid native : string)
| SBindCall (id native call : string)
| SAuthorize (id : string) (now : Z)
| SDecide (id ns config principal decision : string) (now : Z)
| SRevoke (id ns config principal : string) (now : Z)
| SExpire (now : Z)
| SWindow (ns agent sid rid gen : string).

Definition share (o : share_op) w : World ShareDB :=
  match o with
  | SCreate l now => (create_or_get_batch valid token l now w).2
  | SBindNative ns rid native => (bind_native ns rid native w).2
  | SBindCall id native call => (bind_call id native call w).2
  | SAuthorize id now => (authorize_from_grants id now w).2
  | SDecide id ns config principal decision now => (share_decide token id ns config principal decision now w).2
  | SRevoke id ns config principal now => (revoke id ns config principal now w).2
  | SExpire now => (expire_pending_shares now w).2
  | SWindow ns agent sid rid gen => (bind_window ns agent sid rid gen w).2
  end.
Definition shares (ops : list share_op) w : World ShareDB := foldl (λ w o, share o w) w ops.
Definition no_shares : World ShareDB := mk_world (mk_shares [] [] []) 0.

Lemma shares_app ops ops' w : shares (ops ++ ops') w = shares ops' (shares ops w).
Proof. apply foldl_app. Qed.

(** ** The invariant *)

Definition status_decision (s : ShareStatus) : option ShareDecision :=
  match s with SOnce => Some Once | SPermanent => Some Permanent | SRejected => Some RejectShare | SPending | SExpired => None end.

(** One source group, with an identifier *)
Definition one_source (l : list SourceGroup) : Prop := ∃ src, l = [src] ∧ require_identifier (sg_group_id src) = Ret tt.

Definition share_wf r : Prop :=
  (sh_namespace_id r, sh_config_id r, sh_agent_id r, sh_request_id r)
    = (sc_namespace_id (scope r), sc_config_id (scope r), sc_agent_id (scope r), sc_request_id (scope r)) ∧
  one_source (source_groups r) ∧ sh_expires_at r = (sh_created_at r + SHARE_TIMEOUT)%Z ∧
  sh_decision r = status_decision (sh_status r) ∧ (sh_status r = SPending ↔ decided_at r = None).

Record shares_ok d : Prop := {
  so_ids : unique sh_approval_id (share_approvals d);
  so_keys : unique share_key (share_approvals d);
  so_rows : ∀ r, r ∈ share_approvals d → share_wf r;
  so_grants : unique grant_id (share_grants d);
  so_active : ∀ g g', g ∈ share_grants d → g' ∈ share_grants d → gr_active g = true → gr_active g' = true → grant_key g = grant_key g' → g = g';
  so_revoked : ∀ g, g ∈ share_grants d → gr_active g = true ↔ revoked_at g = None;
  so_windows : unique window_key (share_windows d);
}.

(** ** Every call is made of these *)

(** [f] changes to which native approval a receipt belongs. *)
Definition rebinds (f : ShareRow → ShareRow) : Prop := ∀ r, ∃ native call ids, f r = set_native native call ids r.

(** [Cg]: the types that may be granted for a key; [Cr]: how a receipt may be answered *)
Inductive share_step (Cg : ShareKey → string → Prop) (Cr : ShareRow → ShareStatus → Prop) : relation ShareDB :=
| ss_create id s now t d : one_source (sn_sources s) → insert_row share_clash (new_share id s now) (share_approvals d) = Some t →
    share_step Cg Cr d (with_shares t d)
| ss_bind P f d : rebinds f → share_step Cg Cr d (with_shares (update_where P f (share_approvals d)) d)
| ss_answer id s now d : s ≠ SPending →
    (∀ r, r ∈ share_approvals d → sh_approval_id r = id → sh_status r = SPending → Cr r s) →
    share_step Cg Cr d (with_shares (update_where (λ r, by_share id r && bool_decide (sh_status r = SPending))
                          (set_share s (status_decision s) now) (share_approvals d)) d)
| ss_grant id r ns config src types now t d : (∀ ty, ty ∈ types → Cg (key_of (scope r) (sg_group_id src)) ty) →
    insert_row grant_clash (new_grant id r ns config src types now) (share_grants d) = Some t →
    share_step Cg Cr d (with_grants t d)
| ss_types g types d : g ∈ share_grants d → gr_active g = true →
    (∀ ty, ty ∈ types → ty ∈ content_types g ∨ Cg (grant_key g) ty) →
    share_step Cg Cr d (with_grants (update_where (λ x, grant_id x =s grant_id g) (set_types types) (share_grants d)) d)
| ss_revoke id now d :
    share_step Cg Cr d (with_grants (update_where (λ x, (grant_id x =s id) && gr_active x) (set_revoked now) (share_grants d)) d)
| ss_window row d : share_step Cg Cr d (with_windows (insert_or_ignore window_clash row (share_windows d)) d).

Lemma share_step_ok Cg Cr d d' : share_step Cg Cr d d' → shares_ok d → shares_ok d'.
Proof.
  intros H [Hi Hk Hr Hg Ha Hv Hw].
  destruct H as [id s now t d Hs Hins|P f d Hf|id s now d Hs _|id r ns config src types now t d _ Hins|g types d Hin Hact _|id now d|row d];
    split; cbn; try done.
  - eapply insert_unique; [exact Hins| |done]. intros r' E. unfold share_clash. by rewrite orb_true_iff, eqs_true; left.
  - eapply insert_unique; [exact Hins| |done]. intros r' E. unfold share_clash. rewrite orb_true_iff, bool_decide_eq_true. by right.
  - apply insert_row_some in Hins as [-> _]. intros r [Hin| ->%list_elem_of_singleton]%elem_of_app; [by apply Hr|]. by split_and!.
  - apply update_unique; [|done]. intros r _ _. by destruct (Hf r) as (? & ? & ? & ->).
  - apply update_unique; [|done]. intros r _ _. by destruct (Hf r) as (? & ? & ? & ->).
  - intros r [[Hin _]|(r0 & Hin & _ & ->)]%elem_of_update_where; [by apply Hr|]. destruct (Hf r0) as (? & ? & ? & ->).
    exact (Hr r0 Hin).
  - by apply update_unique.
  - by apply update_unique.
  - intros r [[Hin _]|(r0 & Hin & _ & ->)]%elem_of_update_where; [by apply Hr|]. destruct (Hr r0 Hin) as (? & ? & ? & _).
    by split_and!.
  - eapply insert_unique; [exact Hins| |done]. intros g' E. unfold grant_clash. by rewrite orb_true_iff, eqs_true; left.
  - apply insert_row_some in Hins as [-> Hno].
    intros g g' [Hin| ->%list_elem_of_singleton]%elem_of_app [Hin'| ->%list_elem_of_singleton]%elem_of_app Hg1 Hg2 E; [by apply Ha| | |done];
      [specialize (Hno g Hin)|specialize (Hno g' Hin')]; unfold grant_clash in Hno; rewrite ?Hg1, ?Hg2 in Hno; cbn in Hno;
      apply orb_false_iff in Hno as [_ Hno%bool_decide_eq_false]; by destruct Hno.
  - apply insert_row_some in Hins as [-> _]. intros g [Hin| ->%list_elem_of_singleton]%elem_of_app; [by apply Hv|done].
  - by apply update_unique.
  - intros x y [[Hx Px]|(x0 & Hx & Px & ->)]%elem_of_update_where [[Hy Py]|(y0 & Hy & Py & ->)]%elem_of_update_where Ax Ay E;
      [by apply Ha| | |].
    + apply eqs_true in Py. assert (x = y0) as -> by (by apply Ha). by rewrite (proj2 (eqs_true _ _)) in Px.
    + apply eqs_true in Px. assert (x0 = y) as -> by (by apply Ha). by rewrite (proj2 (eqs_true _ _)) in Py.
    + by rewrite (Ha x0 y0 Hx Hy Ax Ay E).
  - intros x [[Hx _]|(x0 & Hx & _ & ->)]%elem_of_update_where; [by apply Hv|exact (Hv x0 Hx)].
  - by apply update_unique.
  - intros x y [[Hx _]|(x0 & _ & _ & ->)]%elem_of_update_where [[Hy _]|(y0 & _ & _ & ->)]%elem_of_update_where; try done. by apply Ha.
  - intros x [[Hx _]|(x0 & _ & _ & ->)]%elem_of_update_where; [by apply Hv|done].
  - apply insert_or_ignore_unique; [|done]. intros r' E. by apply bool_decide_eq_true.
Qed.

Lemma share_steps_ok Cg Cr d d' : rtc (share_step Cg Cr) d d' → shares_ok d → shares_ok d'.
Proof. induction 1 as [|d1 d2 d3 H _ IH]; [done|]. intros Hok. apply IH. by eapply share_step_ok. Qed.

Lemma no_shares_ok : shares_ok (db no_shares).
Proof.
  split; [apply NoDup_nil_2|apply NoDup_nil_2|by intros ? ?%elem_of_nil|apply NoDup_nil_2|by intros ? ? ?%elem_of_nil|
          by intros ? ?%elem_of_nil|apply NoDup_nil_2].
Qed.

(** ** Consent *)

(** The call is the owner's decision [c] on [r], which is bound to its confirmation, in time. *)
Definition owner_decides (o : share_op) r (c : ShareDecision) : Prop :=
  ∃ text now, o = SDecide (sh_approval_id r) (sh_namespace_id r) (sh_config_id r) "local" text now ∧
    decision_of_text text = Some c ∧ native_approval_id r ≠ None ∧ (now < sh_expires_at r)%Z.

(** The call grants the type for the key: it decides a pending receipt of such content permanently. *)
Definition consents_to (o : share_op) d (k : ShareKey) (ty : string) : Prop :=
  ∃ r src, r ∈ share_approvals d ∧ sh_status r = SPending ∧ owner_decides o r Permanent ∧ src ∈ source_groups r ∧
    key_of (scope r) (sg_group_id src) = k ∧ ty ∈ _result_content_types (result r).

Definition granted (k : ShareKey) (ty : string) d : Prop :=
  ∃ g, g ∈ share_grants d ∧ gr_active g = true ∧ grant_key g = k ∧ ty ∈ content_types g.

(** The call finds a grant for all that [r] would share. *)
Definition covered (o : share_op) d r : Prop :=
  ∃ now, o = SAuthorize (sh_approval_id r) now ∧ (now < sh_expires_at r)%Z ∧ source_groups r ≠ [] ∧
    ∀ src ty, src ∈ source_groups r → ty ∈ _result_content_types (result r) → granted (key_of (scope r) (sg_group_id src)) ty d.

Definition answers (o : share_op) d r (s : ShareStatus) : Prop :=
  s = SExpired ∨ r ∈ share_approvals d ∧ sh_status r = SPending ∧
    ((∃ c, owner_decides o r c ∧ s = decision_status c) ∨ s = SPermanent ∧ covered o d r).

Lemma find_share_inv id d r : find_share id d = Some r → r ∈ share_approvals d ∧ sh_approval_id r = id.
Proof. unfold find_share, by_share. intros [H Hr]%fetchone_some. by apply eqs_true in H. Qed.

Lemma required_inv id w r w' : _required id w = (Ret r, w') → w' = w ∧ r ∈ share_approvals (db w) ∧ sh_approval_id r = id.
Proof. intros H. unfold _required in H. call_inv. split; [done|]. by apply find_share_inv. Qed.

Definition answered_db id (s : ShareStatus) (now : Z) d : ShareDB :=
  with_shares (update_where (λ r, by_share id r && bool_decide (sh_status r = SPending)) (set_share s (status_decision s) now)
                 (share_approvals d)) d.

Lemma transition_inv row s now w r w' : _transition row s now (status_decision s) w = (Ret r, w') →
  w' = mk_world (answered_db (sh_approval_id row) s now (db w)) (drawn w) ∧ find_share (sh_approval_id row) (db w') = Some r.
Proof. intros H. unfold _transition, update_shares, _required in H. call_inv. done. Qed.

Lemma grant_key_inv s id k : _grant_key s id = Ret k → k = key_of s id.
Proof. unfold _grant_key. intros [_ [= <-]]%check_ret. done. Qed.

Lemma find_grant_inv k d g : find_grant k d = Some g → g ∈ share_grants d ∧ gr_active g = true ∧ grant_key g = k.
Proof. unfold find_grant, active_of. intros [[H%bool_decide_eq_true Ha]%andb_true_iff Hg]%fetchone_some. done. Qed.

Lemma all_granted_inv s l types d : all_granted s l types d = Ret true →
  ∀ src ty, src ∈ l → ty ∈ types → granted (key_of s (sg_group_id src)) ty d.
Proof.
  induction l as [|x l IH]; simpl; [by intros _ ? ? ?%elem_of_nil|]. unfold _has_grant.
  destruct (_grant_key s (sg_group_id x)) as [k|] eqn:Ek; [|done]. apply grant_key_inv in Ek as ->.
  destruct (find_grant _ d) as [g|] eqn:Eg; [|done]. destruct (forallb _ types) eqn:Ef; [|done].
  intros H src ty [->|Hin]%elem_of_cons Hty; [|by apply IH].
  apply find_grant_inv in Eg as (Hg & Ha & Hk). exists g. split_and!; try done.
  rewrite forallb_forall in Ef. specialize (Ef ty (proj1 (list_elem_of_In _ _) Hty)). by apply bool_decide_eq_true in Ef.
Qed.

(** ** The steps of the calls *)

#[local] Abbreviation steps Cg Cr := (rtc (share_step Cg Cr)).

Lemma prepare_source l seen s u : prepare valid l seen = Ret u → s ∈ l → one_source (sn_sources s).
Proof.
  revert seen. induction l as [|x l IH]; intros seen; simpl; [by intros _ ?%elem_of_nil|].
  intros [Hx Hl]%check_ret [->|Hs]%elem_of_cons; [|by eapply IH]. unfold check_snapshot in Hx. rewrite !check_ret in Hx.
  destruct Hx as (_ & _ & _ & Hx). destruct (sn_sources x) as [|g [|]]; try done. apply check_ret in Hx as [Hid _]. by exists g.
Qed.

Lemma insert_shares_steps Cg Cr l now w rows w' : (∀ s, s ∈ l → one_source (sn_sources s)) →
  insert_shares token l now w = (Ret rows, w') → steps Cg Cr (db w) (db w').
Proof.
  revert w rows. induction l as [|s l IH]; intros w rows Hl E; simpl in E; call_inv; [done|].
  eapply rtc_l; [eapply (ss_create Cg Cr _ s now); [apply Hl; left|done]|]. match goal with H : insert_shares _ _ _ _ = _ |- _ => apply IH in H; [exact H|] end. intros s' Hs'. apply Hl. by right.
Qed.

Lemma create_steps Cg Cr l now w : steps Cg Cr (db w) (db (create_or_get_batch valid token l now w).2).
Proof.
  destruct (create_or_get_batch valid token l now w) as [[rows|e] w'] eqn:E; cbn [snd].
  - unfold create_or_get_batch in E. call_inv. apply py_pure_inv in H0 as [Hp ->]. apply py_pure_inv in H2 as [_ ->].
    destruct (existsb _ _); call_inv; [done|]. eapply insert_shares_steps; [|done]. intros s Hs. by eapply prepare_source.
  - assert (atomic (create_or_get_batch valid token l now)) as Ha; [|by rewrite (Ha _ _ _ E)].
    unfold create_or_get_batch. auto with atomic.
Qed.

Lemma set_native_rebinds native : rebinds (λ r, set_native native (sh_tool_call_id r) (tool_call_ids r) r).
Proof. intros r. by eexists _, _, _. Qed.

Lemma bind_rows_steps Cg Cr rows native call w x w' : bind_rows rows native call w = (Ret x, w') → steps Cg Cr (db w) (db w').
Proof.
  revert w. induction rows as [|r rows IH]; intros w E; simpl in E; unfold update_shares in E; call_inv; [done|].
  apply IH in E. eapply rtc_l; [|exact E]. apply ss_bind. intros r'. by eexists _, _, _.
Qed.

Lemma bind_native_steps Cg Cr ns rid native w : steps Cg Cr (db w) (db (bind_native ns rid native w).2).
Proof.
  destruct (bind_native ns rid native w) as [[x|e] w'] eqn:E; cbn [snd].
  - unfold bind_native, _native_request, update_shares in E. call_inv. apply py_pure_inv in H as [_ ->].
    apply rtc_once, ss_bind, set_native_rebinds.
  - assert (atomic (bind_native ns rid native)) as Ha; [|by rewrite (Ha _ _ _ E)]. unfold bind_native. auto with atomic.
Qed.

Lemma bind_call_steps Cg Cr id native call w : steps Cg Cr (db w) (db (bind_call id native call w).2).
Proof.
  destruct (bind_call id native call w) as [[x|e] w'] eqn:E; cbn [snd].
  - unfold bind_call, _native_request in E. call_inv. apply py_pure_inv in H as [_ ->]. apply py_pure_inv in H0 as [_ ->].
    apply required_inv in H1 as (-> & _). by eapply bind_rows_steps.
  - assert (atomic (bind_call id native call)) as Ha; [|by rewrite (Ha _ _ _ E)]. unfold bind_call. auto with atomic.
Qed.

(** A receipt that has been found is the only one with its id. *)
Lemma answer_step Cg (Cr : ShareRow → ShareStatus → Prop) r s now d : shares_ok d → r ∈ share_approvals d → s ≠ SPending →
  Cr r s → steps Cg Cr d (answered_db (sh_approval_id r) s now d).
Proof.
  intros Hok Hr Hs HC. apply rtc_once, ss_answer; [done|]. intros r' Hr' Hid _.
  by rewrite (unique_eq sh_approval_id _ _ _ (so_ids _ Hok) Hr' Hr Hid).
Qed.

Lemma authorize_steps id now w : let o := SAuthorize id now in shares_ok (db w) →
  steps (consents_to o (db w)) (answers o (db w)) (db w) (db (share o w)).
Proof.
  intros o Hok. cbn [share o]. destruct (authorize_from_grants id now w) as [[r|e] w'] eqn:E; cbn [snd]; [|by rewrite (transaction_exc _ _ _ _ E)].
  unfold authorize_from_grants in E. call_inv. apply required_inv in H as (-> & Hr & Hid). rename a into row.
  case_bool_decide as Hp; cbn [negb] in E; [|by call_inv].
  destruct (Z.leb_spec (sh_expires_at row) now) as [|Hlt].
  { apply (transition_inv row SExpired now) in E as [-> _]. apply answer_step; [done|done|done|by left]. }
  destruct (_ || _) eqn:Ee; [by call_inv|]. call_inv. apply py_pure_inv in H0 as [Hg ->]. destruct a0; [|by call_inv].
  apply (transition_inv row SPermanent now) in E as [-> _]. apply answer_step; [done|done|done|].
  right. split_and!; [done|done|]. right. split; [done|]. exists now. unfold o. apply orb_false_iff in Ee as [Hsrc _].
  split_and!; [done|done|by destruct (source_groups row)|]. by apply all_granted_inv.
Qed.

Lemma revoke_steps Cg Cr id ns config principal now w : steps Cg Cr (db w) (db (revoke id ns config principal now w).2).
Proof.
  destruct (revoke id ns config principal now w) as [[g|e] w'] eqn:E; cbn [snd].
  - unfold revoke, _owner, _owned in E. call_inv. apply rtc_once, ss_revoke.
  - assert (atomic (revoke id ns config principal now)) as Ha; [|by rewrite (Ha _ _ _ E)]. unfold revoke, _owner. auto with atomic.
Qed.

Lemma expire_steps Cg (Cr : ShareRow → ShareStatus → Prop) now w : (∀ r, Cr r SExpired) →
  steps Cg Cr (db w) (db (expire_pending_shares now w).2).
Proof.
  intros HC. destruct (expire_pending_shares now w) as [[l|e] w'] eqn:E; cbn [snd]; [|by rewrite (transaction_exc _ _ _ _ E)].
  unfold expire_pending_shares in E. call_inv. revert E. generalize (select (λ r, bool_decide (sh_status r = SPending)) (share_approvals (db w))).
  intros rows. revert w l. induction rows as [|r rows IH]; intros w l E; simpl in E; call_inv; [done|].
  destruct (_ || _); [|by eapply IH]. call_inv. apply (transition_inv r SExpired now) in H as [-> _].
  match goal with H : expire_shares _ _ _ = _ |- _ => apply IH in H; eapply rtc_l; [|exact H] end. apply ss_answer; [done|]. intros; apply HC.
Qed.

Lemma window_steps Cg Cr ns agent sid rid gen w : steps Cg Cr (db w) (db (bind_window ns agent sid rid gen w).2).
Proof.
  destruct (bind_window ns agent sid rid gen w) as [[g|e] w'] eqn:E; cbn [snd]; [|by rewrite (transaction_exc _ _ _ _ E)].
  unfold bind_window in E. call_inv. apply rtc_once, ss_window.
Qed.

Lemma issue_grants_steps (Cg : ShareKey → string → Prop) Cr l row ns config types now w x w' :
  (∀ src ty, src ∈ l → ty ∈ types → Cg (key_of (scope row) (sg_group_id src)) ty) →
  issue_grants token l row ns config types now w = (Ret x, w') →
  steps Cg Cr (db w) (db w') ∧ share_approvals (db w') = share_approvals (db w).
Proof.
  revert w. induction l as [|src l IH]; intros w HC E; simpl in E; call_inv; [done|].
  apply py_pure_inv in H as [Hk ->]. apply grant_key_inv in Hk as ->.
  assert (∀ ty, ty ∈ types → Cg (key_of (scope row) (sg_group_id src)) ty) as HC0 by (intros ty; apply HC; left).
  apply IH in E as [Hs Ha]; [|intros src' ty Hin; apply HC; by right]. rewrite Ha.
  destruct (find_grant _ _) as [g|] eqn:Eg; call_inv.
  - apply find_grant_inv in Eg as (Hg & Hact & Hkey). split; [|done]. eapply rtc_l; [|exact Hs].
    apply ss_types; [done|done|]. intros ty. rewrite elem_of_sorted_names, elem_of_remove_dups, elem_of_app, Hkey.
    intros [?|?]; [by left|right; by apply HC0].
  - split; [|done]. eapply rtc_l; [|exact Hs]. by eapply ss_grant.
Qed.

Lemma decide_steps id ns config principal decision now w : let o := SDecide id ns config principal decision now in shares_ok (db w) →
  steps (consents_to o (db w)) (answers o (db w)) (db w) (db (share o w)).
Proof.
  intros o Hok. cbn [share o]. destruct (share_decide token id ns config principal decision now w) as [[r|e] w'] eqn:E; cbn [snd].
  2: { assert (atomic (share_decide token id ns config principal decision now)) as Ha; [|by rewrite (Ha _ _ _ E)].
       unfold share_decide, _owner. auto with atomic. }
  unfold share_decide, _owner, _owned in E. call_inv. rename a0 into choice. apply eqs_true in H as ->. apply required_inv in H1 as (-> & Hr & Hid).
  rename a1 into row. case_bool_decide as Hp; cbn [negb] in E; [|by call_inv].
  destruct (Z.leb_spec (sh_expires_at row) now) as [|Hlt].
  { apply (transition_inv row SExpired now) in E as [-> _]. apply answer_step; [done|done|done|by left]. }
  call_inv. apply bool_decide_eq_true in H2 as [= <- <-]. apply negb_true_iff, bool_decide_eq_false in H.
  assert (owner_decides o row choice) as Ho by by exists decision, now.
  assert (steps (consents_to o (db w)) (answers o (db w)) (db w) (db w1) ∧ share_approvals (db w1) = share_approvals (db w)) as [Hs Ha].
  { case_bool_decide as Hc; call_inv; [|done]. eapply issue_grants_steps; [|done].
    intros src ty Hsrc Hty. by exists row, src. }
  replace (Some choice) with (status_decision (decision_status choice)) in E by by destruct choice.
  apply transition_inv in E as [-> _]. etrans; [exact Hs|]. apply answer_step.
  - by eapply share_steps_ok.
  - by rewrite Ha.
  - by destruct choice.
  - right. split_and!; [done|done|]. left. by exists choice.
Qed.

Lemma share_steps o w : shares_ok (db w) → steps (consents_to o (db w)) (answers o (db w)) (db w) (db (share o w)).
Proof.
  intros Hok. destruct o.
  - apply create_steps.
  - apply bind_native_steps.
  - apply bind_call_steps.
  - by apply authorize_steps.
  - by apply decide_steps.
  - apply revoke_steps.
  - apply expire_steps. by left.
  - apply window_steps.
Qed.

Lemma shares_reach_ok ops : shares_ok (db (shares ops no_shares)).
Proof.
  induction ops as [|o ops IH] using rev_ind; [apply no_shares_ok|]. rewrite shares_app. cbn. eapply share_steps_ok; [by apply share_steps|done].
Qed.

(** However calls of the repository are interleaved, receipts and grants have their own ids, a query of a
    Request one receipt, and a destination one active grant per source; a receipt has
    one source group, its decision is the one its status says and it has a time exactly when
    it is decided; a Request is bound to one window. *)
Theorem shares_invariant ops : let d := db (shares ops no_shares) in
  unique sh_approval_id (share_approvals d) ∧ unique share_key (share_approvals d) ∧ unique grant_id (share_grants d) ∧
  (∀ g g', g ∈ share_grants d → g' ∈ share_grants d → gr_active g = true → gr_active g' = true → grant_key g = grant_key g' → g = g') ∧
  (∀ r, r ∈ share_approvals d → share_wf r) ∧ unique window_key (share_windows d).
Proof. intros d. destruct (shares_reach_ok ops). by split_and!. Qed.

(** ** Grants *)

Lemma step_granted Cg Cr d d' k ty : share_step Cg Cr d d' → shares_ok d → granted k ty d' → granted k ty d ∨ Cg k ty.
Proof.
  intros H Hok (g & Hg & Ha & Hk & Hty).
  destruct H as [| | |id r ns config src types now t d HC Hins|g0 types d Hin Hact HC|id now d|]; try (by left; exists g).
  - apply insert_row_some in Hins as [-> _]. apply elem_of_app in Hg as [Hg| ->%list_elem_of_singleton]; [left; by exists g|].
    right. rewrite <- Hk. by apply HC.
  - apply elem_of_update_where in Hg as [[Hg _]|(x & Hx & Hid%eqs_true & ->)]; [left; by exists g|].
    assert (x = g0) as -> by (eapply (unique_eq grant_id); [apply Hok|done|done|done]). cbn in *.
    destruct (HC ty Hty) as [Hold|Hnew]; [left; by exists g0|right; by rewrite <- Hk].
  - apply elem_of_update_where in Hg as [[Hg _]|(x & _ & _ & ->)]; [left; by exists g|done].
Qed.

Lemma steps_granted Cg Cr d d' k ty : steps Cg Cr d d' → shares_ok d → granted k ty d' → granted k ty d ∨ Cg k ty.
Proof.
  induction 1 as [|d1 d2 d3 H _ IH]; intros Hok Hg; [by left|].
  destruct IH as [Hg2|]; [by eapply share_step_ok|done| |by right]. by eapply step_granted.
Qed.

(** One of the calls was the owner's permanent decision on such content. *)
Definition consented_to w0 (ops : list share_op) (k : ShareKey) (ty : string) : Prop :=
  ∃ before o after, ops = before ++ o :: after ∧ consents_to o (db (shares before w0)) k ty.

(** C13: whatever calls follow, a source's content of some type is granted to a destination only if it was
    before or if the owner has decided so since: permanently, in time, on a pending receipt of
    content of this type from this source for this destination, bound to its confirmation.
    So without grants at first every grant is the owner's, and a revoked one does
    not come back by itself. *)
Theorem grants_need_consent ops ops' k ty : let w := shares ops no_shares in
  granted k ty (db (shares ops' w)) → granted k ty (db w) ∨ consented_to w ops' k ty.
Proof.
  intros w. induction ops' as [|o ops' IH] using rev_ind; [by left|]. rewrite shares_app. cbn. intros Hg.
  assert (shares_ok (db (shares ops' w))) as Hok by (unfold w; rewrite <- shares_app; apply shares_reach_ok).
  destruct (steps_granted _ _ _ _ k ty (share_steps o _ Hok) Hok Hg) as [Hold|Hnew].
  - destruct (IH Hold) as [?|(b & o' & a & -> & Hc)]; [by left|]. right. exists b, o', (a ++ [o]). by rewrite <- app_assoc.
  - right. by exists ops', o, [].
Qed.

(** the owner revokes a grant: it is stored as revoked, and nothing of its source is granted to its
    destination any more; every other grant is as it was. *)
Theorem revoke_correct ops g now : let w := shares ops no_shares in
  g ∈ share_grants (db w) → gr_active g = true →
  ∃ w', revoke (grant_id g) (gr_namespace_id g) (gr_config_id g) "local" now w = (Ret (set_revoked now g), w') ∧
    set_revoked now g ∈ share_grants (db w') ∧ (∀ ty, ¬ granted (grant_key g) ty (db w')) ∧
    ∀ g', g' ∈ share_grants (db w) → g' ≠ g → g' ∈ share_grants (db w').
Proof.
  intros w Hg Ha. pose proof (shares_reach_ok ops) as Hok. fold w in Hok. destruct Hok as [_ _ _ Hu Hact _ _].
  set (t := update_where (λ x, (grant_id x =s grant_id g) && gr_active x) (set_revoked now) (share_grants (db w))).
  assert (∀ g', g' ∈ share_grants (db w) → grant_id g' = grant_id g → g' = g) as Hid by (intros; by eapply (unique_eq grant_id)).
  assert (∀ l, unique grant_id l → ∀ x, x ∈ l → grant_id x = grant_id g → fetchone (λ g', grant_id g' =s grant_id g) l = Some x) as Hf.
  { intros l Hl x Hx E. apply (fetchone_unique grant_id); [done|done|by apply eqs_true|]. intros r' _ H%eqs_true. congruence. }
  assert (set_revoked now g ∈ t) as Hin.
  { apply elem_of_update_where. right. exists g. split_and!; [done|by rewrite (proj2 (eqs_true _ _) eq_refl)|done]. }
  exists (mk_world (with_grants t (db w)) (drawn w)). split_and!; [|done| |].
  - unfold revoke, _owner, _owned. rewrite py_guard_run by done. apply transaction_ret.
    rewrite (py_bind_run get_db _ w (db w) w) by done. rewrite (py_some_run _ _ _ g) by by apply Hf.
    rewrite py_guard_run by by apply bool_decide_eq_true. erewrite py_bind_run by reflexivity. erewrite py_bind_run by reflexivity.
    unfold py_some. cbn [db with_grants share_grants]. fold t. rewrite (Hf t) with (x := set_revoked now g); [done| |done|done].
    by apply update_unique.
  - intros ty (x & Hx & Hxa & Hk & _). cbn in Hx. apply elem_of_update_where in Hx as [[Hx Hp]|(x0 & _ & _ & ->)]; [|done].
    assert (x = g) as -> by by apply Hact. by rewrite Ha, (proj2 (eqs_true _ _) eq_refl) in Hp.
  - intros g' Hg' Hne. apply elem_of_update_where. left. split; [done|].
    destruct (grant_id g' =s grant_id g) eqn:E; [|done]. apply eqs_true in E. destruct Hne. by apply Hid.
Qed.

(** ** Receipts *)

(** What a receipt keeps, and how it was decided *)
Definition frozen r := (sh_approval_id r, share_key r, sh_config_id r, scope r, result r, source_groups r, (sh_created_at r, sh_expires_at r)).
Definition outcome_of r := (sh_status r, sh_decision r, decided_at r).

Lemma step_answered Cg Cr d d' r : share_step Cg Cr d d' → r ∈ share_approvals d' → sh_status r ≠ SPending →
  (∃ r0, r0 ∈ share_approvals d ∧ frozen r0 = frozen r ∧ outcome_of r0 = outcome_of r) ∨
  (∃ r0, r0 ∈ share_approvals d ∧ frozen r0 = frozen r ∧ Cr r0 (sh_status r)).
Proof.
  intros H Hr Hs. destruct H as [id s now t d _ Hins|P f d Hf|id s now d _ HC| | | |]; try (by left; exists r).
  - apply insert_row_some in Hins as [-> _]. apply elem_of_app in Hr as [Hr| ->%list_elem_of_singleton]; [left; by exists r|done].
  - apply elem_of_update_where in Hr as [[Hr _]|(r0 & Hr & _ & ->)]; [left; by exists r|]. left. exists r0.
    by destruct (Hf r0) as (? & ? & ? & ->).
  - apply elem_of_update_where in Hr as [[Hr _]|(r0 & Hr & [Hid Hp]%andb_true_iff & ->)]; [left; by exists r|].
    unfold by_share in Hid. apply eqs_true in Hid. apply bool_decide_eq_true in Hp. right. exists r0. split_and!; [done|done|by apply HC].
Qed.

Lemma steps_answered o w r : shares_ok (db w) → r ∈ share_approvals (db (share o w)) → sh_status r ≠ SPending →
  (∃ r0, r0 ∈ share_approvals (db w) ∧ frozen r0 = frozen r ∧ outcome_of r0 = outcome_of r) ∨
  (∃ r0, frozen r0 = frozen r ∧ answers o (db w) r0 (sh_status r)).
Proof.
  intros Hok. pose proof (share_steps o w Hok) as H. revert H r. generalize (db (share o w)).
  apply (rtc_ind_r (λ d', ∀ r, r ∈ share_approvals d' → sh_status r ≠ SPending →
    (∃ r0, r0 ∈ share_approvals (db w) ∧ frozen r0 = frozen r ∧ outcome_of r0 = outcome_of r) ∨
    (∃ r0, frozen r0 = frozen r ∧ answers o (db w) r0 (sh_status r)))).
  - intros r Hr _. left. by exists r.
  - intros d1 d2 _ Hstep IH r Hr Hs. destruct (step_answered _ _ _ _ r Hstep Hr Hs) as [(r1 & Hr1 & Hf & Ho)|(r1 & Hr1 & Hf & HC)].
    + unfold outcome_of in Ho. injection Ho as Es Ed Et. destruct (IH r1 Hr1) as [(r0 & H0 & Hf0 & Ho0)|(r0 & Hf0 & HC0)]; [congruence| |].
      * left. exists r0. split_and!; [done|congruence|]. rewrite Ho0. unfold outcome_of. congruence.
      * right. exists r0. split; [congruence|]. by rewrite <- Es.
    + right. by exists r1.
Qed.

(** C14: a receipt is approved only if one of the calls approved it while it was pending, in time: the
    owner's decision, for the same content and destination, bound to its confirmation, or,
    as permanent, a check that found an active grant for every type of its content from every
    source to its destination. *)
Theorem share_needs_consent ops r : r ∈ share_approvals (db (shares ops no_shares)) → approved_share r = true →
  ∃ before o after r0, ops = before ++ o :: after ∧ r0 ∈ share_approvals (db (shares before no_shares)) ∧ sh_status r0 = SPending ∧
    frozen r0 = frozen r ∧
    ((∃ c, owner_decides o r0 c ∧ sh_status r = decision_status c) ∨ sh_status r = SPermanent ∧ covered o (db (shares before no_shares)) r0).
Proof.
  intros Hr Happ. apply bool_decide_eq_true in Happ. revert r Hr Happ. induction ops as [|o ops IH] using rev_ind; [by intros r ?%elem_of_nil|].
  intros r Hr Happ. rewrite shares_app in Hr. cbn in Hr.
  destruct (steps_answered o (shares ops no_shares) r (shares_reach_ok ops) Hr) as [(r1 & Hr1 & Hf & Ho)|(r1 & Hf & [He|(Hr1 & Hp & Ha)])].
  - by destruct Happ as [-> | ->].
  - unfold outcome_of in Ho. injection Ho as Es Ed Et. destruct (IH r1 Hr1) as (b & o' & a & r0 & -> & H0 & Hp & Hf0 & Ha); [by rewrite Es|].
    exists b, o', (a ++ [o]), r0. rewrite <- app_assoc, <- Es, <- Hf. by split_and!.
  - rewrite He in Happ. by destruct Happ.
  - by exists ops, o, [], r1.
Qed.
End props.
