(* ===== verification/GroupShareWindows.v ===== *)
(** * Windows of private context

    A Request that was bound to a window keeps it while receipts are added, and loses it when a
    grant behind its session's receipts is revoked. *)

From S2P Require Import Prelude OrderedDict PyJson Tables MateModels RequestStore GroupShare GroupShareProps.

Section windows.
Context {I : Type}.
Context (valid : Snapshot → bool) (sha24 : option Z → option (Z * string) → string) (token : nat → string).
(** The digest of the boundaries: SHA-256 does not collide and is not empty. *)
Context (Hsha : ∀ c o c' o', sha24 c o = sha24 c' o' → c = c' ∧ o = o') (Hne : ∀ c o, sha24 c o ≠ EmptyString).
Implicit Types (d : ShareDB) (w : World ShareDB) (r : ShareRow) (g : GrantRow).

#[local] Abbreviation shares := (shares valid token).

Lemma digest_inj c o c' o' : _window_generation_digest sha24 c o = _window_generation_digest sha24 c' o' → c = c' ∧ o = o'.
Proof.
  unfold _window_generation_digest. destruct c, o, c', o'; intros H; try (by apply Hsha); try done;
    try (by destruct (Hne _ _ H)); by destruct (Hne _ _ (eq_sym H)).
Qed.

(** ** Receipts and revocations stay *)

Lemma step_keeps Cg Cr d d' : share_step Cg Cr d d' →
  (∀ r, r ∈ share_approvals d → sh_status r ≠ SPending →
     ∃ r', r' ∈ share_approvals d' ∧ frozen r' = frozen r ∧ outcome_of r' = outcome_of r) ∧
  (∀ g t, g ∈ share_grants d → gr_active g = false → revoked_at g = Some t →
     ∃ g', g' ∈ share_grants d' ∧ gr_active g' = false ∧ revoked_at g' = Some t ∧ grant_key g' = grant_key g).
Proof.
  intros H.
  destruct H as [id s now t d _ Hins|P f d Hf|id s now d _ HC|id r ns config src types now t d _ Hins|g0 types d _ _ _|id now d|row d];
    split; cbn; try (by intros r0 Hr _; exists r0); try (by intros g t' Hg Ha Ht; exists g).
  - apply insert_row_some in Hins as [-> _]. intros r Hr _. exists r. rewrite elem_of_app. by split; [left|].
  - intros r Hr _. destruct (P r) eqn:HP.
    + exists (f r). destruct (Hf r) as (a & b & c & E). rewrite E. split; [|done]. apply elem_of_update_where. right. exists r. by rewrite E.
    + exists r. split; [|done]. apply elem_of_update_where. by left.
  - intros r Hr Hs. exists r. split; [|done]. apply elem_of_update_where. left. split; [done|].
    rewrite (bool_decide_false (sh_status r = SPending)) by done. apply andb_false_r.
  - apply insert_row_some in Hins as [-> _]. intros g t' Hg Ha Ht. exists g. rewrite elem_of_app. split_and!; try done. by left.
  - intros g t' Hg Ha Ht. destruct (grant_id g =s grant_id g0) eqn:E.
    + exists (set_types types g). split_and!; try done. apply elem_of_update_where. right. by exists g.
    + exists g. split_and!; try done. apply elem_of_update_where. by left.
  - intros g t' Hg Ha Ht. exists g. split_and!; try done. apply elem_of_update_where. left. split; [done|]. by rewrite Ha, andb_false_r.
Qed.

Definition keeps d d' : Prop :=
  (∀ r, r ∈ share_approvals d → sh_status r ≠ SPending →
     ∃ r', r' ∈ share_approvals d' ∧ frozen r' = frozen r ∧ outcome_of r' = outcome_of r) ∧
  (∀ g t, g ∈ share_grants d → gr_active g = false → revoked_at g = Some t →
     ∃ g', g' ∈ share_grants d' ∧ gr_active g' = false ∧ revoked_at g' = Some t ∧ grant_key g' = grant_key g).

Lemma keeps_trans d d1 d2 : keeps d d1 → keeps d1 d2 → keeps d d2.
Proof.
  intros [R1 G1] [R2 G2]. split.
  - intros r Hr Hs. destruct (R1 r Hr Hs) as (r1 & Hr1 & Hf & Ho).
    destruct (R2 r1 Hr1) as (r2 & Hr2 & Hf2 & Ho2); [unfold outcome_of in Ho; congruence|]. exists r2. split_and!; congruence.
  - intros g t Hg Ha Ht. destruct (G1 g t Hg Ha Ht) as (g1 & Hg1 & Ha1 & Ht1 & Hk1).
    destruct (G2 g1 t Hg1 Ha1 Ht1) as (g2 & ? & ? & ? & ?). exists g2. split_and!; congruence.
Qed.

Lemma steps_keep Cg Cr d d' : rtc (share_step Cg Cr) d d' → keeps d d'.
Proof.
  induction 1 as [d|d d1 d2 H _ IH].
  - split; [intros r Hr _; by exists r|intros g t Hg Ha Ht; by exists g].
  - eapply keeps_trans; [by eapply step_keeps|done].
Qed.

Lemma shares_keep ops ops' : keeps (db (shares ops no_shares)) (db (shares ops' (shares ops no_shares))).
Proof.
  induction ops' as [|o ops' IH] using rev_ind; [by apply (steps_keep (λ _ _, True) (λ _ _, True)), rtc_refl|].
  rewrite shares_app. cbn. eapply keeps_trans; [exact IH|]. eapply steps_keep, share_steps. rewrite <- shares_app. apply shares_reach_ok.
Qed.

(** ** Boundaries *)

Definition of_session ns agent sid r : Prop := sh_namespace_id r = ns ∧ sh_agent_id r = agent ∧ sr_session_id (result r) = Some sid.

Lemma elem_of_session ns agent sid d r :
  r ∈ approvals_for_session ns agent sid d ↔ r ∈ share_approvals d ∧ of_session ns agent sid r ∧ approved_share r = true.
Proof.
  unfold approvals_for_session. rewrite py_sorted_perm, elem_of_rows, andb_true_iff, bool_decide_eq_true. unfold of_session. tauto.
Qed.

Lemma frozen_session ns agent sid r r' : frozen r' = frozen r → of_session ns agent sid r → of_session ns agent sid r'.
Proof. unfold frozen, share_key, of_session. intros [= _ -> -> _ _ _ _ -> _ _ _]. done. Qed.

Lemma max_boundary_in l : max_boundary (None :: l) ∈ None :: l.
Proof.
  assert (max_boundary l ∈ None :: l) as H.
  { induction l as [|a l IH]; [by left|]. simpl. destruct (boundary_leb a (max_boundary l)); set_solver. }
  simpl. done.
Qed.

Lemma boundaries_stay ns agent sid rid d d' b : keeps d d' →
  b ∈ _once_boundaries ns agent sid rid d → b ∈ _once_boundaries ns agent sid rid d'.
Proof.
  intros [Hk _] [->|(r & -> & [[Hs Hr] Hin]%list_elem_of_filter)%list_elem_of_fmap]%elem_of_cons; [by left|]. right.
  apply elem_of_session in Hin as (Hin & Hses & Happ). destruct (Hk r Hin ltac:(by rewrite Hs)) as (r' & Hr' & Hf & Ho).
  apply list_elem_of_fmap. exists r'. pose proof Hf as Hf'. unfold frozen, share_key in Hf'. injection Hf' as _ _ _ Erid _ _ _ _ _ _ _.
  unfold outcome_of in Ho. injection Ho as Es _ Et. rewrite Erid, Et. split; [done|].
  apply list_elem_of_filter. split; [by rewrite Es, Erid|]. apply elem_of_session. split_and!; [done|by eapply frozen_session|].
  unfold approved_share in *. by rewrite Es.
Qed.

(** ** Revocations *)

Lemma max_opt_bound l t : t ∈ l → ∃ m, max_opt l = Some m ∧ (t ≤ m)%Z.
Proof.
  induction l as [|x l IH]; [by intros ?%elem_of_nil|].
  change (max_opt (x :: l)) with (Some match max_opt l with Some b => Z.max x b | None => x end).
  intros [->|Ht]%elem_of_cons; eexists; (split; [done|]); [destruct (max_opt l); lia|].
  destruct (IH Ht) as (m & -> & ?). lia.
Qed.

Lemma revocation_bound k since d g t : g ∈ share_grants d → gr_active g = false → grant_key g = k → revoked_at g = Some t →
  (since ≤ t)%Z → ∃ m, revocation k since d = Some m ∧ (t ≤ m)%Z.
Proof.
  intros Hg Ha Hk Ht Hle. apply max_opt_bound, list_elem_of_omap. exists g. split; [done|].
  by rewrite bool_decide_true, Ha, Ht, (proj2 (Z.leb_le _ _) Hle) by done.
Qed.

Lemma source_revocations_ret r d : one_source (source_groups r) → ∃ ts, source_revocations r (source_groups r) d = Ret ts ∧
  ∀ src m, src ∈ source_groups r → revocation (key_of (scope r) (sg_group_id src)) (default 0%Z (decided_at r)) d = Some m → m ∈ ts.
Proof.
  intros (src & -> & Hid). simpl. unfold _grant_key. rewrite Hid. simpl. eexists. split; [done|].
  intros src' m ->%list_elem_of_singleton ->. by left.
Qed.

Lemma revocations_ret l d : (∀ r, r ∈ l → one_source (source_groups r)) → ∃ ts, revocations l d = Ret ts ∧
  ∀ r src m, r ∈ l → sh_status r = SPermanent → src ∈ source_groups r →
    revocation (key_of (scope r) (sg_group_id src)) (default 0%Z (decided_at r)) d = Some m → m ∈ ts.
Proof.
  induction l as [|r l IH]; intros Hl; [exists []; split; [done|by intros ? ? ? ?%elem_of_nil]|].
  destruct IH as (ts & Hts & Hin); [intros r' Hr'; apply Hl; by right|].
  destruct (source_revocations_ret r d) as (ts0 & Hts0 & Hin0); [apply Hl; left|]. simpl. rewrite Hts. case_bool_decide as Hp.
  - rewrite Hts0. eexists. split; [done|]. intros r' src m [->|Hr']%elem_of_cons Hs Hsrc Hm; apply elem_of_app; eauto.
  - eexists. split; [done|]. intros r' src m [->|Hr']%elem_of_cons Hs Hsrc Hm; [done|by eapply Hin].
Qed.

Lemma window_revoked_ret ns agent sid d : shares_ok d → ∃ c, window_revoked_at ns agent sid d = Ret c ∧
  ∀ r src g t, r ∈ share_approvals d → of_session ns agent sid r → sh_status r = SPermanent → src ∈ source_groups r →
    g ∈ share_grants d → gr_active g = false → grant_key g = key_of (scope r) (sg_group_id src) → revoked_at g = Some t →
    (default 0 (decided_at r) ≤ t)%Z → ∃ m, c = Some m ∧ (t ≤ m)%Z.
Proof.
  intros Hok. unfold window_revoked_at.
  destruct (revocations_ret (approvals_for_session ns agent sid d) d) as (ts & -> & Hin).
  { intros r (Hr & _)%elem_of_session. by destruct (so_rows _ Hok r Hr) as (_ & ? & _). }
  eexists. split; [done|]. intros r src g t Hr Hses Hs Hsrc Hg Ha Hk Ht Hle.
  destruct (revocation_bound (key_of (scope r) (sg_group_id src)) (default 0%Z (decided_at r)) d g t) as (m & Hm & Htm); try done.
  destruct (max_opt_bound ts m) as (m' & Hm' & Hmm').
  - eapply Hin; [|done|done|done]. apply elem_of_session. split_and!; [done|done|]. apply bool_decide_eq_true. by right.
  - exists m'. split; [done|lia].
Qed.

(** ** Windows *)

(** C15: a Request that was bound to its window with a generation computed at some point keeps its
    window as long as the latest revocation that concerns its session is the one of that
    point, however many receipts are added or approved once; it has lost it as soon as a grant
    behind a permanent receipt of the session was revoked later, even in between computing
    the generation and binding it. *)
Theorem window_correct (requests : option (list (RequestState I))) ops ops' ns agent sid rid row c0 :
  let d0 := db (shares ops no_shares) in let d := db (shares ops' (shares ops no_shares)) in
  window_revoked_at ns agent sid d0 = Ret c0 →
  window_generation sha24 ns agent sid (Some rid) d0 = Ret (generation row) →
  find_window ns rid d = Some row → (wd_agent_id row, wd_session_id row) = (agent, sid) →
  (∃ c, window_revoked_at ns agent sid d = Ret c ∧
     request_window_is_current sha24 requests ns rid d = Ret (bool_decide (c = c0))) ∧
  ∀ r src g t, r ∈ share_approvals d → of_session ns agent sid r → sh_status r = SPermanent → src ∈ source_groups r →
    g ∈ share_grants d → gr_active g = false → grant_key g = key_of (scope r) (sg_group_id src) → revoked_at g = Some t →
    (default 0 (decided_at r) ≤ t)%Z → match c0 with Some x => (x < t)%Z | None => True end →
    request_window_is_current sha24 requests ns rid d = Ret false.
Proof.
  intros d0 d Hc0 Hgen Hw [= <- <-]. pose proof (shares_keep ops ops') as Hk. fold d0 d in Hk.
  destruct (window_revoked_ret ns (wd_agent_id row) (wd_session_id row) d) as (c & Hc & Hrev).
  { unfold d. rewrite <- shares_app. apply shares_reach_ok. }
  assert (request_window_is_current sha24 requests ns rid d = Ret (bool_decide (c = c0))) as Hcur.
  { unfold request_window_is_current. rewrite Hw, Hc. f_equal. unfold window_generation in Hgen. rewrite Hc0 in Hgen. injection Hgen as Hgen.
    apply eq_true_iff_eq. rewrite bool_decide_eq_true, existsb_exists. rewrite <- Hgen. split.
    - intros (b & _ & E%eqs_true). by apply digest_inj in E as [-> _].
    - intros ->. eexists. split; [|by apply eqs_true]. rewrite <- list_elem_of_In. eapply boundaries_stay; [exact Hk|]. apply max_boundary_in. }
  split; [by exists c|]. intros r src g t Hr Hses Hs Hsrc Hg Ha Hkey Ht Hle Hlt.
  destruct (Hrev r src g t) as (m & -> & Hm); try done. rewrite Hcur. f_equal. apply bool_decide_eq_false.
  intros <-. lia.
Qed.
End windows.
