(* ===== verification/GroupShareRun.v ===== *)
(** * A run of sharing between groups

    The owner grants a team's messages to another group; a second search is covered by the grant,
    until it is revoked, which also retires the window of a Request. *)

From stdpp Require Import pretty countable strings.
From S2P Require Import Prelude OrderedDict PyJson Tables MateModels RequestStore StoreRun GroupShare GroupShareProps GroupShareWindows.

(** A digest that does not collide *)
Definition plain_digest (c : option Z) (o : option (Z * string)) : string := "h" +:+ pretty (encode (c, o)).

Lemma plain_digest_inj c o c' o' : plain_digest c o = plain_digest c' o' → c = c' ∧ o = o'.
Proof. intros H. injection H as H. apply pretty_positive_inj, (inj encode) in H as [= -> ->]. done. Qed.
Lemma plain_digest_nonempty c o : plain_digest c o ≠ EmptyString.
Proof. done. Qed.

(** ** The parts *)

Definition all_valid (s : Snapshot) : bool := true.
Definition to_group : ShareTarget :=
  {| tg_channel := "feishu"; tg_app_id := Some "app"; tg_kind := "group"; tg_id := "oc_2"; tg_name := "Sales" |}.
Definition asks (rid : string) : ShareScope :=
  {| sc_namespace_id := "ns"; sc_config_id := "bot"; sc_agent_id := "bot"; sc_request_id := rid;
     sc_principal_ref := "feishu:user:u1"; requester_name := "Ann"; target := to_group; search_digest := Some "d"; sc_rest := "query" |}.
Definition team : SourceGroup := {| sg_group_id := "grp_1"; sg_name := "Team" |}.
Definition found (rid : string) : ShareResult :=
  {| sr_namespace_id := "ns"; sr_agent_id := "bot"; sr_request_id := rid; sr_session_id := Some "sess_b"; cli_types := None;
     hits := [("grp_1", "the plan")]; artifacts := []; sr_rest := "" |}.
Fixpoint repeat_text (n : nat) : string := match n with O => "" | Datatypes.S n => "a" +:+ repeat_text n end.
Definition snapshot (rid : string) : Snapshot :=
  {| sn_scope := asks rid; sn_digest := repeat_text 64; sn_result := found rid; sn_sources := [team] |}.

(** ** The run *)

Definition share_id (n : nat) : string := "share_" +:+ ticks n.
Definition pended : list share_op := [SCreate [snapshot "req_1"] 1; SBindCall (share_id 0) "app_1" "call1"].
Definition permitted : list share_op :=
  pended ++ [SDecide (share_id 0) "ns" "bot" "local" "permanent" 5; SCreate [snapshot "req_2"] 7; SAuthorize (share_id 2) 8].
Definition retired : list share_op :=
  [SWindow "ns" "bot" "sess_b" "req_3" ""; SRevoke ("share_grant_" +:+ ticks 1) "ns" "bot" "local" 20].

#[local] Abbreviation sharing ops := (shares all_valid ticks ops no_shares) (only parsing).
#[local] Abbreviation state_after ops := (db (sharing ops)) (only parsing).

Definition team_grant : GrantRow :=
  {| grant_id := "share_grant_" +:+ ticks 1; gr_namespace_id := "ns"; gr_config_id := "bot"; gr_agent_id := "bot";
     source_group_id := "grp_1"; source_group_name := "Team"; gr_target := to_group; grant_key := key_of (asks "req_1") "grp_1";
     content_types := ["messages"]; gr_approval_id := share_id 0; gr_active := true; gr_created_at := 5; revoked_at := None |}.

Example run_shares : (λ r, (sh_request_id r, sh_status r, decided_at r)) <$> share_approvals (state_after permitted)
    = [("req_1", SPermanent, Some 5%Z); ("req_2", SPermanent, Some 8%Z)] ∧
  share_grants (state_after permitted) = [team_grant] ∧ share_grants (state_after (permitted ++ retired)) = [set_revoked 20 team_grant].
Proof. by vm_compute. Qed.

Definition covered_row : ShareRow :=
  set_share SPermanent (Some Permanent) 8 (new_share (share_id 2) (snapshot "req_2") 7).

Lemma grant_in : team_grant ∈ share_grants (state_after permitted).
Proof. rewrite (proj1 (proj2 run_shares)). by left. Qed.

Lemma covered_in : covered_row ∈ share_approvals (state_after permitted).
Proof.
  assert (last (share_approvals (state_after permitted)) = Some covered_row) as E by by vm_compute.
  apply last_Some in E as [l ->]. apply elem_of_app. right. by left.
Qed.

(** ** The theorems at the run *)

Lemma grants_need_consent_witness :
  consented_to all_valid ticks (sharing []) permitted (key_of (asks "req_1") "grp_1") "messages".
Proof.
  destruct (grants_need_consent all_valid ticks [] permitted (key_of (asks "req_1") "grp_1") "messages") as [(g & Hg & _)|H].
  - exists team_grant. split_and!; [exact grant_in|done|done|by left].
  - by apply elem_of_nil in Hg.
  - exact H.
Defined.

Lemma share_needs_consent_witness : ∃ before o after r0, permitted = before ++ o :: after ∧ sh_status r0 = SPending ∧
  frozen r0 = frozen covered_row ∧
  ((∃ c, owner_decides o r0 c ∧ sh_status covered_row = decision_status c) ∨
   sh_status covered_row = SPermanent ∧ covered o (state_after before) r0).
Proof.
  destruct (share_needs_consent all_valid ticks permitted covered_row covered_in eq_refl) as (b & o & a & r0 & E & _ & Hp & Hf & H).
  exists b, o, a, r0. split_and!; [exact E|exact Hp|exact Hf|exact H].
Defined.

Lemma revoke_correct_witness : ∃ w', revoke ("share_grant_" +:+ ticks 1) "ns" "bot" "local" 20 (sharing permitted)
    = (Ret (set_revoked 20 team_grant), w') ∧ ¬ granted (key_of (asks "req_1") "grp_1") "messages" (db w').
Proof.
  destruct (revoke_correct all_valid ticks permitted team_grant 20 grant_in eq_refl) as (w' & H & _ & Hno & _).
  exists w'. split; [exact H|exact (Hno "messages")].
Defined.

Definition bound_window : WindowRow :=
  {| wd_namespace_id := "ns"; wd_request_id := "req_3"; wd_agent_id := "bot"; wd_session_id := "sess_b"; generation := "" |}.

Lemma window_correct_witness :
  request_window_is_current (I := string) plain_digest None "ns" "req_3" (db (shares all_valid ticks retired (sharing permitted)))
    = Ret false.
Proof.
  assert (window_revoked_at "ns" "bot" "sess_b" (db (shares all_valid ticks retired (sharing permitted))) = Ret (Some 20%Z)) as E by by vm_compute.
  destruct (window_correct (I := string) all_valid plain_digest ticks plain_digest_inj plain_digest_nonempty None permitted retired
    "ns" "bot" "sess_b" "req_3" bound_window None) as [(c & Hc & H) _].
  - by vm_compute.
  - by vm_compute.
  - by vm_compute.
  - done.
  - rewrite E in Hc. injection Hc as <-. exact H.
Defined.
