(* ===== verification/DeliveryJobs.v ===== *)
(** * The jobs of deliveries

    A job that a claim returns names the delivery it is of, and each claim counts an attempt:
    [named] is kept by what [DeliveryStore] makes of a job, [named_rows] by every call of the
    stores. *)

From S2P Require Import Prelude OrderedDict PyJson Tables MateModels RequestStore DeliveryStore Recovery StoreInv DeliveryProps.

(** A dictionary that names the delivery *)
Definition named (job : jdict) (id : string) : Prop := od_wf job ∧ od_get job "delivery_id" = Some (JStr id).

Lemma named_set job id k v : k ≠ "delivery_id" → named job id → named (od_set job k v) id.
Proof. intros Hk [Hw Hg]. split; [auto with odict|]. by rewrite od_get_set_ne. Qed.

Lemma named_pop job id k : k ≠ "delivery_id" → named job id → named (od_pop job k) id.
Proof. intros Hk [Hw Hg]. split; [auto with odict|]. by rewrite od_get_pop_ne. Qed.

Lemma merge_wf d e : od_wf d → od_wf (j_merge d e).
Proof. revert d. induction e as [|kv e IH]; intros d Hd; [done|]. apply IH. auto with odict. Qed.

Lemma merge_get d e k : od_wf e → od_get (j_merge d e) k = match od_get e k with Some v => Some v | None => od_get d k end.
Proof.
  revert d. induction e as [|[k1 v1] e IH]; intros d He; [done|].
  change (j_merge d ((k1, v1) :: e)) with (j_merge (od_set d k1 v1) e). rewrite IH by (by eapply od_wf_tail). cbn [od_get].
  case_decide as Hk; [subst k1|by rewrite od_get_set_ne by congruence].
  assert (od_get e k = None) as ->; [|apply od_get_set_eq]. apply od_get_None.
  unfold od_wf, od_keys in He. rewrite fmap_cons in He. by apply NoDup_cons in He as [? _].
Qed.

Lemma named_merge job saved id : named job id → named saved id → named (j_merge job saved) id.
Proof. intros [Hw Hg] [Hw' Hg']. split; [by apply merge_wf|]. by rewrite merge_get, Hg'. Qed.

Lemma picked_get (job : jdict) fields k : od_get (omap (λ k, pair k <$> od_get job k) fields) k =
  if bool_decide (k ∈ fields) then od_get job k else None.
Proof.
  induction fields as [|f fields IH]; [done|]. cbn [omap list_omap].
  destruct (decide (k = f)) as [->|Hne].
  - rewrite bool_decide_true by (by left). destruct (od_get job f) eqn:E; cbn; [by rewrite decide_True|].
    rewrite IH. by case_bool_decide.
  - assert (bool_decide (k ∈ f :: fields) = bool_decide (k ∈ fields)) as ->.
    { apply bool_decide_ext. rewrite elem_of_cons. tauto. }
    destruct (od_get job f); cbn; [by rewrite decide_False|done].
Qed.

Lemma picked_wf (job : jdict) fields : NoDup fields → od_wf (omap (λ k, pair k <$> od_get job k) fields).
Proof.
  unfold od_wf, od_keys. induction 1 as [|f fields Hf _ IH]; [constructor|]. cbn [omap list_omap].
  destruct (od_get job f); cbn; [|done]. constructor; [|done]. intros (kv & -> & (f' & Hf' & H)%list_elem_of_omap)%list_elem_of_fmap.
  destruct (od_get job f'); [|done]. cbn in H. injection H as <-. done.
Qed.

Lemma named_notice job id text : named job id → named (_notice_delivery_job job text) id.
Proof.
  intros [Hw Hg]. apply named_set; [done|]. split.
  - apply picked_wf. by apply (bool_decide_unpack _).
  - rewrite picked_get. by rewrite bool_decide_true by (by apply (bool_decide_unpack _)).
Qed.

Section rows.
Context {I : Type} `{!RequestInputs I}.
Context (uuid : nat → string) (notice_text : string → string → option string → string).
Implicit Types (d : DB I) (w : World (DB I)) (r : DeliveryRow).

Lemma named_job ns row (rec : RequestRecord I) route text mode payload job :
  with_file ns row rec mode payload (with_sender row rec (base_job row rec route text)) = Ret job → named job (delivery_id row).
Proof.
  assert (named (base_job row rec route text) (delivery_id row)) as Hb.
  { split; [|done]. unfold od_wf, od_keys, base_job. cbn. by apply (bool_decide_unpack _). }
  assert (named (with_sender row rec (base_job row rec route text)) (delivery_id row)) as Hs.
  { unfold with_sender. repeat case_match; auto using named_set. }
  unfold with_file. repeat case_match; try done; intros [= <-]; auto using named_set.
Qed.

(** What is stored for a row names it. *)
Definition named_row r : Prop := ∀ job, job_json r = Some job → named job (delivery_id r).
Definition named_rows d : Prop := ∀ r, r ∈ deliveries d → named_row r.

Lemma named_stored row job : named_row row → named job (delivery_id row) → named (stored_job row job) (delivery_id row).
Proof.
  intros Hrow Hj. unfold stored_job.
  assert (named (match job_json row, notice row with Some saved, None => j_merge job saved | _, _ => job end) (delivery_id row)).
  { destruct (job_json row) as [saved|] eqn:E, (notice row); try done. apply named_merge; auto. }
  destruct (notice row); [by apply named_notice|done].
Qed.

Lemma named_update d P f : (∀ r, r ∈ deliveries d → P r = true → named_row r → named_row (f r)) → named_rows d →
  named_rows (with_deliveries (update_where P f (deliveries d)) d).
Proof. intros Hf Hd r [[Hr _]|(r0 & Hr & HP & ->)]%elem_of_update_where; auto. Qed.

Lemma keeps_named_update P f : (∀ r, P r = true → named_row r → named_row (f r)) →
  db_keeps named_rows (update_deliveries (I := I) P f).
Proof. intros Hf. apply db_keeps_with. intros d. apply named_update. auto. Qed.

(** An update that leaves the stored job alone *)
Lemma keeps_named_same P f : (∀ r, job_json (f r) = job_json r ∧ delivery_id (f r) = delivery_id r) →
  db_keeps named_rows (update_deliveries (I := I) P f).
Proof. intros Hf. apply keeps_named_update. intros r _ Hr job. destruct (Hf r) as [-> ->]. apply Hr. Qed.

Lemma keeps_named_add r : job_json r = None → db_keeps named_rows (add_delivery (I := I) r).
Proof.
  intros Hr. apply db_keeps_with. intros d Hd r' Hr'. cbn in Hr'.
  destruct (insert_or_ignore_cases delivery_clash r (deliveries d)) as [[E _]|E].
  - rewrite E in Hr'. by apply Hd.
  - apply insert_row_some in E as [E _]. rewrite E in Hr'. apply elem_of_app in Hr' as [Hr'|Hr']; [by apply Hd|].
    apply list_elem_of_singleton in Hr' as ->. intros job. by rewrite Hr.
Qed.
(** The jobs that are saved are dictionaries. *)
Definition dict_op (o : store_op (I := I)) : Prop := match o with OpSaveJob _ job => od_wf job | _ => True end.

#[local] Hint Extern 2 (db_keeps named_rows (update_deliveries _ _)) => (by apply keeps_named_same) : db_keeps.

Lemma keeps_named_save ns job : od_wf job → db_keeps named_rows (save_result_delivery_job (I := I) ns job).
Proof.
  intros Hj. unfold save_result_delivery_job. cbn zeta.
  destruct (od_get job "delivery_id") as [[| | |id| |]|] eqn:E; auto with db_keeps.
  apply db_keeps_transaction, db_keeps_bind; [auto with db_keeps|]. intros d. apply keeps_named_update.
  intros r [Hk _]%bool_decide_eq_true _ job' [= <-]. injection Hk as _ Hid. cbn [set_public delivery_id]. rewrite Hid.
  repeat case_match; try apply named_notice; done.
Qed.

Lemma keeps_named_notice ns id text now : db_keeps named_rows (replace_result_delivery_with_notice (I := I) ns id text now).
Proof.
  unfold replace_result_delivery_with_notice.
  apply db_keeps_bind; [auto with db_keeps|intros _]. apply db_keeps_returned. intros w u w' H Hw. store_inv.
  match goal with H : _require_delivery _ _ _ = _ |- _ => apply require_delivery_inv in H as (Hrow & Hk & ->) end.
  unfold update_deliveries in H. store_inv. apply named_update; [|done].
  intros r' _ Hk'%bool_decide_eq_true _ job (saved & Hsaved & ->)%fmap_Some.
  apply named_notice. injection Hk as _ Hid. injection Hk' as _ Hid'. cbn [set_public delivery_id]. rewrite Hid', <- Hid.
  by apply (Hw _ Hrow).
Qed.

Lemma run_op_named o : dict_op o → db_keeps named_rows (run_op uuid notice_text o).
Proof.
  intros Hd. destruct (delivery_op o) eqn:Ho.
  2: { apply adding_op; [|intros; by apply keeps_named_add|done]. intros d d' E H r. unfold named_rows in H. rewrite E. apply H. }
  destruct o; try done; apply keeps_drop; auto using keeps_named_save, keeps_named_notice.
  - assert (∀ row rec body, db_keeps named_rows (claim_row (I := I) ns now row rec body)).
    { intros. unfold claim_row. cbn zeta. eauto 20 with db_keeps. }
    assert (∀ rows, db_keeps named_rows (claim_rows (I := I) ns now rows)).
    { intros rows. induction rows as [|[row [rec body]] rows IH]; simpl; eauto with db_keeps. }
    unfold claim_pending_result_deliveries. eauto 12 with db_keeps.
  - unfold mark_welink_handoff_done. eauto with db_keeps.
  - unfold update_result_delivery, _require_delivery. cbn zeta. eauto 20 with db_keeps.
  - unfold recover_sending_result_deliveries. cbn zeta. eauto 20 with db_keeps.
Qed.
End rows.
