(* ===== verification/GroupMentions.v ===== *)
(** * Mentions of colleagues in a group

    Source: [_unique_members] and [resolve_group_mentions] of
    [server/jiuwenmate/group_collaboration.py].

    A roster item is the dictionary it is, as far as it has the keys that are read.
    [re_sub] is [Pattern.sub] for a pattern that never matches the empty text, given the
    length of its match at the start of a text.  Not modelled: the texts of the guidance, and
    who answers a greeting, which compare texts in Chinese. *)

From S2P Require Import Prelude OrderedDict PyJson ToolCapabilities Tables MateModels DeliveryStore.

(** ** Members *)

Record member := { m_agent_id : string; m_name : string; m_app_ids : option (list string) }.
#[export] Instance member_eq : EqDecision member.
Proof. solve_decision. Defined.

Definition member_json (m : member) : json :=
  JObj ([("agent_id", JStr (m_agent_id m)); ("name", JStr (m_name m))] ++
        match m_app_ids m with Some l => [("app_ids", JList (map JStr l))] | None => [] end).

Definition control_to_space (n : nat) : string := if Nat.ltb n 32 || Nat.eqb n 127 then " " else chr n.

(** [{value for value in app_ids if isinstance(value, str) and value.strip()}] *)
Definition app_id_values (l : list json) : list string :=
  omap (λ v, match v with JStr s => if blank s then None else Some s | _ => None end) l.

(** The item as a member, or [None] when the loop goes on with the next one *)
Definition item_member (item : jdict) : option member :=
  match j_get item "agent_id" with
  | JStr agent =>
      if negb (file_identifier (py_strip agent)) then None
      else match j_get item "name" with
           | JStr name =>
               if blank name then None
               else
                 let name := String.substring 0 256 (py_strip (map_chars control_to_space name)) in
                 if negb (str_true name) then None
                 else
                   let apps := match j_get item "app_ids" with JList l => l | _ => [] end in
                   Some {| m_agent_id := py_strip agent; m_name := py_strip name;
                           m_app_ids := match apps with [] => None | _ => Some (sorted_names (app_id_values apps)) end |}
           | _ => None
           end
  | _ => None
  end.

(** [members] and [conflicts] after one item *)
Definition add_member (acc : odict string member * list string) (m : member) : odict string member * list string :=
  let '(members, conflicts) := acc in
  if bool_decide (m_agent_id m ∈ conflicts) then acc
  else match od_get members (m_agent_id m) with
       | None => (od_set members (m_agent_id m) m, conflicts)
       | Some existing =>
           if negb (m_name existing =s m_name m) then (od_pop members (m_agent_id m), m_agent_id m :: conflicts)
           else match m_app_ids m with
                | Some (x :: l) =>
                    (od_set members (m_agent_id m) {| m_agent_id := m_agent_id existing; m_name := m_name existing;
                       m_app_ids := Some (sorted_names (default [] (m_app_ids existing) ++ x :: l)) |}, conflicts)
                | _ => acc
                end
       end.

Definition collect_members (roster : list jdict) : odict string member * list string :=
  foldl add_member ([], []) (omap item_member roster).

Definition _unique_members (roster : list jdict) : list member :=
  let members := (collect_members roster).1 in
  omap (od_get members) (sorted_names (od_keys members)).

(** ** Tokens *)

Section re_sub.
Context {A : Type} (next : string → option nat) (repl : string → A → string * A).

Fixpoint re_sub (skip : nat) (s : string) (a : A) : string * A :=
  match s with
  | EmptyString => (EmptyString, a)
  | String c s' =>
      match skip with
      | S skip => re_sub skip s' a
      | O =>
          match next s with
          | Some n =>
              let '(out, a) := repl (String.substring 0 n s) a in
              let '(rest, a) := re_sub (n - 1) s' a in (out +:+ rest, a)
          | None => let '(rest, a) := re_sub 0 s' a in (String c rest, a)
          end
      end
  end.
End re_sub.

Fixpoint id_run (s : string) : nat :=
  match s with String c s' => if file_id_char c then S (id_run s') else 0 | EmptyString => 0 end.

Definition OPEN : string := "[[agent:".

Definition suffix (n : nat) (s : string) : string := String.substring n (String.length s) s.

(** The length of a match of [_MENTION_TOKEN] and of [_INVALID_MENTION_TOKEN] at the start *)
Definition mention_token (s : string) : option nat :=
  if starts_with OPEN s then
    let rest := suffix 8 s in let n := id_run rest in
    if Nat.leb 1 n && Nat.leb n 128 && starts_with "]]" (suffix n rest) then Some (8 + n + 2) else None
  else None.

Definition invalid_token (s : string) : option nat :=
  if starts_with OPEN s then
    match String.index 0 "]]" (suffix 8 s) with Some i => Some (8 + i + 2) | None => None end
  else None.

(** The group of a match *)
Definition token_agent (token : string) : string := String.substring 8 (String.length token - 10) token.

(** [replace]; the list is [targets], which [seen] follows *)
Definition keep_first (by_id : string → option member) (token : string) (targets : list member) : string * list member :=
  match by_id (token_agent token) with
  | None => (EmptyString, targets)
  | Some m => match targets with [] => (token, [m]) | _ => (EmptyString, targets) end
  end.

Definition keep_valid (token : string) (u : unit) : string * unit :=
  (if bool_decide (mention_token token = Some (String.length token)) then token else EmptyString, u).

(** [by_id.get] *)
Definition by_agent (members : list member) (sender id : string) : option member :=
  head (filter (λ m, m_agent_id m = id ∧ m_agent_id m ≠ sender) members).

Definition resolve_group_mentions (text : string) (roster : list jdict) (sender : string) : string * list member :=
  let '(cleaned, targets) := re_sub mention_token (keep_first (by_agent (_unique_members roster) sender)) 0 text [] in
  ((re_sub invalid_token keep_valid 0 cleaned tt).1, targets).

(** ** Examples *)

Definition colleague (id name : string) : jdict := [("agent_id", JStr id); ("name", JStr name)].
Definition two : list jdict := [colleague "ann" "Ann"; colleague "bob" "Bob"].

Example keeps_one :
  resolve_group_mentions "to [[agent:bob]] and [[agent:ann]]" two "zoe"
    = ("to [[agent:bob]] and ", [{| m_agent_id := "bob"; m_name := "Bob"; m_app_ids := None |}]).
Proof. by vm_compute. Qed.

(** A token that appears when another one is taken out is kept, whoever it names. *)
Example removal_forms_token :
  resolve_group_mentions "see [[agent:[[agent:x]]eve]]" two "zoe" = ("see [[agent:eve]]", []).
Proof. by vm_compute. Qed.

(** ** Members: theorems *)

(** What the loop knows after the items [ms] *)
Record members_ok (ms : list member) (acc : odict string member * list string) : Prop := {
  mo_wf : od_wf acc.1;
  mo_id : ∀ id m, od_get acc.1 id = Some m → m_agent_id m = id;
  mo_name : ∀ id m m', od_get acc.1 id = Some m → m' ∈ ms → m_agent_id m' = id → m_name m' = m_name m;
  mo_from : ∀ id m, od_get acc.1 id = Some m → ∃ m', m' ∈ ms ∧ m_agent_id m' = id ∧ m_name m' = m_name m;
  mo_seen : ∀ m, m ∈ ms → m_agent_id m ∈ acc.2 ∨ is_Some (od_get acc.1 (m_agent_id m));
  mo_apart : ∀ id, id ∈ acc.2 → od_get acc.1 id = None;
  mo_conflict : ∀ id, id ∈ acc.2 → ∃ m m', m ∈ ms ∧ m' ∈ ms ∧ m_agent_id m = id ∧ m_agent_id m' = id ∧ m_name m ≠ m_name m';
}.

Lemma members_ok_nil : members_ok [] ([], []).
Proof. split; cbn; try done; try (intros; by (exfalso; eapply elem_of_nil)). apply od_wf_nil. Qed.

Lemma elem_snoc {A} (x y : A) l : x ∈ l ++ [y] ↔ x ∈ l ∨ x = y.
Proof. by rewrite elem_of_app, list_elem_of_singleton. Qed.

(** The item adds nothing but, at most, application ids. *)
Lemma members_ok_same ms members conflicts m existing new :
  members_ok ms (members, conflicts) → od_get members (m_agent_id m) = Some existing → m_name existing = m_name m →
  m_agent_id new = m_agent_id existing → m_name new = m_name existing →
  members_ok (ms ++ [m]) (od_set members (m_agent_id m) new, conflicts).
Proof.
  intros [] He Hn Hid Hname. cbn [fst snd] in *. assert (Hm : m_agent_id existing = m_agent_id m) by eauto.
  split; cbn [fst snd]; auto with odict.
  - intros id m1. rewrite od_get_set. case_decide; [intros [= <-]; congruence|apply mo_id0].
  - intros id m1 m2. rewrite od_get_set, elem_snoc. case_decide as Hk.
    + intros [= <-] [H| ->] <-; [|congruence]. rewrite Hname. by eapply mo_name0; [|exact H|].
    + intros H1 [H2| ->] Hid2; [by eapply mo_name0|done].
  - intros id m1. rewrite od_get_set. case_decide as Hk.
    + intros [= <-]. exists m. rewrite elem_snoc. split_and!; [by right|done|congruence].
    + intros H. destruct (mo_from0 id m1 H) as (m2 & ? & ?). exists m2. rewrite elem_snoc. tauto.
  - intros m1. rewrite elem_snoc, od_get_set. intros [H| ->]; [|right; by rewrite decide_True].
    case_decide; [by right|by apply mo_seen0].
  - intros id H. rewrite od_get_set. rewrite decide_False; [by apply mo_apart0|].
    intros <-. by rewrite mo_apart0 in He.
  - intros id H. destruct (mo_conflict0 id H) as (m1 & m2 & ?). exists m1, m2. rewrite !elem_snoc. tauto.
Qed.

Lemma members_ok_new ms members conflicts m :
  members_ok ms (members, conflicts) → m_agent_id m ∉ conflicts → od_get members (m_agent_id m) = None →
  members_ok (ms ++ [m]) (od_set members (m_agent_id m) m, conflicts).
Proof.
  intros [] Hc He. cbn [fst snd] in *.
  assert (Hnone : ∀ m', m' ∈ ms → m_agent_id m' ≠ m_agent_id m).
  { intros m' H Hid. destruct (mo_seen0 m' H) as [Hs|[x Hs]]; rewrite Hid in Hs; [done|congruence]. }
  split; cbn [fst snd]; auto with odict.
  - intros id m1. rewrite od_get_set. case_decide; [by intros [= <-]|apply mo_id0].
  - intros id m1 m2. rewrite od_get_set, elem_snoc. case_decide as Hk.
    + intros [= <-] [H| ->] Hid; [|done]. destruct (Hnone m2 H). congruence.
    + intros H1 [H2| ->] Hid2; [by eapply mo_name0|done].
  - intros id m1. rewrite od_get_set. case_decide as Hk.
    + intros [= <-]. exists m. rewrite elem_snoc. split_and!; [by right|done|done].
    + intros H. destruct (mo_from0 id m1 H) as (m2 & ? & ?). exists m2. rewrite elem_snoc. tauto.
  - intros m1. rewrite elem_snoc, od_get_set. intros [H| ->]; [|right; by rewrite decide_True].
    case_decide; [by right|by apply mo_seen0].
  - intros id H. rewrite od_get_set. case_decide as Hk; [by rewrite Hk in Hc|by apply mo_apart0].
  - intros id H. destruct (mo_conflict0 id H) as (m1 & m2 & ?). exists m1, m2. rewrite !elem_snoc. tauto.
Qed.

Lemma members_ok_clash ms members conflicts m existing :
  members_ok ms (members, conflicts) → od_get members (m_agent_id m) = Some existing → m_name existing ≠ m_name m →
  members_ok (ms ++ [m]) (od_pop members (m_agent_id m), m_agent_id m :: conflicts).
Proof.
  intros [] He Hn. cbn [fst snd] in *. split; cbn [fst snd]; auto with odict.
  - intros id m1. rewrite od_get_pop. case_decide; [done|apply mo_id0].
  - intros id m1 m2. rewrite od_get_pop, elem_snoc. case_decide as Hk; [done|].
    intros H1 [H2| ->] Hid2; [by eapply mo_name0|done].
  - intros id m1. rewrite od_get_pop. case_decide as Hk; [done|].
    intros H. destruct (mo_from0 id m1 H) as (m2 & ? & ?). exists m2. rewrite elem_snoc. tauto.
  - intros m1. rewrite elem_snoc, od_get_pop, elem_of_cons. intros [H| ->]; [|by left; left].
    case_decide as Hk; [left; by left|]. destruct (mo_seen0 m1 H); [left; by right|by right].
  - intros id. rewrite elem_of_cons, od_get_pop. intros [->|H]; [by rewrite decide_True|].
    case_decide; [done|by apply mo_apart0].
  - intros id. rewrite elem_of_cons. intros [->|H].
    + destruct (mo_from0 _ _ He) as (m' & Hm' & Hid & Hnm). exists m', m. rewrite !elem_snoc.
      split_and!; [by left|by right|done|done|congruence].
    + destruct (mo_conflict0 id H) as (m1 & m2 & ?). exists m1, m2. rewrite !elem_snoc. tauto.
Qed.

(** An item of a colleague whose names disagree *)
Lemma members_ok_skip ms members conflicts m :
  members_ok ms (members, conflicts) → m_agent_id m ∈ conflicts → members_ok (ms ++ [m]) (members, conflicts).
Proof.
  intros [] Hc. cbn [fst snd] in *. split; cbn [fst snd]; try done.
  - intros id m1 m2 H1. rewrite elem_snoc. intros [H2| ->] Hid; [by eapply mo_name0|].
    rewrite <-Hid, (mo_apart0 _ Hc) in H1. done.
  - intros id m1 H. destruct (mo_from0 id m1 H) as (m2 & ? & ?). exists m2. rewrite elem_snoc. tauto.
  - intros m1. rewrite elem_snoc. intros [H| ->]; [by apply mo_seen0|by left].
  - intros id H. destruct (mo_conflict0 id H) as (m1 & m2 & ?). exists m1, m2. rewrite !elem_snoc. tauto.
Qed.

Lemma add_member_ok ms acc m : members_ok ms acc → members_ok (ms ++ [m]) (add_member acc m).
Proof.
  destruct acc as [members conflicts]. intros H. unfold add_member. case_bool_decide; [by apply members_ok_skip|].
  destruct (od_get members (m_agent_id m)) as [existing|] eqn:He; [|by apply members_ok_new].
  destruct (m_name existing =s m_name m) eqn:Hn; cbn [negb]; [apply String.eqb_eq in Hn|apply String.eqb_neq in Hn; by eapply members_ok_clash].
  destruct (m_app_ids m) as [[|x l]|]; try (rewrite <-(od_set_id members (m_agent_id m) existing) by done; by eapply members_ok_same).
  by eapply members_ok_same.
Qed.

Lemma collect_members_ok roster : members_ok (omap item_member roster) (collect_members roster).
Proof.
  unfold collect_members. generalize (omap item_member roster) as ms. intros ms.
  change ms with ([] ++ ms) at 1. generalize members_ok_nil. generalize ([] : list member) as done_.
  generalize ([] : odict string member, [] : list string) as acc.
  induction ms as [|m ms IH]; intros acc done_ H; [by rewrite app_nil_r|].
  cbn [foldl]. rewrite (app_assoc done_ [m] ms : done_ ++ m :: ms = _). apply IH. by apply add_member_ok.
Qed.

(** the members are sorted by their distinct identifiers, and a colleague is one of them just
    when some usable item names it and no two usable items give it different names. *)
Theorem unique_members_correct roster :
  StronglySorted (λ a b, String.leb a b = true) (m_agent_id <$> _unique_members roster) ∧
  NoDup (m_agent_id <$> _unique_members roster) ∧
  ∀ id name, (∃ m, m ∈ _unique_members roster ∧ m_agent_id m = id ∧ m_name m = name) ↔
    (∃ m, m ∈ omap item_member roster ∧ m_agent_id m = id ∧ m_name m = name) ∧
    ∀ m, m ∈ omap item_member roster → m_agent_id m = id → m_name m = name.
Proof.
  pose proof (collect_members_ok roster) as []. unfold _unique_members. set (d := (collect_members roster).1) in *.
  assert (Hids : m_agent_id <$> omap (od_get d) (sorted_names (od_keys d)) = sorted_names (od_keys d)).
  { assert (∀ id, id ∈ sorted_names (od_keys d) → ∃ m, od_get d id = Some m ∧ m_agent_id m = id) as Hall.
    { intros id Hin. apply (proj1 (elem_of_sorted_names _ _)), od_get_is_Some in Hin as [m Hm]. exists m. split; [done|by eapply mo_id0]. }
    revert Hall. generalize (sorted_names (od_keys d)) as l. induction l as [|id l IH]; intros Hall; [done|].
    destruct (Hall id) as (m & Hm & Hid); [by left|]. cbn. rewrite Hm. cbn. f_equal; [done|]. apply IH. intros id' Hin. apply Hall. by right. }
  rewrite Hids. destruct (sorted_names_NoDup (od_keys d)) as [Hnd Hs]. split_and!; [done|done|].
  intros id name. split.
  - intros (m & (id' & Hid' & Hm)%list_elem_of_omap & <- & <-). pose proof (mo_id0 _ _ Hm) as <-.
    split; [by apply mo_from0|]. intros m' Hm' Hid2. by eapply mo_name0.
  - intros [(m0 & Hm0 & Hi0 & Hn0) Hall]. destruct (mo_seen0 m0 Hm0) as [Hc|[m Hm]].
    + destruct (mo_conflict0 _ Hc) as (m1 & m2 & H1 & H2 & Hi1 & Hi2 & Hne). destruct Hne.
      rewrite (Hall m1), (Hall m2); [done|done|congruence|done|congruence].
    + exists m. rewrite Hi0 in Hm. split_and!; [|by eapply mo_id0|symmetry; rewrite <-Hn0; by eapply mo_name0].
      apply list_elem_of_omap. exists id. split; [|done]. apply elem_of_sorted_names, od_get_is_Some. eauto.
Qed.

(** ** Tokens: theorems *)

Lemma re_sub_state {A} (next : string → option nat) (repl : string → A → string * A) (P : A → Prop) skip s a :
  (∀ token b, P b → P (repl token b).2) → P a → P (re_sub next repl skip s a).2.
Proof.
  intros Hrepl. revert skip a. induction s as [|c s IH]; intros skip a Ha; [done|]. cbn [re_sub].
  destruct skip as [|skip]; [|by apply IH].
  destruct (next (String c s)) as [n|].
  - specialize (Hrepl (String.substring 0 n (String c s)) a Ha). destruct (repl _ a) as [out b]. cbn [snd] in Hrepl.
    specialize (IH (n - 1) b Hrepl). by destruct (re_sub _ _ _ s b).
  - specialize (IH 0 a Ha). by destruct (re_sub _ _ 0 s a).
Qed.

Lemma re_sub_none {A} (next : string → option nat) (repl : string → A → string * A) s a :
  (∀ t, next t ≠ None → starts_with OPEN t = true) → py_contains OPEN s = false → re_sub next repl 0 s a = (s, a).
Proof.
  intros Hnext. induction s as [|c s IH]; intros Hs; [done|].
  assert (starts_with OPEN (String c s) = false ∧ py_contains OPEN s = false) as [Hp Ht].
  { unfold py_contains, starts_with in *. change (String.index 0 OPEN (String c s)) with
      (if String.prefix OPEN (String c s) then Some 0 else match String.index 0 OPEN s with Some n => Some (S n) | None => None end) in Hs.
    destruct (String.prefix OPEN (String c s)); [done|]. by destruct (String.index 0 OPEN s). }
  cbn [re_sub]. destruct (next (String c s)) eqn:E; [|by rewrite (IH Ht)].
  rewrite Hnext in Hp; [done|by rewrite E].
Qed.

Lemma mention_opens t : mention_token t ≠ None → starts_with OPEN t = true.
Proof. unfold mention_token. by destruct (starts_with OPEN t). Qed.
Lemma invalid_opens t : invalid_token t ≠ None → starts_with OPEN t = true.
Proof. unfold invalid_token. by destruct (starts_with OPEN t). Qed.

(** C: at most one colleague is selected, a member of the roster other than the sender; a text
    without the opening of a token is left as it is and selects nobody. *)
Theorem mentions_selected text roster sender cleaned targets :
  resolve_group_mentions text roster sender = (cleaned, targets) →
  (targets = [] ∨ ∃ m, targets = [m] ∧ m ∈ _unique_members roster ∧ m_agent_id m ≠ sender) ∧
  (py_contains OPEN text = false → cleaned = text ∧ targets = []).
Proof.
  unfold resolve_group_mentions. set (by_id := by_agent _ _).
  destruct (re_sub mention_token (keep_first by_id) 0 text []) as [c ts] eqn:E. intros [= <- <-]. split.
  - pose proof (re_sub_state mention_token (keep_first by_id) (λ targets, targets = [] ∨ ∃ m, targets = [m] ∧
      m ∈ _unique_members roster ∧ m_agent_id m ≠ sender) 0 text []) as H. rewrite E in H. apply H; [|by left].
    intros token b Hb. unfold keep_first. destruct (by_id (token_agent token)) as [m|] eqn:Hm; [|done].
    destruct b; [|done]. right. exists m. split; [done|].
    assert (m ∈ filter (λ m, m_agent_id m = token_agent token ∧ m_agent_id m ≠ sender) (_unique_members roster))
      as [[_ ?] ?]%list_elem_of_filter; [|done].
    unfold by_id, by_agent in Hm. destruct (filter _ _); [done|]. injection Hm as ->. by left.
  - intros Ht. rewrite (re_sub_none _ _ _ _ mention_opens Ht) in E. injection E as <- <-.
    by rewrite (re_sub_none _ _ _ _ invalid_opens Ht).
Qed.
