(* ===== verification/DeliveryService.v ===== *)
(** * Sending results

    Source: [dispatch_pending], [_check_sharing] and [apply_ack] of [ResultDeliveryService]
    ([server/jiuwenmate/delivery_service.py]).

    A worker is a call of [dispatch_pending], split at its awaits: the calls of the
    repository, which run in threads, the guard, the roster of a group and the Gateway.
    Workers are interleaved with each other and with every other call of the stores
    ([store_op], as [update_result_delivery] through [apply_ack]); one that is cancelled, or
    whose process dies, is gone wherever it was; what a thread goes on to do for it is a call
    of the stores.  [seen] is what the outside has been asked,
    in order.  What the guard, the roster and the Gateway answer is left open.

    Not modelled: the archive of sent deliveries and the reconciliation of WeLink, which send
    no result, and the loop that calls [dispatch_pending] again. *)

From S2P Require Import Prelude OrderedDict PyJson ToolCapabilities Tables MateModels RequestStore DeliveryStore Recovery StoreInv GroupMentions.

(** Nothing reads it; it is spelled in UTF-8. *)
Definition SHARING_NOTICE : string := "跨群分享授权已失效，本次内容未发送。".

(** [s.replace(old, new)] for a nonempty [old] *)
Definition replace_all (old new s : string) : string :=
  (re_sub (A := unit) (λ t, if starts_with old t then Some (String.length old) else None) (λ _ u, (new, u)) 0 s tt).1.

(** What the Gateway's answer is, or how waiting for it ended *)
Inductive gateway_answer := Acked (ack : option jdict) | TimedOut | GatewayRaised.

Definition ack_of (a : gateway_answer) : option jdict :=
  match a with
  | Acked ack => ack
  | TimedOut => Some [("outcome", JStr "unknown"); ("error_code", JStr "ACK_TIMEOUT")]
  | GatewayRaised => Some [("outcome", JStr "unknown"); ("error_code", JStr "GATEWAY_ERROR")]
  end.

(** Where [for _ in range(limit)] is *)
Record turn := { attempted : list string; rounds : nat }.

(** Where a worker is: before a call of the repository or of the outside *)
Inductive point :=
| Claim (t : turn)
| Guard1 (t : turn) (job : jdict)
| Replace1 (t : turn) (job : jdict)
| Roster (t : turn) (job : jdict)
| Save (t : turn) (job : jdict)
| Guard2 (t : turn) (job : jdict)
| Replace2 (t : turn) (job : jdict)
| Send (t : turn) (job : jdict)
| Wait (t : turn) (job : jdict)
| Update (t : turn) (job : jdict) (ack : option jdict)
| Guard3 (t : turn) (job : jdict) (external : option string)
| Replace3 (t : turn) (job : jdict)
| Handoff (t : turn) (job : jdict) (external : option string).

(** What the outside is asked by a worker *)
Inductive asked :=
| AskedGuard (worker : nat) (job : jdict) (allowed : bool)
| AskedSend (worker : nat) (job gateway_job : jdict)
| AskedHandoff (worker : nat) (job : jdict).

(** What the outside answers *)
Record answers := { allows : bool; roster_of : option (list jdict); gateway : gateway_answer }.

Section service.
Context {I : Type} `{!RequestInputs I}.
Context (uuid : nat → string) (notice_text : string → string → option string → string).
(** The service's namespace and channels, and whether it has a guard, a roster and a handler of handoffs *)
Context (namespace : string) (channels : list string) (has_guard has_roster has_handoff : bool).

Record Service := mk_service { tables : World (DB I); workers : gmap nat point; seen : list asked }.

Definition set_tables w s := mk_service w (workers s) (seen s).
Definition go_to (k : nat) (p : point) s := mk_service (tables s) (<[k := p]> (workers s)) (seen s).
Definition leave (k : nat) s := mk_service (tables s) (delete k (workers s)) (seen s).
Definition ask_for (a : asked) s := mk_service (tables s) (workers s) (seen s ++ [a]).

(** [str(job["delivery_id"])] *)
Definition job_id (job : jdict) : string := py_str (j_get job "delivery_id").
Definition welink (job : jdict) : bool := bool_decide (j_get job "channel" = JStr "welink").

Definition gateway_job (job : jdict) : jdict :=
  foldl od_pop job ["namespace_id"; "agent_id"; "session_id"; "request_kind"].

(** The next round, or [reconcile_archives] and the end *)
Definition next_round (k : nat) (t : turn) (s : Service) : Service :=
  match rounds t with
  | O => leave k s
  | S n => go_to k (Claim {| attempted := attempted t; rounds := n |}) s
  end.

(** From the mentions to the save *)
Definition after_save (k : nat) (t : turn) (job : jdict) (s : Service) : Service :=
  go_to k (if has_guard then Guard2 t job else Send t job) s.

Definition with_mentions (roster : list jdict) (text : string) (job : jdict) : jdict :=
  let '(cleaned, mentions) := resolve_group_mentions text roster (str_or_empty (j_get job "agent_id")) in
  let cleaned := if welink job
    then foldl (λ c m, replace_all ("[[agent:" +:+ m_agent_id m +:+ "]]") (m_name m) c) cleaned mentions else cleaned in
  let job := od_set job "text" (JStr cleaned) in
  match mentions with [] => job | _ => od_set job "mention_targets" (JList (map member_json mentions)) end.

Definition after_mentions (k : nat) (t : turn) (job : jdict) (s : Service) : Service :=
  if welink job then go_to k (Save t job) s else after_save k t job s.

(** From the first check to the mentions *)
Definition after_check (k : nat) (t : turn) (job : jdict) (s : Service) : Service :=
  let t := {| attempted := attempted t ++ [job_id job]; rounds := rounds t |} in
  match j_get job "text" with
  | JStr text =>
      if py_contains "[[agent:" text then
        if has_roster && negb (bool_decide (j_get job "is_direct_message" = JBool true)) then go_to k (Roster t job) s
        else after_mentions k t (with_mentions [] text job) s
      else after_mentions k t job s
  | _ => after_mentions k t job s
  end.

(** [_check_sharing] has been told no: the public content is replaced first. *)
Definition replace (job : jdict) (now : Z) (s : Service) : outcome mate_error unit * Service :=
  let '(o, w) := replace_result_delivery_with_notice namespace (job_id job) SHARING_NOTICE now (tables s) in
  (o, set_tables w s).

Definition claim (k : nat) (t : turn) (now : Z) (s : Service) : Service :=
  match claim_pending_result_deliveries namespace channels 1 (attempted t) now (tables s) with
  | (Ret (job :: _), w) => (if has_guard then go_to k (Guard1 t job) else after_check k t job) (set_tables w s)
  | (_, w) => leave k (set_tables w s)
  end.

Definition update (k : nat) (t : turn) (job : jdict) (ack : option jdict) (now : Z) (s : Service) : Service :=
  let '(o, external, error) := _classify_ack job ack in
  match update_result_delivery namespace (job_id job) o external error now (_file_key job ack) (tables s) with
  | (Ret _, w) =>
      let s := set_tables w s in
      if (o =s "delivered") && negb (welink job) && j_truth (j_get job "mention_targets") && has_handoff
      then go_to k (if has_guard then Guard3 t job external else Handoff t job external) s
      else next_round k t s
  | (Exc _, w) => leave k (set_tables w s)
  end.

(** [dispatch_pending] from one await to the next *)
Definition worker_step (k : nat) (a : answers) (now : Z) (s : Service) : Service :=
  match workers s !! k with
  | None => s
  | Some (Claim t) => claim k t now s
  | Some (Guard1 t job) =>
      let s := ask_for (AskedGuard k job (allows a)) s in
      if allows a then after_check k t job s else go_to k (Replace1 t job) s
  | Some (Replace1 t job) =>
      match replace job now s with
      | (Ret _, s) => after_check k t (_notice_delivery_job job SHARING_NOTICE) s
      | (Exc _, s) => leave k s
      end
  | Some (Roster t job) =>
      let text := match j_get job "text" with JStr text => text | _ => EmptyString end in
      after_mentions k t (with_mentions (default [] (roster_of a)) text job) s
  | Some (Save t job) =>
      match save_result_delivery_job namespace job (tables s) with
      | (Ret _, w) => after_save k t job (set_tables w s)
      | (Exc _, w) => leave k (set_tables w s)
      end
  | Some (Guard2 t job) =>
      let s := ask_for (AskedGuard k job (allows a)) s in
      if allows a then go_to k (Send t job) s else go_to k (Replace2 t job) s
  | Some (Replace2 t job) =>
      match replace job now s with
      | (Ret _, s) => go_to k (Send t (_notice_delivery_job job SHARING_NOTICE)) s
      | (Exc _, s) => leave k s
      end
  | Some (Send t job) => go_to k (Wait t job) (ask_for (AskedSend k job (gateway_job job)) s)
  | Some (Wait t job) => go_to k (Update t job (ack_of (gateway a))) s
  | Some (Update t job ack) => update k t job ack now s
  | Some (Guard3 t job external) =>
      let s := ask_for (AskedGuard k job (allows a)) s in
      if allows a then go_to k (Handoff t job external) s else go_to k (Replace3 t job) s
  | Some (Replace3 t job) => next_round k t (replace job now s).2
  | Some (Handoff t job external) => next_round k t (ask_for (AskedHandoff k job) s)
  end.

(** [dispatch_pending(limit=limit)] is called. *)
Definition dispatch_pending (k : nat) (limit : nat) (s : Service) : Service :=
  match workers s !! k with
  | None => next_round k {| attempted := []; rounds := limit |} s
  | Some _ => s
  end.

(** [apply_ack], up to the archives: the call of the repository, if it makes one.  A message id
    or an error code that is no text is taken for none. *)
Definition apply_ack (ack : jdict) (now : Z) : outcome mate_error (option (store_op (I := I))) :=
  match j_get ack "delivery_id" with
  | JStr id =>
      if blank id || negb (bool_decide (j_get ack "stage" = JStr "send")) then Exc PyValueError
      else if bool_decide (j_get ack "operation" = JStr "validate_handoff") then Ret None
      else
        let text k := match j_get ack k with JStr x => Some x | _ => None end in
        match j_get ack "outcome" with
        | JStr o =>
            if bool_decide (o ∈ ["delivered"; "failed"; "unknown"; "pending"])
            then Ret (Some (OpAck namespace id o (text "external_message_id") (text "error_code") now (text "file_key")))
            else Exc PyValueError
        | _ => Exc PyValueError
        end
  | _ => Exc PyValueError
  end.

(** ** Interleavings *)

Inductive service_event :=
| Dispatch (worker limit : nat)
| Continue (worker : nat) (a : answers) (now : Z)
| Cancelled (worker : nat)
| Acknowledged (ack : jdict) (now : Z)
| StoreCall (o : store_op (I := I)).

Definition happen (e : service_event) (s : Service) : Service :=
  match e with
  | Dispatch k limit => dispatch_pending k limit s
  | Continue k a now => worker_step k a now s
  | Cancelled k => leave k s
  | Acknowledged ack now =>
      match apply_ack ack now with
      | Ret (Some o) => set_tables (run_op uuid notice_text o (tables s)).2 s
      | _ => s
      end
  | StoreCall o => set_tables (run_op uuid notice_text o (tables s)).2 s
  end.

Definition happens (es : list service_event) (s : Service) : Service := foldl (λ s e, happen e s) s es.

End service.
Arguments Service I : clear implicits.
Arguments service_event I : clear implicits.
