(* ===== verification/DeliveryServiceProps.v ===== *)
(** * Sending results: theorems

    However the workers of [dispatch_pending] are interleaved with each other, with late
    acknowledgements and with the other calls of the stores, a delivery is sent at most as
    often as it has been claimed, is not sent again once its outcome is unknown or final, and
    what is sent is what the guard allowed, or the notice. *)

From S2P Require Import Prelude OrderedDict PyJson Tables MateModels RequestStore DeliveryStore Recovery StoreInv DeliveryProps DeliveryJobs GroupMentions DeliveryService.

Create HintDb moves.

(** ** Claims of one delivery *)

Section claims.
Context {I : Type} `{!RequestInputs I}.
Context (uuid : nat → string) (notice_text : string → string → option string → string).
Implicit Types (d : DB I) (w : World (DB I)) (r : DeliveryRow).

(** The attempts that are counted for a delivery *)
Definition attempts (ns id : string) (d : DB I) : nat :=
  match fetchone (λ r, bool_decide (delivery_key r = (ns, id))) (deliveries d) with
  | Some r => Z.to_nat (attempt_count r)
  | None => 0
  end.

Lemma attempts_row ns id d r : unique delivery_key (deliveries d) → r ∈ deliveries d → delivery_key r = (ns, id) →
  attempts ns id d = Z.to_nat (attempt_count r).
Proof.
  intros Hu Hr Hk. unfold attempts.
  rewrite (fetchone_unique delivery_key _ _ r Hu Hr); [done|by apply bool_decide_eq_true|].
  intros r' _ H%bool_decide_eq_true. congruence.
Qed.

Lemma delivery_steps_attempts r r' : rtc delivery_step r r' → (attempt_count r ≤ attempt_count r')%Z.
Proof. induction 1 as [|r1 r2 r3 H _ IH]; [done|]. etrans; [|done]. destruct H; simpl; lia. Qed.

Lemma attempts_nonneg d r : deliveries_ok [] d → r ∈ deliveries d → (0 ≤ attempt_count r)%Z.
Proof.
  intros (_ & _ & He) Hr. destruct (evolves_born _ _ _ _ He Hr) as (r0 & (_ & H0 & _) & Hs).
  rewrite <- H0. by apply delivery_steps_attempts.
Qed.

Lemma attempts_mono ns id d d' : deliveries_ok (deliveries d) d' → attempts ns id d ≤ attempts ns id d'.
Proof.
  intros (Hu & _ & He). unfold attempts at 1. destruct (fetchone _ (deliveries d)) as [r|] eqn:E; [|lia].
  apply fetchone_dec in E as [Hk Hr].
  destruct (evolves_row _ _ _ _ _ He Hr) as (r' & Hr' & Hm). rewrite (attempts_row ns id d' r' Hu Hr').
  - apply delivery_steps_attempts in Hm. lia.
  - rewrite <- Hk. apply (changes_key delivery_step); [|done]. by intros ?? (?&?&?&?)%delivery_step_keys.
Qed.
(** What a claim has done for a job that it returns *)
Definition claimed_job (ns : string) (job : jdict) (d d' : DB I) : Prop :=
  ∃ r now, r ∈ deliveries d ∧ d_namespace_id r = ns ∧ d_status r = pending ∧ named job (delivery_id r) ∧
    send_row now r ∈ deliveries d'.

Lemma claim_row_job ns now row rec body w job l w' :
  claim_row (I := I) ns now row rec body w = (Ret (job :: l), w') → unique delivery_key (deliveries (db w)) →
  row ∈ deliveries (db w) → d_namespace_id row = ns → named_row row → claimed_job ns job (db w) (db w') ∧ l = [].
Proof.
  intros H Hu Hrow Hns Hn. unfold claim_row in H. cbn zeta in H.
  destruct (route_snapshot rec) as [route|]; [|by store_inv].
  destruct (_ || _) in H; [by store_inv|]. destruct (j_get _ "share_mode") as [| | |mode| |] in H; try by store_inv.
  destruct (negb _) in H; [by store_inv|]. unfold py_bind at 1, get_db in H. unfold update_deliveries in H at 1.
  destruct (Nat.eqb_spec (length (select (pending_row ns row) (deliveries (db w)))) 1) as [H1|H1]; [|by store_inv].
  cbn [negb] in H. destruct (with_file _ _ _ _ _ _) as [job0|e] eqn:Ef; [|by store_inv]. store_inv.
  injection H as -> ->. split; [|done].
  destruct (select (pending_row (d_namespace_id row) row) (deliveries (db w))) as [|r0 t] eqn:Hsel; [done|].
  assert (r0 ∈ select (pending_row (d_namespace_id row) row) (deliveries (db w))) as [HP Hr0]%elem_of_rows by (rewrite Hsel; left).
  apply pending_row_true in HP as [Hk Hs]. assert (r0 = row) as -> by by eapply (unique_eq delivery_key).
  exists row, now. split_and!; try done; [by eapply named_stored, named_job|].
  apply elem_of_update_where. right. exists row. split; [done|]. split; [|done]. by apply pending_row_true.
Qed.

(** One delivery is claimed at a time. *)
Lemma claim_one ns channels exclude now w jobs w' job :
  claim_pending_result_deliveries (I := I) ns channels 1 exclude now w = (Ret (job :: jobs), w') →
  unique delivery_key (deliveries (db w)) → named_rows (db w) → claimed_job ns job (db w) (db w').
Proof.
  intros H Hu Hn. unfold claim_pending_result_deliveries in H. store_inv.
  destruct channels as [|c channels]; [by store_inv|]. store_inv. change (Z.to_nat 1) with 1 in H.
  destruct (claimable ns (c :: channels) exclude (db w)) as [|[row [rec body]] rows] eqn:E; [by store_inv|].
  assert ((row, (rec, body)) ∈ claimable ns (c :: channels) exclude (db w)) as Hx by (rewrite E; left).
  apply elem_of_claimable in Hx as (Hrow & Hns & _). cbn in Hrow, Hns, H.
  unfold py_bind in H. destruct (claim_row ns now row rec body w) as [[l|e] w1] eqn:Er; [|done].
  injection H as H <-. rewrite app_nil_r in H. subst l. by eapply claim_row_job in Er as [? _]; auto.
Qed.
End claims.

(** ** Workers *)

Section workers.
Context {I : Type} `{!RequestInputs I}.
Context (uuid : nat → string) (notice_text : string → string → option string → string).
Context (namespace : string) (channels : list string) (has_guard has_roster has_handoff : bool).
Implicit Types (s : Service I) (w : World (DB I)) (p : point).

#[local] Abbreviation happen := (happen uuid notice_text namespace channels has_guard has_roster has_handoff).
#[local] Abbreviation happens := (happens uuid notice_text namespace channels has_guard has_roster has_handoff).

(** The job that a worker has before it is sent *)
Definition unsent (p : point) : option jdict :=
  match p with
  | Guard1 _ job | Replace1 _ job | Roster _ job | Save _ job | Guard2 _ job | Replace2 _ job | Send _ job => Some job
  | _ => None
  end.

Definition of_delivery (id : string) (job : jdict) : bool := bool_decide (j_get job "delivery_id" = JStr id).
Definition holds (id : string) (p : point) : bool := from_option (of_delivery id) false (unsent p).

(** How many workers have a delivery that they are about to send *)
Definition held (id : string) (m : gmap nat point) : nat := size (filter (λ kp, holds id kp.2 = true) m).

(** How often a delivery has been sent *)
Definition is_send (id : string) (a : asked) : bool := match a with AskedSend _ job _ => of_delivery id job | _ => false end.
Definition sends (id : string) (l : list asked) : nat := length (select (is_send id) l).

(** Where a worker goes: to a point, or away *)
Definition place (k : nat) (po : option point) (m : gmap nat point) : gmap nat point :=
  match po with Some p => <[k := p]> m | None => delete k m end.
Definition hold (id : string) (po : option point) : nat := if from_option (holds id) false po then 1 else 0.

Lemma held_insert id k p m : m !! k = None → held id (<[k := p]> m) = hold id (Some p) + held id m.
Proof.
  intros Hk. unfold held, hold. cbn [from_option]. destruct (holds id p) eqn:Hp.
  - rewrite map_filter_insert_True by done. rewrite map_size_insert_None; [done|]. by apply map_lookup_filter_None_2; left.
  - rewrite map_filter_insert_False by (cbn; congruence). by rewrite delete_id.
Qed.

Lemma held_place id k po m : held id (place k po m) = hold id po + held id (delete k m).
Proof.
  destruct po as [p|]; [|done]. cbn [place]. rewrite <- insert_delete_eq. apply held_insert, lookup_delete_eq.
Qed.

Lemma held_at id k po m : m !! k = po → held id m = hold id po + held id (delete k m).
Proof.
  intros <-. rewrite <- (held_place id k (m !! k) m). f_equal. destruct (m !! k) eqn:E; cbn [place];
    [by rewrite insert_id|by rewrite delete_id].
Qed.

Lemma sends_app id l l' : sends id (l ++ l') = sends id l + sends id l'.
Proof. unfold sends. by rewrite select_app, length_app. Qed.

(** What a point's job names *)
Definition point_job (p : point) : option jdict :=
  match p with
  | Claim _ => None
  | Guard1 _ job | Replace1 _ job | Roster _ job | Save _ job | Guard2 _ job | Replace2 _ job | Send _ job
  | Wait _ job | Update _ job _ | Guard3 _ job _ | Replace3 _ job | Handoff _ job _ => Some job
  end.
Definition named_point (id : string) (p : point) : Prop := ∀ job, point_job p = Some job → named job id.
Definition named_place (id : string) (po : option point) : Prop := ∀ p, po = Some p → named_point id p.

Lemma named_of id id' job : named job id → of_delivery id' job = bool_decide (id' = id).
Proof. intros [_ H]. unfold of_delivery, j_get. rewrite H. apply bool_decide_ext. cbn. naive_solver. Qed.

Lemma hold_named id id' po : named_place id po → hold id' po ≤ if bool_decide (id' = id) then 1 else 0.
Proof.
  intros Hn. unfold hold. destruct po as [p|]; [|cbn; lia]. cbn [from_option]. unfold holds.
  destruct (unsent p) as [job|] eqn:E; [|cbn; lia]. cbn [from_option].
  rewrite (named_of id) by (apply (Hn p); [done|]; by destruct p; simplify_eq). by case_bool_decide.
Qed.

Lemma hold_unsent id id' p job : unsent p = Some job → named job id →
  hold id' (Some p) = if bool_decide (id' = id) then 1 else 0.
Proof. intros Hp Hn. unfold hold, holds. cbn [from_option]. rewrite Hp. cbn. by rewrite (named_of id). Qed.

(** *** Steps of a worker *)

Lemma named_with_mentions id roster text job : named job id → named (with_mentions roster text job) id.
Proof.
  intros H. unfold with_mentions. destruct (resolve_group_mentions _ _ _) as [cleaned mentions]. cbn zeta.
  destruct mentions; repeat apply named_set; done.
Qed.

Ltac at_point := eexists; split; [reflexivity|]; intros ? [= <-].

Lemma after_save_to id k t job s : named job id →
  ∃ p, after_save (I := I) has_guard k t job s = go_to k p s ∧ named_point id p.
Proof. intros H. unfold after_save. destruct has_guard; by at_point. Qed.

Lemma after_mentions_to id k t job s : named job id →
  ∃ p, after_mentions (I := I) has_guard k t job s = go_to k p s ∧ named_point id p.
Proof. intros H. unfold after_mentions. destruct (welink job); [by at_point|by apply after_save_to]. Qed.

Lemma after_check_to id k t job s : named job id →
  ∃ p, after_check (I := I) has_guard has_roster k t job s = go_to k p s ∧ named_point id p.
Proof.
  intros H. unfold after_check. cbn zeta.
  repeat (case_match; try (by apply after_mentions_to)); [by at_point|]. by apply after_mentions_to, named_with_mentions.
Qed.

(** A call of the stores that a worker makes *)
Definition store_call w w' : Prop := w' = w ∨ ∃ o, dict_op o ∧ w' = (run_op uuid notice_text o w).2.

(** What a step of worker [k], which has the delivery [id], may do *)
Definition moves (id : string) (k : nat) (p : point) s s' : Prop :=
  ∃ po news, workers s' = place k po (workers s) ∧ seen s' = seen s ++ news ∧ store_call (tables s) (tables s') ∧
    named_place id po ∧ ∀ id', hold id' po + sends id' news ≤ hold id' (Some p).

(** The service beside the worker that moves *)
Definition beside s s1 : Prop := workers s1 = workers s ∧ store_call (tables s) (tables s1) ∧
  ∃ news, seen s1 = seen s ++ news ∧ ∀ id, sends id news = 0.

(** A worker that has not sent its job keeps it, or is gone. *)
Lemma moves_unsent id k p job po s s1 : beside s s1 → unsent p = Some job → named job id → named_place id po →
  moves id k p s (mk_service (tables s1) (place k po (workers s1)) (seen s1)).
Proof.
  intros (Hw & Ht & news & Hs & H0) Hp Hj Hn. exists po, news. cbn. rewrite Hw. split_and!; try done. intros id'.
  rewrite H0, (hold_unsent id id' p job) by done. pose proof (hold_named id id' po Hn). lia.
Qed.

Lemma unsent_goes id k p job p' s s1 : beside s s1 → unsent p = Some job → named job id → named_point id p' →
  moves id k p s (go_to k p' s1).
Proof. intros. eapply (moves_unsent id k p job (Some p')); try done. by intros ? [= <-]. Qed.

Lemma unsent_leaves id k p job s s1 : beside s s1 → unsent p = Some job → named job id → moves id k p s (leave k s1).
Proof. intros. by eapply (moves_unsent id k p job None). Qed.

(** A worker that has sent its job does not have it again. *)
Lemma moves_sent id k p po s s1 : beside s s1 → named_place id po → (po ≫= unsent) = None →
  moves id k p s (mk_service (tables s1) (place k po (workers s1)) (seen s1)).
Proof.
  intros (Hw & Ht & news & Hs & H0) Hn Hp. exists po, news. cbn. rewrite Hw. split_and!; try done. intros id'. rewrite H0.
  assert (hold id' po = 0) as ->; [|lia]. unfold hold, holds. destruct po as [p'|]; [|done]. cbn in *. by rewrite Hp.
Qed.

Lemma sent_goes id k p p' s s1 : beside s s1 → named_point id p' → unsent p' = None → moves id k p s (go_to k p' s1).
Proof. intros. apply (moves_sent id k p (Some p')); try done. by intros ? [= <-]. Qed.

Lemma sent_next id k p t s s1 : beside s s1 → moves id k p s (next_round k t s1).
Proof.
  intros H. unfold next_round. destruct (rounds t) as [|n]; [by apply (moves_sent id k p None)|].
  apply sent_goes; [done| |done]. by intros ? ?.
Qed.

Lemma drop_world {A} (m : py (World (DB I)) mate_error A) w : (drop m w).2 = (m w).2.
Proof. unfold drop, py_bind. by destruct (m w) as [[a|e] w']. Qed.

Lemma store_call_op o w o' w' (m : py (World (DB I)) mate_error o') : dict_op o → run_op uuid notice_text o = drop m →
  (m w).2 = w' → store_call w w'.
Proof. intros Ho E <-. right. exists o. split; [done|]. by rewrite E, drop_world. Qed.

Lemma beside_refl s : beside s s.
Proof. split; [done|]. split; [by left|]. exists []. by rewrite app_nil_r. Qed.

Lemma beside_ask a s : (∀ id, is_send id a = false) → beside s (ask_for a s).
Proof. intros H. split; [done|]. split; [by left|]. exists [a]. split; [done|]. intros id. unfold sends. cbn. by rewrite H. Qed.

Lemma beside_call w s : store_call (tables s) w → beside s (set_tables w s).
Proof. intros H. split; [done|]. split; [done|]. exists []. by rewrite app_nil_r. Qed.

Lemma beside_replace job now s : beside s (replace namespace job now s).2.
Proof.
  unfold replace. destruct (replace_result_delivery_with_notice _ _ _ _ _) as [o w] eqn:E. apply beside_call.
  eapply (store_call_op (OpNotice namespace (job_id job) SHARING_NOTICE now)); [done|reflexivity|by rewrite E].
Qed.

Lemma beside_save job s : od_wf job → beside s (set_tables (save_result_delivery_job namespace job (tables s)).2 s).
Proof. intros H. apply beside_call. by eapply (store_call_op (OpSaveJob namespace job)). Qed.

Lemma sharing_notice_named job id : named job id → named (_notice_delivery_job job SHARING_NOTICE) id.
Proof. apply named_notice. Qed.

#[local] Hint Resolve beside_refl beside_replace sharing_notice_named named_with_mentions : moves.
#[local] Hint Extern 1 (beside _ (ask_for _ _)) => (by apply beside_ask) : moves.
#[local] Hint Extern 1 (named_point _ _) => (by intros ? [= <-]; auto with moves) : moves.

Lemma update_moves id k t job ack now s : named job id →
  moves id k (Update t job ack) s (update namespace has_guard has_handoff k t job ack now s).
Proof.
  intros Hj. unfold update. destruct (_classify_ack job ack) as [[o external] error].
  destruct (update_result_delivery _ _ _ _ _ _ _ _) as [r w] eqn:E.
  assert (beside s (set_tables w s)) as Hb.
  { apply beside_call. eapply (store_call_op (OpAck namespace (job_id job) o external error now (_file_key job ack)));
      [done|reflexivity|by rewrite E]. }
  destruct r as [row|e]; [|by apply (moves_sent id k _ None)].
  destruct (_ && _); [|by apply sent_next]. apply sent_goes; destruct has_guard; auto with moves.
Qed.

Lemma worker_moves id k a now p s :
  workers s !! k = Some p → (∀ t, p ≠ Claim t) → named_point id p →
  moves id k p s (worker_step namespace channels has_guard has_roster has_handoff k a now s).
Proof.
  intros Hk Hc Hp. unfold worker_step. rewrite Hk.
  destruct p as [t|t job|t job|t job|t job|t job|t job|t job|t job|t job ack|t job ext|t job|t job ext];
    [by destruct (Hc t)|..]; specialize (Hp job eq_refl); clear Hc; auto using update_moves.
  - destruct (allows a); [|by eapply unsent_goes; auto with moves].
    destruct (after_check_to id k t job (ask_for (AskedGuard k job true) s) Hp) as (p' & -> & Hp').
    eapply unsent_goes; auto with moves.
  - pose proof (beside_replace job now s) as Hb. destruct (replace _ _ _ _) as [[u|e] s1]; [|by eapply unsent_leaves].
    destruct (after_check_to id k t _ s1 (sharing_notice_named _ _ Hp)) as (p' & -> & Hp'). by eapply unsent_goes.
  - destruct (after_mentions_to id k t (with_mentions (default [] (roster_of a))
      (match j_get job "text" with JStr text => text | _ => EmptyString end) job) s) as (p' & -> & Hp'); eauto with moves.
    eapply unsent_goes; auto with moves.
  - pose proof (beside_save job s (proj1 Hp)) as Hb.
    destruct (save_result_delivery_job _ _ _) as [[u|e] w]; [|by eapply unsent_leaves].
    destruct (after_save_to id k t job (set_tables w s) Hp) as (p' & -> & Hp'). by eapply unsent_goes.
  - destruct (allows a); eapply unsent_goes; auto with moves.
  - pose proof (beside_replace job now s) as Hb. destruct (replace _ _ _ _) as [[u|e] s1]; [|by eapply unsent_leaves].
    eapply unsent_goes; eauto with moves.
  - exists (Some (Wait t job)), [AskedSend k job (gateway_job job)]. split_and!; try done; [by left|by intros ? [= <-] ? [= <-]|].
    intros id'. rewrite (hold_unsent id id' (Send t job) job) by done. unfold sends. cbn.
    rewrite (named_of id) by done. by case_bool_decide.
  - apply sent_goes; auto with moves.
  - destruct (allows a); apply sent_goes; auto with moves.
  - apply sent_next. auto with moves.
  - apply sent_next. auto with moves.
Qed.

(** *** Events *)

Definition points_ok (m : gmap nat point) : Prop := ∀ k p, m !! k = Some p → ∃ id, named_point id p.

(** What an event may do: a claim grants one worker one send of the delivery claimed. *)
Definition progress (g : option string) s s' : Prop :=
  store_call (tables s) (tables s') ∧ points_ok (workers s') ∧
  (∃ news, seen s' = seen s ++ news ∧ ∀ id, held id (workers s') + sends id news ≤
     held id (workers s) + if bool_decide (g = Some id) then 1 else 0) ∧
  (∀ id, g = Some id → ∃ job, claimed_job namespace job (db (tables s)) (db (tables s')) ∧ named job id).

Lemma points_place id k po m : points_ok m → named_place id po → points_ok (place k po m).
Proof.
  intros Hm Hn k' p. destruct po as [p'|]; cbn [place].
  - intros [[-> <-]|[_ H]]%lookup_insert_Some; [exists id; by apply Hn|by eapply Hm].
  - intros [_ H]%lookup_delete_Some. by eapply Hm.
Qed.

Lemma moves_progress id k p s s' : workers s !! k = Some p → points_ok (workers s) → moves id k p s s' → progress None s s'.
Proof.
  intros Hk Hm (po & news & Hw & Hs & Ht & Hn & Hh). split; [done|]. rewrite Hw. split; [by eapply points_place|].
  split; [|done]. exists news. split; [done|]. intros id'. specialize (Hh id').
  rewrite held_place, (held_at id' k (Some p) (workers s)) by done. cbn. lia.
Qed.

(** A worker that is not about to send anything, or nobody, moves. *)
Lemma place_progress id k po s s1 : points_ok (workers s) → beside s s1 → named_place id po → (po ≫= unsent) = None →
  progress None s (mk_service (tables s1) (place k po (workers s1)) (seen s1)).
Proof.
  intros Hm (Hw & Ht & news & Hs & H0) Hn Hp. cbn. rewrite Hw. split; [done|]. cbn. split; [by eapply points_place|].
  split; [|done]. exists news. split; [done|]. intros id'. rewrite H0, held_place.
  assert (hold id' po = 0) as ->. { unfold hold, holds. destruct po as [p'|]; [|done]. cbn in *. by rewrite Hp. }
  rewrite (held_at id' k (workers s !! k) (workers s)) by done. cbn. lia.
Qed.

Lemma claim_progress k t now s : points_ok (workers s) → workers s !! k = Some (Claim t) →
  unique delivery_key (deliveries (db (tables s))) → named_rows (db (tables s)) →
  ∃ g, progress g s (claim namespace channels has_guard has_roster k t now s).
Proof.
  intros Hm Hk Hu Hn. unfold claim.
  destruct (claim_pending_result_deliveries _ _ _ _ _ _) as [r w] eqn:E.
  assert (beside s (set_tables w s)) as Hb.
  { apply beside_call. eapply (store_call_op (OpClaim namespace channels 1 (attempted t) now)); [done|reflexivity|by rewrite E]. }
  destruct r as [[|job jobs]|e]; try (exists None; by apply (place_progress EmptyString k None)).
  apply claim_one in E as Hc; [|done|done]. destruct Hc as (r & now' & Hr & Hns & Hp & Hj & Hr').
  assert (∃ p, (if has_guard then go_to k (Guard1 t job) else after_check has_guard has_roster k t job) (set_tables w s) =
    go_to k p (set_tables w s) ∧ named_point (delivery_id r) p) as (p & -> & Hpn).
  { pose proof (after_check_to (delivery_id r) k t job (set_tables w s) Hj). destruct has_guard; [by at_point|done]. }
  exists (Some (delivery_id r)). split; [apply Hb|]. cbn. split; [apply (points_place (delivery_id r) k (Some p)); [done|by intros ? [= <-]]|].
  split.
  - exists []. split; [by rewrite app_nil_r|]. intros id'. change (<[k:=p]> (workers s)) with (place k (Some p) (workers s)).
    rewrite held_place, (held_at id' k (Some (Claim t)) (workers s)) by done. cbn.
    assert (hold id' (Some p) ≤ if bool_decide (id' = delivery_id r) then 1 else 0) by (apply hold_named; by intros ? [= <-]).
    rewrite (bool_decide_ext (Some (delivery_id r) = Some id') (id' = delivery_id r)) by naive_solver. lia.
  - intros id [= <-]. exists job. split; [|done]. by exists r, now'.
Qed.

(** The jobs that other calls save are dictionaries. *)
Definition event_ok (e : service_event I) : Prop := match e with StoreCall o => dict_op o | _ => True end.

Definition tables_ok (d : DB I) : Prop := deliveries_ok [] d ∧ named_rows d.

Lemma store_call_ok w w' : store_call w w' → tables_ok (db w) → tables_ok (db w').
Proof.
  intros [->|(o & Ho & ->)] [Hd Hn]; [done|]. split; [by apply run_op_deliveries|by apply run_op_named].
Qed.

Lemma store_call_evolves w w' : store_call w w' → tables_ok (db w) → deliveries_ok (deliveries (db w)) (db w').
Proof.
  intros Hc [(Hu & Hr & _) _]. assert (deliveries_ok (deliveries (db w)) (db w)) by (split_and!; [done|done|apply evolves_refl]).
  destruct Hc as [->|(o & _ & ->)]; [done|by apply run_op_deliveries].
Qed.

Lemma run_progress o s : dict_op o → points_ok (workers s) →
  progress None s (set_tables (run_op uuid notice_text o (tables s)).2 s).
Proof.
  intros Ho Hm. split; [right; by exists o|]. split; [done|]. split; [|done].
  exists []. rewrite app_nil_r. split; [done|]. intros id. cbn. lia.
Qed.

Lemma refl_progress s : points_ok (workers s) → progress None s s.
Proof.
  intros Hm. split; [by left|]. split; [done|]. split; [|done]. exists []. rewrite app_nil_r. split; [done|].
  intros id. cbn. lia.
Qed.

Lemma is_claim p : (∃ t, p = Claim t) ∨ ∀ t, p ≠ Claim t.
Proof. destruct p; eauto. Qed.

Lemma happen_progress e s : event_ok e → points_ok (workers s) → tables_ok (db (tables s)) → ∃ g, progress g s (happen e s).
Proof.
  intros He Hm [Hd Hn]. destruct e as [k limit|k a now|k|ack now|o]; cbn [DeliveryService.happen].
  - exists None. unfold dispatch_pending. destruct (workers s !! k); [by apply refl_progress|].
    destruct limit as [|n]; [by apply (place_progress EmptyString k None s s); auto with moves|].
    apply (place_progress EmptyString k (Some (Claim _)) s s); auto with moves. by intros ? [= <-].
  - destruct (workers s !! k) as [p|] eqn:Hk.
    2: { exists None. unfold worker_step. rewrite Hk. by apply refl_progress. }
    destruct (Hm _ _ Hk) as [id Hp]. destruct (is_claim p) as [[t ->]|Hc].
    { unfold worker_step. rewrite Hk. apply claim_progress; try done. apply Hd. }
    exists None. eapply (moves_progress id k); [done|done|by apply worker_moves].
  - exists None. by apply (place_progress EmptyString k None s s); auto with moves.
  - exists None. destruct (apply_ack namespace ack now) as [[o|]|e] eqn:E; try by apply refl_progress.
    apply run_progress; [|done]. unfold apply_ack in E. cbn zeta in E. repeat case_match; simplify_eq; done.
  - exists None. by apply run_progress.
Qed.

(** *** The invariant *)

Record service_ok s : Prop := {
  so_tables : tables_ok (db (tables s));
  so_points : points_ok (workers s);
  so_sends : ∀ id, sends id (seen s) + held id (workers s) ≤ attempts namespace id (db (tables s))
}.

(** A claim counts an attempt. *)
Lemma claimed_attempts (d d' : DB I) job id : tables_ok d → unique delivery_key (deliveries d') →
  claimed_job namespace job d d' → named job id → attempts namespace id d' = Datatypes.S (attempts namespace id d).
Proof.
  intros [Hd _] Hu (r & now & Hr & Hns & Hp & Hj & Hr') Hid.
  assert (delivery_key r = (namespace, id)) as Hk.
  { unfold delivery_key. rewrite Hns. destruct Hj as [_ Hj], Hid as [_ Hid]. congruence. }
  rewrite (attempts_row _ _ _ r (proj1 Hd) Hr Hk), (attempts_row _ _ _ _ Hu Hr' Hk). cbn.
  pose proof (attempts_nonneg d r Hd Hr). lia.
Qed.

Lemma progress_ok g s s' : progress g s s' → service_ok s → service_ok s'.
Proof.
  intros (Ht & Hm & (news & Hs & Hh) & Hg) [Htab _ Hsends]. pose proof (store_call_ok _ _ Ht Htab) as Htab'.
  pose proof (store_call_evolves _ _ Ht Htab) as He. split; [done|done|]. intros id. rewrite Hs, sends_app.
  specialize (Hh id). specialize (Hsends id). pose proof (attempts_mono namespace id _ _ He).
  case_bool_decide as E; [|lia]. destruct (Hg id E) as (job & Hc & Hj).
  rewrite (claimed_attempts _ _ _ _ Htab (proj1 (proj1 Htab')) Hc Hj). lia.
Qed.

Lemma happens_ok es s : Forall event_ok es → service_ok s → service_ok (happens es s).
Proof.
  intros He. revert s. induction He as [|e es He _ IH]; intros s Hs; [done|]. apply IH.
  destruct (happen_progress e s) as [g Hg]; try apply Hs; [done|]. by eapply progress_ok.
Qed.

(** The service of a new store *)
Definition new_service : Service I := mk_service empty_store ∅ [].

Lemma new_service_ok : service_ok new_service.
Proof.
  split; cbn; [|by intros ? ?|intros id; unfold held; by rewrite map_filter_empty, map_size_empty].
  split; [split_and!; [constructor|constructor|apply evolves_refl]|]. by intros r ?%elem_of_nil.
Qed.

(** C20: however the polls are interleaved, with each other, with cancellations, with late
    acknowledgements and with every other call of the stores, a delivery is sent at most as
    often as it has been claimed: the sends and the workers about to send it together
    stay within its attempts. *)
Theorem sends_within_attempts es id : Forall event_ok es →
  sends id (seen (happens es new_service)) + held id (workers (happens es new_service)) ≤
  attempts namespace id (db (tables (happens es new_service))).
Proof. intros He. apply (happens_ok es _ He new_service_ok). Qed.

(** *** A delivery that is not sent again *)

Definition settled (r : DeliveryRow) : Prop := d_status r ∈ [unknown; delivered; failed].

Definition quiet (id : string) s : Prop :=
  service_ok s ∧ held id (workers s) = 0 ∧ ∃ r, r ∈ deliveries (db (tables s)) ∧ delivery_key r = (namespace, id) ∧ settled r.

Lemma quiet_progress id g s s' : progress g s s' → quiet id s → quiet id s' ∧ sends id (seen s') = sends id (seen s).
Proof.
  intros Hp (Hok & Hh & r & Hr & Hk & Hset). pose proof (progress_ok _ _ _ Hp Hok) as Hok'.
  destruct Hp as (Ht & Hm & (news & Hs & Hn) & Hg). specialize (Hn id). rewrite Hs, sends_app.
  assert (g ≠ Some id) as Hne.
  { intros E. destruct (Hg id E) as (job & (r' & now & Hr' & Hns & Hpend & Hj & _) & Hid).
    assert (delivery_key r' = (namespace, id)) as Hk'.
    { unfold delivery_key. rewrite Hns. destruct Hj as [_ Hj], Hid as [_ Hid]. congruence. }
    assert (r' = r) as -> by (eapply (unique_eq delivery_key); [apply Hok|done|done|congruence]).
    unfold settled in Hset. rewrite Hpend in Hset. set_solver. }
  rewrite bool_decide_false in Hn by done. split; [|lia]. split; [done|]. split; [lia|].
  destruct (evolves_row _ _ _ _ _ (proj2 (proj2 (store_call_evolves _ _ Ht (so_tables s Hok)))) Hr) as (r' & Hr' & Hst).
  exists r'. split; [done|]. split; [|by eapply delivery_steps_unknown].
  rewrite <- Hk. apply (changes_key delivery_step); [|done]. by intros ?? (?&?&?&?)%delivery_step_keys.
Qed.

Lemma quiet_happens id es s : Forall event_ok es → quiet id s → sends id (seen (happens es s)) = sends id (seen s).
Proof.
  intros He. revert s. induction He as [|e es He _ IH]; intros s Hq; [done|].
  destruct (happen_progress e s) as [g Hg]; try apply Hq; [done|].
  destruct (quiet_progress id g _ _ Hg Hq) as [Hq' <-]. by apply IH.
Qed.

(** C21: a delivery whose outcome is unknown, delivered or failed, and which no worker is about
    to send, is not sent again, whatever happens. *)
Theorem never_sent_again es es' r : Forall event_ok es → Forall event_ok es' →
  let s := happens es new_service in
  r ∈ deliveries (db (tables s)) → d_namespace_id r = namespace → d_status r ∈ [unknown; delivered; failed] →
  held (delivery_id r) (workers s) = 0 →
  sends (delivery_id r) (seen (happens es' s)) = sends (delivery_id r) (seen s).
Proof.
  intros He He' s Hr Hns Hst Hh. apply quiet_happens; [done|].
  split; [by apply happens_ok, new_service_ok|]. split; [done|]. exists r. unfold delivery_key. by rewrite Hns.
Qed.
End workers.

(** What the service makes of a send that timed out or raised never has its error code: it
    does not name the delivery. *)
Lemma timeout_is_mismatch id job a : named job id → a = TimedOut ∨ a = GatewayRaised →
  _classify_ack job (ack_of a) = ("unknown", None, Some "ACK_MISMATCH").
Proof.
  intros [_ Hj] Ha. assert (∃ rest, ack_of a = Some [("outcome", JStr "unknown"); ("error_code", rest)]) as (e & ->)
    by (destruct Ha as [-> | ->]; by eexists).
  unfold _classify_ack. assert (j_get job "delivery_id" = JStr id) as -> by (unfold j_get; by rewrite Hj). done.
Qed.
