(* ===== verification/DeliveryGuard.v ===== *)
(** * Sending results: the guard

    A service with a guard sends nothing that the guard has not just been asked about: what
    is sent is what it allowed, or the notice that has been stored in its place before. *)

From S2P Require Import Prelude OrderedDict PyJson Tables MateModels RequestStore DeliveryStore Recovery StoreInv DeliveryProps GroupMentions DeliveryService.

Create HintDb guarded.

Section guarded.
Context {I : Type} `{!RequestInputs I}.
Context (uuid : nat → string) (notice_text : string → string → option string → string).
Context (namespace : string) (channels : list string) (has_roster has_handoff : bool).
Implicit Types (s : Service I) (w : World (DB I)) (p : point).

#[local] Abbreviation happen := (happen uuid notice_text namespace channels true has_roster has_handoff).
#[local] Abbreviation happens := (happens uuid notice_text namespace channels true has_roster has_handoff).

Definition worker_of (a : asked) : nat :=
  match a with AskedGuard k _ _ | AskedSend k _ _ | AskedHandoff k _ => k end.
(** What a worker has asked last *)
Definition last_asked (k : nat) (l : list asked) : option asked :=
  last (select (λ a, bool_decide (worker_of a = k)) l).

Lemma last_asked_own a l : last_asked (worker_of a) (l ++ [a]) = Some a.
Proof.
  unfold last_asked. rewrite select_app.
  assert (select (λ b, bool_decide (worker_of b = worker_of a)) [a] = [a]) as -> by (cbn; by rewrite bool_decide_true).
  apply last_snoc.
Qed.

Lemma last_asked_other k l news : Forall (λ a, worker_of a ≠ k) news → last_asked k (l ++ news) = last_asked k l.
Proof.
  intros H. unfold last_asked. rewrite select_app.
  assert (select (λ a, bool_decide (worker_of a = k)) news = []) as ->; [|by rewrite app_nil_r].
  induction H as [|a news Ha _ IH]; [done|]. cbn. by rewrite bool_decide_false.
Qed.

(** What may be sent after the guard has answered *)
Definition cleared (job : jdict) (allowed : bool) : jdict :=
  if allowed then job else _notice_delivery_job job SHARING_NOTICE.

(** The notice is stored in place of what a job is of. *)
Definition replaced (job : jdict) (d : DB I) : Prop :=
  ∃ r, r ∈ deliveries d ∧ delivery_key r = (namespace, job_id job) ∧ notice r ≠ None.

(** What the guard has said of the job of a worker *)
Definition cleared_point s (k : nat) (p : point) : Prop :=
  match p with
  | Send _ job => ∃ job0 b, last_asked k (seen s) = Some (AskedGuard k job0 b) ∧ job = cleared job0 b ∧
      (b = false → replaced job0 (db (tables s)))
  | Replace2 _ job => last_asked k (seen s) = Some (AskedGuard k job false)
  | Handoff _ job _ => last_asked k (seen s) = Some (AskedGuard k job true)
  | _ => True
  end.

Definition ordinary (p : point) : Prop := match p with Send _ _ | Replace2 _ _ | Handoff _ _ _ => False | _ => True end.

Lemma ordinary_cleared s k p : ordinary p → cleared_point s k p.
Proof. by destruct p. Qed.

(** Worker [k] has asked something, the stores have been called. *)
Definition around (k : nat) s s1 : Prop :=
  workers s1 = workers s ∧ deliveries_ok (deliveries (db (tables s))) (db (tables s1)) ∧
  ∃ news, seen s1 = seen s ++ news ∧ Forall (λ a, worker_of a = k) news.

Definition guard_ok s : Prop :=
  deliveries_ok [] (db (tables s)) ∧ ∀ k p, workers s !! k = Some p → cleared_point s k p.

Lemma replaced_stays job d d' : deliveries_ok (deliveries d) d' → replaced job d → replaced job d'.
Proof.
  intros (_ & _ & He) (r & Hr & Hk & Hn). destruct (evolves_row _ _ _ _ _ He Hr) as (r' & Hr' & Hs). exists r'.
  split; [done|]. split.
  - rewrite <- Hk. apply (changes_key delivery_step); [|done]. by intros ?? (?&?&?&?)%delivery_step_keys.
  - clear -Hs Hn. induction Hs as [|r1 r2 r3 H _ IH]; [done|]. apply IH. by destruct H.
Qed.

Lemma cleared_around k k' s s1 p : around k s s1 → k' ≠ k → cleared_point s k' p → cleared_point s1 k' p.
Proof.
  intros (_ & Hd & news & Hs & Hnews) Hne. assert (last_asked k' (seen s1) = last_asked k' (seen s)) as E.
  { rewrite Hs. apply last_asked_other. eapply Forall_impl; [done|]. by intros a ->. }
  unfold cleared_point. rewrite E. destruct p; try done. intros (job0 & b & H1 & H2 & H3).
  exists job0, b. split_and!; try done. intros Hb. by eapply replaced_stays, H3.
Qed.

Lemma around_ok k s s1 : around k s s1 → deliveries_ok [] (db (tables s)) → deliveries_ok [] (db (tables s1)).
Proof.
  intros (_ & (Hu & Hr & He) & _) (_ & _ & He0). split_and!; [done|done|by eapply evolves_trans].
Qed.

Lemma goes_ok k p s s1 : around k s s1 → guard_ok s → cleared_point s1 k p → guard_ok (go_to k p s1).
Proof.
  intros Ha [Hd Hp] Hc. split; [exact (around_ok k s s1 Ha Hd)|]. intros k' p'. cbn. rewrite (proj1 Ha).
  intros [[-> <-]|[Hne H]]%lookup_insert_Some; [exact Hc|].
  assert (cleared_point s1 k' p') as Hc' by (eapply cleared_around; [done|congruence|by apply Hp]). exact Hc'.
Qed.

Lemma leaves_ok k s s1 : around k s s1 → guard_ok s → guard_ok (leave k s1).
Proof.
  intros Ha [Hd Hp]. split; [exact (around_ok k s s1 Ha Hd)|]. intros k' p'. cbn. rewrite (proj1 Ha).
  intros [Hne H]%lookup_delete_Some.
  assert (cleared_point s1 k' p') as Hc' by (eapply cleared_around; [done|congruence|by apply Hp]). exact Hc'.
Qed.

Lemma next_ok k t s s1 : around k s s1 → guard_ok s → guard_ok (next_round k t s1).
Proof. intros. unfold next_round. destruct (rounds t); [by eapply leaves_ok|by eapply goes_ok]. Qed.

(** *** Steps *)

Lemma around_refl k s : deliveries_ok [] (db (tables s)) → around k s s.
Proof.
  intros (Hu & Hr & _). split; [done|]. split; [split_and!; [done|done|apply evolves_refl]|].
  exists []. by rewrite app_nil_r.
Qed.

Lemma around_ask a s : deliveries_ok [] (db (tables s)) → around (worker_of a) s (ask_for a s).
Proof.
  intros Hd. destruct (around_refl (worker_of a) s Hd) as (Hw & Ht & _). split; [done|]. split; [done|].
  exists [a]. split; [done|]. by constructor.
Qed.

Lemma around_call k o s : deliveries_ok [] (db (tables s)) → around k s (set_tables (run_op uuid notice_text o (tables s)).2 s).
Proof.
  intros (Hu & Hr & _). split; [done|]. split; [|exists []; by rewrite app_nil_r].
  apply run_op_deliveries. split_and!; [done|done|apply evolves_refl].
Qed.

Lemma drop_tables {A} (m : py (World (DB I)) mate_error A) w : (drop m w).2 = (m w).2.
Proof. unfold drop, py_bind. by destruct (m w) as [[a|e] w']. Qed.

Lemma around_run {A} k o s (m : py (World (DB I)) mate_error A) r w : deliveries_ok [] (db (tables s)) →
  run_op uuid notice_text o = drop m → m (tables s) = (r, w) → around k s (set_tables w s).
Proof. intros Hd E Em. pose proof (around_call k o s Hd) as H. by rewrite E, drop_tables, Em in H. Qed.

Lemma around_replace k job now s : deliveries_ok [] (db (tables s)) → around k s (replace namespace job now s).2.
Proof.
  intros Hd. unfold replace. destruct (replace_result_delivery_with_notice _ _ _ _ _) as [o w] eqn:E.
  by eapply (around_run k (OpNotice namespace (job_id job) SHARING_NOTICE now)).
Qed.

(** A replacement that returns has stored the notice. *)
Lemma replace_replaced job now s s1 : deliveries_ok [] (db (tables s)) → replace namespace job now s = (Ret tt, s1) →
  replaced job (db (tables s1)).
Proof.
  intros Hd. unfold replace. destruct (replace_result_delivery_with_notice _ _ _ _ _) as [o w] eqn:E.
  intros [= -> <-]. unfold replace_result_delivery_with_notice in E. store_inv.
  match goal with H : _require_delivery _ _ _ = _ |- _ => apply require_delivery_inv in H as (Hrow & Hk & ->) end.
  unfold update_deliveries in E. store_inv. eexists. split.
  - apply elem_of_update_where. right. eexists. split; [done|]. split; [by apply bool_decide_eq_true|reflexivity].
  - by split.
Qed.

Lemma after_save_goes k t job s : ∃ p, after_save true k t job s = go_to k p s ∧ ordinary p.
Proof. by eexists. Qed.

Lemma after_mentions_goes k t job s : ∃ p, after_mentions true k t job s = go_to k p s ∧ ordinary p.
Proof. unfold after_mentions. destruct (welink job); by eexists. Qed.

Lemma after_check_goes k t job s : ∃ p, after_check true has_roster k t job s = go_to k p s ∧ ordinary p.
Proof. unfold after_check. cbn zeta. repeat (case_match; try (by apply after_mentions_goes)); by eexists. Qed.

Lemma ordinary_ok k s s1 s2 : (∃ p, s2 = go_to k p s1 ∧ ordinary p) → around k s s1 → guard_ok s → guard_ok s2.
Proof. intros (p & -> & Hp) Ha Hs. eapply goes_ok; [done|done|by apply ordinary_cleared]. Qed.

Lemma claim_ok k t now s : guard_ok s → guard_ok (claim namespace channels true has_roster k t now s).
Proof.
  intros Hs. unfold claim. destruct (claim_pending_result_deliveries _ _ _ _ _ _) as [r w] eqn:E.
  assert (around k s (set_tables w s)) as Ha
    by (eapply (around_run k (OpClaim namespace channels 1 (attempted t) now)); [apply Hs|reflexivity|done]).
  destruct r as [[|job jobs]|e]; [by eapply leaves_ok| |by eapply leaves_ok].
  eapply ordinary_ok; [by eexists|done|done].
Qed.

Lemma update_ok k t job ack now s : guard_ok s → guard_ok (update namespace true has_handoff k t job ack now s).
Proof.
  intros Hs. unfold update. destruct (_classify_ack job ack) as [[o external] error].
  destruct (update_result_delivery _ _ _ _ _ _ _ _) as [r w] eqn:E.
  assert (around k s (set_tables w s)) as Ha by (eapply (around_run k
    (OpAck namespace (job_id job) o external error now (_file_key job ack))); [apply Hs|reflexivity|done]).
  destruct r as [row|e]; [|by eapply leaves_ok]. destruct (_ && _); [|by eapply next_ok].
  eapply ordinary_ok; [by eexists|done|done].
Qed.

Lemma guard1_ok k t job a s : guard_ok s → workers s !! k = Some (Guard1 t job) →
  guard_ok (let s := ask_for (AskedGuard k job (allows a)) s in
    if allows a then after_check true has_roster k t job s else go_to k (Replace1 t job) s).
Proof.
  intros Hs _. cbn zeta. pose proof (around_ask (AskedGuard k job (allows a)) s (proj1 Hs)) as Ha. cbn in Ha.
  destruct (allows a); eapply ordinary_ok; try done; [apply after_check_goes|by eexists].
Qed.

Lemma replace1_ok k t job now s : guard_ok s →
  guard_ok (match replace namespace job now s with
            | (Ret _, s) => after_check true has_roster k t (_notice_delivery_job job SHARING_NOTICE) s
            | (Exc _, s) => leave k s
            end).
Proof.
  intros Hs. pose proof (around_replace k job now s (proj1 Hs)) as Ha. destruct (replace _ _ _ _) as [[u|e] s1];
    [|by eapply leaves_ok]. eapply ordinary_ok; [apply after_check_goes|done|done].
Qed.

Lemma replace2_ok k t job now s : guard_ok s → workers s !! k = Some (Replace2 t job) →
  guard_ok (match replace namespace job now s with
            | (Ret _, s) => go_to k (Send t (_notice_delivery_job job SHARING_NOTICE)) s
            | (Exc _, s) => leave k s
            end).
Proof.
  intros Hs Hk. pose proof (around_replace k job now s (proj1 Hs)) as Ha.
  destruct (replace _ _ _ _) as [[[]|e] s1] eqn:E; [|by eapply leaves_ok].
  eapply goes_ok; [done|done|]. apply (proj2 Hs) in Hk. exists job, false. split_and!; [|done|intros _].
  - unfold replace in E. destruct (replace_result_delivery_with_notice _ _ _ _ _). by injection E as _ <-.
  - eapply replace_replaced; [apply Hs|done].
Qed.

Lemma worker_step_ok k a now s : guard_ok s → guard_ok (worker_step namespace channels true has_roster has_handoff k a now s).
Proof.
  intros Hs. unfold worker_step. destruct (workers s !! k) as [p|] eqn:Hk; [|done].
  pose proof (proj1 Hs) as Hd. pose proof (around_refl k s Hd) as Hrefl.
  pose proof (λ job, around_ask (AskedGuard k job (allows a)) s Hd) as Hask. cbn in Hask.
  destruct p as [t|t job|t job|t job|t job|t job|t job|t job|t job|t job ack|t job ext|t job|t job ext];
    auto using claim_ok, update_ok, replace1_ok, replace2_ok.
  - by apply guard1_ok.
  - eapply ordinary_ok; [apply after_mentions_goes|done|done].
  - destruct (save_result_delivery_job _ _ _) as [r w] eqn:E.
    assert (around k s (set_tables w s)) by by eapply (around_run k (OpSaveJob namespace job)).
    destruct r; [eapply ordinary_ok; [apply after_save_goes|done|done]|by eapply leaves_ok].
  - destruct (allows a) eqn:Ea; (eapply goes_ok; [done|done|]); [|apply (last_asked_own (AskedGuard k job false))].
    exists job, true. split; [apply (last_asked_own (AskedGuard k job true))|done].
  - eapply goes_ok; [by apply (around_ask (AskedSend k job (gateway_job job)))|done|done].
  - eapply goes_ok; done.
  - destruct (allows a) eqn:Ea; (eapply goes_ok; [done|done|]); [|done]. apply (last_asked_own (AskedGuard k job true)).
  - eapply next_ok; [by apply around_replace|done].
  - eapply next_ok; [by apply (around_ask (AskedHandoff k job))|done].
Qed.

(** *** What is asked *)

Definition asks (k : nat) (a : answers) (p : point) : list asked :=
  match p with
  | Guard1 _ job | Guard2 _ job | Guard3 _ job _ => [AskedGuard k job (allows a)]
  | Send _ job => [AskedSend k job (gateway_job job)]
  | Handoff _ job _ => [AskedHandoff k job]
  | _ => []
  end.

Lemma seen_goes s1 s2 k : (∃ p, s2 = go_to k p s1 ∧ ordinary p) → seen s2 = seen s1.
Proof. by intros (p & -> & _). Qed.

Lemma seen_next k t s : seen (next_round k t s) = seen s.
Proof. unfold next_round. by destruct (rounds t). Qed.

Lemma seen_replace job now s : seen (replace namespace job now s).2 = seen s.
Proof. unfold replace. by destruct (replace_result_delivery_with_notice _ _ _ _ _). Qed.

Lemma seen_step k a now s p : workers s !! k = Some p →
  seen (worker_step namespace channels true has_roster has_handoff k a now s) = seen s ++ asks k a p.
Proof.
  intros Hk. unfold worker_step. rewrite Hk.
  destruct p as [t|t job|t job|t job|t job|t job|t job|t job|t job|t job ack|t job ext|t job|t job ext]; cbn [asks];
    rewrite ?app_nil_r, ?seen_next, ?seen_replace; try done.
  - unfold claim. by destruct (claim_pending_result_deliveries _ _ _ _ _ _) as [[[|job jobs]|e] w].
  - destruct (allows a); [|done]. by rewrite (seen_goes _ _ k (after_check_goes k t job _)).
  - rewrite <- (seen_replace job now s). destruct (replace _ _ _ _) as [[u|e] s1]; [|done].
    by rewrite (seen_goes _ _ k (after_check_goes k t _ s1)).
  - by rewrite (seen_goes _ _ k (after_mentions_goes k t _ s)).
  - by destruct (save_result_delivery_job _ _ _) as [[u|e] w].
  - by destruct (allows a).
  - rewrite <- (seen_replace job now s). by destruct (replace _ _ _ _) as [[u|e] s1].
  - unfold update. destruct (_classify_ack job ack) as [[o external] error].
    destruct (update_result_delivery _ _ _ _ _ _ _ _) as [[row|e] w]; [|done]. destruct (_ && _); [done|by rewrite seen_next].
  - by destruct (allows a).
Qed.

Lemma store_ok o s : guard_ok s → guard_ok (set_tables (run_op uuid notice_text o (tables s)).2 s).
Proof.
  intros [Hd Hp]. split; [exact (around_ok 0 s _ (around_call 0 o s Hd) Hd)|]. intros k p Hk.
  apply (cleared_around (Datatypes.S k) k s); [by apply around_call|lia|by apply Hp].
Qed.

Lemma happen_guard_ok e s : guard_ok s → guard_ok (happen e s).
Proof.
  intros Hs. destruct e as [k limit|k a now|k|ack now|o]; cbn [DeliveryService.happen].
  - unfold dispatch_pending. destruct (workers s !! k); [done|]. eapply next_ok; [by apply around_refl, Hs|done].
  - by apply worker_step_ok.
  - eapply leaves_ok; [by apply around_refl, Hs|done].
  - destruct (apply_ack namespace ack now) as [[o|]|e]; try done. by apply store_ok.
  - by apply store_ok.
Qed.

Lemma happens_guard_ok es s : guard_ok s → guard_ok (happens es s).
Proof. revert s. induction es as [|e es IH]; intros s Hs; [done|]. by apply IH, happen_guard_ok. Qed.

Lemma empty_guard_ok : guard_ok (mk_service empty_store ∅ []).
Proof. split; [split_and!; [constructor|constructor|apply evolves_refl]|done]. Qed.

(** C22: a service with a guard sends a job only when what its worker asked last was the guard: the
    job is the one that the guard allowed, or the notice in place of one that it
    refused, which is then already stored for the delivery; the Gateway gets it without the
    names of the agent and the session.  A colleague is handed a job only when the guard
    has just allowed it.  This holds however the polls, their failures and the
    other calls of the stores are interleaved. *)
Theorem sends_are_guarded es e a :
  let s := happens es (mk_service empty_store ∅ []) in
  seen (happen e s) = seen s ++ [a] →
  match a with
  | AskedSend k job sent => sent = gateway_job job ∧ ∃ asked_for allowed,
      last_asked k (seen s) = Some (AskedGuard k asked_for allowed) ∧ job = cleared asked_for allowed ∧
      (allowed = false → replaced asked_for (db (tables s)))
  | AskedHandoff k job => last_asked k (seen s) = Some (AskedGuard k job true)
  | AskedGuard _ _ _ => True
  end.
Proof.
  intros s Hs. assert (Hok : guard_ok s) by apply happens_guard_ok, empty_guard_ok. revert Hs Hok. generalize s. clear s es.
  intros s Hs [_ Hp]. assert (Hno : seen s ≠ seen s ++ [a]).
  { intros E. apply (f_equal length) in E. rewrite length_app in E. cbn in E. lia. }
  destruct e as [k limit|k an now|k|ack now|o]; cbn [DeliveryService.happen] in Hs; try done.
  - unfold dispatch_pending in Hs. destruct (workers s !! k); [done|]. by rewrite seen_next in Hs.
  - destruct (workers s !! k) as [p|] eqn:Hk; [|by unfold worker_step in Hs; rewrite Hk in Hs].
    rewrite (seen_step _ _ _ _ _ Hk) in Hs. apply app_inv_head in Hs. apply Hp in Hk.
    destruct p; simplify_eq/=; try done.
  - by destruct (apply_ack namespace ack now) as [[o|]|e].
Qed.
End guarded.
