(* ===== verification/DeliveryRun.v ===== *)
(** * Sending results: a run

    The theorems of [DeliveryServiceProps], [DeliveryGuard] and [GroupMentions] at concrete
    inputs: the result of [StoreRun]'s request is polled, checked and sent. *)

From S2P Require Import Prelude OrderedDict PyJson Tables MateModels RequestStore DeliveryStore Recovery StoreInv DeliveryJobs StoreRun GroupMentions DeliveryService DeliveryServiceProps DeliveryGuard.

(** What the outside answers *)
Definition receipt : jdict :=
  [("delivery_id", JStr "del_aaaa"); ("stage", JStr "send"); ("outcome", JStr "delivered");
   ("external_message_id", JStr "om_1")].
Definition yes : answers := {| allows := true; roster_of := None; gateway := Acked (Some receipt) |}.
Definition no : answers := {| allows := false; roster_of := None; gateway := Acked (Some receipt) |}.

(** A poll that the guard lets send *)
Definition polled : list (service_event string) :=
  map StoreCall answered ++ [Dispatch 0 2; Continue 0 yes 6; Continue 0 yes 7; Continue 0 yes 8].
Definition delivered_run : list (service_event string) :=
  polled ++ [Continue 0 yes 9; Continue 0 yes 10; Continue 0 yes 11; Continue 0 yes 12].
(** A poll whose guard refuses after it has allowed *)
Definition refused_run : list (service_event string) :=
  map StoreCall answered ++ [Dispatch 0 2; Continue 0 yes 6; Continue 0 yes 7; Continue 0 no 8; Continue 0 no 9].
(** Another poll *)
Definition second_poll : list (service_event string) :=
  [Dispatch 1 3; Continue 1 yes 13; Continue 1 yes 14; Continue 1 yes 15].

Abbreviation run es := (happens ticks plain_notice "ns" ["feishu"] true false false es new_service) (only parsing).

Definition delivered_row : DeliveryRow :=
  set_delivery delivered 1 (Some "om_1") None None 11 asked_delivery.

Lemma delivered_rows : deliveries (db (tables (run delivered_run))) = [delivered_row].
Proof. by vm_compute. Qed.

Lemma sends_within_attempts_witness :
  sends "del_aaaa" (seen (run delivered_run)) = 1 ∧
  sends "del_aaaa" (seen (run delivered_run)) + held "del_aaaa" (workers (run delivered_run)) ≤
    attempts "ns" "del_aaaa" (db (tables (run delivered_run))).
Proof.
  split; [by vm_compute|].
  apply (sends_within_attempts ticks plain_notice "ns" ["feishu"] true false false delivered_run "del_aaaa").
  by repeat constructor.
Defined.

Lemma never_sent_again_witness :
  sends "del_aaaa" (seen (happens ticks plain_notice "ns" ["feishu"] true false false second_poll (run delivered_run))) =
  sends "del_aaaa" (seen (run delivered_run)).
Proof.
  apply (never_sent_again ticks plain_notice "ns" ["feishu"] true false false delivered_run second_poll delivered_row).
  - by repeat constructor.
  - by repeat constructor.
  - rewrite delivered_rows. by left.
  - done.
  - by apply (bool_decide_unpack _).
  - by vm_compute.
Defined.

Lemma sends_are_guarded_witness : ∃ k job sent asked_for allowed,
  seen (happen ticks plain_notice "ns" ["feishu"] true false false (Continue 0 yes 10) (run refused_run)) =
    seen (run refused_run) ++ [AskedSend k job sent] ∧
  job = cleared asked_for allowed ∧ (allowed = false → replaced "ns" asked_for (db (tables (run refused_run)))).
Proof.
  set (s := run refused_run).
  destruct (default None ((λ p, match p with Send _ job => Some job | _ => None end) <$> workers s !! 0)) as [job|] eqn:E;
    [|by vm_compute in E].
  assert (Hs : seen (happen ticks plain_notice "ns" ["feishu"] true false false (Continue 0 yes 10) s) =
    seen s ++ [AskedSend 0 job (gateway_job job)]).
  { unfold happen, worker_step. destruct (workers s !! 0) as [[]|]; try done. cbn in E. by injection E as ->. }
  destruct (sends_are_guarded ticks plain_notice "ns" ["feishu"] false false refused_run (Continue 0 yes 10)
    (AskedSend 0 job (gateway_job job)) Hs) as (_ & job0 & b & _ & Hjob & Hr).
  exists 0, job, (gateway_job job), job0, b. by split_and!.
Defined.

Lemma mentions_selected_witness :
  let '(cleaned, targets) := resolve_group_mentions "to [[agent:bob]] and [[agent:ann]]" two "zoe" in
  (targets = [] ∨ ∃ m, targets = [m] ∧ m ∈ _unique_members two ∧ m_agent_id m ≠ "zoe") ∧
  (py_contains OPEN "to [[agent:bob]] and [[agent:ann]]" = false → cleaned = "to [[agent:bob]] and [[agent:ann]]" ∧ targets = []).
Proof.
  destruct (resolve_group_mentions "to [[agent:bob]] and [[agent:ann]]" two "zoe") as [cleaned targets] eqn:E.
  exact (mentions_selected _ _ _ _ _ E).
Defined.
