(* ===== verification/MateScheduler.v ===== *)
(** * The scheduler of JiuwenMate's Requests

    Source: [server/jiuwenmate/session_scheduler.py].

    [RequestQueue] is what the scheduler calls of [ExecutionRepository]
    ([StoreQueue] is the instance).  The scheduler's lock is fair: [queue] has the
    tasks that wait for it in the order they asked, [holding] where the task that has it
    is.  Each call of the repository or of an approval check runs in a thread, so that
    other tasks run before it returns: a section under the lock is one [holder] after
    another.  What the checks answer, and how and when the driver returns, is left open.
    [EExternal] is whatever the rest of the server does with the store.

    Not modelled: cancellation of a caller, and [handle.abort] beyond the reason it keeps
    ([execution_driver.py] passes it to the agent core). *)

From S2P Require Import Prelude OrderedDict PyJson Tables MateModels RequestStore.

Section interface.
Context {I : Type} `{!RequestInputs I}.

(** The arguments of [accept_request] *)
Record AcceptArgs := {
  a_session : SessionRecord; a_snapshot : ConfigSnapshot; a_source : string; a_access : AccessSnapshot;
  a_input : I; a_received : datetime; a_route : option RequestRouteSnapshot;
}.

(** What the scheduler calls *)
Class RequestQueue (S : Type) := {
  q_session_requests : string → string → S → list (RequestState I);
  q_pending_requests : string → S → list (RequestState I);
  q_get_request : string → string → py S mate_error (RequestState I);
  q_accept_request : AcceptArgs → py S mate_error (RequestState I * bool);
  q_start_execution : string → string → Z → py S mate_error ExecutionRecord;
  q_reopen : string → string → Z → option string → py S mate_error bool;
  q_finish_request : string → string → string → Z → py S mate_error (RequestState I);
  q_record_failure : string → string → string → string → option string → Z → py S mate_error unit;
}.

(** The queued Requests of a state are among [l], or of [agent]. *)
Definition queued_from {S} (has : S → RequestState I → Prop) (s s' : S) (extra : RequestState I → Prop) : Prop :=
  ∀ r, has s' r → status r = queued → has s r ∨ extra r.

(** The dispatched Requests of a state were so before. *)
Definition dispatched_from {S} (has : S → RequestState I → Prop) (s s' : S) : Prop :=
  ∀ r, has s' r → status r = dispatched → has s r.

(** What it relies on: [q_has] are the rows there are.  Only [start_execution] dispatches. *)
Class RequestQueueLaws (S : Type) `{!RequestQueue S} := {
  q_valid : S → Prop;
  q_has : S → RequestState I → Prop;
  q_pending_all s ns r : r ∈ q_pending_requests ns s ↔ q_has s r ∧ namespace_id (record r) = ns ∧ status r ≠ ended;
  q_session_all s ns sid r : r ∈ q_session_requests ns sid s ↔ q_has s r ∧ queue_key r = (ns, sid);
  q_keyed s r r' : q_valid s → q_has s r → q_has s r' → request_key r = request_key r' → r = r';
  q_get_law ns rid s : q_valid s → q_valid (q_get_request ns rid s).2 ∧
    queued_from q_has s (q_get_request ns rid s).2 (λ _, False);
  q_accept_law a s : q_valid s → q_valid (q_accept_request a s).2 ∧
    queued_from q_has s (q_accept_request a s).2 (λ r, namespace_id (record r) = sn_namespace_id (a_session a) ∧
                                                 agent_id (record r) = sn_agent_id (a_session a));
  q_start_law ns rid now s : q_valid s → q_valid (q_start_execution ns rid now s).2 ∧
    queued_from q_has s (q_start_execution ns rid now s).2 (λ _, False);
  q_reopen_law ns rid now e s : q_valid s → q_valid (q_reopen ns rid now e s).2 ∧
    queued_from q_has s (q_reopen ns rid now e s).2 (λ r, request_key r = (ns, rid) ∧ ∃ r0, q_has s r0 ∧ record r0 = record r);
  q_finish_law ns rid o now s : q_valid s → q_valid (q_finish_request ns rid o now s).2 ∧
    queued_from q_has s (q_finish_request ns rid o now s).2 (λ _, False) ∧
    (∀ st, (q_finish_request ns rid o now s).1 = Ret st →
       ∀ r, q_has (q_finish_request ns rid o now s).2 r → status r = queued → request_key r ≠ (ns, rid));
  q_failure_law ns rid xid reason detail now s : q_valid s → q_valid (q_record_failure ns rid xid reason detail now s).2 ∧
    queued_from q_has s (q_record_failure ns rid xid reason detail now s).2 (λ _, False);
  q_reopen_dispatched ns rid now e s : dispatched_from q_has s (q_reopen ns rid now e s).2;
  q_finish_dispatched ns rid o now s : dispatched_from q_has s (q_finish_request ns rid o now s).2;
  q_failure_dispatched ns rid xid reason detail now s :
    dispatched_from q_has s (q_record_failure ns rid xid reason detail now s).2;
}.

End interface.
Arguments AcceptArgs I : clear implicits.
Arguments RequestQueue I S : clear implicits.
Arguments RequestQueueLaws I S {_}.

(** ** Limits *)

Record SchedulerLimits := { max_running : Z; max_running_per_agent : Z; max_queued_per_session : Z }.

Definition new_limits (running per_agent queued_ : Z) : outcome mate_error SchedulerLimits :=
  if Z.leb running 0 || Z.leb per_agent 0 || Z.leb queued_ 0 then Exc PyValueError
  else Ret {| max_running := running; max_running_per_agent := per_agent; max_queued_per_session := queued_ |}.

Definition default_limits : SchedulerLimits :=
  {| max_running := 4; max_running_per_agent := 2; max_queued_per_session := 100 |}.

Definition SCHEDULER_CLOSED : mate_error := PersistentAgentError "SCHEDULER_CLOSED".
Definition AGENT_DELETING : mate_error := PersistentAgentError "AGENT_DELETING".
Definition QUEUE_FULL : mate_error := PersistentAgentError "QUEUE_FULL".
Definition CONTINUATION_NOT_READY : mate_error := PersistentAgentError "CONTINUATION_NOT_READY".

Section scheduler.
Context {I : Type} `{!RequestInputs I} {S : Type} `{!RequestQueue I S}.
(** The limits, and whether there are [has_pending_approval] and [is_ready_approval] *)
Context (limits : SchedulerLimits) (asks_approval asks_ready : bool).

Abbreviation SessionKey := (string * string)%type (only parsing).

(** ** State *)

(** Where [_execute] is: in the driver; the driver has raised; it has returned; the outcome has
    been saved, or not *)
Inductive run_point := Driving | Raised | Returned (outcome : string) | Saved.

Record Run := mk_run { run_state : RequestState I; run_execution : ExecutionRecord; reason : option string; point : run_point }.

(** The tasks that wait for the lock *)
Inductive waiter :=
| WAccept (a : AcceptArgs I)
| WPump
| WWake (key : SessionKey)
| WAbort (ns rid why : string)
| WEnd (ns agent : string).

(** Where the task that has the lock is: before a call of the repository or of a check, or, in
    [HAccepted], [HDecide], [HStarted] and [HAborted], after it *)
Inductive holder :=
| HAcceptRead (a : AcceptArgs I)
| HAcceptStore (a : AcceptArgs I)
| HAccepted (a : AcceptArgs I)
| HPump (todo : list SessionKey)
| HStates (key : SessionKey) (todo : list SessionKey)
| HDecide (key : SessionKey) (states : list (RequestState I)) (todo : list SessionKey)
| HApproval (key : SessionKey) (head : RequestState I) (todo : list SessionKey)
| HReady (key : SessionKey) (head : RequestState I) (todo : list SessionKey)
| HStart (key : SessionKey) (head : RequestState I) (todo : list SessionKey)
| HStarted (key : SessionKey) (head : RequestState I) (x : ExecutionRecord) (todo : list SessionKey)
| HAbortLook (ns rid why : string)
| HAbortFinish (state : RequestState I) (ns rid why : string)
| HAborted (state : RequestState I) (ns : string)
| HEndPending (ns agent : string)
| HEndCancel (ns agent : string) (todo : list (RequestState I)).

Record Sched := mk_sched {
  opened : bool;
  running : odict SessionKey Run;
  waiting : list SessionKey;
  deleting : gset (string * string);
  holding : option holder;
  queue : list waiter;
  store : S;
}.

Definition with_open b s := mk_sched b (running s) (waiting s) (deleting s) (holding s) (queue s) (store s).
Definition with_running r s := mk_sched (opened s) r (waiting s) (deleting s) (holding s) (queue s) (store s).
Definition with_waiting l s := mk_sched (opened s) (running s) l (deleting s) (holding s) (queue s) (store s).
Definition with_deleting d s := mk_sched (opened s) (running s) (waiting s) d (holding s) (queue s) (store s).
Definition with_holding h s := mk_sched (opened s) (running s) (waiting s) (deleting s) h (queue s) (store s).
Definition with_queue q s := mk_sched (opened s) (running s) (waiting s) (deleting s) (holding s) q (store s).
Definition with_store st s := mk_sched (opened s) (running s) (waiting s) (deleting s) (holding s) (queue s) st.

(** A scheduler as it is made *)
Definition sched_init (st : S) : Sched := mk_sched false [] [] ∅ None [] st.

(** [self._waiting[key] = None], [self._waiting.pop(key, None)] *)
Definition waiting_add (key : SessionKey) (s : Sched) : Sched :=
  if bool_decide (key ∈ waiting s) then s else with_waiting (waiting s ++ [key]) s.
Definition waiting_pop (key : SessionKey) (s : Sched) : Sched :=
  with_waiting (filter (λ k, k ≠ key) (waiting s)) s.

(** [await self._pump()]: the task asks for the lock. *)
Definition ask (w : waiter) (s : Sched) : Sched := with_queue (queue s ++ [w]) s.
Definition release (s : Sched) : Sched := with_holding None s.

Definition _require_open (ns agent : string) (s : Sched) : outcome mate_error unit :=
  if negb (opened s) then Exc SCHEDULER_CLOSED
  else if bool_decide ((ns, agent) ∈ deleting s) then Exc AGENT_DELETING
  else Ret tt.

(** [_run_of]: the key of the run of a Request *)
Definition _run_of (ns rid : string) (s : Sched) : option SessionKey :=
  fst <$> head (filter (λ kr, kr.1.1 = ns ∧ request_id (record (run_state kr.2)) = rid) (running s)).

Definition agent_runs (ns agent : string) (l : odict SessionKey Run) : odict SessionKey Run :=
  filter (λ kr, kr.1.1 = ns ∧ agent_id (record (run_state kr.2)) = agent) l.
Definition _agent_running (ns agent : string) (s : Sched) : Z := Z.of_nat (length (agent_runs ns agent (running s))).

(** [handle.abort(reason)] keeps the first reason. *)
Definition abort_run (why : string) (r : Run) : Run :=
  mk_run (run_state r) (run_execution r) (match reason r with Some x => Some x | None => Some why end) (point r).
Definition abort_runs (P : SessionKey * Run → bool) (why : string) (s : Sched) : Sched :=
  with_running ((λ kr, if P kr then (kr.1, abort_run why kr.2) else kr) <$> running s) s.

(** ** Calls *)

Definition start (s : Sched) : Sched := with_open true s.

Definition accept (a : AcceptArgs I) (s : Sched) : outcome mate_error unit * Sched :=
  match _require_open (sn_namespace_id (a_session a)) (sn_agent_id (a_session a)) s with
  | Ret _ => (Ret tt, ask (WAccept a) s)
  | Exc e => (Exc e, s)
  end.

Definition resume (state : RequestState I) (expected : option string) (now : Z) (s : Sched) : outcome mate_error unit * Sched :=
  let rec := record state in
  match _require_open (namespace_id rec) (agent_id rec) s with
  | Exc e => (Exc e, s)
  | Ret _ =>
      match q_reopen (namespace_id rec) (request_id rec) now expected (store s) with
      | (Ret true, st) => (Ret tt, with_store st s)
      | (Ret false, st) => (Exc CONTINUATION_NOT_READY, with_store st s)
      | (Exc e, st) => (Exc e, with_store st s)
      end
  end.

(** [_route_selected] *)
Definition _route_selected (state : RequestState I) (channels : option (list string)) (include_unrouted : bool) : bool :=
  match channels with
  | None => true
  | Some channels =>
      match route_snapshot (record state) with
      | None => include_unrouted
      | Some route => bool_decide (rt_channel route ∈ channels)
      end
  end.

(** [recover], once the pending Requests have been read; the Requests it returns are [left_behind]. *)
Definition recover_pending (channels : option (list string)) (include_unrouted : bool) (pending_ : list (RequestState I)) :=
  filter (λ r, _route_selected r channels include_unrouted = true) pending_.
Definition left_behind (s : Sched) (pending_ : list (RequestState I)) : list (RequestState I) :=
  filter (λ r, status r = dispatched ∧
               request_id (record r) ∉ map (λ kr, request_id (record (run_state kr.2))) (running s)) pending_.
Definition recover (ns : string) (pending_ : list (RequestState I)) (s : Sched) : Sched :=
  ask WPump (foldl (λ s r, if bool_decide (status r = queued) then waiting_add (ns, session_id (record r)) s else s) s pending_).

Definition wake (key : SessionKey) (s : Sched) : Sched := ask (WWake key) s.
Definition abort (ns rid why : string) (s : Sched) : Sched := ask (WAbort ns rid why) s.
Definition end_agent (ns agent : string) (s : Sched) : Sched :=
  ask (WEnd ns agent) (with_deleting ({[(ns, agent)]} ∪ deleting s) s).
Definition release_agent (ns agent : string) (s : Sched) : Sched := with_deleting (deleting s ∖ {[(ns, agent)]}) s.

(** [aclose] up to its wait; it returns once nothing is [running]. *)
Definition aclose (s : Sched) : Sched := abort_runs (λ _, true) "stop" (with_open false s).

(** ** Under the lock *)

(** The first waiting task gets the lock. *)
Definition take_lock (s : Sched) : Sched :=
  match holding s, queue s with
  | None, w :: q =>
      let s := with_queue q s in
      match w with
      | WAccept a => with_holding (Some (HAcceptRead a)) s
      | WPump => with_holding (Some (HPump (waiting s))) s
      | WWake key => ask WPump (waiting_add key s)
      | WAbort ns rid why => with_holding (Some (HAbortLook ns rid why)) s
      | WEnd ns agent => with_holding (Some (HEndPending ns agent)) s
      end
  | _, _ => s
  end.

(** [_pump], from the checks of the agent to the call of [start_execution] *)
Definition pump_checks (key : SessionKey) (head : RequestState I) (todo : list SessionKey) (s : Sched) : Sched :=
  let agent := agent_id (record head) in
  if bool_decide ((key.1, agent) ∈ deleting s) then with_holding (Some (HPump todo)) s
  else if Z.leb (max_running_per_agent limits) (_agent_running key.1 agent s) then with_holding (Some (HPump todo)) s
  else with_holding (Some (HStart key head todo)) s.

(** [accept], after [session_requests] has returned *)
Definition accept_read (a : AcceptArgs I) (s : Sched) : Sched :=
  let states := q_session_requests (sn_namespace_id (a_session a)) (sn_session_id (a_session a)) (store s) in
  if Z.leb (max_queued_per_session limits) (Z.of_nat (length (filter (λ r, status r = queued) states)))
  then release s
  else with_holding (Some (HAcceptStore a)) s.

Definition accept_store (a : AcceptArgs I) (s : Sched) : Sched :=
  match q_accept_request a (store s) with
  | (Ret _, st) => with_holding (Some (HAccepted a)) (with_store st s)
  | (Exc _, st) => release (with_store st s)
  end.
Definition accepted (a : AcceptArgs I) (s : Sched) : Sched :=
  ask WPump (release (waiting_add (sn_namespace_id (a_session a), sn_session_id (a_session a)) s)).

Definition pump_next (todo : list SessionKey) (s : Sched) : Sched :=
  match todo with
  | [] => release s
  | key :: todo =>
      if negb (opened s) || Z.leb (max_running limits) (Z.of_nat (length (running s))) then release s
      else if od_mem (running s) key then with_holding (Some (HPump todo)) s
      else with_holding (Some (HStates key todo)) s
  end.

Definition pump_states (key : SessionKey) (todo : list SessionKey) (s : Sched) : Sched :=
  with_holding (Some (HDecide key (q_session_requests key.1 key.2 (store s)) todo)) s.

Definition pump_decide (key : SessionKey) (states : list (RequestState I)) (todo : list SessionKey) (s : Sched) : Sched :=
  if existsb (λ r, bool_decide (status r = dispatched)) states then with_holding (Some (HPump todo)) (waiting_pop key s)
  else match filter (λ r, status r = queued) states with
       | [] => with_holding (Some (HPump todo)) (waiting_pop key s)
       | head :: _ => if asks_approval then with_holding (Some (HApproval key head todo)) s else pump_checks key head todo s
       end.

Definition pump_start (key : SessionKey) (head : RequestState I) (todo : list SessionKey) (now : Z) (s : Sched) : Sched :=
  match q_start_execution key.1 (request_id (record head)) now (store s) with
  | (Ret x, st) => with_holding (Some (HStarted key head x todo)) (with_store st s)
  | (Exc _, st) => release (with_store st s)
  end.

Definition abort_look (ns rid why : string) (s : Sched) : Sched :=
  match _run_of ns rid s with
  | Some key => abort_runs (λ kr, bool_decide (kr.1 = key)) why (release s)
  | None =>
      match q_get_request ns rid (store s) with
      | (Ret state, st) =>
          if bool_decide (status state = ended) then ask WPump (release (with_store st s))
          else with_holding (Some (HAbortFinish state ns rid why)) (with_store st s)
      | (Exc _, st) => release (with_store st s)
      end
  end.

Definition abort_finish (state : RequestState I) (ns rid why : string) (now : Z) (s : Sched) : Sched :=
  match q_finish_request ns rid (if why =s "cancel" then "cancelled" else "stopped") now (store s) with
  | (Ret _, st) => with_holding (Some (HAborted state ns)) (with_store st s)
  | (Exc _, st) => release (with_store st s)
  end.
Definition aborted (state : RequestState I) (ns : string) (s : Sched) : Sched :=
  ask WPump (release (waiting_add (ns, session_id (record state)) s)).

Definition end_pending (ns agent : string) (s : Sched) : Sched :=
  with_holding (Some (HEndCancel ns agent
    (filter (λ r, agent_id (record r) = agent ∧ status r = queued) (q_pending_requests ns (store s))))) s.

(** The next Request is cancelled; after the last one the lock is released and the runs of the
    agent are aborted.  [end_agent] returns when they have ended. *)
Definition end_cancel (ns agent : string) (todo : list (RequestState I)) (now : Z) (s : Sched) : Sched :=
  match todo with
  | [] => abort_runs (λ kr, bool_decide (kr.1.1 = ns ∧ agent_id (record (run_state kr.2)) = agent)) "cancel" (release s)
  | r :: todo =>
      match q_finish_request ns (request_id (record r)) "cancelled" now (store s) with
      | (Ret _, st) => with_holding (Some (HEndCancel ns agent todo)) (with_store st s)
      | (Exc _, st) => release (with_store st s)
      end
  end.

(** The next part of the section under the lock.  [answer] is what an approval check
    returns, or [None] when it raises. *)
Definition locked_step (answer : option bool) (now : Z) (s : Sched) : Sched :=
  match holding s with
  | None => s
  | Some (HAcceptRead a) => accept_read a s
  | Some (HAcceptStore a) => accept_store a s
  | Some (HAccepted a) => accepted a s
  | Some (HPump todo) => pump_next todo s
  | Some (HStates key todo) => pump_states key todo s
  | Some (HDecide key states todo) => pump_decide key states todo s
  | Some (HApproval key head todo) =>
      match answer with
      | None => release s
      | Some true => if asks_ready then with_holding (Some (HReady key head todo)) s else with_holding (Some (HPump todo)) s
      | Some false => pump_checks key head todo s
      end
  | Some (HReady key head todo) =>
      match answer with
      | None => release s
      | Some true => pump_checks key head todo s
      | Some false => with_holding (Some (HPump todo)) s
      end
  | Some (HStart key head todo) => pump_start key head todo now s
  | Some (HStarted key head x todo) =>
      with_holding (Some (HPump todo)) (with_running (od_set (running s) key (mk_run head x None Driving)) s)
  | Some (HAbortLook ns rid why) => abort_look ns rid why s
  | Some (HAbortFinish state ns rid why) => abort_finish state ns rid why now s
  | Some (HAborted state ns) => aborted state ns s
  | Some (HEndPending ns agent) => end_pending ns agent s
  | Some (HEndCancel ns agent todo) => end_cancel ns agent todo now s
  end.

(** ** [_execute] *)

Definition set_point (p : run_point) (r : Run) : Run := mk_run (run_state r) (run_execution r) (reason r) p.

(** The run of [key] goes on: [result] is what the driver returns, or [None] when it raises. *)
Definition execute_step (key : SessionKey) (result : option string) (detail : option string) (now : Z) (s : Sched) : Sched :=
  match od_get (running s) key with
  | None => s
  | Some r =>
      let rec := record (run_state r) in
      let at_point p := with_running (od_set (running s) key (set_point p r)) s in
      match point r with
      | Driving => at_point (match result with Some o => Returned o | None => Raised end)
      | Raised =>
          with_store (q_record_failure (namespace_id rec) (request_id rec) (execution_id (run_execution r)) "error" detail now
                        (store s)).2 (at_point (Returned "failed"))
      | Returned o => with_store (q_finish_request (namespace_id rec) (request_id rec) o now (store s)).2 (at_point Saved)
      | Saved => ask WPump (with_running (od_pop (running s) key) s)
      end
  end.

(** ** Interleavings *)

(** What can happen next.  [EExternal] is a change of the store by the rest of the server. *)
Inductive event :=
| EOpen
| EAccept (a : AcceptArgs I)
| EResume (state : RequestState I) (expected : option string) (now : Z)
| ERecover (ns : string) (pending_ : list (RequestState I))
| EWake (key : SessionKey)
| EAbort (ns rid why : string)
| EEndAgent (ns agent : string)
| EReleaseAgent (ns agent : string)
| EClose
| ETake
| ELocked (answer : option bool) (now : Z)
| EExecute (key : SessionKey) (result detail : option string) (now : Z)
| EExternal (st : S).

Definition perform (e : event) (s : Sched) : Sched :=
  match e with
  | EOpen => start s
  | EAccept a => (accept a s).2
  | EResume state expected now => (resume state expected now s).2
  | ERecover ns pending_ => recover ns pending_ s
  | EWake key => wake key s
  | EAbort ns rid why => abort ns rid why s
  | EEndAgent ns agent => end_agent ns agent s
  | EReleaseAgent ns agent => release_agent ns agent s
  | EClose => aclose s
  | ETake => take_lock s
  | ELocked answer now => locked_step answer now s
  | EExecute key result detail now => execute_step key result detail now s
  | EExternal st => with_store st s
  end.

Definition performs (es : list event) (s : Sched) : Sched := foldl (λ s e, perform e s) s es.

End scheduler.
Arguments Run I : clear implicits.
Arguments Sched I S : clear implicits.
Arguments holder I : clear implicits.
Arguments waiter I : clear implicits.
Arguments event I S : clear implicits.
