(* ===== verification/MateSchedulerInv.v ===== *)
(** * The room the scheduler of JiuwenMate has

    [capacity] is the invariant of [MateScheduler]: the runs fit the limits, and a pump
    that is about to start a Request has the room for it.  It is a property of what is
    registered as running, [shape], which only [HStarted] extends. *)

From S2P Require Import Prelude OrderedDict PyJson Tables MateModels RequestStore MateScheduler.

Section capacity.
Context {I : Type} `{!RequestInputs I} {S : Type} `{!RequestQueue I S}.
Context (limits : SchedulerLimits) (asks_approval asks_ready : bool).
Implicit Types (s : Sched I S) (key : string * string) (e : event I S).

#[local] Abbreviation perform := (perform limits asks_approval asks_ready) (only parsing).
#[local] Abbreviation locked_step := (locked_step limits asks_approval asks_ready) (only parsing).

(** The sessions that run, each with its Request *)
Definition shape s : list ((string * string) * RequestState I) := (λ kr, (kr.1, run_state kr.2)) <$> running s.

Definition of_agent (ns agent : string) (kr : (string * string) * RequestState I) : Prop :=
  kr.1.1 = ns ∧ agent_id (record kr.2) = agent.

#[local] Instance of_agent_dec ns agent kr : Decision (of_agent ns agent kr).
Proof. unfold of_agent. apply _. Defined.

Definition runs_of (ns agent : string) (l : list ((string * string) * RequestState I)) : Z :=
  Z.of_nat (length (filter (of_agent ns agent) l)).

Lemma shape_length s : length (shape s) = length (running s).
Proof. apply length_fmap. Qed.

Lemma shape_keys s : (shape s).*1 = od_keys (running s).
Proof. unfold shape, od_keys. rewrite <-list_fmap_compose. done. Qed.

Lemma shape_agent ns agent s : _agent_running ns agent s = runs_of ns agent (shape s).
Proof.
  unfold _agent_running, agent_runs, runs_of, shape. f_equal.
  induction (running s) as [|kr l IH]; [done|]. rewrite fmap_cons.
  destruct (decide (of_agent ns agent (kr.1, run_state kr.2))) as [H|H].
  - rewrite (filter_cons_True _ kr), (filter_cons_True (of_agent ns agent)) by done. csimpl. by rewrite IH.
  - rewrite (filter_cons_False _ kr), (filter_cons_False (of_agent ns agent)) by done. done.
Qed.

(** What registering another run needs *)
Definition room key s : Prop := (Z.of_nat (length (shape s)) < max_running limits)%Z ∧ key ∉ (shape s).*1.
Definition agent_room key (head : RequestState I) s : Prop :=
  (runs_of key.1 (agent_id (record head)) (shape s) < max_running_per_agent limits)%Z.

Definition holder_room (h : option (holder I)) s : Prop :=
  match h with
  | Some (HStates key _) | Some (HDecide key _ _) | Some (HApproval key _ _) | Some (HReady key _ _) => room key s
  | Some (HStart key head _) | Some (HStarted key head _ _) => room key s ∧ agent_room key head s
  | _ => True
  end.

Definition within (l : list ((string * string) * RequestState I)) : Prop :=
  NoDup l.*1 ∧ (Z.of_nat (length l) ≤ max_running limits)%Z ∧
  ∀ ns agent, (runs_of ns agent l ≤ max_running_per_agent limits)%Z.

Definition capacity s : Prop := within (shape s) ∧ holder_room (holding s) s.

(** ** Runs that end *)

Lemma runs_of_sublist ns agent l l' : l' `sublist_of` l → (runs_of ns agent l' ≤ runs_of ns agent l)%Z.
Proof.
  intros H. unfold runs_of. apply inj_le, sublist_length.
  induction H as [|x l1 l2 H IH|x l1 l2 H IH]; [constructor| |]; rewrite ?filter_cons.
  - case_decide; [by constructor|done].
  - case_decide; [by constructor|done].
Qed.

Lemma within_sublist l l' : l' `sublist_of` l → within l → within l'.
Proof.
  intros H (Hk & Hl & Ha). split_and!.
  - eapply sublist_NoDup; [apply Hk|]. by apply fmap_sublist.
  - apply sublist_length in H. lia.
  - intros ns agent. specialize (Ha ns agent). apply (runs_of_sublist ns agent) in H. lia.
Qed.

Lemma holder_room_sublist h s s' : shape s' `sublist_of` shape s → holder_room h s → holder_room h s'.
Proof.
  intros H.
  assert (Hroom : ∀ key, room key s → room key s').
  { intros key [Hl Hk]. split; [apply sublist_length in H; lia|].
    intros Hin. apply Hk. eapply elem_of_sublist; [done|]. by apply fmap_sublist. }
  assert (Hagent : ∀ key head, agent_room key head s → agent_room key head s').
  { intros key head. unfold agent_room. apply (runs_of_sublist key.1 (agent_id (record head))) in H. lia. }
  destruct h as [[]|]; simpl; try done; try apply Hroom; intros [? ?]; auto.
Qed.

(** A step that registers nothing keeps the room, and the holder's claim on it. *)
Lemma capacity_shrink s s' :
  shape s' `sublist_of` shape s → (holding s' = holding s ∨ holder_room (holding s') s) → capacity s → capacity s'.
Proof.
  intros H Hh [Hw Hr]. split; [by eapply within_sublist|].
  eapply holder_room_sublist; [done|]. destruct Hh as [->|Hh]; done.
Qed.

Lemma shape_abort_runs P why s : shape (abort_runs P why s) = shape s.
Proof.
  unfold abort_runs, shape. simpl. rewrite <-list_fmap_compose. apply list_fmap_ext.
  intros i [k r] _. simpl. by destruct (P (k, r)).
Qed.

Lemma shape_set_point key r p s : od_get (running s) key = Some r →
  shape (with_running (od_set (running s) key (set_point p r)) s) = shape s.
Proof.
  unfold shape. cbn [running with_running]. induction (running s) as [|[k r'] l IH]; [done|]. cbn [od_get od_set].
  case_decide; intros Hr; csimpl; [by simplify_eq|by rewrite IH].
Qed.

Lemma shape_pop key s : shape (with_running (od_pop (running s) key) s) `sublist_of` shape s.
Proof. unfold shape. simpl. apply fmap_sublist, sublist_filter. Qed.

Lemma shape_set_new key head x s : key ∉ (shape s).*1 →
  shape (with_running (od_set (running s) key (mk_run head x None Driving)) s) = shape s ++ [(key, head)].
Proof.
  rewrite shape_keys. intros H%od_get_None. unfold shape. simpl. rewrite od_set_new by done. by rewrite fmap_app.
Qed.

(** ** Steps *)

Lemma pump_checks_capacity key head todo s :
  within (shape s) → room key s → capacity (pump_checks limits key head todo s).
Proof.
  intros Hw Hr. unfold pump_checks. case_bool_decide; [by split|].
  rewrite shape_agent. destruct (Z.leb_spec (max_running_per_agent limits) (runs_of key.1 (agent_id (record head)) (shape s)));
    [by split|].
  split; [done|]. split; [done|]. unfold agent_room. done.
Qed.

Lemma pump_next_capacity todo s : within (shape s) → capacity (pump_next limits todo s).
Proof.
  intros Hw. unfold pump_next. destruct todo as [|key todo]; [by split|].
  destruct (negb (opened s)); [by split|]. cbn [orb].
  rewrite <-shape_length. destruct (Z.leb_spec (max_running limits) (Z.of_nat (length (shape s)))) as [|Hl]; [by split|].
  destruct (od_mem (running s) key) eqn:Hk; [by split|]. split; [done|]. split; [done|].
  intros Hin. change (shape (with_holding (Some (HStates key todo)) s)) with (shape s) in Hin.
  rewrite shape_keys in Hin. apply od_mem_spec in Hin. congruence.
Qed.

Lemma runs_of_app ns agent l kr :
  runs_of ns agent (l ++ [kr]) = (runs_of ns agent l + if decide (of_agent ns agent kr) then 1 else 0)%Z.
Proof.
  unfold runs_of. rewrite filter_app, length_app. destruct (decide (of_agent ns agent kr)).
  - rewrite (filter_cons_True _ kr) by done. simpl. lia.
  - rewrite (filter_cons_False _ kr) by done. simpl. lia.
Qed.

Lemma started_capacity key head x todo s : within (shape s) → room key s → agent_room key head s →
  capacity (with_holding (Some (HPump todo)) (with_running (od_set (running s) key (mk_run head x None Driving)) s)).
Proof.
  intros (Hk & Hl & Ha) [Hr Hkey] Hroom. split; [|done].
  match goal with |- within (shape ?s') => change s' with (with_holding (Some (HPump todo))
    (with_running (od_set (running s) key (mk_run head x None Driving)) s)) end.
  change (within (shape (with_running (od_set (running s) key (mk_run head x None Driving)) s))).
  rewrite shape_set_new by done. split_and!.
  - rewrite fmap_app. apply NoDup_app. split_and!; [done| |apply NoDup_singleton].
    intros k Hin ->%list_elem_of_singleton. done.
  - rewrite length_app. simpl. lia.
  - intros ns agent. rewrite runs_of_app. specialize (Ha ns agent). case_decide as Hof; [|lia].
    destruct Hof as [<- <-]. unfold agent_room in Hroom. cbn [fst snd]. lia.
Qed.

Lemma capacity_aborts P why s : within (shape s) → capacity (abort_runs P why (release s)).
Proof. intros Hw. split; [by rewrite shape_abort_runs|done]. Qed.

Lemma locked_capacity answer now s : capacity s → capacity (locked_step answer now s).
Proof.
  intros [Hw Hr]. unfold MateScheduler.locked_step.
  destruct (holding s) as [[a|a|a|todo|key todo|key states todo|key head todo|key head todo|key head todo|key head x todo
    |ns rid why|state ns rid why|state ns|ns agent|ns agent todo]|] eqn:Hh; cbn [holder_room] in Hr;
    [..|by split; [|rewrite Hh]];
    try (unfold accept_read, accept_store, accepted, pump_states, pump_start, abort_finish, aborted, end_pending, waiting_add;
         repeat case_match; by split).
  - by apply pump_next_capacity.
  - unfold pump_decide, waiting_pop. repeat case_match; try by split. by apply pump_checks_capacity.
  - destruct answer as [[]|]; [case_match; by split|by apply pump_checks_capacity|by split].
  - destruct answer as [[]|]; [by apply pump_checks_capacity|by split|by split].
  - destruct Hr. by apply started_capacity.
  - unfold abort_look. repeat case_match; unfold ask; try (by split). by apply capacity_aborts.
  - unfold end_cancel. repeat case_match; try (by split). by apply capacity_aborts.
Qed.

Lemma waiting_add_holding key s : holding (waiting_add key s) = holding s.
Proof. unfold waiting_add. by case_match. Qed.


Lemma take_capacity s : capacity s → capacity (take_lock s).
Proof.
  intros [Hw Hr]. unfold take_lock. destruct (holding s) eqn:Hh; [by split; [|rewrite Hh]|].
  destruct (queue s) as [|[]]; [by split; [|rewrite Hh]|..]; cbn zeta; unfold ask, waiting_add;
    repeat case_match; (split; [done|cbn; by rewrite ?Hh]).
Qed.

Lemma execute_shape key result detail now s : shape (execute_step key result detail now s) `sublist_of` shape s.
Proof.
  unfold execute_step. destruct (od_get (running s) key) as [run|] eqn:Hr; [|done]. cbn zeta.
  assert (∀ p, shape (with_running (od_set (running s) key (set_point p run)) s) `sublist_of` shape s) as Hp.
  { intros p. by rewrite shape_set_point. }
  destruct (point run); [apply Hp|apply (Hp (Returned "failed"))|apply (Hp Saved)|apply (shape_pop key)].
Qed.

Lemma execute_holding key result detail now s : holding (execute_step key result detail now s) = holding s.
Proof. unfold execute_step. by repeat case_match. Qed.

Lemma recover_same ns pending_ s :
  shape (recover ns pending_ s) = shape s ∧ holding (recover ns pending_ s) = holding s.
Proof.
  unfold recover. cbn [ask with_queue holding]. change (shape (ask WPump ?x)) with (shape x).
  revert s. induction pending_ as [|r l IH]; intros s; [done|]. cbn [foldl].
  destruct (IH (if bool_decide (status r = queued) then waiting_add (ns, session_id (record r)) s else s)) as [-> ->].
  unfold waiting_add. by repeat case_match.
Qed.

Lemma recover_rest ns pending_ s :
  store (recover ns pending_ s) = store s ∧ deleting (recover ns pending_ s) = deleting s ∧
  running (recover ns pending_ s) = running s.
Proof.
  unfold recover. cbn [ask with_queue store deleting running]. revert s. induction pending_ as [|r l IH]; intros s; [done|].
  cbn [foldl]. destruct (IH (if bool_decide (status r = queued) then waiting_add (ns, session_id (record r)) s else s)) as (-> & -> & ->).
  unfold waiting_add. by repeat case_match.
Qed.

Lemma perform_capacity e s : capacity s → capacity (perform e s).
Proof.
  intros Hc. destruct e; cbn [MateScheduler.perform].
  - done.
  - unfold accept. by case_match.
  - unfold resume. repeat case_match; done.
  - destruct (recover_same ns pending_ s) as [H1 H2]. apply (capacity_shrink s); [by rewrite H1|by left|done].
  - done.
  - done.
  - done.
  - done.
  - unfold aclose. apply (capacity_shrink s); [rewrite shape_abort_runs; done|by left|done].
  - by apply take_capacity.
  - by apply locked_capacity.
  - apply (capacity_shrink s); [apply execute_shape|left; apply execute_holding|done].
  - done.
Qed.
End capacity.
