(* ===== verification/MateSchedulerSessions.v ===== *)
(** * The sessions of the scheduler of JiuwenMate

    What its run of a session relies on: each Request the pump has chosen belongs to the session it looks
    at ([tidy]), and none of the session is dispatched when the pump asks for it ([calm]).
    A run stays registered until it has been saved ([run_kept]). *)

From S2P Require Import Prelude OrderedDict PyJson Tables MateModels RequestStore MateScheduler MateSchedulerInv.

Section sessions.
Context {I : Type} `{!RequestInputs I} {S : Type} `{!RequestQueue I S}.
Context (limits : SchedulerLimits) (asks_approval asks_ready : bool).
Implicit Types (s : Sched I S) (key : string * string) (e : event I S).

#[local] Abbreviation perform := (perform limits asks_approval asks_ready) (only parsing).
#[local] Abbreviation performs := (performs limits asks_approval asks_ready) (only parsing).
#[local] Abbreviation locked_step := (locked_step limits asks_approval asks_ready) (only parsing).

(** ** Runs stay *)

(** The run of [key] is there with its Request and its execution. *)
Definition run_there key (r : Run I) s : Prop :=
  ∃ r', od_get (running s) key = Some r' ∧ run_state r' = run_state r ∧ run_execution r' = run_execution r.

Lemma run_there_same key r s s' : running s' = running s → od_get (running s) key = Some r → run_there key r s'.
Proof. intros H Hr. exists r. by rewrite H. Qed.

Lemma run_there_aborts key r P why s s' : running s' = running s → od_get (running s) key = Some r →
  run_there key r (abort_runs P why s').
Proof.
  unfold run_there, abort_runs. cbn [running with_running]. intros ->. induction (running s) as [|[k x] l IH]; [done|].
  rewrite fmap_cons. cbn [od_get fst snd]. destruct (P (k, x)); cbn [od_get]; case_decide; try by apply IH.
  - intros [= ->]. by eexists.
  - intros [= ->]. by eexists.
Qed.

(** A run is gone only after it has been saved and its task has gone on. *)
Definition run_kept e key (r : Run I) s : Prop :=
  run_there key r (perform e s) ∨
  od_get (running (perform e s)) key = None ∧ point r = Saved ∧ ∃ result detail now, e = EExecute key result detail now.

Lemma locked_there answer now key r s : capacity limits s → od_get (running s) key = Some r →
  run_there key r (locked_step answer now s).
Proof.
  intros [_ Hroom] Hr. unfold MateScheduler.locked_step.
  destruct (holding s) as [[a|a|a|todo|k todo|k states todo|k head todo|k head todo|k head todo|k head x todo
    |ns rid why|state ns rid why|state ns|ns agent|ns agent todo]|]; cbn [holder_room] in Hroom;
    try (unfold accept_read, accept_store, accepted, pump_next, pump_states, pump_decide, pump_checks, pump_start, abort_look,
           abort_finish, aborted, end_pending, end_cancel, waiting_add; cbn zeta;
         repeat case_match; by first [by apply (run_there_aborts _ _ _ _ s)|by apply (run_there_same _ _ s)]).
  destruct Hroom as [[_ Hk] _]. exists r. split; [|done]. cbn [running with_holding with_running].
  rewrite od_get_set_ne; [done|]. intros ->. apply Hk. rewrite shape_keys. apply od_get_is_Some. by exists r.
Qed.

Lemma execute_kept key' result detail now key r s : od_get (running s) key = Some r →
  run_kept (EExecute key' result detail now) key r s.
Proof.
  intros Hr. unfold run_kept. cbn [MateScheduler.perform]. unfold execute_step.
  destruct (od_get (running s) key') as [r'|] eqn:Hr'; [|left; by apply (run_there_same _ _ s)]. cbn zeta.
  assert (∀ p s', running s' = od_set (running s) key' (set_point p r') → run_there key r s') as Hset.
  { intros p s' E. unfold run_there. rewrite E, od_get_set. case_decide; [subst; eexists; split; [done|]; by simplify_eq|by exists r]. }
  destruct (point r') eqn:Hp; [left; by eapply Hset..|].
  cbn [running ask with_queue with_running]. rewrite od_get_pop. case_decide as Hk.
  - subst key'. right. simplify_eq. split_and!; [done|done|by eauto].
  - left. exists r. cbn [running ask with_queue with_running]. by rewrite od_get_pop_ne.
Qed.

Lemma perform_kept e key r s : capacity limits s → od_get (running s) key = Some r → run_kept e key r s.
Proof.
  intros Hc Hr. destruct e; try (by apply execute_kept); left; cbn [MateScheduler.perform];
    try (by apply (run_there_same _ _ s)).
  - unfold accept. case_match; by apply (run_there_same _ _ s).
  - unfold resume. repeat case_match; by apply (run_there_same _ _ s).
  - apply (run_there_same _ _ s); [apply recover_rest|done].
  - by apply (run_there_aborts _ _ _ _ s).
  - unfold take_lock, ask, waiting_add. repeat case_match; by apply (run_there_same _ _ s).
  - by apply locked_there.
Qed.

(** ** Each run belongs to its session *)

Context `{!RequestQueueLaws I S}.

Definition tidy_holder (h : option (holder I)) : Prop :=
  match h with
  | Some (HDecide key states _) => ∀ r, r ∈ states → queue_key r = key
  | Some (HApproval key head _) | Some (HReady key head _) | Some (HStart key head _) | Some (HStarted key head _ _) =>
      queue_key head = key
  | _ => True
  end.

Definition tidy s : Prop := (∀ kr, kr ∈ shape s → queue_key kr.2 = kr.1) ∧ tidy_holder (holding s).

Lemma tidy_same s s' : shape s' `sublist_of` shape s → (holding s' = holding s ∨ tidy_holder (holding s')) → tidy s → tidy s'.
Proof.
  intros Hs Hh [Hr Ht]. split; [|by destruct Hh as [->|]]. intros kr Hkr. apply Hr. by eapply elem_of_sublist.
Qed.

Lemma pump_checks_tidy key head todo s : queue_key head = key → tidy_holder (holding (pump_checks limits key head todo s)).
Proof. intros H. unfold pump_checks. by repeat case_match. Qed.

Lemma locked_tidy_holder answer now s : tidy_holder (holding s) → tidy_holder (holding (locked_step answer now s)).
Proof.
  intros Hc. unfold MateScheduler.locked_step.
  destruct (holding s) as [[a|a|a|todo|key todo|key states todo|key head todo|key head todo|key head todo|key head x todo
    |ns rid why|state ns rid why|state ns|ns agent|ns agent todo]|] eqn:Hh; cbn [tidy_holder] in Hc;
    [..|by rewrite Hh];
    try (unfold accept_read, accept_store, accepted, pump_next, abort_look, abort_finish, aborted, end_pending, end_cancel,
           waiting_add, ask; cbn zeta; repeat case_match; done).
  - cbn. intros r Hr. apply q_session_all in Hr as [_ ->]. by destruct key.
  - unfold pump_decide. case_match; [done|]. destruct (filter _ states) as [|head l] eqn:Hf; [done|].
    assert (head ∈ filter (λ r, status r = queued) states) as [_ Hin]%list_elem_of_filter by (rewrite Hf; by left).
    case_match; [by apply Hc|by apply pump_checks_tidy, Hc].
  - destruct answer as [[]|]; [by case_match|by apply pump_checks_tidy|done].
  - destruct answer as [[]|]; [by apply pump_checks_tidy|done|done].
  - unfold pump_start. by case_match; case_match.
Qed.

(** Only [HStarted] registers a run. *)
Lemma locked_registers answer now s kr : kr ∈ shape (locked_step answer now s) →
  kr ∈ shape s ∨ ∃ x todo, holding s = Some (HStarted kr.1 kr.2 x todo).
Proof.
  unfold MateScheduler.locked_step.
  destruct (holding s) as [[a|a|a|todo|key todo|key states todo|key head todo|key head todo|key head todo|key head x todo
    |ns rid why|state ns rid why|state ns|ns agent|ns agent todo]|] eqn:Hh;
    try (unfold accept_read, accept_store, accepted, pump_next, pump_states, pump_decide, pump_checks, pump_start,
           abort_look, abort_finish, aborted, end_pending, end_cancel, waiting_add, ask; cbn zeta;
         repeat case_match; rewrite ?shape_abort_runs; by left).
  unfold shape. cbn [running with_holding with_running]. intros ([k run] & -> & [[= -> ->]|Hin]%od_elem_set)%list_elem_of_fmap.
  - right. by exists x, todo.
  - left. apply list_elem_of_fmap. by exists (k, run).
Qed.

Lemma locked_tidy answer now s : tidy s → tidy (locked_step answer now s).
Proof.
  intros [Hr Hh]. split; [|by apply locked_tidy_holder].
  intros kr [?|(x & todo & Hs)]%locked_registers; [by apply Hr|]. by rewrite Hs in Hh.
Qed.

Lemma take_tidy s : tidy s → tidy (take_lock s).
Proof.
  apply tidy_same; [by unfold take_lock, ask, waiting_add; repeat case_match|].
  unfold take_lock. destruct (holding s) eqn:Hh; [by left|]. destruct (queue s) as [|[]]; try by right.
  - by left.
  - right. cbn [ask with_queue holding]. rewrite waiting_add_holding. cbn [with_queue holding]. by rewrite Hh.
Qed.

Lemma perform_tidy e s : tidy s → tidy (perform e s).
Proof.
  destruct e; cbn [MateScheduler.perform]; try (by apply tidy_same; [|left]).
  - apply tidy_same; unfold accept; case_match; first [done|by left].
  - apply tidy_same; unfold resume; repeat case_match; first [done|by left].
  - destruct (recover_same ns pending_ s) as [H1 H2]. apply tidy_same; [by rewrite H1|by left].
  - apply tidy_same; [by unfold aclose; rewrite shape_abort_runs|by left].
  - apply take_tidy.
  - apply locked_tidy.
  - apply tidy_same; [apply execute_shape|left; apply execute_holding].
Qed.

(** ** Only a session of which nothing is dispatched *)

Definition none_dispatched key (st : S) : Prop := ∀ r, q_has st r → queue_key r = key → status r ≠ dispatched.

(** The rest of the server dispatches nothing. *)
Definition leaves_dispatch e s : Prop :=
  match e with EExternal st => dispatched_from q_has (store s) st | _ => True end.
Fixpoint dispatch_left (es : list (event I S)) s : Prop :=
  match es with [] => True | e :: es => leaves_dispatch e s ∧ dispatch_left es (perform e s) end.

Definition calm s : Prop :=
  match holding s with
  | Some (HDecide key states _) => (∀ r, r ∈ states → status r ≠ dispatched) → none_dispatched key (store s)
  | Some (HApproval key _ _) | Some (HReady key _ _) | Some (HStart key _ _) => none_dispatched key (store s)
  | _ => True
  end.

Lemma calm_same s s' : holding s' = holding s → dispatched_from q_has (store s) (store s') → calm s → calm s'.
Proof.
  intros Hh Hd. unfold calm. rewrite Hh.
  assert (∀ key, none_dispatched key (store s) → none_dispatched key (store s')) as Hn.
  { intros key H r Hr Hk Hs. by apply (H r); [apply Hd| |]. }
  destruct (holding s) as [[]|]; try done; auto.
Qed.

Lemma dispatched_from_refl (st : S) : dispatched_from q_has st st.
Proof. by intros r. Qed.

Lemma pump_checks_calm key head todo s : none_dispatched key (store s) → calm (pump_checks limits key head todo s).
Proof. intros H. unfold pump_checks. by repeat case_match. Qed.

Lemma locked_calm answer now s : calm s → calm (locked_step answer now s).
Proof.
  intros Hc. unfold MateScheduler.locked_step. unfold calm in Hc.
  destruct (holding s) as [[a|a|a|todo|key todo|key states todo|key head todo|key head todo|key head todo|key head x todo
    |ns rid why|state ns rid why|state ns|ns agent|ns agent todo]|] eqn:Hh;
    [..|by unfold calm; rewrite Hh];
    try (unfold accept_read, accept_store, accepted, pump_next, pump_start, abort_look, abort_finish, aborted, end_pending,
           end_cancel, waiting_add, ask; cbn zeta; repeat case_match; done).
  - intros H r Hr Hk. apply H. apply q_session_all. split; [done|]. rewrite Hk. by destruct key.
  - unfold pump_decide. destruct (existsb _ states) eqn:He; [done|].
    assert (none_dispatched key (store s)) as Hn.
    { apply Hc. intros r Hr Hs. apply not_true_iff_false in He. apply He, existsb_exists. exists r.
      split; [by apply list_elem_of_In|by apply bool_decide_eq_true]. }
    destruct (filter _ states) as [|head l]; [done|]. case_match; [done|by apply pump_checks_calm].
  - destruct answer as [[]|]; [by case_match|by apply pump_checks_calm|done].
  - destruct answer as [[]|]; [by apply pump_checks_calm|done|done].
Qed.

Lemma take_calm s : calm s → calm (take_lock s).
Proof.
  unfold take_lock. destruct (holding s) eqn:Hh; [done|]. intros _. destruct (queue s) as [|[]]; try done.
  - unfold calm. by rewrite Hh.
  - unfold calm. cbn [ask with_queue holding]. rewrite waiting_add_holding. cbn [with_queue holding]. by rewrite Hh.
Qed.

Lemma execute_calm key result detail now s : calm s → calm (execute_step key result detail now s).
Proof.
  apply calm_same.
  - apply execute_holding.
  - unfold execute_step. destruct (od_get (running s) key) as [r|]; [|apply dispatched_from_refl]. cbn zeta.
    destruct (point r); [apply dispatched_from_refl|apply q_failure_dispatched|apply q_finish_dispatched|apply dispatched_from_refl].
Qed.

Lemma perform_calm e s : leaves_dispatch e s → calm s → calm (perform e s).
Proof.
  intros He. destruct e; cbn [MateScheduler.perform]; try done.
  - apply calm_same; unfold accept; case_match; try done; apply dispatched_from_refl.
  - apply calm_same; [unfold resume; by repeat case_match|]. unfold resume. case_match; [|apply dispatched_from_refl].
    pose proof (q_reopen_dispatched (namespace_id (record state)) (request_id (record state)) now expected (store s)) as Hd.
    destruct (q_reopen _ _ _ _ _) as [[[]|] st]; exact Hd.
  - apply calm_same; [apply recover_same|]. destruct (recover_rest ns pending_ s) as (-> & _). apply dispatched_from_refl.
  - apply take_calm.
  - apply locked_calm.
  - apply execute_calm.
  - by apply calm_same.
Qed.

(** ** Runs of the scheduler *)

Lemma performs_tidy es s : tidy s → tidy (performs es s).
Proof. revert s. induction es as [|e es IH]; intros s Hs; [done|]. by apply IH, perform_tidy. Qed.

Lemma performs_calm es s : dispatch_left es s → calm s → calm (performs es s).
Proof. revert s. induction es as [|e es IH]; intros s Hd Hs; [done|]. destruct Hd as [He Hd]. by apply IH, perform_calm. Qed.

Lemma tidy_get s key r : tidy s → od_get (running s) key = Some r → queue_key (run_state r) = key.
Proof.
  intros [H _] Hr%od_get_elem. apply (H (key, run_state r)). unfold shape. apply list_elem_of_fmap. by exists (key, r).
Qed.
End sessions.
