(* ===== verification/MateSchedulerProps.v ===== *)
(** * The scheduler of JiuwenMate: capacity, and the lock

    [scheduler_capacity] says what runs at the same time, and [waiters_served] that each
    task that asks for the lock gets it: a section under the lock ends ([work] counts
    what is left of it), and the lock goes to the tasks in the order they asked. *)

From S2P Require Import Prelude OrderedDict PyJson Tables MateModels RequestStore MateScheduler MateSchedulerInv MateSchedulerSessions.

Section scheduler.
Context {I : Type} `{!RequestInputs I} {S : Type} `{!RequestQueue I S}.
Context (limits : SchedulerLimits) (asks_approval asks_ready : bool).
Implicit Types (s : Sched I S) (key : string * string) (e : event I S).

#[local] Abbreviation perform := (perform limits asks_approval asks_ready) (only parsing).
#[local] Abbreviation performs := (performs limits asks_approval asks_ready) (only parsing).
#[local] Abbreviation locked_step := (locked_step limits asks_approval asks_ready) (only parsing).




(** [aclose] does not take the lock: when a pump is between [start_execution] and the
    registration of the run and nothing else runs, [aclose] has nothing to wait for, and the run
    starts in the closed scheduler, without having been told to stop. *)
Lemma close_overtaken s key head x todo answer now :
  holding s = Some (HStarted key head x todo) → running s = [] →
  let c := aclose s in
  running c = [] ∧ opened c = false ∧
  running (locked_step answer now c) = [(key, mk_run head x None Driving)] ∧ opened (locked_step answer now c) = false.
Proof. intros Hh Hr. unfold MateScheduler.locked_step. cbn. rewrite Hh. cbn. by rewrite Hr. Qed.

(** ** The lock *)

(** How many steps a section has left; [HEndPending] does not know yet. *)
Definition work (h : holder I) : nat :=
  match h with
  | HAcceptRead _ | HAbortLook _ _ _ => 3
  | HAcceptStore _ | HAbortFinish _ _ _ _ => 2
  | HAccepted _ | HAborted _ _ => 1
  | HPump todo => 7 * length todo + 1
  | HStates _ todo => 7 * length todo + 7
  | HDecide _ _ todo => 7 * length todo + 6
  | HApproval _ _ todo => 7 * length todo + 5
  | HReady _ _ todo => 7 * length todo + 4
  | HStart _ _ todo => 7 * length todo + 3
  | HStarted _ _ _ todo => 7 * length todo + 2
  | HEndPending _ _ => 0
  | HEndCancel _ _ todo => length todo + 1
  end.
Definition counting (h : holder I) : Prop := match h with HEndPending _ _ => False | _ => True end.

Definition closer (n : nat) (h : option (holder I)) : Prop :=
  match h with None => True | Some h => counting h ∧ work h < n end.

Lemma pump_checks_closer key head todo n s : 7 * length todo + 3 < n → closer n (holding (pump_checks limits key head todo s)).
Proof. intros H. unfold pump_checks. repeat case_match; (split; [done|simpl; lia]). Qed.

Lemma locked_closer answer now s h : holding s = Some h → counting h → closer (work h) (holding (locked_step answer now s)).
Proof.
  intros Hh Hc. unfold MateScheduler.locked_step. rewrite Hh.
  destruct h; try done; cbn [work];
    unfold accept_read, accept_store, accepted, pump_next, pump_states, pump_decide, pump_start, abort_look, abort_finish,
      aborted, end_cancel, waiting_add; cbn zeta;
    repeat first [apply pump_checks_closer; simpl; lia|case_match]; cbn; try done; (split; [done|]; lia).
Qed.

(** Only the section itself, and [take_lock] once the lock is free, change who holds it. *)
Lemma perform_holding e s : (∀ a now, e ≠ ELocked a now) → e ≠ ETake → holding (perform e s) = holding s.
Proof.
  intros Hl Ht. destruct e; cbn [MateScheduler.perform]; try done.
  - unfold accept. by case_match.
  - unfold resume. by repeat case_match.
  - apply recover_same.
  - by destruct (Hl answer now).
  - unfold execute_step. by repeat case_match.
Qed.

(** Tasks are added at the end of the queue. *)
Lemma waiting_add_queue key s : queue (waiting_add key s) = queue s.
Proof. unfold waiting_add. by case_match. Qed.

Lemma recover_queue ns pending_ s : queue (recover ns pending_ s) = queue s ++ [WPump].
Proof.
  unfold recover. cbn [ask with_queue queue]. f_equal. revert s. induction pending_ as [|r l IH]; intros s; [done|].
  cbn [foldl]. rewrite IH. case_match; [apply waiting_add_queue|done].
Qed.

(** Only a caller of [accept] waits to accept. *)
Definition added (e : event I S) s (q : list (waiter I)) : Prop :=
  ∀ a, WAccept a ∈ q → e = EAccept a ∧ _require_open (sn_namespace_id (a_session a)) (sn_agent_id (a_session a)) s = Ret tt.

Lemma added_nil e s : added e s [].
Proof. intros a Ha. by apply elem_of_nil in Ha. Qed.

Lemma added_one e s w : (∀ a, w ≠ WAccept a) → added e s [w].
Proof. intros Hw a Ha. apply list_elem_of_singleton in Ha. by destruct (Hw a). Qed.

Lemma queue_same e s s' : queue s' = queue s → ∃ q, queue s' = queue s ++ q ∧ added e s q.
Proof. intros ->. exists []. split; [by rewrite app_nil_r|apply added_nil]. Qed.

Lemma queue_one e s s' w : (∀ a, w ≠ WAccept a) → queue s' = queue s ++ [w] → ∃ q, queue s' = queue s ++ q ∧ added e s q.
Proof. intros Hw ->. exists [w]. split; [done|by apply added_one]. Qed.

Lemma locked_queue e answer now s : ∃ q, queue (locked_step answer now s) = queue s ++ q ∧ added e s q.
Proof.
  unfold MateScheduler.locked_step, accept_read, accept_store, accepted, pump_next, pump_states, pump_decide, pump_checks,
    pump_start, abort_look, abort_finish, aborted, end_pending, end_cancel, waiting_add, ask. cbn zeta.
  repeat case_match; first [by apply queue_same|by apply (queue_one _ _ _ WPump)].
Qed.

Lemma perform_queue e s : e ≠ ETake → ∃ q, queue (perform e s) = queue s ++ q ∧ added e s q.
Proof.
  intros He. destruct e; cbn [MateScheduler.perform]; try (by apply queue_same); try (by eapply queue_one; [|reflexivity]); try apply locked_queue.
  - unfold accept. case_match eqn:Ho; [|by apply queue_same]. exists [WAccept a]. split; [done|].
    intros a' Ha'. apply list_elem_of_singleton in Ha' as [= ->]. split; [done|]. by destruct a0.
  - unfold resume. repeat case_match; by apply queue_same.
  - eapply queue_one; [|apply recover_queue]. done.
  - unfold execute_step. repeat case_match; first [by apply queue_same|by apply (queue_one _ _ _ WPump)].
Qed.

(** What has the lock keeps it unless its section goes on, and a free lock stays free until it
    is taken. *)
Lemma take_busy s h : holding s = Some h → take_lock s = s.
Proof. unfold take_lock. by intros ->. Qed.

Lemma locked_free answer now s : holding s = None → locked_step answer now s = s.
Proof. unfold MateScheduler.locked_step. by intros ->. Qed.

(** ** Runs without end *)

Section trace.
Context (ev : nat → event I S) (s0 : Sched I S).

Fixpoint trace (n : nat) : Sched I S :=
  match n with O => s0 | Datatypes.S n => perform (ev n) (trace n) end.

Definition often (P : event I S → Prop) : Prop := ∀ i, ∃ j, i ≤ j ∧ P (ev j).
Definition is_locked (e : event I S) : Prop := match e with ELocked _ _ => True | _ => False end.

(** The first index from [i] on where [P] holds *)
Lemma first_index (P : nat → Prop) `{!∀ n, Decision (P n)} i m : i ≤ m → P m →
  ∃ j, i ≤ j ∧ P j ∧ ∀ k, i ≤ k < j → ¬ P k.
Proof.
  intros Him Hm. remember (m - i) as d eqn:Hd. revert i Him Hd. induction d as [|d IH]; intros i Him Hd.
  - exists i. replace m with i in Hm by lia. split_and!; [done|done|lia].
  - destruct (decide (P i)); [exists i; split_and!; [done|done|lia]|].
    destruct (IH (Datatypes.S i)) as (j & Hj & HPj & Hk); [lia|lia|].
    exists j. split_and!; [lia|done|]. intros k Hk'. destruct (decide (k = i)) as [->|]; [done|apply Hk; lia].
Qed.

Lemma often_first (P : event I S → Prop) `{!∀ e, Decision (P e)} i : often P →
  ∃ j, i ≤ j ∧ P (ev j) ∧ ∀ k, i ≤ k < j → ¬ P (ev k).
Proof. intros HP. destruct (HP i) as (m & Him & Hm). by apply (first_index (λ n, P (ev n)) i m). Qed.

Lemma trace_keeps {A} (f : Sched I S → A) (P : event I S → Prop) i j :
  (∀ e s, ¬ P e → f s = f (trace i) → f (perform e s) = f s) →
  (∀ k, i ≤ k < j → ¬ P (ev k)) → i ≤ j → f (trace j) = f (trace i).
Proof.
  intros Hf Hk Hij. induction j as [|j IH].
  - by replace i with 0 by lia.
  - destruct (decide (i = Datatypes.S j)) as [->|]; [done|]. cbn [trace].
    assert (f (trace j) = f (trace i)) as Hj by (apply IH; [intros; apply Hk; lia|lia]).
    rewrite Hf; [done| |done]. apply Hk. lia.
Qed.

#[export] Instance is_locked_dec e : Decision (is_locked e).
Proof. destruct e; simpl; apply _. Defined.
Definition is_take (e : event I S) : Prop := match e with ETake => True | _ => False end.
#[export] Instance is_take_dec e : Decision (is_take e).
Proof. destruct e; simpl; apply _. Defined.

Lemma lock_kept h i j : holding (trace i) = Some h → (∀ k, i ≤ k < j → ¬ is_locked (ev k)) → i ≤ j →
  holding (trace j) = Some h.
Proof.
  intros Hh Hk Hij. rewrite <-Hh. apply (trace_keeps holding is_locked); [|done|done].
  intros e s He Hs. rewrite Hh in Hs. destruct (decide (is_take e)) as [Ht|Ht].
  - destruct e; try done. cbn [MateScheduler.perform]. by rewrite (take_busy s h).
  - apply perform_holding; [intros a now ->; by apply He|intros ->; by apply Ht].
Qed.

Lemma counting_ends n i h : often is_locked → holding (trace i) = Some h → counting h → work h < n →
  ∃ j, i ≤ j ∧ holding (trace j) = None.
Proof.
  intros Hoften. revert i h. induction n as [|n IH]; intros i h Hh Hc Hn; [lia|].
  destruct (often_first is_locked i Hoften) as (j & Hij & Hj & Hk).
  pose proof (lock_kept h i j Hh Hk Hij) as Hhj.
  destruct (ev j) as [| | | | | | | | | |answer now| |] eqn:He; try done.
  pose proof (locked_closer answer now (trace j) h Hhj Hc) as Hcl.
  assert (trace (Datatypes.S j) = locked_step answer now (trace j)) as HS by (cbn [trace]; by rewrite He).
  destruct (holding (locked_step answer now (trace j))) as [h'|] eqn:Hh'.
  - destruct Hcl as [Hc' Hw]. destruct (IH (Datatypes.S j) h') as (m & Hm & Hfree); [by rewrite HS|done|lia|].
    exists m. split; [lia|done].
  - exists (Datatypes.S j). split; [lia|by rewrite HS].
Qed.

Lemma lock_released i : often is_locked → ∃ j, i ≤ j ∧ holding (trace j) = None.
Proof.
  intros Hoften. destruct (holding (trace i)) as [h|] eqn:Hh; [|by exists i].
  destruct h as [| | | | | | | | | | | | |ns agent|]; try (eapply counting_ends; [done|done|done|apply Nat.lt_succ_diag_r]).
  destruct (often_first is_locked i Hoften) as (j & Hij & Hj & Hk).
  pose proof (lock_kept _ i j Hh Hk Hij) as Hhj.
  destruct (ev j) as [| | | | | | | | | |answer now| |] eqn:He; try done.
  assert (Hn : holding (trace (Datatypes.S j)) = holding (end_pending ns agent (trace j))).
  { cbn [trace]. rewrite He. cbn [MateScheduler.perform]. unfold MateScheduler.locked_step. by rewrite Hhj. }
  destruct (counting_ends _ _ _ Hoften Hn Logic.I (Nat.lt_succ_diag_r _)) as (m & Hm & Hfree).
  exists m. split; [lia|done].
Qed.

(** A free lock stays free until the next [take_lock]. *)
Lemma free_kept i j : holding (trace i) = None → (∀ k, i ≤ k < j → ¬ is_take (ev k)) → i ≤ j →
  holding (trace j) = None.
Proof.
  intros Hh Hk Hij. rewrite <-Hh. apply (trace_keeps holding is_take); [|done|done].
  intros e s He Hs. rewrite Hh in Hs. destruct e; try (by apply perform_holding); try done.
  cbn [MateScheduler.perform]. by rewrite locked_free.
Qed.

(** The lock is given away at the step [k]. *)
Definition gives (k : nat) : Prop := is_take (ev k) ∧ holding (trace k) = None.

#[local] Instance gives_dec k : Decision (gives k).
Proof. unfold gives. destruct (holding (trace k)); [right; by intros [? ?]|]. destruct (decide (is_take (ev k))); [left|right]; tauto. Defined.

Lemma queue_kept i j : (∀ k, i ≤ k < j → ¬ gives k) → i ≤ j → ∃ q, queue (trace j) = queue (trace i) ++ q.
Proof.
  intros Hk Hij. induction j as [|j IH].
  - replace i with 0 by lia. exists []. by rewrite app_nil_r.
  - destruct (decide (i = Datatypes.S j)) as [->|]; [exists []; by rewrite app_nil_r|].
    destruct IH as [q Hq]; [intros; apply Hk; lia|lia|]. cbn [trace].
    assert (∃ q', queue (perform (ev j) (trace j)) = queue (trace j) ++ q') as [q' Hq'].
    { destruct (decide (is_take (ev j))) as [Ht|Ht].
      2: { destruct (perform_queue (ev j) (trace j)) as (q' & ? & _); [intros He; rewrite He in Ht; by apply Ht|by exists q']. }
      destruct (holding (trace j)) as [h|] eqn:Hh; [|by destruct (Hk j); [lia|]].
      destruct (ev j); try done. cbn [MateScheduler.perform]. rewrite (take_busy _ h) by done. exists []. by rewrite app_nil_r. }
    exists (q ++ q'). by rewrite Hq', Hq, app_assoc.
Qed.

Lemma next_gives i : often is_locked → often is_take → ∃ j, i ≤ j ∧ gives j ∧ ∀ k, i ≤ k < j → ¬ gives k.
Proof.
  intros Hl Ht. destruct (lock_released i Hl) as (m & Him & Hm).
  destruct (often_first is_take m Ht) as (j & Hmj & Hj & Hk).
  apply (first_index gives i j); [lia|]. split; [done|]. by apply (free_kept m).
Qed.

Lemma take_queue s w q : holding s = None → queue s = w :: q → ∃ q', queue (take_lock s) = q ++ q'.
Proof.
  intros Hh Hq. unfold take_lock. rewrite Hh, Hq. destruct w; cbn zeta; try (exists []; by rewrite app_nil_r).
  exists [WPump]. cbn [ask with_queue queue]. by rewrite waiting_add_queue.
Qed.

(** How many tasks get the lock from [i] on and before [j] *)
Definition grants (i j : nat) : nat := length (filter gives (List.seq i (j - i))).

Lemma grants_none i j : (∀ k, i ≤ k < j → ¬ gives k) → grants i j = 0.
Proof.
  intros Hk. unfold grants. destruct (filter gives (List.seq i (j - i))) as [|k l] eqn:Hf; [done|].
  assert (Hin : k ∈ filter gives (List.seq i (j - i))) by (rewrite Hf; by left).
  apply list_elem_of_filter in Hin as [Hg Hin]. apply elem_of_seq in Hin. destruct (Hk k); [lia|done].
Qed.

Lemma grants_split i j m : i ≤ j → gives j → Datatypes.S j ≤ m → grants i m = grants i j + Datatypes.S (grants (Datatypes.S j) m).
Proof.
  intros Hij Hj Hjm. unfold grants. replace (m - i) with ((j - i) + Datatypes.S (m - Datatypes.S j)) by lia.
  rewrite seq_app, filter_app, length_app. f_equal. replace (i + (j - i)) with j by lia. cbn [List.seq].
  rewrite filter_cons_True by done. done.
Qed.

Lemma waiter_gets_lock q1 w q2 i : often is_locked → often is_take → queue (trace i) = q1 ++ w :: q2 →
  ∃ j q, i ≤ j ∧ gives j ∧ queue (trace j) = w :: q ∧ grants i j = length q1.
Proof.
  intros Hl Ht. revert i q2. induction q1 as [|w1 q1 IH]; intros i q2 Hq;
    destruct (next_gives i Hl Ht) as (j & Hij & Hg & Hk); destruct (queue_kept i j Hk Hij) as [q Hqj]; rewrite Hq in Hqj.
  - exists j, (q2 ++ q). split_and!; try done. by apply grants_none.
  - pose proof Hg as [Htj Hhj]. destruct (take_queue (trace j) w1 ((q1 ++ w :: q2) ++ q) Hhj Hqj) as [q' Hq'].
    destruct (IH (Datatypes.S j) ((q2 ++ q) ++ q')) as (m & qm & Hjm & Hm & Hqm & Hn).
    { cbn [trace]. destruct (ev j); try done. cbn [MateScheduler.perform]. rewrite Hq'. by rewrite <-!app_assoc. }
    exists m, qm. split_and!; [lia|done|done|]. rewrite (grants_split i j m), Hn, (grants_none i j) by (done || lia). done.
Qed.
End trace.

(** C35: in every run without end in which the section under the lock goes on and a free lock is
    taken, whatever else happens in between, each task that waits for the lock gets it, after
    the tasks that asked before it and no other. *)
Theorem waiters_served (ev : nat → event I S) s0 i q1 w q2 :
  often ev is_locked → often ev is_take → queue (trace ev s0 i) = q1 ++ w :: q2 →
  ∃ j q, i ≤ j ∧ gives ev s0 j ∧ queue (trace ev s0 j) = w :: q ∧ grants ev s0 i j = length q1.
Proof. apply waiter_gets_lock. Qed.

End scheduler.
