(* ===== verification/StoreQueue.v ===== *)
(** * The Request queue that the scheduler uses

    The instance of [MateScheduler]'s [RequestQueue] by the tables of [RequestStore], and
    its laws: what each call can leave queued or dispatched. *)

From S2P Require Import Prelude OrderedDict PyJson Tables MateModels RequestStore DeliveryStore Recovery StoreInv MateScheduler.

Section queue.
Context {I : Type} `{!RequestInputs I}.
Context (uuid : nat → string) (notice_text : string → string → option string → string).
Implicit Types (d : DB I) (w : World (DB I)) (r : RequestState I).

#[local] Instance store_queue : RequestQueue I (World (DB I)) := {
  q_session_requests ns sid w := session_requests ns sid (db w);
  q_pending_requests ns w := pending_requests ns (db w);
  q_get_request ns rid := get_request ns rid;
  q_accept_request a := accept_request uuid (a_session a) (a_snapshot a) (a_source a) (a_access a) (a_input a)
                          (a_received a) (a_route a);
  q_start_execution ns rid now := start_execution uuid ns rid now;
  q_reopen ns rid now expected := reopen_for_continuation ns rid now expected;
  q_finish_request ns rid o now := finish_request ns rid o now;
  q_record_failure ns rid xid reason detail now := record_execution_failure uuid notice_text ns rid xid reason detail now;
}.

(** The Requests come from those of [d0], and the queued ones are those of [d0], or [extra]. *)
Definition from_queue (extra : RequestState I → Prop) d0 d : Prop :=
  (∀ r, r ∈ requests d → ∃ r0, r0 ∈ requests d0 ∧ record r0 = record r) ∧
  (∀ r, r ∈ requests d → status r = queued → r ∈ requests d0 ∨ extra r).

Lemma from_queue_refl extra d : from_queue extra d d.
Proof. split; eauto. Qed.

Lemma from_queue_same extra d0 d d' : requests d' = requests d → from_queue extra d0 d → from_queue extra d0 d'.
Proof. unfold from_queue. by intros ->. Qed.

Lemma from_queue_update extra d0 d P s o now : from_queue extra d0 d →
  (∀ r, r ∈ requests d → P r = true → s = queued → extra (set_status s o now r)) →
  from_queue extra d0 (with_requests (update_where P (set_status s o now) (requests d)) d).
Proof.
  intros [Hr Hq] Hs. split; cbn [with_requests requests].
  - intros r [[H _]|(r0 & H & _ & ->)]%elem_of_update_where; [by apply Hr|]. destruct (Hr r0 H) as (r1 & ? & ?). by exists r1.
  - intros r [[H _]|(r0 & H & HP & ->)]%elem_of_update_where; [by apply Hq|]. intros Hst. right. by apply Hs.
Qed.

Lemma from_queue_keeps_update extra d0 P s o now : (s = queued → ∀ r, (∃ r0, r0 ∈ requests d0 ∧ record r0 = record r) →
  P r = true → extra (set_status s o now r)) → db_keeps (from_queue extra d0) (update_requests P (set_status s o now)).
Proof.
  intros Hs. apply db_keeps_with. intros d Hd. apply from_queue_update; [done|]. intros r Hr HP Hst.
  apply Hs; [done| |done]. by apply Hd.
Qed.

Lemma keeps_queued extra w w' : from_queue extra (db w) (db w') →
  queued_from (λ w r, r ∈ requests (db w)) w w' extra.
Proof. intros [_ H] r Hr Hs. by apply H. Qed.

Lemma start_from ns rid now w : from_queue (λ _, False) (db w) (db (start_execution uuid ns rid now w).2).
Proof.
  destruct (start_execution uuid ns rid now w) as [[x|e] w'] eqn:E; cbn [snd].
  - apply start_execution_inv in E as (row & t & t' & _ & _ & _ & _ & _ & _ & _ & _ & ->).
    split; cbn [with_requests requests].
    + intros r [[H _]|(r0 & H & _ & ->)]%elem_of_update_where; [by exists r|by exists r0].
    + intros r [[H _]|(r0 & H & _ & ->)]%elem_of_update_where; [by left|done].
  - apply (atomic_transaction _ w e w') in E. rewrite E. apply from_queue_refl.
Qed.

Lemma finish_from ns rid o now d0 : db_keeps (from_queue (λ _, False) d0) (finish_request ns rid o now).
Proof.
  apply db_keeps_guarded. intros _.
  assert (db_keeps (from_queue (λ _, False) d0) (update_requests (λ r, bool_decide (request_key r = (ns, rid)))
            (set_status ended (Some o) now))) by by apply from_queue_keeps_update.
  eauto 10 with db_keeps.
Qed.

Lemma reopen_from ns rid now e d0 :
  db_keeps (from_queue (λ r, request_key r = (ns, rid) ∧ ∃ r0, r0 ∈ requests d0 ∧ record r0 = record r) d0)
    (reopen_for_continuation ns rid now e).
Proof.
  unfold reopen_for_continuation.
  assert (db_keeps (from_queue (λ r, request_key r = (ns, rid) ∧ ∃ r0, r0 ∈ requests d0 ∧ record r0 = record r) d0)
    (update_requests (λ r, bool_decide (request_key r = (ns, rid) ∧ status r = ended)) (set_status queued None now))).
  { apply from_queue_keeps_update. intros _ r Hr HP. apply bool_decide_eq_true in HP as [HP _]. done. }
  eauto 12 with db_keeps.
Qed.

Lemma failure_from ns rid xid reason detail now w :
  from_queue (λ _, False) (db w) (db (record_execution_failure uuid notice_text ns rid xid reason detail now w).2).
Proof.
  destruct (record_execution_failure uuid notice_text ns rid xid reason detail now w) as [[u|e] w'] eqn:E; cbn [snd].
  - unfold record_execution_failure in E. store_inv.
    match goal with H : _enqueue_failure_notice _ _ _ _ _ _ _ _ = _ |- _ =>
      pose proof (db_keeps_ret_inv _ _ _ _ _ (off_queue_notice _ _ _ _ _ _ _ (db w)) H (same_queue_refl _)) as (_ & Er & _) end.
    apply from_queue_update; [|done]. eapply from_queue_same; [exact Er|]. apply from_queue_refl.
  - apply (atomic_transaction _ w e w') in E. rewrite E. apply from_queue_refl.
Qed.

(** None of them dispatches. *)
Definition from_dispatched d0 d : Prop := ∀ r, r ∈ requests d → status r = dispatched → r ∈ requests d0.

Lemma from_dispatched_same d0 d d' : requests d' = requests d → from_dispatched d0 d → from_dispatched d0 d'.
Proof. unfold from_dispatched. by intros ->. Qed.

Lemma from_dispatched_update d0 d P s o now : s ≠ dispatched → from_dispatched d0 d →
  from_dispatched d0 (with_requests (update_where P (set_status s o now) (requests d)) d).
Proof.
  intros Hs Hd r [[H _]|(r0 & _ & _ & ->)]%elem_of_update_where Hr; [by apply Hd|]. cbn in Hr. congruence.
Qed.

Lemma from_dispatched_keeps d0 P s o now : s ≠ dispatched →
  db_keeps (from_dispatched d0) (update_requests P (set_status s o now)).
Proof. intros Hs. apply db_keeps_with. intros d. by apply from_dispatched_update. Qed.

Lemma finish_dispatched ns rid o now d0 : db_keeps (from_dispatched d0) (finish_request ns rid o now).
Proof.
  apply db_keeps_guarded. intros _.
  assert (db_keeps (from_dispatched d0) (update_requests (λ r, bool_decide (request_key r = (ns, rid)))
            (set_status ended (Some o) now))) by by apply from_dispatched_keeps.
  eauto 10 with db_keeps.
Qed.

Lemma reopen_dispatched ns rid now e d0 : db_keeps (from_dispatched d0) (reopen_for_continuation ns rid now e).
Proof.
  unfold reopen_for_continuation.
  assert (db_keeps (from_dispatched d0)
    (update_requests (λ r, bool_decide (request_key r = (ns, rid) ∧ status r = ended)) (set_status queued None now)))
    by by apply from_dispatched_keeps.
  eauto 12 with db_keeps.
Qed.

Lemma failure_dispatched ns rid xid reason detail now w :
  from_dispatched (db w) (db (record_execution_failure uuid notice_text ns rid xid reason detail now w).2).
Proof.
  destruct (record_execution_failure uuid notice_text ns rid xid reason detail now w) as [[u|e] w'] eqn:E; cbn [snd].
  - unfold record_execution_failure in E. store_inv.
    match goal with H : _enqueue_failure_notice _ _ _ _ _ _ _ _ = _ |- _ =>
      pose proof (db_keeps_ret_inv _ _ _ _ _ (off_queue_notice _ _ _ _ _ _ _ (db w)) H (same_queue_refl _)) as (_ & Er & _) end.
    apply from_dispatched_update; [done|]. eapply from_dispatched_same; [exact Er|]. by intros r.
  - apply (atomic_transaction _ w e w') in E. rewrite E. by intros r.
Qed.

Lemma finish_ret ns rid o now w st w' : queue_ok (db w) → finish_request ns rid o now w = (Ret st, w') →
  ∀ r, r ∈ requests (db w') → status r = queued → request_key r ≠ (ns, rid).
Proof.
  intros Hd H. unfold finish_request in H. store_inv.
  match goal with H : request_key ?r = _, H' : ?r ∈ _ |- _ => rename r into row, H into Hkr, H' into Hrow end.
  intros r Hr Hs Hk.
  destruct (decide (status row = ended)) as [He|He]; [rewrite (bool_decide_true _ He) in H|rewrite (bool_decide_false _ He) in H];
    store_inv.
  - assert (r = row) as -> by (eapply (unique_eq request_key); eauto using qk_requests; congruence). congruence.
  - cbn [db] in Hr. apply elem_of_update_where in Hr as [[_ HP]|(r0 & _ & _ & ->)]; [|done].
    by rewrite bool_decide_true in HP.
Qed.

Lemma pending_all ns w r :
  r ∈ q_pending_requests ns w ↔ r ∈ requests (db w) ∧ namespace_id (record r) = ns ∧ status r ≠ ended.
Proof.
  unfold q_pending_requests, store_queue, pending_requests.
  rewrite order_by_text_perm, py_sorted_perm. unfold select. rewrite list_elem_of_filter, bool_decide_eq_true.
  destruct (status r); set_solver.
Qed.

Lemma session_all ns sid w r : r ∈ q_session_requests ns sid w ↔ r ∈ requests (db w) ∧ queue_key r = (ns, sid).
Proof.
  unfold q_session_requests, store_queue, session_requests.
  rewrite py_sorted_perm. unfold select. rewrite list_elem_of_filter, bool_decide_eq_true. tauto.
Qed.

Abbreviation has := (λ w r, r ∈ requests (db w)) (only parsing).

Lemma accept_queued a w : queue_ok (db w) →
  queued_from has w (q_accept_request a w).2 (λ r, namespace_id (record r) = sn_namespace_id (a_session a) ∧
                                               agent_id (record r) = sn_agent_id (a_session a)).
Proof.
  intros Hd. destruct (q_accept_request a w) as [[[st b]|e] w'] eqn:E; cbn [snd].
  - apply accept_request_inv in E. destruct b; [|destruct E as (_&_&_&E); intros r Hr _; left; cbn in Hr; by rewrite <-E].
    destruct E as (_ & s & t & _ & _ & _ & Hq & Hsrc & _ & Ht & E). intros r Hr Hs. cbn in Hr. rewrite E in Hr.
    apply insert_row_some in Ht as [-> _]. cbn in Hr. apply elem_of_app in Hr as [Hr|Hr]; [by left|right].
    apply list_elem_of_singleton in Hr as ->. injection Hq as -> _. by injection Hsrc as _ -> _.
  - assert (Ha : atomic (q_accept_request a)); [unfold q_accept_request, store_queue, accept_request; auto with atomic|].
    apply Ha in E. intros r Hr _. left. cbn in Hr. by rewrite <-E.
Qed.

#[local] Instance store_queue_laws : RequestQueueLaws I (World (DB I)).
Proof.
  refine {| q_valid w := queue_ok (db w); q_has := has; q_pending_all w ns := pending_all ns w;
    q_session_all w ns sid := session_all ns sid w |}.
  - intros w r r' Hd Hr Hr' Hk. eapply (unique_eq request_key); eauto using qk_requests.
  - intros ns rid w Hd. assert (E : db (q_get_request ns rid w).2 = db w) by exact (db_keeps_require (λ d, d = db w) ns rid w eq_refl).
    split; [by rewrite E|]. apply keeps_queued. rewrite E. apply from_queue_refl.
  - intros a w Hd. split; [by apply keeps_accept_request|by apply accept_queued].
  - intros ns rid now w Hd. split; [by apply keeps_start_execution|]. apply keeps_queued, start_from.
  - intros ns rid now e w Hd. split; [by apply keeps_reopen|]. apply keeps_queued. apply reopen_from, from_queue_refl.
  - intros ns rid o now w Hd. split_and!; [by apply keeps_finish_request| |].
    + apply keeps_queued, finish_from, from_queue_refl.
    + intros st E. eapply finish_ret; [done|]. rewrite <-E. apply surjective_pairing.
  - intros ns rid xid reason detail now w Hd. split; [by apply keeps_record_failure|]. apply keeps_queued, failure_from.
  - intros ns rid now e w. exact (reopen_dispatched ns rid now e (db w) w (λ r H _, H)).
  - intros ns rid o now w. exact (finish_dispatched ns rid o now (db w) w (λ r H _, H)).
  - intros ns rid xid reason detail now w. exact (failure_dispatched ns rid xid reason detail now w).
Defined.

End queue.
