(* ===== verification/MateEndAgent.v ===== *)
(** * Deleting a colleague of JiuwenMate

    [end_agent] of [MateScheduler]: once its section under the lock has cancelled the queued
    Requests, nothing of the agent is queued or started any more until [release_agent], so
    that waiting for the runs that are there is enough.  [opening] and [cancelling] are the
    invariants before and during the section, [final] the one after it. *)

From S2P Require Import Prelude OrderedDict PyJson Tables MateModels RequestStore MateScheduler MateSchedulerInv MateSchedulerProps.

Section agent.
Context {I : Type} `{!RequestInputs I} {S : Type} `{!RequestQueue I S} `{!RequestQueueLaws I S}.
Context (limits : SchedulerLimits) (asks_approval asks_ready : bool) (ns agent : string).
Implicit Types (s : Sched I S) (key : string * string) (e : event I S) (r : RequestState I) (h : option (holder I)).

#[local] Abbreviation perform := (perform limits asks_approval asks_ready) (only parsing).
#[local] Abbreviation locked_step := (locked_step limits asks_approval asks_ready) (only parsing).

Definition mine r : Prop := namespace_id (record r) = ns ∧ agent_id (record r) = agent.
Definition accepts_mine (a : AcceptArgs I) : Prop := sn_namespace_id (a_session a) = ns ∧ sn_agent_id (a_session a) = agent.

(** Nothing of the agent is queued. *)
Definition none_queued (st : S) : Prop := ∀ r, q_has st r → status r = queued → ¬ mine r.

(** What may happen while the agent is being deleted: no [release_agent], only Requests that
    exist are resumed, and the rest of the server queues none of the agent's. *)
Definition quiet e s : Prop :=
  match e with
  | EReleaseAgent ns' agent' => (ns', agent') ≠ (ns, agent)
  | EResume state _ _ => ∃ r, q_has (store s) r ∧ record r = record state
  | EExternal st => q_valid st ∧ queued_from q_has (store s) st (λ r, ¬ mine r)
  | _ => True
  end.

Fixpoint quiet_run (es : list (event I S)) s : Prop :=
  match es with [] => True | e :: es => quiet e s ∧ quiet_run es (perform e s) end.

(** The holder is about to queue a Request of the agent. *)
Definition accepting h : Prop :=
  match h with Some (HAcceptRead a) | Some (HAcceptStore a) => accepts_mine a | _ => False end.
(** The holder is a section of [end_agent]. *)
Definition in_end h : Prop :=
  match h with Some (HEndPending ns' agent') | Some (HEndCancel ns' agent' _) => (ns', agent') = (ns, agent) | _ => False end.
Definition no_accept (q : list (waiter I)) : Prop := ∀ a, WAccept a ∈ q → ¬ accepts_mine a.

Definition deletes s : Prop := (ns, agent) ∈ deleting s ∧ q_valid (store s).

(** ** The store *)

Lemma queued_from_refl extra st : queued_from q_has st st extra.
Proof. intros r. by left. Qed.

Lemma queued_from_weaken (st st' : S) (P Q : RequestState I → Prop) :
  (∀ r, P r → Q r) → queued_from q_has st st' P → queued_from q_has st st' Q.
Proof. intros HPQ H r Hr Hs. destruct (H r Hr Hs); auto. Qed.

Definition fine s (st : S) : Prop := q_valid st ∧ queued_from q_has (store s) st (λ r, accepting (holding s) ∨ ¬ mine r).

Lemma fine_same s st : q_valid (store s) → st = store s → fine s st.
Proof. intros Hv ->. split; [done|apply queued_from_refl]. Qed.

Lemma fine_none s st : q_valid st ∧ queued_from q_has (store s) st (λ _, False) → fine s st.
Proof. intros [Hv H]. split; [done|]. by eapply queued_from_weaken; [|exact H]. Qed.

Lemma locked_fine answer now s : q_valid (store s) → fine s (store (locked_step answer now s)).
Proof.
  intros Hv. unfold MateScheduler.locked_step.
  destruct (holding s) as [[a|a|a|todo|key todo|key states todo|key head todo|key head todo|key head todo|key head x todo
    |ns' rid why|state ns' rid why|state ns'|ns' agent'|ns' agent' todo]|] eqn:Hh;
    try (unfold accept_read, accepted, pump_next, pump_states, pump_decide, pump_checks, aborted, end_pending, waiting_add;
         cbn zeta; repeat case_match; by apply fine_same).
  - unfold accept_store. assert (fine s (q_accept_request a (store s)).2) as Hf.
    { destruct (q_accept_law a (store s) Hv) as [Hv' Hq]. split; [done|]. eapply queued_from_weaken; [|exact Hq].
      intros r [H1 H2]. rewrite Hh. cbn. unfold accepts_mine, mine. destruct (decide (sn_namespace_id (a_session a) = ns ∧ sn_agent_id (a_session a) = agent)); [by left|right]. by rewrite H1, H2. }
    by destruct (q_accept_request a (store s)) as [[?|?] ?].
  - unfold pump_start. pose proof (fine_none s _ (q_start_law key.1 (request_id (record head)) now (store s) Hv)) as Hf.
    by destruct (q_start_execution _ _ _ _) as [[?|?] ?].
  - unfold abort_look. case_match; [by apply fine_same|].
    pose proof (fine_none s _ (q_get_law ns' rid (store s) Hv)) as Hf.
    destruct (q_get_request _ _ _) as [[?|?] ?]; [case_match|]; done.
  - unfold abort_finish. destruct (q_finish_law ns' rid (if why =s "cancel" then "cancelled" else "stopped") now (store s) Hv)
      as (Hv' & Hq & _). pose proof (fine_none s _ (conj Hv' Hq)) as Hf. by destruct (q_finish_request _ _ _ _ _) as [[?|?] ?].
  - unfold end_cancel. destruct todo as [|r todo]; [by apply fine_same|].
    destruct (q_finish_law ns' (request_id (record r)) "cancelled" now (store s) Hv)
      as (Hv' & Hq & _). pose proof (fine_none s _ (conj Hv' Hq)) as Hf. by destruct (q_finish_request _ _ _ _ _) as [[?|?] ?].
Qed.

Lemma refused ns' agent' s : deletes s → _require_open ns' agent' s = Ret tt → (ns', agent') ≠ (ns, agent).
Proof.
  intros [Hd _] Ho [= -> ->]. unfold _require_open in Ho. destruct (negb (opened s)); [done|].
  by rewrite bool_decide_true in Ho.
Qed.

Lemma resume_fine state expected now s : deletes s → quiet (EResume state expected now) s →
  fine s (store (resume state expected now s).2).
Proof.
  intros Hdel (r1 & Hr1 & Hrec). pose proof Hdel as [_ Hv]. unfold resume.
  destruct (_require_open _ _ s) as [[]|x] eqn:Ho; [|by apply fine_same].
  apply refused in Ho; [|done].
  destruct (q_reopen_law (namespace_id (record state)) (request_id (record state)) now expected (store s) Hv) as [Hv' Hq].
  assert (fine s (q_reopen (namespace_id (record state)) (request_id (record state)) now expected (store s)).2) as Hf.
  { split; [done|]. eapply queued_from_weaken; [|exact Hq]. intros r (Hk & r0 & Hr0 & Hrec0). right. intros [H1 H2].
    assert (r0 = r1) as -> by (apply (q_keyed (store s)); [done|done|done|]; unfold request_key in *; by rewrite Hrec, Hrec0).
    apply Ho. by rewrite <-Hrec, Hrec0, H1, H2. }
  by destruct (q_reopen _ _ _ _ _) as [[[]|?] ?].
Qed.

Lemma execute_fine key result detail now s : q_valid (store s) → fine s (store (execute_step key result detail now s)).
Proof.
  intros Hv. unfold execute_step. destruct (od_get (running s) key) as [r|]; [|by apply fine_same].
  cbn zeta. destruct (point r); [by apply fine_same| | |by apply fine_same].
  - apply fine_none, q_failure_law, Hv.
  - match goal with |- context [q_finish_request ?a ?b ?o ?n ?st] => destruct (q_finish_law a b o n st Hv) as (Hv' & Hq & _) end.
    by apply fine_none.
Qed.

Lemma take_store s : store (take_lock s) = store s ∧ deleting (take_lock s) = deleting s.
Proof. unfold take_lock, ask, waiting_add. by repeat case_match. Qed.

Lemma perform_fine e s : deletes s → quiet e s → fine s (store (perform e s)).
Proof.
  intros Hd Hq. pose proof Hd as [_ Hv]. destruct e; cbn [MateScheduler.perform]; try (by apply fine_same).
  - unfold accept. case_match; by apply fine_same.
  - by apply resume_fine.
  - apply fine_same; [done|]. destruct (recover_rest ns0 pending_ s) as (? & ? & _). done.
  - apply fine_same; [done|]. apply take_store.
  - by apply locked_fine.
  - by apply execute_fine.
  - destruct Hq as [Hv' Hq]. split; [done|]. eapply queued_from_weaken; [|exact Hq]. intros r Hr. by right.
Qed.

Lemma locked_deleting answer now s : deleting (locked_step answer now s) = deleting s.
Proof.
  unfold MateScheduler.locked_step, accept_read, accept_store, accepted, pump_next, pump_states, pump_decide, pump_checks,
    pump_start, abort_look, abort_finish, aborted, end_pending, end_cancel, waiting_add, waiting_pop. cbn zeta.
  by repeat case_match.
Qed.

Lemma perform_deletes e s : deletes s → quiet e s → deletes (perform e s).
Proof.
  intros Hd Hq. split; [|by apply perform_fine]. destruct Hd as [Hd _]. destruct e; cbn [MateScheduler.perform]; try done.
  - unfold accept. by case_match.
  - unfold resume. by repeat case_match.
  - by destruct (recover_rest ns0 pending_ s) as (_ & -> & _).
  - cbn. set_solver.
  - cbn in *. apply elem_of_difference. split; [done|]. intros [= -> ->]%elem_of_singleton. done.
  - by destruct (take_store s) as [_ ->].
  - by rewrite locked_deleting.
  - unfold execute_step. by repeat case_match.
Qed.

(** ** Before and during the section *)

Definition opening s : Prop := ∃ q1 q2,
  queue s = q1 ++ (WEnd ns agent :: q2) ∧ (WEnd ns agent ∉ q1) ∧ no_accept q2 ∧ ¬ in_end (holding s).

Definition left_in (todo : list (RequestState I)) s : Prop := ∀ r, q_has (store s) r → status r = queued → mine r →
  ∃ r', r' ∈ todo ∧ request_id (record r') = request_id (record r).

Definition cancelling s : Prop := no_accept (queue s) ∧ ¬ accepting (holding s) ∧
  ∀ todo, holding s = Some (HEndCancel ns agent todo) → left_in todo s.

Lemma no_accept_app q q' : no_accept q → no_accept q' → no_accept (q ++ q').
Proof. intros H H' a [Ha|Ha]%elem_of_app; [by apply H|by apply H']. Qed.

Lemma added_no_accept e s q : deletes s → added e s q → no_accept q.
Proof.
  intros Hd Ha a Hin Hm. destruct (Ha a Hin) as [_ Ho]. apply (refused _ _ _ Hd) in Ho.
  destruct Hm as [Hm1 Hm2]. by rewrite Hm1, Hm2 in Ho.
Qed.

Lemma locked_accepting answer now s : accepting (holding (locked_step answer now s)) → accepting (holding s).
Proof.
  unfold MateScheduler.locked_step, accept_read, accept_store, accepted, pump_next, pump_states, pump_decide, pump_checks,
    pump_start, abort_look, abort_finish, aborted, end_pending, end_cancel, waiting_add, waiting_pop. cbn zeta.
  repeat case_match; cbn; try done; by match goal with H : holding s = _ |- _ => rewrite H end.
Qed.

Lemma locked_in_end answer now s : in_end (holding (locked_step answer now s)) → in_end (holding s).
Proof.
  unfold MateScheduler.locked_step, accept_read, accept_store, accepted, pump_next, pump_states, pump_decide, pump_checks,
    pump_start, abort_look, abort_finish, aborted, end_pending, end_cancel, waiting_add, waiting_pop. cbn zeta.
  repeat case_match; cbn; try done; by match goal with H : holding s = _ |- _ => rewrite H end.
Qed.

Lemma mine_left todo s st : fine s st → ¬ accepting (holding s) → left_in todo s →
  ∀ r, q_has st r → status r = queued → mine r → ∃ r', r' ∈ todo ∧ request_id (record r') = request_id (record r).
Proof. intros [_ Hq] Ha Hl r Hr Hs Hm. destruct (Hq r Hr Hs) as [Hold|[?|?]]; [by apply Hl|done|done]. Qed.

(** The section under the lock is not about to start a Request of the agent. *)
Definition head_mine key (head : RequestState I) : Prop := key.1 = ns ∧ agent_id (record head) = agent.
Definition clear h : Prop :=
  match h with
  | Some (HDecide key states _) => ∀ r, r ∈ states → status r = queued → ¬ head_mine key r
  | Some (HApproval key head _) | Some (HReady key head _) | Some (HStart key head _) | Some (HStarted key head _ _) =>
      ¬ head_mine key head
  | _ => True
  end.

(** What [take_lock] does to a free lock *)
Lemma take_free s w q : holding s = None → queue s = w :: q →
  (∃ q', queue (take_lock s) = q ++ q' ∧ no_accept q') ∧
  (accepting (holding (take_lock s)) → ∃ a, w = WAccept a ∧ accepts_mine a) ∧
  (in_end (holding (take_lock s)) → w = WEnd ns agent) ∧
  (∀ ns' agent' todo, holding (take_lock s) ≠ Some (HEndCancel ns' agent' todo)) ∧ clear (holding (take_lock s)).
Proof.
  intros Hh Hq. unfold take_lock. rewrite Hh, Hq.
  assert (Hnil : no_accept []) by (intros a Ha; by apply elem_of_nil in Ha).
  destruct w as [a| |key|ns' rid why|ns' agent']; cbn zeta;
    try (split_and!; [exists []; split; [by rewrite app_nil_r|done]| | | |]; cbn; by eauto).
  - split_and!; [exists [WPump]; split; [cbn; by rewrite waiting_add_queue|]| | | |];
      try (cbn; rewrite waiting_add_holding; cbn; by rewrite Hh).
    intros a Ha. by apply list_elem_of_singleton in Ha.
  - split_and!; [exists []; split; [by rewrite app_nil_r|done]|done| |done|done]. cbn. by intros [= -> ->].
Qed.

Lemma take_idle s : holding s ≠ None ∨ queue s = [] → take_lock s = s.
Proof. unfold take_lock. intros [H|H]; repeat case_match; done. Qed.

Lemma locked_left answer now s todo : q_valid (store s) → cancelling s →
  holding (locked_step answer now s) = Some (HEndCancel ns agent todo) → left_in todo (locked_step answer now s).
Proof.
  intros Hv (_ & Ha & Hl) Hh. pose proof (locked_in_end answer now s) as Hin. rewrite Hh in Hin. specialize (Hin eq_refl).
  pose proof (locked_fine answer now s Hv) as Hf. revert Hh Hf. unfold MateScheduler.locked_step.
  destruct (holding s) as [[| | | | | | | | | | | | |ns' agent'|ns' agent' l]|] eqn:Hs; try done; injection Hin as -> ->.
  - intros [= <-] _ r Hr Hq Hm. exists r. split; [|done]. destruct Hm as [H1 H2].
    apply list_elem_of_filter. split; [done|]. apply q_pending_all. by rewrite Hq.
  - unfold end_cancel. destruct l as [|r l]; [done|].
    destruct (q_finish_law ns (request_id (record r)) "cancelled" now (store s) Hv) as (_ & Hq & Hgone).
    destruct (q_finish_request _ _ _ _ _) as [[st'|?] st] eqn:E; [|done]. cbn [holding with_holding with_store store].
    intros [= <-] _ r2 Hr2 Hs2 Hm2. destruct (Hq r2 Hr2 Hs2) as [Hold|[]].
    destruct (Hl _ eq_refl r2 Hold Hs2 Hm2) as (r' & [->|Hr']%elem_of_cons & Hid); [|by exists r'].
    destruct (Hgone st' eq_refl r2 Hr2 Hs2). unfold request_key. destruct Hm2 as [-> _]. by rewrite Hid.
Qed.

Lemma take_cases s : take_lock s = s ∨ ∃ w q, holding s = None ∧ queue s = w :: q.
Proof.
  destruct (holding s) eqn:Hh; [left; apply take_idle; left; by rewrite Hh|].
  destruct (queue s) as [|w q] eqn:Hq; [left; apply take_idle; by right|right; eauto].
Qed.

Lemma locked_is e : (∃ answer now, e = ELocked answer now) ∨ ∀ answer now, e ≠ ELocked answer now.
Proof. destruct e; try (by right); left; eauto. Qed.

Lemma cancelling_step e s : deletes s → quiet e s → cancelling s → cancelling (perform e s).
Proof.
  intros Hd Hq Hc. pose proof Hc as (Hna & Ha & Hl). pose proof Hd as [_ Hv].
  destruct (decide (is_take e)) as [Ht|Ht].
  - destruct e; try done. cbn [MateScheduler.perform]. destruct (take_cases s) as [->|(w & q & Hh & Hqs)]; [done|].
    destruct (take_free s w q Hh Hqs) as ((q' & Hq' & Hn') & Hacc & _ & Hne & _). rewrite Hqs in Hna. split_and!.
    + rewrite Hq'. apply no_accept_app; [|done]. intros a Hin. apply Hna. by right.
    + intros (a & -> & Hm)%Hacc. by apply (Hna a); [left|].
    + intros todo Htodo. by destruct (Hne ns agent todo).
  - destruct (perform_queue limits asks_approval asks_ready e s) as (q & Hqs & Hadd); [by intros ->|].
    split_and!.
    + rewrite Hqs. apply no_accept_app; [done|]. by eapply added_no_accept.
    + destruct (locked_is e) as [(answer & now & ->)|Hnl]; [by intros H%locked_accepting|].
      rewrite perform_holding; [done|done|by intros ->].
    + destruct (locked_is e) as [(answer & now & ->)|Hnl]; [intros todo; by apply locked_left|].
      rewrite perform_holding; [|done|by intros ->]. intros todo Htodo. unfold left_in.
      eapply mine_left; [by apply perform_fine|done|by apply Hl].
Qed.

Lemma opening_step e s : deletes s → quiet e s → opening s → opening (perform e s) ∨ cancelling (perform e s).
Proof.
  intros Hd Hq (q1 & q2 & Hqs & Hq1 & Hq2 & Hin). destruct (decide (is_take e)) as [Ht|Ht].
  - destruct e; try done. cbn [MateScheduler.perform].
    destruct (take_cases s) as [->|(w & q & Hh & Hqs')]; [left; by exists q1, q2|].
    destruct (take_free s w q Hh Hqs') as ((q' & Hq' & Hn') & Hacc & Hend & Hne & _).
    destruct q1 as [|w1 q1]; rewrite Hqs in Hqs'; injection Hqs' as <- <-.
    + right. split_and!; [by rewrite Hq'; apply no_accept_app|by intros (a & ? & _)%Hacc|]. intros todo H. by destruct (Hne ns agent todo).
    + left. exists q1, (q2 ++ q'). rewrite Hq', <-app_assoc. split_and!; [done| |by apply no_accept_app|].
      * intros H. apply Hq1. by right.
      * intros ->%Hend. apply Hq1. by left.
  - left. destruct (perform_queue limits asks_approval asks_ready e s) as (q & Hqs' & Hadd); [by intros ->|].
    exists q1, (q2 ++ q). rewrite Hqs', Hqs, <-app_assoc. split_and!; [done|done| |].
    + apply no_accept_app; [done|]. by eapply added_no_accept.
    + destruct (locked_is e) as [(answer & now & ->)|Hnl]; [by intros H%locked_in_end|].
      rewrite perform_holding; [done|done|by intros ->].
Qed.

Lemma stage_run es s : deletes s → opening s ∨ cancelling s → quiet_run es s →
  let s' := performs limits asks_approval asks_ready es s in deletes s' ∧ (opening s' ∨ cancelling s').
Proof.
  revert s. induction es as [|e es IH]; intros s Hd Hs Hq; [done|]. destruct Hq as [He Hq].
  apply IH; [by apply perform_deletes| |done]. destruct Hs as [Hs|Hs]; [by apply opening_step|right; by apply cancelling_step].
Qed.

(** ** After the section *)

Definition final s : Prop :=
  no_accept (queue s) ∧ ¬ accepting (holding s) ∧ none_queued (store s) ∧ clear (holding s).

(** The runs of the agent, each with its Request *)
Definition runs_mine s : list ((string * string) * RequestState I) := filter (of_agent ns agent) (shape s).

Lemma pump_checks_clear key head todo s : ¬ head_mine key head → clear (holding (pump_checks limits key head todo s)).
Proof. intros H. unfold pump_checks. by repeat case_match. Qed.

Lemma locked_clear answer now s : none_queued (store s) → clear (holding s) → clear (holding (locked_step answer now s)).
Proof.
  intros Hn Hc. unfold MateScheduler.locked_step.
  destruct (holding s) as [[a|a|a|todo|key todo|key states todo|key head todo|key head todo|key head todo|key head x todo
    |ns' rid why|state ns' rid why|state ns'|ns' agent'|ns' agent' todo]|] eqn:Hh; cbn [clear] in Hc;
    [..|by rewrite Hh];
    try (unfold accept_read, accept_store, accepted, pump_next, abort_look, abort_finish, aborted, end_pending, end_cancel,
           waiting_add, ask; cbn zeta; repeat case_match; done).
  - cbn. intros r Hr Hs [H1 H2]. apply q_session_all in Hr as [Hr Hk]. apply (Hn r Hr Hs). split; [|done].
    unfold queue_key in Hk. injection Hk as Hk _. congruence.
  - unfold pump_decide. case_match; [done|]. destruct (filter _ states) as [|head l] eqn:Hf; [done|].
    assert (head ∈ filter (λ r, status r = queued) states) as [Hs Hin]%list_elem_of_filter by (rewrite Hf; by left).
    case_match; [by apply Hc|by apply pump_checks_clear, Hc].
  - destruct answer as [[]|]; [by case_match|by apply pump_checks_clear|done].
  - destruct answer as [[]|]; [by apply pump_checks_clear|done|done].
  - unfold pump_start. by case_match; case_match.
Qed.

Lemma shape_elem s (kr : (string * string) * RequestState I) :
  kr ∈ shape s ↔ ∃ x : Run I, (kr.1, x) ∈ running s ∧ kr.2 = run_state x.
Proof.
  unfold shape. rewrite list_elem_of_fmap. split.
  - intros ([k x] & -> & H). by exists x.
  - intros (x & H & Hx). exists (kr.1, x). split; [|done]. cbn. rewrite <-Hx. apply surjective_pairing.
Qed.

(** Only [HStarted] registers a run. *)
Lemma locked_shape answer now s : clear (holding s) → ∀ kr, kr ∈ runs_mine (locked_step answer now s) → kr ∈ runs_mine s.
Proof.
  intros Hc kr [Hof Hkr]%list_elem_of_filter. apply list_elem_of_filter. split; [done|].
  revert Hc Hkr. unfold MateScheduler.locked_step.
  destruct (holding s) as [[a|a|a|todo|key todo|key states todo|key head todo|key head todo|key head todo|key head x todo
    |ns' rid why|state ns' rid why|state ns'|ns' agent'|ns' agent' todo]|] eqn:Hh; intros Hc; cbn [clear] in Hc;
    try (unfold accept_read, accept_store, accepted, pump_next, pump_states, pump_decide, pump_checks, pump_start,
           abort_look, abort_finish, aborted, end_pending, end_cancel, waiting_add, ask; cbn zeta;
         repeat case_match; rewrite ?shape_abort_runs; done).
  rewrite !shape_elem. intros (run & [E|Hin]%od_elem_set & Hr); [|by exists run].
  injection E as Hkr ->. destruct Hc. destruct Hof as [Hof1 Hof2]. split; [congruence|]. by rewrite Hr in Hof2.
Qed.

Lemma perform_shape e s : clear (holding s) → ∀ kr, kr ∈ runs_mine (perform e s) → kr ∈ runs_mine s.
Proof.
  intros Hc kr. assert (∀ s', shape s' `sublist_of` shape s → kr ∈ runs_mine s' → kr ∈ runs_mine s) as Hsub.
  { intros s' Hs [Hof Hkr]%list_elem_of_filter. apply list_elem_of_filter. split; [done|]. by eapply elem_of_sublist. }
  destruct e; cbn [MateScheduler.perform]; try (by apply Hsub).
  - apply Hsub. unfold accept. by case_match.
  - apply Hsub. unfold resume. by repeat case_match.
  - apply Hsub. by destruct (recover_same ns0 pending_ s) as [-> _].
  - apply Hsub. unfold aclose. by rewrite shape_abort_runs.
  - apply Hsub. unfold take_lock, ask, waiting_add. by repeat case_match.
  - by apply locked_shape.
  - apply Hsub, execute_shape.
Qed.

Lemma final_step e s : deletes s → quiet e s → final s → final (perform e s).
Proof.
  intros Hd Hq (Hna & Ha & Hn & Hc).
  destruct (cancelling_step e s Hd Hq) as (Hna' & Ha' & _).
  { split_and!; [done|done|]. intros todo _ r Hr Hs Hm. by destruct (Hn r Hr Hs). }
  split_and!; [done|done| |].
  - destruct (perform_fine e s Hd Hq) as [_ Hf]. intros r Hr Hs. destruct (Hf r Hr Hs) as [?|[?|?]]; [by apply Hn|done|done].
  - destruct (decide (is_take e)) as [Ht|Ht].
    + destruct e; try done. cbn [MateScheduler.perform]. destruct (take_cases s) as [->|(w & q & Hh & Hqs)]; [done|].
      by destruct (take_free s w q Hh Hqs) as (_ & _ & _ & _ & ?).
    + destruct (locked_is e) as [(answer & now & ->)|Hnl]; [by apply locked_clear|].
      rewrite perform_holding; [done|done|by intros ->].
Qed.

Lemma final_run es s : deletes s → final s → quiet_run es s →
  let s' := performs limits asks_approval asks_ready es s in
  deletes s' ∧ final s' ∧ ∀ kr, kr ∈ runs_mine s' → kr ∈ runs_mine s.
Proof.
  revert s. induction es as [|e es IH]; intros s Hd Hs Hq; [done|]. destruct Hq as [He Hq].
  destruct (IH (perform e s)) as (Hd' & Hf' & Hk); [by apply perform_deletes|by apply final_step|done|].
  split_and!; [done|done|]. intros kr Hkr. eapply perform_shape; [apply Hs|]. by apply Hk.
Qed.

Lemma told_to_stop answer now s kr : holding s = Some (HEndCancel ns agent []) →
  kr ∈ agent_runs ns agent (running (locked_step answer now s)) → reason kr.2 ≠ None.
Proof.
  intros Hh. unfold MateScheduler.locked_step. rewrite Hh. cbn.
  intros [Hof (kr0 & -> & _)%list_elem_of_fmap]%list_elem_of_filter.
  destruct (decide (kr0.1.1 = ns ∧ agent_id (record (run_state kr0.2)) = agent)) as [H|H].
  - rewrite bool_decide_true by done. cbn. by destruct (reason kr0.2).
  - by rewrite bool_decide_false in Hof.
Qed.

Lemma end_agent_opening s : q_valid (store s) → WEnd ns agent ∉ queue s → ¬ in_end (holding s) →
  deletes (end_agent ns agent s) ∧ opening (end_agent ns agent s).
Proof.
  intros Hv Hq Hh. split; [split; [cbn; set_solver|done]|].
  exists (queue s), []. split_and!; [done|done| |done]. intros a Ha. by apply elem_of_nil in Ha.
Qed.

Lemma section_final answer now s : deletes s → opening s ∨ cancelling s → holding s = Some (HEndCancel ns agent []) →
  deletes (locked_step answer now s) ∧ final (locked_step answer now s).
Proof.
  intros Hd Hs Hh. destruct Hs as [(q1 & q2 & _ & _ & _ & Hin)|Hc]; [rewrite Hh in Hin; by destruct Hin|].
  pose proof (perform_deletes (ELocked answer now) s Hd Logic.I) as Hd'.
  pose proof (cancelling_step (ELocked answer now) s Hd Logic.I Hc) as (Hna & Ha & _).
  cbn [MateScheduler.perform] in *. split; [done|]. destruct Hc as (_ & _ & Hl).
  unfold MateScheduler.locked_step in *. rewrite Hh in *. split_and!; [done|done| |done].
  intros r Hr Hq Hm. destruct (Hl [] eq_refl r Hr Hq Hm) as (r' & Hr' & _). by apply elem_of_nil in Hr'.
Qed.

(** [end_agent], called while no other call of it for the agent is under way, and whatever
    happens before its section has cancelled the last queued Request and after: the lock is
    released, each run of the agent that is there has been told to stop, no Request of the agent
    is queued from then on, and none of the agent's runs is new, until [release_agent]. *)
Theorem end_agent_correct s0 es answer now es1 es2 :
  q_valid (store s0) → WEnd ns agent ∉ queue s0 → ¬ in_end (holding s0) →
  let s := performs limits asks_approval asks_ready es (end_agent ns agent s0) in
  quiet_run es (end_agent ns agent s0) → holding s = Some (HEndCancel ns agent []) →
  let s1 := locked_step answer now s in
  let later es := performs limits asks_approval asks_ready es s1 in
  quiet_run es1 s1 → quiet_run es2 (later es1) →
  holding s1 = None ∧ (∀ kr, kr ∈ agent_runs ns agent (running s1) → reason kr.2 ≠ None) ∧
  none_queued (store (later es1)) ∧
  ∀ kr, kr ∈ runs_mine (performs limits asks_approval asks_ready es2 (later es1)) → kr ∈ runs_mine (later es1).
Proof.
  intros Hv Hq Hh s Hr Hs s1 later Hr1 Hr2.
  destruct (end_agent_opening s0 Hv Hq Hh) as [Hd0 Ho0].
  destruct (stage_run es _ Hd0 (or_introl Ho0) Hr) as [Hd Hst].
  destruct (section_final answer now s Hd Hst Hs) as [Hd1 Hf1].
  destruct (final_run es1 s1 Hd1 Hf1 Hr1) as (Hd2 & Hf2 & _).
  destruct (final_run es2 _ Hd2 Hf2 Hr2) as (_ & _ & Hk).
  split_and!; [|intros kr; by apply (told_to_stop answer now s)|apply Hf2|done].
  unfold s1, MateScheduler.locked_step. by rewrite Hs.
Qed.
End agent.

