(* ===== verification/MateRun.v ===== *)
(** * A run of the scheduler of JiuwenMate

    Two Requests of a chat on the stores of [StoreRun]: the first is started, the second waits
    behind it, and the colleague is deleted. *)

From S2P Require Import Prelude OrderedDict PyJson Tables MateModels RequestStore DeliveryStore Recovery StoreInv StoreRun MateScheduler MateSchedulerInv MateSchedulerSessions MateSchedulerProps StoreQueue MateEndAgent.


#[local] Abbreviation Store := (World (DB string)) (only parsing).
#[local] Instance ticks_queue : RequestQueue string Store := store_queue ticks plain_notice.
#[local] Instance ticks_laws : RequestQueueLaws string Store := store_queue_laws ticks plain_notice.

Definition a_request (source text : string) (n : Z) : AcceptArgs string :=
  {| a_session := chat_session; a_snapshot := bot; a_source := source; a_access := user_access; a_input := text;
     a_received := at_ n; a_route := Some chat_route |}.

#[local] Abbreviation go := (performs default_limits false false) (only parsing).
Definition locked (now : Z) : event string Store := ELocked None now.

(** The scheduler opens, the first Request is accepted, and its pump starts it. *)
Definition opens_and_starts : list (event string Store) :=
  [EOpen; EAccept (a_request "src1" "what now" 2); ETake; locked 2; locked 2; locked 2;
   ETake; locked 3; locked 3; locked 3; locked 3; locked 3; locked 3].
(** Another one is accepted; its pump waits for the lock. *)
Definition accepts_another : list (event string Store) :=
  [EAccept (a_request "src2" "and then" 4); ETake; locked 4; locked 4; locked 4].
(** The pump finds the session running; the section of [end_agent] cancels the second Request. *)
Definition deletes_agent : list (event string Store) := [ETake; locked 5; locked 5; ETake; locked 6; locked 7].
(** The run is told to stop and ends. *)
Definition run_ends_too : list (event string Store) :=
  [EExecute ("ns", "sess_a") (Some "cancelled") None 8; EExecute ("ns", "sess_a") None None 8;
   EExecute ("ns", "sess_a") None None 8; ETake; locked 9; locked 9].

Definition init : Sched string Store := sched_init (at_ops [OpResolve "ns" "bot" chat 1]).
Definition busy : Sched string Store := go (opens_and_starts ++ accepts_another) init.

Example busy_runs :
  od_keys (running busy) = [("ns", "sess_a")] ∧ queue busy = [WPump] ∧ holding busy = None ∧
  (λ r, (request_id (record r), status r)) <$> requests (db (store busy)) = [("req_aa", dispatched); ("req_aaaa", queued)].
Proof. by vm_compute. Qed.

(** The pump of the first Request just before it is started *)
#[local] Abbreviation starting := (take 10 opens_and_starts) (only parsing).




#[local] Abbreviation start_store := (at_ops [OpResolve "ns" "bot" chat 1]) (only parsing).
#[local] Abbreviation busy_state := (go (opens_and_starts ++ accepts_another) (sched_init start_store)) (only parsing).




Definition turns (n : nat) : event string Store := if Nat.even n then locked 9 else ETake.

Lemma waiters_served_witness :
  ∃ j q, gives default_limits false false turns (end_agent "ns" "bot" busy) j ∧
    queue (trace default_limits false false turns (end_agent "ns" "bot" busy) j) = WEnd "ns" "bot" :: q.
Proof.
  destruct (waiters_served default_limits false false turns (end_agent "ns" "bot" busy) 0 [WPump] (WEnd "ns" "bot") [])
    as (j & q & _ & Hg & Hq & _).
  - intros i. exists (2 * i). split; [lia|]. unfold turns. by rewrite Nat.even_even.
  - intros i. exists (2 * i + 1). split; [lia|]. unfold turns. by rewrite Nat.even_odd.
  - by vm_compute.
  - by exists j, q.
Defined.

Lemma quiet_steps es s : Forall (λ e, match e with EResume _ _ _ | EReleaseAgent _ _ | EExternal _ => False | _ => True end) es →
  quiet_run default_limits false false "ns" "bot" es s.
Proof.
  intros H. revert s. induction H as [|e es He _ IH]; intros s; [done|]. split; [by destruct e|apply IH].
Qed.

Lemma busy_valid : q_valid (store busy).
Proof.
  assert (E : store busy = at_ops (asked ++ [OpStart "ns" "req_aa" 3;
    OpAccept chat_session bot "src2" user_access "and then" (at_ 4) (Some chat_route)])) by by vm_compute.
  rewrite E. exact (store_reachable_ok ticks plain_notice _ (at_reach _)).
Qed.

Lemma busy_free : WEnd "ns" "bot" ∉ queue busy.
Proof. assert (E : queue busy = [WPump]) by by vm_compute. rewrite E. by intros H%list_elem_of_singleton. Qed.

Lemma busy_not_ending : ¬ in_end "ns" "bot" (holding busy).
Proof. assert (E : holding busy = None) by by vm_compute. rewrite E. exact (λ H, H). Qed.

Lemma deleted : holding (go deletes_agent (end_agent "ns" "bot" busy)) = Some (HEndCancel "ns" "bot" []).
Proof. by vm_compute. Qed.

Lemma quiet_deletes : quiet_run default_limits false false "ns" "bot" deletes_agent (end_agent "ns" "bot" busy).
Proof. apply quiet_steps. by repeat constructor. Qed.

#[local] Abbreviation ended_section :=
  (locked_step default_limits false false None 8 (go deletes_agent (end_agent "ns" "bot" busy))) (only parsing).

Lemma quiet_ends : quiet_run default_limits false false "ns" "bot" run_ends_too ended_section.
Proof. apply quiet_steps. by repeat constructor. Qed.

(** The second Request is cancelled, the first one ends, and nothing is left. *)
Example nothing_left :
  od_keys (running ended_section) = [("ns", "sess_a")] ∧ running (go run_ends_too ended_section) = [] ∧
  (λ r, (request_id (record r), outcome_ r)) <$> requests (db (store (go run_ends_too ended_section)))
    = [("req_aa", Some "cancelled"); ("req_aaaa", Some "cancelled")].
Proof. by vm_compute. Qed.

Lemma end_agent_correct_witness : holding ended_section = None ∧ none_queued "ns" "bot" (store (go run_ends_too ended_section)).
Proof.
  destruct (end_agent_correct default_limits false false "ns" "bot" busy deletes_agent None 8 run_ends_too []
    busy_valid busy_free busy_not_ending quiet_deletes deleted quiet_ends Logic.I) as (Hh & _ & Hn & _).
  exact (conj Hh Hn).
Defined.
