(* ===== verification/WireTruncate.v ===== *)
(** * Fitting history records into a byte budget

    Source: [jiuwenswarm/server/wire_truncate.py], the functions on history
    records, and the page that [team.history.get] answers with
    ([server/handlers/team.py]).

    Everything here is pure.  Records are JSON values whose texts are the strings of their UTF-8 bytes
    ([Utf8]), with characters of one to four bytes.  [id(full)], the address of a Python
    object, and [isprintable], which [str] of a list or a dictionary asks, are arguments. *)

From stdpp Require Import pretty.
From S2P Require Import Prelude OrderedDict PyJson Utf8.

Definition HISTORY_WIRE_STRING_LIMIT : Z := 16 * 1024.
Definition HISTORY_WIRE_METADATA_STRING_LIMIT : Z := 256.
Definition HISTORY_WIRE_LIST_LIMIT : nat := 100.
Definition HISTORY_WIRE_DEPTH_LIMIT : nat := 8.
Definition HISTORY_WIRE_RECORD_MAX_BYTES : Z := 64 * 1024.
Definition HISTORY_WIRE_RECORD_PART_BYTES : Z := 32 * 1024.
Definition HISTORY_SPLIT_EVENT_TYPES : list string := ["chat.final"].
Definition TEAM_HISTORY_DEFAULT_LIMIT : Z := 500.
Definition TEAM_HISTORY_MAX_LIMIT : Z := 1000.
Definition TEAM_HISTORY_DEFAULT_MAX_BYTES : Z := 2 * 1024 * 1024.
Definition TEAM_HISTORY_MIN_MAX_BYTES : Z := 2048.
Definition TEAM_HISTORY_MAX_MAX_BYTES : Z := 6 * 1024 * 1024.
Definition TEAM_HISTORY_FRAME_OVERHEAD_BYTES : Z := 1024.
Definition TRUNCATE_SUFFIX : string := " [truncated]".

Definition HISTORY_COLLAPSE_KEEP_KEYS : list string :=
  ["id"; "role"; "request_id"; "channel_id"; "session_id"; "timestamp"; "event_type"; "mode"; "member_name";
   "member_id"; "source_member"; "name"; "status"; "goal_id"; "is_goal_objective_message";
   "is_goal_completed_message"; "evidence"; "agent_template_name"].

(** [_json_wire_size] *)
Definition json_wire_size (value : json) : Z := byte_len (json_dumps value).

(** [_coerce_int] *)
Definition coerce_int (value : json) (default_value minimum maximum : Z) : Z :=
  Z.max minimum (Z.min maximum (default default_value (text_int value))).

(** [raw[:budget].decode("utf-8", errors="ignore")]: the characters that fit *)
Fixpoint fit_chars (budget : Z) (l : list string) : list string :=
  match l with
  | c :: l' => if (byte_len c <=? budget)%Z then c :: fit_chars (budget - byte_len c) l' else []
  | [] => []
  end.
Definition take_bytes (budget : Z) (s : string) : string := concat_str (fit_chars budget (chars s)).

Definition truncate_string_by_bytes (value : string) (max_bytes : Z) : string :=
  if (byte_len value <=? max_bytes)%Z then value
  else take_bytes (Z.max 0 (max_bytes - byte_len TRUNCATE_SUFFIX)) value +:+ TRUNCATE_SUFFIX.

Section wire.
Context (isprintable : string → bool).

(** [_compact_wire_metadata_value] *)
Definition compact_wire_metadata_value (value : json) : json :=
  match value with
  | JStr s => JStr (truncate_string_by_bytes s HISTORY_WIRE_METADATA_STRING_LIMIT)
  | JNum _ | JBool _ | JNull => value
  | _ => JStr (truncate_string_by_bytes (text_str isprintable value) HISTORY_WIRE_METADATA_STRING_LIMIT)
  end.

(** [_sanitize_history_wire_value]; a list is cut after its items are sanitized,
    which gives the same list as the source's order. *)
Fixpoint sanitize_value (depth : nat) (value : json) : json :=
  if Nat.ltb HISTORY_WIRE_DEPTH_LIMIT depth then JStr "<truncated>"
  else match value with
       | JStr s => JStr (truncate_string_by_bytes s HISTORY_WIRE_STRING_LIMIT)
       | JObj d => JObj (map (λ kv, (kv.1, sanitize_value (S depth) kv.2)) d)
       | JList l => JList (take HISTORY_WIRE_LIST_LIMIT (map (sanitize_value (S depth)) l))
       | _ => value
       end.

Definition is_kept (key : string) : bool := bool_decide (key ∈ HISTORY_COLLAPSE_KEEP_KEYS).

(** [{key: f(value) for key, value in record.items() if key in _HISTORY_COLLAPSE_KEEP_KEYS}] *)
Definition kept (f : json → json) (record : jdict) : jdict :=
  omap (λ kv, if is_kept kv.1 then Some (kv.1, f kv.2) else None) record.

(** [_collapse_oversized_history_record] *)
Definition collapse_record (record : jdict) : jdict :=
  let collapsed := kept (sanitize_value 0) record in
  let collapsed := match j_get record "content" with
                   | JStr content => if str_true (text_strip content)
                                     then od_set collapsed "content" (JStr (truncate_string_by_bytes content 512))
                                     else collapsed
                   | _ => collapsed
                   end in
  let collapsed := match j_get record "event" with
                   | JObj event =>
                       od_set collapsed "event"
                         (JObj (omap (λ key, v ← od_get event key; Some (key, sanitize_value 0 v))
                                  ["type"; "member_id"; "task_id"; "id"; "status"; "new_status"; "team_id"]))
                   | _ => collapsed
                   end in
  od_set collapsed "truncated" (JBool true).

(** [_minimal_history_record_for_wire] *)
Definition minimal_record (record : jdict) : jdict :=
  od_set (od_set (kept compact_wire_metadata_value record) "content" (JStr "[truncated]")) "truncated" (JBool true).

(** [_restore_mcp_app_block] *)
Definition restore_mcp_app_block (original sanitized : jdict) : jdict :=
  let block := match j_get original "raw_output" with JObj r => j_get r "mcp_app" | _ => JNull end in
  match block, j_get sanitized "raw_output" with
  | JObj b, JObj r => od_set sanitized "raw_output" (JObj (od_set r "mcp_app" (JObj b)))
  | _, _ => sanitized
  end.

(** [_sanitize_history_record_for_wire] *)
Definition sanitize_record (record : json) : jdict :=
  match record with
  | JObj d =>
      match sanitize_value 0 record with
      | JObj sanitized =>
          let sanitized := restore_mcp_app_block d sanitized in
          if (json_wire_size (JObj sanitized) <=? HISTORY_WIRE_RECORD_MAX_BYTES)%Z then sanitized
          else collapse_record sanitized
      | v => [("content", JStr (text_str isprintable v)); ("truncated", JBool true)]
      end
  | _ => [("content", sanitize_value 0 record); ("truncated", JBool true)]
  end.

(** ** Splitting a record into parts *)

(** [chars_per_part] and [total] *)
Definition chars_per_part (part_bytes : Z) : Z := Z.max 256 (part_bytes / 4).
Definition part_count (s : string) (chars : Z) : Z :=
  Z.max 1 ((Z.of_nat (text_len s) + chars - 1) / chars).

(** [s[i:j]] for [0 <= i <= j] *)
Definition str_slice (s : string) (i j : Z) : string := text_slice s (Z.to_nat i) (Z.to_nat j).

(** The name a record is reassembled by; [object_id] is [id(full)]. *)
Definition stream_record_id (full : jdict) (object_id : Z) : string :=
  match j_or (j_or (j_get full "id") (j_get full "request_id")) (JStr ("hist-" +:+ pretty object_id)) with
  | JStr s => if str_true s then s else "hist-" +:+ pretty object_id
  | _ => "hist-" +:+ pretty object_id
  end.

Definition stream_chunk (metadata : jdict) (content record_id : string) (chars total idx : Z) : jdict :=
  let chunk := od_set metadata "content" (JStr (str_slice content (idx * chars) ((idx + 1) * chars))) in
  od_set chunk "_part" (JObj [("record_id", JStr record_id); ("part_idx", JNum idx); ("total_parts", JNum total)]).

(** [event_type not in _HISTORY_SPLIT_EVENT_TYPES]; [None] is the [TypeError] of
    a value that cannot be hashed *)
Definition not_split (event_type : json) : option bool :=
  match event_type with
  | JStr s => Some (negb (bool_decide (s ∈ HISTORY_SPLIT_EVENT_TYPES)))
  | JList _ | JObj _ => None
  | _ => Some true
  end.

(** [split_history_record_for_stream] *)
Definition split_record (record : json) (part_bytes object_id : Z) : option (list jdict) :=
  let event_type := match record with JObj d => j_get d "event_type" | _ => JNull end in
  not_split event_type ≫= λ skip : bool,
  if skip then Some [sanitize_record record]
  else match record with
       | JObj d =>
           match j_get d "content" with
           | JStr content =>
               if negb (str_true content) then Some [sanitize_record record]
               else
                 let metadata := omap (λ kv, if String.eqb kv.1 "content" then None
                                             else Some (kv.1, sanitize_value 0 kv.2)) d in
                 let full := od_set metadata "content" (JStr content) in
                 if (json_wire_size (JObj full) <=? HISTORY_WIRE_RECORD_MAX_BYTES)%Z then Some [full]
                 else
                   let record_id := stream_record_id full object_id in
                   let chars := chars_per_part part_bytes in
                   let total := part_count content chars in
                   Some (map (stream_chunk metadata content record_id chars total) (seqZ 0 total))
           | _ => Some [sanitize_record record]
           end
       | _ => Some [sanitize_record record]
       end.

(** ** Pages *)

Definition record_size (record : jdict) : Z := json_wire_size (JObj record) + 1.

(** [{"id": ..., "truncated": True}] *)
Definition id_only (record : jdict) : jdict :=
  [("id", compact_wire_metadata_value (j_get record "id")); ("truncated", JBool true)].

(** The body of the loop for one record: what is appended, or [None] to stop *)
Definition fit_record (budget used : Z) (page_empty : bool) (record : jdict) : option jdict :=
  let record := if (budget <? record_size record)%Z then collapse_record record else record in
  if (budget <? used + record_size record)%Z then
    if negb page_empty then None
    else
      let record := collapse_record record in
      if (budget <? used + record_size record)%Z then
        let record := minimal_record record in
        if (budget <? used + record_size record)%Z then Some (id_only record) else Some record
      else Some record
  else Some record.

Fixpoint page_loop (limit budget used : Z) (page : list jdict) (next_cursor : Z) (rest : list jdict) :
    list jdict * Z :=
  match rest with
  | [] => (page, next_cursor)
  | record :: rest' =>
      if (limit <=? Z.of_nat (length page))%Z then (page, next_cursor)
      else match fit_record budget used (match page with [] => true | _ => false end) record with
           | None => (page, next_cursor)
           | Some record => page_loop limit budget (used + record_size record) (page ++ [record]) (next_cursor + 1) rest'
           end
  end.

(** The payload of an answer *)
Definition page_payload (records : list jdict) (session_id : string) (cursor next_cursor total : Z) : json :=
  JObj [("records", JList (map JObj records)); ("session_id", JStr session_id); ("cursor", JNum cursor);
        ("next_cursor", JNum next_cursor); ("has_more", JBool (next_cursor <? total)%Z); ("total", JNum total)].

Definition page_budget (max_bytes : Z) : Z :=
  Z.max TEAM_HISTORY_MIN_MAX_BYTES (max_bytes - TEAM_HISTORY_FRAME_OVERHEAD_BYTES).

(** [_select_history_record_page], for a cursor that is not negative *)
Definition select_page (records : list jdict) (cursor limit max_bytes : Z) (session_id : string) : list jdict * Z :=
  let total := Z.of_nat (length records) in
  if (total <=? cursor)%Z then ([], total)
  else page_loop limit (page_budget max_bytes)
         (json_wire_size (page_payload [] session_id cursor cursor total)) [] cursor
         (drop (Z.to_nat cursor) records).

(** [team.history.get]: the payload for the records read from disk *)
Definition team_history_payload (records : list json) (params : jdict) (session_id : string) : json :=
  let sanitized := omap (λ r, match r with JObj _ => Some (sanitize_record r) | _ => None end) records in
  let total := Z.of_nat (length sanitized) in
  let cursor := coerce_int (default (default (JNum 0) (od_get params "offset")) (od_get params "cursor"))
                  0 0 (Z.max 0 total) in
  let limit := coerce_int (j_get params "limit") TEAM_HISTORY_DEFAULT_LIMIT 1 TEAM_HISTORY_MAX_LIMIT in
  let max_bytes := coerce_int (j_get params "max_bytes") TEAM_HISTORY_DEFAULT_MAX_BYTES
                     TEAM_HISTORY_MIN_MAX_BYTES TEAM_HISTORY_MAX_MAX_BYTES in
  let '(page, next_cursor) := select_page sanitized cursor limit max_bytes session_id in
  page_payload page session_id cursor next_cursor total.

(** ** Truncated strings *)

Lemma take_bytes_len n s : (byte_len (take_bytes n s) ≤ Z.max 0 n)%Z.
Proof.
  unfold take_bytes. generalize (chars s). intros l. revert n. induction l as [|c l IH]; intros n; cbn [fit_chars]; [unfold byte_len; simpl; lia|].
  destruct (Z.leb_spec (byte_len c) n); cbn [concat_str foldr]; [|unfold byte_len; simpl; lia]. fold (concat_str (fit_chars (n - byte_len c) l)).
  rewrite byte_len_app. specialize (IH (n - byte_len c)%Z). pose proof (byte_len_nonneg c). lia.
Qed.

Lemma truncate_len s n : (12 ≤ n → byte_len (truncate_string_by_bytes s n) ≤ n)%Z.
Proof.
  intros Hn. unfold truncate_string_by_bytes. destruct (Z.leb_spec (byte_len s) n); [done|].
  rewrite byte_len_app. pose proof (take_bytes_len (Z.max 0 (n - byte_len TRUNCATE_SUFFIX)) s) as H1.
  change (byte_len TRUNCATE_SUFFIX) with 12%Z in *. lia.
Qed.

Lemma truncate_idemp s n : (12 ≤ n)%Z →
  truncate_string_by_bytes (truncate_string_by_bytes s n) n = truncate_string_by_bytes s n.
Proof.
  intros Hn. pose proof (truncate_len s n Hn) as H. unfold truncate_string_by_bytes at 1.
  by rewrite (proj2 (Z.leb_le _ _) H).
Qed.

(** ** Sanitized values *)

(** Within the limits of strings, lists and depth *)
Fixpoint within_limits (depth : nat) (value : json) : bool :=
  if Nat.ltb HISTORY_WIRE_DEPTH_LIMIT depth then match value with JStr s => String.eqb s "<truncated>" | _ => false end
  else match value with
       | JStr s => (byte_len s <=? HISTORY_WIRE_STRING_LIMIT)%Z
       | JObj d => forallb (λ kv, within_limits (S depth) kv.2) d
       | JList l => Nat.leb (length l) HISTORY_WIRE_LIST_LIMIT && forallb (within_limits (S depth)) l
       | _ => true
       end.

Lemma sanitize_limits depth value :
  within_limits depth (sanitize_value depth value) = true ∧
  (within_limits depth value = true → sanitize_value depth value = value).
Proof.
  revert depth. induction value as [|b|n|s|l IH|d IH] using json_ind'; intros depth;
    cbn [sanitize_value within_limits]; destruct (Nat.ltb HISTORY_WIRE_DEPTH_LIMIT depth) eqn:Ed;
    cbn [within_limits]; rewrite ?Ed; (split; [|try done]).
  all: try reflexivity.
  - by intros ->%String.eqb_eq.
  - apply Z.leb_le, truncate_len. by vm_compute.
  - intros H. unfold truncate_string_by_bytes. by rewrite H.
  - rewrite length_take. rewrite (proj2 (Nat.leb_le _ _) (Nat.le_min_l _ _)). cbn [andb].
    apply forallb_forall. intros x Hx%list_elem_of_In.
    assert (x ∈ map (sanitize_value (S depth)) l) as (y & -> & Hy)%list_elem_of_fmap by (eapply elem_of_take in Hx as (? & ? & _); by eapply list_elem_of_lookup_2).
    rewrite Forall_forall in IH. by apply IH.
  - intros [Hlen Hall]%andb_true_iff. f_equal.
    assert (map (sanitize_value (S depth)) l = l) as ->.
    { clear Hlen. induction IH as [|x l Hx _ IHl]; [done|]. simpl in *. apply andb_true_iff in Hall as [H1 H2].
      by rewrite (proj2 (Hx (S depth)) H1), IHl. }
    apply take_ge. by apply Nat.leb_le.
  - clear Ed. induction IH as [|[k x] d Hx _ IHd]; [done|]. simpl in *. by rewrite (proj1 (Hx (S depth))).
  - intros Hall. f_equal. clear Ed. induction IH as [|[k x] d Hx _ IHd]; [done|]. simpl in *.
    apply andb_true_iff in Hall as [H1 H2]. by rewrite (proj2 (Hx (S depth)) H1), IHd.
Qed.

(** C32: What is sanitized is within the limits on strings, lists and depth, and the
    values within the limits are exactly those it leaves as they are; so sanitizing
    twice is sanitizing once. *)
Theorem sanitize_within_limits depth value :
  within_limits depth (sanitize_value depth value) = true ∧
  (within_limits depth value = true ↔ sanitize_value depth value = value) ∧
  sanitize_value depth (sanitize_value depth value) = sanitize_value depth value.
Proof.
  destruct (sanitize_limits depth value) as [H1 H2].
  split_and!; [done| |by apply sanitize_limits]. split; [done|]. intros <-. done.
Qed.

(** ** Sizes *)

Definition Zsum (l : list Z) : Z := foldr Z.add 0%Z l.

Lemma Zsum_app l k : Zsum (l ++ k) = (Zsum l + Zsum k)%Z.
Proof. induction l as [|x l IH]; simpl; [done|]. rewrite IH. lia. Qed.

Lemma Zsum_cons x l : Zsum (x :: l) = (x + Zsum l)%Z.
Proof. done. Qed.

Lemma join_size l : byte_len (join ", " l) = (Zsum (map byte_len l) + 2 * Z.max 0 (Z.of_nat (length l) - 1))%Z.
Proof.
  destruct l as [|x l]; [done|]. cbn [join map]. rewrite Zsum_cons, length_cons, byte_len_app.
  assert (byte_len (foldr (λ y r, ", " +:+ y +:+ r) EmptyString l) = (Zsum (map byte_len l) + 2 * Z.of_nat (length l))%Z) as ->; [|lia].
  induction l as [|y l IH]; [done|]. cbn [foldr map]. rewrite Zsum_cons, length_cons, !byte_len_app, IH.
  change (byte_len ", ") with 2%Z. lia.
Qed.

Lemma list_wire_size l :
  json_wire_size (JList l) = (2 + Zsum (map json_wire_size l) + 2 * Z.max 0 (Z.of_nat (length l) - 1))%Z.
Proof.
  unfold json_wire_size. cbn [json_dumps]. rewrite !byte_len_app, join_size, map_map, length_map.
  change (byte_len "[") with 1%Z. change (byte_len "]") with 1%Z. lia.
Qed.

Lemma digit_width n : byte_len (String (pretty_N_char (n mod 10)) EmptyString) = 1%Z.
Proof.
  assert (n mod 10 < 10)%N as H by by apply N.mod_lt.
  revert H. generalize (n mod 10)%N. intros [|p] Hp; [done|].
  do 4 (destruct p as [p|p|]; try done; try lia).
Qed.

Lemma pretty_N_go_size k x s : (x < 10 ^ N.of_nat k)%N → (byte_len (pretty_N_go x s) ≤ Z.of_nat k + byte_len s)%Z.
Proof.
  revert x s. induction k as [|k IH]; intros x s Hx.
  { assert (x = 0%N) as -> by (simpl in Hx; lia). rewrite pretty_N_go_0. lia. }
  destruct (decide (x = 0%N)) as [->|Hne]; [rewrite pretty_N_go_0; lia|].
  rewrite pretty_N_go_step by lia. etrans; [apply IH|].
  - apply N.Div0.div_lt_upper_bound. rewrite Nat2N.inj_succ, N.pow_succ_r' in Hx. lia.
  - change (String ?c s) with (String c EmptyString +:+ s). rewrite byte_len_app, digit_width. lia.
Qed.

Lemma pretty_Z_size n : (0 ≤ n < 10 ^ 20 → 0 ≤ byte_len (pretty n) ≤ 20)%Z.
Proof.
  intros Hn. split; [apply byte_len_nonneg|]. destruct n as [|p|p]; [by vm_compute| |lia].
  change (pretty (Z.pos p)) with (pretty (N.pos p)). unfold pretty, pretty_N. rewrite decide_False by done.
  etrans; [apply (pretty_N_go_size 20)|by vm_compute].
  change (N.of_nat 20) with 20%N. lia.
Qed.

Lemma payload_shape records sid cursor next total :
  json_wire_size (page_payload records sid cursor next total) =
  (json_wire_size (JList (map JObj records)) + byte_len (pretty next) + (if (next <? total) then 4 else 5) +
   (83 + byte_len (dumps_str sid) + byte_len (pretty cursor) + byte_len (pretty total)))%Z.
Proof.
  unfold json_wire_size, page_payload. cbn [json_dumps map join foldr fst snd]. rewrite !byte_len_app.
  change (byte_len "{") with 1%Z. change (byte_len "}") with 1%Z. change (byte_len ": ") with 2%Z.
  change (byte_len ", ") with 2%Z. change (byte_len (dumps_str "records")) with 9%Z.
  change (byte_len (dumps_str "session_id")) with 12%Z. change (byte_len (dumps_str "cursor")) with 8%Z.
  change (byte_len (dumps_str "next_cursor")) with 13%Z. change (byte_len (dumps_str "has_more")) with 10%Z.
  change (byte_len (dumps_str "total")) with 7%Z. change (byte_len "") with 0%Z.
  destruct (next <? total)%Z; [change (byte_len "true") with 4%Z|change (byte_len "false") with 5%Z]; lia.
Qed.

Definition sizes (records : list jdict) : Z := Zsum (map record_size records).

Lemma sizes_snoc records r : sizes (records ++ [r]) = (sizes records + record_size r)%Z.
Proof. unfold sizes. rewrite map_app, Zsum_app. simpl. lia. Qed.

(** The payload against what the loop has counted *)
Lemma payload_size records sid cursor next total :
  (0 ≤ next < 10 ^ 20 →
   json_wire_size (page_payload records sid cursor next total) ≤
   json_wire_size (page_payload [] sid cursor cursor total) + sizes records + Z.max 0 (Z.of_nat (length records) - 2) + 21)%Z.
Proof.
  intros Hn. rewrite !payload_shape, !list_wire_size.
  pose proof (pretty_Z_size next Hn). pose proof (byte_len_nonneg (pretty cursor)).
  assert (Zsum (map json_wire_size (map JObj records)) = sizes records - Z.of_nat (length records))%Z as ->.
  { unfold sizes. induction records as [|r records IH]; [done|].
    cbn [map]. rewrite !Zsum_cons, length_cons, IH. unfold record_size. lia. }
  rewrite length_map. cbn [map Zsum foldr length].
  destruct (next <? total)%Z, (cursor <? total)%Z; lia.
Qed.

(** What a record may become on its way into a page *)
Definition shrunk (r r' : jdict) : Prop := r' = r ∨ j_get r' "truncated" = JBool true.

Lemma collapse_truncated r : j_get (collapse_record r) "truncated" = JBool true.
Proof. unfold collapse_record, j_get. cbv zeta. by rewrite od_get_set_eq. Qed.

Lemma minimal_truncated r : j_get (minimal_record r) "truncated" = JBool true.
Proof. unfold minimal_record, j_get. by rewrite od_get_set_eq. Qed.

Lemma fit_record_spec budget used empty r :
  match fit_record budget used empty r with
  | None => empty = false
  | Some r' => shrunk r r' ∧ ((used + record_size r' ≤ budget)%Z ∨ empty = true ∧ ∃ r0, r' = id_only r0)
  end.
Proof.
  unfold fit_record, shrunk. cbv zeta.
  set (r1 := if (budget <? record_size r)%Z then collapse_record r else r).
  assert (r1 = r ∨ j_get r1 "truncated" = JBool true) as Hr1.
  { unfold r1. destruct (budget <? _)%Z; [right; apply collapse_truncated|by left]. }
  destruct (Z.ltb_spec budget (used + record_size r1)); [|split; [done|by left]].
  destruct empty; [simpl|done].
  destruct (Z.ltb_spec budget (used + record_size (collapse_record r1)));
    [|split; [right; apply collapse_truncated|by left]].
  destruct (Z.ltb_spec budget (used + record_size (minimal_record (collapse_record r1))));
    [|split; [right; apply minimal_truncated|by left]].
  split; [by right|]. right. split; [done|]. by eexists.
Qed.

Definition page_ok (limit budget base : Z) (page : list jdict) (used : Z) : Prop :=
  used = (base + sizes page)%Z ∧
  (page = [] ∨ (used ≤ budget)%Z ∨ ∃ r0, page = [id_only r0]).

Lemma page_loop_spec limit budget base used page next rest :
  page_ok limit budget base page used →
  ∃ page', (page_loop limit budget used page next rest) =
             (page ++ page', next + Z.of_nat (length page'))%Z ∧
    (∃ used', page_ok limit budget base (page ++ page') used') ∧
    Forall2 shrunk (take (length page') rest) page' ∧
    (Z.of_nat (length (page ++ page')) ≤ Z.max limit (Z.of_nat (length page)))%Z ∧
    (page = [] → (1 ≤ limit)%Z → rest ≠ [] → page' ≠ []).
Proof.
  revert used page next. induction rest as [|r rest IH]; intros used page next Hok; cbn [page_loop].
  { exists []. rewrite app_nil_r, Z.add_0_r. split_and!; [done|by exists used|constructor|lia|done]. }
  destruct (Z.leb_spec limit (Z.of_nat (length page))).
  { exists []. rewrite app_nil_r, Z.add_0_r. split_and!; [done|by exists used|constructor|lia|].
    intros -> Hl _. simpl in *. lia. }
  set (empty := match page with [] => true | _ => false end).
  pose proof (fit_record_spec budget used empty r) as Hfit. destruct (fit_record budget used empty r) as [r'|].
  - destruct Hfit as [Hsh Hfit].
    destruct (IH (used + record_size r') (page ++ [r']) (next + 1))%Z as (page' & -> & Hused & Hall & Hlen & _).
    { split; [rewrite sizes_snoc; destruct Hok as [-> _]; lia|]. right. destruct Hfit as [?|[He [r0 ->]]]; [by left|].
      right. exists r0. unfold empty in He. by destruct page. }
    exists (r' :: page'). rewrite <-app_assoc in *. simpl in *. split_and!; try done.
    + f_equal. lia.
    + by constructor.
    + rewrite !length_app in *. simpl in *. lia.
  - exists []. rewrite app_nil_r, Z.add_0_r. split_and!; [done|by exists used|constructor|lia|].
    unfold empty in Hfit. by destruct page.
Qed.

Lemma select_page_spec records cursor limit max_bytes sid :
  (0 ≤ cursor)%Z → (1 ≤ limit)%Z →
  let base := json_wire_size (page_payload [] sid cursor cursor (Z.of_nat (length records))) in
  let rest := drop (Z.to_nat cursor) records in
  ∃ page, select_page records cursor limit max_bytes sid =
            (page, if (Z.of_nat (length records) <=? cursor)%Z then Z.of_nat (length records)
                   else cursor + Z.of_nat (length page))%Z ∧
    Forall2 shrunk (take (length page) rest) page ∧ (Z.of_nat (length page) ≤ limit)%Z ∧
    (page = [] ∨ (base + sizes page ≤ page_budget max_bytes)%Z ∨ ∃ r0, page = [id_only r0]) ∧
    (rest ≠ [] → page ≠ []).
Proof.
  intros Hc Hl. cbv zeta. unfold select_page. destruct (Z.leb_spec (Z.of_nat (length records)) cursor) as [Hle|Hlt].
  { exists []. split_and!; [done|constructor|simpl; lia|by left|]. by rewrite drop_ge by lia. }
  destruct (page_loop_spec limit (page_budget max_bytes)
    (json_wire_size (page_payload [] sid cursor cursor (Z.of_nat (length records))))
    (json_wire_size (page_payload [] sid cursor cursor (Z.of_nat (length records)))) [] cursor
    (drop (Z.to_nat cursor) records)) as (page & -> & [used [Hu Hok]] & Hall & Hlen & Hne).
  { split; [change (sizes []) with 0%Z; lia|by left]. }
  exists page. cbn [app length] in *. split_and!; [done|done|lia| |by apply Hne].
  destruct Hok as [?|[?|?]]; [by left|right; left; lia|by right; right].
Qed.

(** C30: Whatever the request asks for, the payload [team.history.get] answers with
    takes at most [max_bytes] bytes on the wire (3072 if less is asked for), unless
    its page is empty or a single record that was reduced to its id: the loop's count with
    one byte per separator and the reserved 1024 bytes cover what it leaves out. *)
Theorem history_page_fits records params sid :
  (Z.of_nat (length records) < 10 ^ 20)%Z →
  let max_bytes := coerce_int (j_get params "max_bytes") TEAM_HISTORY_DEFAULT_MAX_BYTES
                     TEAM_HISTORY_MIN_MAX_BYTES TEAM_HISTORY_MAX_MAX_BYTES in
  let payload := team_history_payload records params sid in
  (json_wire_size payload ≤ Z.max 3072 max_bytes)%Z ∨
  ∃ d, payload = JObj d ∧
    (j_get d "records" = JList [] ∨ ∃ r, j_get d "records" = JList [JObj (id_only r)]).
Proof.
  intros Hlen max_bytes. unfold team_history_payload. fold max_bytes. cbv zeta.
  set (sanitized := omap _ records). set (cursor := coerce_int _ 0 0 _). set (limit := coerce_int _ _ 1 _).
  assert (length sanitized ≤ length records) as Hs.
  { unfold sanitized. clear. induction records as [|r records IH]; [done|]. csimpl. case_match; simpl; lia. }
  assert (1 ≤ limit ≤ 1000)%Z as Hl.
  { unfold limit, coerce_int. change TEAM_HISTORY_MAX_LIMIT with 1000%Z. lia. }
  assert (0 ≤ cursor ≤ Z.of_nat (length sanitized))%Z as Hc by (unfold cursor, coerce_int; lia).
  destruct (select_page_spec sanitized cursor limit max_bytes sid (proj1 Hc) (proj1 Hl)) as (page & -> & Hall & Hle & Hok & _).
  set (next := if (_ <=? cursor)%Z then _ else _).
  assert (0 ≤ next < 10 ^ 20)%Z as Hn.
  { unfold next. apply Forall2_length in Hall. rewrite length_take, length_drop in Hall.
    destruct (Z.leb_spec (Z.of_nat (length sanitized)) cursor); lia. }
  pose proof (payload_size page sid cursor next (Z.of_nat (length sanitized)) Hn) as Hsize.
  unfold page_budget in Hok. change TEAM_HISTORY_MIN_MAX_BYTES with 2048%Z in Hok.
  change TEAM_HISTORY_FRAME_OVERHEAD_BYTES with 1024%Z in Hok.
  destruct Hok as [->|[Hok|[r0 ->]]]; [right; eexists; split; [done|by left]|left|].
  - destruct page as [|r page]; [cbn [length] in *; change (sizes []) with 0%Z in *|]; lia.
  - right. eexists. split; [done|]. right. by exists r0.
Qed.

(** ** Following the pages *)

(** What a client does: ask again from [next_cursor] while [has_more]; [None] when the
    fuel does not suffice. *)
Fixpoint follow (fuel : nat) (records : list jdict) (cursor limit max_bytes : Z) (sid : string) : option (list (list jdict)) :=
  match fuel with
  | O => None
  | S fuel' =>
      let '(page, next) := select_page records cursor limit max_bytes sid in
      if (next <? Z.of_nat (length records))%Z
      then cons page <$> follow fuel' records next limit max_bytes sid
      else Some [page]
  end.

Lemma follow_spec fuel records cursor limit max_bytes sid :
  (0 ≤ cursor ≤ Z.of_nat (length records))%Z → (1 ≤ limit)%Z →
  (Z.of_nat (length records) - cursor < Z.of_nat fuel)%Z →
  ∃ pages, follow fuel records cursor limit max_bytes sid = Some pages ∧
    Forall2 shrunk (drop (Z.to_nat cursor) records) (concat pages) ∧
    Forall (λ page, (Z.of_nat (length page) ≤ limit)%Z) pages.
Proof.
  revert cursor. induction fuel as [|fuel IH]; intros cursor Hc Hl Hf; [lia|]. cbn [follow].
  destruct (select_page_spec records cursor limit max_bytes sid (proj1 Hc) Hl) as (page & -> & Hall & Hle & _ & Hne).
  pose proof (Forall2_length _ _ _ Hall) as Hlen. rewrite length_take, length_drop in Hlen.
  set (rest := drop (Z.to_nat cursor) records) in *.
  destruct (Z.leb_spec (Z.of_nat (length records)) cursor) as [Hend|Hmore].
  { rewrite Z.ltb_irrefl. exists [page]. cbn [concat]. rewrite app_nil_r. split_and!; [done| |by repeat constructor].
    assert (rest = []) as Hr by (apply drop_ge; lia). rewrite Hr, take_nil in Hall. by rewrite Hr. }
  assert (page ≠ []) as Hpage.
  { apply Hne. intros Hr. assert (length rest = 0) as H0 by by rewrite Hr. unfold rest in H0. rewrite length_drop in H0. lia. }
  assert (0 < length page) by (destruct page; [done|simpl; lia]).
  destruct (Z.ltb_spec (cursor + Z.of_nat (length page)) (Z.of_nat (length records))) as [Hlt|Hge].
  - destruct (IH (cursor + Z.of_nat (length page))%Z) as (pages & -> & Hrest & Hlim); [lia..|].
    exists (page :: pages). cbn [concat]. split_and!; [done| |by constructor].
    rewrite <-(take_drop (length page) rest). apply Forall2_app; [done|].
    unfold rest. rewrite drop_drop. by replace (Z.to_nat cursor + length page) with (Z.to_nat (cursor + Z.of_nat (length page))) by lia.
  - exists [page]. cbn [concat]. rewrite app_nil_r. split_and!; [done| |by repeat constructor].
    rewrite take_ge in Hall; [done|]. unfold rest. rewrite length_drop. lia.
Qed.

(** A client that starts at the first page and follows [next_cursor] while
    [has_more] comes to an end, within one request per record; it gets every record
    exactly once and in order, each as it is or marked as truncated, and no page is
    longer than the limit: a record too large for a page never stalls it. *)
Theorem pages_cover_history records limit max_bytes sid :
  (1 ≤ limit)%Z →
  ∃ pages, follow (S (length records)) records 0 limit max_bytes sid = Some pages ∧
    Forall2 shrunk records (concat pages) ∧ Forall (λ page, (Z.of_nat (length page) ≤ limit)%Z) pages.
Proof. intros Hl. apply (follow_spec (S (length records)) records 0 limit max_bytes sid); lia. Qed.

(** ** Parts *)

Lemma parts_concat s chars_ :
  (0 < chars_)%Z →
  concat_str (map (λ i, str_slice s (i * chars_) ((i + 1) * chars_)) (seqZ 0 (part_count s chars_))) = s.
Proof.
  intros Hc. etrans; [|apply (slices_concat s (Z.to_nat chars_) (Z.to_nat (part_count s chars_)))].
  - f_equal. unfold seqZ. rewrite map_map. apply map_ext. intros i. unfold str_slice. f_equal; nia.
  - fold (text_len s). unfold part_count. pose proof (Z.mul_succ_div_gt (Z.of_nat (text_len s) + chars_ - 1) chars_ Hc). nia.
Qed.

Lemma part_size s part_bytes i :
  (0 ≤ i → byte_len (str_slice s (i * chars_per_part part_bytes) ((i + 1) * chars_per_part part_bytes)) ≤ Z.max 1024 part_bytes)%Z.
Proof.
  intros Hi. etrans; [apply slice_size|]. unfold chars_per_part.
  pose proof (Z.mul_div_le part_bytes 4 ltac:(lia)). nia.
Qed.

Definition part_content (chunk : jdict) : string := match j_get chunk "content" with JStr s => s | _ => EmptyString end.

Definition metadata_of (d : jdict) : jdict :=
  omap (λ kv, if String.eqb kv.1 "content" then None else Some (kv.1, sanitize_value 0 kv.2)) d.

Lemma metadata_get d k : k ≠ "content" → j_get (metadata_of d) k = sanitize_value 0 (j_get d k).
Proof.
  intros Hk. unfold j_get. induction d as [|[k' v] d IH]; [done|]. unfold metadata_of. csimpl. fold (metadata_of d).
  destruct (String.eqb_spec k' "content") as [->|Hne]; csimpl; destruct (decide (k = _)); try done.
Qed.

Lemma chunk_fields d content rid chars total idx k :
  let chunk := stream_chunk (metadata_of d) content rid chars total idx in
  j_get chunk "_part" = JObj [("record_id", JStr rid); ("part_idx", JNum idx); ("total_parts", JNum total)] ∧
  part_content chunk = str_slice content (idx * chars) ((idx + 1) * chars) ∧
  (k ∉ ["content"; "_part"] → j_get chunk k = sanitize_value 0 (j_get d k)).
Proof.
  cbv zeta. unfold stream_chunk, part_content, j_get. cbv zeta.
  rewrite od_get_set_eq, od_get_set_ne, od_get_set_eq by done. split_and!; [done..|].
  rewrite !not_elem_of_cons. intros (H1 & H2 & _). rewrite !od_get_set_ne by done. by apply metadata_get.
Qed.

(** C31: A [chat.final] record is sent whole, or in parts whose contents put together
    in order are its content; the parts are numbered from 0 up to their number, name
    one record, take at most [part_bytes] bytes of UTF-8 each (1024 if less is asked for) whatever
    their characters, of which none is cut, and
    all carry the other fields, sanitized. *)
Theorem split_record_lossless d content part_bytes object_id :
  j_get d "event_type" = JStr "chat.final" → j_get d "content" = JStr content → content ≠ EmptyString →
  ∃ chunks, split_record (JObj d) part_bytes object_id = Some chunks ∧
    concat_str (map part_content chunks) = content ∧
    ((∃ full, chunks = [full] ∧ (json_wire_size (JObj full) ≤ HISTORY_WIRE_RECORD_MAX_BYTES)%Z ∧
        ∀ k, k ≠ "content" → j_get full k = sanitize_value 0 (j_get d k)) ∨
     ∃ rid, ∀ i chunk, chunks !! i = Some chunk →
        j_get chunk "_part" = JObj [("record_id", JStr rid); ("part_idx", JNum (Z.of_nat i));
                                    ("total_parts", JNum (Z.of_nat (length chunks)))] ∧
        (byte_len (part_content chunk) ≤ Z.max 1024 part_bytes)%Z ∧ (utf8 content = true → utf8 (part_content chunk) = true) ∧
        ∀ k, k ∉ ["content"; "_part"] → j_get chunk k = sanitize_value 0 (j_get d k)).
Proof.
  intros He Hc Hne. unfold split_record. rewrite He, Hc. cbn [not_split mbind option_bind].
  rewrite bool_decide_eq_true_2 by by left. cbn [negb]. rewrite (proj2 (str_true_spec content) Hne). cbn [negb].
  fold (metadata_of d). cbv zeta. set (full := od_set (metadata_of d) "content" (JStr content)).
  destruct (Z.leb_spec (json_wire_size (JObj full)) HISTORY_WIRE_RECORD_MAX_BYTES) as [Hle|_].
  { exists [full]. split; [done|]. split.
    - cbn [map concat_str foldr]. rewrite str_app_nil_r. unfold part_content, j_get, full. by rewrite od_get_set_eq.
    - left. exists full. split_and!; [done|done|]. intros k Hk. unfold full, j_get. rewrite od_get_set_ne by done.
      by apply metadata_get. }
  set (rid := stream_record_id full object_id). set (chars := chars_per_part part_bytes).
  set (total := part_count content chars). eexists. split; [done|]. split.
  - rewrite map_map. etrans; [|apply (parts_concat content chars); unfold chars, chars_per_part; lia].
    fold total. f_equal. apply map_ext. intros i. apply (chunk_fields d content rid chars total i "").
  - right. exists rid. intros i chunk Hi. rewrite length_map, length_seqZ.
    change (map ?f ?l) with (f <$> l) in Hi. rewrite list_lookup_fmap in Hi.
    destruct (seqZ 0 total !! i) as [x|] eqn:Ex; [|done]. injection Hi as <-.
    apply lookup_seqZ in Ex as [-> Hi]. rewrite Z.add_0_l.
    destruct (chunk_fields d content rid chars total (Z.of_nat i) "") as (Hp & Hcont & _).
    split_and!; [|rewrite Hcont; apply part_size; lia|intros Hu; rewrite Hcont; by apply slice_utf8|intros k; apply chunk_fields].
    rewrite Hp. rewrite Z2Nat.id; [done|]. unfold total, part_count. lia.
Qed.

(** ** Records that do not fit *)

Lemma dumps_char_width c : (1 ≤ byte_len (dumps_char (Ascii.nat_of_ascii c)))%Z.
Proof. destruct c as [[] [] [] [] [] [] [] []]; vm_compute; discriminate. Qed.

Lemma dumps_str_size s : (byte_len s + 2 ≤ byte_len (dumps_str s))%Z.
Proof.
  unfold dumps_str. rewrite !byte_len_app. change (byte_len (chr 34)) with 1%Z.
  assert (byte_len s ≤ byte_len (map_chars dumps_char s))%Z; [|lia].
  induction s as [|c s IH]; [done|]. cbn [map_chars]. rewrite byte_len_app.
  pose proof (dumps_char_width c). unfold byte_len in *. cbn [String.length]. lia.
Qed.

Lemma field_size k v d : (k, v) ∈ d → (json_wire_size v ≤ json_wire_size (JObj d))%Z.
Proof.
  intros Hin. unfold json_wire_size. cbn [json_dumps]. rewrite !byte_len_app, join_size, map_map.
  assert (byte_len (json_dumps v) ≤ Zsum (map (λ kv, byte_len (dumps_str kv.1 +:+ ": " +:+ json_dumps kv.2)) d))%Z; [|
    change (byte_len "{") with 1%Z; change (byte_len "}") with 1%Z; lia].
  induction d as [|[k' v'] d IH]; [by apply elem_of_nil in Hin|]. cbn [map fst snd]. rewrite Zsum_cons, !byte_len_app.
  assert (∀ l : jdict, 0 ≤ Zsum (map (λ kv, byte_len (dumps_str kv.1 +:+ ": " +:+ json_dumps kv.2)) l))%Z as H0.
  { clear. intros l. induction l as [|kv l IH]; [done|]. cbn [map]. rewrite Zsum_cons.
    pose proof (byte_len_nonneg (dumps_str kv.1 +:+ ": " +:+ json_dumps kv.2)). lia. }
  pose proof (byte_len_nonneg (dumps_str k')). pose proof (byte_len_nonneg ": ").
  pose proof (byte_len_nonneg (json_dumps v')).
  apply elem_of_cons in Hin as [[= -> ->]|Hin]; [pose proof (H0 d); lia|]. specialize (IH Hin). lia.
Qed.

(** Collapsing does not always help: the kept field [evidence] may itself exceed the
    budget of a record. *)
Lemma collapsed_over_budget s :
  (13200 ≤ byte_len s ≤ 16384)%Z →
  let out := sanitize_record (JObj [("id", JStr "m1"); ("evidence", JList (replicate 5 (JStr s)))]) in
  (HISTORY_WIRE_RECORD_MAX_BYTES < json_wire_size (JObj out))%Z ∧ j_get out "truncated" = JBool true.
Proof.
  intros Hs. cbv zeta.
  assert (truncate_string_by_bytes s HISTORY_WIRE_STRING_LIMIT = s) as Ht.
  { unfold truncate_string_by_bytes. change HISTORY_WIRE_STRING_LIMIT with 16384%Z.
    by rewrite (proj2 (Z.leb_le _ _) (proj2 Hs)). }
  assert (∀ d, (("evidence", JList (replicate 5 (JStr s))) ∈ d → HISTORY_WIRE_RECORD_MAX_BYTES < json_wire_size (JObj d))%Z) as Hbig.
  { intros d Hd%field_size. eapply Z.lt_le_trans; [|exact Hd]. rewrite list_wire_size.
    pose proof (dumps_str_size s). cbn [replicate map Zsum foldr length]. change (json_wire_size (JStr s)) with (byte_len (dumps_str s)).
    change HISTORY_WIRE_RECORD_MAX_BYTES with 65536%Z. lia. }
  assert (sanitize_value 0 (JObj [("id", JStr "m1"); ("evidence", JList (replicate 5 (JStr s)))]) =
          JObj [("id", JStr "m1"); ("evidence", JList (replicate 5 (JStr s)))]) as Hsan.
  { cbn [sanitize_value map replicate fst snd take HISTORY_WIRE_LIST_LIMIT Nat.ltb Nat.leb HISTORY_WIRE_DEPTH_LIMIT].
    by rewrite Ht. }
  unfold sanitize_record. rewrite Hsan. unfold restore_mcp_app_block.
  set (d := [("id", JStr "m1"); _]) in *.
  assert (j_get d "raw_output" = JNull) as -> by done. cbv iota.
  rewrite (proj2 (Z.leb_gt _ _)) by (apply Hbig; right; by left).
  split; [|apply collapse_truncated]. apply Hbig.
  unfold collapse_record. assert (j_get d "content" = JNull) as -> by done. assert (j_get d "event" = JNull) as -> by done.
  unfold d. cbn [kept omap list_omap fst snd].
  change (is_kept "id") with true. change (is_kept "evidence") with true. cbv iota.
  assert (sanitize_value 0 (JList (replicate 5 (JStr s))) = JList (replicate 5 (JStr s))) as ->.
  { cbn [sanitize_value map replicate take HISTORY_WIRE_LIST_LIMIT Nat.ltb Nat.leb HISTORY_WIRE_DEPTH_LIMIT].
    by rewrite Ht. }
  right. by left.
Qed.
End wire.

(** ** Runs *)

#[local] Abbreviation any := (λ _ : string, true).

(** A text of 16384 characters of four bytes each *)
Definition long_text : string := Nat.iter 7 (λ s, s +:+ s +:+ s +:+ s) (bytes [240; 159; 152; 128]).

Lemma history_page_fits_witness :
  let records := [JObj [("id", JStr "a"); ("content", JStr "hello")]; JNull; JObj [("id", JStr "b")]] in
  (Z.of_nat (length records) < 10 ^ 20)%Z ∧
  json_wire_size (team_history_payload any records [("max_bytes", JStr "4096")] "s") = 140%Z ∧
  ((json_wire_size (team_history_payload any records [("max_bytes", JStr "4096")] "s") ≤ Z.max 3072 4096)%Z ∨
   ∃ d, team_history_payload any records [("max_bytes", JStr "4096")] "s" = JObj d ∧
     (j_get d "records" = JList [] ∨ ∃ r, j_get d "records" = JList [JObj (id_only any r)])).
Proof.
  cbv zeta. split; [vm_compute; reflexivity|]. split; [vm_compute; reflexivity|].
  apply (history_page_fits any [JObj [("id", JStr "a"); ("content", JStr "hello")]; JNull; JObj [("id", JStr "b")]]
           [("max_bytes", JStr "4096")] "s").
  vm_compute. reflexivity.
Defined.

Lemma pages_cover_history_witness :
  let records := [[("id", JStr "a")]; [("id", JStr "b"); ("content", JStr "x")]; [("id", JStr "c")]] in
  (1 ≤ 2)%Z ∧
  follow any 4 records 0 2 4096 "s" = Some [[[("id", JStr "a")]; [("id", JStr "b"); ("content", JStr "x")]]; [[("id", JStr "c")]]] ∧
  ∃ pages, follow any 4 records 0 2 4096 "s" = Some pages ∧
    Forall2 shrunk records (concat pages) ∧ Forall (λ page, (Z.of_nat (length page) ≤ 2)%Z) pages.
Proof.
  cbv zeta. split; [lia|]. split; [vm_compute; reflexivity|].
  exact (pages_cover_history any [[("id", JStr "a")]; [("id", JStr "b"); ("content", JStr "x")]; [("id", JStr "c")]]
           2 4096 "s" ltac:(lia)).
Defined.

Lemma split_record_lossless_witness :
  let d := [("event_type", JStr "chat.final"); ("id", JStr "m1"); ("content", JStr long_text)] in
  utf8 long_text = true ∧ length <$> split_record any (JObj d) HISTORY_WIRE_RECORD_PART_BYTES 7 = Some 2 ∧
  ∃ chunks, split_record any (JObj d) HISTORY_WIRE_RECORD_PART_BYTES 7 = Some chunks ∧
    concat_str (map part_content chunks) = long_text ∧
    ((∃ full, chunks = [full] ∧ (json_wire_size (JObj full) ≤ HISTORY_WIRE_RECORD_MAX_BYTES)%Z ∧
        ∀ k, k ≠ "content" → j_get full k = sanitize_value 0 (j_get d k)) ∨
     ∃ rid, ∀ i chunk, chunks !! i = Some chunk →
        j_get chunk "_part" = JObj [("record_id", JStr rid); ("part_idx", JNum (Z.of_nat i));
                                    ("total_parts", JNum (Z.of_nat (length chunks)))] ∧
        (byte_len (part_content chunk) ≤ Z.max 1024 HISTORY_WIRE_RECORD_PART_BYTES)%Z ∧
        (utf8 long_text = true → utf8 (part_content chunk) = true) ∧
        ∀ k, k ∉ ["content"; "_part"] → j_get chunk k = sanitize_value 0 (j_get d k)).
Proof.
  intros d. split; [vm_compute; reflexivity|]. split; [vm_compute; reflexivity|].
  apply (split_record_lossless any d long_text HISTORY_WIRE_RECORD_PART_BYTES 7); [reflexivity|reflexivity|].
  apply str_true_spec. reflexivity.
Defined.
