(* ===== verification/WireWorkflow.v ===== *)
(** * Workflow snapshots on the wire

    Source: [jiuwenswarm/server/wire_truncate.py], the functions on workflow runs,
    and [reassembleAgentFieldParts] of the terminal client
    ([jiuwenswarm/channels/tui/frontend/src/core/workflows.ts]), which puts the
    parts of a field together again.

    Texts are the strings of their UTF-8 bytes ([Utf8]), [isprintable] as in [WireTruncate].
    [None] is the [TypeError] of a value that cannot be iterated. *)

From S2P Require Import Prelude OrderedDict PyJson Utf8 WireTruncate.

Definition WORKFLOW_AGENT_FIELD_PART_BYTES : Z := 32 * 1024.
Definition WORKFLOW_LIST_MAX_LIMIT : Z := 200.
Definition WORKFLOW_PHASE_MAX_LIMIT : Z := 100.
Definition WORKFLOW_AGENT_MAX_LIMIT : Z := 200.
Definition WORKFLOW_AGENT_SUMMARY_PREVIEW_CHARS : nat := 200.

Definition VERIFY_GROUP_SUMMARY_KEYS : list string :=
  ["id"; "label"; "verify_id"; "status"; "threshold"; "reviewers"; "reviewer_labels"; "reviewer_roles"; "verdict";
   "started_at"; "settled_at"; "outcome"].
Definition VERIFY_VOTE_SUMMARY_KEYS : list string := ["name"; "agent_id"; "kind"; "role"; "decision"; "score"; "voted"].
Definition SPLITTABLE_AGENT_FIELDS : list string :=
  ["prompt"; "outcome"; "human_prompt"; "human_reply"; "activity"; "error"].
Definition WORKFLOW_LIST_SUMMARY_KEEP_KEYS : list string :=
  ["id"; "name"; "status"; "agent_count"; "completed_agent_count"; "started_at"; "completed_at"; "duration_ms";
   "token_count"; "estimated_token_count"; "budget"; "workflow_budget"; "budget_exhausted_scope"; "recovered"; "executor"].
Definition WORKFLOW_AGENT_SUMMARY_KEEP_KEYS : list string :=
  ["id"; "name"; "status"; "model"; "kind"; "node_type"; "started_at"; "completed_at"; "duration_ms"; "token_count";
   "input_token_count"; "output_token_count"; "cache_token_count"; "correlation_id"; "member_name"; "parent_session_id";
   "agent_type"; "agent_template"; "display_name"].

(** [l[i:j]] *)
Definition slice_index (len i : Z) : Z := if (i <? 0)%Z then Z.max 0 (i + len) else Z.min i len.
Definition py_slice {A} (l : list A) (i j : Z) : list A :=
  let len := Z.of_nat (length l) in
  let i := slice_index len i in
  take (Z.to_nat (slice_index len j - i)) (drop (Z.to_nat i) l).

(** [{key: d[key] for key in keys if d.get(key) is not None}] *)
Definition present (keys : list string) (d : jdict) : jdict :=
  omap (λ key, match j_get d key with JNull => None | v => Some (key, v) end) keys.

(** [d.get(key, default)] *)
Definition get_or (d : jdict) (key : string) (default_value : json) : json := default default_value (od_get d key).

(** ** Agent fields *)

Definition agent_part (val : string) (chars total i : Z) : json :=
  JObj [("part_idx", JNum i); ("total_parts", JNum total);
        ("content", JStr (str_slice val (i * chars) ((i + 1) * chars)))].

Definition parts_key (field : string) : string := field +:+ "_parts".

Definition split_field (part_bytes : Z) (out : jdict) (field : string) : jdict :=
  match j_get out field with
  | JStr val =>
      if (byte_len val <=? part_bytes)%Z then out
      else
        let chars := chars_per_part part_bytes in
        let total := part_count val chars in
        od_pop (od_set out (parts_key field) (JList (map (agent_part val chars total) (seqZ 0 total)))) field
  | _ => out
  end.

(** [_split_oversized_agent_fields] *)
Definition split_oversized_agent_fields (agent : jdict) (part_bytes : Z) : jdict :=
  foldl (split_field part_bytes) agent SPLITTABLE_AGENT_FIELDS.

(** The client: [parts.sort(by part_idx).map(content ?? "").join("")], for parts
    with a number and a text, as the server writes them *)
Definition part_key (p : json) : Z :=
  match p with JObj d => match j_get d "part_idx" with JNum n => n | _ => 0%Z end | _ => 0%Z end.
Definition part_text (p : json) : string :=
  match p with JObj d => match j_get d "content" with JStr s => s | _ => EmptyString end | _ => EmptyString end.

Definition join_field (out : jdict) (field : string) : jdict :=
  match j_get out (parts_key field) with
  | JList parts =>
      match parts with
      | [] => out
      | _ => od_pop (od_set out field (JStr (concat_str (map part_text (py_sorted part_key parts))))) (parts_key field)
      end
  | _ => out
  end.

(** [reassembleAgentFieldParts] *)
Definition reassemble_agent_field_parts (agent : jdict) : jdict := foldl join_field agent SPLITTABLE_AGENT_FIELDS.

(** ** Summaries *)

(** [summary], [error] and [result] of a run *)
Definition text_field (item out : jdict) (key : string) : jdict :=
  match j_get item key with
  | JNull => out
  | JStr s => if str_true (text_strip s) then od_set out key (JStr s)
              else if od_mem out key then out else od_set out key (JStr s)
  | v => if od_mem out key then out else od_set out key v
  end.

(** [_workflow_list_summary_item] *)
Definition workflow_list_summary_item (item : jdict) : jdict :=
  od_set (foldl (text_field item) (present WORKFLOW_LIST_SUMMARY_KEEP_KEYS item) ["summary"; "error"; "result"])
    "detail_pending" (JBool true).

(** The dictionaries among the items of a value that is iterated *)
Definition dict_items (x : json) : option (list jdict) :=
  match x with
  | JList l => Some (omap as_dict l)
  | JStr _ | JObj _ => Some []
  | _ => None
  end.

Definition slim_group (g : jdict) : option json :=
  votes ← dict_items (get_or g "votes" (JList []));
  Some (JObj (od_set (present VERIFY_GROUP_SUMMARY_KEYS g) "votes"
                (JList (map (λ v, JObj (present VERIFY_VOTE_SUMMARY_KEYS v)) votes)))).

Fixpoint slim_groups (groups : list json) : option (list json) :=
  match groups with
  | [] => Some []
  | JObj g :: groups' => slim ← slim_group g; rest ← slim_groups groups'; Some (slim :: rest)
  | _ :: groups' => slim_groups groups'
  end.

(** [_workflow_phase_summary] *)
Definition workflow_phase_summary (phase : jdict) : option jdict :=
  let out := [("id", get_or phase "id" (JStr "")); ("name", get_or phase "name" (JStr ""));
              ("status", get_or phase "status" (JStr "running")); ("agent_count", get_or phase "agent_count" (JNum 0));
              ("completed_agent_count", get_or phase "completed_agent_count" (JNum 0))] in
  let out := foldl (λ out key, match od_get phase key with Some v => od_set out key v | None => out end) out
               ["phase_type"; "parent_phase"; "nested_phase"; "iteration"] in
  out ← match j_get phase "verify_groups" with
        | JList ((_ :: _) as groups) => slim ← slim_groups groups; Some (od_set out "verify_groups" (JList slim))
        | _ => Some out
        end;
  Some (od_set out "detail_pending" (JBool true)).

(** [_preview_text] *)
Definition preview_text (value : json) : option string :=
  match value with
  | JStr s =>
      let text := text_strip s in
      if negb (str_true text) then None
      else if Nat.leb (text_len text) WORKFLOW_AGENT_SUMMARY_PREVIEW_CHARS then Some text
      else Some (text_slice text 0 WORKFLOW_AGENT_SUMMARY_PREVIEW_CHARS)
  | _ => None
  end.

(** [_workflow_agent_summary] *)
Definition workflow_agent_summary (agent : jdict) : jdict :=
  let out := present WORKFLOW_AGENT_SUMMARY_KEEP_KEYS agent in
  let out := match preview_text (j_get agent "outcome") with
             | Some p => od_set out "outcome_preview" (JStr p) | None => out end in
  let out := match preview_text (j_get agent "error") with
             | Some p => od_set out "error_preview" (JStr p) | None => out end in
  od_set out "detail_pending" (JBool true).

Section workflow.
Context (isprintable : string → bool).

(** [_workflow_run_meta] *)
Definition workflow_run_meta (workflow : jdict) : jdict :=
  let meta := foldl (text_field workflow) (present WORKFLOW_LIST_SUMMARY_KEEP_KEYS workflow)
                ["summary"; "error"; "result"] in
  match j_get workflow "logs" with
  | JList ((_ :: _) as logs) =>
      let meta := od_set meta "logs" (JList (map (λ log, JStr (text_str isprintable log)) (drop (length logs - 10) logs))) in
      if Nat.ltb 10 (length logs) then od_set meta "logs_truncated" (JBool true) else meta
  | _ => meta
  end.

(** [_find_phase], [_find_agent]: the first dictionary of a list with that id *)
Fixpoint find_by_id (id : string) (items : list json) : option jdict :=
  match items with
  | [] => None
  | JObj d :: items' =>
      if match j_get d "id" with JStr s => String.eqb s id | _ => false end then Some d else find_by_id id items'
  | _ :: items' => find_by_id id items'
  end.
Definition list_of (x : json) : list json := match x with JList l => l | _ => [] end.
Definition find_phase (workflow : jdict) (phase_id : string) : option jdict :=
  find_by_id phase_id (list_of (j_get workflow "phases")).
Definition find_agent (phase : jdict) (agent_id : string) : option jdict :=
  find_by_id agent_id (list_of (j_get phase "agents")).

(** ** Pages *)

Definition clamp_limit (limit maximum : Z) : Z := Z.max 1 (Z.min limit maximum).

(** [_build_workflow_list_payload] *)
Definition build_workflow_list_payload (workflows : json) (session_id : string) (offset limit : Z) (total : option Z) : jdict :=
  let source := omap as_dict (list_of workflows) in
  let real_total := default (Z.of_nat (length source)) total in
  let clamped := clamp_limit limit WORKFLOW_LIST_MAX_LIMIT in
  [("type", JStr "workflow_run_snapshot"); ("action", JStr "list"); ("session_id", JStr session_id);
   ("workflows", JList (map (λ item, JObj (workflow_list_summary_item item)) (py_slice source offset (offset + clamped))));
   ("total", JNum real_total); ("has_more", JBool (offset + clamped <? real_total)%Z)].

(** [[f(p) for p in page if isinstance(p, dict)]], when [f] may raise *)
Fixpoint summaries (f : jdict → option jdict) (page : list json) : option (list json) :=
  match page with
  | [] => Some []
  | JObj p :: page' => x ← f p; rest ← summaries f page'; Some (JObj x :: rest)
  | _ :: page' => summaries f page'
  end.

(** [_build_workflow_detail_paginated] *)
Definition build_workflow_detail (workflow : jdict) (session_id : string) (phase_offset phase_limit : Z) : option jdict :=
  let phases := list_of (j_get workflow "phases") in
  let phase_total := Z.of_nat (length phases) in
  let clamped := clamp_limit phase_limit WORKFLOW_PHASE_MAX_LIMIT in
  rows ← summaries workflow_phase_summary (py_slice phases phase_offset (phase_offset + clamped));
  let wf := od_set (workflow_run_meta workflow) "phases" (JList rows) in
  Some [("type", JStr "workflow_run_detail"); ("action", JStr "get_workflow"); ("session_id", JStr session_id);
        ("workflow", JObj wf); ("phase_total", JNum phase_total);
        ("has_more", JBool (phase_offset + clamped <? phase_total)%Z)].

(** [_build_phase_detail_paginated] *)
Definition build_phase_detail (workflow : jdict) (session_id phase_id : string) (agent_offset agent_limit : Z) : option jdict :=
  match find_phase workflow phase_id with
  | None =>
      Some [("type", JStr "workflow_phase_detail"); ("action", JStr "get_phase"); ("session_id", JStr session_id);
            ("workflow_id", j_get workflow "id"); ("phase_id", JStr phase_id); ("ok", JBool false);
            ("error", JStr ("phase not found: " +:+ phase_id))]
  | Some phase =>
      let agents := list_of (j_get phase "agents") in
      let agent_total := Z.of_nat (length agents) in
      let clamped := clamp_limit agent_limit WORKFLOW_AGENT_MAX_LIMIT in
      phase_meta ← workflow_phase_summary phase;
      rows ← summaries (λ a, Some (workflow_agent_summary a)) (py_slice agents agent_offset (agent_offset + clamped));
      let phase_meta := od_set (od_pop phase_meta "detail_pending") "agents" (JList rows) in
      Some [("type", JStr "workflow_phase_detail"); ("action", JStr "get_phase"); ("session_id", JStr session_id);
            ("workflow_id", j_get workflow "id"); ("phase", JObj phase_meta); ("agent_total", JNum agent_total);
            ("has_more", JBool (agent_offset + clamped <? agent_total)%Z)]
  end.

(** [_build_agent_detail] *)
Definition build_agent_detail (workflow : jdict) (session_id phase_id agent_id : string) : jdict :=
  let head := [("type", JStr "workflow_agent_detail"); ("action", JStr "get_agent"); ("session_id", JStr session_id);
               ("workflow_id", j_get workflow "id"); ("phase_id", JStr phase_id)] in
  match find_phase workflow phase_id with
  | None => head ++ [("agent_id", JStr agent_id); ("ok", JBool false); ("error", JStr ("phase not found: " +:+ phase_id))]
  | Some phase =>
      match find_agent phase agent_id with
      | None => head ++ [("agent_id", JStr agent_id); ("ok", JBool false); ("error", JStr ("agent not found: " +:+ agent_id))]
      | Some agent => head ++ [("agent", JObj (split_oversized_agent_fields agent WORKFLOW_AGENT_FIELD_PART_BYTES))]
      end
  end.

(** ** Putting parts together again *)

(** The text of a field that is too long, and the text its parts make *)
Definition oversized (part_bytes : Z) (d : jdict) (field : string) : option string :=
  match j_get d field with
  | JStr val => if (byte_len val <=? part_bytes)%Z then None else Some val
  | _ => None
  end.
Definition joined (d : jdict) (field : string) : option string :=
  match j_get d (parts_key field) with
  | JList ((_ :: _) as parts) => Some (concat_str (map part_text (py_sorted part_key parts)))
  | _ => None
  end.

Definition parts_of (part_bytes : Z) (val : string) : list json :=
  let chars := chars_per_part part_bytes in
  map (agent_part val chars (part_count val chars)) (seqZ 0 (part_count val chars)).

Lemma parts_key_ne f : parts_key f ≠ f.
Proof.
  intros H. apply (f_equal String.length) in H. unfold parts_key in H.
  assert (∀ s t, String.length (s +:+ t) = String.length s + String.length t) as Happ.
  { intros s t. induction s as [|c s IH]; [done|]. exact (f_equal S IH). }
  rewrite Happ in H. simpl in H. lia.
Qed.

Lemma parts_key_inj f g : parts_key f = parts_key g → f = g.
Proof.
  unfold parts_key. revert g. induction f as [|c f IH]; intros [|c' g] H; try done.
  - exfalso. apply (f_equal String.length) in H. by destruct g as [|? [|? [|? [|? [|? [|? g]]]]]].
  - exfalso. apply (f_equal String.length) in H. by destruct f as [|? [|? [|? [|? [|? [|? f]]]]]].
  - injection H as -> H. f_equal. by apply IH.
Qed.

Lemma split_field_get p d f k :
  od_get (split_field p d f) k =
  match oversized p d f with
  | Some val => if decide (k = f) then None else if decide (k = parts_key f) then Some (JList (parts_of p val)) else od_get d k
  | None => od_get d k
  end.
Proof.
  unfold split_field, oversized. destruct (j_get d f) as [| | |val| |]; try done.
  destruct (byte_len val <=? p)%Z; [done|]. cbv zeta. fold (parts_of p val). rewrite od_get_pop.
  destruct (decide (f = k)) as [->|Hne]; [by rewrite decide_True|]. rewrite decide_False by done. rewrite od_get_set.
  destruct (decide (parts_key f = k)) as [->|]; [by rewrite decide_True|by rewrite decide_False].
Qed.

Lemma join_field_get d f k :
  od_get (join_field d f) k =
  match joined d f with
  | Some s => if decide (k = parts_key f) then None else if decide (k = f) then Some (JStr s) else od_get d k
  | None => od_get d k
  end.
Proof.
  unfold join_field, joined. destruct (j_get d (parts_key f)) as [| | | |[|p l]|]; try done. rewrite od_get_pop.
  destruct (decide (parts_key f = k)) as [->|Hne]; [by rewrite decide_True|]. rewrite decide_False by done. rewrite od_get_set.
  destruct (decide (f = k)) as [->|]; [by rewrite decide_True|by rewrite decide_False].
Qed.

#[local] Instance oversized_proper p : Proper (od_eq ==> eq ==> eq) (oversized p).
Proof. intros d e H f ? <-. unfold oversized, j_get. by rewrite H. Qed.

#[local] Instance joined_proper : Proper (od_eq ==> eq ==> eq) joined.
Proof. intros d e H f ? <-. unfold joined, j_get. by rewrite H. Qed.

#[local] Instance join_field_proper : Proper (od_eq ==> eq ==> od_eq) join_field.
Proof. intros d e H f ? <- k. rewrite !join_field_get, H. destruct (joined e f); [|done]. by rewrite H. Qed.

Lemma oversized_get p d e f : od_get d f = od_get e f → oversized p d f = oversized p e f.
Proof. intros H. unfold oversized, j_get. by rewrite H. Qed.

Lemma joined_get d e f : od_get d (parts_key f) = od_get e (parts_key f) → joined d f = joined e f.
Proof. intros H. unfold joined, j_get. by rewrite H. Qed.

(** Joining one field and splitting another commute. *)
Lemma join_split_comm p d f g :
  f ≠ g → parts_key f ≠ g → parts_key g ≠ f →
  od_eq (join_field (split_field p d g) f) (split_field p (join_field d f) g).
Proof.
  intros H1 H2 H3 k. assert (parts_key f ≠ parts_key g) as H4 by (intros ?%parts_key_inj; done).
  rewrite join_field_get, split_field_get, split_field_get, join_field_get.
  assert (joined (split_field p d g) f = joined d f) as ->.
  { apply joined_get. rewrite split_field_get. destruct (oversized p d g); [|done]. by rewrite !decide_False. }
  assert (oversized p (join_field d f) g = oversized p d g) as ->.
  { apply oversized_get. rewrite join_field_get. destruct (joined d f); [|done]. by rewrite !decide_False by done. }
  destruct (joined d f), (oversized p d g); try done.
  repeat case_decide; naive_solver.
Qed.

Lemma part_key_agent v c t i : part_key (agent_part v c t i) = i.
Proof. done. Qed.

Lemma parts_sorted p val : StronglySorted (λ a b, (part_key a ≤ part_key b)%Z) (parts_of p val).
Proof.
  unfold parts_of, seqZ. cbv zeta. set (c := chars_per_part p). set (t := part_count val c). clearbody c t.
  generalize (Z.to_nat t) as n. generalize 0 at 1 as i. intros i n. revert i.
  induction n as [|n IH]; intros i; [constructor|]. cbn [seq fmap list_fmap map]. constructor; [apply IH|].
  apply Forall_forall. intros x Hx. change (map ?f ?l) with (f <$> l) in Hx.
  apply list_elem_of_fmap in Hx as (z & -> & Hz). apply list_elem_of_fmap in Hz as (j & -> & Hj).
  rewrite !part_key_agent. apply elem_of_seq in Hj. lia.
Qed.

(** Joining a field that has been split gives it back. *)
Lemma join_split_field p d f :
  od_get d (parts_key f) = None → od_eq (join_field (split_field p d f) f) d.
Proof.
  intros Hp k. rewrite join_field_get.
  destruct (oversized p d f) as [val|] eqn:Eo.
  - assert (joined (split_field p d f) f = Some val) as ->.
    { unfold joined, j_get. rewrite split_field_get, Eo.
      rewrite decide_False by apply parts_key_ne. rewrite decide_True by done. simpl.
      rewrite py_sorted_id by apply parts_sorted.
      assert (concat_str (map part_text (parts_of p val)) = val) as Hval.
      { unfold parts_of. cbv zeta. rewrite map_map. apply (parts_concat val (chars_per_part p)). unfold chars_per_part. lia. }
      destruct (parts_of p val) as [|x l] eqn:E; [|by rewrite Hval].
      exfalso. apply (f_equal length) in E. unfold parts_of in E. rewrite length_map, length_seqZ in E.
      unfold part_count in E. simpl in E. lia. }
    rewrite split_field_get, Eo.
    destruct (decide (k = parts_key f)) as [->|]; [by rewrite Hp|].
    destruct (decide (k = f)) as [->|]; [|done].
    unfold oversized, j_get in Eo. destruct (od_get d f) as [[| | |s| |]|]; try done. simpl in Eo.
    destruct (byte_len s <=? p)%Z; [done|]. by injection Eo as ->.
  - assert (joined (split_field p d f) f = None) as ->.
    { unfold joined, j_get. by rewrite split_field_get, Eo, Hp. }
    by rewrite split_field_get, Eo.
Qed.

Lemma join_split_fold p d f fs :
  Forall (λ g, f ≠ g ∧ parts_key f ≠ g ∧ parts_key g ≠ f) fs →
  od_eq (join_field (foldl (split_field p) d fs) f) (foldl (split_field p) (join_field d f) fs).
Proof.
  intros Hfs. revert d. induction Hfs as [|g fs (H1 & H2 & H3) _ IH]; intros d; [done|]. cbn [foldl].
  rewrite IH. clear IH.
  assert (∀ d e, od_eq d e → od_eq (foldl (split_field p) d fs) (foldl (split_field p) e fs)) as Hfold.
  { clear. induction fs as [|g fs IH]; intros d e H; [done|]. cbn [foldl]. apply IH.
    intros k. rewrite !split_field_get, H. destruct (oversized p e g); [|done]. by rewrite H. }
  by apply Hfold, join_split_comm.
Qed.

Lemma reassemble_split_fields p fs d :
  ForallPairs (λ f g, f = g ∨ (f ≠ g ∧ parts_key f ≠ g ∧ parts_key g ≠ f)) fs → NoDup fs →
  Forall (λ f, od_get d (parts_key f) = None) fs →
  od_eq (foldl join_field (foldl (split_field p) d fs) fs) d.
Proof.
  intros Hpairs Hnd. revert d. induction Hnd as [|f fs Hf Hnd IH]; intros d Hp; [done|]. cbn [foldl].
  assert (Proper (od_eq ==> od_eq) (λ d, foldl join_field d fs)) as Hprop.
  { clear. induction fs as [|g fs IH]; intros d e H; [done|]. cbn [foldl]. apply IH. by rewrite H. }
  apply Forall_cons in Hp as [Hpf Hp].
  assert (Forall (λ g, f ≠ g ∧ parts_key f ≠ g ∧ parts_key g ≠ f) fs) as Hsep.
  { apply Forall_forall. intros g Hg. destruct (Hpairs f g) as [->|?]; [by left|by right; apply list_elem_of_In|done|done]. }
  etrans; [apply Hprop; etrans; [apply join_split_fold, Hsep|]|].
  { assert (∀ e e', od_eq e e' → od_eq (foldl (split_field p) e fs) (foldl (split_field p) e' fs)) as Hfold.
    { clear. induction fs as [|g fs IH]; intros e e' H; [done|]. cbn [foldl]. apply IH.
      intros k. rewrite !split_field_get, H. destruct (oversized p e' g); [|done]. by rewrite H. }
    apply Hfold, join_split_field, Hpf. }
  apply IH; [|done]. intros g h Hg Hh. apply Hpairs; by right.
Qed.

Lemma agent_fields_lossless agent p :
  Forall (λ f, od_get agent (parts_key f) = None) SPLITTABLE_AGENT_FIELDS →
  od_eq (reassemble_agent_field_parts (split_oversized_agent_fields agent p)) agent.
Proof.
  intros Hp. apply reassemble_split_fields; [|apply (bool_decide_unpack _); vm_compute; exact I|done].
  assert (Forall (λ f, Forall (λ g, f = g ∨ (f ≠ g ∧ parts_key f ≠ g ∧ parts_key g ≠ f)) SPLITTABLE_AGENT_FIELDS)
            SPLITTABLE_AGENT_FIELDS) as H by (apply (bool_decide_unpack _); vm_compute; exact I).
  intros f g Hf%list_elem_of_In Hg%list_elem_of_In. rewrite Forall_forall in H. specialize (H f Hf).
  rewrite Forall_forall in H. by apply H.
Qed.

Lemma find_by_id_spec id items d :
  find_by_id id items = Some d → JObj d ∈ items ∧ j_get d "id" = JStr id.
Proof.
  induction items as [|x items IH]; [done|]. destruct x as [| | | | |e]; cbn [find_by_id];
    try (intros [H1 H2]%IH; split; [by right|done]).
  destruct (j_get e "id") as [| | |s| |] eqn:Ee; try (intros [H1 H2]%IH; split; [by right|done]).
  destruct (String.eqb_spec s id) as [->|]; [|intros [H1 H2]%IH; split; [by right|done]].
  intros [= ->]. split; [by left|done].
Qed.

(** What [get_agent] answers for an agent of a phase is, once the client has put
    the parts of the long texts together, the agent's record itself: every text of
    every length comes through unchanged; for a phase or an agent that is not there
    the answer says so. *)
Theorem agent_detail_lossless workflow sid phase_id agent_id :
  let out := build_agent_detail workflow sid phase_id agent_id in
  match phase ← find_phase workflow phase_id; find_agent phase agent_id with
  | Some agent =>
      JObj agent ∈ list_of (j_get (default [] (find_phase workflow phase_id)) "agents") ∧ j_get agent "id" = JStr agent_id ∧
      ∃ wire, j_get out "agent" = JObj wire ∧
        (Forall (λ f, od_get agent (parts_key f) = None) SPLITTABLE_AGENT_FIELDS →
         ∀ k, od_get (reassemble_agent_field_parts wire) k = od_get agent k)
  | None => j_get out "ok" = JBool false ∧ j_get out "agent" = JNull
  end.
Proof.
  cbv zeta. unfold build_agent_detail. destruct (find_phase workflow phase_id) as [phase|]; simpl; [|done].
  destruct (find_agent phase agent_id) as [agent|] eqn:Ea; [|done].
  apply find_by_id_spec in Ea as [H1 H2]. split_and!; [done|done|]. eexists. split; [reflexivity|].
  intros Hp. apply agent_fields_lossless, Hp.
Qed.

Lemma agent_detail_lossless_witness :
  let agent := [("id", JStr "a1"); ("outcome", JStr long_text); ("prompt", JStr "go")] in
  let workflow := [("id", JStr "w"); ("phases", JList [JObj [("id", JStr "p"); ("agents", JList [JNull; JObj agent])]])] in
  let out := build_agent_detail workflow "s" "p" "a1" in
  JObj agent ∈ list_of (j_get (default [] (find_phase workflow "p")) "agents") ∧ j_get agent "id" = JStr "a1" ∧
  ∃ wire, j_get out "agent" = JObj wire ∧
    (Forall (λ f, od_get agent (parts_key f) = None) SPLITTABLE_AGENT_FIELDS →
     ∀ k, od_get (reassemble_agent_field_parts wire) k = od_get agent k).
Proof.
  intros agent workflow. exact (agent_detail_lossless workflow "s" "p" "a1").
Defined.

(** ** Paging *)

(** A client that asks for a page, and for the next one [step] entries further while
    there are more; [None] if a page raises or the fuel does not suffice *)
Fixpoint collect (page : Z → option (list json * bool)) (step : Z) (fuel : nat) (offset : Z) : option (list json) :=
  match fuel with
  | O => None
  | S fuel' =>
      '(rows, has_more) ← page offset;
      if has_more : bool then (λ rest, rows ++ rest) <$> collect page step fuel' (offset + step) else Some rows
  end.

Lemma py_slice_take {A} (l : list A) i n :
  (0 ≤ i)%Z → (0 ≤ n)%Z → py_slice l i (i + n) = take (Z.to_nat n) (drop (Z.to_nat i) l).
Proof.
  intros Hi Hn. unfold py_slice, slice_index. cbv zeta.
  rewrite !(proj2 (Z.ltb_ge _ _)) by lia.
  destruct (Z.le_gt_cases (Z.of_nat (length l)) i) as [Hle|Hlt].
  - rewrite !drop_ge by lia. by rewrite !take_nil.
  - rewrite (Z.min_l i) by lia.
    destruct (Z.le_gt_cases (i + n) (Z.of_nat (length l))).
    + rewrite Z.min_l by lia. by replace (i + n - i)%Z with n by lia.
    + rewrite Z.min_r by lia. rewrite !take_ge; [done|rewrite length_drop; lia..].
Qed.

Lemma collect_spec {A} (rows : list A → option (list json)) (l : list A) step fuel offset :
  (∀ a b, rows (a ++ b) = (x ← rows a; y ← rows b; Some (x ++ y))) → rows [] = Some [] →
  (1 ≤ step)%Z → (0 ≤ offset)%Z → (Z.of_nat (length l) < offset + Z.of_nat fuel)%Z → 0 < fuel →
  collect (λ off, r ← rows (py_slice l off (off + step)); Some (r, (off + step <? Z.of_nat (length l))%Z)) step fuel offset
  = rows (drop (Z.to_nat offset) l).
Proof.
  intros Happ Hnil Hstep. revert offset. induction fuel as [|fuel IH]; intros offset Ho Hlen Hf; [lia|].
  cbn [collect]. rewrite py_slice_take by lia.
  assert (rows (drop (Z.to_nat offset) l) =
    (x ← rows (take (Z.to_nat step) (drop (Z.to_nat offset) l));
     y ← rows (drop (Z.to_nat (offset + step)) l); Some (x ++ y))) as ->.
  { rewrite <-Happ. rewrite <-(take_drop (Z.to_nat step) (drop (Z.to_nat offset) l)) at 1. rewrite drop_drop.
    do 3 f_equal. lia. }
  destruct (rows (take _ _)) as [x|]; simpl; [|done].
  destruct (Z.ltb_spec (offset + step) (Z.of_nat (length l))).
  - rewrite IH by lia. by destruct (rows (drop _ l)).
  - rewrite drop_ge, Hnil by lia. simpl. by rewrite app_nil_r.
Qed.

Lemma summaries_app f a b : summaries f (a ++ b) = (x ← summaries f a; y ← summaries f b; Some (x ++ y)).
Proof.
  induction a as [|x a IH]; simpl; [by destruct (summaries f b)|].
  destruct x as [| | | | |p]; try exact IH. destruct (f p) as [x|]; simpl; [|done]. rewrite IH.
  destruct (summaries f a); simpl; [|done]. by destruct (summaries f b).
Qed.

(** What a client reads of a payload *)
Definition page_of (payload : jdict) (rows : json) : list json * bool :=
  (list_of rows, match j_get payload "has_more" with JBool b => b | _ => false end).
Definition inner (payload : jdict) (field rows : string) : json :=
  match j_get payload field with JObj d => j_get d rows | _ => JNull end.

Lemma collect_ext f g step fuel offset :
  (∀ off, f off = g off) → collect f step fuel offset = collect g step fuel offset.
Proof.
  intros H. revert offset. induction fuel as [|fuel IH]; intros offset; [done|]. cbn [collect]. rewrite H.
  destruct (g offset) as [[rows []]|]; simpl; [by rewrite IH|done|done].
Qed.

Lemma clamp_positive limit maximum : (1 ≤ clamp_limit limit maximum)%Z.
Proof. unfold clamp_limit. lia. Qed.

(** Paging through the runs of a session, the phases of a run and the agents of a
    phase ends within one request per entry, for every limit a request may name, and
    gives the summary of every entry exactly once and in order. *)
Theorem paging_complete workflows workflow sid phase_id limit :
  let runs := omap as_dict (list_of workflows) in
  let phases := list_of (j_get workflow "phases") in
  collect (λ off, let out := build_workflow_list_payload workflows sid off limit None in
             Some (page_of out (j_get out "workflows")))
    (clamp_limit limit WORKFLOW_LIST_MAX_LIMIT) (S (length runs)) 0
    = Some (map (λ item, JObj (workflow_list_summary_item item)) runs) ∧
  collect (λ off, out ← build_workflow_detail workflow sid off limit; Some (page_of out (inner out "workflow" "phases")))
    (clamp_limit limit WORKFLOW_PHASE_MAX_LIMIT) (S (length phases)) 0 = summaries workflow_phase_summary phases ∧
  match (phase ← find_phase workflow phase_id; _ ← workflow_phase_summary phase; Some phase) with
  | Some phase =>
      let agents := list_of (j_get phase "agents") in
      collect (λ off, out ← build_phase_detail workflow sid phase_id off limit; Some (page_of out (inner out "phase" "agents")))
        (clamp_limit limit WORKFLOW_AGENT_MAX_LIMIT) (S (length agents)) 0
      = summaries (λ a, Some (workflow_agent_summary a)) agents
  | None => True
  end.
Proof.
  cbv zeta. split_and!.
  - set (runs := omap as_dict (list_of workflows)).
    set (rows := λ l : list jdict, Some (map (λ item, JObj (workflow_list_summary_item item)) l)).
    rewrite (collect_ext _ (λ off, r ← rows (py_slice runs off (off + clamp_limit limit WORKFLOW_LIST_MAX_LIMIT));
      Some (r, (off + clamp_limit limit WORKFLOW_LIST_MAX_LIMIT <? Z.of_nat (length runs))%Z))) by done.
    rewrite collect_spec; [reflexivity|by intros; unfold rows; rewrite map_app|done|apply clamp_positive|lia..].
  - set (phases := list_of (j_get workflow "phases")).
    rewrite (collect_ext _ (λ off, r ← summaries workflow_phase_summary (py_slice phases off (off + clamp_limit limit WORKFLOW_PHASE_MAX_LIMIT));
      Some (r, (off + clamp_limit limit WORKFLOW_PHASE_MAX_LIMIT <? Z.of_nat (length phases))%Z))).
    + rewrite collect_spec; [reflexivity|apply summaries_app|done|apply clamp_positive|lia..].
    + intros off. unfold build_workflow_detail. cbv zeta. fold phases.
      destruct (summaries _ _) as [rows|]; [|done]. simpl. unfold inner, page_of, j_get. simpl. by rewrite od_get_set_eq.
  - destruct (find_phase workflow phase_id) as [phase|] eqn:Ef; [|done]. cbn [mbind option_bind].
    destruct (workflow_phase_summary phase) as [meta|] eqn:Em; [|done]. cbn [mbind option_bind].
    set (agents := list_of (j_get phase "agents")).
    rewrite (collect_ext _ (λ off, r ← summaries (λ a, Some (workflow_agent_summary a)) (py_slice agents off (off + clamp_limit limit WORKFLOW_AGENT_MAX_LIMIT));
      Some (r, (off + clamp_limit limit WORKFLOW_AGENT_MAX_LIMIT <? Z.of_nat (length agents))%Z))).
    + rewrite collect_spec; [reflexivity|apply summaries_app|done|apply clamp_positive|lia..].
    + intros off. unfold build_phase_detail. rewrite Ef. cbv zeta. fold agents. rewrite Em. simpl.
      destruct (summaries _ _) as [rows|]; [|done]. simpl. unfold inner, page_of, j_get. simpl. by rewrite od_get_set_eq.
Qed.
End workflow.
